(* ===== verification/_CoqProject ===== *)
-Q . S2P
Prelude.v
Kernel.v
Drivers.v
Devices.v
Lifecycle.v
LifecycleInv.v
LifecycleSafety.v
LifecycleRefine.v
Modules.v
Chains.v
EventGroups.v
SystemEvents.v
SystemEventSpecs.v
Rings.v
AppEvents.v
Text.v
Apps.v
Streams.v
StreamSpecs.v
AppEnv.v
Tasks.v
Resources.v
Files.v
FilesSpecs.v
Manifests.v
ManifestSpecs.v
AppLedger.v
Scheduler.v
AppsOk.v
SchedulerInv.v
SchedulerSections.v
SchedulerSafety.v
SchedulerCorrect.v
Signals.v
Packages.v
Install.v
PackageInv.v
PackageScan.v
PackageInstall.v
PackagesCorrect.v
ShellGlob.v
ShellGlobSpecs.v
ShellLex.v
ShellLexSpecs.v
ShellParse.v
ShellParseSafety.v
ShellParseSpecs.v
Arith.v
ArithSafety.v
ArithSpec.v
ArithCorrect.v
ShellState.v
ShellFrames.v
ShellExpand.v
ShellFields.v
ShellBuiltins.v
ShellTest.v
ShellExec.v
ShellDemo.v
ShellCleanup.v
ShellMachine.v
ShellListing.v
ShellSubshell.v
Bytes.v
Meshtastic.v
MeshtasticSpecs.v
MeshCore.v
MeshCoreSpecs.v
MeshCoreMessages.v
PropertiesFile.v
Preferences.v
Vterm.v
VtermSafety.v
Terminals.v
LineEditor.v
VtermDisplay.v
LineOnScreen.v
Scrollback.v
