(* ===== verification/Prelude.v ===== *)
(** * Verification of Tactility

    Tactility is an operating system for ESP32 devices, with a POSIX simulator.  Its
    kernel (TactilityKernel/) keeps devices, drivers and modules and passes system
    events; the app module (Modules/app-module/) gives running apps descriptors, streams,
    events and an environment; above them are a terminal, a shell, settings stores and two
    mesh radio protocols.  This library models those parts and proves what makes them correct.

    ** Files, and the code they model

    - [Prelude]: error codes of error.h, the state monad in which the source's effects
      are written, its calculus [wp], tactics ([wp_auto], [inv_done], [bsimpl]), the hint
      database [tactility], vectors.
    - Kernel: [Kernel] has the shared data ([Device], [Driver], [Module_], their internal
      records and ledgers) and the interface [Callbacks] to what drivers, modules and
      listeners do.  [Drivers] is driver.cpp; [Devices] is device.cpp and
      device_listener.cpp, one definition per critical section; [Modules] is module.cpp.
      [Lifecycle] makes the critical sections, and the unlocked accesses between them, steps
      of a transition system for any number of tasks and states its invariant, given what
      tasks agree on beyond the locks (a [discipline], which may be nothing); [LifecycleInv] proves that every step keeps it;
      [LifecycleSafety] draws the conclusions; [LifecycleRefine] shows that the
      sequential operations of [Devices] are runs of that system.
    - Events: [Chains] is the interface of the intrusive lists that both event systems
      use, and the loops over them.  [EventGroups] is task_event_group.cpp over the
      FreeRTOS event groups, an interface with laws.  [SystemEvents] and
      [SystemEventSpecs] are system_event.cpp; [AppEvents] is event.cpp of the app module.
    - Apps: [Text] has characters, decimal numbers and lists in text.  [Rings] has ring
      buffers as queues.  [Apps] is the data of running apps; [Streams] is stream.cpp and
      fd_table.cpp, [StreamSpecs] their properties; [AppEnv] is env.cpp.
    - Tasks: [Tasks] has tasks as trees of critical sections, answers of the system, waits
      and forks, the steps of a pool of them, and a logic of what a task owns ([safe])
      that is sound for every interleaving.  [Resources] is resources.cpp.  [AppLedger] is
      the state of the scheduler and the app manager, with what they allocate;
      [Scheduler] is scheduler.cpp and the starting and stopping of manager.cpp;
      [AppsOk], [SchedulerInv] (the protocol of a completion signal and its users),
      [SchedulerSections] (each critical section keeps the invariant) and
      [SchedulerSafety] (each task is safe) prove what [SchedulerCorrect] states.
      [Signals] is signal.cpp.
    - Packages: [Files] is a file system under the C library's calls, fs.h and the paths
      and archives of install.cpp, [FilesSpecs] their properties; [Manifests] is manifest.cpp,
      package_manifest_parsing.cpp with both versions of the format, and
      package_compatibility.cpp, [ManifestSpecs] their properties; [Packages] is manager.cpp
      and start.cpp, [Install] install.cpp.  [PackageInv] has a logic for the task that
      manages packages and the invariant of what is registered; [PackageScan] and
      [PackageInstall] prove the operations and [PackagesCorrect] states what holds for all
      tasks together.
    - Shell (Tactility/Source/app/shell/shell/): [ShellGlob] is sh_glob.c, [ShellLex] sh_lex.c, [ShellParse] sh_parse.cpp,
      a push-down machine.  [ShellState] is sh_state.c with sh_redir.c over the platform
      of sh_port.h, an interface; [ShellFrames] has the frames of sh_machine.h;
      [ShellExpand] is sh_expand.cpp, [ShellBuiltins] sh_builtins.c, and [ShellExec] the
      machine of sh_exec.cpp that steps these frames.  [ShellDemo] instantiates the
      platform in memory, to run the shell on.
    - Shell, properties: [ShellGlobSpecs] (matching as a language), [ShellLexSpecs],
      [ShellParseSafety] and [ShellParseSpecs] (the grammar, its texts and its trees),
      [ShellFields] (field splitting), [ShellTest] (the grammar of test), [ShellCleanup]
      and [ShellMachine] (what a frame changes is undone, however it ends),
      [ShellListing] (the listing of set read back through the whole shell) and
      [ShellSubshell].
    - Shell arithmetic (sh_arith.cpp, the evaluator of "$(( ))"): [Arith] is the
      operator-precedence machine; [ArithSafety] proves that it runs into no undefined
      behaviour but overflow, and stops; [ArithSpec] defines expressions, their texts and
      their meaning; [ArithCorrect] proves that the machine computes it.
    - Terminal (Tactility/Source/app/terminal/): [Vterm] is the writer of vterm/vterm.c,
      with its grid and escape sequences, and that a write is its characters one by one;
      [VtermSafety] shows that it stays inside the grid.  [Terminals] is the rest of that
      file, the set of terminals over one shared buffer, and that they are independent
      screens.  [VtermDisplay] says what a terminal shows, as a text of rows, and what
      sequences do to it.  [Scrollback] is Scrollback.cpp.
    - Line editor (Tactility/Source/app/shell/): [LineEditor] is LineEditor.cpp, with the
      loop of main.cpp and an abstract editor of texts that it refines; [LineOnScreen] puts
      the editor and the terminal together.
    - Mesh radio: [Bytes] has machine words and their order on the air.  [Meshtastic] and
      [MeshtasticSpecs] are meshtastic_protocol.cpp; [MeshCore] is meshcore_packet.cpp,
      meshcore_crypto.cpp and meshcore_protocol.cpp, [MeshCoreSpecs] the packet codec and
      [MeshCoreMessages] the messages from sender to recipient.
    - Stores: [PropertiesFile] is properties_file.cpp,
      [Preferences] is preferences.cpp on top of it.

    Definitions have the names of the functions, types and fields they translate, where
    the names are free.

    ** How the code is represented

    A pointer to a kernel object is a key of a memory map; a key that is absent is a
    dangling pointer.  [M S A] is a computation on the state [S]: it completes, stops the
    system (the source's [check()]), or has undefined behaviour, such as a null
    dereference or an access out of bounds; a theorem that an operation returns [Done]
    excludes the other two.  Errors are values, as in the source.  Function pointers of
    drivers, modules, listeners and files are interfaces (type classes); what clients
    rely on is in the laws of the class ([FreeRtosEventGroupLaws], [HasGroupsLaws],
    [IntrusiveListLaws], [OtherFilesLaws], [LongLaws], [CryptoLaws]), with instances for the components
    that implement it.

    A terminal's grid is a list of cells, and the cell pointer of [vterm_t] is a flag: the
    cells are those of the terminal, or the shared buffer.  Kconfig's sizes and what the
    calling task sees of the grid are type classes ([Config], [Drawable]), so that theorems
    hold for every size.  A colour sequence on which the source loops for ever has the
    result [Panic].

    Machine integers are [Z] with their width where the code depends on it: [long] is
    32 bits wide in the evaluator, as on the device, with overflow either undefined
    ([strict_long]) or wrapping ([wrapping_long]); preferences take the width of [long]
    as an argument; the protocols truncate with [u8], [u16], [u32] and [u64].  Counters
    that the source cannot overflow in its address space are unbounded.

    A task of the scheduler or of the package manager is a tree of critical sections: what
    a mutex protects is one section, and so is an operation of the event groups, the
    streams and the file system.  What the loader, the allocator and the system answer is
    any value of its type, a wait ends with what it waits for or times out, and an app's
    own code is any list of calls.  A created task runs from when it is resumed.  The
    memory of completion signals, contexts, stacks, binaries and sets of manifests is in
    the state, so that using or deleting what is not there has no result; so are the
    mutexes of the tables of descriptors, which an entry that is made by being looked up
    does not have.

    ** Loops and fuel

    Loops without a structural measure take fuel, and a theorem shows that it suffices.
    A task's tree is finite: a wait is one step, and an app's code is a finite list of
    calls.  Recursive deletion takes the length of the longest path ([delete_recursively_correct]) and the
    count of a manifest's apps its limit ([count_apps_fuel]).
    The evaluator's loop finishes on every text and every state of the variables
    ([sh_arith_eval_terminates]), so that its value for all larger fuels is its result.
    The protobuf decoders get as much fuel as there are bytes, and one more
    ([meshtastic_decode_total]); a varint has ten bytes.  Growing a buffer by doubling
    gets the length of the value ([preferences_typed_map] holds for values of any
    length).  Loops over intrusive lists take the number of nodes
    ([IntrusiveList]); on a list that has become cyclic they run out of it, as
    [system_event_resubscribe_cycle] shows the source would not stop.

    A tab takes at most eight steps, since every eighth column ends it
    ([vterm_write_stays_inside] holds for texts with tabs).  The loop over the parameters of
    a colour sequence takes their length, enough for every parameter that it gets past
    ([vterm_write_stays_inside]), and none is enough for the others ([colour_loop_hangs]).
    Finding a line in the scrollback takes the count of lines and one more.

    The scanners of the tokenizer take the length of the source ([sh_lex_total]); the
    machine of the parser takes ten steps for each token and nine more
    ([sh_parse_total]); matching a pattern has a bound of its own
    ([sh_pattern_match_correct]).  A script may loop forever, so that the machine of the
    shell takes its number of steps as an argument and answers [None] when it is used up;
    [sh_run_string_restores] is about every number of steps that is enough, and
    [set_listing_reads_back] gives one.  Inside a step, loops over a word or a file take
    a second number, of the same kind.

    ** What the theorems show

    - Lifecycle: in every interleaving in which each device is added by one task, a started
      device is listed and has a driver; an operation in flight excludes tearing the device
      down; the ledger lists exactly the devices it should.  When moreover updates of use
      counts, which the code does not lock, do not overlap, the driver of a started device
      counts it, so that it is not destructed under it, until the device has been stopped.
      Concrete runs show that both conditions are needed, and that a driver is destructed
      while a device starts.  The operations of a single task refine this system.
    - Modules: starting and stopping are inverse, a module in use cannot be stopped,
      symbols are found in the order of the ledger.
    - Events: what is claimed can be released, who receives an emission and what a poll
      returns, subscribing and unsubscribing, and the list that a second subscription of
      the same node turns into a cycle.
    - Apps: streams and event queues are first-in first-out, an unsubscribed stream leaves
      no descriptor behind, descriptors are allocated lowest first, the environment is a
      map.
    - Scheduler: whatever tasks start and stop apps, in every interleaving nothing is used
      after it was deleted or deleted twice, and one section only fails: a start that
      failed locks the mutex of an entry that a stop by another task has erased.  Where no
      task can go on, all have returned or are there, and when all have returned nothing is
      left.  When tasks stop only what they started nothing fails, and a stop that succeeds
      means that the app has ended.  Concrete runs reach that failure, an app that is
      stopped while it starts and runs on, and a second stop that times out.
    - Packages: what the parser of manifests accepts is well-formed; extraction stays inside
      its directory; recursive deletion deletes what it should; while one task manages
      packages and others run apps nothing is used after it was freed and nothing fails but
      what fails without packages, what is registered stays consistent, and an installation
      that succeeds has registered the package of the archive with all its apps; and
      concrete runs in which another task's start by id uses a freed path, and in which
      uninstalling a package removes an app of another.
    - Shell: the tokenizer and the parser answer on every input, without reading out of
      range, and find in the text of a command line its tokens and its tree; a pattern
      matches the texts that its meaning as a language has; field splitting and test agree
      with their grammars, and the two stacks of test, of a fixed size, are large enough; a
      run that ends leaves the streams, the depth of loops and
      calls and the scopes as it found them; a subshell restores the variables and the
      rest of what it snapshots; what set lists sets the same variables again, if they have
      the names of variables.
    - Shell arithmetic: safety, termination, and equivalence with a reference semantics
      on syntax trees, in which both operands of && and || are evaluated, as the code does
      and C does not; where the second operand has no effect and a value, it is C's.
    - Terminal: a write is the same however it is cut up; it completes inside the grid for
      every text with tame parameters; terminals that share one buffer are independent; the
      scrollback is a list of lines, and the view stays on its text.
    - Line editor: for every sequence of bytes, it executes the lines of an editor of plain
      texts; and after every sequence of editing keys at a prompt the terminal shows the
      prompt and that line, wrapped and scrolled, with the cursor in its place.
    - Mesh radio: codec round trips in both directions, safety on arbitrary input, what
      decoders make of any sequence of fields, and what the recipient of a message reads,
      given that the cipher libraries keep their promises.
    - Stores: preferences survive being put and got; of a properties file, what is on the
      disk and what is read back when any call of the C library fails, or power does.

    ** What is not modelled

    The operating system's tasks, timers and locks: interleaving is modelled between
    critical sections, in [Lifecycle], with the accesses that the code leaves unlocked, and
    in pools of [Tasks]; elsewhere one task runs: so the mutexes of the terminals do not
    appear.  The tasks of the terminal (Terminal.cpp and
    Shell.cpp of the terminal, which move bytes between keyboard, streams and terminal) and
    its renderers, which draw.  [Shell::complete], which is a parameter of the line editor.
    Blocking waits are one call of the wait with its result.  Waiting for the mutex of the
    installer: one task at a time installs.  Symbolic links and file modes, which the
    file systems of the device do not have: [Files] is the build with ESP_PLATFORM, without
    the branch of app_fs_delete_recursively for links on the simulator.  Failed allocations, except where kernel objects are made with
    [std::nothrow].  Logging.  Drivers of hardware, radio and network stacks, the graphics
    library and the apps drawn with it, and vendored libraries.  Of the shell: memory that
    runs out, and the apps that it starts, which are the platform's.

    What could be added next: the stores of the mesh service, the bundle of the kernel, and
    the parsing of URLs. *)

From Stdlib Require Export Ascii String ZArith Lia.
From stdpp Require Export base gmap strings list fin_maps numbers relations.

(** * Notations *)

Declare Scope tactility_scope.
Delimit Scope tactility_scope with tt.
#[global] Open Scope Z_scope.
#[global] Open Scope tactility_scope.

(** Character data: a C string or a [std::string] without its terminator. *)
Abbreviation text := (list ascii).

(** A string literal as [text]. *)
Notation "$ s" := (list_ascii_of_string s%string) (at level 9, s at level 0, only parsing)
  : tactility_scope.

(** * Error codes (TactilityKernel/include/tactility/error.h) *)

(** The source's [error_t] is an [int]: drivers and callbacks may return any value. *)
Abbreviation error_t := Z (only parsing).

Definition ERROR_NONE : error_t := 0.
Definition ERROR_UNDEFINED : error_t := 1.
Definition ERROR_INVALID_STATE : error_t := 2.
Definition ERROR_INVALID_ARGUMENT : error_t := 3.
Definition ERROR_MISSING_PARAMETER : error_t := 4.
Definition ERROR_NOT_FOUND : error_t := 5.
Definition ERROR_ISR_STATUS : error_t := 6.
Definition ERROR_RESOURCE : error_t := 7.
Definition ERROR_TIMEOUT : error_t := 8.
Definition ERROR_OUT_OF_MEMORY : error_t := 9.
Definition ERROR_NOT_SUPPORTED : error_t := 10.
Definition ERROR_NOT_ALLOWED : error_t := 11.
Definition ERROR_BUFFER_OVERFLOW : error_t := 12.
Definition ERROR_OUT_OF_RANGE : error_t := 13.
Definition ERROR_RESOURCE_BUSY : error_t := 14.
Definition ERROR_ALREADY_EXISTS : error_t := 15.
Definition ERROR_NOT_EMPTY : error_t := 16.

(** * Outcomes and the state monad

    A C++ operation either completes, stops the system in [check()], or has
    undefined behaviour (a null dereference, an out of range access, a signed
    overflow).  [M S A] threads a state through such operations. *)

Inductive outcome (A : Type) : Type :=
  | Done (a : A)
  | Panic
  | Undef.
Arguments Done {A} a.
Arguments Panic {A}.
Arguments Undef {A}.

Definition M (S A : Type) : Type := S → outcome (A * S).

#[export] Instance M_ret S : MRet (M S) := λ A a s, Done (a, s).
#[export] Instance M_bind S : MBind (M S) := λ A B f m s,
  match m s with
  | Done (a, s') => f a s'
  | Panic => Panic
  | Undef => Undef
  end.

Definition get {S} : M S S := λ s, Done (s, s).
Definition put {S} (s' : S) : M S unit := λ _, Done (tt, s').
Definition modify {S} (f : S → S) : M S unit := λ s, Done (tt, f s).
Definition gets {S A} (f : S → A) : M S A := λ s, Done (f s, s).
Definition undef {S A} : M S A := λ _, Undef.
(** The source's [check(condition)]. *)
Definition check {S} (b : bool) : M S unit := λ s, if b then Done (tt, s) else Panic.
(** Dereference: a null or dangling pointer is undefined behaviour. *)
Definition deref {S A} (o : S → option A) : M S A := λ s,
  match o s with Some a => Done (a, s) | None => Undef end.

(** A range-based [for] loop. *)
Fixpoint for_list {S A} (body : A → M S unit) (l : list A) : M S unit :=
  match l with [] => mret tt | a :: l' => body a;; for_list body l' end.

(** [o != nullptr], as a condition. *)
Definition is_some {A} (o : option A) : bool := match o with Some _ => true | None => false end.

(** [wp m Q s]: from [s], [m] completes and its result and state satisfy [Q]. *)
Definition wp {S A} (m : M S A) (Q : A → S → Prop) (s : S) : Prop :=
  match m s with Done (a, s') => Q a s' | _ => False end.

Section wp.
Context {S : Type}.
Implicit Types s : S.

Lemma wp_ret {A} (a : A) (Q : A → S → Prop) s : Q a s → wp (mret a) Q s.
Proof. done. Qed.

Lemma wp_bind {A B} (m : M S A) (f : A → M S B) (Q : B → S → Prop) s :
  wp m (λ a, wp (f a) Q) s → wp (m ≫= f) Q s.
Proof. unfold wp, mbind, M_bind. destruct (m s) as [[a s']| |]; done. Qed.

Lemma wp_mono {A} (m : M S A) (P Q : A → S → Prop) s :
  wp m P s → (∀ a s', P a s' → Q a s') → wp m Q s.
Proof. unfold wp. destruct (m s) as [[a s']| |]; auto. Qed.

Lemma wp_conj {A} (m : M S A) (P Q : A → S → Prop) s :
  wp m P s → wp m Q s → wp m (λ a s', P a s' ∧ Q a s') s.
Proof. unfold wp. destruct (m s) as [[a s']| |]; auto. Qed.

Lemma wp_done {A} (m : M S A) (Q : A → S → Prop) s :
  wp m Q s → ∃ a s', m s = Done (a, s') ∧ Q a s'.
Proof. unfold wp. destruct (m s) as [[a s']| |]; naive_solver. Qed.

Lemma wp_get (Q : S → S → Prop) s : Q s s → wp get Q s.
Proof. done. Qed.

Lemma wp_put (Q : unit → S → Prop) s s' : Q tt s' → wp (put s') Q s.
Proof. done. Qed.

Lemma wp_modify (f : S → S) (Q : unit → S → Prop) s : Q tt (f s) → wp (modify f) Q s.
Proof. done. Qed.

Lemma wp_gets {A} (f : S → A) (Q : A → S → Prop) s : Q (f s) s → wp (gets f) Q s.
Proof. done. Qed.

Lemma wp_check (b : bool) (Q : unit → S → Prop) s : b = true → Q tt s → wp (check b) Q s.
Proof. unfold wp, check. by intros ->. Qed.

Lemma wp_deref {A} (o : S → option A) a (Q : A → S → Prop) s :
  o s = Some a → Q a s → wp (deref o) Q s.
Proof. unfold wp, deref. by intros ->. Qed.

Lemma wp_if {A} (b : bool) (m1 m2 : M S A) (Q : A → S → Prop) s :
  (b = true → wp m1 Q s) → (b = false → wp m2 Q s) → wp (if b then m1 else m2) Q s.
Proof. destruct b; auto. Qed.

Lemma bind_done {A B} (m : M S A) (f : A → M S B) s b s'' :
  (m ≫= f) s = Done (b, s'') →
  ∃ a s', m s = Done (a, s') ∧ f a s' = Done (b, s'').
Proof. unfold mbind, M_bind. destruct (m s) as [[a s']| |]; naive_solver. Qed.

Lemma bind_eq {A B} (m : M S A) (f : A → M S B) s a s' :
  m s = Done (a, s') → (m ≫= f) s = f a s'.
Proof. unfold mbind, M_bind. by intros ->. Qed.
End wp.

(** * Automation *)

Create HintDb tactility.

#[export] Hint Resolve wp_ret wp_get wp_put wp_modify wp_gets : tactility.

(** One step of symbolic execution of a monadic program. *)
Ltac wp_step :=
  lazymatch goal with
  | |- wp (_ ≫= _) _ _ => apply wp_bind
  | |- wp (mret _) _ _ => apply wp_ret
  | |- wp get _ _ => apply wp_get
  | |- wp (put _) _ _ => apply wp_put
  | |- wp (modify _) _ _ => apply wp_modify
  | |- wp (gets _) _ _ => apply wp_gets
  | |- wp (deref _) _ _ => eapply wp_deref; [eassumption|]
  | |- wp (check _) _ _ => apply wp_check; [first [assumption|reflexivity]|]
  | |- wp (if ?b then _ else _) _ _ => destruct b eqn:?
  end.
Ltac wp_auto := repeat (wp_step; simpl).

(** Invert every [Done] equation of a monadic program. *)
Ltac inv_done :=
  repeat match goal with
  | H : (_ ≫= _) _ = Done _ |- _ => apply bind_done in H as (? & ? & ? & H)
  | H : Done _ = Done _ |- _ => injection H as H; subst
  | H : Done _ = Panic |- _ => discriminate H
  | H : Done _ = Undef |- _ => discriminate H
  | H : Panic = Done _ |- _ => discriminate H
  | H : Undef = Done _ |- _ => discriminate H
  | H : mret _ _ = Done _ |- _ => injection H as H; subst
  end.

(** Turn boolean tests into propositions. *)
Ltac bsimpl :=
  repeat match goal with
  | H : negb _ = true |- _ => apply negb_true_iff in H
  | H : negb _ = false |- _ => apply negb_false_iff in H
  | H : (_ && _)%bool = true |- _ => apply andb_true_iff in H as [? ?]
  | H : (_ || _)%bool = false |- _ => apply orb_false_iff in H as [? ?]
  | H : bool_decide _ = true |- _ => apply bool_decide_eq_true in H
  | H : bool_decide _ = false |- _ => apply bool_decide_eq_false in H
  end.

(** * Updates of record fields

    [r <| f := x |>] is the record [r] with the field [f] changed.  A record type takes
    part with an instance of [Settable] that rebuilds a record from its fields. *)

Definition constr {E T} (x : T) : E → T := λ _, x.
Definition field_ap {E A B} (f : E → A → B) (x : E → A) : E → B := λ e, f e (x e).
Notation "f <*> x" := (field_ap f x) (at level 61, left associativity) : tactility_scope.
Class Settable (R : Type) := rebuild : R → R.
Class Setter {R T} (proj : R → T) := set_field : (T → T) → R → R.
Arguments set_field {R T} proj {_} f r.
Ltac setter_instance :=
  match goal with
  | |- @Setter ?R ?T ?proj =>
      let eta := eval hnf in (@rebuild R _) in
      let g := eval pattern proj in eta in
      match g with
      | ?h _ =>
          let t := constr:(λ (f : T → T), h (λ r, f (proj r))) in
          let t := eval cbv beta delta [field_ap constr] in t in exact t
      end
  end.
#[export] Hint Extern 0 (Setter _) => setter_instance : typeclass_instances.
Notation "r <| f := x |>" := (set_field f (λ _, x) r)
  (at level 12, f at next level, left associativity, format "r  <| f  :=  x |>") : tactility_scope.

(** * Lists as the source's vectors *)

Section lists.
Context {A : Type} `{EqDecision A}.
Implicit Types (x y : A) (l : list A).

(** [std::ranges::find] followed by [erase]: drops the first occurrence. *)
Fixpoint erase_first (x : A) (l : list A) : list A :=
  match l with
  | [] => []
  | y :: l' => if decide (y = x) then l' else y :: erase_first x l'
  end.

Lemma erase_first_subseteq x l : erase_first x l ⊆ l.
Proof. induction l as [|y l IH]; simpl; [done|]. case_decide; set_solver. Qed.

Lemma erase_first_notin x l : x ∉ l → erase_first x l = l.
Proof.
  induction l as [|y l IH]; simpl; [done|].
  intros [Hx Hl]%not_elem_of_cons. case_decide; [congruence|]. by rewrite IH.
Qed.

Lemma elem_of_erase_first_ne x y l : y ≠ x → y ∈ erase_first x l ↔ y ∈ l.
Proof.
  intros Hne. induction l as [|z l IH]; simpl; [done|].
  case_decide; set_solver.
Qed.

Lemma NoDup_erase_first x l : NoDup l → NoDup (erase_first x l).
Proof.
  induction 1 as [|y l Hy Hl IH]; simpl; [constructor|].
  case_decide; [done|]. constructor; [|done].
  intros Hin. apply Hy. by apply (erase_first_subseteq x l).
Qed.

Lemma not_elem_of_erase_first x l : NoDup l → x ∉ erase_first x l.
Proof.
  induction 1 as [|y l Hy Hl IH]; simpl; [set_solver|].
  case_decide; [by subst|]. set_solver.
Qed.

Lemma NoDup_snoc x l : x ∉ l → NoDup l → NoDup (l ++ [x]).
Proof.
  intros Hx Hl. apply list.NoDup_app. split; [done|]. split; [|apply NoDup_singleton].
  by intros y Hy ->%list_elem_of_singleton.
Qed.

Lemma erase_first_snoc x l : x ∉ l → erase_first x (l ++ [x]) = l.
Proof.
  induction l as [|y l IH]; simpl; intros Hx.
  - by case_decide.
  - apply not_elem_of_cons in Hx as [Hx Hl]. case_decide; [congruence|]. by rewrite IH.
Qed.
End lists.

#[export] Hint Resolve NoDup_erase_first not_elem_of_erase_first : tactility.
