(* ===== verification/Kernel.v ===== *)
(** The kernel's shared data model: devices, drivers and modules, their ledgers
    and the callbacks that drivers and listeners supply.

    A pointer to a [Device], [Driver] or [Module] is a key of the matching memory
    map; a pointer that is not a key dangles.  [internal] is embedded as an
    option: [None] is the source's [nullptr]. *)

From S2P Require Import Prelude.

(** * Drivers (driver.h, driver.cpp) *)

Record DriverInternal := {
  use_count : Z;
  destroying : bool;
  owner : option Z;
}.

(** A function pointer is represented by whether it is non-null: what it does is
    given by [Callbacks] below. *)
Record Driver := {
  driver_name : text;
  compatible : option (list text);
  has_start_device : bool;
  has_stop_device : bool;
  has_probe : bool;
  device_type : option Z;
  driver_internal : option DriverInternal;
}.

Definition new_DriverInternal : DriverInternal :=
  {| use_count := 0; destroying := false; owner := None |}.

Definition with_driver_internal (i : option DriverInternal) (d : Driver) : Driver :=
  {| driver_name := driver_name d; compatible := compatible d;
     has_start_device := has_start_device d; has_stop_device := has_stop_device d;
     has_probe := has_probe d; device_type := device_type d; driver_internal := i |}.

Definition with_use_count (n : Z) (i : DriverInternal) : DriverInternal :=
  {| use_count := n; destroying := destroying i; owner := owner i |}.

Definition with_destroying (b : bool) (i : DriverInternal) : DriverInternal :=
  {| use_count := use_count i; destroying := b; owner := owner i |}.

Definition with_owner (o : option Z) (i : DriverInternal) : DriverInternal :=
  {| use_count := use_count i; destroying := destroying i; owner := o |}.

(** * Devices (device.h, device.cpp) *)

Definition DEVICE_FLAG_HOTPLUG : Z := Z.shiftl 1 4.
Definition DEVICE_HOTPLUG_DEBOUNCE_COUNT : Z := 2.

Record DeviceInternal := {
  driver : option Z;
  driver_data : option Z;
  start_result : error_t;
  started : bool;
  added : bool;
  starting : bool;
  stopping : bool;
  removing : bool;
  children : list Z;
  consecutive : Z;
  present : bool;
  ref_count : Z;
}.

Record Device := {
  device_name : option text;
  parent : option Z;
  flags : Z;
  internal : option DeviceInternal;
}.

Definition new_DeviceInternal : DeviceInternal :=
  {| driver := None; driver_data := None; start_result := 0; started := false; added := false;
     starting := false; stopping := false; removing := false; children := [];
     consecutive := 0; present := false; ref_count := 0 |}.

Definition with_internal (i : option DeviceInternal) (d : Device) : Device :=
  {| device_name := device_name d; parent := parent d; flags := flags d; internal := i |}.

Definition with_parent (p : option Z) (d : Device) : Device :=
  {| device_name := device_name d; parent := p; flags := flags d; internal := internal d |}.

Definition with_flags (f : Z) (d : Device) : Device :=
  {| device_name := device_name d; parent := parent d; flags := f; internal := internal d |}.

Definition with_driver (x : option Z) (i : DeviceInternal) : DeviceInternal :=
  {| driver := x; driver_data := driver_data i; start_result := start_result i;
     started := started i; added := added i; starting := starting i; stopping := stopping i;
     removing := removing i; children := children i; consecutive := consecutive i;
     present := present i; ref_count := ref_count i |}.

Definition with_driver_data (x : option Z) (i : DeviceInternal) : DeviceInternal :=
  {| driver := driver i; driver_data := x; start_result := start_result i;
     started := started i; added := added i; starting := starting i; stopping := stopping i;
     removing := removing i; children := children i; consecutive := consecutive i;
     present := present i; ref_count := ref_count i |}.

Definition with_started (b : bool) (r : error_t) (i : DeviceInternal) : DeviceInternal :=
  {| driver := driver i; driver_data := driver_data i; start_result := r;
     started := b; added := added i; starting := starting i; stopping := stopping i;
     removing := removing i; children := children i; consecutive := consecutive i;
     present := present i; ref_count := ref_count i |}.

Definition with_added (b : bool) (i : DeviceInternal) : DeviceInternal :=
  {| driver := driver i; driver_data := driver_data i; start_result := start_result i;
     started := started i; added := b; starting := starting i; stopping := stopping i;
     removing := removing i; children := children i; consecutive := consecutive i;
     present := present i; ref_count := ref_count i |}.

Definition with_starting (b : bool) (i : DeviceInternal) : DeviceInternal :=
  {| driver := driver i; driver_data := driver_data i; start_result := start_result i;
     started := started i; added := added i; starting := b; stopping := stopping i;
     removing := removing i; children := children i; consecutive := consecutive i;
     present := present i; ref_count := ref_count i |}.

Definition with_stopping (b : bool) (i : DeviceInternal) : DeviceInternal :=
  {| driver := driver i; driver_data := driver_data i; start_result := start_result i;
     started := started i; added := added i; starting := starting i; stopping := b;
     removing := removing i; children := children i; consecutive := consecutive i;
     present := present i; ref_count := ref_count i |}.

Definition with_removing (b : bool) (i : DeviceInternal) : DeviceInternal :=
  {| driver := driver i; driver_data := driver_data i; start_result := start_result i;
     started := started i; added := added i; starting := starting i; stopping := stopping i;
     removing := b; children := children i; consecutive := consecutive i;
     present := present i; ref_count := ref_count i |}.

Definition with_children (l : list Z) (i : DeviceInternal) : DeviceInternal :=
  {| driver := driver i; driver_data := driver_data i; start_result := start_result i;
     started := started i; added := added i; starting := starting i; stopping := stopping i;
     removing := removing i; children := l; consecutive := consecutive i;
     present := present i; ref_count := ref_count i |}.

Definition with_hotplug (n : Z) (b : bool) (i : DeviceInternal) : DeviceInternal :=
  {| driver := driver i; driver_data := driver_data i; start_result := start_result i;
     started := started i; added := added i; starting := starting i; stopping := stopping i;
     removing := removing i; children := children i; consecutive := n;
     present := b; ref_count := ref_count i |}.

Definition with_ref_count (n : Z) (i : DeviceInternal) : DeviceInternal :=
  {| driver := driver i; driver_data := driver_data i; start_result := start_result i;
     started := started i; added := added i; starting := starting i; stopping := stopping i;
     removing := removing i; children := children i; consecutive := consecutive i;
     present := present i; ref_count := n |}.

(** * Modules (module.h, module.cpp) *)

Record ModuleInternal := {
  module_started : bool;
  drivers_ready : bool;
}.

Record Module_ := {
  module_name : text;
  has_start : bool;
  has_stop : bool;
  module_drivers : option (list Z);
  symbols : option (list (text * Z));
  module_internal : option ModuleInternal;
}.

Definition with_module_internal (i : option ModuleInternal) (m : Module_) : Module_ :=
  {| module_name := module_name m; has_start := has_start m; has_stop := has_stop m;
     module_drivers := module_drivers m; symbols := symbols m; module_internal := i |}.

(** * The kernel state *)

Inductive DeviceEvent :=
  | DEVICE_EVENT_STARTED
  | DEVICE_EVENT_STOPPING
  | DEVICE_EVENT_STOPPED.

Record DeviceEventListener := {
  callback : Z;
  callback_context : Z;
}.

#[export] Instance DeviceEventListener_eq_dec : EqDecision DeviceEventListener.
Proof. solve_decision. Defined.

(** [allocs] gives the outcome of the next [new(std::nothrow)]s; allocation
    succeeds once it is exhausted. *)
Record kernel := Kernel {
  devices : gmap Z Device;
  device_ledger : list Z;
  drivers : gmap Z Driver;
  driver_ledger : list Z;
  modules : gmap Z Module_;
  module_ledger : list Z;
  listeners : list DeviceEventListener;
  hotplug_registered_devices : list Z;
  allocs : list bool;
}.

Definition set_devices (m : gmap Z Device) (k : kernel) : kernel :=
  Kernel m (device_ledger k) (drivers k) (driver_ledger k) (modules k) (module_ledger k)
    (listeners k) (hotplug_registered_devices k) (allocs k).
Definition set_device_ledger (l : list Z) (k : kernel) : kernel :=
  Kernel (devices k) l (drivers k) (driver_ledger k) (modules k) (module_ledger k)
    (listeners k) (hotplug_registered_devices k) (allocs k).
Definition set_drivers (m : gmap Z Driver) (k : kernel) : kernel :=
  Kernel (devices k) (device_ledger k) m (driver_ledger k) (modules k) (module_ledger k)
    (listeners k) (hotplug_registered_devices k) (allocs k).
Definition set_driver_ledger (l : list Z) (k : kernel) : kernel :=
  Kernel (devices k) (device_ledger k) (drivers k) l (modules k) (module_ledger k)
    (listeners k) (hotplug_registered_devices k) (allocs k).
Definition set_modules (m : gmap Z Module_) (k : kernel) : kernel :=
  Kernel (devices k) (device_ledger k) (drivers k) (driver_ledger k) m (module_ledger k)
    (listeners k) (hotplug_registered_devices k) (allocs k).
Definition set_module_ledger (l : list Z) (k : kernel) : kernel :=
  Kernel (devices k) (device_ledger k) (drivers k) (driver_ledger k) (modules k) l
    (listeners k) (hotplug_registered_devices k) (allocs k).
Definition set_listeners (l : list DeviceEventListener) (k : kernel) : kernel :=
  Kernel (devices k) (device_ledger k) (drivers k) (driver_ledger k) (modules k) (module_ledger k)
    l (hotplug_registered_devices k) (allocs k).
Definition set_hotplug (l : list Z) (k : kernel) : kernel :=
  Kernel (devices k) (device_ledger k) (drivers k) (driver_ledger k) (modules k) (module_ledger k)
    (listeners k) l (allocs k).
Definition set_allocs (l : list bool) (k : kernel) : kernel :=
  Kernel (devices k) (device_ledger k) (drivers k) (driver_ledger k) (modules k) (module_ledger k)
    (listeners k) (hotplug_registered_devices k) l.

(** * Callbacks

    What drivers, modules and listeners do when the kernel calls them.  They may
    call back into the kernel, so they act on the whole state. *)
Class Callbacks := {
  start_device : Z → Z → M kernel error_t;
  stop_device : Z → Z → M kernel error_t;
  probe : Z → Z → M kernel error_t;
  module_start_fn : Z → M kernel error_t;
  module_stop_fn : Z → M kernel error_t;
  device_listener_callback : Z → Z → DeviceEvent → Z → M kernel unit;
}.

(** * Memory access *)

Definition new_nothrow : M kernel bool := λ k,
  match allocs k with
  | [] => Done (true, k)
  | b :: l => Done (b, set_allocs l k)
  end.

Definition device_at (d : Z) : M kernel Device := deref (λ k, devices k !! d).
Definition upd_device (d : Z) (f : Device → Device) : M kernel unit :=
  dev ← device_at d; modify (λ k, set_devices (<[d := f dev]> (devices k)) k).

Definition internal_at (k : kernel) (d : Z) : option DeviceInternal :=
  devices k !! d ≫= internal.
Definition device_internal (d : Z) : M kernel DeviceInternal := deref (λ k, internal_at k d).
Definition upd_internal (d : Z) (f : DeviceInternal → DeviceInternal) : M kernel unit :=
  i ← device_internal d; upd_device d (with_internal (Some (f i))).

Definition driver_at (r : Z) : M kernel Driver := deref (λ k, drivers k !! r).
Definition upd_driver (r : Z) (f : Driver → Driver) : M kernel unit :=
  drv ← driver_at r; modify (λ k, set_drivers (<[r := f drv]> (drivers k)) k).

Definition driver_internal_at (k : kernel) (r : Z) : option DriverInternal :=
  drivers k !! r ≫= driver_internal.
Definition driver_internal_of (r : Z) : M kernel DriverInternal :=
  deref (λ k, driver_internal_at k r).
Definition upd_driver_internal (r : Z) (f : DriverInternal → DriverInternal) : M kernel unit :=
  i ← driver_internal_of r; upd_driver r (with_driver_internal (Some (f i))).

Definition module_at (m : Z) : M kernel Module_ := deref (λ k, modules k !! m).
Definition upd_module (m : Z) (f : Module_ → Module_) : M kernel unit :=
  x ← module_at m; modify (λ k, set_modules (<[m := f x]> (modules k)) k).
