(* ===== verification/Drivers.v ===== *)
(** The driver registry, TactilityKernel/source/driver.cpp: construction and
    destruction of the kernel side of a driver, the ledger of available drivers,
    compatibility lookup, and binding a driver to a device. *)

From S2P Require Import Prelude Kernel.

Section drivers.
Context `{Callbacks}.

Definition driver_construct (r : Z) : M kernel error_t :=
  ok ← new_nothrow;
  if negb ok then upd_driver r (with_driver_internal None);; mret ERROR_OUT_OF_MEMORY
  else upd_driver r (with_driver_internal (Some new_DriverInternal));; mret ERROR_NONE.

Definition driver_destruct (r : Z) : M kernel error_t :=
  i ← driver_internal_of r;
  if (negb (use_count i =? 0) || destroying i)%bool then mret ERROR_INVALID_STATE
  else
    upd_driver_internal r (with_destroying true);;
    upd_driver r (with_driver_internal None);;
    mret ERROR_NONE.

Definition driver_add (r : Z) : M kernel error_t :=
  modify (λ k, set_driver_ledger (driver_ledger k ++ [r]) k);;
  mret ERROR_NONE.

Definition driver_remove (r : Z) : M kernel error_t :=
  l ← gets driver_ledger;
  if bool_decide (r ∈ l) then
    modify (λ k, set_driver_ledger (erase_first r (driver_ledger k)) k);;
    mret ERROR_NONE
  else mret ERROR_NOT_FOUND.

Definition driver_construct_add (r : Z) : M kernel error_t :=
  e ← driver_construct r;
  if negb (e =? ERROR_NONE) then mret ERROR_RESOURCE
  else
    e ← driver_add r;
    if negb (e =? ERROR_NONE) then mret ERROR_RESOURCE else mret ERROR_NONE.

Definition driver_remove_destruct (r : Z) : M kernel error_t :=
  e ← driver_remove r;
  if negb (e =? ERROR_NONE) then mret ERROR_RESOURCE
  else
    e ← driver_destruct r;
    if negb (e =? ERROR_NONE) then mret ERROR_RESOURCE else mret ERROR_NONE.

Definition driver_set_owner (r : Z) (m : option Z) : M kernel unit :=
  upd_driver_internal r (with_owner m).

Definition driver_get_owner (r : Z) : M kernel (option Z) :=
  i ← driver_internal_of r; mret (owner i).

(** [compatible] is NULL terminated; both pointers may be null. *)
Definition compatible_with (drv : Driver) (c : option text) : bool :=
  match c, compatible drv with
  | Some c, Some l => existsb (λ s, bool_decide (s = c)) l
  | _, _ => false
  end.

Definition driver_is_compatible (r : Z) (c : option text) : M kernel bool :=
  drv ← driver_at r; mret (compatible_with drv c).

Fixpoint find_compatible_in (l : list Z) (c : option text) : M kernel (option Z) :=
  match l with
  | [] => mret None
  | r :: l' =>
      b ← driver_is_compatible r c;
      if (b : bool) then mret (Some r) else find_compatible_in l' c
  end.

Definition driver_find_compatible (c : option text) : M kernel (option Z) :=
  l ← gets driver_ledger; find_compatible_in l c.

Definition driver_get_device_type (r : Z) : M kernel (option Z) :=
  drv ← driver_at r; mret (device_type drv).

Definition device_is_added (d : Z) : M kernel bool :=
  i ← device_internal d; mret (added i).

(** The guard both [driver_bind] and [driver_unbind] begin with. *)
Definition bind_guard (r d : Z) : M kernel bool :=
  i ← driver_internal_of r;
  if destroying i then mret false else device_is_added d.

Definition has_hotplug_flag (dev : Device) : bool :=
  negb (Z.land (flags dev) DEVICE_FLAG_HOTPLUG =? 0).

(** The probe of [driver_bind]: only drivers with a probe and devices that the
    hotplug poller manages are probed. *)
Definition bind_probe (r d : Z) : M kernel bool :=
  drv ← driver_at r;
  dev ← device_at d;
  if (has_probe drv && has_hotplug_flag dev)%bool then
    e ← probe r d; mret (e =? ERROR_NONE)
  else mret true.

Definition bind_start (r d : Z) : M kernel error_t :=
  drv ← driver_at r;
  if has_start_device drv then start_device r d else mret ERROR_NONE.

Definition driver_bind (r d : Z) : M kernel error_t :=
  ok ← bind_guard r d;
  if negb ok then mret ERROR_INVALID_STATE
  else
    here ← bind_probe r d;
    if negb here then mret ERROR_NOT_FOUND
    else
      e ← bind_start r d;
      if negb (e =? ERROR_NONE) then mret e
      else
        upd_driver_internal r (λ i, with_use_count (use_count i + 1) i);;
        mret ERROR_NONE.

Definition unbind_stop (r d : Z) : M kernel error_t :=
  drv ← driver_at r;
  if has_stop_device drv then stop_device r d else mret ERROR_NONE.

Definition driver_unbind (r d : Z) : M kernel error_t :=
  ok ← bind_guard r d;
  if negb ok then mret ERROR_INVALID_STATE
  else
    e ← unbind_stop r d;
    if negb (e =? ERROR_NONE) then mret e
    else
      upd_driver_internal r (λ i, with_use_count (use_count i - 1) i);;
      mret ERROR_NONE.
End drivers.
