(* ===== verification/Devices.v ===== *)
(** The device lifecycle, TactilityKernel/source/device.cpp, with the device
    listeners of device_listener.cpp: construction, the ledger and the device
    tree, starting and stopping through the driver, references, lookups and the
    hotplug poller.

    Every critical section of the source is one definition, so that the
    interleavings of [Lifecycle] and the sequential operations below run the same
    code. *)

From S2P Require Import Prelude Kernel Drivers.

(** * Listeners (device_listener.cpp) *)
Section listeners.
Context `{Callbacks}.

Definition device_listener_add (f c : Z) : M kernel unit :=
  modify (λ k, set_listeners (listeners k ++ [{| callback := f; callback_context := c |}]) k).

Definition device_listener_remove (f c : Z) : M kernel unit :=
  modify (λ k, set_listeners
    (erase_first {| callback := f; callback_context := c |} (listeners k)) k).

Fixpoint notify_each (l : list DeviceEventListener) (d : Z) (e : DeviceEvent) : M kernel unit :=
  match l with
  | [] => mret tt
  | x :: l' =>
      device_listener_callback (callback x) d e (callback_context x);;
      notify_each l' d e
  end.

(** The list is copied first: callbacks may add or remove listeners. *)
Definition device_listener_notify (d : Z) (e : DeviceEvent) : M kernel unit :=
  copy ← gets listeners; notify_each copy d e.
End listeners.

Section devices.
Context `{Callbacks}.

(** * Construction *)

Definition device_construct (d : Z) : M kernel error_t :=
  ok ← new_nothrow;
  if negb ok then upd_device d (with_internal None);; mret ERROR_OUT_OF_MEMORY
  else upd_device d (with_internal (Some new_DeviceInternal));; mret ERROR_NONE.

Definition device_destruct (d : Z) : M kernel error_t :=
  i ← device_internal d;
  if 0 <? ref_count i then mret ERROR_RESOURCE_BUSY
  else if (started i || added i || removing i)%bool then mret ERROR_INVALID_STATE
  else if negb (bool_decide (children i = [])) then mret ERROR_INVALID_STATE
  else upd_device d (with_internal None);; mret ERROR_NONE.

(** * The ledger and the device tree *)

Definition device_add_child (p c : Z) : M kernel unit :=
  i ← device_internal p;
  check (added i);;
  upd_internal p (λ i, with_children (children i ++ [c]) i).

Definition device_remove_child (p c : Z) : M kernel unit :=
  upd_internal p (λ i, with_children (erase_first c (children i)) i).

(** [device_add]'s locked test. *)
Definition add_invalid (d : Z) : M kernel bool :=
  i ← device_internal d; mret (started i || added i || removing i)%bool.

Definition ledger_push (d : Z) : M kernel unit :=
  modify (λ k, set_device_ledger (device_ledger k ++ [d]) k).

Definition link_parent (d : Z) : M kernel unit :=
  dev ← device_at d;
  match parent dev with
  | Some p => device_add_child p d
  | None => mret tt
  end.

Definition add_finish (d : Z) : M kernel unit := upd_internal d (with_added true).

Definition device_add (d : Z) : M kernel error_t :=
  invalid ← add_invalid d;
  if (invalid : bool) then mret ERROR_INVALID_STATE
  else
    ledger_push d;;
    link_parent d;;
    add_finish d;;
    mret ERROR_NONE.

(** [device_remove]'s first critical section: true when the removal may go on. *)
Definition remove_begin (d : Z) : M kernel bool :=
  i ← device_internal d;
  if (started i || starting i || negb (added i))%bool then mret false
  else upd_internal d (λ i, with_removing true (with_added false i));; mret true.

Definition unlink_parent (d : Z) : M kernel unit :=
  dev ← device_at d;
  match parent dev with
  | Some p => device_remove_child p d
  | None => mret tt
  end.

(** The ledger's critical section: true when the device was found and erased. *)
Definition ledger_erase (d : Z) : M kernel bool :=
  l ← gets device_ledger;
  if bool_decide (d ∈ l) then
    modify (λ k, set_device_ledger (erase_first d (device_ledger k)) k);; mret true
  else mret false.

Definition remove_finish (d : Z) : M kernel unit := upd_internal d (with_removing false).

Definition remove_rollback (d : Z) : M kernel unit :=
  upd_internal d (λ i, with_removing false (with_added true i)).

Definition device_remove (d : Z) : M kernel error_t :=
  ok ← remove_begin d;
  if negb ok then mret ERROR_INVALID_STATE
  else
    unlink_parent d;;
    found ← ledger_erase d;
    if (found : bool) then remove_finish d;; mret ERROR_NONE
    else link_parent d;; remove_rollback d;; mret ERROR_NOT_FOUND.

(** * Starting and stopping *)

(** [device_start]'s first critical section: [inl] is an early return. *)
Definition start_begin (d : Z) : M kernel (error_t + unit) :=
  i ← device_internal d;
  if (negb (added i) || negb (bool_decide (is_Some (driver i))))%bool
  then mret (inl ERROR_INVALID_STATE)
  else if started i then mret (inl ERROR_NONE)
  else if starting i then mret (inl ERROR_RESOURCE_BUSY)
  else upd_internal d (with_starting true);; mret (inr tt).

(** The last critical section, after [driver_bind] returned [e]. *)
Definition start_finish (d : Z) (e : error_t) : M kernel unit :=
  upd_internal d (λ i, with_started (e =? ERROR_NONE) e (with_starting false i)).

(** The driver that the device is bound to; the source dereferences it. *)
Definition bound_driver (d : Z) : M kernel Z :=
  deref (λ k, internal_at k d ≫= driver).

Definition device_start (d : Z) : M kernel error_t :=
  b ← start_begin d;
  match b with
  | inl e => mret e
  | inr _ =>
      r ← bound_driver d;
      e ← driver_bind r d;
      start_finish d e;;
      if negb (e =? ERROR_NONE) then
        mret (if e =? ERROR_NOT_FOUND then ERROR_NOT_FOUND else ERROR_RESOURCE)
      else
        device_listener_notify d DEVICE_EVENT_STARTED;;
        mret ERROR_NONE
  end.

Definition stop_begin (d : Z) : M kernel (error_t + unit) :=
  i ← device_internal d;
  if negb (added i) then mret (inl ERROR_INVALID_STATE)
  else if negb (started i) then mret (inl ERROR_NONE)
  else if stopping i then mret (inl ERROR_RESOURCE_BUSY)
  else upd_internal d (with_stopping true);; mret (inr tt).

Definition stop_finish (d : Z) (e : error_t) : M kernel unit :=
  upd_internal d (λ i,
    if negb (e =? ERROR_NONE) then with_stopping false i
    else with_started false 0 (with_stopping false i)).

Definition device_stop (d : Z) : M kernel error_t :=
  b ← stop_begin d;
  match b with
  | inl e => mret e
  | inr _ =>
      device_listener_notify d DEVICE_EVENT_STOPPING;;
      r ← bound_driver d;
      e ← driver_unbind r d;
      stop_finish d e;;
      if negb (e =? ERROR_NONE) then mret ERROR_RESOURCE
      else
        device_listener_notify d DEVICE_EVENT_STOPPED;;
        mret ERROR_NONE
  end.

(** * Accessors *)

Definition device_set_parent (d : Z) (p : option Z) : M kernel unit :=
  i ← device_internal d;
  check (negb (started i));;
  upd_device d (with_parent p).

Definition device_get_parent (d : Z) : M kernel (option Z) :=
  dev ← device_at d; mret (parent dev).

Definition device_set_driver (d : Z) (r : option Z) : M kernel unit :=
  upd_internal d (with_driver r).

Definition device_get_driver (d : Z) : M kernel (option Z) :=
  i ← device_internal d; mret (driver i).

Definition device_is_ready (d : Z) : M kernel bool :=
  i ← device_internal d; mret (started i).

Definition device_is_compatible (d : Z) (c : option text) : M kernel bool :=
  i ← device_internal d;
  match driver i with
  | None => mret false
  | Some r => driver_is_compatible r c
  end.

Definition device_set_driver_data (d : Z) (x : option Z) : M kernel unit :=
  upd_internal d (with_driver_data x).

Definition device_get_driver_data (d : Z) : M kernel (option Z) :=
  i ← device_internal d; mret (driver_data i).

Definition device_is_constructed (d : Z) : M kernel bool :=
  dev ← device_at d; mret (bool_decide (is_Some (internal dev))).

Definition device_get_type (d : Z) : M kernel (option Z) :=
  i ← device_internal d;
  match driver i with
  | None => mret None
  | Some r => driver_get_device_type r
  end.

Definition device_get_child_count (d : Z) : M kernel Z :=
  i ← device_internal d; mret (Z.of_nat (length (children i))).

(** * References *)

Definition device_get (d : Z) : M kernel error_t :=
  dev ← device_at d;
  match internal dev with
  | None => mret ERROR_INVALID_STATE
  | Some _ => upd_internal d (λ i, with_ref_count (ref_count i + 1) i);; mret ERROR_NONE
  end.

Definition device_put (d : Z) : M kernel unit :=
  i ← device_internal d;
  check (0 <? ref_count i);;
  upd_internal d (λ i, with_ref_count (ref_count i - 1) i).

(** * Iteration and lookup *)

(** The source's search loops: the first ledger entry that passes the test. *)
Fixpoint find_device (test : Z → M kernel bool) (l : list Z) : M kernel (option Z) :=
  match l with
  | [] => mret None
  | d :: l' =>
      b ← test d;
      if (b : bool) then mret (Some d) else find_device test l'
  end.

Fixpoint for_each_in (on_device : Z → M kernel bool) (l : list Z) : M kernel unit :=
  match l with
  | [] => mret tt
  | d :: l' =>
      go ← on_device d;
      if (go : bool) then for_each_in on_device l' else mret tt
  end.

Definition device_for_each (on_device : Z → M kernel bool) : M kernel unit :=
  l ← gets device_ledger; for_each_in on_device l.

Definition device_for_each_child (d : Z) (on_device : Z → M kernel bool) : M kernel unit :=
  i ← device_internal d; for_each_in on_device (children i).

(** [driver != nullptr && driver->device_type == type] *)
Definition is_of_type (t : option Z) (d : Z) : M kernel bool :=
  i ← device_internal d;
  match driver i with
  | None => mret false
  | Some r => drv ← driver_at r; mret (bool_decide (device_type drv = t))
  end.

Definition is_active_of_type (t : option Z) (d : Z) : M kernel bool :=
  b ← is_of_type t d;
  if (b : bool) then device_is_ready d else mret false.

Definition device_for_each_of_type (t : option Z) (on_device : Z → M kernel bool)
    : M kernel unit :=
  l ← gets device_ledger;
  for_each_in (λ d, b ← is_of_type t d; if (b : bool) then on_device d else mret true) l.

Definition device_exists_of_type (t : option Z) : M kernel bool :=
  l ← gets device_ledger; o ← find_device (is_of_type t) l; mret (bool_decide (is_Some o)).

Definition device_has_active_by_type (t : option Z) : M kernel bool :=
  l ← gets device_ledger;
  o ← find_device (is_active_of_type t) l; mret (bool_decide (is_Some o)).

(** The tail of the four lookups: take a reference on the device that was
    found.  The result is the error and, on success, [*out_device]. *)
Definition get_found (o : option Z) : M kernel (error_t * option Z) :=
  match o with
  | None => mret (ERROR_NOT_FOUND, None)
  | Some d => e ← device_get d; mret (e, if e =? ERROR_NONE then Some d else None)
  end.

Definition has_name (n : text) (d : Z) : M kernel bool :=
  dev ← device_at d; mret (bool_decide (device_name dev = Some n)).

Definition device_get_by_name (n : text) : M kernel (error_t * option Z) :=
  l ← gets device_ledger; o ← find_device (has_name n) l; get_found o.

Definition device_get_first_by_type (t : option Z) : M kernel (error_t * option Z) :=
  l ← gets device_ledger; o ← find_device (is_of_type t) l; get_found o.

Definition device_get_first_active_by_type (t : option Z) : M kernel (error_t * option Z) :=
  l ← gets device_ledger; o ← find_device (is_active_of_type t) l; get_found o.

Definition device_get_first_by_compatible (c : option text) : M kernel (error_t * option Z) :=
  l ← gets device_ledger; o ← find_device (λ d, device_is_compatible d c) l; get_found o.

(** * Combined construction *)

Definition device_construct_add (d : Z) (c : option text) : M kernel error_t :=
  o ← driver_find_compatible c;
  match o with
  | None => mret ERROR_RESOURCE
  | Some r =>
      e ← device_construct d;
      if negb (e =? ERROR_NONE) then mret e
      else
        device_set_driver d (Some r);;
        e ← device_add d;
        if negb (e =? ERROR_NONE) then device_destruct d;; mret e
        else mret ERROR_NONE
  end.

Definition device_construct_add_start (d : Z) (c : option text) : M kernel error_t :=
  e ← device_construct_add d c;
  if negb (e =? ERROR_NONE) then mret e
  else
    e ← device_start d;
    if negb (e =? ERROR_NONE) then device_remove d;; device_destruct d;; mret e
    else mret ERROR_NONE.

(** * Hotplug *)

Definition device_hotplug_register (d : Z) : M kernel unit :=
  l ← gets hotplug_registered_devices;
  if bool_decide (d ∈ l) then mret tt
  else
    i ← device_internal d;
    (match driver i with
     | Some r =>
         drv ← driver_at r;
         if has_probe drv
         then upd_device d (λ dev, with_flags (Z.lor (flags dev) DEVICE_FLAG_HOTPLUG) dev)
         else mret tt
     | None => mret tt
     end);;
    modify (λ k, set_hotplug (hotplug_registered_devices k ++ [d]) k).

Definition device_hotplug_unregister (d : Z) : M kernel unit :=
  l ← gets hotplug_registered_devices;
  if bool_decide (d ∈ l) then
    modify (λ k, set_hotplug (erase_first d (hotplug_registered_devices k)) k);;
    upd_device d (λ dev, with_flags (Z.ldiff (flags dev) DEVICE_FLAG_HOTPLUG) dev)
  else mret tt.

Record HotplugAction := { action_device : Z; action_start : bool; mandatory : bool }.

(** The devices that could be pinned with [device_get]. *)
Fixpoint hotplug_pin (l : list Z) : M kernel (list Z) :=
  match l with
  | [] => mret []
  | d :: l' =>
      e ← device_get d;
      ds ← hotplug_pin l';
      mret (if e =? ERROR_NONE then d :: ds else ds)
  end.

(** The debounce of one probe result: the new counter and whether to act. *)
Definition debounce (is_present was_present : bool) (n : Z) : Z * bool :=
  if Bool.eqb is_present was_present then (0, false)
  else
    let n' := (n + 1) mod 256 in
    if DEVICE_HOTPLUG_DEBOUNCE_COUNT <=? n' then (0, true) else (n', false).

Definition hotplug_collect_one (d : Z) : M kernel (option HotplugAction) :=
  i ← device_internal d;
  match driver i with
  | None => mret None
  | Some r =>
      drv ← driver_at r;
      if negb (has_probe drv) then
        mret (if started i then None
              else Some {| action_device := d; action_start := true; mandatory := true |})
      else
        e ← probe r d;
        let is_present := e =? ERROR_NONE in
        i ← device_internal d;
        let '(n, act) := debounce is_present (present i) (consecutive i) in
        upd_internal d (λ i, with_hotplug n (present i) i);;
        mret (if (act : bool)
              then Some {| action_device := d; action_start := is_present; mandatory := false |}
              else None)
  end.

Fixpoint hotplug_collect (l : list Z) : M kernel (list HotplugAction) :=
  match l with
  | [] => mret []
  | d :: l' =>
      o ← hotplug_collect_one d;
      acts ← hotplug_collect l';
      mret (match o with Some a => a :: acts | None => acts end)
  end.

Definition hotplug_apply_one (a : HotplugAction) : M kernel error_t :=
  e ← (if action_start a then device_start (action_device a) else device_stop (action_device a));
  (if ((e =? ERROR_NONE) && negb (mandatory a))%bool
   then upd_internal (action_device a) (λ i, with_hotplug (consecutive i) (action_start a) i)
   else mret tt);;
  mret e.

Fixpoint hotplug_apply (l : list HotplugAction) (first : error_t) : M kernel error_t :=
  match l with
  | [] => mret first
  | a :: l' =>
      e ← hotplug_apply_one a;
      hotplug_apply l'
        (if (mandatory a && action_start a && negb (e =? ERROR_NONE)
             && (first =? ERROR_NONE))%bool then e else first)
  end.

Fixpoint hotplug_unpin (l : list Z) : M kernel unit :=
  match l with
  | [] => mret tt
  | d :: l' => device_put d;; hotplug_unpin l'
  end.

Definition device_hotplug_poll_once : M kernel error_t :=
  l ← gets hotplug_registered_devices;
  ds ← hotplug_pin l;
  acts ← hotplug_collect ds;
  first ← hotplug_apply acts ERROR_NONE;
  hotplug_unpin ds;;
  mret first.
End devices.
