(* ===== verification/Lifecycle.v ===== *)
(** Interleavings of the device lifecycle: the critical sections of device.cpp
    and driver.cpp as steps of a transition system in which any number of tasks
    add, start, stop, remove and destruct devices and construct and destruct
    drivers, and the invariant that every reachable configuration satisfies.

    A step is one critical section of the source (or one unlocked access between
    two of them); driver callbacks are interleaved API calls followed by an
    arbitrary result.  [bound] is ghost state: the driver that counted a device
    in its [use_count].

    The code leaves two things unlocked: driver.cpp updates and tests [use_count]
    without a lock, and [device_add] checks that a device is not added in another
    section than the one that lists it.  A [discipline] says whether tasks keep
    these accesses apart; without it, an update is a load and a store, a test comes
    before a deletion, and several calls of [device_add] run on one device.  The
    theorems say which discipline they need, if any. *)

From S2P Require Import Prelude Kernel Drivers Devices.

(** * Memory lemmas *)

Section memory.
Implicit Types (k : kernel) (d r : Z).

Lemma internal_at_set_devices k d x d' :
  internal_at (set_devices (<[d := x]> (devices k)) k) d' =
  if decide (d = d') then internal x else internal_at k d'.
Proof. unfold internal_at. simpl. rewrite lookup_insert. by case_decide. Qed.

Lemma driver_internal_at_set_drivers k r x r' :
  driver_internal_at (set_drivers (<[r := x]> (drivers k)) k) r' =
  if decide (r = r') then driver_internal x else driver_internal_at k r'.
Proof. unfold driver_internal_at. simpl. rewrite lookup_insert. by case_decide. Qed.

Lemma upd_device_done d f k u k' :
  upd_device d f k = Done (u, k') →
  ∃ dev, devices k !! d = Some dev ∧ k' = set_devices (<[d := f dev]> (devices k)) k.
Proof.
  unfold upd_device, device_at, deref, mbind, M_bind.
  destruct (devices k !! d); intros [=]; subst; eauto.
Qed.

Lemma upd_internal_done d f k u k' :
  upd_internal d f k = Done (u, k') →
  ∃ dev i, devices k !! d = Some dev ∧ internal dev = Some i ∧
    k' = set_devices (<[d := with_internal (Some (f i)) dev]> (devices k)) k.
Proof.
  unfold upd_internal, device_internal. intros (i&k1&Hi&H)%bind_done.
  unfold deref in Hi. destruct (internal_at k d) eqn:E; inv_done.
  apply upd_device_done in H as (dev&Hd&->). exists dev, i. split; [done|].
  split; [|done]. unfold internal_at in E. by rewrite Hd in E.
Qed.

Lemma upd_internal_ok d f k i :
  internal_at k d = Some i →
  ∃ dev, devices k !! d = Some dev ∧ internal dev = Some i ∧
  upd_internal d f k =
    Done (tt, set_devices (<[d := with_internal (Some (f i)) dev]> (devices k)) k).
Proof.
  intros E. unfold upd_internal, device_internal, upd_device, device_at, deref, mbind, M_bind.
  rewrite E. unfold internal_at in E. destruct (devices k !! d) as [dev|] eqn:Hd; [|done].
  simpl in E. eauto.
Qed.

Lemma device_internal_done d k i k' :
  device_internal d k = Done (i, k') → k' = k ∧ internal_at k d = Some i.
Proof. unfold device_internal, deref. case_match; naive_solver. Qed.

Lemma upd_driver_done r f k u k' :
  upd_driver r f k = Done (u, k') →
  ∃ drv, drivers k !! r = Some drv ∧ k' = set_drivers (<[r := f drv]> (drivers k)) k.
Proof.
  unfold upd_driver, driver_at, deref, mbind, M_bind.
  destruct (drivers k !! r); intros [=]; subst; eauto.
Qed.

Lemma upd_driver_internal_done r f k u k' :
  upd_driver_internal r f k = Done (u, k') →
  ∃ drv i, drivers k !! r = Some drv ∧ driver_internal drv = Some i ∧
    k' = set_drivers (<[r := with_driver_internal (Some (f i)) drv]> (drivers k)) k.
Proof.
  unfold upd_driver_internal, driver_internal_of, upd_driver, driver_at, deref.
  intros (i&k1&Hi&H)%bind_done.
  destruct (driver_internal_at k r) eqn:E; [injection Hi as <- <-|done].
  unfold mbind, M_bind in H. unfold driver_internal_at in E.
  destruct (drivers k !! r) as [drv|] eqn:Hd; [|done]. simpl in *.
  injection H as _ <-. eauto.
Qed.

Lemma driver_internal_of_done r k i k' :
  driver_internal_of r k = Done (i, k') → k' = k ∧ driver_internal_at k r = Some i.
Proof. unfold driver_internal_of, deref. case_match; naive_solver. Qed.
End memory.

(** * Configurations and steps *)

(** Where an operation that is in flight on a device has got to. *)
Inductive pc :=
  | AddLedger | AddParent | AddFinish
  | RemoveParent | RemoveLedger | RemoveFinish | RemoveRelink | RemoveRollback
  | StartGuard | StartCall (r : Z) | StartCount (r : Z) | StartStore (r n : Z) | StartFinish (e : error_t)
  | StopGuard | StopCall (r : Z) | StopCount (r : Z) | StopStore (r n : Z) | StopFinish (e : error_t).

(** Calls in flight that only tasks without a discipline make: one more [device_add] of a
    device, and a [driver_destruct] that is past its test, or has marked the driver. *)
Inductive race := Adding (d : Z) (p : pc) | Deleting (r : Z) | Marked (r : Z).

(** [serial_counts]: an update of a driver's [use_count] and a [driver_destruct] of the
    driver do not overlap with another.  [single_adder]: while a [device_add] of a device
    is in flight, no other task adds it, destructs it or gives it a driver or parent;
    device.h asks that a driver and a parent are given before the device is added. *)
Record discipline := Discipline { serial_counts : bool; single_adder : bool }.

Record config := Config {
  state : kernel;
  inflight : gmap Z pc;
  bound : gmap Z Z;
  races : list race;
}.

(** The read of [internal->driver] and the guard of [driver_bind] / [driver_unbind]. *)
Definition guard_section (d : Z) : M kernel (Z * bool) :=
  r ← bound_driver d; ok ← bind_guard r d; mret (r, ok).

(** No [device_add] of [d] is in flight. *)
Definition not_adding (fs : gmap Z pc) (d : Z) : Prop :=
  fs !! d ≠ Some AddLedger ∧ fs !! d ≠ Some AddParent ∧ fs !! d ≠ Some AddFinish.

Inductive step (D : discipline) : config → config → Prop :=
  (* operations that are a single critical section *)
  | step_get d k k' fs b rs e :
      device_get d k = Done (e, k') → step D (Config k fs b rs) (Config k' fs b rs)
  | step_put d k k' fs b rs :
      device_put d k = Done (tt, k') → step D (Config k fs b rs) (Config k' fs b rs)
  | step_set_driver_data d x k k' fs b rs :
      device_set_driver_data d x k = Done (tt, k') → step D (Config k fs b rs) (Config k' fs b rs)
  | step_destruct d k k' fs b rs e :
      (single_adder D = true → not_adding fs d) → device_destruct d k = Done (e, k') →
      step D (Config k fs b rs) (Config k' fs b rs)
  | step_construct d k k' fs b rs e :
      internal_at k d = None → device_construct d k = Done (e, k') →
      step D (Config k fs b rs) (Config k' fs b rs)
  | step_set_driver d r k k' fs b rs i :
      internal_at k d = Some i → added i = false → (single_adder D = true → not_adding fs d) →
      removing i = false →
      device_set_driver d r k = Done (tt, k') → step D (Config k fs b rs) (Config k' fs b rs)
  | step_set_parent d p k k' fs b rs i :
      internal_at k d = Some i → added i = false → (single_adder D = true → not_adding fs d) →
      removing i = false →
      device_set_parent d p k = Done (tt, k') → step D (Config k fs b rs) (Config k' fs b rs)
  | step_driver_construct r k k' fs b rs e :
      driver_internal_at k r = None → driver_construct r k = Done (e, k') →
      step D (Config k fs b rs) (Config k' fs b rs)
  | step_driver_destruct r k k' fs b rs e :
      driver_destruct r k = Done (e, k') → step D (Config k fs b rs) (Config k' fs b rs)
  | step_driver_add r k k' fs b rs e :
      driver_add r k = Done (e, k') → step D (Config k fs b rs) (Config k' fs b rs)
  | step_driver_remove r k k' fs b rs e :
      driver_remove r k = Done (e, k') → step D (Config k fs b rs) (Config k' fs b rs)
  (* device_add *)
  | step_add_begin d k k' fs b rs :
      not_adding fs d → add_invalid d k = Done (false, k') →
      step D (Config k fs b rs) (Config k' (<[d := AddLedger]> fs) b rs)
  | step_add_ledger d k k' fs b rs :
      fs !! d = Some AddLedger → ledger_push d k = Done (tt, k') →
      step D (Config k fs b rs) (Config k' (<[d := AddParent]> fs) b rs)
  | step_add_parent d k k' fs b rs :
      fs !! d = Some AddParent → link_parent d k = Done (tt, k') →
      step D (Config k fs b rs) (Config k' (<[d := AddFinish]> fs) b rs)
  | step_add_finish d k k' fs b rs :
      fs !! d = Some AddFinish → add_finish d k = Done (tt, k') →
      step D (Config k fs b rs) (Config k' (delete d fs) b rs)
  (* device_remove *)
  | step_remove_begin d k k' fs b rs :
      remove_begin d k = Done (true, k') →
      step D (Config k fs b rs) (Config k' (<[d := RemoveParent]> fs) b rs)
  | step_remove_parent d k k' fs b rs :
      fs !! d = Some RemoveParent → unlink_parent d k = Done (tt, k') →
      step D (Config k fs b rs) (Config k' (<[d := RemoveLedger]> fs) b rs)
  | step_remove_ledger d k k' fs b rs found :
      fs !! d = Some RemoveLedger → ledger_erase d k = Done (found, k') →
      step D (Config k fs b rs)
        (Config k' (<[d := if found : bool then RemoveFinish else RemoveRelink]> fs) b rs)
  | step_remove_finish d k k' fs b rs :
      fs !! d = Some RemoveFinish → remove_finish d k = Done (tt, k') →
      step D (Config k fs b rs) (Config k' (delete d fs) b rs)
  | step_remove_relink d k k' fs b rs :
      fs !! d = Some RemoveRelink → link_parent d k = Done (tt, k') →
      step D (Config k fs b rs) (Config k' (<[d := RemoveRollback]> fs) b rs)
  | step_remove_rollback d k k' fs b rs :
      fs !! d = Some RemoveRollback → remove_rollback d k = Done (tt, k') →
      step D (Config k fs b rs) (Config k' (delete d fs) b rs)
  (* device_start *)
  | step_start_begin d k k' fs b rs :
      start_begin d k = Done (inr tt, k') →
      step D (Config k fs b rs) (Config k' (<[d := StartGuard]> fs) b rs)
  | step_start_guard d k k' fs b rs r ok :
      fs !! d = Some StartGuard → guard_section d k = Done ((r, ok), k') →
      step D (Config k fs b rs)
        (Config k' (<[d := if ok : bool then StartCall r
                           else StartFinish ERROR_INVALID_STATE]> fs) b rs)
  | step_start_call d k fs b rs r e :
      fs !! d = Some (StartCall r) →
      step D (Config k fs b rs)
        (Config k (<[d := if e =? ERROR_NONE then StartCount r else StartFinish e]> fs) b rs)
  | step_start_count d k k' fs b rs r :
      fs !! d = Some (StartCount r) →
      upd_driver_internal r (λ i, with_use_count (use_count i + 1) i) k = Done (tt, k') →
      step D (Config k fs b rs) (Config k' (<[d := StartFinish ERROR_NONE]> fs) (<[d := r]> b) rs)
  | step_start_finish d k k' fs b rs e :
      fs !! d = Some (StartFinish e) → start_finish d e k = Done (tt, k') →
      step D (Config k fs b rs) (Config k' (delete d fs) b rs)
  (* device_stop *)
  | step_stop_begin d k k' fs b rs :
      stop_begin d k = Done (inr tt, k') →
      step D (Config k fs b rs) (Config k' (<[d := StopGuard]> fs) b rs)
  | step_stop_guard d k k' fs b rs r ok :
      fs !! d = Some StopGuard → guard_section d k = Done ((r, ok), k') →
      step D (Config k fs b rs)
        (Config k' (<[d := if ok : bool then StopCall r
                           else StopFinish ERROR_INVALID_STATE]> fs) b rs)
  | step_stop_call d k fs b rs r e :
      fs !! d = Some (StopCall r) →
      step D (Config k fs b rs)
        (Config k (<[d := if e =? ERROR_NONE then StopCount r else StopFinish e]> fs) b rs)
  | step_stop_count d k k' fs b rs r :
      fs !! d = Some (StopCount r) →
      upd_driver_internal r (λ i, with_use_count (use_count i - 1) i) k = Done (tt, k') →
      step D (Config k fs b rs) (Config k' (<[d := StopFinish ERROR_NONE]> fs) (delete d b) rs)
  | step_stop_finish d k k' fs b rs e :
      fs !! d = Some (StopFinish e) → stop_finish d e k = Done (tt, k') →
      step D (Config k fs b rs) (Config k' (delete d fs) b rs)
  (* without [serial_counts]: the load and the store of an update of [use_count], and the
     test, the mark and the deletion of [driver_destruct] *)
  | step_start_load d k fs b rs r u :
      serial_counts D = false → fs !! d = Some (StartCount r) → driver_internal_at k r = Some u →
      step D (Config k fs b rs) (Config k (<[d := StartStore r (use_count u)]> fs) b rs)
  | step_start_store d k k' fs b rs r n :
      serial_counts D = false → fs !! d = Some (StartStore r n) →
      upd_driver_internal r (with_use_count (n + 1)) k = Done (tt, k') →
      step D (Config k fs b rs) (Config k' (<[d := StartFinish ERROR_NONE]> fs) (<[d := r]> b) rs)
  | step_stop_load d k fs b rs r u :
      serial_counts D = false → fs !! d = Some (StopCount r) → driver_internal_at k r = Some u →
      step D (Config k fs b rs) (Config k (<[d := StopStore r (use_count u)]> fs) b rs)
  | step_stop_store d k k' fs b rs r n :
      serial_counts D = false → fs !! d = Some (StopStore r n) →
      upd_driver_internal r (with_use_count (n - 1)) k = Done (tt, k') →
      step D (Config k fs b rs) (Config k' (<[d := StopFinish ERROR_NONE]> fs) (delete d b) rs)
  | step_delete_test r k fs b rs u :
      serial_counts D = false → driver_internal_at k r = Some u → use_count u = 0 → destroying u = false →
      step D (Config k fs b rs) (Config k fs b (Deleting r :: rs))
  | step_delete_mark r k k' fs b rs1 rs2 :
      serial_counts D = false → upd_driver_internal r (with_destroying true) k = Done (tt, k') →
      step D (Config k fs b (rs1 ++ Deleting r :: rs2)) (Config k' fs b (rs1 ++ Marked r :: rs2))
  | step_delete_free r k k' fs b rs1 rs2 :
      serial_counts D = false → upd_driver r (with_driver_internal None) k = Done (tt, k') →
      step D (Config k fs b (rs1 ++ Marked r :: rs2)) (Config k' fs b (rs1 ++ rs2))
  (* without [single_adder]: one more [device_add] of a device *)
  | step_race_begin d k k' fs b rs :
      single_adder D = false → add_invalid d k = Done (false, k') →
      step D (Config k fs b rs) (Config k' fs b (Adding d AddLedger :: rs))
  | step_race_ledger d k k' fs b rs1 rs2 :
      single_adder D = false → ledger_push d k = Done (tt, k') →
      step D (Config k fs b (rs1 ++ Adding d AddLedger :: rs2)) (Config k' fs b (rs1 ++ Adding d AddParent :: rs2))
  | step_race_parent d k k' fs b rs1 rs2 :
      single_adder D = false → link_parent d k = Done (tt, k') →
      step D (Config k fs b (rs1 ++ Adding d AddParent :: rs2)) (Config k' fs b (rs1 ++ Adding d AddFinish :: rs2))
  | step_race_finish d k k' fs b rs1 rs2 :
      single_adder D = false → add_finish d k = Done (tt, k') →
      step D (Config k fs b (rs1 ++ Adding d AddFinish :: rs2)) (Config k' fs b (rs1 ++ rs2)).

(** * The invariant *)

(** The fields of a device that its lifecycle depends on. *)
Record core := Core {
  c_driver : option Z; c_started : bool; c_added : bool;
  c_starting : bool; c_stopping : bool; c_removing : bool;
}.

Definition core_of (i : DeviceInternal) : core :=
  Core (driver i) (started i) (added i) (starting i) (stopping i) (removing i).

Definition core_at (k : kernel) (d : Z) : option core := core_of <$> internal_at k d.

(** What holds of a device given the operation in flight on it, the driver that
    counts it, and whether the ledger lists it. *)
Definition dev_ok (oc : option core) (p : option pc) (b : option Z) (listed : Prop) : Prop :=
  match oc, p with
  | None, None => b = None ∧ ¬ listed
  | None, Some _ => False
  | Some (Core r s a false false false), None =>
      (s = true → a = true ∧ is_Some r) ∧ b = (if s then r else None) ∧ (listed ↔ a = true)
  | Some c, Some AddLedger =>
      c = Core (c_driver c) false false false false false ∧ b = None ∧ ¬ listed
  | Some c, Some (AddParent | AddFinish) =>
      c = Core (c_driver c) false false false false false ∧ b = None ∧ listed
  | Some c, Some (RemoveParent | RemoveLedger) =>
      c = Core (c_driver c) false false false false true ∧ b = None ∧ listed
  | Some c, Some RemoveFinish =>
      c = Core (c_driver c) false false false false true ∧ b = None ∧ ¬ listed
  | Some c, Some (StartGuard) =>
      c = Core (c_driver c) false true true false false ∧ is_Some (c_driver c)
      ∧ b = None ∧ listed
  | Some c, Some (StartCall r | StartCount r | StartStore r _) =>
      c = Core (Some r) false true true false false ∧ b = None ∧ listed
  | Some c, Some (StartFinish e) =>
      c = Core (c_driver c) false true true false false ∧ is_Some (c_driver c)
      ∧ b = (if e =? ERROR_NONE then c_driver c else None) ∧ listed
  | Some c, Some StopGuard =>
      c = Core (c_driver c) true true false true false ∧ is_Some (c_driver c)
      ∧ b = c_driver c ∧ listed
  | Some c, Some (StopCall r | StopCount r | StopStore r _) =>
      c = Core (Some r) true true false true false ∧ b = Some r ∧ listed
  | Some c, Some (StopFinish e) =>
      c = Core (c_driver c) true true false true false ∧ is_Some (c_driver c)
      ∧ b = (if e =? ERROR_NONE then None else c_driver c) ∧ listed
  | _, _ => False
  end.

#[export] Instance dev_ok_proper : Proper ((=) ==> (=) ==> (=) ==> iff ==> iff) dev_ok.
Proof.
  intros oc ? <- p ? <- b ? <- P Q HPQ.
  destruct oc as [[r [] [] [] [] []]|], p as [[]|]; simpl; rewrite ?HPQ; done.
Qed.

(** The number of devices that [r] counts. *)
Definition bound_count (b : gmap Z Z) (r : Z) : Z :=
  Z.of_nat (size (filter (λ p, p.2 = r) b)).

Definition drv_ok (o : option DriverInternal) (n : Z) : Prop :=
  match o with
  | Some u => use_count u = n ∧ destroying u = false
  | None => n = 0
  end.

Record invariant (D : discipline) (c : config) : Prop := {
  inv_dev d : dev_ok (core_at (state c) d) (inflight c !! d) (bound c !! d)
                (d ∈ device_ledger (state c));
  inv_drv r : serial_counts D = true → drv_ok (driver_internal_at (state c) r) (bound_count (bound c) r);
  inv_nodup : NoDup (device_ledger (state c));
}.

(** The kernel at boot: no device is constructed and no driver. *)
Definition booted (k : kernel) : Prop :=
  (∀ d, internal_at k d = None) ∧ (∀ r, driver_internal_at k r = None) ∧ device_ledger k = [].

Definition reachable (D : discipline) (k0 : kernel) (c : config) : Prop :=
  rtc (step D) (Config k0 ∅ ∅ []) c.

Lemma invariant_initial D k : booted k → invariant D (Config k ∅ ∅ []).
Proof.
  intros (Hd & Hr & Hl). split; simpl.
  - intros d. unfold core_at. rewrite Hd, Hl. split; [done|]. apply not_elem_of_nil.
  - intros r _. by rewrite Hr.
  - rewrite Hl. constructor.
Qed.

(** ** Ghost counting *)

Lemma bound_count_insert b d r r' :
  b !! d = None → bound_count (<[d := r]> b) r' = bound_count b r' + (if decide (r = r') then 1 else 0).
Proof.
  intros Hd. unfold bound_count. case_decide as Hr.
  - subst. rewrite map_filter_insert_True by done.
    rewrite map_size_insert_None; [lia|]. apply map_lookup_filter_None. by left.
  - rewrite map_filter_insert_False by done. rewrite delete_id by done. lia.
Qed.

Lemma bound_count_delete b d r r' :
  b !! d = Some r → bound_count (delete d b) r' = bound_count b r' - (if decide (r = r') then 1 else 0).
Proof.
  intros Hd. rewrite <- (insert_delete_id b d r Hd) at 2.
  rewrite bound_count_insert by apply lookup_delete_eq. lia.
Qed.

Lemma bound_count_pos b d r : b !! d = Some r → 0 < bound_count b r.
Proof.
  intros Hd. pose proof (bound_count_delete b d r r Hd) as H. rewrite decide_True in H by done.
  unfold bound_count in *. lia.
Qed.
