(* ===== verification/LifecycleInv.v ===== *)
(** The invariant of [Lifecycle] is preserved by every step, when each device is added by
    one task; what it says of use counts needs that their updates do not overlap, and is
    left out of it otherwise. *)

From S2P Require Import Prelude Kernel Drivers Devices Lifecycle.

Section invariant.
(** One task adds a device; nothing is said of the updates of use counts. *)
Variable D : discipline.
Hypothesis single : single_adder D = true.
Implicit Types (k : kernel) (fs : gmap Z pc) (b : gmap Z Z) (rs : list race).

(** * Preservation *)

(** ** How critical sections act on the invariant's view of the kernel *)

(** [k'] differs from [k] in the core of [d] at most, which becomes [oc]. *)
Definition core_upd (k k' : kernel) (d : Z) (oc : option core) : Prop :=
  (∀ d', core_at k' d' = if decide (d = d') then oc else core_at k d') ∧
  (∀ r, driver_internal_at k' r = driver_internal_at k r).

Lemma core_upd_refl k d : core_upd k k d (core_at k d).
Proof. split; [|done]. intros d'. case_decide; by subst. Qed.

Lemma core_upd_ledger k l d : core_upd k (set_device_ledger l k) d (core_at k d).
Proof. exact (core_upd_refl k d). Qed.

Lemma upd_internal_core d f k u k' :
  upd_internal d f k = Done (u, k') →
  ∃ i, internal_at k d = Some i ∧ core_upd k k' d (Some (core_of (f i))) ∧
    device_ledger k' = device_ledger k.
Proof.
  intros (dev & i & Hd & Hi & ->)%upd_internal_done. exists i.
  split; [by unfold internal_at; rewrite Hd|]. split; [|done]. split; [|done].
  intros d'. unfold core_at. rewrite internal_at_set_devices. by case_decide.
Qed.

Lemma upd_device_core d f k u k' :
  (∀ dev, internal (f dev) = internal dev) →
  upd_device d f k = Done (u, k') →
  core_upd k k' d (core_at k d) ∧ device_ledger k' = device_ledger k.
Proof.
  intros Hf (dev & Hd & ->)%upd_device_done. split; [|done]. split; [|done].
  intros d'. unfold core_at. rewrite internal_at_set_devices, Hf.
  case_decide; [subst|done]. unfold internal_at. by rewrite Hd.
Qed.

Lemma link_parent_core d k u k' :
  link_parent d k = Done (u, k') →
  (∀ d', core_at k' d' = core_at k d') ∧
  (∀ r, driver_internal_at k' r = driver_internal_at k r) ∧ device_ledger k' = device_ledger k.
Proof.
  unfold link_parent, device_at, device_add_child. intros (dev & k1 & Hd & H)%bind_done.
  unfold deref in Hd. destruct (devices k !! d) eqn:E; [|done]. injection Hd as <- <-.
  destruct (parent _) as [p|]; [|by injection H as _ <-].
  apply bind_done in H as (i & k1 & [-> Hi]%device_internal_done & H).
  apply bind_done in H as (? & k1 & Hc & H).
  unfold check in Hc. destruct (added i); [|done]. injection Hc as _ <-.
  apply upd_internal_core in H as (i' & Hi' & [Hcore Hdrv] & Hl). split; [|done].
  intros d'. rewrite Hcore. case_decide; [subst|done].
  unfold core_at. by rewrite Hi'.
Qed.

Lemma unlink_parent_core d k u k' :
  unlink_parent d k = Done (u, k') →
  (∀ d', core_at k' d' = core_at k d') ∧
  (∀ r, driver_internal_at k' r = driver_internal_at k r) ∧ device_ledger k' = device_ledger k.
Proof.
  unfold unlink_parent, device_at, device_remove_child. intros (dev & k1 & Hd & H)%bind_done.
  unfold deref in Hd. destruct (devices k !! d) eqn:E; [|done]. injection Hd as <- <-.
  destruct (parent _) as [p|]; [|by injection H as _ <-].
  apply upd_internal_core in H as (i' & Hi' & [Hcore Hdrv] & Hl). split; [|done].
  intros d'. rewrite Hcore. case_decide; [subst|done].
  unfold core_at. by rewrite Hi'.
Qed.

Lemma guard_section_done d k r ok k' :
  guard_section d k = Done ((r, ok), k') →
  k' = k ∧ ∃ i u, internal_at k d = Some i ∧ driver i = Some r ∧
    driver_internal_at k r = Some u ∧ (ok = true → destroying u = false ∧ added i = true) ∧
    (ok = false → destroying u = true ∨ added i = false).
Proof.
  unfold guard_section, bind_guard, device_is_added, bound_driver.
  intros (r' & k1 & Hr & H)%bind_done. unfold deref in Hr.
  destruct (internal_at k d) as [i|] eqn:Hi; simpl in Hr; [|done].
  destruct (driver i) eqn:Hdi; [|done]. injection Hr as <- <-.
  apply bind_done in H as (b & k1 & Hb & H). injection H as <- <- <-.
  apply bind_done in Hb as (u & k2 & [-> Hu]%driver_internal_of_done & Hb).
  destruct (destroying u) eqn:Hdes.
  - injection Hb as <- <-. split; [done|]. exists i, u. naive_solver.
  - apply bind_done in Hb as (i' & k3 & [-> Hi']%device_internal_done & Hb).
    injection Hb as <- <-. split; [done|]. exists i, u. rewrite Hi in Hi'.
    injection Hi' as <-. naive_solver.
Qed.

(** ** Preservation schemes *)

(** A step that changes one device, the operation in flight on it and its ghost
    driver, and leaves every driver and the other devices' listing alone. *)
Lemma preserve_dev k k' fs fs' b b' d oc rs :
  invariant D (Config k fs b rs) →
  core_upd k k' d oc →
  (∀ d', d ≠ d' → fs' !! d' = fs !! d') →
  (∀ d', d ≠ d' → b' !! d' = b !! d') →
  (∀ r, bound_count b' r = bound_count b r) →
  (∀ d', d ≠ d' → d' ∈ device_ledger k' ↔ d' ∈ device_ledger k) →
  NoDup (device_ledger k') →
  dev_ok oc (fs' !! d) (b' !! d) (d ∈ device_ledger k') →
  invariant D (Config k' fs' b' rs).
Proof.
  intros [Hdev Hdrv Hnd] [Hcore Hint] Hfs Hb Hn Hl Hnd' Hok. simpl in *. split; simpl; [| |done].
  - intros d'. rewrite Hcore. case_decide as Hd; [by subst|].
    specialize (Hdev d'). rewrite Hfs, Hb by done.
    by rewrite (Hl d' Hd).
  - intros r Hs. rewrite Hint, Hn. by apply Hdrv.
Qed.

Ltac inv_bind := repeat match goal with
  | H : (_ ≫= _) _ = Done _ |- _ => apply bind_done in H as (? & ? & ? & H)
  | H : device_internal _ _ = Done _ |- _ => apply device_internal_done in H as [-> ?]
  | H : driver_internal_of _ _ = Done _ |- _ => apply driver_internal_of_done in H as [-> ?]
  | H : mret _ _ = Done _ |- _ => injection H as H; subst
  end.

(** The invariant of device [d], given what its internals are. *)
Lemma dev_ok_at c d i :
  invariant D c → internal_at (state c) d = Some i →
  dev_ok (Some (core_of i)) (inflight c !! d) (bound c !! d) (d ∈ device_ledger (state c)).
Proof. intros [Hdev _ _] Hi. specialize (Hdev d). unfold core_at in Hdev. by rewrite Hi in Hdev. Qed.

(** Operations that only touch fields the lifecycle does not depend on. *)
Lemma preserve_same k k' fs b d rs :
  core_upd k k' d (core_at k d) → device_ledger k' = device_ledger k →
  invariant D (Config k fs b rs) → invariant D (Config k' fs b rs).
Proof.
  intros Hu Hl Hinv. eapply (preserve_dev k k' fs fs b b d (core_at k d)); auto; rewrite ?Hl; auto.
  - apply Hinv.
  - apply Hinv.
Qed.

Lemma preserve_upd_internal k k' fs b d f u rs :
  (∀ i, core_of (f i) = core_of i) → upd_internal d f k = Done (u, k') →
  invariant D (Config k fs b rs) → invariant D (Config k' fs b rs).
Proof.
  intros Hf (i & Hi & Hu & Hl)%upd_internal_core. apply (preserve_same _ _ _ _ d); [|done].
  unfold core_at. rewrite Hi. simpl. by rewrite <- (Hf i).
Qed.

(** A critical section that rewrites [d]'s internals and moves its operation on. *)
Lemma preserve_section k k' fs fs' b d f u rs :
  upd_internal d f k = Done (u, k') →
  (∀ d', d ≠ d' → fs' !! d' = fs !! d') →
  (∀ i, internal_at k d = Some i →
     dev_ok (Some (core_of i)) (fs !! d) (b !! d) (d ∈ device_ledger k) →
     dev_ok (Some (core_of (f i))) (fs' !! d) (b !! d) (d ∈ device_ledger k)) →
  invariant D (Config k fs b rs) → invariant D (Config k' fs' b rs).
Proof.
  intros (i & Hi & Hu & Hl)%upd_internal_core Hfs Hok Hinv.
  eapply (preserve_dev k k' fs fs' b b d); eauto; rewrite ?Hl; auto; [apply Hinv|].
  apply Hok; [done|]. apply (dev_ok_at _ d i Hinv Hi).
Qed.

(** A step that changes [r]'s use count by [n] and moves [d]'s operation on. *)
Lemma preserve_count k k' fs fs' b b' d r n rs :
  upd_driver_internal r (λ i, with_use_count (use_count i + n) i) k = Done (tt, k') →
  (∀ d', d ≠ d' → fs' !! d' = fs !! d') →
  (∀ d', d ≠ d' → b' !! d' = b !! d') →
  (∀ r', bound_count b' r' = bound_count b r' + (if decide (r = r') then n else 0)) →
  (dev_ok (core_at k d) (fs !! d) (b !! d) (d ∈ device_ledger k) →
   dev_ok (core_at k d) (fs' !! d) (b' !! d) (d ∈ device_ledger k)) →
  invariant D (Config k fs b rs) → invariant D (Config k' fs' b' rs).
Proof.
  intros (drv & u & Hr & Hu & ->)%upd_driver_internal_done Hfs Hb Hn Hok [Hdev Hdrv Hnd].
  simpl in *. split; simpl; [| |done].
  - intros d'. destruct (decide (d = d')) as [<-|Hne]; [by apply Hok|].
    rewrite Hfs, Hb by done. apply Hdev.
  - intros r' Hs. rewrite Hn, driver_internal_at_set_drivers. specialize (Hdrv r' Hs).
    case_decide as Hrr; [subst|by rewrite Z.add_0_r].
    unfold driver_internal_at in Hdrv. rewrite Hr in Hdrv. simpl in *. rewrite Hu in Hdrv.
    simpl in *. destruct Hdrv. split; [lia|done].
Qed.

(** Case analysis of [dev_ok] over the internals [i] and the operation in flight. *)
Ltac by_cases i p :=
  destruct i as [? ? ? [] [] [] [] [] ? ? ? ?]; unfold core_of in *; simpl in *;
  destruct p as [[]|]; simpl in *; try discriminate; try tauto; naive_solver.

Lemma preserve_device_destruct k k' fs b d e rs :
  (single_adder D = true → not_adding fs d) → device_destruct d k = Done (e, k') →
  invariant D (Config k fs b rs) → invariant D (Config k' fs b rs).
Proof.
  unfold device_destruct. intros Hna H Hinv.
  apply bind_done in H as (i & ? & [-> Hi]%device_internal_done & H).
  destruct (0 <? ref_count i); [by injection H as _ <-|].
  destruct (started i || added i || removing i)%bool eqn:Hst; [by injection H as _ <-|].
  destruct (negb _); [by injection H as _ <-|].
  apply bind_done in H as (? & k1 & (dev & Hd & ->)%upd_device_done & H).
  injection H as _ <-. pose proof (dev_ok_at _ d _ Hinv Hi) as Hok.
  eapply (preserve_dev k _ fs fs b b d None); auto; [|apply Hinv|].
  - split; [|done]. intros d'. unfold core_at. rewrite internal_at_set_devices. by case_decide.
  - destruct (Hna single) as (Hn1 & Hn2 & Hn3).
    simpl. destruct i as [? ? ? [] [] [] [] [] ? ? ? ?]; unfold core_of in *; simpl in *; try done;
    destruct (fs !! d) as [[]|]; naive_solver.
Qed.

Lemma new_nothrow_done k ok k' :
  new_nothrow k = Done (ok, k') → ∃ l, k' = set_allocs l k.
Proof.
  unfold new_nothrow. destruct (allocs k) as [|a l]; intros H; injection H as _ <-; eauto.
  exists (allocs k). by destruct k.
Qed.

Lemma preserve_allocs k l fs b rs :
  invariant D (Config k fs b rs) → invariant D (Config (set_allocs l k) fs b rs).
Proof. intros []. split; done. Qed.

Lemma preserve_device_construct k k' fs b d e rs :
  internal_at k d = None → device_construct d k = Done (e, k') →
  invariant D (Config k fs b rs) → invariant D (Config k' fs b rs).
Proof.
  unfold device_construct. intros Hd H Hinv.
  apply bind_done in H as (ok & k1 & [l ->]%new_nothrow_done & H).
  apply (preserve_allocs _ l) in Hinv. set (k1 := set_allocs l k) in *.
  pose proof (inv_dev _ _ Hinv d) as Hok. simpl in Hok.
  assert (core_at k1 d = None) as Hc.
  { unfold core_at. change (internal_at k1 d) with (internal_at k d). by rewrite Hd. }
  rewrite Hc in Hok. simpl in Hok.
  assert (∃ oi, k' = k1 ∨ ∃ dev, k' = set_devices (<[d := with_internal oi dev]> (devices k1)) k1
                 ∧ (oi = None ∨ oi = Some new_DeviceInternal)) as (oi & [->|(dev & -> & Hoi)]); [|done|].
  { destruct ok; simpl in H; apply bind_done in H as (? & ? & (dev & _ & ->)%upd_device_done & H);
    injection H as _ <-; eauto 10. }
  eapply (preserve_dev k1 _ fs fs b b d (core_of <$> oi)); auto; [|apply Hinv|].
  - split; [|done]. intros d'. unfold core_at. rewrite internal_at_set_devices. by case_decide.
  - destruct Hoi as [-> | ->]; simpl; destruct (fs !! d); naive_solver.
Qed.

Lemma preserve_driver_internal k k' fs b r oi rs :
  invariant D (Config k fs b rs) →
  (∀ r', driver_internal_at k' r' = if decide (r = r') then oi else driver_internal_at k r') →
  devices k' = devices k → device_ledger k' = device_ledger k →
  (serial_counts D = true → drv_ok oi (bound_count b r)) → invariant D (Config k' fs b rs).
Proof.
  intros [Hdev Hdrv Hnd] Hr Hd Hl Hok. simpl in *. split; simpl; [|..|by rewrite Hl].
  - intros d. unfold core_at, internal_at. rewrite Hd, Hl. apply Hdev.
  - intros r' Hs. rewrite Hr. case_decide; [subst; by apply Hok|by apply Hdrv].
Qed.

Lemma preserve_driver_construct k k' fs b r e rs :
  driver_internal_at k r = None → driver_construct r k = Done (e, k') →
  invariant D (Config k fs b rs) → invariant D (Config k' fs b rs).
Proof.
  unfold driver_construct. intros Hr H Hinv.
  apply bind_done in H as (ok & k1 & [l ->]%new_nothrow_done & H).
  apply (preserve_allocs _ l) in Hinv. set (k1 := set_allocs l k) in *.
  pose proof (inv_drv _ _ Hinv r) as Hok. simpl in Hok.
  assert (driver_internal_at k1 r = None) as Hc by done. rewrite Hc in Hok. simpl in Hok.
  destruct ok; simpl in H; apply bind_done in H as (? & ? & (drv & _ & ->)%upd_driver_done & H);
  injection H as _ <-;
  (eapply preserve_driver_internal;
    [done|intros r'; apply (driver_internal_at_set_drivers k1)|done|done|]); intros Hs; specialize (Hok Hs); done.
Qed.

Lemma preserve_driver_destruct k k' fs b r e rs :
  driver_destruct r k = Done (e, k') →
  invariant D (Config k fs b rs) → invariant D (Config k' fs b rs).
Proof.
  unfold driver_destruct. intros H Hinv.
  apply bind_done in H as (u & k1 & [-> Hu]%driver_internal_of_done & H).
  destruct (negb _ || _)%bool eqn:Hc; [by injection H as _ <-|].
  apply orb_false_iff in Hc as [Hc%negb_false_iff%Z.eqb_eq _].
  apply bind_done in H as (? & k1 & (drv & u' & Hd & Hu' & ->)%upd_driver_internal_done & H).
  apply bind_done in H as (? & k2 & (drv' & _ & ->)%upd_driver_done & H). injection H as _ <-.
  pose proof (inv_drv _ _ Hinv r) as Hok. simpl in Hok. rewrite Hu in Hok. simpl in Hok.
  apply (preserve_driver_internal k _ fs b r None); [done| |done|done|intros Hs; destruct (Hok Hs); simpl; lia].
  intros r'. unfold driver_internal_at. simpl. rewrite !lookup_insert. by case_decide.
Qed.

(** ** Every step preserves the invariant *)

Lemma preserve_get k k' fs b d e rs :
  device_get d k = Done (e, k') → invariant D (Config k fs b rs) → invariant D (Config k' fs b rs).
Proof.
  unfold device_get, device_at. intros H. apply bind_done in H as (dev & k1 & Hd & H).
  unfold deref in Hd. destruct (devices k !! d); [|done]. injection Hd as <- <-.
  destruct (internal _); [|by injection H as _ <-].
  apply bind_done in H as (u & k2 & H2 & H). injection H as _ <-.
  eapply preserve_upd_internal, H2. by intros [].
Qed.

Lemma preserve_put k k' fs b d rs :
  device_put d k = Done (tt, k') → invariant D (Config k fs b rs) → invariant D (Config k' fs b rs).
Proof.
  unfold device_put. intros H. apply bind_done in H as (i & k1 & [-> _]%device_internal_done & H).
  apply bind_done in H as (u & k2 & Hc & H). unfold check in Hc.
  destruct (0 <? _); [|done]. injection Hc as _ <-.
  eapply preserve_upd_internal, H. by intros [].
Qed.

Lemma preserve_set_driver k k' fs b d i r rs :
  internal_at k d = Some i → added i = false → (single_adder D = true → not_adding fs d) → removing i = false →
  device_set_driver d r k = Done (tt, k') →
  invariant D (Config k fs b rs) → invariant D (Config k' fs b rs).
Proof.
  intros Hi Ha Hn Hr H. destruct (Hn single) as (Hn1 & Hn2 & Hn3). eapply preserve_section; [done..|].
  intros i' Hi'. rewrite Hi in Hi'. injection Hi' as <-.
  destruct i as [? ? ? [] [] [] [] [] ? ? ? ?]; unfold core_of in *; simpl in *; try done;
  destruct (fs !! d) as [[]|]; simpl; naive_solver.
Qed.

Lemma preserve_set_parent k k' fs b d p rs :
  device_set_parent d p k = Done (tt, k') →
  invariant D (Config k fs b rs) → invariant D (Config k' fs b rs).
Proof.
  unfold device_set_parent. intros H Hinv.
  apply bind_done in H as (i & k1 & [-> _]%device_internal_done & H).
  apply bind_done in H as (u & k2 & Hc & H). unfold check in Hc.
  destruct (negb _); [|done]. injection Hc as _ <-.
  apply upd_device_core in H as [Hu Hl]; [|done]. by eapply preserve_same.
Qed.

Lemma preserve_same_moves k k' fs fs' b d rs :
  (∀ d', core_at k' d' = core_at k d') ∧
  (∀ r, driver_internal_at k' r = driver_internal_at k r) ∧
  device_ledger k' = device_ledger k →
  (∀ d', d ≠ d' → fs' !! d' = fs !! d') →
  (dev_ok (core_at k d) (fs !! d) (b !! d) (d ∈ device_ledger k) →
   dev_ok (core_at k d) (fs' !! d) (b !! d) (d ∈ device_ledger k)) →
  invariant D (Config k fs b rs) → invariant D (Config k' fs' b rs).
Proof.
  intros (Hc & Hd & Hl) Hfs Hok Hinv.
  eapply (preserve_dev k k' fs fs' b b d (core_at k d)); auto; rewrite ?Hl; auto.
  - split; [|done]. intros d'. rewrite Hc. case_decide; by subst.
  - apply Hinv.
  - apply Hok, (inv_dev _ _ Hinv d).
Qed.

Lemma preserve_add_begin k k' fs b d rs :
  not_adding fs d → add_invalid d k = Done (false, k') →
  invariant D (Config k fs b rs) → invariant D (Config k' (<[d := AddLedger]> fs) b rs).
Proof.
  unfold add_invalid. intros (Hn1 & Hn2 & Hn3) H Hinv.
  apply bind_done in H as (i & ? & [-> Hi]%device_internal_done & H). injection H as Hf <-.
  pose proof (dev_ok_at _ _ _ Hinv Hi) as Hok.
  eapply (preserve_dev k k fs _ b b d (core_at k d)); auto.
  - apply core_upd_refl.
  - intros. by apply lookup_insert_ne.
  - apply Hinv.
  - rewrite lookup_insert_eq. unfold core_at. rewrite Hi. simpl in *.
    destruct i as [? ? ? [] [] [] [] [] ? ? ? ?]; unfold core_of in *; simpl in *; try done;
    destruct (fs !! d) as [[]|]; simpl in *; naive_solver.
Qed.

Lemma preserve_ledger_push k k' fs b d rs :
  fs !! d = Some AddLedger → ledger_push d k = Done (tt, k') →
  invariant D (Config k fs b rs) → invariant D (Config k' (<[d := AddParent]> fs) b rs).
Proof.
  intros Hd [= <-] Hinv. pose proof (inv_dev _ _ Hinv d) as Hok. simpl in Hok. rewrite Hd in Hok.
  eapply (preserve_dev k _ fs _ b b d (core_at k d)); auto.
  - apply core_upd_ledger.
  - intros. by apply lookup_insert_ne.
  - simpl. intros d' Hne. rewrite elem_of_app, list_elem_of_singleton. naive_solver.
  - simpl. apply NoDup_snoc; [|apply Hinv].
    destruct (core_at k d) as [[? [] [] [] [] []]|]; naive_solver.
  - rewrite lookup_insert_eq. simpl. rewrite elem_of_app, list_elem_of_singleton.
    destruct (core_at k d) as [[? [] [] [] [] []]|]; naive_solver.
Qed.

Lemma preserve_ledger_erase k k' fs b d found rs :
  fs !! d = Some RemoveLedger → ledger_erase d k = Done (found, k') →
  invariant D (Config k fs b rs) →
  found = true ∧ invariant D (Config k' (<[d := RemoveFinish]> fs) b rs).
Proof.
  unfold ledger_erase. intros Hd H Hinv. pose proof (inv_dev _ _ Hinv d) as Hok.
  simpl in Hok. rewrite Hd in Hok.
  apply bind_done in H as (l & ? & [= <- <-] & H).
  assert (d ∈ device_ledger k) as Hin.
  { destruct (core_at k d) as [[? [] [] [] [] []]|]; naive_solver. }
  rewrite bool_decide_true in H by done. injection H as <- <-. split; [done|].
  eapply (preserve_dev k _ fs _ b b d (core_at k d)); auto.
  - apply core_upd_ledger.
  - intros. by apply lookup_insert_ne.
  - simpl. intros d' Hne. by apply elem_of_erase_first_ne.
  - simpl. apply NoDup_erase_first, Hinv.
  - rewrite lookup_insert_eq. simpl.
    assert (d ∉ erase_first d (device_ledger k)) by apply not_elem_of_erase_first, Hinv.
    destruct (core_at k d) as [[? [] [] [] [] []]|]; naive_solver.
Qed.

Ltac other_key := intros ? ?; first [by apply lookup_insert_ne | by apply lookup_delete_ne].

(** Move the operation in flight on [d] by a section that rewrites its internals. *)
Ltac section_step :=
  unfold add_finish, remove_finish, start_finish, stop_finish in *;
  lazymatch goal with
  | Hf : lookup ?d ?fs = Some _, H : upd_internal ?d _ ?k = Done _ |- _ =>
      eapply preserve_section; [exact H|other_key| |done];
      let i := fresh "i" in intros i _; rewrite ?Hf, ?lookup_insert_eq, ?lookup_delete_eq;
      destruct i as [? ? ? [] [] [] [] [] ? ? ? ?]; unfold core_of; simpl
  end.

Ltac moves_step :=
  lazymatch goal with
  | Hf : lookup ?d ?fs = Some _, H : _ ∧ _ ∧ _, Hinv : invariant _ _ |- _ =>
      eapply (preserve_same_moves _ _ fs _ _ d); [exact H|other_key| |exact Hinv];
      rewrite Hf, lookup_insert_eq;
      destruct (core_at _ d) as [[? [] [] [] [] []]|]; simpl; try done
  end.

Lemma start_begin_done d k k' :
  start_begin d k = Done (inr tt, k') →
  ∃ i, internal_at k d = Some i ∧ added i = true ∧ is_Some (driver i) ∧ started i = false ∧
    starting i = false ∧ upd_internal d (with_starting true) k = Done (tt, k').
Proof.
  unfold start_begin. intros H.
  apply bind_done in H as (i & ? & [-> Hi]%device_internal_done & H). exists i.
  destruct (added i), (bool_decide (is_Some (driver i))) eqn:Hd; simpl in H; try done.
  destruct (started i); [done|]. destruct (starting i); [done|].
  apply bind_done in H as ([] & k1 & H & H'). injection H' as <-.
  apply bool_decide_eq_true in Hd. done.
Qed.

Lemma stop_begin_done d k k' :
  stop_begin d k = Done (inr tt, k') →
  ∃ i, internal_at k d = Some i ∧ added i = true ∧ started i = true ∧
    stopping i = false ∧ upd_internal d (with_stopping true) k = Done (tt, k').
Proof.
  unfold stop_begin. intros H.
  apply bind_done in H as (i & ? & [-> Hi]%device_internal_done & H). exists i.
  destruct (added i); [|done]. destruct (started i); [|done]. destruct (stopping i); [done|].
  apply bind_done in H as ([] & k1 & H & H'). by injection H' as <-.
Qed.

Lemma remove_begin_done d k k' :
  remove_begin d k = Done (true, k') →
  ∃ i, internal_at k d = Some i ∧ added i = true ∧ started i = false ∧ starting i = false ∧
    upd_internal d (λ i, with_removing true (with_added false i)) k = Done (tt, k').
Proof.
  unfold remove_begin. intros H.
  apply bind_done in H as (i & ? & [-> Hi]%device_internal_done & H). exists i.
  destruct (started i), (starting i), (added i); try done.
  apply bind_done in H as ([] & k1 & H & H'). by injection H' as <-.
Qed.

Lemma preserve_begin k k' fs b d f u i p rs :
  upd_internal d f k = Done (u, k') → internal_at k d = Some i →
  (dev_ok (Some (core_of i)) (fs !! d) (b !! d) (d ∈ device_ledger k) →
   dev_ok (Some (core_of (f i))) (Some p) (b !! d) (d ∈ device_ledger k)) →
  invariant D (Config k fs b rs) → invariant D (Config k' (<[d := p]> fs) b rs).
Proof.
  intros H Hi Hok. eapply preserve_section; [exact H|other_key|].
  intros i'. rewrite Hi, lookup_insert_eq. by intros [= <-].
Qed.

Lemma preserve_start_count k k' fs b d r rs :
  fs !! d = Some (StartCount r) →
  upd_driver_internal r (λ i, with_use_count (use_count i + 1) i) k = Done (tt, k') →
  invariant D (Config k fs b rs) →
  invariant D (Config k' (<[d := StartFinish ERROR_NONE]> fs) (<[d := r]> b) rs).
Proof.
  intros Hf H Hinv. pose proof (inv_dev _ _ Hinv d) as Hok. simpl in Hok. rewrite Hf in Hok.
  assert (b !! d = None).
  { destruct (core_at k d) as [[? [] [] [] [] []]|]; naive_solver. }
  eapply preserve_count; [exact H|other_key..| | |done].
  - intros r'. by apply bound_count_insert.
  - rewrite Hf, !lookup_insert_eq.
    destruct (core_at k d) as [[? [] [] [] [] []]|]; naive_solver.
Qed.

Lemma preserve_stop_count k k' fs b d r rs :
  fs !! d = Some (StopCount r) →
  upd_driver_internal r (λ i, with_use_count (use_count i - 1) i) k = Done (tt, k') →
  invariant D (Config k fs b rs) →
  invariant D (Config k' (<[d := StopFinish ERROR_NONE]> fs) (delete d b) rs).
Proof.
  intros Hf H Hinv. pose proof (inv_dev _ _ Hinv d) as Hok. simpl in Hok. rewrite Hf in Hok.
  assert (b !! d = Some r).
  { destruct (core_at k d) as [[? [] [] [] [] []]|]; naive_solver. }
  eapply (preserve_count _ _ _ _ _ _ d r (-1)); [exact H|other_key..| | |done].
  - intros r'. rewrite (bound_count_delete b d r) by done. case_decide; lia.
  - rewrite Hf, lookup_insert_eq, lookup_delete_eq.
    destruct (core_at k d) as [[? [] [] [] [] []]|]; naive_solver.
Qed.

(** ** Updates of use counts that overlap *)

(** They change nothing that the invariant says of devices. *)
Lemma preserve_racing k k' fs b rs rs' :
  serial_counts D = false → devices k' = devices k → device_ledger k' = device_ledger k →
  invariant D (Config k fs b rs) → invariant D (Config k' fs b rs').
Proof.
  intros Hs Hd Hl [Hdev _ Hnd]. simpl in *. split; simpl; [|by rewrite Hs|by rewrite Hl].
  intros d. unfold core_at, internal_at. rewrite Hd, Hl. apply Hdev.
Qed.

(** The operation on [d] moves on. *)
Lemma preserve_moves k fs fs' b b' rs d :
  serial_counts D = false → (∀ d', d ≠ d' → fs' !! d' = fs !! d') → (∀ d', d ≠ d' → b' !! d' = b !! d') →
  (dev_ok (core_at k d) (fs !! d) (b !! d) (d ∈ device_ledger k) →
   dev_ok (core_at k d) (fs' !! d) (b' !! d) (d ∈ device_ledger k)) →
  invariant D (Config k fs b rs) → invariant D (Config k fs' b' rs).
Proof.
  intros Hs Hfs Hb Hok [Hdev _ Hnd]. simpl in *. split; simpl; [|by rewrite Hs|done].
  intros d'. destruct (decide (d = d')) as [<-|Hne]; [by apply Hok|]. rewrite Hfs, Hb by done. apply Hdev.
Qed.

Lemma preserve_load k fs b rs d p p' :
  serial_counts D = false → fs !! d = Some p →
  (∃ r n, p = StartCount r ∧ p' = StartStore r n ∨ p = StopCount r ∧ p' = StopStore r n) →
  invariant D (Config k fs b rs) → invariant D (Config k (<[d := p']> fs) b rs).
Proof.
  intros Hs Hf Hp. apply (preserve_moves _ _ _ _ _ _ d Hs); [other_key|done|].
  rewrite Hf, lookup_insert_eq. destruct Hp as (r & n & [[-> ->]|[-> ->]]);
  destruct (core_at k d) as [[? [] [] [] [] []]|]; done.
Qed.

Lemma preserve_store k k' fs fs' b b' rs d r f u :
  serial_counts D = false → upd_driver_internal r f k = Done (u, k') →
  (∀ d', d ≠ d' → fs' !! d' = fs !! d') → (∀ d', d ≠ d' → b' !! d' = b !! d') →
  (dev_ok (core_at k d) (fs !! d) (b !! d) (d ∈ device_ledger k) →
   dev_ok (core_at k d) (fs' !! d) (b' !! d) (d ∈ device_ledger k)) →
  invariant D (Config k fs b rs) → invariant D (Config k' fs' b' rs).
Proof.
  intros Hs (drv & i & _ & _ & ->)%upd_driver_internal_done Hfs Hb Hok Hinv.
  apply (preserve_racing k _ _ _ rs); [done..|]. by eapply preserve_moves.
Qed.

Lemma preserve_start_store k k' fs b rs d r n :
  serial_counts D = false → fs !! d = Some (StartStore r n) →
  upd_driver_internal r (with_use_count (n + 1)) k = Done (tt, k') →
  invariant D (Config k fs b rs) →
  invariant D (Config k' (<[d := StartFinish ERROR_NONE]> fs) (<[d := r]> b) rs).
Proof.
  intros Hs Hf H. eapply preserve_store; [exact Hs|exact H|other_key..|].
  rewrite Hf, !lookup_insert_eq. destruct (core_at k d) as [[? [] [] [] [] []]|]; naive_solver.
Qed.

Lemma preserve_stop_store k k' fs b rs d r n :
  serial_counts D = false → fs !! d = Some (StopStore r n) →
  upd_driver_internal r (with_use_count (n - 1)) k = Done (tt, k') →
  invariant D (Config k fs b rs) →
  invariant D (Config k' (<[d := StopFinish ERROR_NONE]> fs) (delete d b) rs).
Proof.
  intros Hs Hf H. eapply preserve_store; [exact Hs|exact H|other_key..|].
  rewrite Hf, lookup_insert_eq, lookup_delete_eq. destruct (core_at k d) as [[? [] [] [] [] []]|]; naive_solver.
Qed.

Lemma step_invariant c c' : step D c c' → invariant D c → invariant D c'.
Proof.
  destruct 1 as [d k k' fs b rs e H|d k k' fs b rs H|d x k k' fs b rs H|d k k' fs b rs e Hn H
    |d k k' fs b rs e Hi H|d r k k' fs b rs i Hi Ha Hn Hr H|d p k k' fs b rs i Hi Ha Hn Hr H
    |r k k' fs b rs e Hi H|r k k' fs b rs e H|r k k' fs b rs e H|r k k' fs b rs e H
    |d k k' fs b rs Hn H|d k k' fs b rs Hf H|d k k' fs b rs Hf H|d k k' fs b rs Hf H
    |d k k' fs b rs H|d k k' fs b rs Hf H|d k k' fs b rs found Hf H|d k k' fs b rs Hf H
    |d k k' fs b rs Hf H|d k k' fs b rs Hf H
    |d k k' fs b rs H|d k k' fs b rs r ok Hf H|d k fs b rs r e Hf|d k k' fs b rs r Hf H|d k k' fs b rs e Hf H
    |d k k' fs b rs H|d k k' fs b rs r ok Hf H|d k fs b rs r e Hf|d k k' fs b rs r Hf H|d k k' fs b rs e Hf H
    |d k fs b rs r u Hs Hf Hu|d k k' fs b rs r n Hs Hf H|d k fs b rs r u Hs Hf Hu|d k k' fs b rs r n Hs Hf H
    |r k fs b rs u Hs Hu Hz Hm|r k k' fs b rs1 rs2 Hs H|r k k' fs b rs1 rs2 Hs H
    |d k k' fs b rs Hs H|d k k' fs b rs1 rs2 Hs H|d k k' fs b rs1 rs2 Hs H|d k k' fs b rs1 rs2 Hs H];
  intros Hinv.
  - by eapply preserve_get.
  - by eapply preserve_put.
  - eapply preserve_upd_internal, Hinv; [|exact H]. by intros [].
  - by eapply preserve_device_destruct.
  - by eapply preserve_device_construct.
  - by eapply preserve_set_driver.
  - by eapply preserve_set_parent.
  - by eapply preserve_driver_construct.
  - by eapply preserve_driver_destruct.
  - injection H as _ <-. destruct Hinv; by split.
  - unfold driver_remove in H. apply bind_done in H as (l & ? & [= <- <-] & H).
    case_bool_decide; injection H as _ <-; destruct Hinv; by split.
  - by eapply preserve_add_begin.
  - by eapply preserve_ledger_push.
  - apply link_parent_core in H. moves_step.
  - section_step; naive_solver.
  - apply remove_begin_done in H as (i & Hi & Ha & Hs & Hst & H).
    eapply preserve_begin; [exact H|exact Hi| |done].
    destruct i as [? ? ? [] [] [] [] [] ? ? ? ?]; unfold core_of; simpl in *; try done;
    destruct (fs !! d) as [[]|]; naive_solver.
  - apply unlink_parent_core in H. moves_step.
  - eapply preserve_ledger_erase in H as [-> ?]; done.
  - section_step; naive_solver.
  - pose proof (inv_dev _ _ Hinv d) as Hok. simpl in Hok. rewrite Hf in Hok.
    by destruct (core_at k d) as [[? [] [] [] [] []]|].
  - pose proof (inv_dev _ _ Hinv d) as Hok. simpl in Hok. rewrite Hf in Hok.
    by destruct (core_at k d) as [[? [] [] [] [] []]|].
  - apply start_begin_done in H as (i & Hi & Ha & Hd & Hs & Hst & H).
    eapply preserve_begin; [exact H|exact Hi| |done].
    destruct i as [? ? ? [] [] [] [] [] ? ? ? ?]; unfold core_of; simpl in *; try done;
    destruct (fs !! d) as [[]|]; naive_solver.
  - apply guard_section_done in H as [-> (i & u & Hi & Hdr & _)].
    pose proof (dev_ok_at _ _ _ Hinv Hi) as Hok. simpl in Hok. rewrite Hf in Hok.
    eapply (preserve_same_moves k k fs _ b d); [done|other_key| |exact Hinv].
    rewrite Hf, lookup_insert_eq. unfold core_at. rewrite Hi. unfold core_of. simpl.
    destruct ok; destruct i as [? ? ? [] [] [] [] [] ? ? ? ?]; simpl in *; naive_solver.
  - eapply (preserve_same_moves k k fs _ b d); [done|other_key| |exact Hinv].
    rewrite Hf, lookup_insert_eq. destruct (e =? ERROR_NONE) eqn:He;
    destruct (core_at k d) as [[? [] [] [] [] []]|]; simpl; rewrite ?He; naive_solver.
  - by eapply preserve_start_count.
  - section_step; destruct (e =? ERROR_NONE); naive_solver.
  - apply stop_begin_done in H as (i & Hi & Ha & Hs & Hst & H).
    eapply preserve_begin; [exact H|exact Hi| |done].
    destruct i as [? ? ? [] [] [] [] [] ? ? ? ?]; unfold core_of; simpl in *; try done;
    destruct (fs !! d) as [[]|]; naive_solver.
  - apply guard_section_done in H as [-> (i & u & Hi & Hdr & _)].
    pose proof (dev_ok_at _ _ _ Hinv Hi) as Hok. simpl in Hok. rewrite Hf in Hok.
    eapply (preserve_same_moves k k fs _ b d); [done|other_key| |exact Hinv].
    rewrite Hf, lookup_insert_eq. unfold core_at. rewrite Hi. unfold core_of. simpl.
    destruct ok; destruct i as [? ? ? [] [] [] [] [] ? ? ? ?]; simpl in *; naive_solver.
  - eapply (preserve_same_moves k k fs _ b d); [done|other_key| |exact Hinv].
    rewrite Hf, lookup_insert_eq. destruct (e =? ERROR_NONE) eqn:He;
    destruct (core_at k d) as [[? [] [] [] [] []]|]; simpl; rewrite ?He; naive_solver.
  - by eapply preserve_stop_count.
  - section_step; destruct (e =? ERROR_NONE) eqn:He; simpl; naive_solver.
  - eapply preserve_load; [exact Hs|exact Hf| |exact Hinv]. by eauto 10.
  - by eapply preserve_start_store.
  - eapply preserve_load; [exact Hs|exact Hf| |exact Hinv]. by eauto 10.
  - by eapply preserve_stop_store.
  - by eapply preserve_racing.
  - apply upd_driver_internal_done in H as (drv & u & _ & _ & ->). by apply (preserve_racing k _ fs b (rs1 ++ Deleting r :: rs2)).
  - apply upd_driver_done in H as (drv & _ & ->). by apply (preserve_racing k _ fs b (rs1 ++ Marked r :: rs2)).
  - by rewrite single in Hs.
  - by rewrite single in Hs.
  - by rewrite single in Hs.
  - by rewrite single in Hs.
Qed.

Lemma reachable_invariant k0 c : booted k0 → reachable D k0 c → invariant D c.
Proof.
  intros Hb Hr. assert (invariant D (Config k0 ∅ ∅ [])) as Hi by by apply invariant_initial.
  revert Hi. induction Hr; eauto using step_invariant.
Qed.
End invariant.
