(* ===== verification/LifecycleSafety.v ===== *)
(** What the lifecycle invariant guarantees, and concrete runs in which starting a device
    races with the destruction of its driver, two starts lose a use count, and two tasks add
    the same device. *)

From S2P Require Import Prelude Kernel Drivers Devices Lifecycle LifecycleInv.

(** * A concrete run *)

Module Demo.
Definition dev : Device :=
  {| device_name := Some ($"sensor"); parent := None; flags := 0; internal := None |}.
Definition drv : Driver :=
  {| driver_name := $"sensor_driver"; compatible := Some [$"vendor,sensor"];
     has_start_device := true; has_stop_device := true; has_probe := false;
     device_type := Some 77; driver_internal := None |}.
Definition boot : kernel :=
  Kernel {[ 1 := dev ]} [] {[ 10 := drv ]} [] ∅ [] [] [] [].

(** The state after a section that completes. *)
Definition exec {A} (m : M kernel A) (k : kernel) : kernel :=
  match m k with Done (_, k') => k' | _ => k end.

Definition added_state : kernel :=
  exec (add_finish 1) (exec (ledger_push 1) (exec (device_set_driver 1 (Some 10))
    (exec (device_construct 1) (exec (driver_add 10) (exec (driver_construct 10) boot))))).
Definition starting_state : kernel := exec (start_begin 1) added_state.
Definition counted_state : kernel :=
  exec (upd_driver_internal 10 (λ i, with_use_count (use_count i + 1) i)) starting_state.
Definition started_state : kernel := exec (start_finish 1 ERROR_NONE) counted_state.
Definition driverless_state : kernel := exec (driver_destruct 10) starting_state.

Lemma boot_booted : booted boot.
Proof.
  split; [|split; [|done]].
  - intros d. unfold internal_at. simpl. destruct (decide (d = 1)) as [->|].
    + done.
    + by rewrite lookup_singleton_ne.
  - intros r. unfold driver_internal_at. simpl. destruct (decide (r = 10)) as [->|].
    + done.
    + by rewrite lookup_singleton_ne.
Qed.

Lemma reach_added D : reachable D boot (Config added_state ∅ ∅ []).
Proof.
  unfold reachable.
  eapply rtc_l; [eapply (step_driver_construct _ 10); reflexivity|].
  eapply rtc_l; [eapply (step_driver_add _ 10); reflexivity|].
  eapply rtc_l; [eapply (step_construct _ 1); reflexivity|].
  eapply rtc_l; [eapply (step_set_driver _ 1 (Some 10)); [reflexivity| |done| |]; reflexivity|].
  eapply rtc_l; [eapply (step_add_begin _ 1); [done|reflexivity]|].
  eapply rtc_l; [eapply (step_add_ledger _ 1); reflexivity|].
  eapply rtc_l; [eapply (step_add_parent _ 1); reflexivity|].
  eapply rtc_l; [eapply (step_add_finish _ 1); reflexivity|].
  apply rtc_refl.
Qed.
Lemma reach_called D : reachable D boot (Config starting_state {[ 1 := StartCount 10 ]} ∅ []).
Proof.
  unfold reachable; etrans; [apply reach_added|].
  eapply rtc_l; [eapply (step_start_begin _ 1); reflexivity|].
  eapply rtc_l; [eapply (step_start_guard _ 1 _ _ _ _ _ 10 true); reflexivity|].
  eapply rtc_l; [eapply (step_start_call _ 1 _ _ _ _ 10 ERROR_NONE); reflexivity|].
  apply rtc_refl.
Qed.

Lemma reach_started D : reachable D boot (Config started_state ∅ {[ 1 := 10 ]} []).
Proof.
  unfold reachable; etrans; [apply reach_called|].
  eapply rtc_l; [eapply (step_start_count _ 1); reflexivity|].
  eapply rtc_l; [eapply (step_start_finish _ 1); reflexivity|].
  apply rtc_refl.
Qed.
End Demo.

(** * Safety *)

Lemma driver_destruct_in_use r k u :
  driver_internal_at k r = Some u → 0 < use_count u →
  driver_destruct r k = Done (ERROR_INVALID_STATE, k).
Proof.
  intros Hu Hpos. unfold driver_destruct, driver_internal_of, deref, mbind, M_bind.
  rewrite Hu. by replace (use_count u =? 0) with false by lia.
Qed.

(** C1: in every interleaving of device and driver operations in which each device is
    added by one task, a device that is started is added, is listed in the ledger and has a
    driver.  When updates and tests of use counts do not overlap, this driver is live, and
    its use count includes the device, so that [driver_destruct] of it is refused and
    changes nothing, but for the time between the end of the driver's stop callback and
    the end of [device_stop]. *)
Theorem started_device_keeps_its_driver D k0 c d i :
  single_adder D = true → booted k0 → reachable D k0 c →
  internal_at (state c) d = Some i → started i = true →
  added i = true ∧ d ∈ device_ledger (state c) ∧ ∃ r, driver i = Some r ∧
    (serial_counts D = true → inflight c !! d ≠ Some (StopFinish ERROR_NONE) →
     ∃ u, driver_internal_at (state c) r = Some u ∧ 0 < use_count u ∧
       driver_destruct r (state c) = Done (ERROR_INVALID_STATE, state c)).
Proof.
  intros Hd Hk0 Hr Hi Hs. pose proof (reachable_invariant D Hd _ _ Hk0 Hr) as Hinv.
  pose proof (dev_ok_at _ _ _ _ Hinv Hi) as Hok.
  assert (added i = true ∧ d ∈ device_ledger (state c) ∧ ∃ r, driver i = Some r ∧
    (inflight c !! d ≠ Some (StopFinish ERROR_NONE) → bound c !! d = Some r)) as (Ha & Hl & r & Hdr & Hb).
  { destruct i as [dr ? ? [] [] [] [] [] ? ? ? ?]; try done; unfold core_of in *; simpl in *;
    destruct (inflight c !! d) as [[| | | | | | | | | | | |e| | | | |e]|]; simpl in *;
    try (destruct (e =? ERROR_NONE) eqn:He; [apply Z.eqb_eq in He; subst|]);
    unfold is_Some in *; naive_solver. }
  split; [done|]. split; [done|]. exists r. split; [done|]. intros Hser Hp. specialize (Hb Hp).
  pose proof (inv_drv _ _ Hinv r Hser) as Hdrv.
  pose proof (bound_count_pos _ _ _ Hb) as Hpos.
  destruct (driver_internal_at (state c) r) as [u|] eqn:Hu; simpl in Hdrv; [|lia].
  destruct Hdrv as [Hn _]. exists u. split; [done|]. split; [lia|].
  apply (driver_destruct_in_use _ _ u); [done|lia].
Qed.

Lemma started_device_keeps_its_driver_witness :
  ∃ i, internal_at Demo.started_state 1 = Some i ∧ added i = true ∧
    1 ∈ device_ledger Demo.started_state ∧
    ∃ r, driver i = Some r ∧ (true = true → (∅ : gmap Z pc) !! 1 ≠ Some (StopFinish ERROR_NONE) →
      ∃ u, driver_internal_at Demo.started_state r = Some u ∧ 0 < use_count u ∧
        driver_destruct r Demo.started_state = Done (ERROR_INVALID_STATE, Demo.started_state)).
Proof.
  eexists. split; [reflexivity|].
  apply (started_device_keeps_its_driver (Discipline true true) Demo.boot (Config Demo.started_state ∅ {[ 1 := 10 ]} []));
    [reflexivity|apply Demo.boot_booted|apply Demo.reach_started|reflexivity|reflexivity].
Defined.

(** The operations during which a device must stay constructed. *)
Definition in_transition (p : pc) : bool :=
  match p with AddLedger | AddParent | AddFinish => false | _ => true end.

(** C26: when each device is added by one task, and even if updates of use counts overlap:
    while a start, stop or removal of a device is in flight, the device is constructed, and a concurrent [device_destruct], [device_add] or
    [device_remove] of it is refused and changes nothing. *)
Theorem transition_excludes_teardown D k0 c d p :
  single_adder D = true → booted k0 → reachable D k0 c → inflight c !! d = Some p → in_transition p = true →
  ∃ i, internal_at (state c) d = Some i ∧
    (∃ e, e ≠ ERROR_NONE ∧ device_destruct d (state c) = Done (e, state c)) ∧
    device_add d (state c) = Done (ERROR_INVALID_STATE, state c) ∧
    device_remove d (state c) = Done (ERROR_INVALID_STATE, state c).
Proof.
  intros Hd Hk0 Hr Hp Ht. pose proof (reachable_invariant D Hd _ _ Hk0 Hr) as Hinv.
  pose proof (inv_dev _ _ Hinv d) as Hok. rewrite Hp in Hok. unfold core_at in Hok.
  destruct (internal_at (state c) d) as [i|] eqn:Hi; [|done]. exists i. split; [done|].
  assert ((started i || added i || removing i)%bool = true ∧
    (started i || starting i || negb (added i))%bool = true) as [Hbusy Hrem].
  { destruct i as [? ? ? [] [] [] [] [] ? ? ? ?]; unfold core_of in *; simpl in *; try done;
    destruct p; simpl in *; naive_solver. }
  unfold device_destruct, device_add, add_invalid, device_remove, remove_begin, device_internal,
    deref, mbind, M_bind. rewrite Hi, Hrem, Hbusy. split; [|done].
  case_match; eexists; split; try reflexivity; done.
Qed.

Lemma transition_excludes_teardown_witness :
  ∃ i, internal_at Demo.starting_state 1 = Some i ∧
    (∃ e, e ≠ ERROR_NONE ∧ device_destruct 1 Demo.starting_state = Done (e, Demo.starting_state)) ∧
    device_add 1 Demo.starting_state = Done (ERROR_INVALID_STATE, Demo.starting_state) ∧
    device_remove 1 Demo.starting_state = Done (ERROR_INVALID_STATE, Demo.starting_state).
Proof.
  apply (transition_excludes_teardown (Discipline false true) Demo.boot
    (Config Demo.starting_state {[ 1 := StartCount 10 ]} ∅ []) 1 (StartCount 10));
    [reflexivity|apply Demo.boot_booted|apply Demo.reach_called|reflexivity|reflexivity].
Defined.

(** C27: when each device is added by one task, and even if updates of use counts overlap:
    the ledger never lists a device twice; of the devices that no operation is in flight
    on, it lists exactly those that are added; and [device_remove]'s lookup in it always
    succeeds: the rollback that re-adds the device and returns [ERROR_NOT_FOUND] is never
    reached. *)
Theorem ledger_consistent D k0 c :
  single_adder D = true → booted k0 → reachable D k0 c →
  NoDup (device_ledger (state c)) ∧
  (∀ d, inflight c !! d = None →
     d ∈ device_ledger (state c) ↔ ∃ i, internal_at (state c) d = Some i ∧ added i = true) ∧
  (∀ d, inflight c !! d ≠ Some RemoveRelink ∧ inflight c !! d ≠ Some RemoveRollback) ∧
  (∀ d, inflight c !! d = Some RemoveLedger → ∃ k', ledger_erase d (state c) = Done (true, k')).
Proof.
  intros Hd Hk0 Hr. pose proof (reachable_invariant D Hd _ _ Hk0 Hr) as Hinv.
  split; [apply Hinv|]. split; [|split].
  - intros d Hp. pose proof (inv_dev _ _ Hinv d) as Hok. rewrite Hp in Hok. unfold core_at in Hok.
    destruct (internal_at (state c) d) as [i|]; simpl in Hok.
    + destruct i as [? ? ? [] [] [] [] [] ? ? ? ?]; unfold core_of in *; simpl in *; naive_solver.
    + naive_solver.
  - intros d. pose proof (inv_dev _ _ Hinv d) as Hok.
    destruct (core_at (state c) d) as [[? [] [] [] [] []]|]; split; intros Hp;
      rewrite Hp in Hok; done.
  - intros d Hp. pose proof (inv_dev _ _ Hinv d) as Hok. rewrite Hp in Hok.
    assert (d ∈ device_ledger (state c)) as Hin.
    { destruct (core_at (state c) d) as [[? [] [] [] [] []]|]; naive_solver. }
    unfold ledger_erase, gets, mbind, M_bind. rewrite bool_decide_true by done. by eexists.
Qed.

Lemma ledger_consistent_witness :
  NoDup (device_ledger Demo.started_state) ∧
  (∀ d, (∅ : gmap Z pc) !! d = None → d ∈ device_ledger Demo.started_state ↔
     ∃ i, internal_at Demo.started_state d = Some i ∧ added i = true).
Proof.
  destruct (ledger_consistent (Discipline false true) Demo.boot (Config Demo.started_state ∅ {[ 1 := 10 ]} [])
    eq_refl Demo.boot_booted (Demo.reach_started _)) as (Hn & Hl & _).
  split; [exact Hn|exact Hl].
Defined.

(** A device start is not counted until the driver's callback has returned, so
    a concurrent [driver_destruct] is granted in between, and the increment of the
    use count then dereferences the driver's freed internals. *)
Theorem start_races_driver_destruct :
  ∃ k0 c d r, booted k0 ∧ reachable (Discipline true true) k0 c ∧ inflight c !! d = Some (StartCount r) ∧
    upd_driver_internal r (λ i, with_use_count (use_count i + 1) i) (state c) = Undef.
Proof.
  exists Demo.boot, (Config Demo.driverless_state {[ 1 := StartCount 10 ]} ∅ []), 1, 10.
  split; [apply Demo.boot_booted|]. split; [|done].
  unfold reachable; etrans; [apply Demo.reach_called|].
  eapply rtc_l; [eapply (step_driver_destruct _ 10); reflexivity|]. apply rtc_refl.
Qed.

(** The start and the stop of two devices of one driver race for its use count. *)
Module Race.
Definition boot : kernel :=
  Kernel {[ 1 := Demo.dev; 2 := Demo.dev ]} [] {[ 10 := Demo.drv ]} [] ∅ [] [] [] [].
Definition add_device (d : Z) (k : kernel) : kernel :=
  Demo.exec (add_finish d) (Demo.exec (ledger_push d) (Demo.exec (device_set_driver d (Some 10))
    (Demo.exec (device_construct d) k))).
Definition both_added : kernel := Eval vm_compute in add_device 2 (add_device 1 (Demo.exec (driver_construct 10) boot)).
Definition store (n : Z) : kernel → kernel := Demo.exec (upd_driver_internal 10 (with_use_count n)).
(** Both starts have loaded 0; both store 1. *)
Definition both_counted : kernel := Eval vm_compute in
  store 1 (store 1 (Demo.exec (start_begin 2) (Demo.exec (start_begin 1) both_added))).
Definition both_started : kernel := Eval vm_compute in Demo.exec (start_finish 2 ERROR_NONE) (Demo.exec (start_finish 1 ERROR_NONE) both_counted).
(** One of them is stopped. *)
Definition one_stopped : kernel := Eval vm_compute in Demo.exec (stop_finish 1 ERROR_NONE) (store 0 (Demo.exec (stop_begin 1) both_started)).

Lemma race_booted : booted boot.
Proof.
  split; [|split; [|done]].
  - intros d. unfold internal_at. simpl. destruct (decide (d = 1)) as [->|]; [done|].
    destruct (decide (d = 2)) as [->|]; [done|]. by rewrite lookup_insert_ne, lookup_singleton_ne.
  - intros r. unfold driver_internal_at. simpl. destruct (decide (r = 10)) as [->|]; [done|].
    by rewrite lookup_singleton_ne.
Qed.

Definition loose : discipline := Discipline false true.

(** One step, of which the section completes. *)
Ltac take_step := try done; try (intros _; split_and!; done); vm_compute; reflexivity.

Lemma reach_both_added : reachable loose boot (Config both_added ∅ ∅ []).
Proof.
  unfold reachable.
  eapply rtc_l; [eapply (step_driver_construct _ 10); take_step|].
  eapply rtc_l; [eapply (step_construct _ 1); take_step|].
  eapply rtc_l; [eapply (step_set_driver _ 1 (Some 10)); take_step|].
  eapply rtc_l; [eapply (step_add_begin _ 1); take_step|].
  eapply rtc_l; [eapply (step_add_ledger _ 1); take_step|].
  eapply rtc_l; [eapply (step_add_parent _ 1); take_step|].
  eapply rtc_l; [eapply (step_add_finish _ 1); take_step|].
  eapply rtc_l; [eapply (step_construct _ 2); take_step|].
  eapply rtc_l; [eapply (step_set_driver _ 2 (Some 10)); take_step|].
  eapply rtc_l; [eapply (step_add_begin _ 2); take_step|].
  eapply rtc_l; [eapply (step_add_ledger _ 2); take_step|].
  eapply rtc_l; [eapply (step_add_parent _ 2); take_step|].
  eapply rtc_l; [eapply (step_add_finish _ 2); take_step|].
  apply rtc_refl.
Qed.

Lemma reach_both_started : reachable loose boot (Config both_started ∅ {[ 1 := 10; 2 := 10 ]} []).
Proof.
  unfold reachable; etrans; [apply reach_both_added|].
  eapply rtc_l; [eapply (step_start_begin _ 1); take_step|].
  eapply rtc_l; [eapply (step_start_begin _ 2); take_step|].
  eapply rtc_l; [eapply (step_start_guard _ 1 _ _ _ _ _ 10 true); take_step|].
  eapply rtc_l; [eapply (step_start_guard _ 2 _ _ _ _ _ 10 true); take_step|].
  eapply rtc_l; [eapply (step_start_call _ 1 _ _ _ _ 10 ERROR_NONE); take_step|].
  eapply rtc_l; [eapply (step_start_call _ 2 _ _ _ _ 10 ERROR_NONE); take_step|].
  eapply rtc_l; [eapply (step_start_load _ 1); take_step|].
  eapply rtc_l; [eapply (step_start_load _ 2); take_step|].
  eapply rtc_l; [eapply (step_start_store _ 1); take_step|].
  eapply rtc_l; [eapply (step_start_store _ 2); take_step|].
  eapply rtc_l; [eapply (step_start_finish _ 1); take_step|].
  eapply rtc_l; [eapply (step_start_finish _ 2); take_step|].
  apply rtc_refl.
Qed.

Lemma reach_one_stopped : reachable loose boot (Config one_stopped ∅ {[ 2 := 10 ]} []).
Proof.
  unfold reachable; etrans; [apply reach_both_started|].
  eapply rtc_l; [eapply (step_stop_begin _ 1); take_step|].
  eapply rtc_l; [eapply (step_stop_guard _ 1 _ _ _ _ _ 10 true); take_step|].
  eapply rtc_l; [eapply (step_stop_call _ 1 _ _ _ _ 10 ERROR_NONE); take_step|].
  eapply rtc_l; [eapply (step_stop_load _ 1); take_step|].
  eapply rtc_l; [eapply (step_stop_store _ 1); take_step|].
  eapply rtc_l; [eapply (step_stop_finish _ 1); take_step|].
  apply rtc_refl.
Qed.

(** Two tasks add the same device. *)
Definition constructed : kernel := Demo.exec (device_construct 1) Demo.boot.
Definition twice : kernel :=
  Demo.exec (add_finish 1) (Demo.exec (add_finish 1) (Demo.exec (ledger_push 1) (Demo.exec (ledger_push 1) constructed))).
Lemma reach_twice : reachable (Discipline true false) Demo.boot (Config twice ∅ ∅ []).
Proof.
  unfold reachable.
  eapply rtc_l; [eapply (step_construct _ 1); reflexivity|].
  eapply rtc_l; [eapply (step_add_begin _ 1); [done|reflexivity]|].
  eapply rtc_l; [eapply (step_race_begin _ 1); reflexivity|].
  eapply rtc_l; [eapply (step_add_ledger _ 1); reflexivity|].
  eapply rtc_l; [eapply (step_race_ledger _ 1 _ _ _ _ []); reflexivity|].
  eapply rtc_l; [eapply (step_add_parent _ 1); reflexivity|].
  eapply rtc_l; [eapply (step_race_parent _ 1 _ _ _ _ []); reflexivity|].
  eapply rtc_l; [eapply (step_add_finish _ 1); reflexivity|].
  eapply rtc_l; [eapply (step_race_finish _ 1 _ _ _ _ []); reflexivity|].
  apply rtc_refl.
Qed.
End Race.

(** Updates of the use count are not atomic: when two devices of a driver are started at
    the same time, one of them may not be counted, and when the other is stopped the driver
    can be destructed under a device that is started and that nothing is in flight on. *)
Theorem overlapping_starts_lose_a_count :
  ∃ k0 c d i r, booted k0 ∧ reachable (Discipline false true) k0 c ∧ inflight c = ∅ ∧
    internal_at (state c) d = Some i ∧ started i = true ∧ driver i = Some r ∧
    ∃ k', driver_destruct r (state c) = Done (ERROR_NONE, k') ∧ driver_internal_at k' r = None.
Proof.
  exists Race.boot, (Config Race.one_stopped ∅ {[ 2 := 10 ]} []), 2.
  eexists _, 10. split; [apply Race.race_booted|]. split; [apply Race.reach_one_stopped|]. split; [done|].
  split; [reflexivity|]. split; [reflexivity|]. split; [reflexivity|]. eexists. split; [by vm_compute|]. by vm_compute.
Qed.

(** [device_add] lists a device in another section than the one that checks that it is not
    added: two tasks that add it list it twice. *)
Theorem overlapping_adds_list_a_device_twice :
  ∃ k0 c d, booted k0 ∧ reachable (Discipline true false) k0 c ∧ inflight c = ∅ ∧ races c = [] ∧
    device_ledger (state c) = [d; d].
Proof.
  exists Demo.boot, (Config Race.twice ∅ ∅ []), 1. split; [apply Demo.boot_booted|]. split; [apply Race.reach_twice|]. by vm_compute.
Qed.
