(* ===== verification/LifecycleRefine.v ===== *)
(** The sequential operations of [Devices] are runs of the interleaving semantics
    of [Lifecycle]: whatever a single task does with [device_add],
    [device_remove], [device_start] and [device_stop] is a sequence of steps, so
    the invariant holds of it as well. *)

From S2P Require Import Prelude Kernel Drivers Devices Lifecycle LifecycleInv LifecycleSafety.

Section refine.
Context `{Callbacks}.
(** Whatever discipline other tasks have. *)
Variable D : discipline.
Implicit Types (k : kernel) (fs : gmap Z pc) (b : gmap Z Z) (rs : list race).

(** [m] only uses the kernel's API while the operations [fs] are in flight. *)
Definition runs_steps {A} (fs : gmap Z pc) (m : M kernel A) : Prop :=
  ∀ k a k' b rs, m k = Done (a, k') → ∃ b', rtc (step D) (Config k fs b rs) (Config k' fs b' rs).

Lemma runs_steps_ret {A} fs (a : A) : runs_steps fs (mret a).
Proof. intros k a' k' b rs [= _ <-]. exists b. apply rtc_refl. Qed.

Lemma runs_steps_bind {A B} fs (m : M kernel A) (f : A → M kernel B) :
  runs_steps fs m → (∀ a, runs_steps fs (f a)) → runs_steps fs (m ≫= f).
Proof.
  intros Hm Hf k a k' b rs (x & k1 & H1 & H2)%bind_done.
  apply (Hm _ _ _ b rs) in H1 as [b1 H1]. apply (Hf _ _ _ _ b1 rs) in H2 as [b2 H2].
  exists b2. by etrans.
Qed.

Lemma runs_steps_notify fs d e :
  (∀ f c, runs_steps fs (device_listener_callback f d e c)) →
  runs_steps fs (device_listener_notify d e).
Proof.
  intros Hf. assert (∀ l, runs_steps fs (notify_each l d e)) as Hl.
  { induction l as [|x l IH]; simpl; [apply runs_steps_ret|]. by apply runs_steps_bind. }
  unfold device_listener_notify. apply runs_steps_bind; [|done].
  intros k a k' b rs Hg. injection Hg as _ <-. exists b. apply rtc_refl.
Qed.

Lemma runs_steps_add fs d : fs !! d = None → runs_steps fs (device_add d).
Proof.
  intros Hfs k e k' b rs Hr. unfold device_add in Hr.
  apply bind_done in Hr as (inv & k1 & Hi & Hr). assert (k1 = k) as ->.
  { unfold add_invalid in Hi. apply bind_done in Hi as (i & ? & [-> _]%device_internal_done & Hi).
    by injection Hi as _ <-. }
  destruct inv; [injection Hr as _ <-; exists b; apply rtc_refl|].
  apply bind_done in Hr as ([] & k1 & H1 & Hr). apply bind_done in Hr as ([] & k2 & H2 & Hr).
  apply bind_done in Hr as ([] & k3 & H3 & Hr). injection Hr as _ <-. exists b.
  eapply rtc_l; [eapply (step_add_begin _ d); [|exact Hi]|].
  { unfold not_adding. by rewrite Hfs. }
  eapply rtc_l; [eapply (step_add_ledger _ d); [apply lookup_insert_eq|exact H1]|].
  eapply rtc_l; [eapply (step_add_parent _ d); [apply lookup_insert_eq|exact H2]|].
  eapply rtc_l; [eapply (step_add_finish _ d); [apply lookup_insert_eq|exact H3]|].
  rewrite !insert_insert_eq, delete_insert_eq, delete_id by done. apply rtc_refl.
Qed.

Lemma runs_steps_remove fs d : fs !! d = None → runs_steps fs (device_remove d).
Proof.
  intros Hfs k e k' b rs Hr. unfold device_remove in Hr.
  apply bind_done in Hr as (ok & k1 & Hb & Hr). destruct ok.
  2: { simpl in Hr. injection Hr as _ <-. exists b. unfold remove_begin in Hb.
       apply bind_done in Hb as (i & ? & [-> _]%device_internal_done & Hb).
       destruct (_ || _)%bool; [injection Hb as <-; apply rtc_refl|].
       by apply bind_done in Hb as (? & ? & _ & Hb). }
  simpl in Hr. apply bind_done in Hr as ([] & k2 & H1 & Hr).
  apply bind_done in Hr as (found & k3 & H2 & Hr). exists b.
  eapply rtc_l; [eapply (step_remove_begin _ d); exact Hb|].
  eapply rtc_l; [eapply (step_remove_parent _ d); [apply lookup_insert_eq|exact H1]|].
  eapply rtc_l; [eapply (step_remove_ledger _ d); [apply lookup_insert_eq|exact H2]|].
  rewrite !insert_insert_eq. destruct found; apply bind_done in Hr as ([] & k4 & H3 & Hr).
  - injection Hr as _ <-.
    eapply rtc_l; [eapply (step_remove_finish _ d); [apply lookup_insert_eq|exact H3]|].
    rewrite delete_insert_eq, delete_id by done. apply rtc_refl.
  - apply bind_done in Hr as ([] & k5 & H4 & Hr). injection Hr as _ <-.
    eapply rtc_l; [eapply (step_remove_relink _ d); [apply lookup_insert_eq|exact H3]|].
    eapply rtc_l; [eapply (step_remove_rollback _ d); [apply lookup_insert_eq|exact H4]|].
    rewrite insert_insert_eq, delete_insert_eq, delete_id by done. apply rtc_refl.
Qed.

Lemma guard_section_split d k r k1 ok k2 :
  bound_driver d k = Done (r, k1) → bind_guard r d k1 = Done (ok, k2) →
  guard_section d k = Done ((r, ok), k2).
Proof. unfold guard_section, mbind, M_bind. by intros -> ->. Qed.

Lemma step_to_finish_start fs b rs k d r e :
  e ≠ ERROR_NONE →
  step D (Config k (<[d := StartCall r]> fs) b rs) (Config k (<[d := StartFinish e]> fs) b rs).
Proof.
  intros He. pose proof (step_start_call D d k _ b rs r e (lookup_insert_eq fs d _)) as Hs.
  by rewrite (proj2 (Z.eqb_neq e ERROR_NONE) He), insert_insert_eq in Hs.
Qed.

Lemma step_to_finish_stop fs b rs k d r e :
  e ≠ ERROR_NONE →
  step D (Config k (<[d := StopCall r]> fs) b rs) (Config k (<[d := StopFinish e]> fs) b rs).
Proof.
  intros He. pose proof (step_stop_call D d k _ b rs r e (lookup_insert_eq fs d _)) as Hs.
  by rewrite (proj2 (Z.eqb_neq e ERROR_NONE) He), insert_insert_eq in Hs.
Qed.

(** [driver_bind] from the guard to the point where [device_start] finishes. *)
Lemma bind_steps fs d k r k1 e k2 b rs :
  fs !! d = None → bound_driver d k = Done (r, k1) → driver_bind r d k1 = Done (e, k2) →
  (∀ r, runs_steps (<[d := StartCall r]> fs) (start_device r d)) →
  (∀ r, runs_steps (<[d := StartCall r]> fs) (probe r d)) →
  ∃ b', rtc (step D) (Config k (<[d := StartGuard]> fs) b rs) (Config k2 (<[d := StartFinish e]> fs) b' rs).
Proof.
  intros Hfs H1 Hb Hstart Hprobe. unfold driver_bind in Hb.
  apply bind_done in Hb as (ok & k3 & H2 & Hb).
  pose proof (guard_section_split _ _ _ _ _ _ H1 H2) as Hg.
  pose proof (step_start_guard D d k k3 (<[d := StartGuard]> fs) b rs r ok
    (lookup_insert_eq _ _ _) Hg) as Hs. rewrite insert_insert_eq in Hs.
  destruct ok; [|injection Hb as <- <-; exists b; by apply rtc_once]. simpl in Hb.
  apply bind_done in Hb as (here & k4 & H3 & Hb).
  assert (runs_steps (<[d := StartCall r]> fs) (bind_probe r d)) as Hrp.
  { unfold bind_probe, driver_at, device_at, deref. intros k0 a k0' b0 rs0.
    unfold mbind at 1, M_bind at 1. destruct (drivers k0 !! r); [|done].
    unfold mbind at 1, M_bind at 1. destruct (devices k0 !! d); [|done].
    destruct (_ && _)%bool; [|apply runs_steps_ret].
    apply runs_steps_bind; [apply Hprobe|]. intros. apply runs_steps_ret. }
  destruct (Hrp _ _ _ b rs H3) as [b1 Hp]. clear Hrp.
  destruct here; simpl in Hb.
  2: { injection Hb as <- <-. exists b1. eapply rtc_l; [exact Hs|].
       eapply rtc_r; [exact Hp|]. by apply step_to_finish_start. }
  apply bind_done in Hb as (e' & k5 & H4 & Hb).
  assert (runs_steps (<[d := StartCall r]> fs) (bind_start r d)) as Hrs.
  { unfold bind_start, driver_at, deref. intros k0 a k0' b0 rs0.
    unfold mbind at 1, M_bind at 1. destruct (drivers k0 !! r); [|done].
    destruct (has_start_device _); [apply Hstart|apply runs_steps_ret]. }
  destruct (Hrs _ _ _ b1 rs H4) as [b2 Hc]. clear Hrs.
  destruct (e' =? ERROR_NONE) eqn:He; simpl in Hb.
  - apply bind_done in Hb as ([] & k6 & H5 & Hb). injection Hb as <- <-.
    exists (<[d := r]> b2). eapply rtc_l; [exact Hs|]. etrans; [exact Hp|].
    etrans; [exact Hc|].
    eapply rtc_l; [eapply (step_start_call _ d _ _ _ _ r e'); apply lookup_insert_eq|].
    rewrite He, insert_insert_eq.
    eapply rtc_l; [eapply (step_start_count _ d); [apply lookup_insert_eq|exact H5]|].
    rewrite insert_insert_eq. apply rtc_refl.
  - injection Hb as <- <-. exists b2. eapply rtc_l; [exact Hs|]. etrans; [exact Hp|].
    eapply rtc_r; [exact Hc|]. apply step_to_finish_start. by apply Z.eqb_neq.
Qed.

Lemma unbind_steps fs d k r k1 e k2 b rs :
  bound_driver d k = Done (r, k1) → driver_unbind r d k1 = Done (e, k2) →
  (∀ r, runs_steps (<[d := StopCall r]> fs) (stop_device r d)) →
  ∃ b', rtc (step D) (Config k (<[d := StopGuard]> fs) b rs) (Config k2 (<[d := StopFinish e]> fs) b' rs).
Proof.
  intros H1 Hb Hstop. unfold driver_unbind in Hb.
  apply bind_done in Hb as (ok & k3 & H2 & Hb).
  pose proof (guard_section_split _ _ _ _ _ _ H1 H2) as Hg.
  pose proof (step_stop_guard D d k k3 (<[d := StopGuard]> fs) b rs r ok
    (lookup_insert_eq _ _ _) Hg) as Hs. rewrite insert_insert_eq in Hs.
  destruct ok; [|injection Hb as <- <-; exists b; by apply rtc_once]. simpl in Hb.
  apply bind_done in Hb as (e' & k5 & H4 & Hb).
  assert (runs_steps (<[d := StopCall r]> fs) (unbind_stop r d)) as Hrs.
  { unfold unbind_stop, driver_at, deref. intros k0 a k0' b0 rs0.
    unfold mbind at 1, M_bind at 1. destruct (drivers k0 !! r); [|done].
    destruct (has_stop_device _); [apply Hstop|apply runs_steps_ret]. }
  destruct (Hrs _ _ _ b rs H4) as [b2 Hc]. clear Hrs.
  destruct (e' =? ERROR_NONE) eqn:He; simpl in Hb.
  - apply bind_done in Hb as ([] & k6 & H5 & Hb). injection Hb as <- <-.
    exists (delete d b2). eapply rtc_l; [exact Hs|]. etrans; [exact Hc|].
    eapply rtc_l; [eapply (step_stop_call _ d _ _ _ _ r e'); apply lookup_insert_eq|].
    rewrite He, insert_insert_eq.
    eapply rtc_l; [eapply (step_stop_count _ d); [apply lookup_insert_eq|exact H5]|].
    rewrite insert_insert_eq. apply rtc_refl.
  - injection Hb as <- <-. exists b2. eapply rtc_l; [exact Hs|].
    eapply rtc_r; [exact Hc|]. apply step_to_finish_stop. by apply Z.eqb_neq.
Qed.

Lemma start_begin_refused d k e k' : start_begin d k = Done (inl e, k') → k' = k.
Proof.
  unfold start_begin. intros (i & ? & [-> _]%device_internal_done & Hb)%bind_done.
  repeat case_match; try (by injection Hb as _ <-).
  by apply bind_done in Hb as (? & ? & _ & Hb).
Qed.

Lemma stop_begin_refused d k e k' : stop_begin d k = Done (inl e, k') → k' = k.
Proof.
  unfold stop_begin. intros (i & ? & [-> _]%device_internal_done & Hb)%bind_done.
  repeat case_match; try (by injection Hb as _ <-).
  by apply bind_done in Hb as (? & ? & _ & Hb).
Qed.

(** What a client's callbacks promise during operations on [d]. *)
Record callbacks_ok (fs : gmap Z pc) (d : Z) : Prop := {
  start_ok r : runs_steps (<[d := StartCall r]> fs) (start_device r d);
  probe_ok r : runs_steps (<[d := StartCall r]> fs) (probe r d);
  stop_ok r : runs_steps (<[d := StopCall r]> fs) (stop_device r d);
  listener_ok f e c : runs_steps fs (device_listener_callback f d e c);
  listener_stopping_ok f e c :
    runs_steps (<[d := StopGuard]> fs) (device_listener_callback f d e c);
}.

Lemma runs_steps_start fs d :
  fs !! d = None → callbacks_ok fs d → runs_steps fs (device_start d).
Proof.
  intros Hfs Hcb k e k' b rs Hr. unfold device_start in Hr.
  apply bind_done in Hr as (o & k1 & Hb & Hr). destruct o as [e0|[]].
  { apply start_begin_refused in Hb as ->. injection Hr as _ <-. exists b. apply rtc_refl. }
  apply bind_done in Hr as (r & k2 & H1 & Hr). apply bind_done in Hr as (e1 & k3 & H2 & Hr).
  apply bind_done in Hr as ([] & k4 & H3 & Hr).
  destruct (bind_steps fs d k1 r k2 e1 k3 b rs Hfs H1 H2) as [b1 Hs]; [apply Hcb..|].
  assert (rtc (step D) (Config k fs b rs) (Config k4 fs b1 rs)) as Hs4.
  { eapply rtc_l; [eapply (step_start_begin _ d); exact Hb|]. eapply rtc_r; [exact Hs|].
    rewrite <- (delete_id fs d) at 2 by done. rewrite <- (delete_insert_eq fs d (StartFinish e1)).
    eapply step_start_finish; [apply lookup_insert_eq|exact H3]. }
  destruct (e1 =? ERROR_NONE); simpl in Hr.
  - apply bind_done in Hr as ([] & k5 & H4 & Hr). injection Hr as _ <-.
    destruct (runs_steps_notify fs d DEVICE_EVENT_STARTED (λ f c, listener_ok _ _ Hcb f _ c)
      k4 tt k5 b1 rs H4) as [b2 Hn]. exists b2. by etrans.
  - injection Hr as _ <-. by exists b1.
Qed.

Lemma runs_steps_stop fs d :
  fs !! d = None → callbacks_ok fs d → runs_steps fs (device_stop d).
Proof.
  intros Hfs Hcb k e k' b rs Hr. unfold device_stop in Hr.
  apply bind_done in Hr as (o & k1 & Hb & Hr). destruct o as [e0|[]].
  { apply stop_begin_refused in Hb as ->. injection Hr as _ <-. exists b. apply rtc_refl. }
  apply bind_done in Hr as ([] & k0 & H0 & Hr).
  apply bind_done in Hr as (r & k2 & H1 & Hr). apply bind_done in Hr as (e1 & k3 & H2 & Hr).
  apply bind_done in Hr as ([] & k4 & H3 & Hr).
  destruct (runs_steps_notify (<[d := StopGuard]> fs) d DEVICE_EVENT_STOPPING
    (λ f c, listener_stopping_ok _ _ Hcb f _ c) k1 tt k0 b rs H0) as [b0 Hn].
  destruct (unbind_steps fs d k0 r k2 e1 k3 b0 rs H1 H2) as [b1 Hs]; [apply Hcb|].
  assert (rtc (step D) (Config k fs b rs) (Config k4 fs b1 rs)) as Hs4.
  { eapply rtc_l; [eapply (step_stop_begin _ d); exact Hb|]. etrans; [exact Hn|].
    eapply rtc_r; [exact Hs|].
    rewrite <- (delete_id fs d) at 2 by done. rewrite <- (delete_insert_eq fs d (StopFinish e1)).
    eapply step_stop_finish; [apply lookup_insert_eq|exact H3]. }
  destruct (e1 =? ERROR_NONE); simpl in Hr.
  - apply bind_done in Hr as ([] & k5 & H4 & Hr). injection Hr as _ <-.
    destruct (runs_steps_notify fs d DEVICE_EVENT_STOPPED (λ f c, listener_ok _ _ Hcb f _ c)
      k4 tt k5 b1 rs H4) as [b2 Hn']. exists b2. by etrans.
  - injection Hr as _ <-. by exists b1.
Qed.
End refine.

(** C2: adding, removing, starting and stopping a device, with callbacks that only
    use the kernel's API, are runs of the interleaving semantics, whatever the discipline
    of other tasks; a sequence of them from a reachable configuration therefore stays
    reachable and, when each device is added by one task, keeps the lifecycle invariant. *)
Theorem device_operations_refine_steps `{Callbacks} D k0 k fs b rs d (m : M kernel error_t) e k' :
  booted k0 → reachable D k0 (Config k fs b rs) → fs !! d = None → callbacks_ok D fs d →
  m ∈ [device_add d; device_remove d; device_start d; device_stop d] → m k = Done (e, k') →
  ∃ b', reachable D k0 (Config k' fs b' rs) ∧ (single_adder D = true → invariant D (Config k' fs b' rs)).
Proof.
  intros Hk0 Hr Hfs Hcb Hm Hrun.
  assert (runs_steps D fs m) as Hs.
  { rewrite !elem_of_cons in Hm. destruct Hm as [->|[->|[->|[->|Hm]]]].
    - by apply runs_steps_add.
    - by apply runs_steps_remove.
    - by apply runs_steps_start.
    - by apply runs_steps_stop.
    - by apply not_elem_of_nil in Hm. }
  destruct (Hs _ _ _ b rs Hrun) as [b' Hb']. exists b'.
  assert (reachable D k0 (Config k' fs b' rs)) as Hr' by (unfold reachable in *; by etrans).
  split; [done|]. intros Hd. by eapply reachable_invariant.
Qed.

(** A driver that adds a child device when it starts, as a battery gauge does. *)
Module ChildDriver.
#[export] Instance callbacks : Callbacks := {|
  start_device _ _ := device_add 2;
  stop_device _ _ := device_remove 2;
  probe _ _ := mret ERROR_NONE;
  module_start_fn _ := mret ERROR_NONE;
  module_stop_fn _ := mret ERROR_NONE;
  device_listener_callback _ _ _ _ := mret tt;
|}.

Lemma ok D : callbacks_ok D ∅ 1.
Proof.
  split; simpl; intros.
  - by apply runs_steps_add.
  - apply runs_steps_ret.
  - by apply runs_steps_remove.
  - apply runs_steps_ret.
  - apply runs_steps_ret.
Qed.

Definition child : Device :=
  {| device_name := Some ($"child"); parent := Some 1; flags := 0; internal := None |}.
Definition boot : kernel :=
  Kernel {[ 1 := Demo.dev; 2 := child ]} [] {[ 10 := Demo.drv ]} [] ∅ [] [] [] [].
Definition ready : kernel :=
  Demo.exec (device_construct 2) (Demo.exec (add_finish 1) (Demo.exec (ledger_push 1)
    (Demo.exec (device_set_driver 1 (Some 10)) (Demo.exec (device_construct 1)
    (Demo.exec (driver_construct 10) boot))))).

Lemma child_boot_booted : booted boot.
Proof.
  split; [|split; [|done]].
  - intros d. unfold internal_at. simpl. destruct (decide (d = 1)) as [->|]; [done|].
    destruct (decide (d = 2)) as [->|]; [done|].
    by rewrite lookup_insert_ne, lookup_singleton_ne.
  - intros r. unfold driver_internal_at. simpl. destruct (decide (r = 10)) as [->|]; [done|].
    by rewrite lookup_singleton_ne.
Qed.

Lemma reach_ready D : reachable D boot (Config ready ∅ ∅ []).
Proof.
  unfold reachable.
  eapply rtc_l; [eapply (step_driver_construct _ 10); reflexivity|].
  eapply rtc_l; [eapply (step_construct _ 1); reflexivity|].
  eapply rtc_l; [eapply (step_set_driver _ 1 (Some 10)); [reflexivity| |done| |]; reflexivity|].
  eapply rtc_l; [eapply (step_add_begin _ 1); [done|reflexivity]|].
  eapply rtc_l; [eapply (step_add_ledger _ 1); reflexivity|].
  eapply rtc_l; [eapply (step_add_parent _ 1); reflexivity|].
  eapply rtc_l; [eapply (step_add_finish _ 1); reflexivity|].
  eapply rtc_l; [eapply (step_construct _ 2); reflexivity|].
  apply rtc_refl.
Qed.
End ChildDriver.

#[local] Existing Instance ChildDriver.callbacks.

Lemma device_operations_refine_steps_witness :
  ∃ k' b', device_start 1 ChildDriver.ready
             = Done (ERROR_NONE, k') ∧
    device_ledger k' = [1; 2] ∧ reachable (Discipline true true) ChildDriver.boot (Config k' ∅ b' []) ∧
    invariant (Discipline true true) (Config k' ∅ b' []).
Proof.
  eexists.
  destruct (device_operations_refine_steps (Discipline true true) ChildDriver.boot ChildDriver.ready ∅ ∅ [] 1 (device_start 1)
    ERROR_NONE (Demo.exec (device_start 1) ChildDriver.ready)) as (b' & Hr & Hi);
    [apply ChildDriver.child_boot_booted|apply ChildDriver.reach_ready|done|apply ChildDriver.ok
    |set_solver|vm_compute; reflexivity|].
  exists b'. split; [vm_compute; reflexivity|]. split; [vm_compute; reflexivity|].
  split; [exact Hr|by apply Hi].
Defined.
