(* ===== verification/Modules.v ===== *)
(** Modules, TactilityKernel/source/module.cpp: construction, the ledger, starting
    a module with the drivers it supplies, stopping it, and symbol lookup. *)

From S2P Require Import Prelude Kernel Drivers Devices Lifecycle.

Section modules.
Context `{Callbacks}.

Definition new_ModuleInternal : ModuleInternal :=
  {| module_started := false; drivers_ready := false |}.

Definition module_construct (m : Z) : M kernel error_t :=
  x ← module_at m;
  if bool_decide (is_Some (module_internal x)) then mret ERROR_INVALID_STATE
  else
    ok ← new_nothrow;
    if negb ok then mret ERROR_OUT_OF_MEMORY
    else upd_module m (with_module_internal (Some new_ModuleInternal));; mret ERROR_NONE.

Definition module_destruct (m : Z) : M kernel error_t :=
  x ← module_at m;
  if bool_decide (module_internal x = None) then mret ERROR_INVALID_STATE
  else upd_module m (with_module_internal None);; mret ERROR_NONE.

Definition module_add (m : Z) : M kernel error_t :=
  l ← gets module_ledger;
  if bool_decide (m ∈ l) then mret ERROR_INVALID_STATE
  else modify (λ k, set_module_ledger (module_ledger k ++ [m]) k);; mret ERROR_NONE.

(** [erase(std::remove(...))] drops every occurrence. *)
Definition module_remove (m : Z) : M kernel error_t :=
  modify (λ k, set_module_ledger (filter (λ x, x ≠ m) (module_ledger k)) k);;
  mret ERROR_NONE.

(** The loop of [module_start] over the NULL terminated driver array. *)
Fixpoint register_drivers (m : Z) (l : list Z) : M kernel unit :=
  match l with
  | [] => mret tt
  | r :: l' =>
      e ← driver_construct r; check (e =? ERROR_NONE);;
      driver_set_owner r (Some m);;
      e ← driver_add r; check (e =? ERROR_NONE);;
      register_drivers m l'
  end.

(** [module_stop] walks the array from its last driver to its first. *)
Fixpoint unregister_drivers (l : list Z) : M kernel unit :=
  match l with
  | [] => mret tt
  | r :: l' =>
      e ← driver_remove_destruct r; check (e =? ERROR_NONE);;
      unregister_drivers l'
  end.

Definition upd_module_internal (m : Z) (f : ModuleInternal → ModuleInternal) : M kernel unit :=
  x ← module_at m;
  match module_internal x with
  | None => undef
  | Some i => upd_module m (with_module_internal (Some (f i)))
  end.

Definition set_drivers_ready (b : bool) (i : ModuleInternal) : ModuleInternal :=
  {| module_started := module_started i; drivers_ready := b |}.

Definition set_module_started (b : bool) (i : ModuleInternal) : ModuleInternal :=
  {| module_started := b; drivers_ready := drivers_ready i |}.

(** The driver part of [module_start]; [internal] is read again, as the module's
    own [start] may run arbitrary code. *)
Definition start_drivers (m : Z) : M kernel unit :=
  x ← module_at m;
  match module_drivers x, module_internal x with
  | Some l, Some i =>
      if negb (drivers_ready i)
      then register_drivers m l;; upd_module_internal m (set_drivers_ready true)
      else mret tt
  | Some _, None => undef
  | None, _ => mret tt
  end.

Definition stop_drivers (m : Z) : M kernel unit :=
  x ← module_at m;
  match module_drivers x, module_internal x with
  | Some l, Some i =>
      if drivers_ready i
      then unregister_drivers (rev l);; upd_module_internal m (set_drivers_ready false)
      else mret tt
  | Some _, None => undef
  | None, _ => mret tt
  end.

Definition module_start (m : Z) : M kernel error_t :=
  x ← module_at m;
  match module_internal x with
  | None => mret ERROR_INVALID_STATE
  | Some i =>
      if module_started i then mret ERROR_NONE
      else
        e ← (if has_start x then module_start_fn m else mret ERROR_NONE);
        if negb (e =? ERROR_NONE) then mret e
        else
          start_drivers m;;
          upd_module_internal m (set_module_started true);;
          mret ERROR_NONE
  end.

Definition module_is_started (m : Z) : M kernel bool :=
  x ← module_at m;
  mret (match module_internal x with Some i => module_started i | None => false end).

Definition module_stop (m : Z) : M kernel error_t :=
  x ← module_at m;
  match module_internal x with
  | None => mret ERROR_INVALID_STATE
  | Some i =>
      if negb (module_started i) then mret ERROR_NONE
      else
        stop_drivers m;;
        e ← (if has_stop x then module_stop_fn m else mret ERROR_NONE);
        if negb (e =? ERROR_NONE) then mret e
        else
          upd_module_internal m (set_module_started false);;
          mret ERROR_NONE
  end.

Definition module_construct_add_start (m : Z) : M kernel error_t :=
  e ← module_construct m;
  if negb (e =? ERROR_NONE) then mret e
  else
    e ← module_add m;
    if negb (e =? ERROR_NONE) then mret e else module_start m.

Definition module_ensure_started (m : Z) : M kernel error_t :=
  x ← module_at m;
  e ← (if bool_decide (module_internal x = None) then module_construct m else mret ERROR_NONE);
  if negb (e =? ERROR_NONE) then mret e
  else
    a ← module_add m;
    if (negb (a =? ERROR_NONE) && negb (a =? ERROR_INVALID_STATE))%bool then mret a
    else
      x ← module_at m;
      match module_internal x with
      | None => undef
      | Some i => if negb (module_started i) then module_start m else mret ERROR_NONE
      end.

Definition module_ensure_destructed (m : Z) : M kernel error_t :=
  x ← module_at m;
  match module_internal x with
  | None => mret ERROR_NONE
  | Some i =>
      e ← (if module_started i then module_stop m else mret ERROR_NONE);
      if negb (e =? ERROR_NONE) then mret e
      else
        e ← module_remove m;
        if negb (e =? ERROR_NONE) then mret e else module_destruct m
  end.

(** The symbol table is terminated by an entry without a name. *)
Fixpoint lookup_symbol (l : list (text * Z)) (n : text) : option Z :=
  match l with
  | [] => None
  | (s, a) :: l' => if bool_decide (s = n) then Some a else lookup_symbol l' n
  end.

Definition module_resolve_symbol (m : Z) (n : text) : M kernel (option Z) :=
  b ← module_is_started m;
  if negb b then mret None
  else
    x ← module_at m;
    mret (match symbols x with None => None | Some l => lookup_symbol l n end).

Fixpoint resolve_in (l : list Z) (n : text) : M kernel (option Z) :=
  match l with
  | [] => mret None
  | m :: l' =>
      b ← module_is_started m;
      if negb b then resolve_in l' n
      else
        o ← module_resolve_symbol m n;
        match o with Some a => mret (Some a) | None => resolve_in l' n end
  end.

Definition module_resolve_symbol_global (n : text) : M kernel (option Z) :=
  l ← gets module_ledger; resolve_in l n.
End modules.

(** * Properties *)

Section module_specs.
Context `{Callbacks}.
Implicit Types (k : kernel) (m r : Z) (l : list Z).

(** * Registering drivers *)

Definition registered (m : Z) : DriverInternal :=
  {| use_count := 0; destroying := false; owner := Some m |}.

(** [r] is a driver that has not been constructed. *)
Definition fresh_driver (k : kernel) (r : Z) : Prop :=
  ∃ drv, drivers k !! r = Some drv ∧ driver_internal drv = None.

Lemma register_one m r l k drv :
  allocs k = [] → drivers k !! r = Some drv →
  register_drivers m (r :: l) k = register_drivers m l
    (set_driver_ledger (driver_ledger k ++ [r])
      (set_drivers (<[r := with_driver_internal (Some (registered m)) drv]> (drivers k)) k)).
Proof.
  intros Ha Hd. destruct k as [dv dl dr drl mo ml li hp al]. simpl in *. subst al.
  unfold driver_construct, new_nothrow, driver_set_owner, upd_driver_internal, upd_driver,
    driver_internal_of, driver_at, deref, driver_add, check, modify, mbind, M_bind,
    driver_internal_at. simpl. rewrite Hd. simpl. rewrite lookup_insert_eq. simpl.
  rewrite lookup_insert_eq. simpl. by rewrite insert_insert_eq.
Qed.

Lemma unregister_app l1 l2 k :
  unregister_drivers (l1 ++ l2) k =
    match unregister_drivers l1 k with
    | Done (_, k') => unregister_drivers l2 k' | Panic => Panic | Undef => Undef end.
Proof.
  revert k. induction l1 as [|r l1 IH]; intros k; [done|]. simpl. unfold mbind, M_bind in *.
  destruct (driver_remove_destruct r k) as [[e k1]| |]; try reflexivity.
  unfold check. destruct (e =? ERROR_NONE); try reflexivity. apply IH.
Qed.

Lemma unregister_one m r k drv :
  drivers k !! r = Some drv → driver_internal drv = None → r ∉ driver_ledger k →
  unregister_drivers [r]
    (set_driver_ledger (driver_ledger k ++ [r])
      (set_drivers (<[r := with_driver_internal (Some (registered m)) drv]> (drivers k)) k))
  = Done (tt, k).
Proof.
  intros Hd Hi Hr. destruct k as [dv dl dr drl mo ml li hp al]. simpl in *.
  unfold driver_remove_destruct, driver_remove, driver_destruct, upd_driver_internal, upd_driver,
    driver_internal_of, driver_at, deref, check, modify, gets, mbind, M_bind,
    driver_internal_at. simpl.
  rewrite bool_decide_true by set_solver. simpl. repeat (rewrite lookup_insert_eq; simpl).
  rewrite !insert_insert_eq, insert_id, erase_first_snoc by
    (done || rewrite Hd; f_equal; by destruct drv; simpl in *; subst).
  done.
Qed.

Lemma register_unregister m l k :
  allocs k = [] → NoDup l → (∀ r, r ∈ l → fresh_driver k r ∧ r ∉ driver_ledger k) →
  ∃ k1, register_drivers m l k = Done (tt, k1) ∧
    (∀ mo, unregister_drivers (rev l) (set_modules mo k1) = Done (tt, set_modules mo k)) ∧
    driver_ledger k1 = driver_ledger k ++ l ∧
    (∀ r, driver_internal_at k1 r =
            if decide (r ∈ l) then Some (registered m) else driver_internal_at k r) ∧
    modules k1 = modules k ∧ devices k1 = devices k ∧ module_ledger k1 = module_ledger k.
Proof.
  intros Ha Hl. revert k Ha. induction Hl as [|r l Hr Hl IH]; intros k Ha Hfresh.
  { exists k. rewrite app_nil_r. split; [done|]. split; [done|]. split_and!; done. }
  destruct (Hfresh r) as [(drv & Hd & Hi) Hnl]; [left|].
  rewrite (register_one m r l k drv) by done.
  set (k0 := set_driver_ledger _ _).
  assert (∀ r', driver_internal_at k0 r' =
    if decide (r = r') then Some (registered m) else driver_internal_at k r') as Hk0.
  { intros r'. unfold k0, driver_internal_at. simpl. rewrite lookup_insert. by case_decide. }
  destruct (IH k0) as (k1 & H1 & H2 & Hled & Hint & Hmods & Hdevs & Hml).
  { done. }
  { intros r' Hr'. assert (r ≠ r') as Hne by (intros ->; done).
    destruct (Hfresh r') as [(drv' & Hd' & Hi') Hnl']; [by right|]. split.
    - exists drv'. split; [|done]. simpl. by rewrite lookup_insert_ne.
    - simpl. rewrite elem_of_app, list_elem_of_singleton. naive_solver. }
  exists k1. split; [done|]. split; [|split; [|split; [|done]]].
  - intros mo. simpl. rewrite unregister_app, H2.
    by apply (unregister_one m r (set_modules mo k) drv).
  - rewrite Hled. simpl. by rewrite <- app_assoc.
  - intros r'. rewrite Hint, Hk0.
    destruct (decide (r' ∈ r :: l)) as [Hc|Hc]; rewrite elem_of_cons in Hc;
      destruct (decide (r' ∈ l)), (decide (r = r')); naive_solver.
Qed.

(** * Starting and stopping *)

Lemma module_at_eq m k x : modules k !! m = Some x → module_at m k = Done (x, k).
Proof. unfold module_at, deref. by intros ->. Qed.

Lemma upd_module_internal_eq m f k mo x i :
  mo !! m = Some x → module_internal x = Some i →
  upd_module_internal m f (set_modules mo k) =
    Done (tt, set_modules (<[m := with_module_internal (Some (f i)) x]> mo) k).
Proof.
  intros Hx Hi. unfold upd_module_internal, upd_module, module_at, deref, modify, mbind, M_bind.
  simpl. rewrite Hx, Hi. simpl. by rewrite ?Hx.
Qed.

Lemma set_modules_id k : set_modules (modules k) k = k.
Proof. by destruct k. Qed.

Lemma module_start_fn_ok (b : bool) m k :
  (∀ k, module_start_fn m k = Done (ERROR_NONE, k)) →
  (if b then module_start_fn m else mret ERROR_NONE) k = Done (ERROR_NONE, k).
Proof. destruct b; [auto|done]. Qed.

Lemma module_stop_fn_ok (b : bool) m k :
  (∀ k, module_stop_fn m k = Done (ERROR_NONE, k)) →
  (if b then module_stop_fn m else mret ERROR_NONE) k = Done (ERROR_NONE, k).
Proof. destruct b; [auto|done]. Qed.

Definition with_flags (s r : bool) (x : Module_) : Module_ :=
  with_module_internal (Some {| module_started := s; drivers_ready := r |}) x.

(** Starting a constructed module that supplies [l]. *)
Lemma module_start_eq m k k1 x l :
  modules k !! m = Some x → module_internal x = Some new_ModuleInternal →
  module_drivers x = Some l → modules k1 = modules k →
  register_drivers m l k = Done (tt, k1) →
  (∀ k, module_start_fn m k = Done (ERROR_NONE, k)) →
  module_start m k =
    Done (ERROR_NONE, set_modules (<[m := with_flags true true x]> (modules k)) k1).
Proof.
  intros Hx Hi Hl Hmods H1 Hstart. unfold module_start, start_drivers, mbind, M_bind.
  rewrite (module_at_eq m k x Hx), Hi. simpl. rewrite module_start_fn_ok by done. simpl.
  unfold mbind, M_bind. rewrite (module_at_eq m k x Hx), Hl, Hi. simpl.
  unfold mbind, M_bind. rewrite H1, <-(set_modules_id k1), Hmods.
  rewrite (upd_module_internal_eq m _ _ _ x new_ModuleInternal) by done.
  erewrite upd_module_internal_eq by (done || apply lookup_insert_eq).
  by rewrite insert_insert_eq.
Qed.

(** Stopping it again. *)
Lemma module_stop_eq m k k1 mo x l :
  mo !! m = Some (with_flags true true x) → module_drivers x = Some l →
  (∀ mo, unregister_drivers (rev l) (set_modules mo k1) = Done (tt, set_modules mo k)) →
  (∀ k, module_stop_fn m k = Done (ERROR_NONE, k)) →
  module_stop m (set_modules mo k1) =
    Done (ERROR_NONE, set_modules (<[m := with_flags false false x]> mo) k).
Proof.
  intros Hx Hl H2 Hstop. unfold module_stop, stop_drivers, mbind, M_bind.
  rewrite (module_at_eq m (set_modules mo k1) _ Hx). simpl. unfold mbind, M_bind.
  rewrite (module_at_eq m (set_modules mo k1) _ Hx). simpl. rewrite Hl. unfold mbind, M_bind. rewrite H2.
  erewrite upd_module_internal_eq by (exact Hx || done).
  rewrite module_stop_fn_ok by done. simpl.
  erewrite upd_module_internal_eq by (done || apply lookup_insert_eq).
  by rewrite insert_insert_eq.
Qed.

(** * Stopping a module whose drivers are in use *)

Lemma driver_remove_destruct_eq r k drv i :
  drivers k !! r = Some drv → driver_internal drv = Some i →
  ∃ e k', driver_remove_destruct r k = Done (e, k') ∧
    (e = ERROR_NONE → use_count i = 0) ∧
    (∀ r', r' ≠ r → drivers k' !! r' = drivers k !! r').
Proof.
  intros Hd Hi. destruct k as [dv dl dr drl mo ml li hp al]. simpl in *.
  unfold driver_remove_destruct, driver_remove, driver_destruct, upd_driver_internal, upd_driver,
    driver_internal_of, driver_at, deref, check, modify, gets, mbind, M_bind,
    driver_internal_at. simpl.
  destruct (bool_decide (r ∈ drl)); simpl; [|by do 2 eexists].
  rewrite Hd. simpl. rewrite Hi.
  destruct (use_count i =? 0) eqn:Hu; simpl; [|by do 2 eexists].
  destruct (destroying i); simpl; [by do 2 eexists|].
  rewrite Hd. simpl. rewrite Hi. simpl. rewrite Hd. simpl. rewrite lookup_insert_eq. simpl.
  do 2 eexists. split; [done|]. split; [by intros _; apply Z.eqb_eq|].
  intros r' Hr'. simpl. by rewrite !lookup_insert_ne.
Qed.

Definition in_use (k : kernel) (r : Z) : Prop :=
  ∃ drv i, drivers k !! r = Some drv ∧ driver_internal drv = Some i ∧ use_count i ≠ 0.

Lemma unregister_in_use l k r :
  NoDup l → (∀ r', r' ∈ l → is_Some (driver_internal_at k r')) →
  r ∈ l → in_use k r → unregister_drivers l k = Panic.
Proof.
  intros Hl. revert k. induction Hl as [|s l Hs Hl IH]; intros k Hall Hr Huse; [set_solver|].
  destruct (Hall s) as [i Hi]; [left|].
  unfold driver_internal_at in Hi. apply bind_Some in Hi as (drv & Hd & Hi).
  destruct (driver_remove_destruct_eq s k drv i Hd Hi) as (e & k' & He & Hcount & Hframe).
  simpl. unfold mbind, M_bind. rewrite He. unfold check.
  destruct (e =? ERROR_NONE) eqn:Hok; [|done]. apply Z.eqb_eq in Hok.
  apply IH.
  - intros r' Hr'. unfold driver_internal_at. rewrite Hframe by congruence.
    apply Hall. by right.
  - apply elem_of_cons in Hr as [->|Hr]; [|done]. destruct Huse as (? & ? & ? & ? & ?).
    naive_solver.
  - destruct Huse as (drv' & i' & Hd' & Hi' & Hn). exists drv', i'. split; [|done].
    rewrite Hframe; [done|]. intros ->. naive_solver.
Qed.

(** * Symbols *)

(** The address a module in state [x] exports under a name. *)
Definition exported (k : kernel) (n : text) (m : Z) : option Z :=
  x ← modules k !! m; i ← module_internal x;
  if module_started i then l ← symbols x; lookup_symbol l n else None.

Lemma module_is_started_eq k m x :
  modules k !! m = Some x → module_is_started m k =
    Done (match module_internal x with Some i => module_started i | None => false end, k).
Proof.
  intros Hx. unfold module_is_started, mbind, M_bind. by rewrite (module_at_eq m k x Hx).
Qed.

Lemma module_resolve_symbol_eq k n m x :
  modules k !! m = Some x → module_resolve_symbol m n k = Done (exported k n m, k).
Proof.
  intros Hx. unfold module_resolve_symbol, mbind, M_bind.
  rewrite (module_is_started_eq k m x Hx). unfold exported. rewrite Hx. simpl.
  destruct (module_internal x) as [i|]; [|done]. simpl. destruct (module_started i); [|done].
  simpl. unfold mbind, M_bind. rewrite (module_at_eq m k x Hx). simpl. by destruct (symbols x).
Qed.

Lemma resolve_in_eq l k n :
  (∀ m, m ∈ l → is_Some (modules k !! m)) →
  resolve_in l n k = Done (head (omap (exported k n) l), k).
Proof.
  induction l as [|m l IH]; intros Hall; [done|].
  destruct (Hall m) as [x Hx]; [left|].
  assert (IH' := IH (λ m' Hm', Hall m' (list_elem_of_further _ _ _ Hm'))).
  simpl. unfold mbind at 1, M_bind at 1. rewrite (module_is_started_eq k m x Hx).
  assert (exported k n m = None ∨ (match module_internal x with
    Some i => module_started i | None => false end) = true) as Hs.
  { unfold exported. rewrite Hx. simpl. destruct (module_internal x) as [i|]; [|by left].
    simpl. destruct (module_started i); [by right|by left]. }
  destruct (match module_internal x with Some i => module_started i | None => false end); simpl.
  - unfold mbind at 1, M_bind at 1. rewrite (module_resolve_symbol_eq k n m x Hx).
    destruct (exported k n m); [done|exact IH'].
  - destruct Hs as [->|?]; [exact IH'|done].
Qed.
End module_specs.

(** Starting a module registers every driver it supplies, owned by the module
    and in array order at the end of the driver ledger; stopping it afterwards
    undoes all of that and restores the kernel exactly. *)
Theorem module_start_stop `{Callbacks} m k x l :
  modules k !! m = Some x → module_internal x = Some new_ModuleInternal →
  module_drivers x = Some l → NoDup l →
  (∀ r, r ∈ l → fresh_driver k r ∧ r ∉ driver_ledger k) → allocs k = [] →
  (∀ k, module_start_fn m k = Done (ERROR_NONE, k)) →
  (∀ k, module_stop_fn m k = Done (ERROR_NONE, k)) →
  ∃ k1, module_start m k = Done (ERROR_NONE, k1) ∧
    module_is_started m k1 = Done (true, k1) ∧
    driver_ledger k1 = driver_ledger k ++ l ∧
    (∀ r, r ∈ l → driver_get_owner r k1 = Done (Some m, k1)) ∧
    module_stop m k1 = Done (ERROR_NONE, k).
Proof.
  intros Hx Hi Hl Hnd Hfresh Ha Hstart Hstop.
  destruct (register_unregister m l k Ha Hnd Hfresh)
    as (k1 & H1 & H2 & Hled & Hint & Hmods & Hdevs & Hml).
  assert (Hm := module_start_eq m k k1 x l Hx Hi Hl Hmods H1 Hstart).
  eexists. split; [exact Hm|]. split; [|split; [exact Hled|split]].
  - unfold module_is_started, module_at, deref, mbind, M_bind. simpl. by rewrite lookup_insert_eq.
  - intros r Hr. unfold driver_get_owner, driver_internal_of, deref, mbind, M_bind.
    change (driver_internal_at _ r) with (driver_internal_at k1 r) at 1.
    by rewrite Hint, decide_True.
  - erewrite module_stop_eq by (exact Hl || exact H2 || exact Hstop || apply lookup_insert_eq).
    rewrite insert_insert_eq, insert_id, set_modules_id; [done|].
    rewrite Hx. f_equal. destruct x. simpl in *. by subst.
Qed.

Module ModuleDemo.
#[export] Instance callbacks : Callbacks := {|
  start_device _ _ := mret ERROR_NONE;
  stop_device _ _ := mret ERROR_NONE;
  probe _ _ := mret ERROR_NONE;
  module_start_fn _ := mret ERROR_NONE;
  module_stop_fn _ := mret ERROR_NONE;
  device_listener_callback _ _ _ _ := mret tt;
|}.
Definition drv (n : text) : Driver :=
  {| driver_name := n; compatible := None; has_start_device := true; has_stop_device := true;
     has_probe := false; device_type := None; driver_internal := None |}.
Definition wifi : Module_ :=
  {| module_name := $"wifi"; has_start := true; has_stop := true; module_drivers := Some [10; 11];
     symbols := Some [($"wifi_scan", 100); ($"wifi_stop", 101)];
     module_internal := Some new_ModuleInternal |}.
Definition boot : kernel :=
  Kernel ∅ [] {[ 10 := drv ($"a"); 11 := drv ($"b") ]} [] {[ 5 := wifi ]} [5] [] [] [].
End ModuleDemo.

#[local] Existing Instance ModuleDemo.callbacks.

Lemma module_start_stop_witness :
  ∃ k1, module_start 5 ModuleDemo.boot = Done (ERROR_NONE, k1) ∧ driver_ledger k1 = [10; 11] ∧
    module_stop 5 k1 = Done (ERROR_NONE, ModuleDemo.boot).
Proof.
  destruct (module_start_stop 5 ModuleDemo.boot ModuleDemo.wifi [10; 11])
    as (k1 & H1 & _ & H2 & _ & H3); try reflexivity.
  - apply (bool_decide_unpack _). vm_compute. exact I.
  - intros r Hr. split; [|apply not_elem_of_nil].
    apply elem_of_cons in Hr as [->|Hr]; [by eexists|].
    apply list_elem_of_singleton in Hr as ->. by eexists.
  - exists k1. split; [exact H1|]. split; [exact H2|exact H3].
Defined.

(** A module cannot be stopped under a device: when one of its drivers is bound
    to a started device, [module_stop] halts the system in [check()] instead of
    freeing the driver. *)
Theorem module_stop_in_use `{Callbacks} m k x l r :
  modules k !! m = Some x → module_internal x = Some {| module_started := true; drivers_ready := true |} →
  module_drivers x = Some l → NoDup l →
  (∀ r', r' ∈ l → is_Some (driver_internal_at k r')) → r ∈ l → in_use k r →
  module_stop m k = Panic.
Proof.
  intros Hx Hi Hl Hnd Hall Hr Huse. unfold module_stop, stop_drivers, mbind, M_bind.
  rewrite (module_at_eq m k x Hx), Hi. simpl. unfold mbind, M_bind.
  rewrite (module_at_eq m k x Hx), Hl, Hi. simpl. unfold mbind, M_bind.
  rewrite (unregister_in_use (rev l) k r); [done| | | |done].
  - rewrite rev_alt. change (rev_append l []) with (reverse l). by rewrite reverse_Permutation.
  - intros r'. rewrite rev_alt. change (rev_append l []) with (reverse l).
    rewrite reverse_Permutation. apply Hall.
  - rewrite rev_alt. change (rev_append l []) with (reverse l). by rewrite reverse_Permutation.
Qed.

(** A symbol resolves to the address given by the first module of the ledger that
    is started and exports it, and to nothing when there is none. *)
Theorem module_resolve_symbol_global_first `{Callbacks} k n :
  (∀ m, m ∈ module_ledger k → is_Some (modules k !! m)) →
  module_resolve_symbol_global n k = Done (head (omap (exported k n) (module_ledger k)), k).
Proof. intros Hall. by apply resolve_in_eq. Qed.

Module ModuleDemo2.
Definition busy (n : Z) : Driver :=
  with_driver_internal (Some {| use_count := n; destroying := false; owner := Some 5 |})
    (ModuleDemo.drv ($"a")).
Definition exporter (b : bool) (a : Z) : Module_ :=
  with_flags b true {| module_name := $"m"; has_start := true; has_stop := true;
    module_drivers := Some [10; 11]; symbols := Some [($"wifi_scan", a)]; module_internal := None |}.
Definition boot : kernel :=
  Kernel ∅ [] {[ 10 := busy 1; 11 := busy 0 ]} [10; 11]
    {[ 4 := exporter false 50; 5 := exporter true 100; 6 := exporter true 200 ]} [4; 5; 6] [] [] [].
End ModuleDemo2.

Lemma module_stop_in_use_witness : module_stop 5 ModuleDemo2.boot = Panic.
Proof.
  apply (module_stop_in_use 5 ModuleDemo2.boot (ModuleDemo2.exporter true 100) [10; 11] 10);
    try reflexivity.
  - apply (bool_decide_unpack _). vm_compute. exact I.
  - intros r Hr. apply elem_of_cons in Hr as [->|Hr]; [by eexists|].
    apply list_elem_of_singleton in Hr as ->. by eexists.
  - left.
  - by do 2 eexists.
Defined.

Lemma module_resolve_symbol_global_first_witness :
  module_resolve_symbol_global ($"wifi_scan") ModuleDemo2.boot = Done (Some 100, ModuleDemo2.boot).
Proof.
  rewrite module_resolve_symbol_global_first; [reflexivity|].
  intros m Hm. repeat (apply elem_of_cons in Hm as [->|Hm]; [by eexists|]).
  by apply not_elem_of_nil in Hm.
Defined.
