(* ===== verification/Chains.v ===== *)
(** Intrusive singly linked lists: the interface a component gives to its nodes, the
    loops the source runs over them, and what the loops do when the links form a
    proper list. *)

From S2P Require Import Prelude.

(** Access to the head pointer and to the [next] field of the nodes in memory.
    [il_next s a] is [None] when [a] is not a node. *)
Class IntrusiveList (S : Type) := {
  il_head : S → option Z;
  il_next : S → Z → option (option Z);
  il_nodes : S → gset Z;
  il_set_head : option Z → S → S;
  il_set_next : Z → option Z → S → S;
}.

Class IntrusiveListLaws (S : Type) `{IntrusiveList S} : Prop := {
  il_head_set_head s p : il_head (il_set_head p s) = p;
  il_next_set_head s p a : il_next (il_set_head p s) a = il_next s a;
  il_head_set_next s a p : il_head (il_set_next a p s) = il_head s;
  il_next_set_next s a p b :
    is_Some (il_next s a) → il_next (il_set_next a p s) b = if decide (a = b) then Some p else il_next s b;
  il_nodes_spec s a : a ∈ il_nodes s ↔ is_Some (il_next s a);
}.

Section chains.
Context {S : Type} `{IntrusiveListLaws S}.
Implicit Types (s : S) (p : option Z) (l : list Z) (a : Z).

(** The nodes reached from [p] are [l], and the last one points nowhere. *)
Fixpoint chain s p l : Prop :=
  match l with
  | [] => p = None
  | a :: l' => p = Some a ∧ ∃ p', il_next s a = Some p' ∧ chain s p' l'
  end.

(** Enough steps for any list without a cycle; a loop that needs more never ends. *)
Definition walk_fuel s : nat := Datatypes.S (size (il_nodes s)).

(** [for (sub = head; sub != nullptr; sub = sub->next) body]: [next] is read after
    the body.  A loop that never ends has no result, as undefined behaviour has. *)
Fixpoint for_chain (fuel : nat) (body : Z → M S unit) p : M S unit :=
  match p, fuel with
  | None, _ => mret tt
  | Some _, O => undef
  | Some a, Datatypes.S f =>
      body a;;
      n ← deref (λ s, il_next s a);
      for_chain f body n
  end.

Definition for_each_node (body : Z → M S unit) : M S unit :=
  fuel ← gets walk_fuel; h ← gets il_head; for_chain fuel body h.

(** [for (link = &head; *link != nullptr; link = &node->next)] up to the link
    that holds [target]; [prev] is the node whose [next] field is the link. *)
Fixpoint find_link (fuel : nat) (target : Z) (prev p : option Z) : M S (option (option Z)) :=
  match p, fuel with
  | None, _ => mret None
  | Some _, O => undef
  | Some a, Datatypes.S f =>
      if decide (a = target) then mret (Some prev)
      else n ← deref (λ s, il_next s a); find_link f target (Some a) n
  end.

(** The unlinking loop: [*link = sub->next]. *)
Definition unlink (target : Z) : M S bool :=
  fuel ← gets walk_fuel; h ← gets il_head;
  o ← find_link fuel target None h;
  match o with
  | None => mret false
  | Some link =>
      n ← deref (λ s, il_next s target);
      (match link with
       | None => modify (il_set_head n)
       | Some a => modify (il_set_next a n)
       end);;
      mret true
  end.

(** * Chains *)

Lemma chain_fun s p l1 l2 : chain s p l1 → chain s p l2 → l1 = l2.
Proof.
  revert p l2. induction l1 as [|a l1 IH]; intros p [|b l2]; simpl.
  - done.
  - by intros -> [? _].
  - by intros [-> _] ?.
  - intros [-> (p1 & E1 & H1)] [[= ->] (p2 & E2 & H2)]. f_equal.
    rewrite E1 in E2. injection E2 as ->. by eapply IH.
Qed.

Lemma chain_app s p l1 a l2 : chain s p (l1 ++ a :: l2) → chain s (Some a) (a :: l2).
Proof.
  revert p. induction l1 as [|b l1 IH]; intros p; simpl.
  - intros [-> Hl]. by split.
  - intros [-> (p' & _ & Hc)]. by eapply IH.
Qed.

Lemma chain_NoDup s p l : chain s p l → NoDup l.
Proof.
  revert p. induction l as [|a l IH]; intros p; [constructor|].
  intros Hc. pose proof Hc as [-> (p' & Hn & Hc')]. constructor; [|by eapply IH].
  intros Hin. apply list_elem_of_split in Hin as (l1 & l2 & ->).
  assert (a :: l1 ++ a :: l2 = a :: l2) as Heq.
  { eapply chain_fun; [exact Hc|]. by eapply (chain_app s (Some a) (a :: l1)). }
  apply (f_equal length) in Heq. simpl in Heq. rewrite length_app in Heq. simpl in Heq. lia.
Qed.

Lemma chain_nodes s p l a : chain s p l → a ∈ l → is_Some (il_next s a).
Proof.
  revert p. induction l as [|b l IH]; intros p; [intros _ ?%not_elem_of_nil; done|].
  intros [_ (p' & Hn & Hc)] [->|Ha]%elem_of_cons; [by eexists|]. by eapply IH.
Qed.

Lemma chain_fuel s p l : chain s p l → (length l < walk_fuel s)%nat.
Proof.
  intros Hc. unfold walk_fuel. apply Nat.lt_succ_r.
  rewrite <-(size_list_to_set (C := gset Z)) by (by eapply chain_NoDup).
  apply subseteq_size. intros a Ha%elem_of_list_to_set. apply il_nodes_spec.
  by eapply chain_nodes.
Qed.

Lemma chain_ext s s' p l :
  (∀ a, a ∈ l → il_next s' a = il_next s a) → chain s p l → chain s' p l.
Proof.
  revert p. induction l as [|a l IH]; intros p Hext; simpl; [done|].
  intros [-> (p' & Hn & Hc)]. split; [done|]. exists p'.
  rewrite Hext by left. split; [done|]. apply IH; [|done]. intros b Hb. apply Hext. by right.
Qed.

(** A walk that ends has found a list. *)
Lemma for_chain_ends s fuel p s' :
  for_chain fuel (λ _, mret tt) p s = Done (tt, s') → ∃ l, chain s p l.
Proof.
  revert p. induction fuel as [|f IH]; intros [a|]; simpl; try (intros; by exists []).
  unfold mbind, M_bind, deref. simpl. destruct (il_next s a) as [n|] eqn:Hn; [|done].
  intros [l Hl]%IH. exists (a :: l). split; [done|]. by exists n.
Qed.

(** Two stores that agree on a segment both lead to its end. *)
Lemma chain_reaches s s' p l1 a l2 m :
  chain s p (l1 ++ a :: l2) → (∀ b, b ∈ l1 → il_next s' b = il_next s b) →
  chain s' p m → a ∈ m.
Proof.
  revert p m. induction l1 as [|b l1 IH]; intros p m; simpl.
  - intros [-> _] _. destruct m as [|c m]; [done|]. intros [[= ->] _]. left.
  - intros [-> (p' & Hn & Hc)] Hext. destruct m as [|c m]; [done|].
    intros [[= ->] (p'' & Hn' & Hm)]. rewrite Hext, Hn in Hn' by left. injection Hn' as ->.
    right. eapply IH; [exact Hc| |exact Hm]. intros d Hd. apply Hext. by right.
Qed.

(** * What the loops do *)

Lemma for_chain_eq body (Inv : S → Prop) fuel s p l :
  (∀ a s, a ∈ l → Inv s → wp (body a) (λ _ s', Inv s' ∧ ∀ b, il_next s' b = il_next s b) s) →
  Inv s → chain s p l → (length l ≤ fuel)%nat →
  wp (for_chain fuel body p) (λ _ s', for_list body l s = Done (tt, s') ∧ Inv s' ∧
    ∀ b, il_next s' b = il_next s b) s.
Proof.
  revert fuel s p. induction l as [|a l IH]; intros fuel s p Hbody Hinv Hc Hf.
  { simpl in Hc. subst p. by destruct fuel. }
  destruct Hc as [-> (p' & Hn & Hc)]. destruct fuel as [|f]; [simpl in Hf; lia|].
  simpl. apply wp_bind.
  destruct (wp_done _ _ _ (Hbody a s (list_elem_of_here _ _) Hinv))
    as ([] & s1 & H1 & Hinv1 & Hnext1).
  unfold wp at 1. rewrite H1. apply wp_bind. eapply wp_deref; [by rewrite Hnext1|].
  eapply wp_mono; [apply (IH f s1)|].
  - intros b s2 Hb. apply Hbody. by right.
  - done.
  - eapply chain_ext; [|exact Hc]. auto.
  - simpl in Hf. lia.
  - intros [] s' (HM & Hi & Hnx). split; [|split; [done|]].
    + unfold mbind, M_bind. by rewrite H1.
    + intros b. by rewrite Hnx.
Qed.

(** The loop visits the nodes of the list in order. *)
Lemma for_each_node_eq body (Inv : S → Prop) s l :
  (∀ a s, a ∈ l → Inv s → wp (body a) (λ _ s', Inv s' ∧ ∀ b, il_next s' b = il_next s b) s) →
  Inv s → chain s (il_head s) l →
  wp (for_each_node body) (λ _ s', for_list body l s = Done (tt, s') ∧ Inv s' ∧
    ∀ b, il_next s' b = il_next s b) s.
Proof.
  intros Hbody Hinv Hc. unfold for_each_node.
  apply wp_bind, wp_gets, wp_bind, wp_gets, for_chain_eq; try done.
  apply Nat.lt_le_incl. by eapply chain_fuel.
Qed.

Lemma find_link_absent s fuel target prev p l :
  chain s p l → (length l ≤ fuel)%nat → target ∉ l →
  find_link fuel target prev p s = Done (None, s).
Proof.
  revert fuel prev p. induction l as [|a l IH]; intros fuel prev p Hc Hf Hn.
  { simpl in Hc. subst p. by destruct fuel. }
  destruct Hc as [-> (p' & Hp & Hc)]. destruct fuel as [|f]; [simpl in Hf; lia|].
  apply not_elem_of_cons in Hn as [Hne Hn]. simpl. case_decide; [congruence|].
  unfold mbind, M_bind, deref. rewrite Hp. apply IH; [done| |done]. simpl in Hf. lia.
Qed.

Lemma find_link_present s fuel target prev p l1 l2 :
  chain s p (l1 ++ target :: l2) → (length l1 < fuel)%nat → target ∉ l1 →
  find_link fuel target prev p s =
    Done (Some (match last l1 with Some a => Some a | None => prev end), s).
Proof.
  revert fuel prev p. induction l1 as [|a l1 IH]; intros fuel prev p Hc Hf Hn.
  { destruct Hc as [-> _]. destruct fuel as [|f]; [simpl in Hf; lia|]. simpl.
    by rewrite decide_True. }
  destruct Hc as [-> (p' & Hp & Hc)]. destruct fuel as [|f]; [simpl in Hf; lia|].
  apply not_elem_of_cons in Hn as [Hne Hn]. cbn [find_link]. rewrite decide_False by congruence.
  unfold mbind, M_bind, deref. rewrite Hp, (IH f) by (done || simpl in Hf; lia).
  destruct l1 as [|b l1]; [done|]. rewrite last_cons_cons. by destruct (last_is_Some (b :: l1)) as [_ [x ->]].
Qed.

Lemma chain_set_next s p l1 a b l2 n :
  chain s p (l1 ++ a :: b :: l2) → il_next s b = Some n →
  chain (il_set_next a n s) p (l1 ++ a :: l2).
Proof.
  intros Hc Hb. pose proof (chain_NoDup _ _ _ Hc) as Hnd. revert p Hc.
  induction l1 as [|c l1 IH]; intros p; simpl in *.
  - intros [-> (p' & Ha & [-> (p'' & Hb' & Hc)])]. split; [done|]. exists n.
    rewrite il_next_set_next, decide_True by (done || by eexists). split; [done|].
    rewrite Hb in Hb'. injection Hb' as <-.
    eapply chain_ext; [|exact Hc]. intros x Hx. rewrite il_next_set_next by (by eexists).
    rewrite decide_False; [done|]. intros <-.
    apply NoDup_cons in Hnd as [Hnd _]. apply Hnd. by right.
  - apply NoDup_cons in Hnd as [Hc' Hnd]. intros [-> (p' & Hc'' & Hc)]. split; [done|].
    exists p'. split; [|by apply IH].
    destruct (chain_nodes s p' _ a Hc) as [pa Hpa]; [set_solver|].
    rewrite il_next_set_next, decide_False; [done| |by eexists].
    intros ->. set_solver.
Qed.

(** Unlinking removes the node from the list when it is there, and reports
    whether it was. *)
Lemma unlink_eq s l target :
  chain s (il_head s) l →
  wp (unlink target) (λ b s', b = bool_decide (target ∈ l) ∧
    chain s' (il_head s') (erase_first target l) ∧
    (target ∉ l → s' = s) ∧
    (s' = s ∨ (∃ n, s' = il_set_head n s) ∨ ∃ a n, a ∈ l ∧ s' = il_set_next a n s)) s.
Proof.
  intros Hc. pose proof (chain_fuel _ _ _ Hc) as Hf. unfold unlink.
  apply wp_bind, wp_gets, wp_bind, wp_gets, wp_bind.
  destruct (decide (target ∈ l)) as [Hin|Hin].
  - apply list_elem_of_split in Hin as (l1 & l2 & ->).
    pose proof (chain_NoDup _ _ _ Hc) as Hnd.
    assert (target ∉ l1) as Hn1 by (apply list.NoDup_app in Hnd; set_solver).
    rewrite bool_decide_true by set_solver.
    assert (erase_first target (l1 ++ target :: l2) = l1 ++ l2) as ->.
    { clear -Hn1. induction l1 as [|x l1 IH]; simpl; [by rewrite decide_True|].
      apply not_elem_of_cons in Hn1 as [? ?]. rewrite decide_False by congruence.
      by rewrite IH. }
    unfold wp at 1. rewrite (find_link_present _ _ _ _ _ l1 l2) by
      (done || rewrite length_app in Hf; simpl in Hf; lia).
    destruct (chain_app _ _ _ _ _ Hc) as [_ (n & Hn & Hc2)].
    apply wp_bind. eapply wp_deref; [exact Hn|]. apply wp_bind.
    destruct l1 as [|x l1' _] using rev_ind; simpl.
    + split; [done|]. split; [|split; [set_solver|by right; left; exists n]].
      rewrite il_head_set_head.
      eapply chain_ext; [|exact Hc2]. intros. by rewrite il_next_set_head.
    + rewrite last_snoc. simpl. split; [done|].
      split; [|split; [set_solver|right; right; exists x, n; split; [set_solver|done]]].
      rewrite il_head_set_next. rewrite <-app_assoc in Hc |- *. simpl in Hc |- *.
      by eapply chain_set_next.
  - rewrite bool_decide_false by done. unfold wp at 1.
    rewrite (find_link_absent _ _ _ _ _ l) by (done || lia). simpl.
    rewrite erase_first_notin by done. split; [done|]. split; [done|]. split; [done|by left].
Qed.
End chains.
