(* ===== verification/EventGroups.v ===== *)
(** Task event groups, TactilityKernel/source/concurrent/task_event_group.cpp and the
    task context of event_group.cpp: claiming, releasing, signalling and waiting on the
    bits of a FreeRTOS event group. *)

From S2P Require Import Prelude.

Definition TASK_EVENT_GROUP_MAX_BITS : nat := 24.

(** [flags] is the word held by the FreeRTOS event group behind [internal.handle]. *)
Record TaskEventGroup := { claimed_bits : Z; group_flags : Z }.

Definition with_claimed (c : Z) (g : TaskEventGroup) : TaskEventGroup :=
  {| claimed_bits := c; group_flags := group_flags g |}.
Definition with_flags_word (w : Z) (g : TaskEventGroup) : TaskEventGroup :=
  {| claimed_bits := claimed_bits g; group_flags := w |}.

(** FreeRTOS, on the word of an event group: the new word, and for a wait the value
    returned and the word left behind. *)
Class FreeRtosEventGroup := {
  xEventGroupSetBits : Z → Z → Z;
  xEventGroupClearBits : Z → Z → Z;
  xEventGroupWaitBits : Z → Z → bool → bool → Z * Z;
}.

(** What its reference manual says of setting and clearing. *)
Class FreeRtosEventGroupLaws `{FreeRtosEventGroup} : Prop := {
  set_bits_spec w b i : 0 ≤ i → Z.testbit (xEventGroupSetBits w b) i = (Z.testbit w i || Z.testbit b i)%bool;
  clear_bits_spec w b i : 0 ≤ i →
    Z.testbit (xEventGroupClearBits w b) i = (Z.testbit w i && negb (Z.testbit b i))%bool;
}.

(** A component whose state holds event groups. *)
Class HasGroups (S : Type) := {
  groups : S → gmap Z TaskEventGroup;
  set_groups : gmap Z TaskEventGroup → S → S;
}.

Class HasGroupsLaws (S : Type) `{HasGroups S} : Prop := {
  groups_set_groups g s : groups (set_groups g s) = g;
}.

Section task_event_group.
Context {S : Type} `{HasGroups S} `{FreeRtosEventGroup}.
Implicit Types (s : S) (g bit : Z).

Definition group_at (g : Z) : M S TaskEventGroup := deref (λ s, groups s !! g).
Definition upd_group (g : Z) (f : TaskEventGroup → TaskEventGroup) : M S unit :=
  x ← group_at g; modify (λ s, set_groups (<[g := f x]> (groups s)) s).

(** event_group.cpp, outside interrupts. *)
Definition event_group_set (g bits : Z) : M S error_t :=
  upd_group g (λ x, with_flags_word (xEventGroupSetBits (group_flags x) bits) x);;
  mret ERROR_NONE.

Definition event_group_clear (g bits : Z) : M S error_t :=
  upd_group g (λ x, with_flags_word (xEventGroupClearBits (group_flags x) bits) x);;
  mret ERROR_NONE.

Definition event_group_wait (g in_flags : Z) (await_all clear_on_exit : bool)
    : M S (error_t * option Z) :=
  x ← group_at g;
  let '(result_flags, w) := xEventGroupWaitBits (group_flags x) in_flags clear_on_exit await_all in
  upd_group g (with_flags_word w);;
  let invalid_flags :=
    if await_all then negb (Z.land in_flags result_flags =? in_flags)
    else Z.land in_flags result_flags =? 0 in
  mret (if invalid_flags
        then (if Z.land in_flags result_flags =? 0 then ERROR_TIMEOUT else ERROR_RESOURCE, None)
        else (ERROR_NONE, Some result_flags)).

Definition task_event_group_construct (g : Z) : M S unit :=
  modify (λ s, set_groups (<[g := {| claimed_bits := 0; group_flags := 0 |}]> (groups s)) s).

(** The search for a free bit, from bit [i] on; [n] bits are left to try. *)
Fixpoint free_bit (n : nat) (i : Z) (claimed : Z) : option Z :=
  match n with
  | O => None
  | Datatypes.S n' =>
      if Z.land claimed (Z.shiftl 1 i) =? 0 then Some (Z.shiftl 1 i)
      else free_bit n' (i + 1) claimed
  end.

Definition task_event_group_claim_bit (g : Z) : M S (error_t * option Z) :=
  x ← group_at g;
  match free_bit TASK_EVENT_GROUP_MAX_BITS 0 (claimed_bits x) with
  | Some bit =>
      upd_group g (λ x, with_claimed (Z.lor (claimed_bits x) bit) x);;
      mret (ERROR_NONE, Some bit)
  | None => mret (ERROR_RESOURCE, None)
  end.

Definition task_event_group_release_bit (g bit : Z) : M S unit :=
  event_group_clear g bit;;
  upd_group g (λ x, with_claimed (Z.land (claimed_bits x) (Z.lnot bit)) x).

Definition task_event_group_signal (g bit : Z) : M S error_t := event_group_set g bit.

Definition task_event_group_wait (g mask : Z) (await_all : bool) : M S (error_t * option Z) :=
  event_group_wait g mask await_all true.

Definition task_event_group_wait_any (g : Z) : M S (error_t * option Z) :=
  x ← group_at g;
  if claimed_bits x =? 0 then mret (ERROR_TIMEOUT, None)
  else task_event_group_wait g (claimed_bits x) false.

(** * The search *)

Lemma land_bit_zero c i : 0 ≤ i → (Z.land c (Z.shiftl 1 i) =? 0) = negb (Z.testbit c i).
Proof.
  intros Hi. rewrite Z.shiftl_1_l.
  destruct (Z.testbit c i) eqn:Hb; simpl.
  - apply Z.eqb_neq. intros Hz. apply (f_equal (λ x, Z.testbit x i)) in Hz.
    by rewrite Z.land_spec, Hb, Z.pow2_bits_true, Z.bits_0 in Hz.
  - apply Z.eqb_eq. apply Z.bits_inj'. intros j Hj. rewrite Z.land_spec, Z.bits_0.
    destruct (decide (i = j)) as [->|Hne]; [by rewrite Hb|].
    by rewrite Z.pow2_bits_false, andb_false_r.
Qed.

Lemma free_bit_Some n i c b :
  0 ≤ i → free_bit n i c = Some b →
  ∃ j, i ≤ j < i + Z.of_nat n ∧ b = Z.shiftl 1 j ∧ Z.testbit c j = false ∧
    ∀ j', i ≤ j' < j → Z.testbit c j' = true.
Proof.
  revert i. induction n as [|n IH]; intros i Hi; simpl; [done|].
  rewrite land_bit_zero by done. destruct (Z.testbit c i) eqn:Hb; simpl.
  - intros (j & Hj & -> & Hf & Hl)%IH; [|lia]. exists j. split; [lia|]. split; [done|].
    split; [done|]. intros j' Hj'. destruct (decide (j' = i)) as [->|]; [done|]. apply Hl. lia.
  - intros [= <-]. exists i. split; [lia|]. split; [done|]. split; [done|]. lia.
Qed.

Lemma free_bit_None n i c :
  0 ≤ i → free_bit n i c = None → ∀ j, i ≤ j < i + Z.of_nat n → Z.testbit c j = true.
Proof.
  revert i. induction n as [|n IH]; intros i Hi; simpl; [lia|].
  rewrite land_bit_zero by done. destruct (Z.testbit c i) eqn:Hb; simpl; [|done].
  intros Hn j Hj. destruct (decide (j = i)) as [->|]; [done|]. eapply (IH (i + 1)); [lia|done|lia].
Qed.

Lemma testbit_shiftl_1 i j : 0 ≤ i → 0 ≤ j → Z.testbit (Z.shiftl 1 i) j = bool_decide (i = j).
Proof.
  intros Hi Hj. rewrite Z.shiftl_1_l. case_bool_decide as Hd.
  - subst. by apply Z.pow2_bits_true.
  - by apply Z.pow2_bits_false.
Qed.

Lemma group_at_eq g s x : groups s !! g = Some x → group_at g s = Done (x, s).
Proof. unfold group_at, deref. by intros ->. Qed.

Lemma upd_group_eq g f s x :
  groups s !! g = Some x → upd_group g f s = Done (tt, set_groups (<[g := f x]> (groups s)) s).
Proof. intros Hx. unfold upd_group, mbind, M_bind. by rewrite (group_at_eq g s x Hx). Qed.

(** The group after a claim: bit [i] is taken. *)
Lemma claim_bit_cases g s x :
  groups s !! g = Some x →
  (∃ i, 0 ≤ i < 24 ∧ Z.testbit (claimed_bits x) i = false ∧
     (∀ j, 0 ≤ j < i → Z.testbit (claimed_bits x) j = true) ∧
     task_event_group_claim_bit g s = Done ((ERROR_NONE, Some (Z.shiftl 1 i)),
       set_groups (<[g := with_claimed (Z.lor (claimed_bits x) (Z.shiftl 1 i)) x]> (groups s)) s)) ∨
  ((∀ j, 0 ≤ j < 24 → Z.testbit (claimed_bits x) j = true) ∧
     task_event_group_claim_bit g s = Done ((ERROR_RESOURCE, None), s)).
Proof.
  intros Hx. unfold task_event_group_claim_bit, mbind, M_bind.
  rewrite (group_at_eq g s x Hx).
  destruct (free_bit TASK_EVENT_GROUP_MAX_BITS 0 (claimed_bits x)) as [b|] eqn:Hb.
  - left. apply free_bit_Some in Hb as (i & Hi & -> & Hf & Hl); [|done].
    unfold TASK_EVENT_GROUP_MAX_BITS in Hi. exists i. split; [lia|].
    split; [done|]. split; [done|]. unfold mbind, M_bind.
    by rewrite (upd_group_eq g _ s x Hx).
  - right. split; [|done]. intros j Hj. unfold TASK_EVENT_GROUP_MAX_BITS in Hb.
    eapply free_bit_None; [|exact Hb|]; lia.
Qed.
End task_event_group.

(** A claim hands out the lowest bit below 24 that nobody holds and marks it
    held, and leaves the other bits alone; it is refused, changing nothing, exactly
    when all 24 are held; releasing a bit makes it claimable again and clears its
    flag, so a stale signal is not handed to the next claimant. *)
Theorem claim_release_bit `{HasGroupsLaws St} `{FreeRtosEventGroupLaws} g s x :
  groups s !! g = Some x →
  (∀ e o s', task_event_group_claim_bit g s = Done ((e, o), s') →
     (e = ERROR_RESOURCE ∧ s' = s ∧ ∀ i, 0 ≤ i < 24 → Z.testbit (claimed_bits x) i = true) ∨
     (e = ERROR_NONE ∧ ∃ i x', 0 ≤ i < 24 ∧ o = Some (Z.shiftl 1 i) ∧ groups s' !! g = Some x' ∧
        Z.testbit (claimed_bits x) i = false ∧
        (∀ j, 0 ≤ j < i → Z.testbit (claimed_bits x) j = true) ∧
        (∀ j, 0 ≤ j → Z.testbit (claimed_bits x') j = (Z.testbit (claimed_bits x) j || bool_decide (j = i))%bool))) ∧
  (∀ i, 0 ≤ i < 24 → ∃ s' x', task_event_group_release_bit g (Z.shiftl 1 i) s = Done (tt, s') ∧
     groups s' !! g = Some x' ∧ Z.testbit (group_flags x') i = false ∧
     (∀ j, 0 ≤ j → Z.testbit (claimed_bits x') j = (Z.testbit (claimed_bits x) j && negb (bool_decide (j = i)))%bool) ∧
     (∀ j, 0 ≤ j → j ≠ i → Z.testbit (group_flags x') j = Z.testbit (group_flags x) j)).
Proof.
  intros Hx. split.
  - intros e o s' Hc. destruct (claim_bit_cases g s x Hx) as [(i & Hi & Hf & Hl & E)|[Hall E]];
      rewrite E in Hc; injection Hc as <- <- <-; [right|by left].
    split; [done|]. exists i. eexists. rewrite groups_set_groups, lookup_insert_eq.
    split; [done|]. split; [done|]. split; [done|]. split; [done|]. split; [done|].
    intros j Hj. simpl. rewrite Z.lor_spec, testbit_shiftl_1 by lia. f_equal.
    by apply bool_decide_ext.
  - intros i Hi. unfold task_event_group_release_bit, event_group_clear, mbind, M_bind.
    rewrite (upd_group_eq g _ s x Hx). simpl. erewrite upd_group_eq
      by (rewrite groups_set_groups; apply lookup_insert_eq).
    do 2 eexists. split; [done|]. rewrite !groups_set_groups, lookup_insert_eq. split; [done|].
    simpl. split; [|split].
    + rewrite clear_bits_spec, testbit_shiftl_1, bool_decide_true by lia. by rewrite andb_false_r.
    + intros j Hj. rewrite Z.land_spec, Z.lnot_spec, testbit_shiftl_1 by lia. do 2 f_equal.
      by apply bool_decide_ext.
    + intros j Hj Hne. rewrite clear_bits_spec, testbit_shiftl_1, bool_decide_false by lia.
      by rewrite andb_true_r.
Qed.

Module GroupDemo.
#[export] Instance rtos : FreeRtosEventGroup := {|
  xEventGroupSetBits := Z.lor;
  xEventGroupClearBits := Z.ldiff;
  xEventGroupWaitBits w bits clear all :=
    (w, if (clear && (if all then Z.land w bits =? bits else negb (Z.land w bits =? 0)))%bool
        then Z.ldiff w bits else w);
|}.
#[export] Instance rtos_laws : FreeRtosEventGroupLaws.
Proof. split; intros; simpl; [apply Z.lor_spec|by apply Z.ldiff_spec]. Qed.

#[export] Instance just_groups : HasGroups (gmap Z TaskEventGroup) :=
  {| groups s := s; set_groups g _ := g |}.
#[export] Instance just_groups_laws : HasGroupsLaws (gmap Z TaskEventGroup).
Proof. by split. Qed.

Definition one : gmap Z TaskEventGroup := {[ 7 := {| claimed_bits := 5; group_flags := 4 |} ]}.
End GroupDemo.

#[local] Existing Instance GroupDemo.rtos.
#[local] Existing Instance GroupDemo.rtos_laws.
#[local] Existing Instance GroupDemo.just_groups.
#[local] Existing Instance GroupDemo.just_groups_laws.

Lemma claim_release_bit_witness :
  (∃ s', task_event_group_claim_bit 7 GroupDemo.one = Done ((ERROR_NONE, Some 2), s')) ∧
  ∃ s' x', task_event_group_release_bit 7 4 GroupDemo.one = Done (tt, s') ∧
    groups s' !! 7 = Some x' ∧ Z.testbit (group_flags x') 2 = false.
Proof.
  destruct (claim_release_bit 7 GroupDemo.one {| claimed_bits := 5; group_flags := 4 |})
    as [_ Hr]; [reflexivity|].
  split; [by eexists|].
  destruct (Hr 2) as (s' & x' & H1 & H2 & H3 & _); [lia|].
  exists s', x'. split; [exact H1|]. split; [exact H2|exact H3].
Defined.
