(* ===== verification/SystemEvents.v ===== *)
(** System events, TactilityKernel/source/system_event.cpp: callback subscriptions,
    poll subscriptions on an intrusive list, emitting and polling. *)

From S2P Require Import Prelude Chains EventGroups.

(** [sizeof(struct NetworkConnectedEvent)] on a 32-bit target. *)
Definition SYSTEM_EVENT_MAX_DATA_SIZE : nat := 12.

Record KernelEventSubscription := { ks_type : Z; ks_callback : Z; ks_context : Z }.

#[export] Instance KernelEventSubscription_eq : EqDecision KernelEventSubscription.
Proof. solve_decision. Defined.

(** [data] holds all the bytes of the fixed-size array. *)
Record SystemEvent := { event_type : Z; timestamp : Z; data : list Z; data_len : nat }.

Record SystemEventSubscription := {
  event : SystemEvent;
  bit : Z;
  event_group : Z;
  sequence : Z;
  consumed_sequence : Z;
  cancelled : bool;
  next : option Z;
}.

(** [micros] is what [get_micros_since_boot] returns next. *)
Record events := Events {
  subscriptions : list KernelEventSubscription;
  poll_subscriptions : option Z;
  poll_subs : gmap Z SystemEventSubscription;
  event_groups : gmap Z TaskEventGroup;
  micros : Z;
  event_allocs : list bool;
}.

Definition set_subscriptions (l : list KernelEventSubscription) (s : events) : events :=
  Events l (poll_subscriptions s) (poll_subs s) (event_groups s) (micros s) (event_allocs s).
Definition set_poll_head (p : option Z) (s : events) : events :=
  Events (subscriptions s) p (poll_subs s) (event_groups s) (micros s) (event_allocs s).
Definition set_poll_subs (m : gmap Z SystemEventSubscription) (s : events) : events :=
  Events (subscriptions s) (poll_subscriptions s) m (event_groups s) (micros s) (event_allocs s).
Definition set_event_groups (g : gmap Z TaskEventGroup) (s : events) : events :=
  Events (subscriptions s) (poll_subscriptions s) (poll_subs s) g (micros s) (event_allocs s).
Definition set_event_allocs (l : list bool) (s : events) : events :=
  Events (subscriptions s) (poll_subscriptions s) (poll_subs s) (event_groups s) (micros s) l.

#[export] Instance events_groups : HasGroups events :=
  {| groups := event_groups; set_groups := set_event_groups |}.
#[export] Instance events_groups_laws : HasGroupsLaws events.
Proof. by split. Qed.

Definition with_event (e : SystemEvent) (u : SystemEventSubscription) : SystemEventSubscription :=
  {| event := e; bit := bit u; event_group := event_group u; sequence := sequence u;
     consumed_sequence := consumed_sequence u; cancelled := cancelled u; next := next u |}.
Definition with_sequence (n c : Z) (u : SystemEventSubscription) : SystemEventSubscription :=
  {| event := event u; bit := bit u; event_group := event_group u; sequence := n;
     consumed_sequence := c; cancelled := cancelled u; next := next u |}.
Definition with_cancelled (b : bool) (u : SystemEventSubscription) : SystemEventSubscription :=
  {| event := event u; bit := bit u; event_group := event_group u; sequence := sequence u;
     consumed_sequence := consumed_sequence u; cancelled := b; next := next u |}.
Definition with_next (p : option Z) (u : SystemEventSubscription) : SystemEventSubscription :=
  {| event := event u; bit := bit u; event_group := event_group u; sequence := sequence u;
     consumed_sequence := consumed_sequence u; cancelled := cancelled u; next := p |}.

#[export] Instance events_list : IntrusiveList events := {|
  il_head := poll_subscriptions;
  il_next s a := next <$> poll_subs s !! a;
  il_nodes s := dom (poll_subs s);
  il_set_head := set_poll_head;
  il_set_next a p s := set_poll_subs (alter (with_next p) a (poll_subs s)) s;
|}.
#[export] Instance events_list_laws : IntrusiveListLaws events.
Proof.
  split; simpl; try done.
  - intros s a p b Hs. destruct (decide (a = b)) as [->|Hne].
    + rewrite lookup_alter. rewrite decide_True by done. by destruct (poll_subs s !! b); destruct Hs.
    + by rewrite lookup_alter_ne.
  - intros s a. rewrite elem_of_dom. by rewrite fmap_is_Some.
Qed.

(** The subscribers' callbacks. *)
Class SystemEventCallbacks :=
  system_event_callback : Z → SystemEvent → Z → M events unit.

(** [memcpy(dst, src, n)] over a whole array. *)
Definition memcpy (dst src : list Z) (n : nat) : list Z := take n src ++ drop n dst.

Definition events_new_nothrow : M events bool := λ s,
  match event_allocs s with
  | [] => Done (true, s)
  | b :: l => Done (b, set_event_allocs l s)
  end.

Section system_events.
Context `{FreeRtosEventGroup} `{SystemEventCallbacks}.

Definition sub_at (a : Z) : M events SystemEventSubscription := deref (λ s, poll_subs s !! a).
Definition upd_sub (a : Z) (f : SystemEventSubscription → SystemEventSubscription) : M events unit :=
  u ← sub_at a; modify (λ s, set_poll_subs (<[a := f u]> (poll_subs s)) s).

Definition system_event_callback_add (t c x : Z) : M events error_t :=
  modify (λ s, set_subscriptions
    (subscriptions s ++ [{| ks_type := t; ks_callback := c; ks_context := x |}]) s);;
  mret ERROR_NONE.

(** Erases the first subscription with this type and callback. *)
Fixpoint erase_callback (t c : Z) (l : list KernelEventSubscription)
    : option (list KernelEventSubscription) :=
  match l with
  | [] => None
  | k :: l' =>
      if bool_decide (ks_type k = t ∧ ks_callback k = c) then Some l'
      else cons k <$> erase_callback t c l'
  end.

Definition system_event_callback_remove (t c : Z) : M events error_t :=
  l ← gets subscriptions;
  match erase_callback t c l with
  | Some l' => modify (set_subscriptions l');; mret ERROR_NONE
  | None => mret ERROR_NOT_FOUND
  end.

(** The event a subscriber holds after a notification. *)
Definition stored_event (time : Z) (src : list Z) (copied_len : nat) (e : SystemEvent) : SystemEvent :=
  {| event_type := event_type e; timestamp := time;
     data := memcpy (data e) src copied_len; data_len := copied_len |}.

Definition notified (time : Z) (src : list Z) (copied_len : nat) (u : SystemEventSubscription)
    : SystemEventSubscription :=
  with_sequence ((sequence u + 1) mod 2^32) (consumed_sequence u)
    (with_event (stored_event time src copied_len (event u)) u).

(** Reading past the caller's buffer is undefined. *)
Definition notify_one (t time : Z) (src : list Z) (len : nat) (a : Z) : M events unit :=
  u ← sub_at a;
  if event_type (event u) =? t then
    let copied_len := Nat.min len SYSTEM_EVENT_MAX_DATA_SIZE in
    (if (copied_len <=? length src)%nat then mret tt else undef);;
    upd_sub a (notified time src copied_len);;
    u ← sub_at a;
    task_event_group_signal (event_group u) (bit u);;
    mret tt
  else mret tt.

Definition notify_poll_subscribers (t time : Z) (src : list Z) (len : nat) : M events unit :=
  for_each_node (notify_one t time src len).

(** The snapshot is taken before any callback runs. *)
Definition notify_listeners (e : SystemEvent) : M events error_t :=
  l ← gets subscriptions;
  let matching := filter (λ k, ks_type k = event_type e) l in
  ok ← (if (0 <? length matching)%nat then events_new_nothrow else mret true);
  if negb ok then mret ERROR_OUT_OF_MEMORY
  else
    for_list (λ k, system_event_callback (ks_callback k) e (ks_context k)) matching;;
    mret ERROR_NONE.

Definition system_event_emit (t : Z) (src : list Z) (len : nat) : M events error_t :=
  time ← gets micros;
  let copied_len := Nat.min len SYSTEM_EVENT_MAX_DATA_SIZE in
  (if (copied_len <=? length src)%nat then mret tt else undef);;
  let e := {| event_type := t; timestamp := time;
              data := memcpy (replicate SYSTEM_EVENT_MAX_DATA_SIZE 0) src copied_len;
              data_len := copied_len |} in
  notify_poll_subscribers t time src len;;
  notify_listeners e.

Definition system_event_subscribe (a g : Z) : M events error_t :=
  '(claim_result, b) ← task_event_group_claim_bit g;
  match b with
  | None => mret claim_result
  | Some b =>
      h ← gets poll_subscriptions;
      if bool_decide (h = Some a) then
        task_event_group_release_bit g b;;
        mret ERROR_INVALID_STATE
      else
        upd_sub a (λ u,
          {| event := {| event_type := event_type (event u); timestamp := timestamp (event u);
                         data := data (event u); data_len := 0 |};
             bit := b; event_group := g; sequence := 0; consumed_sequence := 0;
             cancelled := false; next := h |});;
        modify (set_poll_head (Some a));;
        mret ERROR_NONE
  end.

Definition system_event_unsubscribe (a : Z) : M events error_t :=
  found ← unlink a;
  if (found : bool) then
    upd_sub a (with_cancelled true);;
    u ← sub_at a;
    task_event_group_signal (event_group u) (bit u);;
    task_event_group_release_bit (event_group u) (bit u);;
    mret ERROR_NONE
  else mret ERROR_NOT_FOUND.

Definition system_event_poll (a : Z) : M events error_t :=
  u ← sub_at a;
  let pending := negb (sequence u =? consumed_sequence u) in
  (if pending then upd_sub a (λ u, with_sequence (sequence u) (sequence u) u) else mret tt);;
  mret (if pending then ERROR_NONE
        else if cancelled u then ERROR_INVALID_STATE else ERROR_TIMEOUT).

(** The bytes copied out, when they fit in a buffer of [len] bytes. *)
Definition system_event_get_data (a : Z) (len : nat) : M events (error_t * list Z) :=
  u ← sub_at a;
  if (len <? data_len (event u))%nat then mret (ERROR_BUFFER_OVERFLOW, [])
  else mret (ERROR_NONE, take (data_len (event u)) (data (event u))).
End system_events.
