(* ===== verification/SystemEventSpecs.v ===== *)
(** Properties of [SystemEvents]: what an emission delivers, polling, and the list of
    poll subscriptions. *)

From S2P Require Import Prelude Chains EventGroups SystemEvents.

Section system_event_specs.
Context `{FreeRtosEventGroupLaws} `{SystemEventCallbacks}.
Implicit Types (s : events) (a g t time : Z) (src : list Z) (l : list Z).

(** The subscription exists and so does the group it signals. *)
Definition live s a : Prop :=
  ∃ u, poll_subs s !! a = Some u ∧ is_Some (event_groups s !! event_group u).

(** A subscriber after an emission of type [t]. *)
Definition deliver_to t time src (n : nat) (u : SystemEventSubscription) : SystemEventSubscription :=
  if event_type (event u) =? t then notified time src n u else u.

(** Every bit of [b] is raised in group [g]. *)
Definition signalled s g (b : Z) : Prop :=
  ∃ x, event_groups s !! g = Some x ∧ ∀ i, 0 ≤ i → Z.testbit b i = true → Z.testbit (group_flags x) i = true.

(** The effect of notifying the subscriptions [l]: each one of the type stores the
    event and its bit is raised; the others, the claims, the raised bits and the
    rest of the state are as they were. *)
Record delivered t time src (n : nat) l s s' : Prop := {
  delivered_subs b : poll_subs s' !! b =
    if decide (b ∈ l) then deliver_to t time src n <$> poll_subs s !! b else poll_subs s !! b;
  delivered_groups g x : event_groups s !! g = Some x → ∃ x', event_groups s' !! g = Some x' ∧
    claimed_bits x' = claimed_bits x ∧
    ∀ i, 0 ≤ i → Z.testbit (group_flags x) i = true → Z.testbit (group_flags x') i = true;
  delivered_signals b u : b ∈ l → poll_subs s !! b = Some u → event_type (event u) = t →
    signalled s' (event_group u) (bit u);
  delivered_rest : subscriptions s' = subscriptions s ∧ poll_subscriptions s' = poll_subscriptions s ∧
    micros s' = micros s ∧ event_allocs s' = event_allocs s;
}.

Lemma deliver_to_next t time src n u : next (deliver_to t time src n u) = next u.
Proof. unfold deliver_to. by destruct (_ =? _). Qed.
Lemma deliver_to_group t time src n u : event_group (deliver_to t time src n u) = event_group u.
Proof. unfold deliver_to. by destruct (_ =? _). Qed.
Lemma deliver_to_bit t time src n u : bit (deliver_to t time src n u) = bit u.
Proof. unfold deliver_to. by destruct (_ =? _). Qed.
Lemma deliver_to_type t time src n u : event_type (event (deliver_to t time src n u)) = event_type (event u).
Proof. unfold deliver_to. by destruct (_ =? _). Qed.

Lemma delivered_nil t time src n s : delivered t time src n [] s s.
Proof.
  split.
  - intros b. by rewrite decide_False by apply not_elem_of_nil.
  - intros g x Hx. by exists x.
  - by intros b u ?%not_elem_of_nil.
  - done.
Qed.

Lemma delivered_cons t time src n a l s s1 s2 :
  a ∉ l → delivered t time src n [a] s s1 → delivered t time src n l s1 s2 →
  delivered t time src n (a :: l) s s2.
Proof.
  intros Ha [Hs1 Hg1 Hb1 Hr1] [Hs2 Hg2 Hb2 Hr2]. split.
  - intros b. rewrite Hs2, Hs1. destruct (decide (b = a)) as [->|Hne].
    + rewrite (decide_False (P := a ∈ l)) by done. by rewrite !decide_True by left.
    + rewrite (decide_False (P := b ∈ [a])) by (by rewrite list_elem_of_singleton).
      destruct (decide (b ∈ l)).
      * by rewrite decide_True by (by right).
      * by rewrite decide_False by (by rewrite elem_of_cons; intros [?|?]).
  - intros g x Hx. destruct (Hg1 g x Hx) as (x1 & Hx1 & Hc1 & Hf1).
    destruct (Hg2 g x1 Hx1) as (x2 & Hx2 & Hc2 & Hf2). exists x2. split; [done|].
    split; [congruence|]. auto.
  - intros b u [->|Hb]%elem_of_cons Hu Ht.
    + destruct (Hb1 a u) as (x1 & Hx1 & Hf1); [left|done|done|].
      destruct (Hg2 _ x1 Hx1) as (x2 & Hx2 & Hc2 & Hf2). exists x2. split; [done|]. auto.
    + apply (Hb2 b u); [done| |done]. rewrite Hs1, decide_False; [done|].
      rewrite list_elem_of_singleton. congruence.
  - destruct Hr1 as (? & ? & ? & ?), Hr2 as (? & ? & ? & ?). split_and!; congruence.
Qed.

Lemma notify_one_eq t time src len a s :
  live s a → (Nat.min len SYSTEM_EVENT_MAX_DATA_SIZE ≤ length src)%nat →
  wp (notify_one t time src len a)
    (λ _ s', delivered t time src (Nat.min len SYSTEM_EVENT_MAX_DATA_SIZE) [a] s s') s.
Proof.
  intros (u & Hu & [x Hx]) Hlen. unfold notify_one, sub_at. set (n := Nat.min _ _) in *.
  apply wp_bind. eapply wp_deref; [exact Hu|].
  destruct (event_type (event u) =? t) eqn:Ht.
  2: { apply wp_ret. split; [|by eauto|..|done].
       - intros b. case_decide as Hb; [|done]. apply list_elem_of_singleton in Hb as ->.
         rewrite Hu. simpl. unfold deliver_to. by rewrite Ht.
       - intros b u' Hb%list_elem_of_singleton Hu' Ht'. subst b.
         rewrite Hu in Hu'. injection Hu' as <-. by apply Z.eqb_neq in Ht. }
  cbn zeta. rewrite (proj2 (Nat.leb_le n (length src)) Hlen).
  apply wp_bind, wp_ret, wp_bind. unfold upd_sub, sub_at. apply wp_bind.
  eapply wp_deref; [exact Hu|]. apply wp_modify, wp_bind.
  eapply wp_deref; [apply lookup_insert_eq|]. apply wp_bind.
  unfold task_event_group_signal, event_group_set. apply wp_bind. unfold wp at 1.
  erewrite upd_group_eq by exact Hx. apply wp_ret, wp_ret.
  split; simpl; [| | |done].
  - intros b. destruct (decide (b = a)) as [->|Hne].
    + rewrite lookup_insert_eq, decide_True by left. rewrite Hu. simpl. unfold deliver_to.
      by rewrite Ht.
    + rewrite lookup_insert_ne, decide_False; [done|by rewrite list_elem_of_singleton|done].
  - intros g y Hy. destruct (decide (g = event_group u)) as [->|Hne].
    + rewrite Hx in Hy. injection Hy as <-. rewrite lookup_insert_eq. eexists.
      split; [done|]. split; [done|]. intros i Hi Hb. simpl.
      rewrite set_bits_spec by done. by rewrite Hb.
    + rewrite lookup_insert_ne by done. by exists y.
  - intros b u' Hb%list_elem_of_singleton Hu' _. subst b. rewrite Hu in Hu'. injection Hu' as <-.
    eexists. simpl. rewrite lookup_insert_eq. split; [done|]. intros i Hi Hb. simpl.
    rewrite set_bits_spec by done. by rewrite Hb, orb_true_r.
Qed.

Lemma delivered_live t time src n l s s' a : delivered t time src n l s s' → live s a → live s' a.
Proof.
  intros [Hs Hg _ _] (u & Hu & x & Hx).
  destruct (Hg _ x Hx) as (x' & Hx' & _). unfold live. rewrite Hs, Hu.
  case_decide; simpl; eexists; (split; [done|]); rewrite ?deliver_to_group; by exists x'.
Qed.

Lemma delivered_next t time src n l s s' a : delivered t time src n l s s' → il_next s' a = il_next s a.
Proof.
  intros [Hs _ _ _]. simpl. rewrite Hs. case_decide; [|done].
  destruct (poll_subs s !! a); [|done]. simpl. by rewrite deliver_to_next.
Qed.

Lemma notify_list_eq t time src len l s s' :
  NoDup l → (∀ a, a ∈ l → live s a) → (Nat.min len SYSTEM_EVENT_MAX_DATA_SIZE ≤ length src)%nat →
  for_list (notify_one t time src len) l s = Done (tt, s') →
  delivered t time src (Nat.min len SYSTEM_EVENT_MAX_DATA_SIZE) l s s'.
Proof.
  intros Hnd. revert s. induction Hnd as [|a l Ha Hnd IH]; intros s Hlive Hlen; simpl.
  { intros [= <-]. apply delivered_nil. }
  intros ([] & s1 & Ha1 & Ha2)%bind_done.
  pose proof (notify_one_eq t time src len a s (Hlive a (list_elem_of_here _ _)) Hlen) as Hw.
  unfold wp in Hw. rewrite Ha1 in Hw. eapply delivered_cons; [done|exact Hw|].
  apply IH; [|done|done]. intros b Hb. eapply delivered_live; [exact Hw|]. apply Hlive. by right.
Qed.

(** Notifying the whole list. *)
Lemma notify_poll_subscribers_eq t time src len l s :
  chain s (il_head s) l → (∀ a, a ∈ l → live s a) →
  (Nat.min len SYSTEM_EVENT_MAX_DATA_SIZE ≤ length src)%nat →
  wp (notify_poll_subscribers t time src len) (λ _ s',
    delivered t time src (Nat.min len SYSTEM_EVENT_MAX_DATA_SIZE) l s s' ∧
    chain s' (il_head s') l) s.
Proof.
  intros Hc Hlive Hlen. eapply wp_mono.
  - apply (for_each_node_eq (notify_one t time src len)
      (λ s', (∀ a, a ∈ l → live s' a) ∧ il_head s' = il_head s) s l); [|done|done].
    intros a s1 Ha [Hl Hh]. eapply wp_mono; [apply notify_one_eq; [by apply Hl|done]|].
    intros [] s2 Hd. split; [split|].
    + intros b Hb. eapply delivered_live; [exact Hd|]. by apply Hl.
    + simpl in *. destruct Hd as [_ _ _ (_ & -> & _)]. done.
    + intros b. by eapply delivered_next.
  - intros [] s' (Hf & [_ Hh] & Hn). split.
    + eapply notify_list_eq; [by eapply chain_NoDup| | |]; done.
    + rewrite Hh. eapply chain_ext; [|exact Hc]. auto.
Qed.

(** * Registering *)

Lemma upd_sub_eq a f s u :
  poll_subs s !! a = Some u → upd_sub a f s = Done (tt, set_poll_subs (<[a := f u]> (poll_subs s)) s).
Proof. intros Hu. unfold upd_sub, sub_at, deref, mbind, M_bind. by rewrite Hu. Qed.

(** A subscription that is not the head is registered at the front. *)
Lemma subscribe_eq a g s u x :
  poll_subs s !! a = Some u → event_groups s !! g = Some x → poll_subscriptions s ≠ Some a →
  system_event_subscribe a g s = Done (ERROR_RESOURCE, s) ∨
  ∃ i u' s', 0 ≤ i < 24 ∧ Z.testbit (claimed_bits x) i = false ∧
    system_event_subscribe a g s = Done (ERROR_NONE, s') ∧
    poll_subscriptions s' = Some a ∧
    poll_subs s' = <[a := u']> (poll_subs s) ∧
    event_groups s' = <[g := with_claimed (Z.lor (claimed_bits x) (Z.shiftl 1 i)) x]> (event_groups s) ∧
    bit u' = Z.shiftl 1 i ∧ event_group u' = g ∧ next u' = poll_subscriptions s ∧
    data_len (event u') = 0%nat ∧ event_type (event u') = event_type (event u) ∧
    sequence u' = 0 ∧ consumed_sequence u' = 0 ∧ cancelled u' = false.
Proof.
  intros Hu Hx Hh. unfold system_event_subscribe, mbind, M_bind.
  destruct (claim_bit_cases (H:=events_groups) g s x Hx) as [(i & Hi & Hf & _ & E)|[_ E]]; rewrite E; [right|by left].
  exists i. unfold gets. cbn [poll_subscriptions set_groups events_groups set_event_groups].
  rewrite bool_decide_false by done. unfold mbind, M_bind. erewrite upd_sub_eq by exact Hu.
  by do 2 eexists.
Qed.

Lemma subscribe_chain a s s' u' l :
  chain s (il_head s) l → a ∉ l → poll_subscriptions s' = Some a →
  poll_subs s' = <[a := u']> (poll_subs s) → next u' = poll_subscriptions s →
  chain s' (il_head s') (a :: l).
Proof.
  intros Hc Ha Hh Hs Hn. simpl. split; [done|]. exists (poll_subscriptions s).
  rewrite Hs, lookup_insert_eq. split; [simpl; by rewrite Hn|].
  eapply chain_ext; [|exact Hc]. intros b Hb. simpl. rewrite Hs, lookup_insert_ne; [done|].
  congruence.
Qed.

(** Unlinking touches only links. *)
Lemma unlink_frame s s' a l u :
  s' = s ∨ (∃ n, s' = il_set_head n s) ∨ (∃ b n, b ∈ l ∧ s' = il_set_next b n s) →
  poll_subs s !! a = Some u →
  event_groups s' = event_groups s ∧ ∃ p, poll_subs s' !! a = Some (with_next p u).
Proof.
  intros Hs Hu. assert (with_next (next u) u = u) as Hid by by destruct u.
  destruct Hs as [->|[[n ->]|(b & n & _ & ->)]]; simpl; (split; [done|]).
  - exists (next u). by rewrite Hid.
  - exists (next u). by rewrite Hid.
  - destruct (decide (b = a)) as [->|Hne].
    + exists n. by rewrite lookup_alter, decide_True, Hu by done.
    + exists (next u). by rewrite lookup_alter_ne, Hid.
Qed.

Lemma unsubscribe_eq s l a u x :
  chain s (il_head s) l → a ∈ l → poll_subs s !! a = Some u →
  event_groups s !! event_group u = Some x →
  wp (system_event_unsubscribe a) (λ e s', e = ERROR_NONE ∧
    chain s' (il_head s') (erase_first a l) ∧
    (∃ p, poll_subs s' !! a = Some (with_cancelled true (with_next p u))) ∧
    ∃ x', event_groups s' !! event_group u = Some x' ∧
      claimed_bits x' = Z.land (claimed_bits x) (Z.lnot (bit u))) s.
Proof.
  intros Hc Ha Hu Hx. unfold system_event_unsubscribe. apply wp_bind.
  eapply wp_mono; [by apply unlink_eq|]. intros b s1 (-> & Hc1 & _ & Hfr).
  rewrite bool_decide_true by done.
  destruct (unlink_frame s s1 a l u Hfr Hu) as (Hg & p & Hp).
  apply wp_bind. unfold wp at 1. rewrite (upd_sub_eq a _ s1 _ Hp). apply wp_bind.
  unfold sub_at. eapply wp_deref; [apply lookup_insert_eq|]. simpl. apply wp_bind.
  unfold task_event_group_signal, event_group_set. apply wp_bind. unfold wp at 1.
  erewrite (upd_group_eq (H := events_groups)) by (simpl; rewrite Hg; exact Hx).
  apply wp_ret, wp_bind. unfold task_event_group_release_bit, event_group_clear.
  apply wp_bind, wp_bind. unfold wp at 1.
  erewrite (upd_group_eq (H := events_groups)) by (simpl; apply lookup_insert_eq).
  apply wp_ret. unfold wp at 1.
  erewrite (upd_group_eq (H := events_groups)) by (simpl; apply lookup_insert_eq).
  apply wp_ret. split; [done|]. split; [|split].
  - eapply chain_ext; [|exact Hc1]. intros b Hb. simpl.
    destruct (decide (b = a)) as [->|Hne].
    + rewrite lookup_insert_eq, Hp. done.
    + by rewrite lookup_insert_ne.
  - exists p. simpl. by rewrite lookup_insert_eq.
  - eexists. simpl. rewrite lookup_insert_eq. by split.
Qed.

Lemma unsubscribe_absent s l a :
  chain s (il_head s) l → a ∉ l → system_event_unsubscribe a s = Done (ERROR_NOT_FOUND, s).
Proof.
  intros Hc Ha. unfold system_event_unsubscribe.
  destruct (wp_done _ _ _ (unlink_eq s l a Hc)) as (b & s1 & E & -> & _ & Hs & _).
  unfold mbind, M_bind. rewrite E, bool_decide_false by done. by rewrite Hs.
Qed.
End system_event_specs.

(** C35: an emission reaches every registered poll subscription of its type exactly
    once (the event is stored, the sequence advances, the bit is raised), leaves
    the others and every claim alone, keeps the list, and then runs the matching
    callbacks in subscription order, as they were registered when it began. *)
Theorem system_event_emit_delivers `{FreeRtosEventGroupLaws} `{SystemEventCallbacks} s l t src len :
  chain s (il_head s) l → (∀ a, a ∈ l → live s a) →
  (Nat.min len SYSTEM_EVENT_MAX_DATA_SIZE ≤ length src)%nat → event_allocs s = [] →
  let n := Nat.min len SYSTEM_EVENT_MAX_DATA_SIZE in
  ∃ s1, delivered t (micros s) src n l s s1 ∧ chain s1 (il_head s1) l ∧
    system_event_emit t src len s =
      (for_list (λ k, system_event_callback (ks_callback k)
          {| event_type := t; timestamp := micros s;
             data := memcpy (replicate SYSTEM_EVENT_MAX_DATA_SIZE 0) src n; data_len := n |}
          (ks_context k)) (filter (λ k, ks_type k = t) (subscriptions s));;
       mret ERROR_NONE) s1.
Proof.
  intros Hc Hlive Hlen Hal n.
  destruct (wp_done _ _ _ (notify_poll_subscribers_eq t (micros s) src len l s Hc Hlive Hlen))
    as ([] & s1 & Hn & Hd & Hc1).
  exists s1. split; [done|]. split; [done|]. pose proof (delivered_rest _ _ _ _ _ _ _ Hd)
    as (Hsub & _ & _ & Ha1).
  unfold system_event_emit. unfold mbind at 1, M_bind at 1. unfold gets. cbn zeta. fold n.
  rewrite (proj2 (Nat.leb_le n (length src)) Hlen).
  unfold mbind at 1, M_bind at 1. unfold mret at 1, M_ret at 1.
  unfold mbind at 1, M_bind at 1. rewrite Hn.
  unfold notify_listeners. unfold mbind at 1, M_bind at 1. unfold gets. cbn [event_type].
  rewrite Hsub. unfold mbind at 1, M_bind at 1.
  replace ((if (0 <? _)%nat then events_new_nothrow else mret true) s1) with (@Done (bool * events) (true, s1));
    [done|].
  destruct (0 <? _)%nat; [|done]. unfold events_new_nothrow. by rewrite Ha1, Hal.
Qed.

(** Poll subscriptions coalesce: after an emission that matches it, a
    subscription polls as pending once and then as timed out, and its data is what
    this last emission carried, cut to the event buffer. *)
Theorem system_event_poll_coalesces `{FreeRtosEventGroupLaws} `{SystemEventCallbacks} s l t src len a u :
  chain s (il_head s) l → (∀ b, b ∈ l → live s b) →
  (Nat.min len SYSTEM_EVENT_MAX_DATA_SIZE ≤ length src)%nat → event_allocs s = [] → subscriptions s = [] →
  a ∈ l → poll_subs s !! a = Some u → event_type (event u) = t → cancelled u = false →
  (sequence u + 1) mod 2^32 ≠ consumed_sequence u →
  ∃ s1 s2, system_event_emit t src len s = Done (ERROR_NONE, s1) ∧
    system_event_poll a s1 = Done (ERROR_NONE, s2) ∧
    system_event_poll a s2 = Done (ERROR_TIMEOUT, s2) ∧
    system_event_get_data a SYSTEM_EVENT_MAX_DATA_SIZE s2 =
      Done ((ERROR_NONE, take (Nat.min len SYSTEM_EVENT_MAX_DATA_SIZE) src), s2).
Proof.
  intros Hc Hlive Hlen Hal Hsub Ha Hu Ht Hcan Hseq.
  set (n := Nat.min len SYSTEM_EVENT_MAX_DATA_SIZE) in *.
  destruct (wp_done _ _ _ (notify_poll_subscribers_eq t (micros s) src len l s Hc Hlive Hlen))
    as ([] & s1 & Hn & [Hd _ _ Hr] & Hc1). fold n in Hd.
  specialize (Hd a). rewrite decide_True, Hu in Hd by done. simpl in Hd.
  unfold deliver_to in Hd. rewrite Ht, Z.eqb_refl in Hd.
  set (v := notified _ _ _ _) in Hd. exists s1.
  set (w := with_sequence (sequence v) (sequence v) v).
  exists (set_poll_subs (<[a := w]> (poll_subs s1)) s1). split; [|split; [|split]].
  - unfold system_event_emit. unfold mbind, M_bind, gets. cbn zeta. fold n.
    rewrite (proj2 (Nat.leb_le n (length src)) Hlen). simpl. rewrite Hn.
    unfold notify_listeners, mbind, M_bind, gets. destruct Hr as (-> & _). by rewrite Hsub.
  - unfold system_event_poll, sub_at, deref, mbind, M_bind. rewrite Hd.
    assert ((sequence v =? consumed_sequence v) = false) as -> by by apply Z.eqb_neq.
    simpl. by rewrite (upd_sub_eq _ _ _ _ Hd).
  - unfold system_event_poll, sub_at, deref, mbind, M_bind. simpl. rewrite lookup_insert_eq. simpl.
    rewrite Z.eqb_refl. simpl. by rewrite Hcan.
  - unfold system_event_get_data, sub_at, deref, mbind, M_bind. simpl. rewrite lookup_insert_eq. simpl.
    rewrite (proj2 (Nat.ltb_ge _ _)) by (unfold n; lia). unfold mret, M_ret, memcpy. do 3 f_equal.
    rewrite take_app_le, take_take by (rewrite length_take; lia). f_equal. lia.
Qed.

(** Subscribing puts the subscription at the front of the list with a bit of its
    own and nothing pending; unsubscribing it takes it out again, gives the bit back
    and makes further polls report an invalid state; a subscription that is not
    registered is not found. *)
Theorem system_event_subscribe_unsubscribe `{FreeRtosEventGroupLaws} `{SystemEventCallbacks} s l a g u x :
  chain s (il_head s) l → a ∉ l → poll_subs s !! a = Some u → event_groups s !! g = Some x →
  system_event_unsubscribe a s = Done (ERROR_NOT_FOUND, s) ∧
  (system_event_subscribe a g s = Done (ERROR_RESOURCE, s) ∨
   ∃ i s1 s2 x2, 0 ≤ i < 24 ∧ Z.testbit (claimed_bits x) i = false ∧
     system_event_subscribe a g s = Done (ERROR_NONE, s1) ∧
     chain s1 (il_head s1) (a :: l) ∧ bit <$> poll_subs s1 !! a = Some (Z.shiftl 1 i) ∧
     system_event_poll a s1 = Done (ERROR_TIMEOUT, s1) ∧
     system_event_unsubscribe a s1 = Done (ERROR_NONE, s2) ∧
     chain s2 (il_head s2) l ∧ system_event_poll a s2 = Done (ERROR_INVALID_STATE, s2) ∧
     event_groups s2 !! g = Some x2 ∧
     ∀ j, 0 ≤ j → Z.testbit (claimed_bits x2) j = Z.testbit (claimed_bits x) j).
Proof.
  intros Hc Ha Hu Hx. split; [by eapply unsubscribe_absent|].
  assert (poll_subscriptions s ≠ Some a) as Hh.
  { intros Hh. destruct l as [|b l]; simpl in Hc; [congruence|]. destruct Hc as [Hc _].
    rewrite Hh in Hc. injection Hc as <-. apply Ha. left. }
  destruct (subscribe_eq a g s u x Hu Hx Hh)
    as [?|(i & u' & s1 & Hi & Hf & E & Hh1 & Hs1 & Hg1 & Hb & Hgr & Hn & _ & _ & Hq & Hcq & Hcan)];
    [by left|right].
  assert (chain s1 (il_head s1) (a :: l)) as Hc1 by by eapply subscribe_chain.
  assert (poll_subs s1 !! a = Some u') as Hu1 by by rewrite Hs1, lookup_insert_eq.
  destruct (wp_done _ _ _ (unsubscribe_eq s1 (a :: l) a u' _ Hc1 (list_elem_of_here _ _) Hu1
    ltac:(rewrite Hgr, Hg1; apply lookup_insert_eq)))
    as (e & s2 & E2 & -> & Hc2 & (p & Hp) & x2 & Hx2 & Hcl).
  exists i, s1, s2, x2. simpl in Hc2. rewrite decide_True in Hc2 by done. rewrite Hgr in Hx2.
  split; [done|]. split; [done|]. split; [done|]. split; [done|].
  split; [by rewrite Hu1; simpl; rewrite Hb|]. split; [|split; [done|split; [done|split; [|split; [done|]]]]].
  - unfold system_event_poll, sub_at, deref, mbind, M_bind. rewrite Hu1. simpl.
    rewrite Hq, Hcq. simpl. by rewrite Hcan.
  - unfold system_event_poll, sub_at, deref, mbind, M_bind. rewrite Hp. simpl.
    by rewrite Hq, Hcq.
  - intros j Hj. rewrite Hcl, Hb. simpl.
    rewrite Z.land_spec, Z.lor_spec, Z.lnot_spec, testbit_shiftl_1 by lia.
    case_bool_decide as Hd; simpl; [subst; by rewrite Hf, andb_false_r|].
    by rewrite orb_false_r, andb_true_r.
Qed.

(** Only the head of the list is recognised as already registered: subscribing
    again a subscription further down links the list into a cycle, so that no walk
    over it (emitting, unsubscribing) ends, however many steps it is given. *)
Theorem system_event_resubscribe_cycle `{FreeRtosEventGroup} `{SystemEventCallbacks} s b l a g x i :
  chain s (il_head s) (b :: l) → a ∈ l → event_groups s !! g = Some x →
  0 ≤ i < 24 → Z.testbit (claimed_bits x) i = false →
  ∃ s', system_event_subscribe a g s = Done (ERROR_NONE, s') ∧
    ∀ fuel, for_chain fuel (λ _, mret tt) (il_head s') s' ≠ Done (tt, s').
Proof.
  intros Hc Ha Hx Hi Hf.
  assert (b ≠ a) as Hba.
  { apply chain_NoDup in Hc. apply NoDup_cons in Hc as [Hb _]. congruence. }
  destruct Hc as [Hh (p & Hp & Hc)].
  destruct (chain_nodes s p l a Hc Ha) as [pa Hpa]. simpl in Hpa, Hp, Hh.
  apply fmap_Some in Hpa as (u & Hu & _).
  destruct (subscribe_eq a g s u x Hu Hx) as [E|(j & u' & s' & _ & _ & E & Hh' & Hs' & _ & _ & _ & Hn & _)].
  { congruence. }
  { exfalso. destruct (claim_bit_cases (H := events_groups) g s x Hx)
      as [(k & _ & _ & _ & E')|[Hall _]]; [|by rewrite Hall in Hf].
    revert E. unfold system_event_subscribe, mbind, M_bind. rewrite E'. unfold gets.
    cbn [poll_subscriptions set_groups events_groups set_event_groups].
    rewrite bool_decide_false by congruence. unfold mbind, M_bind.
    by erewrite upd_sub_eq by exact Hu. }
  exists s'. split; [done|]. intros fuel Hend.
  apply for_chain_ends in Hend as [m Hm]. pose proof (chain_NoDup _ _ _ Hm) as Hnd.
  apply list_elem_of_split in Ha as (l1 & l2 & ->).
  simpl in Hm. rewrite Hh' in Hm. destruct m as [|c m]; [done|].
  destruct Hm as [[= <-] (p' & Hp' & Hm)]. simpl in Hp'. rewrite Hs', lookup_insert_eq in Hp'.
  simpl in Hp'. rewrite Hn, Hh in Hp'. injection Hp' as <-.
  apply NoDup_cons in Hnd as [Hnd _]. apply Hnd.
  assert (chain s (Some b) ((b :: l1) ++ a :: l2)) as Hb.
  { split; [done|]. exists p. by split. }
  eapply (chain_reaches s s' _ (b :: l1)); [exact Hb| |exact Hm].
  intros d Hd. simpl. rewrite Hs', lookup_insert_ne; [done|]. intros <-.
  apply chain_NoDup in Hb. apply list.NoDup_app in Hb as (_ & Hdis & _).
  by apply (Hdis a); [|left].
Qed.

Module EventDemo.
#[export] Instance callbacks : SystemEventCallbacks := λ _ _ _, mret tt.
Definition node (t b seq : Z) (n : option Z) : SystemEventSubscription :=
  {| event := {| event_type := t; timestamp := 0; data := replicate 12 0; data_len := 0 |};
     bit := b; event_group := 7; sequence := seq; consumed_sequence := 0; cancelled := false;
     next := n |}.
Definition start : events :=
  Events [] (Some 2) {[ 1 := node 5 1 0 None; 2 := node 6 2 0 (Some 1); 3 := node 5 0 0 None ]}
    {[ 7 := {| claimed_bits := 3; group_flags := 0 |} ]} 1000 [].
Lemma start_chain : chain start (il_head start) [2; 1].
Proof. split; [done|]. exists (Some 1). split; [done|]. split; [done|]. by exists None. Qed.
Lemma start_live a : a ∈ [2; 1] → live start a.
Proof.
  intros [->|[->|Ha%not_elem_of_nil]%elem_of_cons]%elem_of_cons; [..|done];
    eexists; (split; [reflexivity|by eexists]).
Qed.
End EventDemo.

#[local] Existing Instance GroupDemo.rtos.
#[local] Existing Instance GroupDemo.rtos_laws.
#[local] Existing Instance EventDemo.callbacks.

Lemma system_event_emit_delivers_witness :
  ∃ s1, delivered 5 1000 [1; 2; 3] 3 [2; 1] EventDemo.start s1 ∧
    system_event_emit 5 [1; 2; 3] 3 EventDemo.start = Done (ERROR_NONE, s1).
Proof.
  destruct (system_event_emit_delivers EventDemo.start [2; 1] 5 [1; 2; 3] 3)
    as (s1 & Hd & _ & E).
  - apply EventDemo.start_chain.
  - apply EventDemo.start_live.
  - vm_compute. lia.
  - reflexivity.
  - exists s1. split; [exact Hd|exact E].
Defined.

Lemma system_event_poll_coalesces_witness :
  ∃ s1 s2, system_event_emit 5 [1; 2; 3] 3 EventDemo.start = Done (ERROR_NONE, s1) ∧
    system_event_poll 1 s1 = Done (ERROR_NONE, s2) ∧
    system_event_poll 1 s2 = Done (ERROR_TIMEOUT, s2) ∧
    system_event_get_data 1 12 s2 = Done ((ERROR_NONE, [1; 2; 3]), s2).
Proof.
  apply (system_event_poll_coalesces EventDemo.start [2; 1] 5 [1; 2; 3] 3 1
    (EventDemo.node 5 1 0 None)).
  - apply EventDemo.start_chain.
  - apply EventDemo.start_live.
  - vm_compute. lia.
  - reflexivity.
  - reflexivity.
  - right. left.
  - reflexivity.
  - reflexivity.
  - reflexivity.
  - done.
Defined.

Lemma system_event_subscribe_unsubscribe_witness :
  ∃ s1 s2, system_event_subscribe 3 7 EventDemo.start = Done (ERROR_NONE, s1) ∧
    chain s1 (il_head s1) [3; 2; 1] ∧
    system_event_unsubscribe 3 s1 = Done (ERROR_NONE, s2) ∧ chain s2 (il_head s2) [2; 1].
Proof.
  destruct (system_event_subscribe_unsubscribe EventDemo.start [2; 1] 3 7
    (EventDemo.node 5 0 0 None) {| claimed_bits := 3; group_flags := 0 |})
    as [_ [E|(i & s1 & s2 & x2 & _ & _ & E1 & H1 & _ & _ & E2 & H2 & _)]].
  - apply EventDemo.start_chain.
  - rewrite !elem_of_cons. intros [?|[?|?%not_elem_of_nil]]; done.
  - reflexivity.
  - reflexivity.
  - exfalso. vm_compute in E. discriminate E.
  - exists s1, s2. split; [exact E1|]. split; [exact H1|]. split; [exact E2|exact H2].
Defined.

Lemma system_event_resubscribe_cycle_witness :
  ∃ s', system_event_subscribe 1 7 EventDemo.start = Done (ERROR_NONE, s') ∧
    ∀ fuel, for_chain fuel (λ _, mret tt) (il_head s') s' ≠ Done (tt, s').
Proof.
  apply (system_event_resubscribe_cycle EventDemo.start 2 [1] 1 7
    {| claimed_bits := 3; group_flags := 0 |} 2).
  - apply EventDemo.start_chain.
  - left.
  - reflexivity.
  - lia.
  - reflexivity.
Defined.
