(* ===== verification/Rings.v ===== *)
(** Ring buffers over a fixed array: the queue that a read position and a count
    denote, and what reading and writing at the two ends does to it. *)

From S2P Require Import Prelude.

Section rings.
Context {A : Type}.
Implicit Types (q : list A) (x : A) (h c n i : nat).

(** Position [i] steps after [h] in an array of [n] slots. *)
Definition ring_index (n h i : nat) : nat := ((h + i) mod n)%nat.

(** The queued elements, oldest first. *)
Definition ring_contents q h c : list A :=
  omap (λ i, q !! ring_index (length q) h i) (seq 0 c).

Record ring_ok q h c : Prop := {
  ring_head : (h < length q ∨ length q = 0 ∧ h = 0)%nat;
  ring_count : (c ≤ length q)%nat;
}.

Lemma ring_index_lt n h i : (0 < n)%nat → (ring_index n h i < n)%nat.
Proof. intros Hn. apply Nat.mod_upper_bound. lia. Qed.

Lemma ring_index_inj n h i j :
  (i < n)%nat → (j < n)%nat → ring_index n h i = ring_index n h j → i = j.
Proof.
  unfold ring_index. intros Hi Hj He.
  assert (Hn : n ≠ 0%nat) by lia.
  pose proof (Nat.div_mod (h + i) n Hn). pose proof (Nat.div_mod (h + j) n Hn).
  rewrite He in *. set (a := ((h + i) / n)%nat) in *. set (b := ((h + j) / n)%nat) in *.
  assert (a = b) by nia. nia.
Qed.

Lemma ring_index_assoc n h i j : n ≠ 0%nat → ring_index n (ring_index n h i) j = ring_index n h (i + j).
Proof. unfold ring_index. intros Hn. rewrite Nat.Div0.add_mod_idemp_l. f_equal. lia. Qed.

Lemma ring_contents_0 q h : ring_contents q h 0 = [].
Proof. done. Qed.

Lemma ring_contents_S q h c :
  ring_contents q h (S c) = ring_contents q h c ++ option_list (q !! ring_index (length q) h c).
Proof.
  unfold ring_contents. rewrite seq_S, omap_app. simpl. by destruct (q !! _).
Qed.

Lemma length_ring_contents q h c : (c ≤ length q)%nat → length (ring_contents q h c) = c.
Proof.
  induction c as [|c IH]; intros Hc; [done|].
  rewrite ring_contents_S, length_app, IH by lia.
  destruct (lookup_lt_is_Some_2 q (ring_index (length q) h c)) as [x Hx].
  { apply ring_index_lt. lia. }
  rewrite Hx. simpl. lia.
Qed.

(** The oldest element is at the read position. *)
Lemma ring_contents_cons q h c x :
  q !! ring_index (length q) h 0 = Some x → (0 < length q)%nat →
  ring_contents q h (S c) = x :: ring_contents q (ring_index (length q) h 1) c.
Proof.
  intros Hx Hq. unfold ring_contents. simpl. rewrite Hx. f_equal.
  rewrite <-fmap_S_seq. apply list_omap_ext.
  apply Forall2_fmap_l, Forall_Forall2_diag, Forall_true. intros i. simpl. by rewrite ring_index_assoc by lia.
Qed.

(** Writing a slot outside the queue leaves the queue alone. *)
Lemma ring_contents_insert q h c j x :
  (c ≤ j < length q)%nat → ring_contents (<[ring_index (length q) h j := x]> q) h c = ring_contents q h c.
Proof.
  intros Hj. unfold ring_contents. rewrite length_insert. apply list_omap_ext.
  apply Forall_Forall2_diag, Forall_forall. intros i Hi%elem_of_seq. simpl.
  apply list_lookup_insert_ne. intros He%ring_index_inj; lia.
Qed.

(** Storing at the write position appends. *)
Lemma ring_push q h c x :
  (c < length q)%nat →
  ring_contents (<[ring_index (length q) h c := x]> q) h (S c) = ring_contents q h c ++ [x].
Proof.
  intros Hc. rewrite ring_contents_S, length_insert, ring_contents_insert by lia.
  rewrite list_lookup_insert_eq; [done|]. apply ring_index_lt. lia.
Qed.

(** * Copying several elements *)

(** [buffer[i] = data[(read_pos + i) % capacity]] for [i < n]. *)
Fixpoint ring_read q h (n : nat) : list A :=
  match n with
  | O => []
  | S n' => ring_read q h n' ++ option_list (q !! ring_index (length q) h n')
  end.

Lemma ring_read_eq q h n : ring_read q h n = ring_contents q h n.
Proof. induction n as [|n IH]; [done|]. by rewrite ring_contents_S, <-IH. Qed.

(** Reading [n] of the queued elements splits the queue. *)
Lemma ring_read_split q h c n :
  (n ≤ c ≤ length q)%nat →
  ring_contents q h c = ring_read q h n ++ ring_contents q (ring_index (length q) h n) (c - n).
Proof.
  intros Hn. rewrite ring_read_eq. revert c Hn. induction n as [|n IH]; intros c Hn.
  - simpl. rewrite Nat.sub_0_r. destruct (decide (length q = 0%nat)) as [H0|H0].
    + replace c with 0%nat by lia. done.
    + unfold ring_contents. apply list_omap_ext. apply Forall_Forall2_diag, Forall_true. intros i.
      by rewrite ring_index_assoc.
  - rewrite IH, ring_contents_S, <-app_assoc by lia. f_equal.
    destruct (lookup_lt_is_Some_2 q (ring_index (length q) h n)) as [x Hx].
    { apply ring_index_lt. lia. }
    rewrite Hx. simpl. replace (c - n)%nat with (S (c - S n)) by lia.
    rewrite (ring_contents_cons _ _ _ x).
    + rewrite ring_index_assoc by lia. by rewrite Nat.add_1_r.
    + rewrite ring_index_assoc, Nat.add_0_r by lia. done.
    + lia.
Qed.

(** [data[(write_pos + i) % capacity] = buffer[i]], element by element. *)
Fixpoint ring_write q (w : nat) (l : list A) : list A :=
  match l with
  | [] => q
  | x :: l' => ring_write (<[ring_index (length q) w 0 := x]> q) (S w) l'
  end.

Lemma length_ring_write q w l : length (ring_write q w l) = length q.
Proof. revert q w. induction l as [|x l IH]; intros q w; simpl; [done|]. by rewrite IH, length_insert. Qed.

Lemma ring_write_eq q h c l :
  (c + length l ≤ length q)%nat →
  ring_contents (ring_write q (h + c) l) h (c + length l) = ring_contents q h c ++ l.
Proof.
  revert q c. induction l as [|x l IH]; intros q c Hl; simpl in *.
  { by rewrite Nat.add_0_r, app_nil_r. }
  assert (Hi : ring_index (length q) (h + c) 0 = ring_index (length q) h c)
    by (unfold ring_index; f_equal; lia).
  rewrite Hi. replace (S (h + c)) with (h + S c)%nat by lia.
  replace (c + S (length l))%nat with (S c + length l)%nat by lia.
  rewrite IH by (rewrite length_insert; lia).
  rewrite ring_push by lia. by rewrite <-app_assoc.
Qed.

Lemma ring_write_shift q w w' l :
  length q ≠ 0%nat → (w mod length q = w' mod length q)%nat → ring_write q w l = ring_write q w' l.
Proof.
  revert q w w'. induction l as [|x l IH]; intros q w w' Hq Hw; simpl; [done|].
  assert (ring_index (length q) w 0 = ring_index (length q) w' 0) as ->
    by (unfold ring_index; by rewrite !Nat.add_0_r).
  apply IH; rewrite length_insert; [done|].
  by rewrite <-(Nat.add_1_r w), <-(Nat.add_1_r w'), (Nat.Div0.add_mod w), (Nat.Div0.add_mod w'), Hw.
Qed.
End rings.
