(* ===== verification/AppEvents.v ===== *)
(** App events, Modules/app-module/source/event.cpp: subscriptions on an intrusive
    list, each with a queue of four events; emitting and polling. *)

From S2P Require Import Prelude Chains Rings EventGroups.

Definition APP_EVENT_QUEUE_CAPACITY : nat := 4.
#[global] Arguments APP_EVENT_QUEUE_CAPACITY : simpl never.

(** The event types with the data each one carries. *)
Inductive AppEventData :=
  | APP_EVENT_RESULT (launch_id result : Z)
  | APP_EVENT_CLOSE
  | APP_EVENT_SIGNAL (sig : Z).

Record AppEvent := { app_event_data : AppEventData; app_event_timestamp : Z }.

Record AppEventSubscription := {
  sub_bit : Z;
  app_instance_id : Z;
  sub_event_group : Z;
  queue : list AppEvent;
  q_head : nat;
  q_count : nat;
  sub_next : option Z;
}.

Record app_events := AppEvents {
  app_subscriptions : option Z;
  app_subs : gmap Z AppEventSubscription;
  app_groups : gmap Z TaskEventGroup;
  app_micros : Z;
}.

Definition set_app_head (p : option Z) (s : app_events) : app_events :=
  AppEvents p (app_subs s) (app_groups s) (app_micros s).
Definition set_app_subs (m : gmap Z AppEventSubscription) (s : app_events) : app_events :=
  AppEvents (app_subscriptions s) m (app_groups s) (app_micros s).
Definition set_app_groups (g : gmap Z TaskEventGroup) (s : app_events) : app_events :=
  AppEvents (app_subscriptions s) (app_subs s) g (app_micros s).

Definition with_queue (q : list AppEvent) (h c : nat) (u : AppEventSubscription) : AppEventSubscription :=
  {| sub_bit := sub_bit u; app_instance_id := app_instance_id u; sub_event_group := sub_event_group u;
     queue := q; q_head := h; q_count := c; sub_next := sub_next u |}.
Definition with_sub_next (p : option Z) (u : AppEventSubscription) : AppEventSubscription :=
  {| sub_bit := sub_bit u; app_instance_id := app_instance_id u; sub_event_group := sub_event_group u;
     queue := queue u; q_head := q_head u; q_count := q_count u; sub_next := p |}.

#[export] Instance app_events_groups : HasGroups app_events :=
  {| groups := app_groups; set_groups := set_app_groups |}.
#[export] Instance app_events_groups_laws : HasGroupsLaws app_events.
Proof. by split. Qed.

#[export] Instance app_events_list : IntrusiveList app_events := {|
  il_head := app_subscriptions;
  il_next s a := sub_next <$> app_subs s !! a;
  il_nodes s := dom (app_subs s);
  il_set_head := set_app_head;
  il_set_next a p s := set_app_subs (alter (with_sub_next p) a (app_subs s)) s;
|}.
#[export] Instance app_events_list_laws : IntrusiveListLaws app_events.
Proof.
  split; simpl; try done.
  - intros s a p b Hs. destruct (decide (a = b)) as [->|Hne].
    + rewrite lookup_alter, decide_True by done. by destruct (app_subs s !! b); destruct Hs.
    + by rewrite lookup_alter_ne.
  - intros s a. rewrite elem_of_dom. by rewrite fmap_is_Some.
Qed.

Section app_events.
Context `{FreeRtosEventGroup}.

Definition app_sub_at (a : Z) : M app_events AppEventSubscription := deref (λ s, app_subs s !! a).
Definition upd_app_sub (a : Z) (f : AppEventSubscription → AppEventSubscription) : M app_events unit :=
  u ← app_sub_at a; modify (λ s, set_app_subs (<[a := f u]> (app_subs s)) s).

Definition app_event_subscribe_with_app_id (a g id : Z) : M app_events error_t :=
  '(claim_result, b) ← task_event_group_claim_bit g;
  match b with
  | None => mret claim_result
  | Some b =>
      h ← gets app_subscriptions;
      if bool_decide (h = Some a) then
        task_event_group_release_bit g b;;
        mret ERROR_INVALID_STATE
      else
        upd_app_sub a (λ u,
          {| sub_bit := b; app_instance_id := id; sub_event_group := g; queue := queue u;
             q_head := 0; q_count := 0; sub_next := h |});;
        modify (set_app_head (Some a));;
        mret ERROR_NONE
  end.

(** The caller's own instance is given by the scheduler. *)
Definition app_event_subscribe (app_scheduler_current_app_id : Z) (a g : Z) : M app_events error_t :=
  app_event_subscribe_with_app_id a g app_scheduler_current_app_id.

Definition app_event_unsubscribe (a : Z) : M app_events error_t :=
  found ← unlink a;
  if (found : bool) then
    u ← app_sub_at a;
    task_event_group_release_bit (sub_event_group u) (sub_bit u);;
    mret ERROR_NONE
  else mret ERROR_NOT_FOUND.

(** [sub->internal.queue[tail] = stamped_event; sub->internal.count++]. *)
Definition enqueue (e : AppEvent) (u : AppEventSubscription) : AppEventSubscription :=
  let tail := ((q_head u + q_count u) mod APP_EVENT_QUEUE_CAPACITY)%nat in
  with_queue (<[tail := e]> (queue u)) (q_head u) (q_count u + 1) u.

(** One turn of the loop of [app_event_emit]; [result] is its running result. *)
Definition emit_one (id : Z) (e : AppEvent) (a : Z) (result : error_t) : M app_events error_t :=
  u ← app_sub_at a;
  if negb (app_instance_id u =? id) then mret result
  else if (APP_EVENT_QUEUE_CAPACITY <=? q_count u)%nat then mret ERROR_RESOURCE
  else
    upd_app_sub a (enqueue e);;
    task_event_group_signal (sub_event_group u) (sub_bit u);;
    mret (if negb (result =? ERROR_RESOURCE) then ERROR_NONE else result).

Fixpoint emit_loop (fuel : nat) (id : Z) (e : AppEvent) (p : option Z) (result : error_t)
    : M app_events error_t :=
  match p, fuel with
  | None, _ => mret result
  | Some _, O => undef
  | Some a, S f =>
      r ← emit_one id e a result;
      u ← app_sub_at a;
      emit_loop f id e (sub_next u) r
  end.

Definition app_event_emit (id : Z) (e : AppEventData) : M app_events error_t :=
  time ← gets app_micros;
  fuel ← gets walk_fuel;
  h ← gets app_subscriptions;
  emit_loop fuel id {| app_event_data := e; app_event_timestamp := time |} h ERROR_NOT_FOUND.

Definition dequeue (u : AppEventSubscription) : AppEventSubscription :=
  with_queue (queue u) ((q_head u + 1) mod APP_EVENT_QUEUE_CAPACITY)%nat (q_count u - 1) u.

Definition try_pop (a : Z) : M app_events (option AppEvent) :=
  u ← app_sub_at a;
  if (0 <? q_count u)%nat then
    e ← deref (λ _, queue u !! q_head u);
    upd_app_sub a dequeue;;
    mret (Some e)
  else mret None.

Definition app_event_poll (a : Z) : M app_events (error_t * option AppEvent) :=
  o ← try_pop a;
  mret (match o with Some e => (ERROR_NONE, Some e) | None => (ERROR_TIMEOUT, None) end).

Definition app_event_emit_close (id : Z) : M app_events error_t := app_event_emit id APP_EVENT_CLOSE.

(** * The queue of a subscription *)

Definition sub_ok (u : AppEventSubscription) : Prop :=
  length (queue u) = APP_EVENT_QUEUE_CAPACITY ∧ (q_head u < APP_EVENT_QUEUE_CAPACITY)%nat ∧
  (q_count u ≤ APP_EVENT_QUEUE_CAPACITY)%nat.

(** The events waiting, oldest first. *)
Definition pending (u : AppEventSubscription) : list AppEvent :=
  ring_contents (queue u) (q_head u) (q_count u).

Lemma enqueue_ok e u : sub_ok u → (q_count u < APP_EVENT_QUEUE_CAPACITY)%nat →
  sub_ok (enqueue e u) ∧ pending (enqueue e u) = pending u ++ [e].
Proof.
  intros (Hq & Hh & _) Hc. split.
  - unfold sub_ok. simpl. rewrite length_insert. split; [done|]. split; [done|lia].
  - unfold pending, enqueue, with_queue. cbn [queue q_head q_count].
    rewrite Nat.add_1_r, <-Hq. apply ring_push. lia.
Qed.

Lemma dequeue_ok u : sub_ok u → (0 < q_count u)%nat →
  ∃ e, queue u !! q_head u = Some e ∧ sub_ok (dequeue u) ∧ pending u = e :: pending (dequeue u).
Proof.
  intros (Hq & Hh & Hc) H0.
  destruct (lookup_lt_is_Some_2 (queue u) (q_head u)) as [e He]; [lia|].
  exists e. split; [done|]. split.
  - unfold sub_ok, dequeue, with_queue. cbn [queue q_head q_count].
    split; [done|]. split; [|lia]. apply Nat.mod_upper_bound. done.
  - unfold pending, dequeue, with_queue. cbn [queue q_head q_count]. rewrite <-Hq.
    replace (q_count u) with (S (q_count u - 1)) at 1 by lia. apply ring_contents_cons; [|lia].
    unfold ring_index. by rewrite Nat.add_0_r, Nat.mod_small by lia.
Qed.

Lemma upd_app_sub_eq a f s u :
  app_subs s !! a = Some u → upd_app_sub a f s = Done (tt, set_app_subs (<[a := f u]> (app_subs s)) s).
Proof. intros Hu. unfold upd_app_sub, app_sub_at, deref, mbind, M_bind. by rewrite Hu. Qed.

Definition app_live (s : app_events) (a : Z) : Prop :=
  ∃ u, app_subs s !! a = Some u ∧ sub_ok u ∧ is_Some (app_groups s !! sub_event_group u).

(** A subscription after an emission. *)
Definition emitted (id : Z) (e : AppEvent) (u : AppEventSubscription) : AppEventSubscription :=
  if ((app_instance_id u =? id) && (q_count u <? APP_EVENT_QUEUE_CAPACITY)%nat)%bool
  then enqueue e u else u.

(** The running result. *)
Definition emit_result (id : Z) (us : list AppEventSubscription) (r : error_t) : error_t :=
  foldl (λ r u,
    if negb (app_instance_id u =? id) then r
    else if (APP_EVENT_QUEUE_CAPACITY <=? q_count u)%nat then ERROR_RESOURCE
    else if negb (r =? ERROR_RESOURCE) then ERROR_NONE else r) r us.

Lemma emitted_next id e u : sub_next (emitted id e u) = sub_next u.
Proof. unfold emitted. by destruct (_ && _)%bool. Qed.

Lemma emit_one_eq id e a r s u :
  app_subs s !! a = Some u → is_Some (app_groups s !! sub_event_group u) →
  wp (emit_one id e a r) (λ r' s', r' = emit_result id [u] r ∧
    app_subs s' = <[a := emitted id e u]> (app_subs s) ∧
    app_subscriptions s' = app_subscriptions s ∧
    (∀ g, is_Some (app_groups s !! g) → is_Some (app_groups s' !! g))) s.
Proof.
  intros Hu [x Hx]. unfold emit_one, emitted, emit_result. cbn [foldl]. apply wp_bind.
  unfold app_sub_at. eapply wp_deref; [exact Hu|].
  destruct (app_instance_id u =? id); cbn [negb andb]; [|by apply wp_ret; rewrite insert_id].
  rewrite Nat.leb_antisym. destruct (q_count u <? APP_EVENT_QUEUE_CAPACITY)%nat; cbn [negb];
    [|by apply wp_ret; rewrite insert_id].
  apply wp_bind. unfold wp at 1. rewrite (upd_app_sub_eq _ _ _ _ Hu). apply wp_bind.
  unfold task_event_group_signal, event_group_set. apply wp_bind. unfold wp at 1.
  erewrite (upd_group_eq (H := app_events_groups)) by exact Hx. apply wp_ret, wp_ret.
  split; [done|]. split; [done|]. split; [done|]. intros g Hg. simpl.
  destruct (decide (g = sub_event_group u)) as [->|Hne].
  - rewrite lookup_insert_eq. by eexists.
  - by rewrite lookup_insert_ne.
Qed.

(** The loop over a proper list. *)
Lemma emit_loop_eq fuel id e p r s l us :
  chain s p l → (length l ≤ fuel)%nat → (∀ a, a ∈ l → app_live s a) →
  mapM (λ a, app_subs s !! a) l = Some us →
  wp (emit_loop fuel id e p r) (λ r' s', r' = emit_result id us r ∧
    app_subscriptions s' = app_subscriptions s ∧
    ∀ a, app_subs s' !! a = if decide (a ∈ l) then emitted id e <$> app_subs s !! a
                             else app_subs s !! a) s.
Proof.
  revert fuel p r s us. induction l as [|a l IH]; intros fuel p r s us Hc Hf Hlive Hus.
  { simpl in Hc. subst p. injection Hus as <-. destruct fuel; cbn [emit_loop]; apply wp_ret; (split; [done|]);
    (split; [done|]); intros a; by rewrite decide_False by apply not_elem_of_nil. }
  pose proof (chain_NoDup _ _ _ Hc) as Hnd. apply NoDup_cons in Hnd as [Ha _].
  destruct Hc as [-> (p' & Hn & Hc)]. destruct fuel as [|f]; [simpl in Hf; lia|].
  destruct (Hlive a (list_elem_of_here _ _)) as (u & Hu & Hok & Hg).
  simpl in Hus. rewrite Hu in Hus. simpl in Hus.
  destruct (mapM (λ a, app_subs s !! a) l) as [us'|] eqn:Hus'; [|done].
  injection Hus as <-. simpl in Hn. rewrite Hu in Hn. injection Hn as <-.
  cbn [emit_loop]. apply wp_bind.
  eapply wp_mono; [by apply (emit_one_eq id e a r s u)|].
  intros r1 s1 (-> & Hs1 & Hh1 & Hg1). apply wp_bind. unfold app_sub_at.
  eapply wp_deref; [rewrite Hs1; apply lookup_insert_eq|]. rewrite emitted_next.
  assert (∀ b, b ∈ l → app_subs s1 !! b = app_subs s !! b) as Hsame.
  { intros b Hb. rewrite Hs1, lookup_insert_ne; [done|]. congruence. }
  eapply wp_mono; [apply (IH f _ _ s1 us')|].
  - eapply chain_ext; [|exact Hc]. intros b Hb. simpl. by rewrite Hsame.
  - simpl in Hf. lia.
  - intros b Hb. destruct (Hlive b) as (v & Hv & Hv' & Hvg); [by right|].
    exists v. rewrite Hsame by done. auto.
  - rewrite <-Hus'. apply Forall_mapM_ext. apply Forall_forall. auto.
  - intros r' s' (-> & Hh' & Hs'). split; [done|]. split; [congruence|].
    intros b. rewrite Hs', Hs1. destruct (decide (b = a)) as [->|Hne].
    + rewrite decide_False, decide_True by (done || left). by rewrite lookup_insert_eq, Hu.
    + rewrite lookup_insert_ne by done. destruct (decide (b ∈ l)).
      * by rewrite decide_True by (by right).
      * by rewrite decide_False by (by rewrite elem_of_cons; intros [?|?]).
Qed.
End app_events.

(** What [app_event_emit] promises its caller, over the subscriptions in list order:
    not found without one for the app, out of room when any of them was full. *)
Definition emit_contract (id : Z) (us : list AppEventSubscription) : error_t :=
  if existsb (λ u, (app_instance_id u =? id) && (APP_EVENT_QUEUE_CAPACITY <=? q_count u)%nat)%bool us
  then ERROR_RESOURCE
  else if existsb (λ u, app_instance_id u =? id) us then ERROR_NONE
  else ERROR_NOT_FOUND.

Lemma emit_result_resource id us : emit_result id us ERROR_RESOURCE = ERROR_RESOURCE.
Proof.
  induction us as [|u us IH]; [done|]. unfold emit_result in *. cbn [foldl].
  destruct (app_instance_id u =? id); cbn [negb]; [|exact IH].
  by destruct (APP_EVENT_QUEUE_CAPACITY <=? q_count u)%nat.
Qed.

Lemma existsb_andb_false {A} (f g : A → bool) l :
  existsb f l = false → existsb (λ x, f x && g x)%bool l = false.
Proof. induction l as [|x l IH]; simpl; [done|]. by intros [-> ?%IH]%orb_false_iff. Qed.

Lemma emit_result_contract id us r :
  r = ERROR_NOT_FOUND ∨ r = ERROR_NONE →
  emit_result id us r = if existsb (λ u, app_instance_id u =? id) us then emit_contract id us else r.
Proof.
  revert r. induction us as [|u us IH]; intros r Hr; [done|].
  unfold emit_result, emit_contract in *. cbn [foldl existsb].
  destruct (app_instance_id u =? id); cbn [negb andb orb]; [|by apply IH].
  destruct (APP_EVENT_QUEUE_CAPACITY <=? q_count u)%nat; cbn [orb].
  - apply (emit_result_resource id us).
  - replace (if negb (r =? ERROR_RESOURCE) then ERROR_NONE else r) with ERROR_NONE
      by by destruct Hr as [-> | ->].
    rewrite IH by by right.
    destruct (existsb (λ u, app_instance_id u =? id) us) eqn:Hex; [done|].
    by rewrite (existsb_andb_false _ _ _ Hex).
Qed.

(** C34: an emission appends the event, stamped with the time, to the queue of every
    subscription of the app that has room, drops it for the full ones, leaves the
    others alone, and reports which of these happened. *)
Theorem app_event_emit_enqueues `{FreeRtosEventGroup} s l us id e :
  chain s (il_head s) l → (∀ a, a ∈ l → app_live s a) → mapM (λ a, app_subs s !! a) l = Some us →
  ∃ s', app_event_emit id e s = Done (emit_contract id us, s') ∧
    ∀ a u, a ∈ l → app_subs s !! a = Some u → ∃ u', app_subs s' !! a = Some u' ∧ sub_ok u' ∧
      pending u' = if bool_decide (app_instance_id u = id ∧ (length (pending u) < APP_EVENT_QUEUE_CAPACITY)%nat)
                   then pending u ++ [{| app_event_data := e; app_event_timestamp := app_micros s |}]
                   else pending u.
Proof.
  intros Hc Hlive Hus.
  destruct (wp_done _ _ _ (emit_loop_eq (walk_fuel s) id
    {| app_event_data := e; app_event_timestamp := app_micros s |} _ ERROR_NOT_FOUND s l us Hc
    (Nat.lt_le_incl _ _ (chain_fuel _ _ _ Hc)) Hlive Hus)) as (r & s' & E & -> & _ & Hs').
  exists s'. split.
  - unfold app_event_emit, mbind, M_bind, gets. cbn [il_head app_events_list] in E.
    rewrite E, emit_result_contract by by left.
    destruct (existsb _ us) eqn:Hex; [done|]. unfold emit_contract. rewrite Hex.
    by rewrite (existsb_andb_false _ _ _ Hex).
  - intros a u Ha Hu. destruct (Hlive a Ha) as (v & Hv & Hok & _).
    rewrite Hu in Hv. injection Hv as <-. eexists. rewrite Hs', decide_True, Hu by done.
    split; [done|]. simpl. unfold emitted.
    assert (length (pending u) = q_count u) as ->
      by (apply length_ring_contents; destruct Hok as (-> & _ & Hcnt); done).
    destruct (app_instance_id u =? id) eqn:Hid; cbn [andb].
    + apply Z.eqb_eq in Hid. destruct (q_count u <? APP_EVENT_QUEUE_CAPACITY)%nat eqn:Hfull.
      * apply Nat.ltb_lt in Hfull. rewrite bool_decide_true by done. by apply enqueue_ok.
      * apply Nat.ltb_ge in Hfull. rewrite bool_decide_false by lia. done.
    + apply Z.eqb_neq in Hid. rewrite bool_decide_false by naive_solver. done.
Qed.

(** Polling takes the oldest event of the queue, and times out on an empty
    queue without changing anything: with the previous property, events of an app
    arrive in the order they were emitted. *)
Theorem app_event_poll_dequeues s a u :
  app_subs s !! a = Some u → sub_ok u →
  (pending u = [] ∧ app_event_poll a s = Done ((ERROR_TIMEOUT, None), s)) ∨
  ∃ e q u', pending u = e :: q ∧ sub_ok u' ∧ pending u' = q ∧
    app_event_poll a s = Done ((ERROR_NONE, Some e), set_app_subs (<[a := u']> (app_subs s)) s).
Proof.
  intros Hu Hok. unfold app_event_poll, try_pop, app_sub_at, mbind, M_bind, deref. rewrite Hu.
  destruct (0 <? q_count u)%nat eqn:Hc.
  - apply Nat.ltb_lt in Hc. destruct (dequeue_ok u Hok Hc) as (e & He & Hok' & Hp).
    right. exists e, (pending (dequeue u)), (dequeue u). rewrite He.
    by rewrite (upd_app_sub_eq _ _ _ _ Hu).
  - left. apply Nat.ltb_ge in Hc. split; [|done]. unfold pending.
    by replace (q_count u) with 0%nat by lia.
Qed.

Module AppEventDemo.
Definition ev (n : Z) : AppEvent := {| app_event_data := APP_EVENT_SIGNAL n; app_event_timestamp := n |}.
(** One subscription with room whose queue wraps around, one that is full. *)
Definition node (id : Z) (h c : nat) (n : option Z) : AppEventSubscription :=
  {| sub_bit := 1; app_instance_id := id; sub_event_group := 7; queue := [ev 1; ev 2; ev 3; ev 4];
     q_head := h; q_count := c; sub_next := n |}.
Definition start : app_events :=
  AppEvents (Some 2) {[ 1 := node 9 3 2 None; 2 := node 9 1 4 (Some 1) ]}
    {[ 7 := {| claimed_bits := 1; group_flags := 0 |} ]} 1000.
End AppEventDemo.

#[local] Existing Instance GroupDemo.rtos.

Lemma app_event_emit_enqueues_witness :
  ∃ s' u', app_event_emit_close 9 AppEventDemo.start = Done (ERROR_RESOURCE, s') ∧
    app_subs s' !! 1 = Some u' ∧
    pending u' = [AppEventDemo.ev 4; AppEventDemo.ev 1;
                  {| app_event_data := APP_EVENT_CLOSE; app_event_timestamp := 1000 |}].
Proof.
  destruct (app_event_emit_enqueues AppEventDemo.start [2; 1]
    [AppEventDemo.node 9 1 4 (Some 1); AppEventDemo.node 9 3 2 None] 9 APP_EVENT_CLOSE)
    as (s' & E & Hs').
  - split; [done|]. exists (Some 1). split; [done|]. split; [done|]. by exists None.
  - intros a [->|[->|Ha%not_elem_of_nil]%elem_of_cons]%elem_of_cons; [..|done];
      eexists; (split; [reflexivity|]); (split; [vm_compute; lia|by eexists]).
  - reflexivity.
  - destruct (Hs' 1 (AppEventDemo.node 9 3 2 None)) as (u' & Hu' & _ & Hp);
      [right; left|reflexivity|].
    exists s', u'. split; [exact E|]. split; [exact Hu'|]. rewrite Hp. reflexivity.
Defined.

Lemma app_event_poll_dequeues_witness :
  ∃ s', app_event_poll 1 AppEventDemo.start = Done ((ERROR_NONE, Some (AppEventDemo.ev 4)), s').
Proof.
  destruct (app_event_poll_dequeues AppEventDemo.start 1 (AppEventDemo.node 9 3 2 None))
    as [[Hp _]|(e & q & u' & Hp & _ & _ & E)].
  - reflexivity.
  - vm_compute; lia.
  - discriminate Hp.
  - assert (e = AppEventDemo.ev 4) as -> by (vm_compute in Hp; by injection Hp).
    eexists. exact E.
Defined.
