(* ===== verification/Text.v ===== *)
(** Characters and decimal numbers of the C library, as the components that print and
    parse text use them. *)

From S2P Require Import Prelude.

(** * Characters ([ctype.h] in the C locale) *)

Definition NUL : ascii := Ascii.zero.
Definition code (c : ascii) : Z := Z.of_nat (nat_of_ascii c).
Definition between (lo hi c : ascii) : bool := ((code lo <=? code c) && (code c <=? code hi))%bool.

Definition isdigit (c : ascii) : bool := between "0" "9" c.
Definition isupper (c : ascii) : bool := between "A" "Z" c.
Definition islower (c : ascii) : bool := between "a" "z" c.
Definition isalpha (c : ascii) : bool := (isupper c || islower c)%bool.
Definition isalnum (c : ascii) : bool := (isalpha c || isdigit c)%bool.
Definition isxdigit (c : ascii) : bool := (isdigit c || between "a" "f" c || between "A" "F" c)%bool.
Definition isspace (c : ascii) : bool := (bool_decide (c = " "%char) || between "009" "013" c)%bool.
Definition isgraph (c : ascii) : bool := between "!" "~" c.
Definition isprint (c : ascii) : bool := between " " "~" c.
Definition ispunct (c : ascii) : bool := (isgraph c && negb (isalnum c))%bool.
Definition iscntrl (c : ascii) : bool := (between "000" "031" c || bool_decide (c = "127"%char))%bool.

(** The length of the longest prefix of characters that pass a test. *)
Fixpoint span (p : ascii → bool) (s : text) : nat :=
  match s with
  | [] => O
  | c :: s' => if p c then S (span p s') else O
  end.

(** [strchr]: the text before and after the first occurrence of a character. *)
Fixpoint split_char (d : ascii) (s : text) : option (text * text) :=
  match s with
  | [] => None
  | c :: s' =>
      if decide (c = d) then Some ([], s')
      else '(a, b) ← split_char d s'; Some (c :: a, b)
  end.

(** The parts of the text between the occurrences of a character. *)
Fixpoint pieces (d : ascii) (s : text) : list text :=
  match s with
  | [] => [[]]
  | c :: s' =>
      if decide (c = d) then [] :: pieces d s'
      else match pieces d s' with p :: ps => (c :: p) :: ps | [] => [] end
  end.

(** The text without characters that pass a test at both ends. *)
Definition trim (p : ascii → bool) (s : text) : text :=
  let s := drop (span p s) s in take (length s - span p (reverse s)) s.

(** A C string ends at its first NUL. *)
Definition c_str (s : text) : text := take (span (λ c, negb (bool_decide (c = NUL))) s) s.

(** * Decimal output ([snprintf] with "%ld") *)

Definition digit_char (d : Z) : ascii := ascii_of_nat (Z.to_nat (d + 48)).
Fixpoint print_digits (fuel : nat) (n : Z) (acc : text) : text :=
  match fuel with
  | O => acc
  | S f =>
      let acc := digit_char (n mod 10) :: acc in
      if n <? 10 then acc else print_digits f (n / 10) acc
  end.
(** Twenty digits are enough for 64 bits. *)
Definition print_long (z : Z) : text :=
  if z <? 0 then "-"%char :: print_digits 20 (- z) [] else print_digits 20 z [].

(** * Decimal input ([strtol] and [strtoll] with base 10) *)

Definition decimal_value (s : text) : Z := foldl (λ a c, a * 10 + (code c - code "0")) 0 s.

(** The value, the number of characters read, and whether it was out of range for [w]
    bits; a text without digits reads nothing. *)
Definition strtol (w : Z) (s : text) : Z * nat * bool :=
  let blanks := span isspace s in
  let s1 := drop blanks s in
  let '(sign, signs) := match s1 with "-"%char :: _ => (-1, 1%nat) | "+"%char :: _ => (1, 1%nat) | _ => (1, O) end in
  let s2 := drop signs s1 in
  let n := span isdigit s2 in
  match n with
  | O => (0, O, false)
  | _ =>
      let v := sign * decimal_value (take n s2) in
      let consumed := (blanks + signs + n)%nat in
      if v <? - 2^(w - 1) then (- 2^(w - 1), consumed, true)
      else if 2^(w - 1) - 1 <? v then (2^(w - 1) - 1, consumed, true)
      else (v, consumed, false)
  end.

(** [std::from_chars] for an unsigned type with the largest value [max]: the value and what
    follows; [None] without digits, or out of range. *)
Definition from_chars (max : Z) (s : text) : option (Z * text) :=
  let n := span isdigit s in
  let v := decimal_value (take n s) in
  if ((n =? 0)%nat || (max <? v))%bool then None else Some (v, drop n s).

(** * Facts *)

Section facts.
Implicit Types (s t : text) (c : ascii) (n : Z).

Lemma span_all p s : Forall (λ c, p c = true) s → span p s = length s.
Proof. induction 1 as [|c s Hc Hs IH]; simpl; [done|]. by rewrite Hc, IH. Qed.

Lemma span_stop p s : match s with [] => True | c :: _ => p c = false end → span p s = O.
Proof. destruct s as [|c s]; simpl; [done|]. by intros ->. Qed.

Lemma split_char_app d a b : d ∉ a → split_char d (a ++ d :: b) = Some (a, b).
Proof.
  induction a as [|c a IH]; cbn [app split_char]; intros Ha; [by rewrite decide_True|].
  apply not_elem_of_cons in Ha as [Hc Ha]. rewrite decide_False by done. by rewrite IH.
Qed.

(** No blanks at the ends. *)
Lemma pieces_nonempty d s : pieces d s ≠ [].
Proof. induction s as [|c s IH]; [done|]. simpl. case_decide; [done|]. by destruct (pieces d s). Qed.
Lemma pieces_app d s t : pieces d (s ++ d :: t) = pieces d s ++ pieces d t.
Proof.
  induction s as [|c s IH]; simpl; [by rewrite decide_True|]. case_decide; [by rewrite IH|]. rewrite IH.
  by destruct (pieces d s) eqn:E; [apply pieces_nonempty in E|].
Qed.
Lemma pieces_one d s : d ∉ s → pieces d s = [s].
Proof. induction s as [|c s IH]; intros Hd; [done|]. apply not_elem_of_cons in Hd as [Hc Hs]. simpl. by rewrite decide_False, IH. Qed.
Lemma pieces_notin d s : Forall (λ p, d ∉ p) (pieces d s).
Proof.
  induction s as [|c s IH]; simpl; [by constructor; [apply not_elem_of_nil|]|]. case_decide; [by constructor; [apply not_elem_of_nil|]|].
  destruct (pieces d s) as [|p ps]; [done|]. apply Forall_cons in IH as [Hp IH]. constructor; [by apply not_elem_of_cons|done].
Qed.
(** Every character other than the separator is in a piece. *)
Lemma in_pieces d s c : c ≠ d → c ∈ s → ∃ p, p ∈ pieces d s ∧ c ∈ p.
Proof.
  intros Hd. induction s as [|e s IH]; [by intros ?%not_elem_of_nil|]. simpl. intros [->|(p & Hp & Hc)%IH]%elem_of_cons.
  - rewrite decide_False by done. destruct (pieces d s) as [|p ps] eqn:E; [by apply pieces_nonempty in E|]. exists (e :: p). by split; left.
  - case_decide; [by exists p; split; [right|]|]. destruct (pieces d s) as [|q ps]; [by apply not_elem_of_nil in Hp|].
    apply elem_of_cons in Hp as [->|Hp]; [exists (e :: q); split; [by left|by right]|by exists p; split; [right|]].
Qed.

Definition trimmed p s : Prop :=
  match s with [] => True | c :: _ => p c = false end ∧ match reverse s with [] => True | c :: _ => p c = false end.

Lemma trim_id p s : trimmed p s → trim p s = s.
Proof.
  intros [H1 H2]. unfold trim. rewrite (span_stop p s), drop_0 by done. rewrite (span_stop p (reverse s)) by done.
  by rewrite Nat.sub_0_r, firstn_all.
Qed.

Lemma code_digit d : 0 ≤ d < 10 → code (digit_char d) = d + 48.
Proof. intros Hd. unfold code, digit_char. rewrite nat_ascii_embedding; lia. Qed.

Lemma isdigit_digit d : 0 ≤ d < 10 → isdigit (digit_char d) = true.
Proof.
  intros Hd. unfold isdigit, between. rewrite code_digit by done.
  assert (code "0" = 48 ∧ code "9" = 57) as [-> ->] by done. lia.
Qed.

(** Printed digits are digits, and their value is what was printed. *)
Lemma print_digits_spec (f : nat) n t :
  0 ≤ n < 10^Z.of_nat f → (0 < f)%nat →
  ∃ d, print_digits f n t = d ++ t ∧ d ≠ [] ∧ Forall (λ c, isdigit c = true) d ∧ decimal_value d = n.
Proof.
  revert n t. induction f as [|f IH]; intros n t Hn Hf; [lia|]. cbn [print_digits].
  pose proof (Z.mod_pos_bound n 10 ltac:(lia)) as Hm. pose proof (Z.div_mod n 10 ltac:(lia)) as Hdm.
  destruct (Z.ltb_spec n 10) as [Hlt|Hge].
  - exists [digit_char (n mod 10)]. split_and!; [done|done|by constructor; [apply isdigit_digit|]|].
    unfold decimal_value. simpl. rewrite code_digit by done. change (code "0") with 48. rewrite Z.mod_small by lia. lia.
  - assert (f ≠ O) as Hf0 by (intros ->; simpl in Hn; lia).
    assert (0 ≤ n / 10 < 10^Z.of_nat f) as Hq.
    { split; [apply Z.div_pos; lia|]. apply Z.div_lt_upper_bound; [lia|].
      rewrite <-Z.pow_succ_r by lia. replace (Z.succ (Z.of_nat f)) with (Z.of_nat (S f)) by lia. lia. }
    destruct (IH (n / 10) (digit_char (n mod 10) :: t) Hq ltac:(lia)) as (d & -> & Hne & Hd & Hv).
    exists (d ++ [digit_char (n mod 10)]). split_and!; [by rewrite <-app_assoc|by destruct d| |].
    + apply Forall_app. split; [done|]. constructor; [by apply isdigit_digit|constructor].
    + unfold decimal_value in *. rewrite foldl_app, Hv. simpl. rewrite code_digit by done. change (code "0") with 48. lia.
Qed.

Lemma print_long_nonempty n : print_long n ≠ [].
Proof.
  assert (∀ f n c t, print_digits f n (c :: t) ≠ []) as Hne.
  { induction f as [|f IH]; intros m c t; simpl; [done|]. by destruct (m <? 10). }
  unfold print_long. destruct (n <? 0); [done|]. cbn [print_digits]. destruct (n <? 10); [done|].
  apply (Hne 19%nat).
Qed.

(** Reading back a printed number. *)
Lemma strtol_print (w z : Z) :
  0 < w ≤ 64 → - 2^(w - 1) ≤ z < 2^(w - 1) → strtol w (print_long z) = (z, length (print_long z), false).
Proof.
  intros Hw Hz. assert (2^(w - 1) ≤ 2^63) as Hp by (apply Z.pow_le_mono_r; lia).
  assert (∀ d, d ≠ [] → Forall (λ c, isdigit c = true) d → ∃ c d', d = c :: d' ∧ isdigit c = true ∧ isspace c = false ∧
    c ≠ "-"%char ∧ c ≠ "+"%char) as Hfirst.
  { intros [|c d] Hne Hd; [done|]. apply Forall_cons in Hd as [Hc _]. exists c, d. split_and!; [done|done| |by intros ->..].
    unfold isspace. rewrite bool_decide_false by by intros ->. unfold isdigit, between in *.
    assert (code "0" = 48 ∧ code "009" = 9 ∧ code "013" = 13) as (E1 & E2 & E3) by done. rewrite E1, E2, E3 in *. lia. }
  unfold print_long. destruct (Z.ltb_spec z 0) as [Hneg|Hpos].
  - destruct (print_digits_spec 20 (- z) []) as (d & -> & Hne & Hd & Hv); [lia|lia|]. rewrite app_nil_r.
    destruct (Hfirst d Hne Hd) as (c & d' & -> & Hc & _).
    unfold strtol. change (span isspace ("-"%char :: c :: d')) with O. rewrite drop_0.
    change (drop 1 ("-"%char :: c :: d')) with (c :: d').
    rewrite span_all, firstn_all, Hv by done. cbn [length].
    rewrite (proj2 (Z.ltb_ge _ _)), (proj2 (Z.ltb_ge _ _)) by lia. do 2 f_equal. lia.
  - destruct (print_digits_spec 20 z []) as (d & -> & Hne & Hd & Hv); [lia|lia|]. rewrite app_nil_r.
    destruct (Hfirst d Hne Hd) as (c & d' & -> & Hc & Hs & Hm & Hpl).
    unfold strtol. assert (span isspace (c :: d') = O) as -> by (simpl; by rewrite Hs). rewrite drop_0.
    assert ((match c :: d' with "-"%char :: _ => (-1, 1%nat) | "+"%char :: _ => (1, 1%nat) | _ => (1, O) end) = (1, O)) as ->.
    { clear -Hm Hpl. destruct c as [[] [] [] [] [] [] [] []]; try done; congruence. }
    rewrite drop_0, span_all, firstn_all, Hv by done. cbn [length].
    rewrite (proj2 (Z.ltb_ge _ _)), (proj2 (Z.ltb_ge _ _)) by lia. do 2 f_equal. lia.
Qed.
Lemma span_forall f s : Forall (λ c, f c = true) (take (span f s) s).
Proof. induction s as [|c s IH]; [done|]. simpl. destruct (f c) eqn:E; [by constructor|done]. Qed.
Lemma c_str_id s : NUL ∉ s → c_str s = s.
Proof.
  intros Hs. unfold c_str. rewrite span_all; [apply firstn_all|]. apply Forall_forall. intros c Hc.
  rewrite bool_decide_false; [done|]. by intros ->.
Qed.

End facts.
