(* ===== verification/Apps.v ===== *)
(** The data app-module keeps for the running apps (Modules/app-module: private/ledger.h,
    private/fd_table.h, file.h, stream.h): instances with their file descriptors,
    environment and signals, and the streams bound to descriptors. *)

From S2P Require Import Prelude EventGroups AppEvents.

Definition APP_MAX_FDS : Z := 16.
Definition STDIN_FILENO : Z := 0.
Definition STDERR_FILENO : Z := 2.
Definition APP_LIBC_SIGNAL_COUNT : Z := 32.

(** An [AppFile]: the operations it dispatches to, and their object. *)
Inductive AppFile :=
  | NoFile
  | NullFile
  | StreamFile (stream : Z)
  | OtherFile (object : Z).

#[export] Instance AppFile_eq : EqDecision AppFile.
Proof. solve_decision. Defined.

Record AppFdSlot := { slot_file : AppFile; in_use : bool; ever_used : bool }.
(** [table_mutex]: the handle of [mutex] is not null, that is, the mutex is constructed. *)
Record AppFdTable := { slots : list AppFdSlot; table_mutex : bool; shutting_down : bool }.

Record AppStreamBuffer := {
  ring_data : list Byte.byte;
  read_pos : nat;
  write_pos : nat;
  ring_level : nat;
}.

Record AppStream := {
  buffer : AppStreamBuffer;
  producer_id : Z;
  producer_fd : Z;
  stream_group : Z;
  readable_bit : Z;
  writable_bit : Z;
  closed : bool;
  active_operations : Z;
  columns : Z;
  rows : Z;
  producer_task : option Z;
}.

Inductive AppInstanceState :=
  | APP_INSTANCE_STATE_STARTING
  | APP_INSTANCE_STATE_ACTIVE
  | APP_INSTANCE_STATE_STOPPING
  | APP_INSTANCE_STATE_STOPPED.

#[export] Instance AppInstanceState_eq : EqDecision AppInstanceState.
Proof. solve_decision. Defined.

(** [SIG_DFL], [SIG_IGN] or the address of a handler. *)
Inductive AppLibcSignalHandler :=
  | SIG_DFL
  | SIG_IGN
  | Handler (f : Z).

Record AppInstanceRecord := {
  instance_state : AppInstanceState;
  fd_table : AppFdTable;
  env : list text;
  signal_handlers : list AppLibcSignalHandler;
  pending_signals : Z;
  manifestId : text;
  task : option Z;
  parent_id : Z;
  completion : option Z;
  cwd : text;
}.

(** [current_app] is what [app_scheduler_current_app_id] returns; [app_bus] holds the
    subscriptions of event.cpp and the event groups. *)
Record apps := Apps {
  instances : gmap Z AppInstanceRecord;
  streams : gmap Z AppStream;
  app_bus : app_events;
  current_app : Z;
}.

Definition set_instances (m : gmap Z AppInstanceRecord) (s : apps) : apps :=
  Apps m (streams s) (app_bus s) (current_app s).
Definition set_streams (m : gmap Z AppStream) (s : apps) : apps :=
  Apps (instances s) m (app_bus s) (current_app s).
Definition set_app_bus (b : app_events) (s : apps) : apps :=
  Apps (instances s) (streams s) b (current_app s).

#[export] Instance apps_groups : HasGroups apps :=
  {| groups s := app_groups (app_bus s);
     set_groups g s := set_app_bus (set_app_groups g (app_bus s)) s |}.
#[export] Instance apps_groups_laws : HasGroupsLaws apps.
Proof. by split. Qed.

(** Run an operation of event.cpp. *)
Definition on_bus {A} (m : M app_events A) : M apps A := λ s,
  match m (app_bus s) with
  | Done (a, b) => Done (a, set_app_bus b s)
  | Panic => Panic
  | Undef => Undef
  end.

#[export] Instance AppInstanceRecord_settable : Settable AppInstanceRecord :=
  constr Build_AppInstanceRecord <*> instance_state <*> fd_table <*> env <*> signal_handlers <*> pending_signals <*>
  manifestId <*> task <*> parent_id <*> completion <*> cwd.

Definition with_fd_table (t : AppFdTable) (r : AppInstanceRecord) : AppInstanceRecord := r <| fd_table := t |>.
Definition with_env (e : list text) (r : AppInstanceRecord) : AppInstanceRecord := r <| env := e |>.
Definition with_pending (p : Z) (r : AppInstanceRecord) : AppInstanceRecord := r <| pending_signals := p |>.
Definition with_slots (l : list AppFdSlot) (t : AppFdTable) : AppFdTable :=
  {| slots := l; table_mutex := table_mutex t; shutting_down := shutting_down t |}.
Definition with_shutting_down (b : bool) (t : AppFdTable) : AppFdTable :=
  {| slots := slots t; table_mutex := table_mutex t; shutting_down := b |}.
Definition with_mutex (b : bool) (t : AppFdTable) : AppFdTable :=
  {| slots := slots t; table_mutex := b; shutting_down := shutting_down t |}.
Definition with_in_use (b : bool) (x : AppFdSlot) : AppFdSlot :=
  {| slot_file := slot_file x; in_use := b; ever_used := ever_used x |}.
Definition used_slot (f : AppFile) : AppFdSlot :=
  {| slot_file := f; in_use := true; ever_used := true |}.

Definition with_buffer (b : AppStreamBuffer) (x : AppStream) : AppStream :=
  {| buffer := b; producer_id := producer_id x; producer_fd := producer_fd x;
     stream_group := stream_group x; readable_bit := readable_bit x; writable_bit := writable_bit x;
     closed := closed x; active_operations := active_operations x; columns := columns x; rows := rows x; producer_task := producer_task x |}.
Definition with_closed (b : bool) (x : AppStream) : AppStream :=
  {| buffer := buffer x; producer_id := producer_id x; producer_fd := producer_fd x;
     stream_group := stream_group x; readable_bit := readable_bit x; writable_bit := writable_bit x;
     closed := b; active_operations := active_operations x; columns := columns x; rows := rows x; producer_task := producer_task x |}.
Definition with_active (n : Z) (x : AppStream) : AppStream :=
  {| buffer := buffer x; producer_id := producer_id x; producer_fd := producer_fd x;
     stream_group := stream_group x; readable_bit := readable_bit x; writable_bit := writable_bit x;
     closed := closed x; active_operations := n; columns := columns x; rows := rows x; producer_task := producer_task x |}.
Definition with_size (c r : Z) (x : AppStream) : AppStream :=
  {| buffer := buffer x; producer_id := producer_id x; producer_fd := producer_fd x;
     stream_group := stream_group x; readable_bit := readable_bit x; writable_bit := writable_bit x;
     closed := closed x; active_operations := active_operations x; columns := c; rows := r; producer_task := producer_task x |}.
Definition with_producer_task (t : option Z) (x : AppStream) : AppStream :=
  {| buffer := buffer x; producer_id := producer_id x; producer_fd := producer_fd x;
     stream_group := stream_group x; readable_bit := readable_bit x; writable_bit := writable_bit x;
     closed := closed x; active_operations := active_operations x; columns := columns x; rows := rows x; producer_task := t |}.

(** Memory accesses. *)
Definition instance_at (i : Z) : M apps AppInstanceRecord := deref (λ s, instances s !! i).
Definition upd_instance (i : Z) (f : AppInstanceRecord → AppInstanceRecord) : M apps unit :=
  r ← instance_at i; modify (λ s, set_instances (<[i := f r]> (instances s)) s).
Definition stream_at (a : Z) : M apps AppStream := deref (λ s, streams s !! a).
Definition upd_stream (a : Z) (f : AppStream → AppStream) : M apps unit :=
  x ← stream_at a; modify (λ s, set_streams (<[a := f x]> (streams s)) s).
Definition table_at (i : Z) : M apps AppFdTable := r ← instance_at i; mret (fd_table r).
(** [mutex_lock(&table->mutex)]: taking a null handle is a failed assertion. *)
Definition lock_table (i : Z) : M apps AppFdTable := t ← table_at i; check (table_mutex t);; mret t.
Definition upd_table (i : Z) (f : AppFdTable → AppFdTable) : M apps unit :=
  upd_instance i (λ r, with_fd_table (f (fd_table r)) r).

(** Objects with operations of other components. *)
Class OtherFiles := {
  other_close : Z → M apps error_t;
  other_retain : Z → M apps unit;
}.

Section memory.
Implicit Types s : apps.

Lemma instance_at_eq i s r : instances s !! i = Some r → instance_at i s = Done (r, s).
Proof. unfold instance_at, deref. by intros ->. Qed.

Lemma upd_instance_eq i f s r :
  instances s !! i = Some r → upd_instance i f s = Done (tt, set_instances (<[i := f r]> (instances s)) s).
Proof. intros Hr. unfold upd_instance, mbind, M_bind. by rewrite (instance_at_eq i s r Hr). Qed.

Lemma table_at_eq i s r : instances s !! i = Some r → table_at i s = Done (fd_table r, s).
Proof. intros Hr. unfold table_at, mbind, M_bind. by rewrite (instance_at_eq i s r Hr). Qed.

Lemma lock_table_eq i s r : instances s !! i = Some r → table_mutex (fd_table r) = true → lock_table i s = Done (fd_table r, s).
Proof. intros Hr Hm. unfold lock_table, mbind, M_bind. rewrite (table_at_eq i s r Hr). unfold check. by rewrite Hm. Qed.

Lemma stream_at_eq a s x : streams s !! a = Some x → stream_at a s = Done (x, s).
Proof. unfold stream_at, deref. by intros ->. Qed.

Lemma upd_stream_eq a f s x :
  streams s !! a = Some x → upd_stream a f s = Done (tt, set_streams (<[a := f x]> (streams s)) s).
Proof. intros Hx. unfold upd_stream, mbind, M_bind. by rewrite (stream_at_eq a s x Hx). Qed.
End memory.
