(* ===== verification/Streams.v ===== *)
(** Streams, Modules/app-module/source/stream.cpp: the ring buffer, the file
    operations over it, and the file descriptor table of fd_table.cpp, whose entries
    dispatch to the operations of null_device.cpp and stream.cpp. *)

From S2P Require Import Prelude Rings EventGroups AppEvents Apps.

Section streams.
Context `{FreeRtosEventGroup} `{OtherFiles}.

(** * Reading and writing the ring *)

Definition is_readable_locked (x : AppStream) : bool :=
  ((0 <? ring_level (buffer x))%nat || closed x)%bool.

(** [capacity] is the length of the array. *)
Definition capacity (b : AppStreamBuffer) : nat := length (ring_data b).

Definition is_writable_locked (x : AppStream) : bool :=
  ((ring_level (buffer x) <? capacity (buffer x))%nat || closed x)%bool.

Definition app_stream_read (a : Z) (buffer_size : nat) : M apps (list Byte.byte) :=
  x ← stream_at a;
  let ring := buffer x in
  let to_copy := if (buffer_size <? ring_level ring)%nat then buffer_size else ring_level ring in
  let bytes := ring_read (ring_data ring) (read_pos ring) to_copy in
  upd_stream a (with_buffer
    {| ring_data := ring_data ring;
       read_pos := if (0 <? capacity ring)%nat then ring_index (capacity ring) (read_pos ring) to_copy
                   else read_pos ring;
       write_pos := write_pos ring;
       ring_level := ring_level ring - to_copy |});;
  (if (0 <? to_copy)%nat
   then task_event_group_signal (stream_group x) (writable_bit x);; mret tt else mret tt);;
  mret bytes.

Definition app_stream_write (a : Z) (bytes : list Byte.byte) : M apps nat :=
  x ← stream_at a;
  if closed x then mret 0%nat
  else
    let ring := buffer x in
    let available := (capacity ring - ring_level ring)%nat in
    let to_copy := if (length bytes <? available)%nat then length bytes else available in
    upd_stream a (with_buffer
      {| ring_data := ring_write (ring_data ring) (write_pos ring) (take to_copy bytes);
         read_pos := read_pos ring;
         write_pos := if (0 <? capacity ring)%nat then ring_index (capacity ring) (write_pos ring) to_copy
                      else write_pos ring;
         ring_level := ring_level ring + to_copy |});;
    (if (0 <? to_copy)%nat
     then task_event_group_signal (stream_group x) (readable_bit x);; mret tt else mret tt);;
    mret to_copy.

Definition app_stream_close (a : Z) : M apps error_t :=
  upd_stream a (with_closed true);;
  x ← stream_at a;
  task_event_group_signal (stream_group x) (readable_bit x);;
  task_event_group_signal (stream_group x) (writable_bit x);;
  mret ERROR_NONE.

Definition app_stream_set_window_size (a c r : Z) : M apps unit := upd_stream a (with_size c r).

Definition app_stream_await (a : Z) (readable : bool) : M apps error_t :=
  x ← stream_at a;
  if (if readable then is_readable_locked x else is_writable_locked x) then mret ERROR_NONE
  else
    '(e, _) ← task_event_group_wait (stream_group x)
      (if readable then readable_bit x else writable_bit x) false;
    mret e.

(** * The operations of a stream as a file *)

(** [StreamOperationGuard]: counts the calls in progress. *)
Definition guarded {A} (a : Z) (m : M apps A) : M apps A :=
  upd_stream a (λ x, with_active (active_operations x + 1) x);;
  r ← m;
  upd_stream a (λ x, with_active (active_operations x - 1) x);;
  mret r.

Definition stream_file_close (a : Z) : M apps error_t := guarded a (app_stream_close a).
Definition stream_file_await (a : Z) (readable : bool) : M apps error_t :=
  guarded a (app_stream_await a readable).

Definition APP_FILE_READABLE : Z := Z.shiftl 1 0.
Definition APP_FILE_WRITABLE : Z := Z.shiftl 1 1.

Definition stream_file_poll (a : Z) : M apps Z :=
  guarded a (
    x ← stream_at a;
    mret (Z.lor (if is_readable_locked x then APP_FILE_READABLE else 0)
                (if is_writable_locked x then APP_FILE_WRITABLE else 0))).

Definition stream_file_retain (a : Z) : M apps unit :=
  upd_stream a (λ x, with_active (active_operations x + 1) x).
Definition stream_file_release (a : Z) : M apps unit :=
  upd_stream a (λ x, with_active (active_operations x - 1) x).

(** The only request is [APP_IOCTL_GET_WINDOW_SIZE]. *)
Definition APP_IOCTL_GET_WINDOW_SIZE : Z := 0.
Definition stream_file_ioctl (a request : Z) : M apps (error_t * option (Z * Z)) :=
  if negb (request =? APP_IOCTL_GET_WINDOW_SIZE) then mret (ERROR_NOT_SUPPORTED, None)
  else
    x ← stream_at a;
    if ((columns x =? 0) && (rows x =? 0))%bool then mret (ERROR_NOT_SUPPORTED, None)
    else mret (ERROR_NONE, Some (columns x, rows x)).

(** * File descriptors *)

Definition null_close : M apps error_t := mret ERROR_NONE.

(** [file.ops->close(file.object)]. *)
Definition file_close (f : AppFile) : M apps error_t :=
  match f with
  | NoFile => undef
  | NullFile => null_close
  | StreamFile a => stream_file_close a
  | OtherFile o => other_close o
  end.

(** [file.ops->retain(file.object)] where there is one. *)
Definition file_retain (f : AppFile) : M apps unit :=
  match f with
  | NoFile => undef
  | NullFile => mret tt
  | StreamFile a => stream_file_retain a
  | OtherFile o => other_retain o
  end.

Definition fd_in_range (fd : Z) : bool := ((0 <=? fd) && (fd <? APP_MAX_FDS))%bool.

Definition slot_of (t : AppFdTable) (fd : Z) : option AppFdSlot := slots t !! Z.to_nat fd.

Definition get_internal (i fd : Z) (retain : bool) : M apps (option AppFile) :=
  if negb (fd_in_range fd) then mret None
  else
    t ← lock_table i;
    check (negb (shutting_down t));;
    slot ← deref (λ _, slot_of t fd);
    if in_use slot then
      (if retain then file_retain (slot_file slot) else mret tt);;
      mret (Some (slot_file slot))
    else mret None.

Definition unused_slot (x : AppFdSlot) : AppFdSlot :=
  {| slot_file := slot_file x; in_use := false; ever_used := false |}.

Definition app_fd_table_construct (i : Z) : M apps unit :=
  upd_table i (λ t,
    {| slots := imap (λ n x, if (Z.of_nat n <=? STDERR_FILENO) then used_slot NullFile else unused_slot x) (slots t);
       table_mutex := true; shutting_down := false |}).

(** The files still open, in descriptor order. *)
Definition open_files (t : AppFdTable) : list AppFile :=
  slot_file <$> filter (λ x, in_use x = true) (slots t).

Definition app_fd_table_teardown (i : Z) : M apps unit :=
  t ← lock_table i;
  upd_table i (λ t, with_slots (with_in_use false <$> slots t) (with_shutting_down true t));;
  for_list (λ f, file_close f;; mret tt) (open_files t);;
  upd_table i (with_mutex false).

Definition set_slot (fd : Z) (x : AppFdSlot) (t : AppFdTable) : AppFdTable :=
  with_slots (<[Z.to_nat fd := x]> (slots t)) t.

Definition app_fd_table_bind (i fd : Z) (f : AppFile) : M apps error_t :=
  if negb (fd_in_range fd) then mret ERROR_OUT_OF_RANGE
  else
    t ← lock_table i;
    check (negb (shutting_down t));;
    slot ← deref (λ _, slot_of t fd);
    upd_table i (set_slot fd (used_slot f));;
    (if in_use slot then file_close (slot_file slot);; mret tt else mret tt);;
    mret ERROR_NONE.

(** The first slot from [fd] on that is not in use. *)
Fixpoint free_fd (fd : Z) (l : list AppFdSlot) : option Z :=
  match l with
  | [] => None
  | x :: l' => if negb (in_use x) then Some fd else free_fd (fd + 1) l'
  end.

Definition app_fd_table_allocate (i : Z) (f : AppFile) : M apps (error_t * option Z) :=
  t ← lock_table i;
  check (negb (shutting_down t));;
  match free_fd 3 (drop 3 (slots t)) with
  | Some fd => upd_table i (set_slot fd (used_slot f));; mret (ERROR_NONE, Some fd)
  | None => mret (ERROR_RESOURCE, None)
  end.

Definition app_fd_table_get (i fd : Z) : M apps (option AppFile) := get_internal i fd false.
Definition app_fd_table_get_and_retain (i fd : Z) : M apps (option AppFile) := get_internal i fd true.

Definition app_fd_table_close (i fd : Z) : M apps error_t :=
  if negb (fd_in_range fd) then mret ERROR_NOT_FOUND
  else
    t ← lock_table i;
    check (negb (shutting_down t));;
    slot ← deref (λ _, slot_of t fd);
    upd_table i (set_slot fd (with_in_use false slot));;
    if negb (in_use slot) then mret ERROR_NOT_FOUND else file_close (slot_file slot).

Definition app_fd_table_is_app_owned (i fd : Z) : M apps bool :=
  if negb (fd_in_range fd) then mret false
  else
    t ← lock_table i;
    slot ← deref (λ _, slot_of t fd);
    mret (in_use slot || ever_used slot)%bool.

(** * Subscribing a stream to an app's descriptor *)

Definition new_stream (producer fd g rb wb : Z) (data : list Byte.byte) : AppStream :=
  {| buffer := {| ring_data := data; read_pos := 0; write_pos := 0; ring_level := 0 |};
     producer_id := producer; producer_fd := fd; stream_group := g; readable_bit := rb;
     writable_bit := wb; closed := false; active_operations := 0; columns := 0; rows := 0; producer_task := None |}.

(** The caller owns the storage at [a], initialised or not. *)
Definition init_stream (a : Z) (x : AppStream) : M apps unit :=
  modify (λ s, set_streams (<[a := x]> (streams s)) s).

Definition app_stream_subscribe (a : Z) (data : list Byte.byte) (g producer fd : Z) : M apps error_t :=
  if ((fd <? 0) || (APP_MAX_FDS <=? fd))%bool then mret ERROR_OUT_OF_RANGE
  else
    '(e, rb) ← task_event_group_claim_bit g;
    match rb with
    | None => mret e
    | Some rb =>
        '(e, wb) ← task_event_group_claim_bit g;
        match wb with
        | None => task_event_group_release_bit g rb;; mret e
        | Some wb =>
            init_stream a (new_stream producer fd g rb wb data);;
            o ← gets (λ s, instances s !! producer);
            match o with
            | None =>
                task_event_group_release_bit g rb;;
                task_event_group_release_bit g wb;;
                mret ERROR_NOT_FOUND
            | Some r =>
                upd_stream a (with_producer_task (task r));;
                e ← app_fd_table_bind producer fd (StreamFile a);
                if negb (e =? ERROR_NONE) then
                  task_event_group_release_bit g rb;;
                  task_event_group_release_bit g wb;;
                  mret e
                else mret e
            end
        end
    end.

Definition app_stream_bind_alias_fd (a alias_fd : Z) : M apps error_t :=
  if ((alias_fd <? 0) || (APP_MAX_FDS <=? alias_fd))%bool then mret ERROR_OUT_OF_RANGE
  else
    x ← stream_at a;
    o ← gets (λ s, instances s !! producer_id x);
    match o with
    | None => mret ERROR_NOT_FOUND
    | Some _ => app_fd_table_bind (producer_id x) alias_fd (StreamFile a)
    end.

(** Closes the descriptors below [fd + n] that refer to the stream. *)
Fixpoint close_stream_fds (i a fd : Z) (n : nat) : M apps unit :=
  match n with
  | O => mret tt
  | S n' =>
      o ← app_fd_table_get i fd;
      (if bool_decide (o = Some (StreamFile a))
       then app_fd_table_close i fd;; mret tt else mret tt);;
      close_stream_fds i a (fd + 1) n'
  end.

(** The wait for [active_operations] to reach zero never ends when calls that
    nobody finishes are in progress. *)
Definition app_stream_unsubscribe (a : Z) : M apps error_t :=
  x ← stream_at a;
  o ← gets (λ s, instances s !! producer_id x);
  (match o with
   | None => mret tt
   | Some _ => close_stream_fds (producer_id x) a 0 (Z.to_nat APP_MAX_FDS)
   end);;
  app_stream_close a;;
  x ← stream_at a;
  if negb (active_operations x =? 0) then undef
  else
    task_event_group_release_bit (stream_group x) (readable_bit x);;
    task_event_group_release_bit (stream_group x) (writable_bit x);;
    mret ERROR_NONE.
End streams.
