(* ===== verification/StreamSpecs.v ===== *)
(** Properties of [Streams]: a stream is a bounded first-in first-out queue of bytes,
    descriptors are allocated, replaced and closed one object at a time, and
    unsubscribing a stream leaves no descriptor that refers to it. *)

From S2P Require Import Prelude Rings EventGroups AppEvents Apps Streams.

Section stream_specs.
Context `{FreeRtosEventGroup} `{OtherFiles}.
Implicit Types (s : apps) (x : AppStream) (a i fd : Z).

(** * The ring *)

Definition stream_ok x : Prop :=
  let b := buffer x in
  (ring_level b ≤ capacity b)%nat ∧
  (capacity b ≠ 0%nat → write_pos b = ring_index (capacity b) (read_pos b) (ring_level b)).

(** The bytes in the stream, oldest first. *)
Definition contents x : list Byte.byte :=
  ring_contents (ring_data (buffer x)) (read_pos (buffer x)) (ring_level (buffer x)).

Definition room x : nat := (capacity (buffer x) - ring_level (buffer x))%nat.

Lemma signal_eq g bit s y :
  groups s !! g = Some y →
  ∃ s', task_event_group_signal g bit s = Done (ERROR_NONE, s') ∧ streams s' = streams s ∧
    instances s' = instances s ∧
    (∀ g', is_Some (groups s !! g') → is_Some (groups s' !! g')) ∧
    (∀ g', claimed_bits <$> groups s' !! g' = claimed_bits <$> groups s !! g').
Proof.
  intros Hy. unfold task_event_group_signal, event_group_set, mbind, M_bind.
  rewrite (upd_group_eq g _ s y Hy). eexists. split; [done|]. split; [done|]. split; [done|].
  rewrite groups_set_groups. split; intros g'; destruct (decide (g' = g)) as [->|Hne].
  - rewrite lookup_insert_eq. by eexists.
  - by rewrite lookup_insert_ne.
  - by rewrite lookup_insert_eq, Hy.
  - by rewrite lookup_insert_ne.
Qed.

(** Signalling only when something was copied. *)
Lemma signal_if (b : bool) g bit s y :
  groups s !! g = Some y →
  ∃ s', (if b then task_event_group_signal g bit;; mret tt else mret tt) s = Done (tt, s') ∧
    streams s' = streams s ∧ instances s' = instances s.
Proof.
  intros Hy. destruct b; [|by exists s].
  destruct (signal_eq g bit s y Hy) as (s' & E & Hs & Hi & _). exists s'.
  unfold mbind, M_bind. by rewrite E.
Qed.

Lemma write_ring x bytes :
  stream_ok x →
  let b := buffer x in
  let n := Nat.min (length bytes) (room x) in
  ring_contents (ring_write (ring_data b) (write_pos b) (take n bytes)) (read_pos b) (ring_level b + n)
    = contents x ++ take n bytes.
Proof.
  intros [Hl Hw] b n. fold b in Hl, Hw.
  assert (length (take n bytes) = n) as Hn by (rewrite length_take; lia).
  destruct (decide (n = 0%nat)) as [Hz|Hz].
  { rewrite Hz. rewrite Nat.add_0_r. simpl. by rewrite app_nil_r. }
  assert (capacity b ≠ 0%nat) as Hc by (unfold n, room in *; fold b in Hz; lia).
  rewrite (ring_write_shift _ _ (read_pos b + ring_level b)).
  - rewrite <-Hn at 2. apply ring_write_eq. rewrite Hn. unfold n, room, capacity in *. fold b. lia.
  - done.
  - rewrite Hw by done. unfold ring_index. by rewrite Nat.Div0.mod_mod.
Qed.

Lemma app_stream_write_eq a bytes s x y :
  streams s !! a = Some x → closed x = false → stream_ok x → groups s !! stream_group x = Some y →
  let n := Nat.min (length bytes) (room x) in
  ∃ s' x', app_stream_write a bytes s = Done (n, s') ∧ streams s' = <[a := x']> (streams s) ∧
    instances s' = instances s ∧ stream_ok x' ∧ closed x' = false ∧
    contents x' = contents x ++ take n bytes ∧ room x' = (room x - n)%nat.
Proof.
  intros Hx Hcl Hok Hy n. unfold app_stream_write.
  rewrite (bind_eq _ _ _ _ _ (stream_at_eq a s x Hx)), Hcl. cbn zeta.
  replace (if (length bytes <? capacity (buffer x) - ring_level (buffer x))%nat then length bytes
           else (capacity (buffer x) - ring_level (buffer x))%nat) with n
    by (unfold n, room; destruct (_ <? _)%nat eqn:E; [apply Nat.ltb_lt in E|apply Nat.ltb_ge in E]; lia).
  erewrite bind_eq by (apply upd_stream_eq; exact Hx).
  set (x' := with_buffer _ x). set (s1 := set_streams _ s).
  destruct (signal_if (0 <? n)%nat (stream_group x) (readable_bit x) s1 y Hy) as (s2 & E & Hs & Hi).
  rewrite (bind_eq _ _ _ _ _ E). exists s2, x'. split; [done|]. split; [done|]. split; [done|].
  pose proof (write_ring x bytes Hok) as Hring. fold n in Hring. destruct Hok as [Hl Hw].
  assert (capacity (buffer x') = capacity (buffer x)) as Hcap
    by (unfold capacity; simpl; apply length_ring_write).
  split; [|split; [done|split; [exact Hring|]]].
  - unfold stream_ok. rewrite Hcap. simpl. split; [unfold n, room; lia|]. intros Hc.
    rewrite (proj2 (Nat.ltb_lt 0 (capacity (buffer x)))) by lia.
    rewrite Hw, ring_index_assoc by done. done.
  - unfold room. rewrite Hcap. simpl. lia.
Qed.

Lemma app_stream_read_eq a size s x y :
  streams s !! a = Some x → stream_ok x → groups s !! stream_group x = Some y →
  let n := Nat.min size (length (contents x)) in
  ∃ s' x', app_stream_read a size s = Done (take n (contents x), s') ∧
    streams s' = <[a := x']> (streams s) ∧ instances s' = instances s ∧
    stream_ok x' ∧ closed x' = closed x ∧ contents x' = drop n (contents x) ∧
    room x' = (room x + n)%nat.
Proof.
  intros Hx Hok Hy n. pose proof Hok as [Hl Hw]. unfold app_stream_read.
  rewrite (bind_eq _ _ _ _ _ (stream_at_eq a s x Hx)). cbn zeta.
  assert (length (contents x) = ring_level (buffer x)) as Hlen by by apply length_ring_contents.
  replace (if (size <? ring_level (buffer x))%nat then size else ring_level (buffer x)) with n
    by (unfold n; destruct (_ <? _)%nat eqn:E; [apply Nat.ltb_lt in E|apply Nat.ltb_ge in E]; lia).
  erewrite bind_eq by (apply upd_stream_eq; exact Hx).
  set (x' := with_buffer _ x). set (s1 := set_streams _ s).
  destruct (signal_if (0 <? n)%nat (stream_group x) (writable_bit x) s1 y Hy) as (s2 & E & Hs & Hi).
  rewrite (bind_eq _ _ _ _ _ E).
  pose proof (ring_read_split (ring_data (buffer x)) (read_pos (buffer x)) (ring_level (buffer x)) n)
    as Hsplit. unfold capacity in *.
  specialize (Hsplit ltac:(unfold n; lia)).
  assert (length (ring_read (ring_data (buffer x)) (read_pos (buffer x)) n) = n) as Hrn
    by (rewrite ring_read_eq; apply length_ring_contents; unfold n; lia).
  exists s2, x'. unfold contents at 1. rewrite Hsplit, take_app_length' by done.
  split; [done|]. split; [done|]. split; [done|]. split; [|split; [done|split]].
  - unfold stream_ok, capacity. simpl. split; [lia|]. intros Hc.
    rewrite (proj2 (Nat.ltb_lt 0 (length (ring_data (buffer x))))) by lia.
    rewrite Hw, ring_index_assoc by done. f_equal. unfold n. lia.
  - unfold contents at 2. rewrite Hsplit, drop_app_length' by done. unfold contents. simpl.
    destruct (0 <? length (ring_data (buffer x)))%nat eqn:Hc; [done|].
    apply Nat.ltb_ge in Hc. replace (ring_level (buffer x) - n)%nat with 0%nat by lia. done.
  - unfold room, capacity. simpl. unfold n. lia.
Qed.

(** * Closing *)

(** The groups hold the same claims. *)
Definition same_claims s s' : Prop :=
  ∀ g, claimed_bits <$> groups s' !! g = claimed_bits <$> groups s !! g.

Lemma same_claims_some s s' g : same_claims s s' → is_Some (groups s !! g) → is_Some (groups s' !! g).
Proof.
  intros Hg [y Hy]. specialize (Hg g). rewrite Hy in Hg.
  destruct (groups s' !! g) as [z|]; [by exists z|done].
Qed.

Lemma app_stream_close_eq a s x :
  streams s !! a = Some x → is_Some (groups s !! stream_group x) →
  ∃ s', app_stream_close a s = Done (ERROR_NONE, s') ∧
    streams s' = <[a := with_closed true x]> (streams s) ∧ instances s' = instances s ∧ same_claims s s'.
Proof.
  intros Hx [y Hy]. unfold app_stream_close.
  erewrite bind_eq by (apply upd_stream_eq; exact Hx). set (s1 := set_streams _ s).
  erewrite bind_eq by (apply stream_at_eq, lookup_insert_eq). simpl stream_group.
  destruct (signal_eq (stream_group x) (readable_bit x) s1 y Hy) as (s2 & E2 & Hs2 & Hi2 & Hg2 & Hc2).
  rewrite (bind_eq _ _ _ _ _ E2).
  destruct (Hg2 (stream_group x)) as [y2 Hy2]; [by exists y|].
  destruct (signal_eq (stream_group x) (writable_bit x) s2 y2 Hy2) as (s3 & E3 & Hs3 & Hi3 & _ & Hc3).
  rewrite (bind_eq _ _ _ _ _ E3). exists s3. split; [done|].
  split; [by rewrite Hs3, Hs2|]. split; [by rewrite Hi3, Hi2|].
  intros g. rewrite Hc3, Hc2. done.
Qed.

Lemma stream_file_close_eq a s x :
  streams s !! a = Some x → is_Some (groups s !! stream_group x) →
  ∃ s', stream_file_close a s = Done (ERROR_NONE, s') ∧
    streams s' = <[a := with_closed true x]> (streams s) ∧ instances s' = instances s ∧ same_claims s s'.
Proof.
  intros Hx Hg. unfold stream_file_close, guarded.
  erewrite bind_eq by (apply upd_stream_eq; exact Hx). set (s1 := set_streams _ s).
  set (x1 := with_active (active_operations x + 1) x) in s1.
  destruct (app_stream_close_eq a s1 x1) as (s2 & E & Hs & Hi & Hc); [apply lookup_insert_eq|done|].
  rewrite (bind_eq _ _ _ _ _ E).
  erewrite bind_eq by (apply upd_stream_eq; rewrite Hs; apply lookup_insert_eq).
  eexists. split; [done|]. split; [|split; [done|exact Hc]]. simpl. rewrite Hs. simpl.
  rewrite !insert_insert_eq. f_equal. destruct x. unfold with_active, with_closed. simpl. f_equal. lia.
Qed.

(** * Descriptors *)

Definition refers a (z : AppFdSlot) : bool := (in_use z && bool_decide (slot_file z = StreamFile a))%bool.
Definition drop_stream a (z : AppFdSlot) : AppFdSlot := if refers a z then with_in_use false z else z.

Lemma table_upd_eq i f s r :
  instances s !! i = Some r →
  upd_table i f s = Done (tt, set_instances (<[i := with_fd_table (f (fd_table r)) r]> (instances s)) s).
Proof. intros Hr. unfold upd_table. by rewrite (upd_instance_eq i _ s r Hr). Qed.

Lemma get_internal_eq i fd s r z :
  instances s !! i = Some r → table_mutex (fd_table r) = true → shutting_down (fd_table r) = false → 0 ≤ fd < APP_MAX_FDS →
  slot_of (fd_table r) fd = Some z →
  app_fd_table_get i fd s = Done (if in_use z then Some (slot_file z) else None, s).
Proof.
  intros Hr Hm Hsd Hfd Hz. unfold app_fd_table_get, get_internal.
  assert (fd_in_range fd = true) as -> by (unfold fd_in_range, APP_MAX_FDS in *; lia). simpl.
  rewrite (bind_eq _ _ _ _ _ (lock_table_eq i s r Hr Hm)), Hsd.
  rewrite (bind_eq _ _ s tt s) by done. rewrite (bind_eq _ _ s z s) by (unfold deref; by rewrite Hz).
  by destruct (in_use z).
Qed.

Lemma close_eq i fd s r z :
  instances s !! i = Some r → table_mutex (fd_table r) = true → shutting_down (fd_table r) = false → 0 ≤ fd < APP_MAX_FDS →
  slot_of (fd_table r) fd = Some z → in_use z = true →
  app_fd_table_close i fd s = file_close (slot_file z)
    (set_instances (<[i := with_fd_table (set_slot fd (with_in_use false z) (fd_table r)) r]> (instances s)) s).
Proof.
  intros Hr Hm Hsd Hfd Hz Hu. unfold app_fd_table_close.
  assert (fd_in_range fd = true) as -> by (unfold fd_in_range, APP_MAX_FDS in *; lia). simpl.
  rewrite (bind_eq _ _ _ _ _ (lock_table_eq i s r Hr Hm)), Hsd.
  rewrite (bind_eq _ _ s tt s) by done. rewrite (bind_eq _ _ s z s) by (unfold deref; by rewrite Hz).
  rewrite (bind_eq _ _ _ _ _ (table_upd_eq i _ s r Hr)). by rewrite Hu.
Qed.

(** One descriptor of the unsubscription loop. *)
Lemma close_one i a fd s r z x :
  instances s !! i = Some r → table_mutex (fd_table r) = true → shutting_down (fd_table r) = false → 0 ≤ fd < APP_MAX_FDS →
  slot_of (fd_table r) fd = Some z → streams s !! a = Some x → is_Some (groups s !! stream_group x) →
  ∃ s' b, (o ← app_fd_table_get i fd;
           if bool_decide (o = Some (StreamFile a)) then app_fd_table_close i fd;; mret tt else mret tt) s
        = Done (tt, s') ∧
    instances s' = <[i := with_fd_table (set_slot fd (drop_stream a z) (fd_table r)) r]> (instances s) ∧
    streams s' = <[a := with_closed b x]> (streams s) ∧ same_claims s s'.
Proof.
  intros Hr Hm Hsd Hfd Hz Hx Hg.
  rewrite (bind_eq _ _ _ _ _ (get_internal_eq i fd s r z Hr Hm Hsd Hfd Hz)).
  unfold drop_stream, refers.
  destruct (in_use z) eqn:Hu; cbn [andb].
  - destruct (decide (slot_file z = StreamFile a)) as [Hf|Hf].
    + rewrite !bool_decide_true by congruence.
      destruct (stream_file_close_eq a (set_instances (<[i := with_fd_table (set_slot fd
        (with_in_use false z) (fd_table r)) r]> (instances s)) s) x Hx Hg) as (s2 & E & Hs & Hi & Hc).
      erewrite bind_eq by (rewrite (close_eq i fd s r z), Hf by done; exact E).
      exists s2, true. split; [done|]. by rewrite Hi, Hs.
    + rewrite !bool_decide_false by congruence. exists s, (closed x). split; [done|].
      rewrite insert_id, insert_id; [done| |].
      * rewrite Hx. f_equal. by destruct x.
      * rewrite Hr. f_equal. unfold set_slot. rewrite list_insert_id by done. by destruct r as [? []].
  - rewrite bool_decide_false by done. exists s, (closed x). split; [done|].
    rewrite insert_id, insert_id; [done| |].
    * rewrite Hx. f_equal. by destruct x.
    * rewrite Hr. f_equal. unfold set_slot. rewrite list_insert_id by done. by destruct r as [? []].
Qed.

Lemma close_stream_fds_eq i a n fd s r x done_ rest :
  instances s !! i = Some r → fd_table r = {| slots := done_ ++ rest; table_mutex := true; shutting_down := false |} →
  fd = Z.of_nat (length done_) → length rest = n → fd + Z.of_nat n ≤ APP_MAX_FDS →
  streams s !! a = Some x → is_Some (groups s !! stream_group x) →
  ∃ s' b, close_stream_fds i a fd n s = Done (tt, s') ∧
    instances s' = <[i := with_fd_table {| slots := done_ ++ (drop_stream a <$> rest);
                                           table_mutex := true; shutting_down := false |} r]> (instances s) ∧
    streams s' = <[a := with_closed b x]> (streams s) ∧ same_claims s s'.
Proof.
  revert fd s r x done_ rest. induction n as [|n IH]; intros fd s r x done_ rest Hr Ht Hfd Hn Hle Hx Hg.
  { destruct rest; [|done]. exists s, (closed x). split; [done|]. simpl. rewrite app_nil_r in Ht |- *.
    rewrite insert_id, insert_id; [done| |].
    - rewrite Hx. f_equal. by destruct x.
    - rewrite Hr. f_equal. destruct r. simpl in *. by rewrite Ht. }
  destruct rest as [|z rest]; [done|].
  assert (slot_of (fd_table r) fd = Some z) as Hz.
  { unfold slot_of. rewrite Ht, Hfd, Nat2Z.id. simpl. by apply list_lookup_middle. }
  cbn [close_stream_fds].
  destruct (close_one i a fd s r z x) as (s1 & b1 & E1 & Hi1 & Hs1 & Hc1); try done.
  { by rewrite Ht. } { by rewrite Ht. } { lia. }
  unfold mbind, M_bind in E1 |- *.
  destruct (app_fd_table_get i fd s) as [[o s0]| |]; [|done|done]. rewrite E1.
  destruct (IH (fd + 1) s1 (with_fd_table (set_slot fd (drop_stream a z) (fd_table r)) r)
    (with_closed b1 x) (done_ ++ [drop_stream a z]) rest)
    as (s2 & b2 & E2 & Hi2 & Hs2 & Hc2).
  - by rewrite Hi1, lookup_insert_eq.
  - simpl. unfold set_slot. rewrite Ht, Hfd, Nat2Z.id. unfold with_slots. simpl.
    f_equal. rewrite insert_app_r_alt, Nat.sub_diag by lia. simpl. by rewrite <-app_assoc.
  - rewrite length_app. simpl. lia.
  - simpl in Hn. lia.
  - lia.
  - by rewrite Hs1, lookup_insert_eq.
  - by eapply same_claims_some.
  - exists s2, b2. split; [exact E2|]. split; [|split].
    + rewrite Hi2, Hi1, insert_insert_eq. simpl. by rewrite <-app_assoc.
    + by rewrite Hs2, Hs1, insert_insert_eq.
    + intros g. by rewrite Hc2, Hc1.
Qed.

Lemma release_eq g b s y :
  groups s !! g = Some y →
  ∃ s' y', task_event_group_release_bit g b s = Done (tt, s') ∧ streams s' = streams s ∧
    instances s' = instances s ∧ groups s' = <[g := y']> (groups s) ∧
    claimed_bits y' = Z.land (claimed_bits y) (Z.lnot b).
Proof.
  intros Hy. unfold task_event_group_release_bit, event_group_clear, mbind, M_bind.
  rewrite (upd_group_eq g _ s y Hy). unfold mret at 1, M_ret at 1.
  erewrite upd_group_eq by (rewrite groups_set_groups; apply lookup_insert_eq).
  do 2 eexists. split; [done|]. split; [done|]. split; [done|].
  rewrite !groups_set_groups, insert_insert_eq. by split.
Qed.

Lemma refers_drop_stream a z : refers a (drop_stream a z) = false.
Proof. unfold drop_stream. destruct (refers a z) eqn:Hr; [done|exact Hr]. Qed.

Lemma free_fd_spec fd l :
  match free_fd fd l with
  | Some k => ∃ l1 z l2, l = l1 ++ z :: l2 ∧ k = fd + Z.of_nat (length l1) ∧ in_use z = false ∧
                Forall (λ y, in_use y = true) l1
  | None => Forall (λ y, in_use y = true) l
  end.
Proof.
  revert fd. induction l as [|z l IH]; intros fd; simpl; [constructor|].
  destruct (in_use z) eqn:Hu; simpl.
  - specialize (IH (fd + 1)). destruct (free_fd (fd + 1) l) as [k|]; [|by constructor].
    destruct IH as (l1 & y & l2 & -> & -> & Hy & Hl1). exists (z :: l1), y, l2.
    split; [done|]. split; [simpl; lia|]. split; [done|]. by constructor.
  - exists [], z, l. split; [done|]. split; [simpl; lia|]. by split.
Qed.
End stream_specs.

(** C22: a stream is a bounded first-in first-out queue of bytes: a write appends the
    longest prefix that fits and says how long it is, a read takes that many of the
    oldest bytes, so bytes come out in the order they went in; a closed stream
    accepts nothing. *)
Theorem app_stream_fifo `{FreeRtosEventGroup} s a x y bytes size :
  streams s !! a = Some x → stream_ok x → groups s !! stream_group x = Some y →
  (closed x = true → app_stream_write a bytes s = Done (0%nat, s)) ∧
  (closed x = false → ∃ s' x', app_stream_write a bytes s = Done (Nat.min (length bytes) (room x), s') ∧
     streams s' !! a = Some x' ∧ stream_ok x' ∧
     contents x' = contents x ++ take (Nat.min (length bytes) (room x)) bytes) ∧
  (∃ s' x', app_stream_read a size s = Done (take size (contents x), s') ∧
     streams s' !! a = Some x' ∧ stream_ok x' ∧ contents x' = drop size (contents x)).
Proof.
  intros Hx Hok Hy. split; [|split].
  - intros Hcl. unfold app_stream_write, mbind, M_bind. by rewrite (stream_at_eq a s x Hx), Hcl.
  - intros Hcl. destruct (app_stream_write_eq a bytes s x y Hx Hcl Hok Hy)
      as (s' & x' & E & Hs & _ & Hok' & _ & Hc & _). exists s', x'.
    by rewrite Hs, lookup_insert_eq.
  - destruct (app_stream_read_eq a size s x y Hx Hok Hy)
      as (s' & x' & E & Hs & _ & Hok' & _ & Hc & _). exists s', x'.
    rewrite Hs, lookup_insert_eq, E, Hc. split; [|split; [done|split; [done|]]].
    + destruct (decide (size ≤ length (contents x))%nat).
      * by rewrite Nat.min_l.
      * by rewrite Nat.min_r, !take_ge by lia.
    + destruct (decide (size ≤ length (contents x))%nat).
      * by rewrite Nat.min_l.
      * by rewrite Nat.min_r, !drop_ge by lia.
Qed.

(** Unsubscribing a stream closes exactly the descriptors of its producer that
    refer to it, aliases included, and leaves the others as they were; no descriptor
    refers to the stream afterwards, it is closed, and both its bits are free. *)
Theorem app_stream_unsubscribe_detaches `{FreeRtosEventGroup} `{OtherFiles} s a x r y :
  streams s !! a = Some x → instances s !! producer_id x = Some r →
  table_mutex (fd_table r) = true → shutting_down (fd_table r) = false → length (slots (fd_table r)) = Z.to_nat APP_MAX_FDS →
  groups s !! stream_group x = Some y → active_operations x = 0 →
  ∃ s' r' y', app_stream_unsubscribe a s = Done (ERROR_NONE, s') ∧
    instances s' = <[producer_id x := r']> (instances s) ∧
    streams s' = <[a := with_closed true x]> (streams s) ∧
    (∀ fd z, slots (fd_table r) !! fd = Some z → ∃ z', slots (fd_table r') !! fd = Some z' ∧
       refers a z' = false ∧ (refers a z = false → z' = z)) ∧
    groups s' !! stream_group x = Some y' ∧
    claimed_bits y' = Z.land (Z.land (claimed_bits y) (Z.lnot (readable_bit x))) (Z.lnot (writable_bit x)).
Proof.
  intros Hx Hr Hm Hsd Hlen Hy Hact. unfold app_stream_unsubscribe.
  rewrite (bind_eq _ _ _ _ _ (stream_at_eq a s x Hx)). rewrite (bind_eq _ _ s (Some r) s) by by rewrite <-Hr.
  destruct (close_stream_fds_eq (producer_id x) a (Z.to_nat APP_MAX_FDS) 0 s r x [] (slots (fd_table r)))
    as (s1 & b & E1 & Hi1 & Hs1 & Hc1); try done.
  { simpl. destruct (fd_table r). simpl in *. by rewrite Hm, Hsd. }
  rewrite (bind_eq _ _ _ _ _ E1).
  destruct (app_stream_close_eq a s1 (with_closed b x)) as (s2 & E2 & Hs2 & Hi2 & Hc2).
  { by rewrite Hs1, lookup_insert_eq. }
  { eapply same_claims_some; [exact Hc1|]. by exists y. }
  rewrite (bind_eq _ _ _ _ _ E2).
  rewrite (bind_eq _ _ s2 (with_closed true x) s2)
    by (apply stream_at_eq; rewrite Hs2, lookup_insert_eq; by destruct x).
  simpl. rewrite Hact. simpl.
  assert (claimed_bits <$> groups s2 !! stream_group x = Some (claimed_bits y)) as Hcl
    by by rewrite Hc2, Hc1, Hy.
  destruct (groups s2 !! stream_group x) as [y2|] eqn:Hy2; [|done]. simpl in Hcl. injection Hcl as Hcl.
  destruct (release_eq (stream_group x) (readable_bit x) s2 y2 Hy2) as (s3 & y3 & E3 & Hs3 & Hi3 & Hg3 & Hcl3).
  rewrite (bind_eq _ _ _ _ _ E3).
  destruct (release_eq (stream_group x) (writable_bit x) s3 y3) as (s4 & y4 & E4 & Hs4 & Hi4 & Hg4 & Hcl4).
  { by rewrite Hg3, lookup_insert_eq. }
  rewrite (bind_eq _ _ _ _ _ E4).
  eexists s4, _, y4. split; [done|]. split; [by rewrite Hi4, Hi3, Hi2, Hi1|].
  split; [rewrite Hs4, Hs3, Hs2, Hs1, insert_insert_eq; by destruct x|].
  split; [|split; [change (groups s4 !! stream_group x = Some y4); rewrite Hg4; apply lookup_insert_eq|by rewrite Hcl4, Hcl3, Hcl]].
  intros fd z Hz. exists (drop_stream a z). simpl. rewrite list_lookup_fmap, Hz.
  split; [done|]. split; [apply refers_drop_stream|]. unfold drop_stream. by intros ->.
Qed.

(** Allocation installs the file at the lowest unused descriptor from 3 on and
    leaves every other descriptor alone; it is refused, changing nothing, exactly
    when all of them are in use. *)
Theorem app_fd_table_allocate_lowest `{FreeRtosEventGroup} `{OtherFiles} s i r f :
  instances s !! i = Some r → table_mutex (fd_table r) = true → shutting_down (fd_table r) = false →
  length (slots (fd_table r)) = Z.to_nat APP_MAX_FDS →
  (app_fd_table_allocate i f s = Done ((ERROR_RESOURCE, None), s) ∧
     ∀ fd z, 3 ≤ fd → slot_of (fd_table r) fd = Some z → in_use z = true) ∨
  ∃ fd s', 3 ≤ fd < APP_MAX_FDS ∧ app_fd_table_allocate i f s = Done ((ERROR_NONE, Some fd), s') ∧
    app_fd_table_get i fd s' = Done (Some f, s') ∧
    (∀ z, slot_of (fd_table r) fd = Some z → in_use z = false) ∧
    (∀ fd' z, 3 ≤ fd' < fd → slot_of (fd_table r) fd' = Some z → in_use z = true) ∧
    (∀ fd', fd' ≠ fd → 0 ≤ fd' < APP_MAX_FDS → ∃ o,
       app_fd_table_get i fd' s = Done (o, s) ∧ app_fd_table_get i fd' s' = Done (o, s')).
Proof.
  intros Hr Hm Hsd Hlen. unfold app_fd_table_allocate.
  rewrite (bind_eq _ _ _ _ _ (lock_table_eq i s r Hr Hm)), Hsd. rewrite (bind_eq _ _ s tt s) by done.
  pose proof (free_fd_spec 3 (drop 3 (slots (fd_table r)))) as Hfree.
  destruct (free_fd 3 (drop 3 (slots (fd_table r)))) as [fd|].
  - right. destruct Hfree as (l1 & z & l2 & Hl & -> & Hz & Hl1).
    assert (length (slots (fd_table r)) = 3 + length l1 + 1 + length l2)%nat as Hlen'.
    { apply (f_equal length) in Hl. rewrite length_drop, length_app in Hl. simpl in Hl.
      change (Z.to_nat APP_MAX_FDS) with 16%nat in Hlen. lia. }
    set (fd := 3 + Z.of_nat (length l1)). change (Z.to_nat APP_MAX_FDS) with 16%nat in Hlen.
    assert (0 ≤ fd < APP_MAX_FDS) as Hfd by (unfold fd, APP_MAX_FDS; lia).
    assert (slots (fd_table r) !! Z.to_nat fd = Some z) as Hfdz.
    { replace (Z.to_nat fd) with (3 + length l1)%nat by (unfold fd; lia).
      rewrite <-lookup_drop, Hl. by apply list_lookup_middle. }
    rewrite (bind_eq _ _ _ _ _ (table_upd_eq i _ s r Hr)). exists fd. eexists.
    split; [unfold fd in *; lia|]. split; [done|]. split; [|split; [|split]].
    + erewrite (get_internal_eq _ _ _ _ (used_slot f)); [reflexivity|apply lookup_insert_eq|done|done|done|].
      unfold slot_of. simpl. apply list_lookup_insert_eq. apply lookup_lt_Some in Hfdz. done.
    + unfold slot_of. rewrite Hfdz. by intros ? [= <-].
    + unfold slot_of. intros fd' z' Hfd' Hz'.
      replace (Z.to_nat fd') with (3 + Z.to_nat (fd' - 3))%nat in Hz' by lia.
      rewrite <-lookup_drop, Hl, lookup_app_l in Hz' by (unfold fd in *; lia).
      by eapply (proj1 (Forall_lookup _ _) Hl1).
    + intros fd' Hne Hfd'.
      destruct (lookup_lt_is_Some_2 (slots (fd_table r)) (Z.to_nat fd')) as [z' Hz'].
      { unfold APP_MAX_FDS in *. lia. }
      eexists. split; [by eapply get_internal_eq|].
      erewrite get_internal_eq; [done|apply lookup_insert_eq|done|done|done|].
      unfold slot_of. simpl. rewrite list_lookup_insert_ne by lia. exact Hz'.
  - left. split; [done|]. intros fd z Hfd Hz. unfold slot_of in Hz.
    replace (Z.to_nat fd) with (3 + Z.to_nat (fd - 3))%nat in Hz by lia.
    rewrite <-lookup_drop in Hz. by eapply (proj1 (Forall_lookup _ _) Hfree).
Qed.

Module StreamDemo.
Definition stream : AppStream :=
  {| buffer := {| ring_data := [Byte.x41; Byte.x42; Byte.x43; Byte.x44]; read_pos := 3; write_pos := 1;
                  ring_level := 2 |};
     producer_id := 1; producer_fd := 1; stream_group := 7; readable_bit := 1; writable_bit := 2;
     closed := false; active_operations := 0; columns := 0; rows := 0; producer_task := None |}.
Definition empty_slot : AppFdSlot := {| slot_file := NoFile; in_use := false; ever_used := false |}.
Definition record : AppInstanceRecord :=
  {| instance_state := APP_INSTANCE_STATE_ACTIVE;
     fd_table := {| slots := [used_slot NullFile; used_slot (StreamFile 50); used_slot NullFile;
                              used_slot (StreamFile 50)] ++ replicate 12 empty_slot;
                    table_mutex := true; shutting_down := false |};
     env := []; signal_handlers := []; pending_signals := 0; manifestId := []; task := None; parent_id := 0; completion := None; cwd := ["/"%char] |}.
Definition start : apps :=
  Apps {[ 1 := record ]} {[ 50 := stream ]}
    (AppEvents None ∅ {[ 7 := {| claimed_bits := 3; group_flags := 0 |} ]} 0) 1.
#[export] Instance others : OtherFiles := {| other_close _ := mret ERROR_NONE; other_retain _ := mret tt |}.
End StreamDemo.

#[local] Existing Instance GroupDemo.rtos.
#[local] Existing Instance StreamDemo.others.

Lemma app_stream_fifo_witness :
  (∃ s' x', app_stream_write 50 [Byte.x30; Byte.x31; Byte.x32] StreamDemo.start = Done (2%nat, s') ∧
     streams s' !! 50 = Some x' ∧ contents x' = [Byte.x44; Byte.x41; Byte.x30; Byte.x31]) ∧
  ∃ s', app_stream_read 50 1 StreamDemo.start = Done ([Byte.x44], s').
Proof.
  destruct (app_stream_fifo StreamDemo.start 50 StreamDemo.stream
    {| claimed_bits := 3; group_flags := 0 |} [Byte.x30; Byte.x31; Byte.x32] 1)
    as (_ & Hw & Hr); [reflexivity|vm_compute; split; [lia|done]|reflexivity|].
  destruct (Hw eq_refl) as (s' & x' & E & Hx & _ & Hc). destruct Hr as (s'' & x'' & E' & _).
  split; [|by exists s''].
  exists s', x'. split; [exact E|]. split; [exact Hx|]. rewrite Hc. reflexivity.
Defined.

Lemma app_stream_unsubscribe_detaches_witness :
  ∃ s' r', app_stream_unsubscribe 50 StreamDemo.start = Done (ERROR_NONE, s') ∧
    instances s' !! 1 = Some r' ∧ refers 50 <$> slots (fd_table r') !! 3%nat = Some false.
Proof.
  destruct (app_stream_unsubscribe_detaches StreamDemo.start 50 StreamDemo.stream StreamDemo.record
    {| claimed_bits := 3; group_flags := 0 |})
    as (s' & r' & y' & E & Hi & _ & Hz & _); try reflexivity.
  destruct (Hz 3%nat (used_slot (StreamFile 50))) as (z' & Hz' & Hr & _); [reflexivity|].
  exists s', r'. split; [exact E|]. rewrite Hi, Hz'. split; [reflexivity|]. simpl. by rewrite Hr.
Defined.

Lemma app_fd_table_allocate_lowest_witness :
  ∃ s', app_fd_table_allocate 1 (OtherFile 9) StreamDemo.start = Done ((ERROR_NONE, Some 4), s') ∧
    app_fd_table_get 1 4 s' = Done (Some (OtherFile 9), s').
Proof.
  destruct (app_fd_table_allocate_lowest StreamDemo.start 1 StreamDemo.record (OtherFile 9))
    as [[E _]|(fd & s' & _ & E & Hg & _)]; try reflexivity.
  - exfalso. vm_compute in E. discriminate E.
  - assert (fd = 4) as -> by (vm_compute in E; by injection E).
    exists s'. split; [exact E|exact Hg].
Defined.
