(* ===== verification/AppEnv.v ===== *)
(** Environments of apps, Modules/app-module/source/env.cpp: setting, unsetting and
    reading "NAME=VALUE" entries, and applying an overlay. *)

From S2P Require Import Prelude EventGroups AppEvents Apps.

Definition eq_sign : ascii := "="%char.

(** [strchr(s, '=')]: the characters before and after the first one. *)
Fixpoint split_eq (s : text) : option (text * text) :=
  match s with
  | [] => None
  | c :: s' =>
      if bool_decide (c = eq_sign) then Some ([], s')
      else '(n, v) ← split_eq s'; Some (c :: n, v)
  end.

Definition is_valid_name (name : option text) : bool :=
  match name with
  | None => false
  | Some [] => false
  | Some n => bool_decide (split_eq n = None)
  end.

Definition entry_matches_name (entry name : text) (name_len : nat) : bool :=
  (bool_decide (name_len < length entry)%nat && bool_decide (entry !! name_len = Some eq_sign) &&
   bool_decide (take name_len entry = name))%bool.

(** The position of the first matching entry. *)
Fixpoint find_entry (l : list text) (name : text) : option nat :=
  match l with
  | [] => None
  | e :: l' => if entry_matches_name e name (length name) then Some 0%nat else S <$> find_entry l' name
  end.

Definition app_env_apply_one (l : list text) (entry : text) : list text :=
  match split_eq entry with
  | None | Some ([], _) => l
  | Some (name, _) =>
      match find_entry l name with
      | None => l ++ [entry]
      | Some i => <[i := entry]> l
      end
  end.

Definition app_env_apply (l overlay : list text) : list text := foldl app_env_apply_one l overlay.

(** [lock_current_env]: the instance of the caller. *)
Definition lock_current_env : M apps (option (list text)) :=
  i ← gets current_app; o ← gets (λ s, instances s !! i); mret (env <$> o).

Definition put_current_env (l : list text) : M apps unit :=
  i ← gets current_app; upd_instance i (with_env l).

Definition app_env_set (name value : option text) (overwrite : bool) : M apps error_t :=
  match name, value with
  | Some n, Some v =>
      if negb (is_valid_name name) then mret ERROR_INVALID_ARGUMENT
      else
        e ← lock_current_env;
        match e with
        | None => mret ERROR_NOT_FOUND
        | Some l =>
            (match find_entry l n with
             | None => put_current_env (l ++ [n ++ eq_sign :: v])
             | Some i => if overwrite then put_current_env (<[i := n ++ eq_sign :: v]> l) else mret tt
             end);;
            mret ERROR_NONE
        end
  | _, _ => mret ERROR_INVALID_ARGUMENT
  end.

Definition app_env_unset (name : option text) : M apps error_t :=
  match name with
  | Some n =>
      if negb (is_valid_name name) then mret ERROR_INVALID_ARGUMENT
      else
        e ← lock_current_env;
        match e with
        | None => mret ERROR_NOT_FOUND
        | Some l =>
            (match find_entry l n with
             | Some i => put_current_env (delete i l)
             | None => mret tt
             end);;
            mret ERROR_NONE
        end
  | None => mret ERROR_INVALID_ARGUMENT
  end.

Definition app_env_get (name : option text) : M apps (option text) :=
  match name with
  | Some n =>
      if negb (is_valid_name name) then mret None
      else
        e ← lock_current_env;
        mret (match e with
              | None => None
              | Some l => i ← find_entry l n; e ← l !! i; Some (drop (length n + 1) e)
              end)
  | None => mret None
  end.

Definition app_env_put (string : option text) : M apps error_t :=
  match string with
  | None => mret ERROR_INVALID_ARGUMENT
  | Some s =>
      match split_eq s with
      | None | Some ([], _) => mret ERROR_INVALID_ARGUMENT
      | Some (n, v) => app_env_set (Some n) (Some v) true
      end
  end.

(** * Environments as maps *)

Definition valid (n : text) : Prop := n ≠ [] ∧ eq_sign ∉ n.
Definition entry (p : text * text) : text := p.1 ++ eq_sign :: p.2.

(** [l] is an environment: one entry for each name, and [m] is the map it denotes. *)
Definition env_rep (l : list text) (m : gmap text text) : Prop :=
  ∃ kv, l = entry <$> kv ∧ Forall (λ p, valid p.1) kv ∧ NoDup kv.*1 ∧ m = list_to_map kv.

Lemma split_eq_spec s :
  match split_eq s with
  | None => eq_sign ∉ s
  | Some (n, v) => s = n ++ eq_sign :: v ∧ eq_sign ∉ n
  end.
Proof.
  induction s as [|c s IH]; simpl; [apply not_elem_of_nil|].
  case_bool_decide as Hc.
  - subst. split; [done|apply not_elem_of_nil].
  - destruct (split_eq s) as [[n v]|]; simpl.
    + destruct IH as [-> Hn]. split; [done|]. rewrite not_elem_of_cons. auto.
    + rewrite not_elem_of_cons. auto.
Qed.

Lemma is_valid_name_spec n : is_valid_name (Some n) = true ↔ valid n.
Proof.
  unfold is_valid_name, valid. pose proof (split_eq_spec n) as Hs.
  destruct n as [|c n]; [naive_solver|]. rewrite bool_decide_eq_true.
  destruct (split_eq (c :: n)) as [[k v]|]; [|naive_solver].
  destruct Hs as [-> _]. split; [done|]. intros [_ Hn]. exfalso. apply Hn. set_solver.
Qed.

(** With valid names, an entry matches exactly its own name. *)
Lemma entry_matches_name_spec p n :
  valid p.1 → valid n → entry_matches_name (entry p) n (length n) = bool_decide (p.1 = n).
Proof.
  destruct p as [k v]. intros [_ Hk] [_ Hn]. simpl in *. unfold entry_matches_name, entry. simpl.
  destruct (decide (k = n)) as [->|Hne].
  - rewrite (bool_decide_true (n = n)) by done.
    rewrite !bool_decide_true; [done|..].
    + by rewrite take_app_length.
    + by rewrite list_lookup_middle.
    + rewrite length_app. simpl. lia.
  - rewrite (bool_decide_false (k = n)) by done.
    destruct (bool_decide (take _ _ = n)) eqn:Ht; [|by rewrite andb_false_r].
    rewrite andb_true_r. apply bool_decide_eq_true in Ht.
    destruct (decide (length n < length k)%nat) as [Hl|Hl].
    { rewrite (bool_decide_false (_ !! _ = _)); [by rewrite andb_false_r|].
      rewrite lookup_app_l by done. intros Hx. apply list_elem_of_lookup_2 in Hx. done. }
    destruct (decide (length n = length k)) as [He|He].
    { exfalso. apply Hne. rewrite <-Ht, He. by rewrite take_app_length. }
    exfalso. apply Hn. rewrite <-Ht. rewrite take_app_ge by lia.
    apply elem_of_app. right. destruct (length n - length k)%nat as [|d] eqn:Hd; [lia|]. left.
Qed.

Section kv.
Implicit Types (kv : list (text * text)) (n v : text).

(** What the search finds in an environment. *)
Lemma find_entry_spec kv n :
  Forall (λ p, valid p.1) kv → valid n →
  match find_entry (entry <$> kv) n with
  | None => n ∉ kv.*1
  | Some i => ∃ kv1 v kv2, kv = kv1 ++ (n, v) :: kv2 ∧ i = length kv1
  end.
Proof.
  intros Hkv Hn. induction Hkv as [|p kv Hp Hkv IH]; [apply not_elem_of_nil|].
  rewrite !fmap_cons. cbn [find_entry]. rewrite entry_matches_name_spec by done. case_bool_decide as Hd.
  - exists [], p.2, kv. subst. by destruct p.
  - destruct (find_entry (entry <$> kv) n) as [i|]; simpl.
    + destruct IH as (kv1 & v & kv2 & -> & ->). by exists (p :: kv1), v, kv2.
    + rewrite not_elem_of_cons. auto.
Qed.

Lemma kv_lookup_middle kv1 n v kv2 :
  NoDup (kv1 ++ (n, v) :: kv2).*1 → (list_to_map (kv1 ++ (n, v) :: kv2) : gmap text text) !! n = Some v.
Proof. intros Hnd. apply elem_of_list_to_map_1; [done|]. set_solver. Qed.

Lemma kv_insert kv1 n v w kv2 :
  NoDup (kv1 ++ (n, v) :: kv2).*1 →
  (list_to_map (kv1 ++ (n, w) :: kv2) : gmap text text) = <[n := w]> (list_to_map (kv1 ++ (n, v) :: kv2)).
Proof.
  rewrite fmap_app. intros Hnd. apply list.NoDup_app in Hnd as (_ & Hd & _).
  assert (n ∉ kv1.*1) as Hn by (intros Hin; apply (Hd n Hin); left). clear Hd.
  induction kv1 as [|[k u] kv1 IH]; simpl; [by rewrite insert_insert_eq|].
  simpl in Hn. apply not_elem_of_cons in Hn as [Hne Hn]. rewrite IH by done.
  by rewrite insert_insert_ne.
Qed.

Lemma kv_delete kv1 n v kv2 :
  NoDup (kv1 ++ (n, v) :: kv2).*1 →
  (list_to_map (kv1 ++ kv2) : gmap text text) = delete n (list_to_map (kv1 ++ (n, v) :: kv2)).
Proof.
  rewrite fmap_app. intros Hnd. apply list.NoDup_app in Hnd as (_ & Hd & Hnd).
  assert (n ∉ kv1.*1) as Hn by (intros Hin; apply (Hd n Hin); left). clear Hd.
  apply NoDup_cons in Hnd as [Hn2 _].
  induction kv1 as [|[k u] kv1 IH]; simpl.
  - rewrite delete_insert_id; [done|]. by apply not_elem_of_list_to_map_1.
  - simpl in Hn. apply not_elem_of_cons in Hn as [Hne Hn]. rewrite IH by done.
    by rewrite delete_insert_ne.
Qed.
End kv.

(** The pure effect of an assignment. *)
Definition assign (l : list text) (n v : text) (overwrite : bool) : list text :=
  match find_entry l n with
  | None => l ++ [n ++ eq_sign :: v]
  | Some i => if overwrite then <[i := n ++ eq_sign :: v]> l else l
  end.

Lemma assign_rep l m n v overwrite :
  env_rep l m → valid n →
  env_rep (assign l n v overwrite) (if overwrite then <[n := v]> m
    else match m !! n with None => <[n := v]> m | Some _ => m end).
Proof.
  intros (kv & -> & Hkv & Hnd & ->) Hn. unfold assign. pose proof (find_entry_spec kv n Hkv Hn) as Hf.
  destruct (find_entry (entry <$> kv) n) as [i|].
  - destruct Hf as (kv1 & u & kv2 & -> & ->).
    destruct overwrite; [|rewrite kv_lookup_middle by done; by exists (kv1 ++ (n, u) :: kv2)].
    exists (kv1 ++ (n, v) :: kv2). split; [|split; [|split]].
    + rewrite !fmap_app, !fmap_cons. change (n ++ eq_sign :: v) with (entry (n, v)).
      rewrite <-(length_fmap entry kv1), <-(Nat.add_0_r (length _)), insert_app_r. done.
    + apply Forall_app in Hkv as [? Hkv]. apply Forall_cons in Hkv as [_ ?]. by apply Forall_app; auto.
    + by rewrite fmap_app in Hnd |- *.
    + symmetry. by apply kv_insert.
  - assert ((list_to_map kv : gmap text text) !! n = None) as Hnone by by apply not_elem_of_list_to_map_1.
    rewrite Hnone. exists (kv ++ [(n, v)]). split; [|split; [|split]].
    + by rewrite fmap_app.
    + by apply Forall_app; auto.
    + rewrite fmap_app. by apply NoDup_snoc.
    + destruct overwrite; rewrite list_to_map_snoc by done; done.
Qed.

Lemma delete_rep l m n :
  env_rep l m → valid n →
  env_rep (match find_entry l n with Some i => delete i l | None => l end) (delete n m).
Proof.
  intros (kv & -> & Hkv & Hnd & ->) Hn. pose proof (find_entry_spec kv n Hkv Hn) as Hf.
  destruct (find_entry (entry <$> kv) n) as [i|].
  - destruct Hf as (kv1 & u & kv2 & -> & ->). exists (kv1 ++ kv2). split; [|split; [|split]].
    + rewrite !fmap_app, !fmap_cons. rewrite <-(length_fmap entry kv1). by rewrite delete_middle.
    + apply Forall_app in Hkv as [? Hkv]. apply Forall_cons in Hkv as [_ ?]. by apply Forall_app; auto.
    + rewrite fmap_app in Hnd |- *. apply list.NoDup_app in Hnd as (H1 & H2 & H3).
      apply NoDup_cons in H3 as [_ H3]. apply list.NoDup_app. split; [done|]. split; [|done].
      intros k Hk Hk2. apply (H2 k Hk). by right.
    + symmetry. by apply kv_delete.
  - exists kv. split; [done|]. split; [done|]. split; [done|].
    by rewrite delete_id by by apply not_elem_of_list_to_map_1.
Qed.

Lemma get_rep l m n :
  env_rep l m → valid n →
  (i ← find_entry l n; e ← l !! i; Some (drop (length n + 1) e)) = m !! n.
Proof.
  intros (kv & -> & Hkv & Hnd & ->) Hn. pose proof (find_entry_spec kv n Hkv Hn) as Hf.
  destruct (find_entry (entry <$> kv) n) as [i|]; simpl.
  - destruct Hf as (kv1 & u & kv2 & -> & ->). rewrite kv_lookup_middle by done.
    rewrite fmap_app, fmap_cons, list_lookup_middle by by rewrite length_fmap. simpl.
    unfold entry. simpl. rewrite <-drop_drop, drop_app_length. done.
  - by rewrite not_elem_of_list_to_map_1.
Qed.

(** The caller's environment denotes [m]. *)
Definition env_is (s : apps) (m : gmap text text) : Prop :=
  ∃ r, instances s !! current_app s = Some r ∧ env_rep (env r) m.

Lemma lock_current_env_eq s r :
  instances s !! current_app s = Some r → lock_current_env s = Done (Some (env r), s).
Proof.
  intros Hr. unfold lock_current_env. rewrite (bind_eq _ _ s (current_app s) s) by done.
  by rewrite (bind_eq _ _ s (Some r) s) by (unfold gets; by rewrite Hr).
Qed.

Lemma put_current_env_eq s r l :
  instances s !! current_app s = Some r →
  put_current_env l s = Done (tt, set_instances (<[current_app s := with_env l r]> (instances s)) s).
Proof.
  intros Hr. unfold put_current_env. rewrite (bind_eq _ _ s (current_app s) s) by done.
  by apply upd_instance_eq.
Qed.

Lemma app_env_set_eq s m n v overwrite :
  env_is s m → valid n →
  ∃ s', app_env_set (Some n) (Some v) overwrite s = Done (ERROR_NONE, s') ∧
    env_is s' (if overwrite then <[n := v]> m else match m !! n with None => <[n := v]> m | Some _ => m end).
Proof.
  intros (r & Hr & Hm) Hn. pose proof (assign_rep _ _ n v overwrite Hm Hn) as Ha.
  unfold app_env_set. rewrite (proj2 (is_valid_name_spec n) Hn). simpl.
  rewrite (bind_eq _ _ _ _ _ (lock_current_env_eq s r Hr)). unfold assign in Ha.
  destruct (find_entry (env r) n) as [i|]; [destruct overwrite|].
  - rewrite (bind_eq _ _ _ _ _ (put_current_env_eq s r _ Hr)). eexists. split; [done|].
    eexists. split; [apply lookup_insert_eq|done].
  - exists s. split; [done|]. by exists r.
  - rewrite (bind_eq _ _ _ _ _ (put_current_env_eq s r _ Hr)). eexists. split; [done|].
    eexists. split; [apply lookup_insert_eq|done].
Qed.

(** The environment of an app is a finite map: setting a valid name inserts it
    (or keeps the old value when asked not to overwrite), unsetting deletes it,
    reading looks it up, and the one-entry-per-name representation is kept. *)
Theorem app_env_is_a_map s m n v overwrite :
  env_is s m → valid n →
  (∃ s', app_env_set (Some n) (Some v) overwrite s = Done (ERROR_NONE, s') ∧
     env_is s' (if overwrite then <[n := v]> m else match m !! n with None => <[n := v]> m | Some _ => m end)) ∧
  (∃ s', app_env_put (Some (n ++ eq_sign :: v)) s = Done (ERROR_NONE, s') ∧ env_is s' (<[n := v]> m)) ∧
  (∃ s', app_env_unset (Some n) s = Done (ERROR_NONE, s') ∧ env_is s' (delete n m)) ∧
  app_env_get (Some n) s = Done (m !! n, s).
Proof.
  intros Hs Hn. split; [by apply app_env_set_eq|]. split; [|split].
  - unfold app_env_put. pose proof (split_eq_spec (n ++ eq_sign :: v)) as Hsp.
    destruct (split_eq (n ++ eq_sign :: v)) as [[k w]|]; [|exfalso; apply Hsp; set_solver].
    destruct Hsp as [He Hk]. assert (k = n ∧ w = v) as [-> ->].
    { destruct Hn as [_ Hn]. clear -He Hk Hn. revert k He Hk.
      induction n as [|c n IH]; intros [|d k] He Hk; simplify_eq/=; try done; set_solver. }
    destruct n as [|c n]; [by destruct Hn|].
    destruct (app_env_set_eq s m (c :: n) v true Hs Hn) as (s' & E & Hs'). by exists s'.
  - destruct Hs as (r & Hr & Hm). pose proof (delete_rep _ _ n Hm Hn) as Hd.
    unfold app_env_unset. rewrite (proj2 (is_valid_name_spec n) Hn). simpl.
    rewrite (bind_eq _ _ _ _ _ (lock_current_env_eq s r Hr)).
    destruct (find_entry (env r) n) as [i|].
    + rewrite (bind_eq _ _ _ _ _ (put_current_env_eq s r _ Hr)). eexists. split; [done|].
      eexists. split; [apply lookup_insert_eq|done].
    + exists s. split; [done|]. by exists r.
  - destruct Hs as (r & Hr & Hm). unfold app_env_get. rewrite (proj2 (is_valid_name_spec n) Hn). simpl.
    rewrite (bind_eq _ _ _ _ _ (lock_current_env_eq s r Hr)). unfold mret, M_ret. do 2 f_equal.
    by apply get_rep.
Qed.

Module EnvDemo.
Definition record : AppInstanceRecord :=
  {| instance_state := APP_INSTANCE_STATE_ACTIVE; fd_table := {| slots := []; table_mutex := true; shutting_down := false |};
     env := [$"HOME=/data"; $"HOMER=x=y"]; signal_handlers := []; pending_signals := 0; manifestId := []; task := None; parent_id := 0; completion := None; cwd := ["/"%char] |}.
Definition start : apps := Apps {[ 1 := record ]} ∅ (AppEvents None ∅ ∅ 0) 1.
Definition start_map : gmap text text := list_to_map [($"HOME", $"/data"); ($"HOMER", $"x=y")].
Lemma start_is : env_is start start_map.
Proof.
  exists record. split; [done|]. exists [($"HOME", $"/data"); ($"HOMER", $"x=y")].
  split; [done|]. split; [|split; [apply (bool_decide_unpack _); vm_compute; exact I|done]].
  repeat constructor; try done; apply (bool_decide_unpack _); vm_compute; exact I.
Qed.
End EnvDemo.

Lemma app_env_is_a_map_witness :
  app_env_get (Some ($"HOME")) EnvDemo.start = Done (Some ($"/data"), EnvDemo.start) ∧
  ∃ s', app_env_unset (Some ($"HOME")) EnvDemo.start = Done (ERROR_NONE, s') ∧
    env_is s' (delete ($"HOME") EnvDemo.start_map).
Proof.
  destruct (app_env_is_a_map EnvDemo.start EnvDemo.start_map ($"HOME") [] true EnvDemo.start_is)
    as (_ & _ & Hu & Hg).
  - split; [done|]. apply (bool_decide_unpack _). vm_compute. exact I.
  - split; [rewrite Hg; vm_compute; reflexivity|exact Hu].
Defined.
