(* ===== verification/Tasks.v ===== *)
(** Tasks that interleave at critical sections.  The code of a task is a tree of the
    sections it runs under a lock, of choices of the system, of waits for a semaphore and
    of the tasks it creates; a pool of tasks shares one state.  A logic of tasks: each
    task owns a piece of ghost state, an invariant relates the state and all the pieces,
    and a section may use the invariant if it restores it; sections that may fail are named
    by a predicate. *)

From S2P Require Import Prelude.

Section tasks.
Context {S : Type}.
Implicit Types s : S.

(** * Tasks and pools *)

(** [Locked m k]: a critical section and what follows.  [Choose k]: the system gives any
    value.  [Wait m k]: a wait with a timeout; [m] tests and takes what is waited for.
    [Fork p k]: creates a task. *)
Inductive proc (A : Type) : Type :=
  | Return (a : A)
  | Locked {B : Type} (m : M S B) (k : B → proc A)
  | Choose {B : Type} `{Inhabited B} (k : B → proc A)
  | Wait (m : M S bool) (k : bool → proc A)
  | Fork (p : proc Z) (k : proc A).
#[global] Arguments Return {A} a.
#[global] Arguments Locked {A B} m k.
#[global] Arguments Choose {A B _} k.
#[global] Arguments Wait {A} m k.
#[global] Arguments Fork {A} p k.

#[export] Instance proc_ret : MRet proc := @Return.
#[export] Instance proc_bind : MBind proc := λ A B f, fix bind p :=
  match p with
  | Return a => f a
  | Locked m k => Locked m (λ b, bind (k b))
  | Choose k => Choose (λ b, bind (k b))
  | Wait m k => Wait m (λ b, bind (k b))
  | Fork q k => Fork q (bind k)
  end.

Definition locked {A} (m : M S A) : proc A := Locked m Return.
Definition choose {A} `{Inhabited A} : proc A := Choose Return.
Definition wait (m : M S bool) : proc bool := Wait m Return.
Definition fork (p : proc Z) : proc unit := Fork p (Return tt).

(** A range-based [for] loop over sections. *)
Fixpoint for_each {A} (body : A → proc unit) (l : list A) : proc unit :=
  match l with [] => mret tt | a :: l' => body a ≫= λ _, for_each body l' end.

Abbreviation pool := (list (proc Z)).

Inductive step : pool * S → pool * S → Prop :=
  | step_locked {B} ps1 ps2 (m : M S B) k s b s' :
      m s = Done (b, s') → step (ps1 ++ Locked m k :: ps2, s) (ps1 ++ k b :: ps2, s')
  | step_choose {B} `{Inhabited B} ps1 ps2 (k : B → proc Z) s b :
      step (ps1 ++ Choose k :: ps2, s) (ps1 ++ k b :: ps2, s)
  | step_wait ps1 ps2 m k s s' :
      m s = Done (true, s') → step (ps1 ++ Wait m k :: ps2, s) (ps1 ++ k true :: ps2, s')
  | step_timeout ps1 ps2 m k s :
      step (ps1 ++ Wait m k :: ps2, s) (ps1 ++ k false :: ps2, s)
  | step_fork ps1 ps2 p k s :
      step (ps1 ++ Fork p k :: ps2, s) (ps1 ++ k :: ps2 ++ [p], s).

Definition returned (p : proc Z) : bool := match p with Return _ => true | _ => false end.

(** The next section of the task has no result: a failed [check()], or undefined behaviour. *)
Definition crashes (s : S) (p : proc Z) : Prop :=
  match p with
  | Locked m _ => ∀ r, m s ≠ Done r
  | Wait m _ => ∀ r, m s ≠ Done r
  | _ => False
  end.

(** * Running a pool *)

(** A turn of the task [i]: with [expired], a wait times out, and the system's answer is
    the inhabitant of its type. *)
Definition runs (c : pool * S) (i : nat) (expired : bool) : option (pool * S) :=
  let '(ps, s) := c in
  match ps !! i with
  | Some (Locked m k) => match m s with Done (b, s') => Some (<[i := k b]> ps, s') | _ => None end
  | Some (Choose k) => Some (<[i := k inhabitant]> ps, s)
  | Some (Wait m k) =>
      if expired then Some (<[i := k false]> ps, s)
      else match m s with Done (true, s') => Some (<[i := k true]> ps, s') | _ => None end
  | Some (Fork p k) => Some (<[i := k]> ps ++ [p], s)
  | _ => None
  end.
(** Turns of the tasks [l], one after the other. *)
Fixpoint drive (c : pool * S) (l : list (nat * bool)) : option (pool * S) :=
  match l with [] => Some c | (i, e) :: l' => c' ← runs c i e; drive c' l' end.
(** Turns of the task [i] for as long as it can, at most [n]. *)
Fixpoint advance (n : nat) (i : nat) (c : pool * S) : pool * S :=
  match n with
  | O => c
  | Datatypes.S n' => match runs c i false with Some c' => advance n' i c' | None => c end
  end.

Lemma insert_middle {A} (l : list A) i x y : l !! i = Some x → ∃ l1 l2, l = l1 ++ x :: l2 ∧ <[i := y]> l = l1 ++ y :: l2.
Proof.
  intros Hi. exists (take i l), (drop (Datatypes.S i) l). split; [by rewrite take_drop_middle|].
  apply insert_take_drop. by eapply lookup_lt_Some.
Qed.

(** The system's answer to the task [i]. *)
Lemma answer_step {B} `{Inhabited B} ps i (k : B → proc Z) s b : ps !! i = Some (Choose k) → step (ps, s) (<[i := k b]> ps, s).
Proof. intros Hi. destruct (insert_middle _ _ _ (k b) Hi) as (l1 & l2 & E1 & ->); subst ps. apply step_choose. Qed.

Lemma runs_step c i expired c' : runs c i expired = Some c' → step c c'.
Proof.
  destruct c as [ps s]. unfold runs. destruct (ps !! i) as [[?|? m k|? ? k|m k|q k]|] eqn:Hi; try done.
  - destruct (m s) as [[b s']| |] eqn:E; [|done..]. intros [= <-].
    destruct (insert_middle _ _ _ (k b) Hi) as (l1 & l2 & E1 & ->); subst ps. by apply step_locked.
  - intros [= <-]. by apply answer_step.
  - destruct expired.
    + intros [= <-]. destruct (insert_middle _ _ _ (k false) Hi) as (l1 & l2 & E1 & ->); subst ps. apply step_timeout.
    + destruct (m s) as [[[] s']| |] eqn:E; [|done..]. intros [= <-].
      destruct (insert_middle _ _ _ (k true) Hi) as (l1 & l2 & E1 & ->); subst ps. by apply step_wait.
  - intros [= <-]. destruct (insert_middle _ _ _ k Hi) as (l1 & l2 & E1 & ->); subst ps. rewrite <-app_assoc. apply step_fork.
Qed.
Lemma drive_steps c l c' : drive c l = Some c' → rtc step c c'.
Proof.
  revert c. induction l as [|[i e] l IH]; intros c; cbn [drive]; [by intros [= ->]|].
  intros (c1 & Hr & Hd)%bind_Some. eapply rtc_l; [by eapply runs_step|]. by apply IH.
Qed.
Lemma advance_steps n i c : rtc step c (advance n i c).
Proof.
  revert c. induction n as [|n IH]; intros c; cbn [advance]; [done|]. destruct (runs c i false) as [c'|] eqn:E; [|done].
  eapply rtc_l; [by eapply runs_step|]. apply IH.
Qed.

(** The task [i] cannot go on. *)
Definition crashed (c : pool * S) (i : nat) : bool :=
  match c.1 !! i with
  | Some (Locked m _) => match m c.2 with Done _ => false | _ => true end
  | Some (Wait m _) => match m c.2 with Done _ => false | _ => true end
  | _ => false
  end.
Lemma crashed_crashes c i : crashed c i = true → ∃ p, c.1 !! i = Some p ∧ crashes c.2 p.
Proof.
  unfold crashed. destruct (c.1 !! i) as [[?|? m k|? ? k|m k|q k]|]; try done; destruct (m c.2) eqn:E; try done; intros _;
    (eexists; split; [done|]; intros r; by rewrite E).
Qed.

Lemma expired_step c i : rtc step c (default c (runs c i true)).
Proof. destruct (runs c i true) as [c'|] eqn:E; [|done]. eapply rtc_once, runs_step, E. Qed.

(** A task that has not returned can go on, or it crashes. *)
Lemma not_stuck ps s : (∃ c, step (ps, s) c) ∨ Forall (λ p, returned p ∨ crashes s p) ps.
Proof.
  destruct (decide (Forall returned ps)) as [Hr|_]; [right; eapply Forall_impl; [exact Hr|by left]|].
  assert (∀ p ps1 ps2, ps = ps1 ++ p :: ps2 → (∃ c, step (ps, s) c) ∨ returned p ∨ crashes s p) as Hp.
  { intros p ps1 ps2 ->. destruct p as [a|B m k|B ? k|m k|q k]; simpl; [by right; left|..].
    - destruct (m s) as [[b s']| |] eqn:E; [left; by eexists; apply step_locked|right; by right..].
    - left. eexists. apply (step_choose _ _ k _ inhabitant).
    - left. eexists. apply step_timeout.
    - left. eexists. apply step_fork. }
  assert (∀ l, l ⊆ ps → (∃ c, step (ps, s) c) ∨ Forall (λ p, returned p ∨ crashes s p) l) as Hall; [|by apply Hall].
  induction l as [|p l IH]; intros Hl; [by right|]. destruct (list_elem_of_split ps p) as (ps1 & ps2 & E); [by apply Hl; left|].
  destruct (Hp p ps1 ps2 E) as [?|Hr]; [by left|]. destruct IH as [?|IH]; [by intros q Hq; apply Hl; right|by left|]. right. by constructor.
Qed.

Lemma returned_stuck ps s c : Forall returned ps → step (ps, s) c → False.
Proof.
  assert (∀ ps1 p ps2, Forall returned (ps1 ++ p :: ps2) → returned p) as Hp by (by intros ps1 p ps2 [_ [Hp _]%Forall_cons]%Forall_app).
  intros Hr Hs. by inversion Hs; subst; apply Hp in Hr.
Qed.

(** * A logic of tasks *)

Section logic.
(** [Excused m s]: a failure of the section [m] in the state [s] that the logic admits. *)
Context {G : Type} (Excused : ∀ {B : Type}, M S B → S → Prop) (Inv : S → list G → Prop) (Final : G → Prop).
Hypothesis Inv_permutation : ∀ s gs gs', gs ≡ₚ gs' → Inv s gs → Inv s gs'.

(** A section that fails is excused; one that does not fail establishes [Q]. *)
Definition attempt {B} (m : M S B) (Q : B → S → Prop) s : Prop := (Excused _ m s ∧ ∀ r, m s ≠ Done r) ∨ wp m Q s.
Lemma attempt_mono {B} (m : M S B) (P Q : B → S → Prop) s : attempt m P s → (∀ b s', P b s' → Q b s') → attempt m Q s.
Proof. intros [?|Hm] HPQ; [by left|right]. by eapply wp_mono. Qed.

(** [safe p g Q]: the task [p] that owns [g] runs into no failure and no undefined
    behaviour but excused ones, and when it ends, [Q] is true of what it owns then and of
    its result. *)
Fixpoint safe {A : Type} (p : proc A) (g : G) (Q : G → A → Prop) {struct p} : Prop :=
  match p with
  | Return a => Q g a
  | Locked m k => ∀ s gs, Inv s (g :: gs) → attempt m (λ b s', ∃ g', Inv s' (g' :: gs) ∧ safe (k b) g' Q) s
  | Choose k => ∀ b, safe (k b) g Q
  | Wait m k =>
      safe (k false) g Q ∧
      ∀ s gs, Inv s (g :: gs) → wp m (λ b s', b = true → ∃ g', Inv s' (g' :: gs) ∧ safe (k true) g' Q) s
  | Fork p k => ∃ g1 g2, (∀ s gs, Inv s (g :: gs) → Inv s (g1 :: g2 :: gs)) ∧ safe p g2 (λ g _, Final g) ∧ safe k g1 Q
  end.

Lemma safe_mono {A} (p : proc A) g (P Q : G → A → Prop) : safe p g P → (∀ g a, P g a → Q g a) → safe p g Q.
Proof.
  intros Hp HPQ. revert g Hp. induction p as [A a|A B m k IH|A B ? k IH|A m k IH|A q IHq k IH]; intros g; cbn [safe].
  - apply HPQ.
  - intros Hm s gs HI. eapply attempt_mono; [by apply Hm|]. intros b s' (g' & HI' & Hk). exists g'. split; [done|by apply (IH _ P)].
  - intros Hk b. by apply (IH _ P).
  - intros [Hf Hm]. split; [by apply (IH _ P)|]. intros s gs HI. eapply wp_mono; [by apply Hm|].
    intros b s' Hb Eb. destruct (Hb Eb) as (g' & HI' & Hk). exists g'. split; [done|by apply (IH _ P)].
  - intros (g1 & g2 & Hi & Hq & Hk). exists g1, g2. split; [done|]. split; [done|by apply (IH P)].
Qed.

Lemma safe_bind {A B} (p : proc A) (f : A → proc B) g (Q : G → B → Prop) :
  safe p g (λ g a, safe (f a) g Q) → safe (p ≫= f) g Q.
Proof.
  revert g. induction p as [A a|A C m k IH|A C ? k IH|A m k IH|A q IHq k IH]; intros g; cbn [safe mbind proc_bind].
  - done.
  - intros Hm s gs HI. eapply attempt_mono; [by apply Hm|]. intros b s' (g' & HI' & Hk). exists g'. split; [done|by apply IH].
  - intros Hk b. by apply IH.
  - intros [Hf Hm]. split; [by apply IH|]. intros s gs HI. eapply wp_mono; [by apply Hm|].
    intros b s' Hb Eb. destruct (Hb Eb) as (g' & HI' & Hk). exists g'. split; [done|by apply IH].
  - intros (g1 & g2 & Hi & Hq & Hk). exists g1, g2. split; [done|]. split; [done|by apply IH].
Qed.

(** A section that does not fail, and what follows. *)
Lemma safe_locked_then {A B} (m : M S A) (f : A → proc B) g (Q : G → B → Prop) :
  (∀ s gs, Inv s (g :: gs) → wp m (λ a s', ∃ g', Inv s' (g' :: gs) ∧ safe (f a) g' Q) s) → safe (Locked m f) g Q.
Proof. intros Hm s gs HI. right. by apply Hm. Qed.
Lemma safe_locked {A} (m : M S A) g (Q : G → A → Prop) :
  (∀ s gs, Inv s (g :: gs) → wp m (λ a s', ∃ g', Inv s' (g' :: gs) ∧ Q g' a) s) → safe (locked m) g Q.
Proof. intros Hm. by apply (safe_locked_then m Return). Qed.
(** A section that may fail, but is excused then. *)
Lemma safe_excused {A B} (m : M S A) (f : A → proc B) g (Q : G → B → Prop) :
  (∀ s gs, Inv s (g :: gs) → attempt m (λ a s', ∃ g', Inv s' (g' :: gs) ∧ safe (f a) g' Q) s) → safe (Locked m f) g Q.
Proof. done. Qed.

(** A loop whose body keeps [I]. *)
Lemma safe_for_each {A} (I : G → Prop) (body : A → proc unit) l g (Q : G → Prop) :
  (∀ a g, a ∈ l → I g → safe (body a) g (λ g' _, I g')) → I g → (∀ g', I g' → Q g') → safe (for_each body l) g (λ g' _, Q g').
Proof.
  intros Hb HI HQ. revert g HI. induction l as [|a l IH]; intros g HI; cbn [for_each]; [by apply HQ|]. apply safe_bind.
  eapply safe_mono; [by apply Hb; [left|]|]. intros g1 u HI1. apply IH; [|done]. intros x h Hx. apply Hb. by right.
Qed.

(** * Soundness *)

(** The tasks of a pool with what they own and what they establish. *)
Definition all_safe (ps : pool) (gs : list G) (Qs : list (G → Z → Prop)) : Prop :=
  Forall3 (λ p g Q, safe p g Q) ps gs Qs.

Lemma step_safe ps s ps' s' gs Qs :
  step (ps, s) (ps', s') → Inv s gs → all_safe ps gs Qs →
  ∃ gs' Qn, Inv s' gs' ∧ all_safe ps' gs' (Qs ++ Qn) ∧ Forall (λ Q, Q = λ g _, Final g) Qn.
Proof.
  intros Hstep HI Hall.
  (* the task that moves *)
  assert (∀ ps1 p ps2, ps = ps1 ++ p :: ps2 → ∃ gs1 g gs2 Qs1 Q Qs2, gs = gs1 ++ g :: gs2 ∧ Qs = Qs1 ++ Q :: Qs2 ∧
    all_safe ps1 gs1 Qs1 ∧ safe p g Q ∧ all_safe ps2 gs2 Qs2) as Hsplit.
  { intros ps1 p ps2 ->. apply Forall3_app_inv_l in Hall as (gs1 & gs' & Qs1 & Qs' & -> & -> & H1 & H2).
    apply Forall3_cons_inv_l in H2 as (g & gs2 & Q & Qs2 & -> & -> & Hp & H2). by exists gs1, g, gs2, Qs1, Q, Qs2. }
  (* and is safe afterwards *)
  assert (∀ ps1 ps2 gs1 g' gs2 Qs1 Q Qs2 p' s1, all_safe ps1 gs1 Qs1 → all_safe ps2 gs2 Qs2 →
    Inv s1 (g' :: gs1 ++ gs2) → safe p' g' Q →
    ∃ gs' Qn, Inv s1 gs' ∧ all_safe (ps1 ++ p' :: ps2) gs' ((Qs1 ++ Q :: Qs2) ++ Qn) ∧ Forall (λ Q, Q = λ g _, Final g) Qn) as Hnext.
  { intros ps1 ps2 gs1 g' gs2 Qs1 Q Qs2 p' s1 H1 H2 HI1 Hp'. exists (gs1 ++ g' :: gs2), []. rewrite app_nil_r.
    split; [by apply (Inv_permutation _ _ _ (Permutation_middle gs1 gs2 g'))|]. split; [|done].
    apply Forall3_app; [done|]. by constructor. }
  inversion Hstep as [B ps1 ps2 m k ? b ? Hm|B ? ps1 ps2 k ? b|ps1 ps2 m k ? ? Hm|ps1 ps2 m k ?|ps1 ps2 p k ?]; subst;
    destruct (Hsplit _ _ _ eq_refl) as (gs1 & g & gs2 & Qs1 & Q & Qs2 & -> & -> & H1 & Hp & H2); cbn [safe] in Hp;
    apply (Inv_permutation _ _ (g :: gs1 ++ gs2)) in HI; try (symmetry; apply Permutation_middle).
  - specialize (Hp _ _ HI). destruct Hp as [[_ Hp]|Hp]; [by destruct (Hp (b, s'))|]. unfold wp in Hp. rewrite Hm in Hp.
    destruct Hp as (g' & HI' & Hp'). by eapply Hnext.
  - by eapply Hnext.
  - destruct Hp as [_ Hp]. specialize (Hp _ _ HI). unfold wp in Hp. rewrite Hm in Hp.
    destruct (Hp eq_refl) as (g' & HI' & Hp'). by eapply Hnext.
  - destruct Hp as [Hp _]. by eapply Hnext.
  - destruct Hp as (g1 & g2 & Hi & Hq & Hk). exists (gs1 ++ g1 :: gs2 ++ [g2]), [λ g _, Final g].
    split; [|split; [|by constructor]].
    + eapply Inv_permutation; [|apply Hi, HI]. rewrite <-Permutation_middle. f_equiv.
      by rewrite app_assoc, <-Permutation_cons_append.
    + rewrite <-app_assoc. apply Forall3_app; [done|]. constructor; [done|]. apply Forall3_app; [done|]. by repeat constructor.
Qed.

Lemma steps_safe ps s ps' s' gs Qs :
  rtc step (ps, s) (ps', s') → Inv s gs → all_safe ps gs Qs →
  ∃ gs' Qn, Inv s' gs' ∧ all_safe ps' gs' (Qs ++ Qn) ∧ Forall (λ Q, Q = λ g _, Final g) Qn.
Proof.
  intros Hsteps. remember (ps, s) as c eqn:Ec. remember (ps', s') as c' eqn:Ec'. revert ps s gs Qs Ec.
  induction Hsteps as [c|c1 [ps1 s1] c2 Hs _ IH]; intros ps s gs Qs -> HI Hall.
  - injection Ec' as <- <-. exists gs, []. by rewrite app_nil_r.
  - destruct (step_safe _ _ _ _ _ _ Hs HI Hall) as (gs1 & Qn1 & HI1 & Hall1 & Hn1).
    destruct (IH Ec' _ _ _ _ eq_refl HI1 Hall1) as (gs2 & Qn2 & HI2 & Hall2 & Hn2).
    exists gs2, (Qn1 ++ Qn2). rewrite app_assoc. split; [done|]. split; [done|]. by apply Forall_app.
Qed.

(** A task that fails is at a section that is excused. *)
Definition excused s (p : proc Z) : Prop := match p with Locked m _ => Excused _ m s | _ => False end.

Lemma safe_crash s gs g p Q : Inv s (g :: gs) → safe p g Q → crashes s p → excused s p.
Proof.
  destruct p as [a|B m k|B ? k|m k|q k]; cbn [safe crashes excused]; try tauto.
  - intros HI Hp Hc. destruct (Hp _ _ HI) as [[He _]|Hw]; [done|]. destruct (wp_done _ _ _ Hw) as (b & s' & E & _). by destruct (Hc (b, s')).
  - intros HI [_ Hp] Hc. destruct (wp_done _ _ _ (Hp _ _ HI)) as (b & s' & E & _). by destruct (Hc (b, s')).
Qed.

Lemma all_safe_crash s ps gs Qs : Inv s gs → all_safe ps gs Qs → Forall (λ p, crashes s p → excused s p) ps.
Proof.
  intros HI Hall. apply Forall_forall. intros p (ps1 & ps2 & ->)%list_elem_of_split.
  apply Forall3_app_inv_l in Hall as (gs1 & gs' & Qs1 & Qs' & -> & -> & H1 & H2).
  apply Forall3_cons_inv_l in H2 as (g & gs2 & Q & Qs2 & -> & -> & Hp & H2).
  apply (safe_crash _ (gs1 ++ gs2) g _ Q); [|done]. by apply (Inv_permutation _ _ _ (symmetry (Permutation_middle gs1 gs2 g))).
Qed.

Lemma all_safe_returned ps gs Qs (P : G → Prop) :
  all_safe ps gs Qs → Forall returned ps → Forall (λ Q : G → Z → Prop, ∀ g a, Q g a → P g) Qs → Forall P gs.
Proof.
  induction 1 as [|p g Q ps gs Qs Hp _ IH]; intros Hr HQ; [done|]. apply Forall_cons in Hr as [Hr Hrs]. apply Forall_cons in HQ as [HQ HQs].
  constructor; [|by apply IH]. destruct p as [a|B m k|B ? k|m k|q k]; try done. by apply (HQ g a).
Qed.
Lemma all_safe_result ps gs Qs k a Q :
  all_safe ps gs Qs → ps !! k = Some (Return a) → Qs !! k = Some Q → ∃ g, g ∈ gs ∧ Q g a.
Proof.
  intros Hall. revert k. induction Hall as [|p g Q' ps gs Qs Hp _ IH]; intros [|k]; try done; simpl.
  - intros [= ->] [= ->]. exists g. by split; [left|].
  - intros Hk HQ. destruct (IH k Hk HQ) as (g' & Hg & Hg'). exists g'. by split; [right|].
Qed.
End logic.
End tasks.
#[global] Arguments proc : clear implicits.
