(* ===== verification/Resources.v ===== *)
(** What an app with the cleanup flag acquires, Modules/app-module/source/resources.cpp:
    a tracker per app, the hooks that keep it, and releasing what is left when the app
    ends.  The arguments [owner] and [current] of a hook are what the calling task has in
    [thread_owner] and in [app_scheduler_current_app_id()]. *)

From S2P Require Import Prelude.

(** The C library and the platform's tasks: closing, freeing, deleting and joining. *)
Class ResourcePlatform := {
  resource_world : Type;
  fclose : Z → resource_world → resource_world;
  closedir : Z → resource_world → resource_world;
  close_fd : Z → resource_world → resource_world;
  free : Z → resource_world → resource_world;
  delete_task : Z → Z → resource_world → resource_world;
  join_task : Z → Z → resource_world → resource_world;
}.

(** [delete_task] and [join_task] of a task, the second nullable. *)
Record TrackedTask := { task_delete : Z; task_join : option Z }.

Record Tracker := {
  allocations : gset Z;
  fds : gset Z;
  files : gset Z;
  dirs : gset Z;
  tracked_tasks : gmap Z TrackedTask;
  tasks_released : bool;
  deleted_task_count : nat;
}.
#[export] Instance Tracker_settable : Settable Tracker :=
  constr Build_Tracker <*> allocations <*> fds <*> files <*> dirs <*> tracked_tasks <*> tasks_released <*> deleted_task_count.
Definition new_tracker : Tracker := Build_Tracker ∅ ∅ ∅ ∅ ∅ false 0.

Section resources.
Context `{ResourcePlatform}.

Record resources := Resources {
  registry : gmap Z Tracker;
  registry_size : Z;
  r_world : resource_world;
}.
#[export] Instance resources_settable : Settable resources :=
  constr Resources <*> registry <*> registry_size <*> r_world.

Definition platform_call (f : resource_world → resource_world) : M resources unit :=
  modify (λ s, s <| r_world := f (r_world s) |>).
Definition upd_tracker (i : Z) (f : Tracker → Tracker) : M resources unit :=
  modify (λ s, s <| registry := alter f i (registry s) |>).

Definition current_owner (owner current : Z) : Z := if negb (owner =? 0) then owner else current.

Definition find_tracker_accepting_tasks (i : Z) : M resources (option Tracker) :=
  gets (λ s, match registry s !! i with Some t => if tasks_released t then None else Some t | None => None end).

Definition with_current_tracker (owner current : Z) (f : Tracker → Tracker) : M resources unit :=
  n ← gets registry_size;
  if n =? 0 then mret tt
  else
    let i := current_owner owner current in
    if i =? 0 then mret tt else upd_tracker i f.

Definition task_count (i : Z) (s : resources) : nat :=
  match registry s !! i with Some t => size (tracked_tasks t) | None => 0 end.

(** [allocated]: whether the allocation of the tracker succeeds. *)
Definition app_resources_register (allocated : bool) (i : Z) : M resources error_t :=
  if negb allocated then mret ERROR_OUT_OF_MEMORY
  else
    modify (λ s, s <| registry := <[i := new_tracker]> (registry s) |> <| registry_size := registry_size s + 1 |>);;
    mret ERROR_NONE.

(** The part of [app_resources_release_tasks] under the lock, the tasks to join, and
    [thread_owner] afterwards. *)
Definition release_tasks_locked (i owner : Z) : M resources (list (Z * Z) * Z) :=
  o ← gets (λ s, registry s !! i);
  match o with
  | None => mret ([], owner)
  | Some t =>
      let tasks := map_to_list (tracked_tasks t) in
      upd_tracker i (λ t, t <| tasks_released := true |>);;
      for_list (λ x, platform_call (delete_task (task_delete x.2) x.1)) tasks;;
      upd_tracker i (λ t, t <| deleted_task_count := size (tracked_tasks t) |> <| tracked_tasks := ∅ |>);;
      mret (omap (λ x, (λ j, (x.1, j)) <$> task_join x.2) tasks, i)
  end.
Definition join_tasks (l : list (Z * Z)) : M resources unit :=
  for_list (λ x, platform_call (join_task x.2 x.1)) l.

(** Taking the tracker off the registry, under the lock, and releasing what it tracks. *)
Definition release_locked (i : Z) : M resources (option Tracker) :=
  o ← gets (λ s, registry s !! i);
  match o with
  | None => mret None
  | Some t => modify (λ s, s <| registry := delete i (registry s) |> <| registry_size := registry_size s - 1 |>);; mret (Some t)
  end.
Definition release_tracked (t : Tracker) : M resources unit :=
  for_list (λ f, platform_call (fclose f)) (elements (files t));;
  for_list (λ d, platform_call (closedir d)) (elements (dirs t));;
  for_list (λ fd, platform_call (close_fd fd)) (elements (fds t));;
  for_list (λ p, platform_call (free p)) (elements (allocations t)).

Definition app_resources_release (i owner : Z) : M resources Z :=
  o ← release_locked i;
  match o with
  | None => mret owner
  | Some t => release_tracked t;; mret 0
  end.

Definition app_resources_current_app (owner current : Z) : M resources Z :=
  n ← gets registry_size;
  if n =? 0 then mret 0
  else
    let i := current_owner owner current in
    if i =? 0 then mret 0
    else
      o ← gets (λ s, registry s !! i);
      mret (if is_some o then i else 0).

(** The result, and what [app_scheduler_current_app_id] or [thread_owner] is afterwards. *)
Definition app_resources_enter_task (i current : Z) : M resources (bool * Z) :=
  t ← find_tracker_accepting_tasks i; mret (if is_some t then (true, i) else (false, current)).
Definition app_resources_enter_thread (i owner : Z) : M resources (bool * Z) :=
  t ← find_tracker_accepting_tasks i; mret (if is_some t then (true, i) else (false, owner)).

Inductive hook :=
  | track_alloc (p : Z) | untrack_alloc (p : Z)
  | track_fd (fd : Z) | untrack_fd (fd : Z)
  | track_file (f : Z) | untrack_file (f : Z)
  | track_dir (d : Z) | untrack_dir (d : Z)
  | untrack_task (h : Z).
Definition hook_action (h : hook) (t : Tracker) : Tracker :=
  match h with
  | track_alloc p => t <| allocations := {[p]} ∪ allocations t |>
  | untrack_alloc p => t <| allocations := allocations t ∖ {[p]} |>
  | track_fd fd => t <| fds := {[fd]} ∪ fds t |>
  | untrack_fd fd => t <| fds := fds t ∖ {[fd]} |>
  | track_file f => t <| files := {[f]} ∪ files t |>
  | untrack_file f => t <| files := files t ∖ {[f]} |>
  | track_dir d => t <| dirs := {[d]} ∪ dirs t |>
  | untrack_dir d => t <| dirs := dirs t ∖ {[d]} |>
  | untrack_task h => t <| tracked_tasks := delete h (tracked_tasks t) |>
  end.
(** [app_resources_track_alloc] and the other eight. *)
Definition app_resources_hook (owner current : Z) (h : hook) : M resources unit :=
  with_current_tracker owner current (hook_action h).

(** [created]: the handle, if the platform creates the task. *)
Definition app_resources_create_task (owner current : Z) (created : option Z) (d : Z) (j : option Z) : M resources bool :=
  let i := current_owner owner current in
  o ← gets (λ s, registry s !! i);
  t ← find_tracker_accepting_tasks i;
  if (negb (i =? 0) && is_some o && negb (is_some t))%bool then mret false
  else
    match created with
    | None => mret false
    | Some h =>
        with_current_tracker owner current
          (λ t, t <| tracked_tasks := <[h := {| task_delete := d; task_join := j |}]> (tracked_tasks t) |>);;
        mret true
    end.
End resources.
