(* ===== verification/Files.v ===== *)
(** File systems as the C library shows them, and the helpers of app-module over them:
    private/fs.h, and the paths, directories and archives of source/install.cpp.  A file
    system is a map from paths to nodes; it has no symbolic links, as on ESP32. *)

From S2P Require Import Prelude Text.

(** * File systems *)

Inductive node := Directory | File (content : text).
#[export] Instance node_eq_dec : EqDecision node.
Proof. solve_decision. Defined.

(** A path: names from the root. *)
Abbreviation path := (list text).

(** [denied]: what the medium does not let be created, written or removed. *)
Record files := Files { nodes : gmap path node; denied : gset path }.
#[export] Instance files_settable : Settable files := constr Files <*> nodes <*> denied.

Definition node_at (s : files) (q : path) : option node := if decide (q = []) then Some Directory else nodes s !! q.
Definition is_dir (s : files) (q : path) : bool := bool_decide (node_at s q = Some Directory).

(** Resolving the names of a path from the directory [q]; only the last may not exist. *)
Fixpoint walk (s : files) (q : path) (names : list text) : option path :=
  match names with
  | [] => Some q
  | n :: names' =>
      if is_dir s q then
        if decide (n = [] ∨ n = $".") then walk s q names'
        else if decide (n = $"..") then walk s (removelast q) names'
        else walk s (q ++ [n]) names'
      else None
  end.
(** The working directory is the root. *)
Definition resolve (s : files) (p : text) : option path := if decide (p = []) then None else walk s [] (pieces "/" p).

Definition stat (p : text) : M files (option node) := gets (λ s, q ← resolve s p; node_at s q).

Definition put_node (q : path) (n : node) : M files unit := modify (λ s, s <| nodes := <[q := n]> (nodes s) |>).
Definition drop_node (q : path) : M files unit := modify (λ s, s <| nodes := delete q (nodes s) |>).

(** The names in a directory, "." and ".." aside. *)
Definition name_in (q k : path) : option text := if decide (removelast k = q) then last k else None.
Definition names_in (s : files) (q : path) : list text := omap (λ x, name_in q x.1) (map_to_list (nodes s)).

Inductive mkdir_result := Made | EEXIST | Refused.
Definition mkdir (p : text) : M files mkdir_result :=
  o ← gets (λ s, resolve s p);
  match o with
  | None => mret Refused
  | Some q =>
      n ← gets (λ s, node_at s q);
      if is_some n then mret EEXIST
      else
        d ← gets (λ s, bool_decide (q ∈ denied s));
        if d : bool then mret Refused else put_node q Directory;; mret Made
  end.

Definition opendir (p : text) : M files (option (list text)) :=
  gets (λ s, q ← resolve s p; if is_dir s q then Some (names_in s q) else None).

(** Whether the node may be removed. *)
Definition removable (s : files) (q : path) : bool := (bool_decide (q ≠ []) && bool_decide (q ∉ denied s))%bool.
Definition unlink (p : text) : M files bool :=
  o ← gets (λ s, resolve s p);
  match o with
  | None => mret false
  | Some q =>
      b ← gets (λ s, match node_at s q with Some (File _) => removable s q | _ => false end);
      if b : bool then drop_node q;; mret true else mret false
  end.
Definition rmdir (p : text) : M files bool :=
  o ← gets (λ s, resolve s p);
  match o with
  | None => mret false
  | Some q =>
      b ← gets (λ s, (is_dir s q && removable s q && bool_decide (names_in s q = []))%bool);
      if b : bool then drop_node q;; mret true else mret false
  end.

(** What a file is created or overwritten with. *)
Definition write_file (p content : text) : M files bool :=
  o ← gets (λ s, resolve s p);
  match o with
  | None => mret false
  | Some q =>
      b ← gets (λ s, (negb (is_dir s q) && bool_decide (q ∉ denied s))%bool);
      if b : bool then put_node q (File content);; mret true else mret false
  end.
Definition read_file (p : text) : M files (option text) :=
  n ← stat p; mret (match n with Some (File content) => Some content | _ => None end).

(** [rename] of a directory or a file with what is in it; [to] is not there, or an empty
    directory or a file in the place of its like.  Renaming to itself changes nothing. *)
Definition moved (from to k : path) : path := if decide (from `prefix_of` k) then to ++ drop (length from) k else k.
Definition may_replace (s : files) (from to : path) : bool :=
  match node_at s from, node_at s to with
  | None, _ => false
  | Some _, None => true
  | Some Directory, Some Directory => bool_decide (names_in s to = [])
  | Some (File _), Some (File _) => true
  | _, _ => false
  end.
Definition move_nodes (from to : path) (m : gmap path node) : gmap path node :=
  list_to_map (map (λ x, (moved from to x.1, x.2)) (map_to_list (delete to m))).
Definition rename (from_path to_path : text) : M files bool :=
  o ← gets (λ s, f ← resolve s from_path; t ← resolve s to_path; Some (f, t));
  match o with
  | None => mret false
  | Some (f, t) =>
      n ← gets (λ s, node_at s f);
      if decide (f = t) then mret (is_some n)
      else
        b ← gets (λ s, (may_replace s f t && removable s f && removable s t && negb (bool_decide (f `prefix_of` t)))%bool);
        if b : bool then modify (λ s, s <| nodes := move_nodes f t (nodes s) |>);; mret true else mret false
  end.

(** * fs.h *)

Definition app_fs_is_directory (p : text) : M files bool := n ← stat p; mret (bool_decide (n = Some Directory)).
Definition app_fs_is_file (p : text) : M files bool := n ← stat p; mret (match n with Some (File _) => true | _ => false end).

Definition child_path (p name : text) : text := p ++ "/"%char :: name.

(** A [for] loop that ends when its body fails. *)
Fixpoint for_all {S A} (body : A → M S bool) (l : list A) : M S bool :=
  match l with [] => mret true | a :: l' => ok ← body a; if ok : bool then for_all body l' else mret false end.

Fixpoint app_fs_delete_recursively (fuel : nat) (p : text) : M files bool :=
  match fuel with
  | O => undef
  | S fuel =>
      if decide (p = [] ∨ p = $"/" ∨ p = $"." ∨ p = $"..") then mret true
      else
        st ← stat p;
        match st with
        | None => mret false
        | Some Directory =>
            dir ← opendir p;
            match dir with
            | None => mret false
            | Some entries =>
                success ← for_all (λ name, app_fs_delete_recursively fuel (child_path p name)) entries;
                if success : bool then rmdir p else mret false
            end
        | Some (File _) => unlink p
        end
  end.
(** Turns for the longest path. *)
Definition depth_of (s : files) : nat := foldr (λ x n, Nat.max (length x.1) n) 0%nat (map_to_list (nodes s)).
Definition delete_recursively (p : text) : M files bool := n ← gets depth_of; app_fs_delete_recursively (S n) p.

Fixpoint keep_directories (ps : list text) : M files (list text) :=
  match ps with
  | [] => mret []
  | p :: ps' => d ← app_fs_is_directory p; rest ← keep_directories ps'; mret (if d : bool then p :: rest else rest)
  end.
Definition app_fs_list_direct_subdirectories (p : text) : M files (list text) :=
  dir ← opendir p;
  match dir with
  | None => mret []
  | Some entries => keep_directories (child_path p <$> entries)
  end.

(** * Paths and directories of install.cpp *)

Definition last_path_segment (p : text) : text := default [] (last (pieces "/" p)).

(** [component] is the part since the last separator. *)
Fixpoint is_safe_from (component rest : text) : bool :=
  match rest with
  | [] => negb (bool_decide (component = $".."))
  | c :: rest' =>
      if decide (c = "/"%char) then
        if decide (component = $"..") then false else is_safe_from [] rest'
      else is_safe_from (component ++ [c]) rest'
  end.
Definition is_tar_entry_path_safe (p : text) : bool := (negb (bool_decide (p = [])) && is_safe_from [] p)%bool.

Definition ensure_directory (p : text) : M files bool :=
  d ← (if decide (p = []) then mret true else app_fs_is_directory p);
  if d : bool then mret true
  else
    created ← mkdir p;
    match created with Refused => mret false | _ => app_fs_is_directory p end.

(** Before every separator but the first character; [done] is what is before [rest]. *)
Fixpoint ensure_from (done rest : text) : M files bool :=
  match rest with
  | [] => ensure_directory done
  | c :: rest' =>
      if decide (c = "/"%char ∧ done ≠ []) then
        ok ← ensure_directory done; if ok : bool then ensure_from (done ++ [c]) rest' else mret false
      else ensure_from (done ++ [c]) rest'
  end.
Definition ensure_directory_recursive (p : text) : M files bool := ensure_from [] p.

(** [substr(0, find_last_of('/'))]. *)
Fixpoint parent_path (p : text) : text :=
  match p with
  | [] => []
  | c :: p' => if decide ("/"%char ∈ c :: p') then if decide ("/"%char ∈ p') then c :: parent_path p' else [] else c :: p'
  end.

(** * Archives (minitar is a library: what it reads from a file is a parameter) *)

Inductive minitar_type := MTAR_REGULAR | MTAR_DIRECTORY | MTAR_OTHER.
#[export] Instance minitar_type_eq_dec : EqDecision minitar_type.
Proof. solve_decision. Defined.
Record minitar_entry := { entry_path : text; entry_name : text; entry_type : minitar_type; entry_content : text }.

Section untar.
(** The entries of an archive with this content, if it is one. *)
Variable minitar_open : text → option (list minitar_entry).

Definition untar_file (e : minitar_entry) (destination_path : text) : M files bool :=
  let absolute_path := destination_path ++ "/"%char :: entry_path e in
  parent ← ensure_directory_recursive (parent_path absolute_path);
  if parent : bool then write_file absolute_path (entry_content e) else mret false.
Definition untar_directory (e : minitar_entry) (destination_path : text) : M files bool :=
  ensure_directory_recursive (destination_path ++ "/"%char :: entry_path e).

Definition untar_entry (destination_path : text) (e : minitar_entry) : M files bool :=
  if negb (is_tar_entry_path_safe (entry_path e)) then mret false
  else
    match entry_type e with
    | MTAR_DIRECTORY =>
        if decide (entry_name e = $"." ∨ entry_name e = $".." ∨ entry_name e = $"/") then mret true
        else untar_directory e destination_path
    | MTAR_REGULAR => untar_file e destination_path
    | MTAR_OTHER => mret false
    end.
Definition untar (tar_path destination_path : text) : M files bool :=
  content ← read_file tar_path;
  match content ≫= minitar_open with
  | None => mret false
  | Some entries => for_all (untar_entry destination_path) entries
  end.
End untar.
