(* ===== verification/FilesSpecs.v ===== *)
(** What app-module's file helpers do: extracting an archive changes nothing outside its
    destination, and deleting a directory ends, with nothing left of it if it succeeds and
    nothing else touched in any case. *)

From S2P Require Import Prelude Text Files.

Implicit Types (s : files) (p t : text) (q k r : path) (ns : list text).

(** * Paths *)

Lemma walk_app s q ns ns' : walk s q (ns ++ ns') = r ← walk s q ns; walk s r ns'.
Proof.
  revert q. induction ns as [|n ns IH]; intros q; [done|]. cbn [walk app]. destruct (is_dir s q); [|done].
  case_decide; [apply IH|]. case_decide; apply IH.
Qed.
Lemma resolve_child s p t : p ≠ [] → resolve s (p ++ "/"%char :: t) = r ← resolve s p; walk s r (pieces "/" t).
Proof.
  intros Hp. unfold resolve. rewrite decide_False by by destruct p. rewrite decide_False by done.
  by rewrite pieces_app, walk_app.
Qed.

(** Directories that stay directories. *)
Definition dirs_stay s s' : Prop := ∀ k, is_dir s k = true → is_dir s' k = true.
Lemma walk_stays s s' q ns r : dirs_stay s s' → walk s q ns = Some r → walk s' q ns = Some r.
Proof.
  intros Hd. revert q. induction ns as [|n ns IH]; intros q; [done|]. cbn [walk]. destruct (is_dir s q) eqn:E; [|done].
  rewrite (Hd _ E). case_decide; [apply IH|]. case_decide; apply IH.
Qed.

(** Without ".." a path stays below where it starts. *)
Lemma walk_below s q ns r : Forall (λ n, n ≠ $"..") ns → walk s q ns = Some r → q `prefix_of` r.
Proof.
  revert q. induction ns as [|n ns IH]; intros q Hn; cbn [walk]; [by intros [= ->]|]. apply Forall_cons in Hn as [Hn Hns].
  destruct (is_dir s q); [|done]. case_decide; [by apply IH|]. rewrite decide_False by done. intros Hw%IH; [|done].
  etrans; [|exact Hw]. by exists [n].
Qed.
Lemma walk_dir s q ns r : walk s q ns = Some r → ns ≠ [] → is_dir s q = true.
Proof. destruct ns; [done|]. cbn [walk]. by destruct (is_dir s q). Qed.

Lemma is_safe_from_spec component rest :
  "/"%char ∉ component → is_safe_from component rest = true ↔ Forall (λ n, n ≠ $"..") (pieces "/" (component ++ rest)).
Proof.
  revert component. induction rest as [|c rest IH]; intros component Hc; cbn [is_safe_from].
  - rewrite app_nil_r, pieces_one by done. rewrite Forall_singleton, negb_true_iff, bool_decide_eq_false. done.
  - case_decide as Ec.
    + subst c. rewrite pieces_app, pieces_one by done. rewrite Forall_app, Forall_singleton.
      case_decide; [naive_solver|]. rewrite IH by apply not_elem_of_nil. naive_solver.
    + rewrite IH, <-app_assoc; [done|]. rewrite elem_of_app, list_elem_of_singleton. intros [?| ?]; [done|by subst].
Qed.
(** A safe path is one without "..". *)
Lemma path_safe_spec p : is_tar_entry_path_safe p = true ↔ p ≠ [] ∧ Forall (λ n, n ≠ $"..") (pieces "/" p).
Proof.
  unfold is_tar_entry_path_safe. rewrite andb_true_iff, negb_true_iff, bool_decide_eq_false.
  by rewrite (is_safe_from_spec [] p (not_elem_of_nil _)).
Qed.

(** * Changes below a directory *)

(** Directories stay, and what is not below [q] is the same. *)
Definition grows q s s' : Prop := dirs_stay s s' ∧ ∀ k, ¬ q `prefix_of` k → nodes s' !! k = nodes s !! k.
#[export] Instance grows_preorder q : PreOrder (grows q).
Proof.
  split; [intros s; by split; [intros k|]|]. intros s1 s2 s3 [H1 H2] [H3 H4]. split; [intros k Hk; by apply H3, H1|].
  intros k Hk. by rewrite H4, H2.
Qed.

Lemma node_at_put s q n k : q ≠ [] → node_at (s <| nodes := <[q := n]> (nodes s) |>) k = if decide (k = q) then Some n else node_at s k.
Proof.
  intros Hq. unfold node_at. simpl. destruct (decide (k = [])) as [->|]; [by rewrite decide_False|].
  case_decide as Ek; [subst; by rewrite lookup_insert_eq|by rewrite lookup_insert_ne].
Qed.

Lemma grows_put q s r n :
  q `prefix_of` r → r ≠ [] → is_dir s r = false → grows q s (s <| nodes := <[r := n]> (nodes s) |>).
Proof.
  intros Hq Hr Hd. split.
  - intros k Hk. unfold is_dir in *. rewrite node_at_put by done. destruct (decide (k = r)); [subst; congruence|exact Hk].
  - intros k Hk. simpl. apply lookup_insert_ne. intros <-. by apply Hk.
Qed.

Lemma node_not_dir s q : node_at s q = None → q ≠ [] ∧ is_dir s q = false.
Proof.
  intros Hn. split; [intros ->; unfold node_at in Hn; by rewrite decide_True in Hn|]. unfold is_dir. by rewrite Hn.
Qed.

(** The paths whose node is below [q], if they have one. *)
Definition aims s q t : Prop := ∀ r, resolve s t = Some r → q `prefix_of` r.
Lemma grows_mkdir q s t : aims s q t → wp (mkdir t) (λ _ s', grows q s s') s.
Proof.
  intros Ha. unfold mkdir. apply wp_bind, wp_gets. destruct (resolve s t) as [r|] eqn:E; [|by apply wp_ret].
  apply wp_bind, wp_gets. destruct (node_at s r) eqn:En; [by apply wp_ret|]. cbn [is_some]. apply wp_bind, wp_gets.
  case_bool_decide; [by apply wp_ret|]. apply wp_bind, wp_modify, wp_ret. apply node_not_dir in En as [Hr Hd]. apply grows_put; [by apply Ha|done..].
Qed.
Lemma grows_write q s t content : aims s q t → wp (write_file t content) (λ _ s', grows q s s') s.
Proof.
  intros Ha. unfold write_file. apply wp_bind, wp_gets. destruct (resolve s t) as [r|] eqn:E; [|by apply wp_ret].
  apply wp_bind, wp_gets. destruct (_ && _)%bool eqn:Eb; [|by apply wp_ret]. bsimpl. apply wp_bind, wp_modify, wp_ret.
  apply grows_put; [by apply Ha| |done]. intros ->. unfold is_dir, node_at in H. by rewrite decide_True in H.
Qed.

Lemma wp_is_directory t (Q : bool → files → Prop) s :
  (∀ b, (b = true ↔ ∃ r, resolve s t = Some r ∧ is_dir s r = true) → Q b s) → wp (app_fs_is_directory t) Q s.
Proof.
  intros HQ. unfold app_fs_is_directory, stat. apply wp_bind, wp_gets, wp_ret, HQ. rewrite bool_decide_eq_true. unfold is_dir.
  destruct (resolve s t) as [r|]; simpl; [|naive_solver]. split; [intros E; exists r; by rewrite E, bool_decide_true|].
  intros (r' & [= <-] & Hr). by apply bool_decide_eq_true in Hr.
Qed.
Lemma keeps_is_directory t s : wp (app_fs_is_directory t) (λ _ s', s' = s) s.
Proof. by apply wp_is_directory. Qed.

Lemma grows_ensure_directory q s t :
  aims s q t ∨ (∃ r, resolve s t = Some r ∧ is_dir s r = true) → wp (ensure_directory t) (λ _ s', grows q s s') s.
Proof.
  intros Ht. unfold ensure_directory. destruct (decide (t = [])) as [->|Hne]; [by apply wp_bind, wp_ret, wp_ret|].
  apply wp_bind, wp_is_directory. intros [|] Hb; [by apply wp_ret|]. destruct Ht as [Ha|Hd]; [|by apply Hb in Hd].
  apply wp_bind. eapply wp_mono; [by apply grows_mkdir|]. intros [] s1 Hg; [| |by apply wp_ret];
    (eapply wp_mono; [apply keeps_is_directory|by intros ? ? ->]).
Qed.

(** * Extracting an archive *)

(** What is before a separator of a path, or all of it. *)
Definition stem t p : Prop := t = p ∨ ∃ u, p = t ++ "/"%char :: u.

Lemma ensure_from_each (P : files → files → Prop) `{!PreOrder P} (C : files → Prop) done rest s :
  (∀ t s, stem t (done ++ rest) → C s → wp (ensure_directory t) (λ _ s', P s s' ∧ C s') s) →
  C s → wp (ensure_from done rest) (λ _ s', P s s' ∧ C s') s.
Proof.
  revert done s. induction rest as [|c rest IH]; intros dn s He HC; cbn [ensure_from].
  - apply He; [left; by rewrite app_nil_r|done].
  - assert (∀ s, C s → wp (ensure_from (dn ++ [c]) rest) (λ _ s', P s s' ∧ C s') s) as Hrest.
    { intros s1 HC1. apply IH; [|done]. intros t s2 Ht. rewrite <-app_assoc in Ht. by apply He. }
    case_decide as Hc; [|by apply Hrest]. destruct Hc as [-> _]. apply wp_bind.
    eapply wp_mono; [apply He; [right; by exists rest|done]|]. intros [|] s1 [HP1 HC1]; [|by apply wp_ret].
    eapply wp_mono; [by apply Hrest|]. intros b s2 [HP2 HC2]. split; [by etrans|done].
Qed.

(** The stems of a path below [d] are stems of [d], [d] itself, or below it. *)
Lemma stem_below t d p : stem t (d ++ "/"%char :: p) → (∃ u, d = t ++ "/"%char :: u) ∨ t = d ∨ ∃ t', t = d ++ "/"%char :: t' ∧ stem t' p.
Proof.
  intros [->|[u Hu]]; [right; right; exists p; by split; [|left]|]. apply app_eq_inv in Hu as [(k & E1 & E2)|(k & E1 & E2)].
  - destruct k as [|c k]; [right; left; by rewrite app_nil_r in E1|]. injection E2 as <- E2. left. by exists k.
  - destruct k as [|c k]; [right; left; by rewrite app_nil_r in E1|]. injection E2 as <- E2. right. right.
    exists k. split; [done|]. right. by exists u.
Qed.

Lemma parent_path_stem p : "/"%char ∈ p → stem (parent_path p) p ∧ parent_path p ≠ p.
Proof.
  induction p as [|c p IH]; [by intros ?%not_elem_of_nil|]. intros Hin. cbn [parent_path]. rewrite decide_True by done.
  case_decide as Hp.
  - destruct (IH Hp) as [[E|[u Hu]] Hne]; [done|]. split; [right; exists u; by rewrite Hu at 1|]. congruence.
  - apply elem_of_cons in Hin as [<-|]; [|done]. split; [right; by exists p|done].
Qed.

Section inside.
(** The destination resolves to [q] all along. *)
Variables (d : text) (q : path).
Hypothesis Hd : d ≠ [].

Lemma aims_below s t : resolve s d = Some q → Forall (λ n, n ≠ $"..") (pieces "/" t) → aims s q (d ++ "/"%char :: t).
Proof. intros Hq Hn r. rewrite resolve_child by done. rewrite Hq. apply walk_below, Hn. Qed.

Lemma stem_plain t p : stem t p → Forall (λ n, n ≠ $"..") (pieces "/" p) → Forall (λ n, n ≠ $"..") (pieces "/" t).
Proof. intros [->|[u ->]]; [done|]. rewrite pieces_app. by intros [? _]%Forall_app. Qed.

Lemma grows_ensure_stem s t p :
  resolve s d = Some q → Forall (λ n, n ≠ $"..") (pieces "/" p) → stem t (d ++ "/"%char :: p) →
  wp (ensure_directory t) (λ _ s', grows q s s' ∧ resolve s' d = Some q) s.
Proof.
  intros Hq Hp Ht. assert (wp (ensure_directory t) (λ _ s', grows q s s') s) as Hg.
  - destruct (decide (t = [])) as [->|Hne]; [unfold ensure_directory; rewrite decide_True by done; by apply wp_bind, wp_ret, wp_ret|]. apply grows_ensure_directory.
    apply stem_below in Ht as [[u ->]|[->|(t' & -> & Ht)]].
    + right. rewrite resolve_child in Hq by done. destruct (resolve s t) as [r|] eqn:Er; [|done]. exists r. split; [done|].
      eapply walk_dir; [exact Hq|apply pieces_nonempty].
    + left. intros r Hr. rewrite Hq in Hr. by injection Hr as ->.
    + left. apply aims_below; [done|]. by eapply stem_plain.
  - eapply wp_mono; [exact Hg|]. intros b s' Hs. split; [exact Hs|]. unfold resolve in *. rewrite decide_False in * by done.
    by eapply walk_stays; [apply Hs|].
Qed.

Lemma grows_ensure_recursive s t p :
  resolve s d = Some q → Forall (λ n, n ≠ $"..") (pieces "/" p) → stem t (d ++ "/"%char :: p) →
  wp (ensure_directory_recursive t) (λ _ s', grows q s s' ∧ resolve s' d = Some q) s.
Proof.
  intros Hq Hp Ht. apply (ensure_from_each (grows q) (λ s, resolve s d = Some q)); [|done].
  intros u s1 Hu Hq1. apply (grows_ensure_stem s1 u p); [done..|]. simpl in Hu. destruct Ht as [->|[v Hv]]; [exact Hu|].
  rewrite Hv. destruct Hu as [->|[w ->]]; right; [by exists v|]. exists (w ++ "/"%char :: v). by rewrite <-app_assoc.
Qed.

Lemma grows_untar_entry s e :
  resolve s d = Some q → wp (untar_entry d e) (λ _ s', grows q s s' ∧ resolve s' d = Some q) s.
Proof.
  intros Hq. unfold untar_entry. destruct (is_tar_entry_path_safe (entry_path e)) eqn:Hs; cbn [negb]; [|by apply wp_ret].
  apply path_safe_spec in Hs as [Hne Hp]. destruct (entry_type e); [| |by apply wp_ret].
  - unfold untar_file. apply wp_bind. eapply wp_mono; [apply (grows_ensure_recursive s _ (entry_path e)); [done..|]|].
    { apply parent_path_stem. apply elem_of_app. right. by left. }
    intros [|] s1 [Hg Hq1]; [|by apply wp_ret]. eapply wp_mono; [apply (grows_write q); by apply aims_below|].
    intros b s2 Hg2. split; [by etrans|]. unfold resolve in *. rewrite decide_False in * by done. by eapply walk_stays; [apply Hg2|].
  - case_decide; [by apply wp_ret|]. apply (grows_ensure_recursive s _ (entry_path e)); [done..|by left].
Qed.
End inside.

Section untar.
Variable minitar_open : text → option (list minitar_entry).

Lemma grows_untar s tar d q :
  d ≠ [] → resolve s d = Some q → wp (untar minitar_open tar d) (λ _ s', grows q s s' ∧ resolve s' d = Some q) s.
Proof.
  intros Hd Hq. unfold untar, read_file, stat. apply wp_bind, wp_bind, wp_gets, wp_ret.
  destruct (_ ≫= minitar_open) as [es|]; [|by apply wp_ret].
  revert s Hq. induction es as [|e es IH]; intros s Hq; cbn [for_all]; [by apply wp_ret|]. apply wp_bind.
  eapply wp_mono; [by apply grows_untar_entry|]. intros [|] s1 [Hg Hq1]; [|by apply wp_ret].
  eapply wp_mono; [by apply IH|]. intros b s2 [Hg2 Hq2]. split; [by etrans|done].
Qed.

(** C17: whatever the entries of an archive - absolute paths, "..", empty names, paths that
    lead through files - extracting it runs to its end and creates, overwrites or removes
    nothing outside the directory it is extracted to. *)
Theorem untar_stays_inside s tar d q :
  d ≠ [] → resolve s d = Some q →
  wp (untar minitar_open tar d) (λ _ s', ∀ k, ¬ q `prefix_of` k → nodes s' !! k = nodes s !! k) s.
Proof. intros Hd Hq. eapply wp_mono; [by apply (grows_untar s tar d q)|]. by intros b s' [[_ Hs] _]. Qed.
End untar.

(** * Deleting a directory *)

(** ** Well-formed file systems *)

Definition good_name (n : text) : Prop := n ≠ [] ∧ n ≠ $"." ∧ n ≠ $".." ∧ "/"%char ∉ n.
#[export] Instance good_name_dec n : Decision (good_name n).
Proof. unfold good_name. apply _. Defined.
(** Every node is in a directory. *)
Definition files_ok s : Prop := ∀ q n, nodes s !! q = Some n → q ≠ [] ∧ Forall good_name q ∧ is_dir s (removelast q) = true.

Definition plain p : Prop := Forall (λ n, n ≠ $"..") (pieces "/" p).

Lemma removelast_prefix (l : path) : removelast l `prefix_of` l.
Proof.
  destruct (decide (l = [])) as [->|Hl]; [done|]. rewrite (app_removelast_last [] Hl) at 2. by apply prefix_app_r.
Qed.
Lemma removelast_snoc (l : path) n : removelast (l ++ [n]) = l.
Proof. by rewrite removelast_app, app_nil_r. Qed.

Lemma name_in_Some q k n : name_in q k = Some n → k = q ++ [n].
Proof. unfold name_in. case_decide as Hr; [|done]. intros [l ->]%last_Some. by rewrite removelast_snoc in Hr; subst. Qed.

Lemma in_names s q n : n ∈ names_in s q ↔ is_Some (nodes s !! (q ++ [n])).
Proof.
  unfold names_in. rewrite list_elem_of_omap. split.
  - intros ([k x] & Hk%elem_of_map_to_list & Hn%name_in_Some). simpl in Hn. subst k. by exists x.
  - intros [x Hx]. exists (q ++ [n], x). split; [by apply elem_of_map_to_list|]. unfold name_in. simpl.
    rewrite removelast_snoc, decide_True by done. by rewrite last_snoc.
Qed.

Lemma NoDup_names s q : NoDup (names_in s q).
Proof.
  unfold names_in. pose proof (NoDup_fst_map_to_list (nodes s)) as Hn. induction (map_to_list (nodes s)) as [|[k x] l IH]; simpl; [constructor|].
  apply NoDup_cons in Hn as [Hk Hn]. destruct (name_in q k) as [n|] eqn:E; [|by apply IH]. apply NoDup_cons. split; [|by apply IH].
  intros ([k' y] & Hin & E')%list_elem_of_omap. apply name_in_Some in E, E'. simpl in E'. subst k k'. apply Hk, list_elem_of_fmap. by exists (q ++ [n], y).
Qed.

(** What is below a node is below one of its children. *)
Lemma child_of s q n l : files_ok s → is_Some (nodes s !! (q ++ n :: l)) → is_Some (nodes s !! (q ++ [n])).
Proof.
  intros Hok. induction l as [|m l IH] using rev_ind; [done|]. intros [x Hx]. destruct (Hok _ _ Hx) as (_ & _ & Hd).
  rewrite app_comm_cons, app_assoc, removelast_snoc in Hd. apply bool_decide_eq_true in Hd. unfold node_at in Hd.
  apply IH. case_decide as E; [by destruct q|]. by eexists.
Qed.

(** Nothing is added, and nothing that is not below [q] changes. *)
Definition shrinks q s s' : Prop :=
  nodes s' ⊆ nodes s ∧ denied s' = denied s ∧ (∀ k, ¬ q `prefix_of` k → nodes s' !! k = nodes s !! k) ∧ files_ok s'.

Lemma shrinks_refl q s : files_ok s → shrinks q s s.
Proof. by split. Qed.
Lemma shrinks_trans q s1 s2 s3 : shrinks q s1 s2 → shrinks q s2 s3 → shrinks q s1 s3.
Proof. intros (A1 & A2 & A3 & A4) (B1 & B2 & B3 & B4). split; [by etrans|]. split; [congruence|]. split; [|done]. intros k Hk. by rewrite B3, A3. Qed.
Lemma shrinks_below q q' s s' : q `prefix_of` q' → shrinks q' s s' → shrinks q s s'.
Proof. intros Hq (A1 & A2 & A3 & A4). split; [done|]. split; [done|]. split; [|done]. intros k Hk. apply A3. intros Hk'. apply Hk. by etrans. Qed.

(** Removing a node without children. *)
Lemma shrinks_drop s q :
  files_ok s → names_in s q = [] → shrinks q s (s <| nodes := delete q (nodes s) |>).
Proof.
  intros Hok Hn. assert (∀ k, nodes (s <| nodes := delete q (nodes s) |>) !! k = delete q (nodes s) !! k) as E by done.
  split; [apply delete_subseteq|]. split; [done|]. split.
  - intros k Hk. rewrite E. apply lookup_delete_ne. by intros ->.
  - intros k x. rewrite E. intros [Hkq Hx]%lookup_delete_Some. destruct (Hok _ _ Hx) as (H1 & H2 & H3). split; [done|]. split; [done|].
    apply bool_decide_eq_true in H3. unfold is_dir. rewrite bool_decide_eq_true. unfold node_at in *. case_decide; [done|].
    rewrite E, lookup_delete_ne; [done|]. intros Hq. destruct k as [|n k _] using rev_ind; [done|]. rewrite removelast_snoc in Hq. subst k.
    assert (n ∈ names_in s q) as Hin by (apply in_names; by exists x). rewrite Hn in Hin. by apply not_elem_of_nil in Hin.
Qed.

(** ** What a path without ".." resolves to *)

Lemma walk_plain_stable s s' q ns r :
  Forall (λ n, n ≠ $"..") ns → walk s q ns = Some r → (∀ k, k `prefix_of` r → is_dir s k = true → is_dir s' k = true) →
  walk s' q ns = Some r.
Proof.
  intros Hn. revert q. induction Hn as [|n ns Hn Hns IH]; intros q; [done|]. intros Hw Hk.
  assert (q `prefix_of` r) as Hq by (eapply walk_below; [by constructor|exact Hw]). cbn [walk] in *.
  destruct (is_dir s q) eqn:Ed; [|done]. rewrite (Hk _ Hq Ed). case_decide; [by apply IH|]. rewrite decide_False in * by done. by apply IH.
Qed.
Lemma walk_good s q ns r : Forall (λ n, "/"%char ∉ n) ns → Forall good_name q → files_ok s → walk s q ns = Some r → Forall good_name r.
Proof.
  intros Hn Hq Hok. revert q Hq. induction Hn as [|n ns Hn Hns IH]; intros q Hq; cbn [walk]; [by intros [= <-]|]. destruct (is_dir s q); [|done].
  case_decide as E1; [by apply IH|]. case_decide as E2; apply IH.
  - destruct q as [|m q _] using rev_ind; [done|]. rewrite removelast_snoc. by apply Forall_app in Hq as [Hq _].
  - apply Forall_app. split; [done|]. repeat constructor; naive_solver.
Qed.

Lemma resolve_name s p q n : p ≠ [] → resolve s p = Some q → is_dir s q = true → good_name n → resolve s (child_path p n) = Some (q ++ [n]).
Proof.
  intros Hp Hq Hd (H1 & H2 & H3 & H4). unfold child_path. rewrite resolve_child by done. rewrite Hq. simpl. rewrite pieces_one by done. cbn [walk].
  rewrite Hd, !decide_False; naive_solver.
Qed.
Lemma plain_child p n : plain p → good_name n → plain (child_path p n).
Proof. intros Hp (_ & _ & H3 & H4). unfold plain, child_path. rewrite pieces_app, (pieces_one _ n) by done. apply Forall_app. by split; [|constructor]. Qed.

(** ** The recursion *)

Definition special p : Prop := p = [] ∨ p = $"/" ∨ p = $"." ∨ p = $"..".
Lemma child_not_special p n : p ≠ [] → good_name n → ¬ special (child_path p n).
Proof.
  intros Hp (Hn & _) Hs. destruct p as [|c p]; [done|]. assert (3 ≤ length (child_path (c :: p) n))%nat.
  { unfold child_path. simpl. rewrite length_app. simpl. destruct n; [done|]. simpl. lia. }
  destruct Hs as [E|[E|[E|E]]]; rewrite E in *; simpl in *; lia.
Qed.

(** Turns enough for what is below [q]. *)
Definition deep_enough (fuel : nat) s q : Prop := ∀ k, is_Some (nodes s !! k) → q `prefix_of` k → (length k < length q + fuel)%nat.
Lemma deep_enough_shrinks fuel s s' q : nodes s' ⊆ nodes s → deep_enough fuel s q → deep_enough fuel s' q.
Proof. intros Hs Hd k [x Hx]. apply Hd. exists x. by eapply lookup_weaken. Qed.

Definition emptied q s : Prop := ∀ k, q `prefix_of` k → nodes s !! k = None.
(** Something below [q] is the root or may not be removed. *)
Definition protected q s : Prop := q = [] ∨ ∃ k, q `prefix_of` k ∧ k ∈ denied s.
Definition deletes (m : M files bool) q s : Prop :=
  wp m (λ ok s', shrinks q s s' ∧ if ok : bool then emptied q s' else protected q s) s.

Lemma not_removable s q : removable s q = false → protected q s.
Proof.
  unfold removable. intros [E|E]%andb_false_iff; rewrite bool_decide_eq_false in E; [left|right; exists q; split; [done|]]; by apply dec_stable.
Qed.
Lemma emptied_names q s : (∀ n, n ∈ names_in s q → emptied (q ++ [n]) s) → names_in s q = [].
Proof.
  intros He. destruct (names_in s q) as [|n l] eqn:E; [done|]. exfalso. assert (n ∈ names_in s q) as Hn by (rewrite E; by left).
  pose proof (He n ltac:(by left) (q ++ [n]) (reflexivity _)) as Hx. apply in_names in Hn as [x Hn]. congruence.
Qed.

Lemma deletes_unlink s p q content :
  files_ok s → resolve s p = Some q → node_at s q = Some (File content) → deletes (unlink p) q s.
Proof.
  intros Hok Hq Hn. assert (q ≠ [] ∧ nodes s !! q = Some (File content)) as [Hne Hl] by (unfold node_at in Hn; by case_decide).
  assert (∀ k, q `prefix_of` k → k ≠ q → nodes s !! k = None) as Hleaf.
  { intros k [l ->] Hl'. destruct l as [|n l]; [by rewrite app_nil_r in Hl'|]. apply eq_None_not_Some. intros [x Hx]%child_of; [|done].
    destruct (Hok _ _ Hx) as (_ & _ & Hd). rewrite removelast_snoc in Hd. apply bool_decide_eq_true in Hd. congruence. }
  unfold deletes, unlink. apply wp_bind, wp_gets. rewrite Hq. apply wp_bind, wp_gets. rewrite Hn.
  destruct (removable s q) eqn:Er; [|apply wp_ret; split; [by apply shrinks_refl|by apply not_removable]]. apply wp_bind, wp_modify, wp_ret. split.
  - apply shrinks_drop; [done|]. destruct (names_in s q) as [|n l] eqn:E; [done|]. exfalso.
    assert (is_Some (nodes s !! (q ++ [n]))) as [x Hx] by (apply in_names; rewrite E; by left). rewrite Hleaf in Hx; [done|by apply prefix_app_r|].
    intros E'. apply (f_equal length) in E'. rewrite length_app in E'. simpl in E'. lia.
  - intros k Hk. simpl. destruct (decide (k = q)) as [->|]; [apply lookup_delete_eq|]. rewrite lookup_delete_ne by done. by apply Hleaf.
Qed.

Lemma deletes_rmdir s p q :
  files_ok s → resolve s p = Some q → is_dir s q = true → names_in s q = [] → deletes (rmdir p) q s.
Proof.
  intros Hok Hq Hd Hn. unfold deletes, rmdir. apply wp_bind, wp_gets. rewrite Hq. apply wp_bind, wp_gets.
  rewrite Hd, Hn, (bool_decide_true ([] = [])) by done. rewrite andb_true_r. simpl.
  destruct (removable s q) eqn:Er; [|apply wp_ret; split; [by apply shrinks_refl|by apply not_removable]]. apply wp_bind, wp_modify, wp_ret.
  split; [by apply shrinks_drop|]. intros k [l ->]. simpl. destruct l as [|n l]; [by rewrite app_nil_r, lookup_delete_eq|].
  rewrite lookup_delete_ne by (intros E%(f_equal length); rewrite length_app in E; simpl in E; lia). apply eq_None_not_Some. intros Hx%child_of; [|done].
  apply in_names in Hx. rewrite Hn in Hx. by apply not_elem_of_nil in Hx.
Qed.

(** Changes below a child leave the directory and the way to it. *)
Lemma way_stays s s' p q n :
  plain p → shrinks (q ++ [n]) s s' → resolve s p = Some q → resolve s' p = Some q ∧ (is_dir s q = true → is_dir s' q = true).
Proof.
  intros Hp (_ & _ & Hs & _) Hq. assert (∀ k, k `prefix_of` q → is_dir s k = true → is_dir s' k = true) as Hk.
  { intros k Hk. unfold is_dir, node_at. rewrite Hs; [done|]. intros [l E]. destruct Hk as [l' E']. rewrite E' in E.
    apply (f_equal length) in E. rewrite !length_app in E. simpl in E. lia. }
  split; [|by apply Hk]. unfold resolve in *. destruct (decide (p = [])); [done|]. by eapply walk_plain_stable.
Qed.

Section recursion.
Variable fuel : nat.
Hypothesis IH : ∀ s p q,
  files_ok s → plain p → ¬ special p → resolve s p = Some q → q ≠ [] → is_Some (node_at s q) → deep_enough fuel s q → deletes (app_fs_delete_recursively fuel p) q s.

Lemma deletes_children s p q l :
  files_ok s → plain p → ¬ special p → resolve s p = Some q → is_dir s q = true →
  NoDup l → (∀ n, n ∈ l → is_Some (nodes s !! (q ++ [n])) ∧ deep_enough fuel s (q ++ [n])) →
  wp (for_all (λ n, app_fs_delete_recursively fuel (child_path p n)) l)
    (λ ok s', shrinks q s s' ∧ resolve s' p = Some q ∧ is_dir s' q = true ∧ if ok : bool then ∀ n, n ∈ l → emptied (q ++ [n]) s' else protected q s) s.
Proof.
  intros Hok Hp Hsp. revert s Hok. induction l as [|n l IHl]; intros s Hok Hq Hd Hnd Hl; cbn [for_all].
  { apply wp_ret. split; [by apply shrinks_refl|]. split_and!; [done..|]. by intros n ?%not_elem_of_nil. }
  destruct (Hl n) as [Hex Hdeep]; [by left|]. apply NoDup_cons in Hnd as [Hnl Hnd].
  assert (good_name n) as Hn by (destruct Hex as [x (_ & Hg & _)%Hok]; by apply Forall_app in Hg as [_ [Hg _]%Forall_cons]). assert (p ≠ []) as Hne by (intros ->; apply Hsp; by left).
  apply wp_bind. eapply wp_mono; [apply (IH s _ (q ++ [n])); [done|by apply plain_child|by apply child_not_special|by apply resolve_name|by destruct q| |done]|].
  { unfold node_at. by rewrite decide_False by by destruct q. }
  cbn beta. intros ok s1 [Hs1 Hrest]. destruct (way_stays _ _ p q n Hp Hs1 Hq) as [Hq1 Hd1]. specialize (Hd1 Hd).
  assert (shrinks q s s1) as Hs1' by (eapply shrinks_below; [|exact Hs1]; by apply prefix_app_r).
  destruct ok.
  - eapply wp_mono; [apply IHl; [apply Hs1|done..|]|].
    { intros m Hm. destruct (Hl m) as [? ?]; [by right|]. split; [|eapply deep_enough_shrinks; [apply Hs1|done]].
      destruct Hs1 as (_ & _ & -> & _); [done|]. intros [l' E]. rewrite <-app_assoc in E. apply app_inv_head in E. injection E as -> _. done. }
    cbn beta. intros ok s2 (Hs2 & Hq2 & Hd2 & Hr). split; [by eapply shrinks_trans|]. split_and!; [done..|]. destruct ok.
    + intros m [->|Hm]%elem_of_cons; [|by apply Hr]. intros k Hk. apply eq_None_not_Some. intros [x Hx].
      eapply lookup_weaken in Hx; [|apply Hs2]. by rewrite (Hrest _ Hk) in Hx.
    + destruct Hr as [?|(k & Hk & Hin)]; [by left|right]. exists k. split; [done|]. destruct Hs1 as (_ & <- & _). done.
  - apply wp_ret. split_and!; [done..|]. right. destruct Hrest as [E|(k & Hk & Hin)]; [by destruct q|]. exists k. split; [|done].
    etrans; [|exact Hk]. by apply prefix_app_r.
Qed.
End recursion.

Lemma deletes_recursively fuel s p q :
  files_ok s → plain p → ¬ special p → resolve s p = Some q → (q = [] → 1 ≤ fuel)%nat → is_Some (node_at s q) → deep_enough fuel s q →
  deletes (app_fs_delete_recursively fuel p) q s.
Proof.
  revert s p q. induction fuel as [|fuel IH]; intros s p q Hok Hp Hsp Hq Hf [x Hx] Hdeep.
  { unfold node_at in Hx. case_decide as E; [specialize (Hf E); lia|]. specialize (Hdeep q). rewrite Nat.add_0_r in Hdeep.
    destruct (Nat.lt_irrefl (length q)). apply Hdeep; [by exists x|done]. }
  unfold deletes. cbn [app_fs_delete_recursively]. rewrite decide_False by done. apply wp_bind, wp_gets. rewrite Hq. simpl. rewrite Hx.
  destruct x as [|content]; [|by apply deletes_unlink with content].
  assert (is_dir s q = true) as Hd by by apply bool_decide_eq_true.
  apply wp_bind, wp_gets. rewrite Hq. simpl. rewrite Hd. apply wp_bind. eapply wp_mono; [apply (deletes_children fuel); [|done..|apply NoDup_names|]|].
  - intros s1 p1 q1 ? ? ? ? ? ? ?. by apply IH.
  - intros n Hn%in_names. split; [done|]. intros k Hk Hqk. rewrite length_app. simpl. specialize (Hdeep k Hk).
    assert (q `prefix_of` k) as Hqk' by (etrans; [|exact Hqk]; by apply prefix_app_r). specialize (Hdeep Hqk'). lia.
  - cbn beta. intros [|] s1 (Hs1 & Hq1 & Hd1 & Hr); [|by apply wp_ret].
    eapply wp_mono; [apply deletes_rmdir; [apply Hs1|done..|]|].
    { apply emptied_names. intros n [x Hn]%in_names. apply Hr, in_names. exists x. eapply lookup_weaken; [exact Hn|apply Hs1]. }
    cbn beta. intros ok s2 [Hs2 Hr2]. split; [by eapply shrinks_trans|]. destruct ok; [done|]. unfold protected in *. destruct Hs1 as (_ & <- & _). done.
Qed.

Lemma depth_of_enough s q : deep_enough (S (depth_of s)) s q.
Proof.
  intros k [x Hx%elem_of_map_to_list] _. unfold depth_of. assert (length k ≤ foldr (λ x n, Nat.max (length x.1) n) 0 (map_to_list (nodes s)))%nat; [|lia].
  induction (map_to_list (nodes s)) as [|y l IH]; [by apply not_elem_of_nil in Hx|]. apply elem_of_cons in Hx as [<-|Hx]; simpl; [lia|].
  specialize (IH Hx). lia.
Qed.

(** C16: deleting a path recursively comes to its end.  For a file or a directory it changes
    nothing outside what is in it, adds nothing, and leaves a well-formed file system; if it
    returns true nothing is left of it, and it returns false only if it is the root or
    something in it may not be removed (the path has no ".." in it).  A path with nothing there answers false, and the paths "",
    "/", "." and ".." answer true, and nothing changes.  File systems have no symbolic
    links, as on the device. *)
Theorem delete_recursively_correct s p :
  files_ok s → special p ∨ plain p →
  wp (delete_recursively p) (λ ok s',
    (special p → ok = true ∧ s' = s) ∧
    (¬ special p → (q ← resolve s p; node_at s q) = None → ok = false ∧ s' = s) ∧
    ∀ q, ¬ special p → resolve s p = Some q → is_Some (node_at s q) →
      files_ok s' ∧ nodes s' ⊆ nodes s ∧ (∀ k, ¬ q `prefix_of` k → nodes s' !! k = nodes s !! k) ∧
      if ok : bool then emptied q s' else protected q s) s.
Proof.
  intros Hok Hsp. apply wp_bind, wp_gets. destruct (decide (special p)) as [Hs|Hs].
  { cbn [app_fs_delete_recursively]. rewrite decide_True by done. by apply wp_ret. }
  destruct Hsp as [|Hp]; [done|]. destruct (q ← resolve s p; node_at s q) as [x|] eqn:Ex.
  - apply bind_Some in Ex as (q & Hq & Hx). eapply wp_mono; [apply (deletes_recursively (S (depth_of s)) s p q); [done..| |by exists x|apply depth_of_enough]|]; [lia|].
    intros ok s' [(H1 & _ & H3 & H4) Hr]. split_and!; [done..|]. intros q' _ Hq' _. assert (q' = q) as -> by congruence. done.
  - cbn [app_fs_delete_recursively]. rewrite decide_False by done. apply wp_bind, wp_gets. rewrite Ex. apply wp_ret. split_and!; [done..|].
    intros q _ Hq [x Hx]. rewrite Hq in Ex. simpl in Ex. congruence.
Qed.

(** * Every operation keeps the file system well-formed *)

(** Where a new node may be. *)
Definition place s q : Prop := Forall good_name q ∧ (q ≠ [] → is_dir s (removelast q) = true).

Lemma dir_place s q : files_ok s → is_dir s q = true → q ≠ [] → is_dir s (removelast q) = true.
Proof.
  intros Hok Hd Hq. apply bool_decide_eq_true in Hd. unfold node_at in Hd. rewrite decide_False in Hd by done. by destruct (Hok _ _ Hd) as (_ & _ & ?).
Qed.
Lemma walk_place s q ns r : files_ok s → Forall (λ n, "/"%char ∉ n) ns → place s q → walk s q ns = Some r → place s r.
Proof.
  intros Hok Hn. revert q. induction Hn as [|n ns Hn Hns IH]; intros q Hq; cbn [walk]; [by intros [= <-]|]. destruct (is_dir s q) eqn:Hd; [|done].
  destruct Hq as [Hg Hq]. case_decide as E1; [by apply IH|]. case_decide as E2; apply IH; split.
  - destruct q as [|m q _] using rev_ind; [done|]. rewrite removelast_snoc. by apply Forall_app in Hg as [Hg _].
  - intros Hne. apply dir_place; [done| |done]. apply Hq. by intros ->.
  - apply Forall_app. split; [done|]. repeat constructor; naive_solver.
  - intros _. by rewrite removelast_snoc.
Qed.
Lemma resolve_place s p q : files_ok s → resolve s p = Some q → place s q.
Proof. intros Hok. unfold resolve. case_decide; [done|]. apply walk_place; [done|apply pieces_notin|by split]. Qed.

Lemma files_ok_put s q n : files_ok s → place s q → q ≠ [] → is_dir s q = false → files_ok (s <| nodes := <[q := n]> (nodes s) |>).
Proof.
  intros Hok [Hg Hp] Hq Hd k x. simpl. assert (∀ k, is_dir s k = true → is_dir (s <| nodes := <[q := n]> (nodes s) |>) k = true) as Hs.
  { intros k' Hk. unfold is_dir in *. rewrite node_at_put by done. destruct (decide (k' = q)); [subst; congruence|exact Hk]. }
  destruct (decide (k = q)) as [->|Hne]; [intros _; split_and!; [done..|]; by apply Hs, Hp|]. rewrite lookup_insert_ne by done.
  intros (H1 & H2 & H3)%Hok. split_and!; [done..|]. by apply Hs.
Qed.

Abbreviation keeps_ok m := (∀ s, files_ok s → wp m (λ _ s', files_ok s') s).
Lemma ok_mkdir p : keeps_ok (mkdir p).
Proof.
  intros s Hok. unfold mkdir. apply wp_bind, wp_gets. destruct (resolve s p) as [q|] eqn:E; [|by apply wp_ret].
  apply wp_bind, wp_gets. destruct (node_at s q) eqn:En; [by apply wp_ret|]. cbn [is_some]. apply wp_bind, wp_gets.
  case_bool_decide; [by apply wp_ret|]. apply wp_bind, wp_modify, wp_ret. apply node_not_dir in En as [Hr Hd]. apply files_ok_put; [done|by eapply resolve_place|done..].
Qed.
Lemma ok_write p content : keeps_ok (write_file p content).
Proof.
  intros s Hok. unfold write_file. apply wp_bind, wp_gets. destruct (resolve s p) as [q|] eqn:E; [|by apply wp_ret].
  apply wp_bind, wp_gets. destruct (_ && _)%bool eqn:Eb; [|by apply wp_ret]. bsimpl. apply wp_bind, wp_modify, wp_ret.
  apply files_ok_put; [done|by eapply resolve_place| |done]. intros ->. unfold is_dir, node_at in *. by rewrite decide_True in *.
Qed.
Lemma ok_is_directory p : keeps_ok (app_fs_is_directory p).
Proof. intros s Hok. eapply wp_mono; [apply keeps_is_directory|]. by intros b s' ->. Qed.
Lemma ok_ensure_directory p : keeps_ok (ensure_directory p).
Proof.
  intros s Hok. unfold ensure_directory. apply wp_bind.
  assert (wp (if decide (p = []) then mret true else app_fs_is_directory p) (λ _ s', s' = s) s) as Hd.
  { case_decide; [by apply wp_ret|apply keeps_is_directory]. }
  eapply wp_mono; [exact Hd|]. intros [|] s' ->; [by apply wp_ret|]. apply wp_bind. eapply wp_mono; [by apply ok_mkdir|].
  intros [] s1 Hs1; [by apply ok_is_directory..|by apply wp_ret].
Qed.
Lemma ok_ensure_recursive p : keeps_ok (ensure_directory_recursive p).
Proof.
  intros s Hok. assert (PreOrder (λ _ _ : files, True)) by by split.
  eapply wp_mono; [apply (ensure_from_each (λ _ _, True) files_ok); [|done]|by intros b s' [_ ?]].
  intros t s1 _ Hs1. eapply wp_mono; [by apply ok_ensure_directory|]. done.
Qed.
Lemma ok_for_all {A} (body : A → M files bool) l : (∀ a, keeps_ok (body a)) → keeps_ok (for_all body l).
Proof.
  intros Hb. induction l as [|a l IH]; intros s Hok; cbn [for_all]; [by apply wp_ret|]. apply wp_bind. eapply wp_mono; [by apply Hb|].
  intros [|] s1 Hs1; [by apply IH|by apply wp_ret].
Qed.
Lemma ok_untar open tar d : keeps_ok (untar open tar d).
Proof.
  intros s Hok. unfold untar, read_file, stat. apply wp_bind, wp_bind, wp_gets, wp_ret. destruct (_ ≫= open) as [es|]; [|by apply wp_ret].
  apply ok_for_all; [|done]. clear s Hok. intros e s Hok. unfold untar_entry. destruct (negb _); [by apply wp_ret|].
  destruct (entry_type e); [| |by apply wp_ret].
  - unfold untar_file. apply wp_bind. eapply wp_mono; [by apply ok_ensure_recursive|]. intros [|] s1 Hs1; [by apply ok_write|by apply wp_ret].
  - case_decide; [by apply wp_ret|]. by apply ok_ensure_recursive.
Qed.
(** ** Moving *)

Lemma moved_other from to k : ¬ from `prefix_of` k → moved from to k = k.
Proof. intros Hk. unfold moved. by rewrite decide_False. Qed.
Lemma moved_below from to l : moved from to (from ++ l) = to ++ l.
Proof. unfold moved. rewrite decide_True by by exists l. by rewrite drop_app_length. Qed.

Section rename.
Variables (s : files) (from to : path).
Hypothesis Hok : files_ok s.
Hypothesis Hto : ∀ k, to `prefix_of` k → k ≠ to → nodes s !! k = None.
Hypothesis Hapart : ¬ from `prefix_of` to.
Let m := move_nodes from to (nodes s).

Lemma moved_inj k k' :
  is_Some (delete to (nodes s) !! k) → is_Some (delete to (nodes s) !! k') → moved from to k = moved from to k' → k = k'.
Proof.
  assert (∀ k k', from `prefix_of` k → ¬ from `prefix_of` k' → is_Some (delete to (nodes s) !! k') → moved from to k = moved from to k' → False) as Hx.
  { intros k1 k2 [l ->] H2 [x [Hne Hk]%lookup_delete_Some] E. rewrite moved_below, moved_other in E by done. subst k2. rewrite Hto in Hk; [done|by apply prefix_app_r|done]. }
  intros Hk Hk' E. destruct (decide (from `prefix_of` k)) as [H1|H1], (decide (from `prefix_of` k')) as [H2|H2].
  - destruct H1 as [l ->], H2 as [l' ->]. rewrite !moved_below in E. apply app_inv_head in E. by subst.
  - by destruct (Hx k k').
  - by destruct (Hx k' k).
  - by rewrite !moved_other in E by done.
Qed.

Lemma moved_lookup k x : m !! k = Some x ↔ ∃ k0, k = moved from to k0 ∧ k0 ≠ to ∧ nodes s !! k0 = Some x.
Proof.
  unfold m, move_nodes. rewrite <-elem_of_list_to_map.
  - rewrite list_elem_of_fmap. split.
    + intros ([k0 y] & [= -> ->] & Hin%elem_of_map_to_list). apply lookup_delete_Some in Hin as [??]. by exists k0.
    + intros (k0 & -> & Hne & Hx). exists (k0, x). split; [done|]. apply elem_of_map_to_list. by rewrite lookup_delete_ne.
  - assert (∀ x, x ∈ map_to_list (delete to (nodes s)) → is_Some (delete to (nodes s) !! x.1)) as Hin.
    { intros [k1 y] Hy%elem_of_map_to_list. by exists y. }
    rewrite <-list_fmap_compose. apply NoDup_fmap_2_strong; [|apply NoDup_map_to_list].
    intros [k1 x1] [k2 x2] H1 H2 E. simpl in E. apply moved_inj in E; [|by apply (Hin (k1, x1))|by apply (Hin (k2, x2))]. subst k2.
    apply elem_of_map_to_list in H1, H2. rewrite H1 in H2. by injection H2 as ->.
Qed.

(** A directory is one where it is afterwards. *)
Lemma moved_dir k : k ≠ to → is_dir s k = true → is_dir (s <| nodes := m |>) (moved from to k) = true.
Proof.
  intros Hk Hd. apply bool_decide_eq_true in Hd. unfold is_dir. rewrite bool_decide_eq_true. unfold node_at in *.
  destruct (decide (moved from to k = [])) as [|E1]; [done|]. simpl. apply moved_lookup. exists k. split; [done|]. split; [done|].
  case_decide; [|done]. subst k. destruct E1. rewrite moved_other; [done|]. intros ->%prefix_nil_inv. apply Hapart, prefix_nil.
Qed.

Lemma files_ok_move : place s to → to ≠ [] → from ≠ [] → files_ok (s <| nodes := m |>).
Proof.
  intros [Hg Hp] Hne Hfrom k x. simpl. intros (k0 & -> & Hk0 & Hx)%moved_lookup. destruct (Hok _ _ Hx) as (H1 & H2 & H3).
  destruct (decide (from `prefix_of` k0)) as [[l ->]|Hb].
  - rewrite moved_below. split; [by destruct to|]. apply Forall_app in H2 as [_ H2]. split; [by apply Forall_app|].
    destruct l as [|n l _] using rev_ind.
    + rewrite app_nil_r. rewrite <-(moved_other from to (removelast to)); [apply moved_dir; [|by apply Hp]|].
      * intros E. destruct to as [|n l _] using rev_ind; [done|]. rewrite removelast_snoc in E. apply (f_equal length) in E. rewrite length_app in E. simpl in E. lia.
      * intros Hf. apply Hapart. etrans; [exact Hf|apply removelast_prefix].
    + rewrite !app_assoc, removelast_snoc in *. rewrite <-moved_below with (from := from). apply moved_dir; [|done].
      intros E. apply Hapart. rewrite <-E. by apply prefix_app_r.
  - rewrite moved_other by done. split; [done|]. split; [done|]. rewrite <-(moved_other from to (removelast k0)); [apply moved_dir; [|done]|].
    + intros E. rewrite Hto in Hx; [done| |done]. rewrite <-E. apply removelast_prefix.
    + intros Hf. apply Hb. etrans; [exact Hf|apply removelast_prefix].
Qed.
End rename.

(** Below what may be replaced there is nothing. *)
Lemma may_replace_leaf s (f t : path) k : files_ok s → may_replace s f t = true → t ≠ [] → t `prefix_of` k → k ≠ t → nodes s !! k = None.
Proof.
  intros Hok Hr Ht [l ->] Hne. destruct l as [|n l]; [by rewrite app_nil_r in Hne|]. apply eq_None_not_Some. intros [x Hx]%child_of; [|done].
  destruct (Hok _ _ Hx) as (_ & _ & Hd). rewrite removelast_snoc in Hd. apply bool_decide_eq_true in Hd. unfold may_replace in Hr.
  rewrite Hd in Hr. destruct (node_at s f) as [[]|]; [|done..]. apply bool_decide_eq_true in Hr.
  assert (n ∈ names_in s t) as Hin by (apply in_names; by exists x). rewrite Hr in Hin. by apply not_elem_of_nil in Hin.
Qed.

(** What is below the new path was below the old one. *)
Lemma move_below s (f t : path) l x : files_ok s → may_replace s f t = true → t ≠ [] → ¬ f `prefix_of` t →
  move_nodes f t (nodes s) !! (t ++ l) = Some x → nodes s !! (f ++ l) = Some x.
Proof.
  intros Hok Hr Ht Hft (k & E & Hk & Hx)%moved_lookup; [|by intros; eapply may_replace_leaf].
  destruct (decide (f `prefix_of` k)) as [[l' ->]|Hb]; [rewrite moved_below in E; apply app_inv_head in E; by subst|].
  rewrite moved_other in E by done. subst k. rewrite (may_replace_leaf s f t) in Hx; [done..|by apply prefix_app_r|done].
Qed.
Lemma resolve_walks s s' p q : (∀ k, k `prefix_of` q → is_dir s k = true → is_dir s' k = true) → plain p → resolve s p = Some q → resolve s' p = Some q.
Proof. unfold resolve. intros Hk Hp. case_decide; [done|]. intros Hw. by eapply walk_plain_stable. Qed.
Lemma resolve_subset s s' p q : nodes s' ⊆ nodes s → resolve s' p = Some q → resolve s p = Some q.
Proof.
  intros Hs. unfold resolve. case_decide; [done|]. apply walk_stays. intros k. unfold is_dir. rewrite !bool_decide_eq_true. unfold node_at.
  case_decide; [done|]. intros Hx. by eapply lookup_weaken.
Qed.

(** A directory that is renamed: the new path is what it was resolved to, and has only what
    the old one had. *)
Lemma rename_moves p p' s :
  files_ok s → plain p' → wp (rename p p') (λ ok s', files_ok s' ∧ (ok = true →
    ∃ f r, resolve s p = Some f ∧ is_Some (node_at s f) ∧ (is_dir s f = true → resolve s' p' = Some r) ∧
      ∀ l x, nodes s' !! (r ++ l) = Some x → nodes s !! (f ++ l) = Some x)) s.
Proof.
  intros Hok Hp. unfold rename. apply wp_bind, wp_gets. destruct (resolve s p) as [f|] eqn:Ef; [|by apply wp_ret].
  destruct (resolve s p') as [t|] eqn:Et; [|by apply wp_ret]. simpl. apply wp_bind, wp_gets. destruct (decide (f = t)) as [<-|Hft].
  { apply wp_ret. split; [done|]. destruct (node_at s f) eqn:En; [|done]. intros _. exists f, f. by rewrite En. }
  apply wp_bind, wp_gets. destruct (_ && _)%bool eqn:Eb; [|by apply wp_ret]. unfold removable in Eb. bsimpl. apply wp_bind, wp_modify, wp_ret.
  assert (∀ k, t `prefix_of` k → k ≠ t → nodes s !! k = None) as Hleaf by (intros k; by eapply may_replace_leaf).
  split; [by apply files_ok_move; [..|eapply resolve_place|done|done]|]. intros _. exists f, t. split; [done|]. split.
  { unfold may_replace in *. destruct (node_at s f); [done|]. by destruct (node_at s t). }
  split; [|by intros l x; apply move_below]. intros Hd. eapply resolve_walks; [|done|exact Et]. intros k Hk Hkd. destruct (decide (k = t)) as [->|].
  - assert (is_dir (s <| nodes := move_nodes f t (nodes s) |>) (moved f t f) = true) as Hm by by apply moved_dir.
    pose proof (moved_below f t []) as E. rewrite !app_nil_r in E. by rewrite E in Hm.
  - rewrite <-(moved_other f t k); [by apply moved_dir|]. intros Hf. match goal with H : ¬ f `prefix_of` t |- _ => apply H end. by etrans.
Qed.
Lemma ok_rename p p' : plain p' → keeps_ok (rename p p').
Proof. intros Hp s Hok. eapply wp_mono; [by apply rename_moves|]. by intros b s' [? _]. Qed.
(** Deleting adds nothing. *)
Lemma delete_subset p s : plain p → files_ok s → wp (delete_recursively p) (λ _ s', files_ok s' ∧ nodes s' ⊆ nodes s) s.
Proof.
  intros Hp Hok. unfold delete_recursively. apply wp_bind, wp_gets. destruct (decide (special p)) as [Hsp|Hsp].
  { cbn [app_fs_delete_recursively]. rewrite decide_True by done. by apply wp_ret. }
  destruct (q ← resolve s p; node_at s q) as [x|] eqn:Ex.
  - apply bind_Some in Ex as (q & Hq & Hx). eapply wp_mono; [apply deletes_recursively; [done..|lia|by eexists|apply depth_of_enough]|]. by intros ok s' [(? & _ & _ & ?) _].
  - cbn [app_fs_delete_recursively]. rewrite decide_False by done. apply wp_bind, wp_gets. rewrite Ex. by apply wp_ret.
Qed.
Lemma ok_delete p : plain p → keeps_ok (delete_recursively p).
Proof. intros Hp s Hok. eapply wp_mono; [by apply delete_subset|]. by intros b s' [? _]. Qed.

(** ** Listing *)

Lemma keep_directories_reads l s : wp (keep_directories l) (λ l' s', s' = s ∧ l' ⊆ l) s.
Proof.
  induction l as [|p l IH]; cbn [keep_directories]; [by apply wp_ret|]. apply wp_bind. eapply wp_mono; [apply keeps_is_directory|].
  intros d s' ->. apply wp_bind. eapply wp_mono; [exact IH|]. intros rest s' [-> Hl]. apply wp_ret. split; [done|]. destruct d; set_solver.
Qed.
Lemma list_subdirectories_reads p s :
  files_ok s → plain p → wp (app_fs_list_direct_subdirectories p) (λ l s', s' = s ∧ Forall plain l) s.
Proof.
  intros Hok Hp. unfold app_fs_list_direct_subdirectories, opendir. apply wp_bind, wp_gets. destruct (resolve s p) as [q|] eqn:Hq; simpl; [|by apply wp_ret].
  destruct (is_dir s q); [|by apply wp_ret]. eapply wp_mono; [apply keep_directories_reads|]. intros l s' [-> Hl]. split; [done|].
  apply Forall_forall. intros x (n & -> & [y Hn]%in_names)%Hl%list_elem_of_fmap. destruct (Hok _ _ Hn) as (_ & Hg & _).
  apply Forall_app in Hg as [_ [Hg _]%Forall_cons]. by apply plain_child.
Qed.

(** * A file system *)

Module FilesDemo.
Definition card : files :=
  Files (list_to_map [([$"data"], Directory); ([$"data"; $"app"], Directory); ([$"data"; $"app"; $"x"], Directory);
                      ([$"data"; $"app"; $"x"; $"a"], File ($"1")); ([$"data"; $"app"; $"x"; $"sub"], Directory);
                      ([$"data"; $"app"; $"x"; $"sub"; $"b"], File ($"2")); ([$"data"; $"app"; $"y"], Directory);
                      ([$"etc"], Directory); ([$"etc"; $"passwd"], File ($"root")); ([$"a.tar"], File ($"tar"))]) ∅.
(** An archive with a file in a directory of its own, and one that would be elsewhere. *)
Definition archive (content : text) : option (list minitar_entry) :=
  if decide (content = $"tar") then
    Some [{| entry_path := $"bin/a"; entry_name := $"a"; entry_type := MTAR_REGULAR; entry_content := $"new" |};
          {| entry_path := $"../../../etc/passwd"; entry_name := $"passwd"; entry_type := MTAR_REGULAR; entry_content := $"bad" |}]
  else None.
Lemma card_ok : files_ok card.
Proof.
  assert (Forall (λ x, x.1 ≠ [] ∧ Forall good_name x.1 ∧ is_dir card (removelast x.1) = true) (map_to_list (nodes card))) as Hall.
  { apply (bool_decide_unpack _). by vm_compute. }
  intros q n Hin%elem_of_map_to_list. rewrite Forall_forall in Hall. exact (Hall (q, n) Hin).
Qed.
End FilesDemo.
Import FilesDemo.

Lemma untar_stays_inside_witness :
  wp (untar archive ($"/a.tar") ($"/data/app/z")) (λ _ s', ∀ k, ¬ [$"data"; $"app"; $"z"] `prefix_of` k → nodes s' !! k = nodes card !! k) card ∧
  wp (untar archive ($"/a.tar") ($"/data/app/z")) (λ ok s', ok = false ∧ nodes s' !! [$"data"; $"app"; $"z"; $"bin"; $"a"] = Some (File ($"new"))) card.
Proof. split; [apply untar_stays_inside; [done|reflexivity]|vm_compute; by split]. Defined.

Lemma delete_recursively_correct_witness :
  wp (delete_recursively ($"/data/app/x")) (λ ok s', ok = true) card ∧
  wp (delete_recursively ($"/data/app/x")) (λ ok s',
    nodes s' ⊆ nodes card ∧ (∀ k, ¬ [$"data"; $"app"; $"x"] `prefix_of` k → nodes s' !! k = nodes card !! k) ∧
    if ok : bool then emptied [$"data"; $"app"; $"x"] s' else protected [$"data"; $"app"; $"x"] card) card ∧
  wp (delete_recursively ($"/data/app/z")) (λ ok s', ok = false ∧ s' = card) card.
Proof.
  split; [by vm_compute|]. split; (eapply wp_mono; [apply delete_recursively_correct; [exact card_ok|right; repeat constructor; discriminate]|]).
  - intros ok s' (_ & _ & H). apply (H [$"data"; $"app"; $"x"]); [by intros [E|[E|[E|E]]]|reflexivity|by eexists].
  - intros ok s' (_ & H & _). apply H; [by intros [E|[E|[E|E]]]|reflexivity].
Defined.
