(* ===== verification/Manifests.v ===== *)
(** Manifests of apps and packages, Modules/app-module: include/app/manifest.h,
    source/manifest.cpp, package_manifest_parsing.cpp with its versions 2 and 3, and
    package_compatibility.cpp. *)

From S2P Require Import Prelude Text.

(** * Data (manifest.h, location.h, package_manifest.h) *)

Inductive AppLocationType := APP_LOCATION_MEMORY | APP_LOCATION_PATH.
#[export] Instance AppLocationType_eq_dec : EqDecision AppLocationType.
Proof. solve_decision. Defined.
Record AppLocation := { location_type : AppLocationType; location_data : text }.
Record AppStackConfig := { depth : Z; desired_memory_capability : Z }.
#[export] Instance AppStackConfig_settable : Settable AppStackConfig :=
  constr Build_AppStackConfig <*> depth <*> desired_memory_capability.

Definition APP_MANIFEST_ID_LENGTH : nat := 32.
Definition APP_MANIFEST_NAME_LENGTH : nat := 32.
Definition APP_STACK_SIZE_MAX : Z := 65535.
Definition APP_CATEGORY_USER : Z := 2.
Definition APP_MANIFEST_FLAG_HIDDEN : Z := Z.shiftl 1 0.
Definition APP_MANIFEST_FLAG_HEADLESS : Z := Z.shiftl 1 1.
Definition APP_MANIFEST_FLAG_CLEANUP : Z := Z.shiftl 1 2.

(** The buffers of characters are the texts before their terminators. *)
Record AppManifest := {
  manifest_id : text;
  manifest_name : text;
  category : Z;
  manifest_location : AppLocation;
  manifest_flags : Z;
  manifest_stack : AppStackConfig;
}.
#[export] Instance AppManifest_settable : Settable AppManifest :=
  constr Build_AppManifest <*> manifest_id <*> manifest_name <*> category <*> manifest_location <*> manifest_flags <*> manifest_stack.
Definition no_location : AppLocation := {| location_type := APP_LOCATION_MEMORY; location_data := [] |}.

Definition PACKAGE_MANIFEST_TARGET_SDK_LENGTH : nat := 16.
Definition PACKAGE_MANIFEST_ID_LENGTH : nat := 32.
Definition PACKAGE_MANIFEST_VERSION_NAME_LENGTH : nat := 16.
Definition PACKAGE_MANIFEST_REQUIRES_DEVICE_ID_LENGTH : nat := 64.
Definition APP_MANIFEST_BINARY_LENGTH : nat := 31.
Definition PACKAGE_MANIFEST_MAX_APP_MANIFESTS : nat := 32.

Record PackageManifest := {
  package_id : text;
  version_name : text;
  version_code : Z;
  target_sdk : text;
  requires_device_id : text;
  requires_ram : Z;
  app_manifest_count : nat;
}.
Record AppManifestBinding := { binding_manifest : AppManifest; binary : text }.
Record AppPackageRecord := { package : PackageManifest; app_ids : list text }.

(** * Values (manifest.cpp, package_manifest_parsing.cpp) *)

Definition app_package_manifest_validate_string (is_valid_char : ascii → bool) (value : text) : bool := forallb is_valid_char value.
Definition is_one_of (cs : list ascii) (c : ascii) : bool := bool_decide (c ∈ cs).

Definition app_manifest_id_is_valid (id : text) : bool :=
  ((5 <=? length id)%nat && (length id <=? APP_MANIFEST_ID_LENGTH)%nat &&
   app_package_manifest_validate_string (λ c, isalnum c || is_one_of ["."%char] c) id)%bool.
Definition app_manifest_name_is_valid (name : text) : bool :=
  ((2 <=? length name)%nat && (length name <=? APP_MANIFEST_NAME_LENGTH)%nat &&
   app_package_manifest_validate_string (λ c, isalnum c || is_one_of [" "; "-"]%char c) name)%bool.
Definition app_manifest_stack_size_is_valid (value : text) : bool :=
  ((0 <? length value)%nat && (length value <=? 10)%nat && app_package_manifest_validate_string isdigit value)%bool.

Definition validate_csv_list (value : text) (is_valid_item : text → bool) : bool :=
  (negb (bool_decide (value = [])) && forallb (λ i, negb (bool_decide (i = [])) && is_valid_item i) (pieces "," value))%bool.

Definition app_package_manifest_is_valid_format_version (version : text) : bool :=
  (negb (bool_decide (version = [])) && app_package_manifest_validate_string (λ c, isalnum c || is_one_of ["."%char] c) version)%bool.
Definition app_package_manifest_is_valid_version_name (version : text) : bool :=
  (negb (bool_decide (version = [])) && (length version <=? PACKAGE_MANIFEST_VERSION_NAME_LENGTH)%nat &&
   app_package_manifest_validate_string (λ c, isalnum c || is_one_of ["."; "-"; "_"]%char c) version)%bool.
Definition app_package_manifest_is_valid_version_code (version : text) : bool :=
  (negb (bool_decide (version = [])) && (length version <=? 20)%nat && app_package_manifest_validate_string isdigit version)%bool.
Definition app_package_manifest_is_valid_bool (value : text) : bool := (bool_decide (value = $"true") || bool_decide (value = $"false"))%bool.
Definition is_valid_device_id (item : text) : bool :=
  (forallb (λ c, isalnum c || bool_decide (c = "-"%char)) item && existsb isalnum item)%bool.
Definition app_package_manifest_is_valid_device_id_list (value : text) : bool := validate_csv_list value is_valid_device_id.
Definition app_package_manifest_is_valid_binary_name (value : text) : bool :=
  (negb (bool_decide (value = [])) && (length value <=? APP_MANIFEST_BINARY_LENGTH)%nat &&
   app_package_manifest_validate_string (λ c, isalnum c || is_one_of ["."; "_"; "-"]%char c) value)%bool.

(** * Errors as values *)

Abbreviation result A := (error_t + A)%type.
#[export] Instance result_ret : MRet (sum error_t) := λ A, inr.
#[export] Instance result_bind : MBind (sum error_t) := λ A B f r, match r with inl e => inl e | inr a => f a end.
Definition expect {A} (e : error_t) (o : option A) : result A := match o with Some a => inr a | None => inl e end.
Definition ensure (e : error_t) (b : bool) : result unit := if b then inr tt else inl e.

(** What the buffer of a fixed size has as a C string. *)
Definition app_package_manifest_copy_bounded (dest_size : nat) (value : text) : result text :=
  if (dest_size <=? length value)%nat then inl ERROR_INVALID_ARGUMENT else inr (c_str value).

(** * The file *)

Definition is_manifest_blank (c : ascii) : bool := is_one_of [" "%char; "009"%char; "013"%char; "010"%char] c.

(** [std::getline]: a last line without an end counts if it is not empty. *)
Fixpoint getlines (s line : text) : list text :=
  match s with
  | [] => if decide (line = []) then [] else [line]
  | c :: s' => if decide (c = "010"%char) then line :: getlines s' [] else getlines s' (line ++ [c])
  end.

Definition load_property (m : gmap text text) (line : text) : gmap text text :=
  let trimmed_line := trim is_manifest_blank line in
  match trimmed_line with
  | [] => m
  | c :: _ =>
      if decide (c = "#"%char) then m
      else
        match split_char "="%char trimmed_line with
        | None => m
        | Some (key, value) => <[trim is_manifest_blank key := trim is_manifest_blank value]> m
        end
  end.
Definition load_properties (content : text) : gmap text text := foldl load_property ∅ (getlines content []).

Definition app_package_manifest_get_value (properties : gmap text text) (key : text) : result text :=
  expect ERROR_INVALID_ARGUMENT (properties !! key).

(** * Package fields that both versions have *)

Definition optional {A} (o : option text) (default : A) (f : text → result A) : result A :=
  match o with Some v => f v | None => mret default end.

(** [stack.depth] of an app. *)
Definition parse_stack_depth (stack_size_string : text) : result Z :=
  ensure ERROR_INVALID_ARGUMENT (app_manifest_stack_size_is_valid (c_str stack_size_string));;
  '(stack_size, _) ← expect ERROR_INVALID_ARGUMENT (from_chars (2 ^ 32 - 1) stack_size_string);
  ensure ERROR_INVALID_ARGUMENT (stack_size <=? APP_STACK_SIZE_MAX);;
  mret stack_size.

Definition parse_version_code (version_code_string : text) : result Z :=
  ensure ERROR_INVALID_ARGUMENT (app_package_manifest_is_valid_version_code version_code_string);;
  '(version_code, _) ← expect ERROR_INVALID_ARGUMENT (from_chars (2 ^ 64 - 1) version_code_string);
  mret version_code.

Definition parse_version_name (name : text) : result text :=
  ensure ERROR_INVALID_ARGUMENT (app_package_manifest_is_valid_version_name name);;
  app_package_manifest_copy_bounded (S PACKAGE_MANIFEST_VERSION_NAME_LENGTH) name.

Definition parse_device_ids (device_id : text) : result text :=
  ensure ERROR_INVALID_ARGUMENT (app_package_manifest_is_valid_device_id_list device_id);;
  app_package_manifest_copy_bounded (S PACKAGE_MANIFEST_REQUIRES_DEVICE_ID_LENGTH) device_id.

(** An id or a name of an app: valid as a C string, and copied. *)
Definition parse_id (id : text) : result text :=
  ensure ERROR_INVALID_ARGUMENT (app_manifest_id_is_valid (c_str id));;
  app_package_manifest_copy_bounded (S APP_MANIFEST_ID_LENGTH) id.

(** * Version 2 (package_manifest_parsing_v2.cpp) *)

(** The bindings are those that were written, none for a capacity of 0. *)
Definition package_manifest_parse_v2 (properties : gmap text text) (bindings_capacity : nat) : result (PackageManifest * list AppManifestBinding) :=
  let get := app_package_manifest_get_value properties in
  format_version ← get ($"manifest.version");
  ensure ERROR_INVALID_ARGUMENT (app_package_manifest_is_valid_format_version format_version);;
  id ← get ($"app.id");
  package_id ← parse_id id;
  name ← get ($"app.name");
  ensure ERROR_INVALID_ARGUMENT (app_manifest_name_is_valid (c_str name));;
  version_name ← get ($"app.version.name") ≫= parse_version_name;
  version_code ← get ($"app.version.code") ≫= parse_version_code;
  target_sdk ← get ($"target.sdk") ≫= app_package_manifest_copy_bounded (S PACKAGE_MANIFEST_TARGET_SDK_LENGTH);
  device_ids ← optional (properties !! $"requires.device.id") [] parse_device_ids;
  let package := {| package_id := package_id; version_name := version_name; version_code := version_code; target_sdk := target_sdk;
                    requires_device_id := device_ids; requires_ram := 0; app_manifest_count := 1 |} in
  if (bindings_capacity =? 0)%nat then mret (package, [])
  else
    binary ← app_package_manifest_copy_bounded (S APP_MANIFEST_BINARY_LENGTH) ($"app");
    manifest_id ← app_package_manifest_copy_bounded (S APP_MANIFEST_ID_LENGTH) id;
    manifest_name ← app_package_manifest_copy_bounded (S APP_MANIFEST_NAME_LENGTH) name;
    depth ← optional (properties !! $"app.stack.depth") 0 parse_stack_depth;
    mret (package, [{| binding_manifest := {| manifest_id := manifest_id; manifest_name := manifest_name; category := APP_CATEGORY_USER;
                                              manifest_location := no_location; manifest_flags := 0;
                                              manifest_stack := {| depth := depth; desired_memory_capability := 0 |} |};
                       binary := binary |}]).

(** * Version 3 (package_manifest_parsing_v3.cpp) *)

Section v3.
(** The largest [size_t]. *)
Variable size_max : Z.

Definition parse_app_key_index (key : text) : option Z :=
  if decide (take 4 key = $"app.") then
    '(number, _) ← split_char "."%char (drop 4 key);
    if decide (number = []) then None
    else
      '(index, rest) ← from_chars size_max number;
      if decide (rest = []) then Some index else None
  else None.

(** [std::format("app.{}.", index)] and a name. *)
Definition app_key (index : nat) (name : text) : text := $"app." ++ print_long (Z.of_nat index) ++ "."%char :: name.

(** An optional key that sets a flag. *)
Definition parse_flag (flag flags : Z) (value : text) : result Z :=
  ensure ERROR_INVALID_ARGUMENT (app_package_manifest_is_valid_bool value);;
  mret (if decide (value = $"true") then Z.lor flags flag else flags).

Definition parse_app_manifest (properties : gmap text text) (index : nat) : result AppManifestBinding :=
  let get name := app_package_manifest_get_value properties (app_key index name) in
  let find name := properties !! app_key index name in
  id ← get ($"id") ≫= parse_id;
  binary_name ← get ($"binary");
  ensure ERROR_INVALID_ARGUMENT (app_package_manifest_is_valid_binary_name binary_name);;
  binary ← app_package_manifest_copy_bounded (S APP_MANIFEST_BINARY_LENGTH) binary_name;
  name ← get ($"name");
  ensure ERROR_INVALID_ARGUMENT (app_manifest_name_is_valid (c_str name));;
  name ← app_package_manifest_copy_bounded (S APP_MANIFEST_NAME_LENGTH) name;
  depth ← optional (find ($"stack.depth")) 0 parse_stack_depth;
  flags ← optional (find ($"hidden")) 0 (parse_flag APP_MANIFEST_FLAG_HIDDEN 0);
  flags ← optional (find ($"headless")) flags (parse_flag APP_MANIFEST_FLAG_HEADLESS flags);
  flags ← optional (find ($"cleanup")) flags (parse_flag APP_MANIFEST_FLAG_CLEANUP flags);
  mret {| binding_manifest := {| manifest_id := id; manifest_name := name; category := APP_CATEGORY_USER; manifest_location := no_location;
                                 manifest_flags := flags; manifest_stack := {| depth := depth; desired_memory_capability := 0 |} |};
          binary := binary |}.

(** Whole megabytes with the suffix M. *)
Definition parse_ram (ram : text) : result Z :=
  '(megabytes, rest) ← expect ERROR_INVALID_ARGUMENT (from_chars (2 ^ 32 - 1) ram);
  ensure ERROR_INVALID_ARGUMENT (bool_decide (rest = ["M"%char]) && (megabytes <=? 255));;
  mret megabytes.

(** The loop that counts the apps, at most one too many. *)
Fixpoint count_apps (properties : gmap text text) (fuel count : nat) : result nat :=
  match fuel with
  | O => inl ERROR_BUFFER_OVERFLOW
  | S fuel =>
      match properties !! app_key count ($"id") with
      | Some _ => if (PACKAGE_MANIFEST_MAX_APP_MANIFESTS <? S count)%nat then inl ERROR_BUFFER_OVERFLOW else count_apps properties fuel (S count)
      | None => inr count
      end
  end.

Fixpoint parse_app_manifests (properties : gmap text text) (index n : nat) : result (list AppManifestBinding) :=
  match n with
  | O => mret []
  | S n => b ← parse_app_manifest properties index; bs ← parse_app_manifests properties (S index) n; mret (b :: bs)
  end.

Definition package_manifest_parse_v3 (properties : gmap text text) (bindings_capacity : nat) : result (PackageManifest * list AppManifestBinding) :=
  let get := app_package_manifest_get_value properties in
  id ← get ($"id") ≫= parse_id;
  version_name ← get ($"version.name") ≫= parse_version_name;
  version_code ← get ($"version.code") ≫= parse_version_code;
  target_sdk ← get ($"target.sdk") ≫= app_package_manifest_copy_bounded (S PACKAGE_MANIFEST_TARGET_SDK_LENGTH);
  device_ids ← optional (properties !! $"requires.device.id") [] parse_device_ids;
  ram ← optional (properties !! $"requires.ram") 0 parse_ram;
  count ← count_apps properties (S (S PACKAGE_MANIFEST_MAX_APP_MANIFESTS)) 0;
  let package := {| package_id := id; version_name := version_name; version_code := version_code; target_sdk := target_sdk;
                    requires_device_id := device_ids; requires_ram := ram; app_manifest_count := count |} in
  ensure ERROR_INVALID_ARGUMENT
    (forallb (λ e, match parse_app_key_index e.1 with Some index => index <? Z.of_nat count | None => true end) (map_to_list properties));;
  if ((count =? 0)%nat || (bindings_capacity =? 0)%nat)%bool then mret (package, [])
  else if (bindings_capacity <? count)%nat then inl ERROR_BUFFER_OVERFLOW
  else bs ← parse_app_manifests properties 0 count; mret (package, bs).

(** * Either version *)

(** [content] is what the file has, if it can be opened. *)
Definition app_package_manifest_parse (content : option text) (bindings_capacity : nat) : result (PackageManifest * list AppManifestBinding) :=
  content ← expect ERROR_NOT_FOUND content;
  let properties := load_properties content in
  format_version ← app_package_manifest_get_value properties ($"manifest.version");
  if decide (format_version = $"0.2") then package_manifest_parse_v2 properties bindings_capacity
  else if decide (format_version = $"0.3") then package_manifest_parse_v3 properties bindings_capacity
  else inl ERROR_INVALID_ARGUMENT.

(** The file is read twice, and may change in between; the vector has the number of
    bindings that the first reading counted, those that the second does not write zeroed. *)
Definition no_binding : AppManifestBinding :=
  {| binding_manifest := {| manifest_id := []; manifest_name := []; category := 0; manifest_location := no_location; manifest_flags := 0;
                            manifest_stack := {| depth := 0; desired_memory_capability := 0 |} |};
     binary := [] |}.
Definition app_package_manifest_parse_into (first second : option text) : result (PackageManifest * list AppManifestBinding) :=
  '(counted, _) ← app_package_manifest_parse first 0;
  let n := app_manifest_count counted in
  '(package, written) ← app_package_manifest_parse second n;
  ensure ERROR_INVALID_ARGUMENT (app_manifest_count package =? n)%nat;;
  mret (package, written ++ replicate (n - length written) no_binding).
End v3.

(** * Compatibility (package_compatibility.cpp) *)

(** An empty last item is not looked at. *)
Definition is_device_listed (device_ids device_id : text) : bool :=
  let items := pieces "," device_ids in
  existsb (λ i, bool_decide (i = device_id)) (if decide (last items = Some []) then removelast items else items).

(** [device_id] is the configured device, [total_ram] its memory in bytes. *)
Definition app_package_manifest_is_compatible (device_id : text) (total_ram : Z) (manifest : PackageManifest) : bool :=
  if (negb (bool_decide (requires_device_id manifest = [])) && negb (is_device_listed (requires_device_id manifest) device_id))%bool then false
  else requires_ram manifest * 1024 * 1024 <=? total_ram.
