(* ===== verification/ManifestSpecs.v ===== *)
(** What the parser of manifests accepts: every package and every app that it returns is
    well-formed, whatever is in the file. *)

From S2P Require Import Prelude Text Manifests.

Implicit Types (s id name : text) (p : PackageManifest).

(** * Well-formed packages *)

(** Sizes and characters are those that the buffers have room for and that paths may have. *)
Record app_ok (m : AppManifest) : Prop := {
  app_id_ok : app_manifest_id_is_valid (manifest_id m) = true;
  app_name_ok : app_manifest_name_is_valid (manifest_name m) = true;
  app_category_ok : category m = APP_CATEGORY_USER;
  app_flags_ok : 0 ≤ manifest_flags m < 8;
  app_stack_ok : 0 ≤ depth (manifest_stack m) ≤ APP_STACK_SIZE_MAX;
}.
Record binding_ok (b : AppManifestBinding) : Prop := {
  binding_app_ok : app_ok (binding_manifest b);
  binding_binary_ok : app_package_manifest_is_valid_binary_name (binary b) = true;
}.
Record package_ok p : Prop := {
  package_id_ok : app_manifest_id_is_valid (package_id p) = true;
  package_version_ok : app_package_manifest_is_valid_version_name (version_name p) = true;
  package_code_ok : 0 ≤ version_code p < 2 ^ 64;
  package_sdk_ok : (length (target_sdk p) ≤ PACKAGE_MANIFEST_TARGET_SDK_LENGTH)%nat;
  package_devices_ok : requires_device_id p = [] ∨
    app_package_manifest_is_valid_device_id_list (requires_device_id p) = true ∧
    (length (requires_device_id p) ≤ PACKAGE_MANIFEST_REQUIRES_DEVICE_ID_LENGTH)%nat;
  package_ram_ok : 0 ≤ requires_ram p < 256;
  package_count_ok : (app_manifest_count p ≤ PACKAGE_MANIFEST_MAX_APP_MANIFESTS)%nat;
}.

(** * Results *)

Lemma bind_inr {A B} (r : result A) (f : A → result B) b : r ≫= f = inr b → ∃ a, r = inr a ∧ f a = inr b.
Proof. destruct r as [e|a]; [done|]. intros E. by exists a. Qed.
Lemma ensure_inr e (c : bool) u : ensure e c = inr u → c = true.
Proof. by destruct c. Qed.
Lemma expect_inr {A} e (o : option A) a : expect e o = inr a → o = Some a.
Proof. destruct o; [by intros [= ->]|done]. Qed.
Lemma optional_inr {A} o (d : A) f a : optional o d f = inr a → a = d ∨ ∃ v, f v = inr a.
Proof. destruct o as [v|]; [intros E; right; by exists v|intros [= ->]; by left]. Qed.

(** Takes a successful computation apart. *)
Ltac inv_result :=
  repeat match goal with
  | H : _ ≫= _ = inr _ |- _ => let E := fresh "E" in apply bind_inr in H as (? & E & H); cbn beta in H
  | H : ensure _ _ = inr _ |- _ => apply ensure_inr in H
  | H : expect _ _ = inr _ |- _ => apply expect_inr in H
  | H : mret _ = inr _ |- _ => injection H as H
  | H : inr _ = inr _ |- _ => injection H as H
  | H : inl _ = inr _ |- _ => discriminate H
  | H : (let '(_, _) := ?x in _) = inr _ |- _ => destruct x
  end.

(** ** Texts *)

Lemma c_str_length s : (length (c_str s) ≤ length s)%nat.
Proof. unfold c_str. rewrite length_take. lia. Qed.

Lemma copied_inr n s t : app_package_manifest_copy_bounded n s = inr t → t = c_str s ∧ (length s < n)%nat.
Proof. unfold app_package_manifest_copy_bounded. destruct (Nat.leb_spec n (length s)); [done|]. by intros [= <-]. Qed.

Lemma valid_c_str (f : ascii → bool) s : f NUL = false → forallb f s = true → c_str s = s.
Proof.
  intros Hf Hs. apply c_str_id. intros Hin. rewrite forallb_forall in Hs. apply list_elem_of_In, Hs in Hin. congruence.
Qed.

Lemma decimal_value_nonneg s : Forall (λ c, isdigit c = true) s → 0 ≤ decimal_value s.
Proof.
  unfold decimal_value. assert (∀ a, 0 ≤ a → Forall (λ c, isdigit c = true) s → 0 ≤ foldl (λ a c, a * 10 + (code c - code "0")) a s) as Hs; [|by apply Hs].
  induction s as [|c s IH]; intros a Ha Hs; [done|]. apply Forall_cons in Hs as [Hc Hs]. apply IH; [|done].
  unfold isdigit, between in Hc. lia.
Qed.
Lemma from_chars_range m s v t : from_chars m s = Some (v, t) → 0 ≤ v ≤ m.
Proof.
  unfold from_chars. destruct (_ || _)%bool eqn:E; [done|]. intros [= <- _]. apply orb_false_iff in E as [_ E].
  split; [|lia]. apply decimal_value_nonneg, span_forall.
Qed.

(** ** Parts *)

Lemma parse_id_ok s t : parse_id s = inr t → app_manifest_id_is_valid t = true.
Proof. unfold parse_id. intros Hp. inv_result. by apply copied_inr in Hp as [-> _]. Qed.

Lemma parse_version_name_ok s t : parse_version_name s = inr t → app_package_manifest_is_valid_version_name t = true.
Proof.
  unfold parse_version_name. intros Hp. inv_result. apply copied_inr in Hp as [-> _].
  rewrite (valid_c_str (λ c, isalnum c || is_one_of ["."; "-"; "_"]%char c)%bool); [done|done|].
  by apply andb_true_iff in E as [_ E].
Qed.

Lemma parse_version_code_ok s v : parse_version_code s = inr v → 0 ≤ v < 2 ^ 64.
Proof. unfold parse_version_code. intros Hp. inv_result. subst. apply from_chars_range in E0. lia. Qed.

Lemma parse_stack_depth_ok s v : parse_stack_depth s = inr v → 0 ≤ v ≤ APP_STACK_SIZE_MAX.
Proof. unfold parse_stack_depth. intros Hp. inv_result. subst. apply from_chars_range in E0. lia. Qed.

Lemma parse_ram_ok s v : parse_ram s = inr v → 0 ≤ v < 256.
Proof. unfold parse_ram. intros Hp. inv_result. subst. apply from_chars_range in E. lia. Qed.

Lemma parse_device_ids_ok s t :
  parse_device_ids s = inr t → app_package_manifest_is_valid_device_id_list t = true ∧ (length t ≤ PACKAGE_MANIFEST_REQUIRES_DEVICE_ID_LENGTH)%nat.
Proof.
  unfold parse_device_ids. intros Hp. inv_result. apply copied_inr in Hp as [-> Hl].
  rewrite c_str_id; [split; [done|lia]|]. intros Hn. unfold app_package_manifest_is_valid_device_id_list, validate_csv_list in E.
  apply andb_true_iff in E as [_ E]. destruct (in_pieces "," s NUL) as (i & Hi & Hin); [done..|].
  rewrite forallb_forall in E. apply list_elem_of_In, E, andb_true_iff in Hi as [_ Hi]. unfold is_valid_device_id in Hi.
  apply andb_true_iff in Hi as [Hi _]. rewrite forallb_forall in Hi. by apply list_elem_of_In, Hi in Hin.
Qed.

Lemma parse_flag_ok flag flags s v : 0 ≤ flags < 8 → 0 ≤ flag < 8 → parse_flag flag flags s = inr v → 0 ≤ v < 8.
Proof.
  intros Hf Hg. unfold parse_flag. intros Hp. inv_result. subst. case_decide; [|done].
  assert (0 ≤ Z.lor flags flag) by (apply Z.lor_nonneg; lia). split; [done|].
  destruct (decide (Z.lor flags flag = 0)) as [->|Hz]; [done|]. apply (Z.log2_lt_pow2 _ 3); [lia|]. rewrite Z.log2_lor by lia.
  assert (∀ a, 0 ≤ a < 8 → Z.log2 a < 3) as Hlog.
  { intros a Ha. destruct (decide (a = 0)) as [->|]; [done|]. apply Z.log2_lt_pow2; lia. }
  apply Z.max_lub_lt; by apply Hlog.
Qed.

Lemma optional_flag_ok o flag flags v : 0 ≤ flags < 8 → 0 ≤ flag < 8 → optional o flags (parse_flag flag flags) = inr v → 0 ≤ v < 8.
Proof. intros Hf Hg H. apply optional_inr in H as [->|[s Hs]]; [done|exact (parse_flag_ok _ _ _ _ Hf Hg Hs)]. Qed.

Lemma devices_ok o t :
  optional o [] parse_device_ids = inr t →
  t = [] ∨ app_package_manifest_is_valid_device_id_list t = true ∧ (length t ≤ PACKAGE_MANIFEST_REQUIRES_DEVICE_ID_LENGTH)%nat.
Proof. intros H. apply optional_inr in H as [->|[s Hs]]; [by left|right; by eapply parse_device_ids_ok]. Qed.

Lemma copied_length n s t : app_package_manifest_copy_bounded (S n) s = inr t → (length t ≤ n)%nat.
Proof. intros H. apply copied_inr in H as [-> Hl]. pose proof (c_str_length s). lia. Qed.

(** ** Versions *)

Lemma parse_app_manifest_ok m i b : parse_app_manifest m i = inr b → binding_ok b.
Proof.
  unfold parse_app_manifest. intros Hp. inv_result. subst b.
  repeat match goal with H : app_package_manifest_copy_bounded _ _ = inr _ |- _ => apply copied_inr in H as [-> ?] end.
  split; [split|]; simpl.
  - by eapply parse_id_ok.
  - done.
  - done.
  - repeat match goal with H : optional _ ?d (parse_flag ?g ?d) = inr ?v |- _ =>
      assert (0 ≤ v < 8) by (eapply (optional_flag_ok _ g d); [lia|by vm_compute|exact H]); clear H end. done.
  - match goal with H : optional _ 0 parse_stack_depth = inr _ |- _ => apply optional_inr in H as [->|[? H]] end.
    + unfold APP_STACK_SIZE_MAX. lia.
    + by eapply parse_stack_depth_ok.
  - match goal with H : app_package_manifest_is_valid_binary_name _ = true |- _ => rename H into Hb end.
    rewrite (valid_c_str (λ c, isalnum c || is_one_of ["."; "_"; "-"]%char c)%bool); [done|done|]. by apply andb_true_iff in Hb as [_ Hb].
Qed.

Lemma parse_app_manifests_ok m i n bs : parse_app_manifests m i n = inr bs → Forall binding_ok bs ∧ length bs = n.
Proof.
  revert i bs. induction n as [|n IH]; intros i bs; cbn [parse_app_manifests]; intros Hp; inv_result; subst; [done|].
  destruct (IH _ _ E0) as [Hbs Hl]. split; [constructor; [by eapply parse_app_manifest_ok|done]|simpl; by rewrite Hl].
Qed.

Lemma count_apps_ok m fuel n k : count_apps m fuel n = inr k → (n ≤ PACKAGE_MANIFEST_MAX_APP_MANIFESTS)%nat → (k ≤ PACKAGE_MANIFEST_MAX_APP_MANIFESTS)%nat.
Proof.
  revert n. induction fuel as [|f IH]; intros n; cbn [count_apps]; [done|]. destruct (m !! _); [|by intros [= ->]].
  destruct (Nat.ltb_spec PACKAGE_MANIFEST_MAX_APP_MANIFESTS (S n)); [done|]. intros Hc _. by apply IH in Hc.
Qed.
(** The loop has turns enough. *)
Lemma count_apps_fuel m fuel n :
  (PACKAGE_MANIFEST_MAX_APP_MANIFESTS + 1 ≤ n + fuel)%nat → (n ≤ PACKAGE_MANIFEST_MAX_APP_MANIFESTS)%nat →
  ∀ fuel', (fuel ≤ fuel')%nat → count_apps m fuel' n = count_apps m fuel n.
Proof.
  revert n. induction fuel as [|f IH]; intros n Hf Hn [|f'] Hle; try lia. cbn [count_apps]. destruct (m !! _); [|done].
  destruct (Nat.ltb_spec PACKAGE_MANIFEST_MAX_APP_MANIFESTS (S n)); [done|]. apply IH; lia.
Qed.

Create HintDb manifest.
#[export] Hint Resolve parse_id_ok parse_version_name_ok parse_version_code_ok parse_ram_ok devices_ok copied_length : manifest.

(** The bounds that are numbers. *)
Ltac bound := unfold APP_STACK_SIZE_MAX, PACKAGE_MANIFEST_MAX_APP_MANIFESTS in *; lia.

Lemma parse_v2_ok m n p bs :
  package_manifest_parse_v2 m n = inr (p, bs) →
  package_ok p ∧ app_manifest_count p = 1%nat ∧ Forall binding_ok bs ∧ length bs = (if (n =? 0)%nat then 0%nat else 1%nat).
Proof.
  unfold package_manifest_parse_v2. intros Hp. inv_result.
  destruct (n =? 0)%nat; inv_result; simplify_eq; (split; [split; simpl; eauto with manifest; bound|]); split; [done| |done|];
    (split; [|done]); [by constructor|].
  constructor; [|done].
  repeat match goal with H : app_package_manifest_copy_bounded _ _ = inr _ |- _ => apply copied_inr in H as [-> ?] end.
  split; [split|]; simpl; [|done|done|lia| |by vm_compute].
  - unfold parse_id in E2. by inv_result.
  - match goal with H : optional _ 0 parse_stack_depth = inr _ |- _ => apply optional_inr in H as [->|[? H]] end; [bound|by eapply parse_stack_depth_ok].
Qed.

Lemma optional_ram_ok o v : optional o 0 parse_ram = inr v → 0 ≤ v < 256.
Proof. intros H. apply optional_inr in H as [->|[s Hs]]; [done|by eapply parse_ram_ok]. Qed.
#[export] Hint Resolve optional_ram_ok : manifest.

Section v3.
Context (size_max : Z).

Lemma parse_v3_ok m n p bs :
  package_manifest_parse_v3 size_max m n = inr (p, bs) →
  package_ok p ∧ Forall binding_ok bs ∧ length bs = (if (n =? 0)%nat then 0%nat else app_manifest_count p).
Proof.
  unfold package_manifest_parse_v3. intros Hp. inv_result.
  match goal with H : count_apps _ _ _ = inr _ |- _ => apply count_apps_ok in H; [|bound] end.
  destruct (_ || _)%bool eqn:Hz; [|destruct (_ <? _)%nat; [done|]]; inv_result; simplify_eq;
    (split; [split; simpl; eauto with manifest|]).
  - split; [by constructor|]. apply orb_true_iff in Hz as [?%Nat.eqb_eq| ->]; simpl; [|done]. by destruct (n =? 0)%nat.
  - apply orb_false_iff in Hz as [_ ->]. by eapply parse_app_manifests_ok.
Qed.

Lemma parse_ok content n p bs :
  app_package_manifest_parse size_max content n = inr (p, bs) →
  package_ok p ∧ Forall binding_ok bs ∧ length bs = (if (n =? 0)%nat then 0%nat else app_manifest_count p).
Proof.
  unfold app_package_manifest_parse. intros Hp. inv_result. case_decide; [|case_decide; [by eapply parse_v3_ok|done]].
  apply parse_v2_ok in Hp as (Hp & Hc & Hbs & Hl). by rewrite Hc.
Qed.

Lemma parse_into_ok first second p bs :
  app_package_manifest_parse_into size_max first second = inr (p, bs) →
  package_ok p ∧ Forall binding_ok bs ∧ length bs = app_manifest_count p ∧ (length bs ≤ PACKAGE_MANIFEST_MAX_APP_MANIFESTS)%nat.
Proof.
  unfold app_package_manifest_parse_into. intros Hp. inv_result. simplify_eq.
  match goal with H : app_package_manifest_parse _ second _ = inr _ |- _ => apply parse_ok in H as (Hok & Hbs & Hl) end.
  apply Nat.eqb_eq in E1. rewrite <-E1 in *.
  replace (if (_ =? _)%nat then _ else _) with (app_manifest_count p) in Hl by (destruct (Nat.eqb_spec (app_manifest_count p) 0); lia).
  rewrite Hl, Nat.sub_diag, app_nil_r. split_and!; [done..|]. rewrite Hl. apply (package_count_ok _ Hok).
Qed.

(** C21: whatever a manifest file contains and however it changes between the two readings,
    a package that is accepted is well-formed - valid ids, names, versions and binaries, sizes
    and numbers within their fields, stacks within the limit, no flags but the known ones -
    and there are exactly as many bindings as the package says it has apps. *)
Theorem accepted_manifests_are_well_formed first second p bs :
  app_package_manifest_parse_into size_max first second = inr (p, bs) →
  package_ok p ∧ Forall binding_ok bs ∧ length bs = app_manifest_count p ∧ (length bs ≤ PACKAGE_MANIFEST_MAX_APP_MANIFESTS)%nat.
Proof. apply parse_into_ok. Qed.
End v3.

(** ** A package with two apps *)

Definition two_apps : text := $"manifest.version=0.3
# a package
id = com.example.two
version.name=1.0
version.code=7
target.sdk=1.0.0
requires.ram=2M
app.0.id=com.example.one
app.0.binary=one
app.0.name=One
app.0.hidden=true
app.1.id=com.example.other
app.1.binary=other
app.1.name=Other
app.1.stack.depth=4096
".
Example two_apps_parsed :
  match app_package_manifest_parse_into (2 ^ 32 - 1) (Some two_apps) (Some two_apps) with
  | inr (p, bs) => (version_code p, requires_ram p, app_manifest_count p, map (λ b, (manifest_flags (binding_manifest b), depth (manifest_stack (binding_manifest b)))) bs)
                   = (7, 2, 2%nat, [(1, 0); (0, 4096)])
  | inl _ => False
  end.
Proof. vm_compute. reflexivity. Qed.
(** An index that leaves a gap is refused, and so is a change between the readings. *)
Example gap_refused :
  app_package_manifest_parse_into (2 ^ 32 - 1) (Some (two_apps ++ $"app.3.id=com.example.three")) (Some two_apps) = inl ERROR_INVALID_ARGUMENT.
Proof. vm_compute. reflexivity. Qed.
Example change_refused :
  app_package_manifest_parse_into (2 ^ 32 - 1) (Some two_apps) (Some (two_apps ++ $"app.2.id=com.example.three")) = inl ERROR_BUFFER_OVERFLOW.
Proof. vm_compute. reflexivity. Qed.

Lemma accepted_manifests_are_well_formed_witness :
  let p := {| package_id := $"com.example.two"; version_name := $"1.0"; version_code := 7; target_sdk := $"1.0.0";
              requires_device_id := []; requires_ram := 2; app_manifest_count := 2 |} in
  ∃ bs, app_package_manifest_parse_into (2 ^ 32 - 1) (Some two_apps) (Some two_apps) = inr (p, bs) ∧ package_ok p ∧ length bs = 2%nat.
Proof.
  intros p.
  destruct (app_package_manifest_parse_into (2 ^ 32 - 1) (Some two_apps) (Some two_apps)) as [e|[p' bs]] eqn:E; [vm_compute in E; discriminate E|].
  assert (p' = p) as -> by (vm_compute in E; injection E as <- _; reflexivity).
  destruct (accepted_manifests_are_well_formed _ _ _ _ _ E) as (Hp & _ & Hl & _). exists bs. split; [reflexivity|]. split; [exact Hp|exact Hl].
Defined.
