(* ===== verification/AppLedger.v ===== *)
(** The ledger of app-module as a whole (private/ledger.h): manifests, packages and
    instances, with the objects that running apps have in memory (scheduler.cpp): the
    completion signals, the contexts of the tasks, their stacks, and what the loader has
    loaded. *)

From S2P Require Import Prelude EventGroups AppEvents Apps Files Manifests Resources.

(** * What an app is started with (start.h) *)

(** A stream for the new app.  [binding_data] is the buffer, [alias_fd] -1 for none. *)
Record AppStreamBinding := {
  binding_fd : Z;
  binding_stream : Z;
  binding_data : list Byte.byte;
  binding_group : Z;
  window_columns : Z;
  window_rows : Z;
  alias_fd : Z;
}.

(** The location has a pointer to characters: the caller's own, or those of a manifest in
    memory, by the address of its set and its index there. *)
Inductive location_ref := Own (l : AppLocation) | Borrowed (set : Z) (index : nat).

(** [bindings] is nullable; [arguments] are the [argc] strings of [argv]. *)
Record AppStartContext := {
  context_id : text;
  location : location_ref;
  stack : AppStackConfig;
  arguments : list text;
  bindings : option (list AppStreamBinding);
  binding_count : nat;
  context_parent : Z;
  environment : list text;
}.

#[export] Instance AppStartContext_settable : Settable AppStartContext :=
  constr Build_AppStartContext <*> context_id <*> location <*> stack <*> arguments <*> bindings <*> binding_count <*> context_parent <*> environment.

(** * Objects in memory *)

(** [given] is the binary semaphore. *)
Record AppCompletionSignal := { given : bool; refcount : Z }.
#[export] Instance AppCompletionSignal_settable : Settable AppCompletionSignal :=
  constr Build_AppCompletionSignal <*> given <*> refcount.

(** [task_buffer] is the memory of the stack and the control block of a task. *)
Record TaskContext := {
  runtime : Z;
  task_instance : Z;
  task_argv : list text;
  task_completion : Z;
  task_buffer : option Z;
  allocCount : Z;
  allocBytes : Z;
  cleanup : bool;
}.
#[export] Instance TaskContext_settable : Settable TaskContext :=
  constr Build_TaskContext <*> runtime <*> task_instance <*> task_argv <*> task_completion <*> task_buffer <*> allocCount <*> allocBytes <*> cleanup.

(** An address that is not in use. *)
Definition next_free (used : gset Z) : Z := set_fold Z.max 0 used + 1.

Lemma next_free_fresh used : next_free used ∉ used.
Proof.
  unfold next_free. cut (∀ a, a ∈ used → a ≤ set_fold Z.max 0 used); [intros Hm Ha%Hm; lia|].
  apply (set_fold_ind_L (λ r X, ∀ a, a ∈ X → a ≤ r)); [set_solver|].
  intros x X r _ IH a [->%elem_of_singleton|Ha%IH]%elem_of_union; lia.
Qed.

(** Sets of addresses as lists. *)
Lemma elements_add (X : gset Z) l a : a ∉ X → l ≡ₚ elements X → a :: l ≡ₚ elements ({[a]} ∪ X).
Proof. intros Ha ->. symmetry. by apply elements_union_singleton. Qed.
Lemma elements_remove (X : gset Z) l a : a :: l ≡ₚ elements X → a ∈ X ∧ l ≡ₚ elements (X ∖ {[a]}).
Proof.
  intros Hp. assert (a ∈ X) as Ha by (apply elem_of_elements; rewrite <-Hp; by left). split; [done|].
  apply (Permutation_cons_inv (a := a)). rewrite Hp. rewrite (union_difference_singleton_L a X Ha) at 1.
  apply elements_union_singleton. set_solver.
Qed.

(** * Installed packages (manager.cpp, install.cpp, private/manifest_set.h) *)

(** A pointer to a manifest: one that is never freed, or one of a set in memory. *)
Inductive manifest_ref := Static (m : AppManifest) | InSet (set : Z) (index : nat).

(** [ScannedPackageManifest] and [InstalledPackageRecord]: [owned] is the address of the
    set of manifests. *)
Record PackageOwner := { owner_path : text; owned : Z }.
(** [staged] is the lock's mutex. *)
Record StagingLock := { staged : bool; lock_refcount : Z }.

(** The sets of manifests in memory, the registries of manager.cpp and install.cpp with
    the mutex that is held over several sections, and the file system. *)
Record installs := Installs {
  manifest_sets : gmap Z (list AppManifest);
  install_paths : list text;
  scanned : gmap text PackageOwner;
  installed : gmap text PackageOwner;
  registry_held : bool;
  staging_locks : gmap text StagingLock;
  file_system : Files.files;
}.
#[export] Instance installs_settable : Settable installs :=
  constr Installs <*> manifest_sets <*> install_paths <*> scanned <*> installed <*> registry_held <*> staging_locks <*> file_system.

Definition read_manifest (x : installs) (r : manifest_ref) : option AppManifest :=
  match r with Static m => Some m | InSet a i => l ← manifest_sets x !! a; l !! i end.
(** The characters of a location are there. *)
Definition location_live (x : installs) (l : location_ref) : bool :=
  match l with Own _ => true | Borrowed a i => is_some (read_manifest x (InSet a i)) end.

Section ledger.
Context `{ResourcePlatform}.

Record ledger := Ledger {
  running : apps;
  manifests : gmap text manifest_ref;
  packages : gmap text AppPackageRecord;
  installing : installs;
  next_instance_id : Z;
  completions : gmap Z AppCompletionSignal;
  contexts : gmap Z TaskContext;
  buffers : gset Z;
  loaded : gset Z;
  tracked : resources;
  pending_deferred_unloads : Z;
}.
#[export] Instance ledger_settable : Settable ledger :=
  constr Ledger <*> running <*> manifests <*> packages <*> installing <*> next_instance_id <*> completions <*> contexts <*> buffers <*>
  loaded <*> tracked <*> pending_deferred_unloads.

(** Operations on parts of the state. *)
Definition on_apps {A} (m : M apps A) : M ledger A := λ s,
  match m (running s) with
  | Done (a, x) => Done (a, s <| running := x |>)
  | Panic => Panic
  | Undef => Undef
  end.
Definition on_tracked {A} (m : M resources A) : M ledger A := λ s,
  match m (tracked s) with
  | Done (a, x) => Done (a, s <| tracked := x |>)
  | Panic => Panic
  | Undef => Undef
  end.

Definition manifest_at (r : manifest_ref) : M ledger AppManifest := deref (λ s, read_manifest (installing s) r).
Definition check_location (l : location_ref) : M ledger unit :=
  deref (λ s, if location_live (installing s) l then Some tt else None).

Definition find_instance (i : Z) : M ledger (option AppInstanceRecord) := gets (λ s, instances (running s) !! i).
(** [if (iterator != ledger.instances.end())]. *)
Definition alter_instance (i : Z) (f : AppInstanceRecord → AppInstanceRecord) : M ledger unit :=
  on_apps (modify (λ x, set_instances (alter f i (instances x)) x)).

Definition completion_at (c : Z) : M ledger AppCompletionSignal := deref (λ s, completions s !! c).
Definition upd_completion (c : Z) (f : AppCompletionSignal → AppCompletionSignal) : M ledger unit :=
  x ← completion_at c; modify (λ s, s <| completions := <[c := f x]> (completions s) |>).
Definition context_at (a : Z) : M ledger TaskContext := deref (λ s, contexts s !! a).
Definition upd_context (a : Z) (f : TaskContext → TaskContext) : M ledger unit :=
  x ← context_at a; modify (λ s, s <| contexts := <[a := f x]> (contexts s) |>).

(** [new] and [delete]. *)
Definition new_completion : M ledger Z :=
  c ← gets (λ s, next_free (dom (completions s)));
  modify (λ s, s <| completions := <[c := {| given := false; refcount := 1 |}]> (completions s) |>);;
  mret c.
Definition delete_completion (c : Z) : M ledger unit :=
  _ ← completion_at c; modify (λ s, s <| completions := delete c (completions s) |>).
Definition new_context (x : TaskContext) : M ledger Z :=
  a ← gets (λ s, next_free (dom (contexts s)));
  modify (λ s, s <| contexts := <[a := x]> (contexts s) |>);;
  mret a.
Definition delete_context (a : Z) : M ledger unit :=
  _ ← context_at a; modify (λ s, s <| contexts := delete a (contexts s) |>).
Definition alloc_buffer : M ledger Z :=
  b ← gets (λ s, next_free (buffers s)); modify (λ s, s <| buffers := {[b]} ∪ buffers s |>);; mret b.
Definition free_buffer (b : Z) : M ledger unit :=
  _ ← deref (λ s, if decide (b ∈ buffers s) then Some tt else None);
  modify (λ s, s <| buffers := buffers s ∖ {[b]} |>).
End ledger.
