(* ===== verification/Scheduler.v ===== *)
(** The tasks of apps, Modules/app-module: source/scheduler.cpp, source/signal.cpp and the
    starting of instances of source/manager.cpp.  What a lock protects is one section, and
    so is a call of another component (an event, a stream, the loader); everything else
    may happen between two sections.  The system chooses the outcome of allocations, of
    loading and of creating tasks, and what an app does while it runs. *)

From S2P Require Import Prelude EventGroups AppEvents Apps Streams AppEnv Tasks Resources Manifests AppLedger.

Section scheduler.
Context `{FreeRtosEventGroup} `{OtherFiles} `{ResourcePlatform}.
(** [#ifdef ESP_PLATFORM]. *)
Variable esp : bool.

Abbreviation proc A := (Tasks.proc ledger A).

(** * Signals (signal.cpp) *)

Definition SIGTERM : Z := 15.
(** SIGCHLD, SIGWINCH, SIGURG, SIGCONT, SIGTSTP, SIGTTIN and SIGTTOU, whose numbers the C
    library gives. *)
Variable default_ignored : list Z.
Definition is_ignored_by_default (sig : Z) : bool := bool_decide (sig ∈ default_ignored).
Definition is_ignored (h : AppLibcSignalHandler) (sig : Z) : bool :=
  match h with SIG_IGN => true | SIG_DFL => is_ignored_by_default sig | Handler _ => false end.

Definition app_manager_get_state (i : Z) : M ledger AppInstanceState :=
  o ← find_instance i; mret (match o with Some r => instance_state r | None => APP_INSTANCE_STATE_STOPPED end).

(** Queues the signal on the instance: the section at the end of [app_signal_send]. *)
Definition queue_signal (i sig : Z) : M ledger error_t :=
  o ← find_instance i;
  match o with
  | None => mret ERROR_NOT_FOUND
  | Some r =>
      h ← deref (λ _, signal_handlers r !! Z.to_nat sig);
      if is_ignored h sig then mret ERROR_NONE
      else alter_instance i (λ r, with_pending (Z.lor (pending_signals r) (Z.shiftl 1 sig)) r);; mret ERROR_NONE
  end.

Definition app_signal_send (i sig : Z) : proc error_t :=
  if ((sig <=? 0) || (APP_LIBC_SIGNAL_COUNT <=? sig))%bool then mret ERROR_INVALID_ARGUMENT
  else
    st ← locked (app_manager_get_state i);
    if decide (st = APP_INSTANCE_STATE_STOPPED) then mret ERROR_NOT_FOUND
    else
      e ← locked (on_apps (on_bus (app_event_emit i (if sig =? SIGTERM then APP_EVENT_CLOSE else APP_EVENT_SIGNAL sig))));
      if negb (e =? ERROR_NOT_FOUND) then mret e else locked (queue_signal i sig).

(** * The ledger entry of an instance *)

Definition set_state (i : Z) (st : AppInstanceState) : M ledger unit := alter_instance i (λ r, r <| instance_state := st |>).

Definition stream_files (t : AppFdTable) : list Z :=
  omap (λ x, match slot_file x with StreamFile a => Some a | _ => None end) (filter (λ x, in_use x = true) (slots t)).
Definition set_task (i t : Z) : M ledger unit :=
  o ← find_instance i;
  match o with
  | None => mret tt
  | Some r =>
      alter_instance i (λ r, r <| task := Some t |>);;
      on_apps (for_list (λ a, upd_stream a (with_producer_task (Some t))) (stream_files (fd_table r)))
  end.

Definition set_completion (i c : Z) : M ledger unit := alter_instance i (λ r, r <| completion := Some c |>).

Definition acquire_completion_signal (i : Z) : M ledger (option Z) :=
  o ← find_instance i;
  match o ≫= completion with
  | Some c => upd_completion c (λ x, x <| refcount := refcount x + 1 |>);; mret (Some c)
  | None => mret None
  end.

(** [--completion->refcount == 0]. *)
Definition drop_reference (c : Z) : M ledger bool :=
  upd_completion c (λ x, x <| refcount := refcount x - 1 |>);;
  x ← completion_at c; mret (refcount x =? 0).
Definition release_completion_signal (c : Z) : proc unit :=
  should_delete ← locked (drop_reference c);
  if should_delete : bool then locked (delete_completion c) else mret tt.

Definition give_semaphore (c : Z) : M ledger unit := upd_completion c (λ x, x <| given := true |>).
(** [xSemaphoreTake], when it does not time out. *)
Definition take_semaphore (c : Z) : M ledger bool :=
  x ← completion_at c;
  if given x then upd_completion c (λ x, x <| given := false |>);; mret true else mret false.

Definition erase_instance (i : Z) : M ledger unit :=
  on_apps (modify (λ x, set_instances (delete i (instances x)) x)).

(** * The loader *)

Definition load_runtime : M ledger Z :=
  r ← gets (λ s, next_free (loaded s)); modify (λ s, s <| loaded := {[r]} ∪ loaded s |>);; mret r.
(** The runtime is what [load] gave and was not unloaded. *)
Definition check_loaded (r : Z) : M ledger unit := deref (λ s, if decide (r ∈ loaded s) then Some tt else None).
Definition unload_runtime (r : Z) : M ledger unit :=
  check_loaded r;; modify (λ s, s <| loaded := loaded s ∖ {[r]} |>).

(** Static destructors of the binary run while it is unloaded; what they free or close is
    no longer tracked. *)
Definition unload (r owner : Z) : proc unit :=
  hooks ← choose;
  for_each (λ h, locked (on_tracked (app_resources_hook owner 0 h))) hooks;;
  locked (unload_runtime r).

Definition app_resources_release_tasks (i owner : Z) : proc Z :=
  _ ← wait (gets (λ s, task_count i (tracked s) =? 0)%nat);
  '(joins, owner) ← locked (on_tracked (release_tasks_locked i owner));
  locked (on_tracked (join_tasks joins));;
  mret owner.

Definition add_pending (n : Z) : M ledger unit :=
  modify (λ s, s <| pending_deferred_unloads := pending_deferred_unloads s + n |>).
(** The destructor of [DeferredUnload], when the thread ends. *)
Definition deferred_unload (r i owner : Z) (clean : bool) : proc unit :=
  unload r owner;;
  (if clean then locked (on_tracked (app_resources_release i owner));; mret tt else mret tt);;
  locked (add_pending (-1)).
Definition wait_for_deferred_unloads : proc unit :=
  _ ← wait (gets (λ s, pending_deferred_unloads s <=? 0)); mret tt.

(** * The task of an app *)

Definition parent_of (i : Z) : M ledger (option Z) := o ← find_instance i; mret (parent_id <$> o).
Definition deliver_result_to_parent_if_any (i result : Z) : proc unit :=
  parent ← locked (parent_of i);
  match parent with
  | Some p => if negb (p =? 0) then _ ← locked (on_apps (on_bus (app_event_emit p (APP_EVENT_RESULT i result)))); mret tt else mret tt
  | None => mret tt
  end.

(** The entry leaves the ledger with its descriptors closed. *)
Definition leave_ledger (i : Z) : M ledger unit :=
  o ← find_instance i;
  (match o with Some _ => on_apps (app_fd_table_teardown i) | None => mret tt end);;
  erase_instance i.

(** The reaper frees the stack of a task that has ended. *)
Definition reap_self (buffer : option Z) : proc unit :=
  created ← choose (A := bool);
  match buffer with
  | Some b => if created : bool then fork (locked (free_buffer b);; mret 0) else mret tt
  | None => mret tt
  end.

Definition finish_app_task (a result : Z) (exiting : bool) : proc unit :=
  ctx ← locked (context_at a);
  let i := task_instance ctx in
  owner ← (if cleanup ctx then app_resources_release_tasks i 0 else mret 0);
  let deferred := (negb esp && exiting)%bool in
  (if deferred then locked (add_pending 1)
   else
     unload (runtime ctx) owner;;
     (if cleanup ctx then locked (on_tracked (app_resources_release i owner));; mret tt else mret tt));;
  deliver_result_to_parent_if_any i result;;
  locked (set_state i APP_INSTANCE_STATE_STOPPED);;
  locked (delete_context a);;
  locked (leave_ledger i);;
  locked (give_semaphore (task_completion ctx));;
  release_completion_signal (task_completion ctx);;
  if esp then reap_self (task_buffer ctx)
  else if deferred then deferred_unload (runtime ctx) i owner (cleanup ctx)
  else mret tt.

(** What an app's code does that app-module keeps account of: calls that its hooks track
    and allocations; at last it returns, or it calls [exit]. *)
Inductive app_call := AppHook (h : hook) | AppAlloc (size : Z) | AppFree (size : Z).
Definition app_memory_record_alloc (current a size : Z) : M ledger unit :=
  if current =? 0 then mret tt
  else upd_context a (λ x, x <| allocCount := allocCount x + 1 |> <| allocBytes := allocBytes x + size |>).
Definition app_memory_record_free (current a size : Z) : M ledger unit :=
  if current =? 0 then mret tt
  else upd_context a (λ x, x <| allocCount := allocCount x - 1 |> <| allocBytes := allocBytes x - size |>).
Definition run_call (i a : Z) (x : app_call) : M ledger unit :=
  match x with
  | AppHook h => on_tracked (app_resources_hook 0 i h)
  | AppAlloc n => app_memory_record_alloc i a n
  | AppFree n => app_memory_record_free i a n
  end.
Definition begin_run (a : Z) : M ledger Z := ctx ← context_at a; check_loaded (runtime ctx);; mret (task_instance ctx).

Definition app_task_main (a : Z) : proc Z :=
  ctx ← locked (context_at a);
  locked (set_state (task_instance ctx) APP_INSTANCE_STATE_ACTIVE);;
  i ← locked (begin_run a);
  calls ← choose;
  for_each (λ x, locked (run_call i a x)) calls;;
  '(result, exiting) ← choose;
  finish_app_task a result exiting;;
  mret 0.

(** * Starting *)

Definition has_cleanup_flag (id : text) : M ledger bool :=
  if decide (id = []) then mret false
  else
    o ← gets (λ s, manifests s !! id);
    match o with
    | None => mret false
    | Some r => m ← manifest_at r; mret (negb (Z.land (manifest_flags m) APP_MANIFEST_FLAG_CLEANUP =? 0))
    end.

(** What a failed start releases. *)
Definition abandon (c r : Z) : proc error_t :=
  locked (delete_completion c);; unload r 0;; mret ERROR_OUT_OF_MEMORY.

(** [desired] asks for a kind of memory, and falls back on the internal one. *)
Definition alloc_stack (desired : bool) : proc (option Z) :=
  got ← (if desired then choose else mret false);
  got ← (if (got : bool) then mret true else choose);
  if got : bool then b ← locked alloc_buffer; mret (Some b) else mret None.
Definition free_stack (b : option Z) : proc unit :=
  match b with Some b => locked (free_buffer b) | None => mret tt end.

Definition start_task (i c r : Z) (context : AppStartContext) (buffer : option Z) : proc error_t :=
  created ← choose (A := bool);
  if negb created then free_stack buffer;; abandon c r
  else
    a ← locked (new_context {| runtime := r; task_instance := i; task_argv := arguments context; task_completion := c;
                               task_buffer := buffer; allocCount := 0; allocBytes := 0; cleanup := false |});
    flag ← locked (has_cleanup_flag (context_id context));
    clean ← (if flag : bool then
               allocated ← choose;
               e ← locked (on_tracked (app_resources_register allocated i));
               locked (upd_context a (λ x, x <| cleanup := (e =? ERROR_NONE) |>));;
               mret (e =? ERROR_NONE)
             else mret false);
    started ← choose (A := bool);
    if negb started then
      (if clean : bool then owner ← app_resources_release_tasks i 0; _ ← locked (on_tracked (app_resources_release i owner)); mret tt else mret tt);;
      locked (delete_context a);;
      free_stack buffer;;
      abandon c r
    else
      t ← choose;
      locked (set_task i t);;
      locked (set_completion i c);;
      fork (app_task_main a);;
      mret ERROR_NONE.

(** By default a call succeeds. *)
#[local] Instance error_inhabited : Inhabited error_t := populate ERROR_NONE.

Definition app_scheduler_start (i : Z) (context : AppStartContext) : proc error_t :=
  found ← choose;
  if negb found then mret ERROR_NOT_FOUND
  else
    (if esp then mret tt else wait_for_deferred_unloads);;
    locked (check_location (location context));;
    load_result ← choose (A := error_t);
    if negb (load_result =? ERROR_NONE) then mret load_result
    else
      r ← locked load_runtime;
      allocated ← choose;
      if negb allocated then unload r 0;; mret ERROR_OUT_OF_MEMORY
      else
        c ← locked new_completion;
        created ← choose (A := bool);
        if negb created then abandon c r
        else
          copied ← (if decide (arguments context = []) then mret true else choose);
          if negb copied then abandon c r
          else if esp then
            b ← alloc_stack (negb (desired_memory_capability (stack context) =? 0));
            match b with
            | None => abandon c r
            | Some b =>
                tcb ← choose;
                if negb tcb then locked (free_buffer b);; abandon c r
                else start_task i c r context (Some b)
            end
          else start_task i c r context None.

(** * Starting an instance (manager.cpp) *)

Definition APP_MAX_FDS_nat : nat := 16.
Definition zero_table : AppFdTable :=
  {| slots := repeat {| slot_file := NoFile; in_use := false; ever_used := false |} APP_MAX_FDS_nat;
     table_mutex := false; shutting_down := false |}.
Definition new_record (id : text) (st : AppInstanceState) (parent : Z) (e : list text) (d : text) : AppInstanceRecord :=
  {| instance_state := st; fd_table := zero_table; env := e; signal_handlers := repeat SIG_DFL 32; pending_signals := 0;
     manifestId := id; task := None; parent_id := parent; completion := None; cwd := d |}.

(** The first section: the instance's id and its entry. *)
Definition allocate_instance (context : AppStartContext) : M ledger Z :=
  i ← gets next_instance_id;
  modify (λ s, s <| next_instance_id := (i + 1) mod 2 ^ 32 |>);;
  let parent := context_parent context in
  p ← (if negb (parent =? 0) then find_instance parent else mret None);
  let inherited := match p with Some p => (env p, cwd p) | None => ([], $"/") end in
  let r := new_record (context_id context) APP_INSTANCE_STATE_STARTING parent
             (app_env_apply inherited.1 (environment context)) inherited.2 in
  on_apps (modify (λ x, set_instances (<[i := r]> (instances x)) x));;
  on_apps (app_fd_table_construct i);;
  mret i.

(** [ledger.instances[target_id]] makes an entry when there is none, whose mutex is null. *)
Definition drop_instance (i : Z) : M ledger unit :=
  o ← find_instance i;
  (match o with
   | Some _ => mret tt
   | None => on_apps (modify (λ x, set_instances (<[i := new_record [] APP_INSTANCE_STATE_STARTING 0 [] ($"/")]> (instances x)) x))
   end);;
  on_apps (app_fd_table_teardown i);;
  erase_instance i.

Definition unsubscribe_binding (b : AppStreamBinding) : proc unit :=
  _ ← locked (on_apps (app_stream_unsubscribe (binding_stream b))); mret tt.

Definition bind_stream (i : Z) (b : AppStreamBinding) : proc error_t :=
  e ← locked (on_apps (app_stream_subscribe (binding_stream b) (binding_data b) (binding_group b) i (binding_fd b)));
  if e =? ERROR_NONE then
    locked (on_apps (app_stream_set_window_size (binding_stream b) (window_columns b) (window_rows b)));;
    if 0 <=? alias_fd b then locked (on_apps (app_stream_bind_alias_fd (binding_stream b) (alias_fd b))) else mret e
  else mret e.

Fixpoint bind_streams (i : Z) (bound bs : list AppStreamBinding) : proc error_t :=
  match bs with
  | [] => mret ERROR_NONE
  | b :: bs' =>
      e ← bind_stream i b;
      if negb (e =? ERROR_NONE) then
        for_each unsubscribe_binding bound;;
        locked (drop_instance i);;
        mret e
      else bind_streams i (bound ++ [b]) bs'
  end.

Definition app_manager_start_internal (context : AppStartContext) : proc (error_t + Z) :=
  if (negb (binding_count context =? 0)%nat && negb (is_some (bindings context)))%bool then mret (inl ERROR_INVALID_ARGUMENT)
  else
    i ← locked (allocate_instance context);
    let bs := take (binding_count context) (default [] (bindings context)) in
    e ← bind_streams i [] bs;
    if negb (e =? ERROR_NONE) then mret (inl e)
    else
      e ← app_scheduler_start i context;
      if negb (e =? ERROR_NONE) then
        for_each unsubscribe_binding bs;;
        locked (drop_instance i);;
        mret (inl e)
      else mret (inr i).

(** * Stopping *)

(** [self] is the instance of the calling task, 0 for none. *)
Definition app_scheduler_stop (self i : Z) : proc error_t :=
  if self =? i then mret ERROR_NOT_ALLOWED
  else
    completion ← locked (acquire_completion_signal i);
    in_time ← (match completion with
      | None => mret true
      | Some c =>
          _ ← app_signal_send i SIGTERM;
          locked (set_state i APP_INSTANCE_STATE_STOPPING);;
          taken ← wait (take_semaphore c);
          release_completion_signal c;;
          mret taken
      end);
    if negb in_time then mret ERROR_TIMEOUT
    else
      locked (set_state i APP_INSTANCE_STATE_STOPPED);;
      locked (erase_instance i);;
      mret ERROR_NONE.
Definition app_manager_stop (self i : Z) : proc error_t := app_scheduler_stop self i.
End scheduler.
