(* ===== verification/AppsOk.v ===== *)
(** Well-formed states of the running apps: descriptors refer to streams in memory, whose
    event groups exist, and the subscriptions to events are a proper list.  Streams,
    descriptor tables and events complete on such states and keep them well-formed, and
    change nothing of an instance but its descriptors. *)

From S2P Require Import Prelude Chains EventGroups AppEvents Apps Streams StreamSpecs.

(** Files of other components close without touching the ledger of apps. *)
Class OtherFilesLaws `{OtherFiles} : Prop := {
  other_close_done o x : ∃ e, other_close o x = Done (e, x);
}.

Section apps_ok.
Context `{FreeRtosEventGroup} `{OtherFilesLaws}.
(** Event groups and streams that the callers of app-module keep alive. *)
Variables live_groups live_streams : gset Z.
Implicit Types (x : apps) (r : AppInstanceRecord) (t : AppFdTable).

Definition file_ok x (f : AppFile) : Prop :=
  match f with NoFile => False | StreamFile a => is_Some (streams x !! a) | _ => True end.
Definition table_ok x t : Prop :=
  length (slots t) = 16%nat ∧ (table_mutex t = true ∧ shutting_down t = false) ∧ ∀ f, f ∈ open_files t → file_ok x f.
Definition bus_ok (b : app_events) : Prop := ∃ l, chain b (il_head b) l ∧ ∀ a, a ∈ l → app_live b a.

Record base_ok x : Prop := {
  ok_groups g : g ∈ live_groups → is_Some (groups x !! g);
  ok_live a : a ∈ live_streams → is_Some (streams x !! a);
  ok_streams a y : streams x !! a = Some y → is_Some (groups x !! stream_group y);
  ok_bus : bus_ok (app_bus x);
}.
Record apps_ok x : Prop := {
  ok_base : base_ok x;
  ok_idle a y : streams x !! a = Some y → active_operations y = 0;
  ok_tables i r : instances x !! i = Some r → table_ok x (fd_table r);
  ok_signals i r : instances x !! i = Some r → length (signal_handlers r) = 32%nat;
}.

(** An instance but for its descriptors. *)
Definition shape r : AppInstanceRecord := with_fd_table {| slots := []; table_mutex := true; shutting_down := false |} r.
Definition same_shape x x' : Prop :=
  shape <$> instances x' = shape <$> instances x ∧ ∀ a, is_Some (streams x !! a) → is_Some (streams x' !! a).

#[export] Instance same_shape_preorder : PreOrder same_shape.
Proof. split; [done|]. intros x y z [E1 S1] [E2 S2]. split; [congruence|auto]. Qed.

Lemma same_shape_some x x' i : same_shape x x' → is_Some (instances x !! i) → is_Some (instances x' !! i).
Proof.
  intros [Hs _]. apply (f_equal (λ m, m !! i)) in Hs. rewrite !lookup_fmap in Hs.
  intros [r Hr]. rewrite Hr in Hs. by destruct (instances x' !! i).
Qed.

(** [m] completes, from a state where the instance [o] is in the ledger. *)
Definition calm {A} (o : option Z) (m : M apps A) : Prop :=
  ∀ x, apps_ok x → (∀ i, o = Some i → is_Some (instances x !! i)) → wp m (λ _ x', apps_ok x' ∧ same_shape x x') x.

Lemma calm_ret {A} o (a : A) : calm o (mret a).
Proof. intros x Hx _. by split. Qed.

Lemma calm_bind {A B} o (m : M apps A) (f : A → M apps B) : calm o m → (∀ a, calm o (f a)) → calm o (m ≫= f).
Proof.
  intros Hm Hf x Hx Ho. apply wp_bind. eapply wp_mono; [by apply Hm|]. intros a x1 [Hx1 Hs1].
  eapply wp_mono; [apply Hf; [done|]|]; [intros i Hi; eapply same_shape_some, Ho; done|].
  intros b x2 [Hx2 Hs2]. split; [done|by etrans].
Qed.

Lemma calm_weaken {A} o (m : M apps A) : calm None m → calm o m.
Proof. intros Hm x Hx _. by apply Hm. Qed.

(** ** Groups and events *)

Lemma same_shape_bus x b : same_shape x (set_app_bus b x).
Proof. done. Qed.

(** A change of the event groups that removes none. *)
Lemma base_ok_groups x (gs : gmap Z TaskEventGroup) :
  (∀ g, is_Some (groups x !! g) → is_Some (gs !! g)) → base_ok x → base_ok (set_groups gs x).
Proof.
  intros Hg [Hgr Hlv Hst (l & Hc & Hl)]. split; try done.
  - intros g Hi. by apply Hg, Hgr.
  - intros a y Hy. by eapply Hg, Hst.
  - exists l. split; [by eapply chain_ext; [|exact Hc]|]. intros a Ha. destruct (Hl a Ha) as (u & Hu & Hok & Hgu).
    exists u. split; [done|]. split; [done|]. by apply Hg.
Qed.
Lemma apps_ok_groups x (gs : gmap Z TaskEventGroup) :
  (∀ g, is_Some (groups x !! g) → is_Some (gs !! g)) → apps_ok x → apps_ok (set_groups gs x).
Proof. intros Hg [Hb Hi Ht Hs]. split; [by apply base_ok_groups|done..]. Qed.

Lemma some_insert {A} (m : gmap Z A) g y : ∀ k, is_Some (m !! k) → is_Some (<[g := y]> m !! k).
Proof. intros k Hk. destruct (decide (k = g)) as [->|]; [by rewrite lookup_insert_eq; eexists|by rewrite lookup_insert_ne]. Qed.

Lemma calm_upd_group g f x :
  apps_ok x → is_Some (groups x !! g) → wp (upd_group g f) (λ _ x', apps_ok x' ∧ same_shape x x') x.
Proof.
  intros Hx [y Hy]. unfold wp. rewrite (upd_group_eq g f x y Hy). split; [|done]. apply apps_ok_groups; [|done]. apply some_insert.
Qed.

Lemma calm_claim g : g ∈ live_groups → calm None (task_event_group_claim_bit g).
Proof.
  intros Hg x Hx _. destruct (ok_groups x (ok_base x Hx) g Hg) as [y Hy].
  destruct (claim_bit_cases g x y Hy) as [(i & _ & _ & _ & E)|[_ E]]; unfold wp; rewrite E; [|by split].
  split; [|done]. apply apps_ok_groups; [|done]. apply some_insert.
Qed.

Lemma wp_release_bit g b x :
  apps_ok x → is_Some (groups x !! g) →
  wp (task_event_group_release_bit g b) (λ _ x', (apps_ok x' ∧ same_shape x x') ∧ ∀ g, is_Some (groups x !! g) → is_Some (groups x' !! g)) x.
Proof.
  intros Hx [y Hy]. unfold task_event_group_release_bit, event_group_clear. apply wp_bind, wp_bind.
  unfold wp at 1. rewrite (upd_group_eq g _ x y Hy). apply wp_ret. unfold wp at 1.
  erewrite upd_group_eq by (rewrite groups_set_groups; apply lookup_insert_eq).
  rewrite groups_set_groups, insert_insert_eq. change (set_groups ?a (set_groups ?b x)) with (set_groups a x).
  split; [split; [|done]|rewrite groups_set_groups; apply some_insert].
  apply apps_ok_groups; [|done]. apply some_insert.
Qed.
Lemma calm_release g b : g ∈ live_groups → calm None (task_event_group_release_bit g b).
Proof. intros Hg x Hx _. eapply wp_mono; [apply wp_release_bit; [done|by apply Hx]|]. by intros u x' [? _]. Qed.

Lemma app_live_emit b id e a u' :
  app_live b a → (emitted id e <$> app_subs b !! a = Some u') → sub_ok u' ∧ ∃ u, app_subs b !! a = Some u ∧ sub_event_group u' = sub_event_group u.
Proof.
  intros (u & Hu & Hok & _). rewrite Hu. intros [= <-]. split.
  - unfold emitted. destruct (_ && _)%bool eqn:E; [|done]. apply andb_true_iff in E as [_ E%Nat.ltb_lt]. by apply enqueue_ok.
  - exists u. split; [done|]. unfold emitted. by destruct (_ && _)%bool.
Qed.

(** Emitting keeps the groups. *)
Lemma emit_loop_groups fuel id e p (e1 e2 : error_t) b b' g :
  emit_loop fuel id e p e1 b = Done (e2, b') → is_Some (app_groups b !! g) → is_Some (app_groups b' !! g).
Proof.
  revert p e1 b. induction fuel as [|f IH]; intros p e1 b; destruct p as [a|]; cbn [emit_loop]; try done.
  - by intros [= _ <-].
  - unfold emit_one. intros (e3 & b1 & E1 & E)%bind_done Hg. apply bind_done in E as (u & b2 & E2 & E).
    unfold app_sub_at, Prelude.deref in E2. destruct (app_subs b1 !! a); [|done]. injection E2 as <- <-.
    eapply IH; [exact E|]. apply bind_done in E1 as (v & b2 & E2 & E1). unfold app_sub_at, Prelude.deref in E2.
    destruct (app_subs b !! a) as [w|] eqn:Hw; [|done]. injection E2 as <- <-.
    destruct (negb _); [by injection E1 as _ <-|]. destruct (_ <=? _)%nat; [by injection E1 as _ <-|].
    apply bind_done in E1 as (? & b3 & E2 & E1). rewrite (upd_app_sub_eq _ _ _ _ Hw) in E2. injection E2 as _ <-.
    apply bind_done in E1 as (? & b3 & E2 & E1). injection E1 as _ <-.
    unfold task_event_group_signal, event_group_set in E2. apply bind_done in E2 as (? & b4 & E2 & E3). injection E3 as _ <-.
    unfold upd_group in E2. apply bind_done in E2 as (y & b5 & E2 & E3). unfold group_at, Prelude.deref in E2.
    destruct (groups _ !! _) eqn:Ey; [|done]. injection E2 as <- <-. injection E3 as _ <-. by apply some_insert.
  - by intros [= _ <-].
Qed.

Lemma calm_emit id e : calm None (on_bus (app_event_emit id e)).
Proof.
  intros x [[Hgr Hlv Hst (l & Hc & Hl)] Hid Htb Hsg] _. unfold wp, on_bus.
  assert (∃ us, mapM (λ a, app_subs (app_bus x) !! a) l = Some us) as [us Hus].
  { apply mapM_is_Some_2, Forall_forall. intros a Ha. destruct (Hl a Ha) as (u & Hu & _). by exists u. }
  destruct (wp_done _ _ _ (emit_loop_eq (walk_fuel (app_bus x)) id
    {| app_event_data := e; app_event_timestamp := app_micros (app_bus x) |} _ ERROR_NOT_FOUND (app_bus x) l us Hc
    (Nat.lt_le_incl _ _ (chain_fuel _ _ _ Hc)) Hl Hus)) as (r & b' & E & _ & Hh & Hs).
  assert (∀ g, is_Some (app_groups (app_bus x) !! g) → is_Some (app_groups b' !! g)) as Hg by (intros g; by eapply emit_loop_groups).
  unfold app_event_emit, mbind, M_bind, gets. cbn [il_head app_events_list] in E. rewrite E. cbn beta iota. split; [|done].
  split; [|done..]. split; try done.
  - intros g Hi. by apply Hg, Hgr.
  - intros a y Hy. by eapply Hg, Hst.
  - exists l. split.
    + change (il_head (app_bus (set_app_bus b' x))) with (app_subscriptions b'). rewrite Hh. eapply chain_ext; [|exact Hc].
      intros a Ha. change (sub_next <$> app_subs b' !! a = sub_next <$> app_subs (app_bus x) !! a). rewrite Hs, decide_True by done.
      rewrite <-option_fmap_compose. apply option_fmap_ext. intros u. apply emitted_next.
    + intros a Ha. destruct (Hl a Ha) as (u & Hu & Hok & Hgu). change (app_live b' a).
      pose proof (Hs a) as Ea. rewrite decide_True, Hu in Ea by done. exists (emitted id {| app_event_data := e; app_event_timestamp := app_micros (app_bus x) |} u).
      split; [done|]. destruct (app_live_emit (app_bus x) id {| app_event_data := e; app_event_timestamp := app_micros (app_bus x) |} a (emitted id {| app_event_data := e; app_event_timestamp := app_micros (app_bus x) |} u)) as (Hok' & v & Hv & Hgv); [by apply Hl|by rewrite Hu|].
      split; [done|]. rewrite Hgv. rewrite Hu in Hv. injection Hv as <-. by apply Hg.
Qed.

(** ** Streams *)

Lemma file_ok_mono x x' f : (∀ a, is_Some (streams x !! a) → is_Some (streams x' !! a)) → file_ok x f → file_ok x' f.
Proof. intros Hs. destruct f; simpl; auto. Qed.
Lemma table_ok_mono x x' t : (∀ a, is_Some (streams x !! a) → is_Some (streams x' !! a)) → table_ok x t → table_ok x' t.
Proof. intros Hs (Hl & Hd & Hf). split; [done|]. split; [done|]. intros f Hin. eapply file_ok_mono; [exact Hs|auto]. Qed.

Lemma base_ok_stream x a y : is_Some (groups x !! stream_group y) → base_ok x → base_ok (set_streams (<[a := y]> (streams x)) x).
Proof.
  intros Hg [Hgr Hlv Hst Hb]. split; try done; simpl.
  - intros b Hb'. by apply some_insert, Hlv.
  - intros b z. destruct (decide (b = a)) as [->|].
    + rewrite lookup_insert_eq. by intros [= <-].
    + rewrite lookup_insert_ne by done. apply Hst.
Qed.
Lemma apps_ok_stream x a y :
  is_Some (groups x !! stream_group y) → active_operations y = 0 → apps_ok x → apps_ok (set_streams (<[a := y]> (streams x)) x).
Proof.
  intros Hg Ha [Hb Hi Ht Hs]. split; [by apply base_ok_stream| | |done].
  - intros b z. simpl. destruct (decide (b = a)) as [->|]; [rewrite lookup_insert_eq; by intros [= <-]|].
    rewrite lookup_insert_ne by done. apply Hi.
  - intros i r Hr. apply (table_ok_mono x); [apply some_insert|by apply (Ht i)].
Qed.

Lemma calm_upd_stream a f x :
  (∀ y, stream_group (f y) = stream_group y ∧ active_operations (f y) = active_operations y) →
  apps_ok x → is_Some (streams x !! a) → wp (upd_stream a f) (λ _ x', apps_ok x' ∧ same_shape x x') x.
Proof.
  intros Hf Hx [y Hy]. unfold wp. rewrite (upd_stream_eq a f x y Hy). split; [|split; [done|apply some_insert]].
  pose proof (ok_streams x (ok_base x Hx) a y Hy) as Hg. pose proof (ok_idle x Hx a y Hy) as Ha. destruct (Hf y) as [Ef Ea].
  apply apps_ok_stream; [by rewrite Ef|by rewrite Ea|done].
Qed.

(** What closing a file changes: event groups and what streams hold. *)
Definition quiet x x' : Prop :=
  instances x' = instances x ∧ ∀ a, active_operations <$> streams x' !! a = active_operations <$> streams x !! a.
#[export] Instance quiet_preorder : PreOrder quiet.
Proof. split; [done|]. intros x y z [Hi Hs] [Hi' Hs']. split; [congruence|]. intros a. by rewrite Hs'. Qed.
Lemma quiet_some x x' a : quiet x x' → is_Some (streams x !! a) → is_Some (streams x' !! a).
Proof. intros [_ Hs] [y Hy]. specialize (Hs a). rewrite Hy in Hs. by destruct (streams x' !! a). Qed.

Lemma quiet_shape x x' : quiet x x' → same_shape x x'.
Proof. intros Hq. split; [by rewrite (proj1 Hq)|]. intros a. by apply quiet_some. Qed.

Lemma wp_signal g bit x :
  base_ok x → is_Some (groups x !! g) →
  wp (task_event_group_signal g bit) (λ _ x', base_ok x' ∧ quiet x x' ∧ streams x' = streams x ∧ ∀ g, is_Some (groups x !! g) → is_Some (groups x' !! g)) x.
Proof.
  intros Hx [y Hy]. unfold task_event_group_signal, event_group_set. apply wp_bind. unfold wp at 1. rewrite (upd_group_eq g _ x y Hy).
  apply wp_ret. split; [apply base_ok_groups; [apply some_insert|done]|]. split; [done|]. split; [done|].
  rewrite groups_set_groups. apply some_insert.
Qed.

Lemma wp_app_stream_close a x :
  base_ok x → is_Some (streams x !! a) → wp (app_stream_close a) (λ _ x', base_ok x' ∧ quiet x x') x.
Proof.
  intros Hx [y Hy]. pose proof (ok_streams x Hx a y Hy) as Hg. unfold app_stream_close. apply wp_bind. unfold wp at 1.
  rewrite (upd_stream_eq a _ x y Hy). set (x1 := set_streams _ x). assert (base_ok x1) as Hx1 by by apply base_ok_stream.
  assert (quiet x x1) as Hq1.
  { split; [done|]. intros b. simpl. destruct (decide (b = a)) as [->|]; [by rewrite lookup_insert_eq, Hy|by rewrite lookup_insert_ne]. }
  apply wp_bind. unfold wp at 1. rewrite (stream_at_eq a x1 (with_closed true y)) by apply lookup_insert_eq.
  apply wp_bind. eapply wp_mono; [by apply wp_signal|]. intros _ x2 (Hx2 & Hq2 & _ & Hg2).
  apply wp_bind. eapply wp_mono; [by apply wp_signal; [|apply Hg2]|]. intros _ x3 (Hx3 & Hq3 & _ & _).
  apply wp_ret. split; [done|]. by do 2 (etrans; [eassumption|]).
Qed.

Lemma wp_upd_active a f x y :
  (∀ z, stream_group (f z) = stream_group z) → base_ok x → streams x !! a = Some y →
  wp (upd_stream a f) (λ _ x', base_ok x' ∧ instances x' = instances x ∧ streams x' = <[a := f y]> (streams x)) x.
Proof.
  intros Hf Hx Hy. unfold wp. rewrite (upd_stream_eq a f x y Hy). split; [|done].
  apply base_ok_stream; [|done]. rewrite Hf. by eapply ok_streams.
Qed.

Lemma wp_file_close f x : base_ok x → file_ok x f → wp (file_close f) (λ _ x', base_ok x' ∧ quiet x x') x.
Proof.
  intros Hx Hf. destruct f as [| |a|o]; simpl in *; [done|by split| |].
  - destruct Hf as [y Hy]. unfold stream_file_close, guarded. apply wp_bind.
    eapply wp_mono; [by apply (wp_upd_active a _ x y)|]. intros _ x1 (Hx1 & Hi1 & Hs1). apply wp_bind.
    eapply wp_mono; [apply wp_app_stream_close; [done|rewrite Hs1, lookup_insert_eq; by eexists]|]. intros e x2 (Hx2 & Hi2 & Hs2).
    pose proof (Hs2 a) as Ea. rewrite Hs1, lookup_insert_eq in Ea. destruct (streams x2 !! a) as [z|] eqn:Hz; [|done]. injection Ea as Ea.
    apply wp_bind. eapply wp_mono; [by apply (wp_upd_active a _ x2 z)|]. intros _ x3 (Hx3 & Hi3 & Hs3).
    apply wp_ret. split; [done|]. split; [congruence|]. intros b. rewrite Hs3. destruct (decide (b = a)) as [->|].
    + rewrite lookup_insert_eq, Hy. simpl. f_equal. lia.
    + by rewrite lookup_insert_ne, Hs2, Hs1, lookup_insert_ne.
  - destruct (other_close_done o x) as [e E]. unfold wp. rewrite E. by split.
Qed.

Lemma wp_close_all l x :
  base_ok x → (∀ f, f ∈ l → file_ok x f) → wp (for_list (λ f, file_close f;; mret tt) l) (λ _ x', base_ok x' ∧ quiet x x') x.
Proof.
  revert x. induction l as [|f l IH]; intros x Hx Hl; cbn [for_list]; [by split|]. apply wp_bind, wp_bind.
  eapply wp_mono; [apply wp_file_close; [done|by apply Hl; left]|]. intros e x1 [Hx1 Hq1]. apply wp_ret.
  eapply wp_mono; [apply IH; [done|]|].
  - intros g Hg. eapply file_ok_mono; [|by apply Hl; right]. intros a. by apply quiet_some.
  - intros u x2 [Hx2 Hq2]. split; [done|by etrans].
Qed.

(** ** Descriptor tables *)

Lemma apps_ok_quiet x x' : apps_ok x → base_ok x' → quiet x x' → apps_ok x'.
Proof.
  intros [Hb Hid Ht Hs] Hb' Hq. split; [done| | |].
  - intros a y Hy. destruct Hq as [_ Hq]. specialize (Hq a). rewrite Hy in Hq. destruct (streams x !! a) as [z|] eqn:Hz; [|done].
    injection Hq as ->. by eapply Hid.
  - intros i r. rewrite (proj1 Hq). intros Hr. eapply table_ok_mono; [intros a; by apply quiet_some|by apply (Ht i)].
  - intros i r. rewrite (proj1 Hq). apply Hs.
Qed.

Lemma same_shape_insert x i r r' m : instances x !! i = Some r → shape r' = shape r → m = <[i := r']> (instances x) → shape <$> m = shape <$> instances x.
Proof. intros Hr Hs ->. rewrite fmap_insert, Hs. rewrite insert_id; [done|]. by rewrite lookup_fmap, Hr. Qed.

Lemma apps_ok_table x i r t :
  apps_ok x → instances x !! i = Some r → table_ok x t →
  let x' := set_instances (<[i := with_fd_table t r]> (instances x)) x in apps_ok x' ∧ same_shape x x'.
Proof.
  intros [Hb Hid Ht Hs] Hr Hok. split; [|split; [by apply (same_shape_insert x i r (with_fd_table t r))|done]].
  split; [by destruct Hb|done| |].
  - intros j r'. simpl. destruct (decide (j = i)) as [->|]; [rewrite lookup_insert_eq; by intros [= <-]|].
    rewrite lookup_insert_ne by done. apply Ht.
  - intros j r'. simpl. destruct (decide (j = i)) as [->|]; [rewrite lookup_insert_eq; intros [= <-]; by apply (Hs i r)|].
    rewrite lookup_insert_ne by done. apply Hs.
Qed.

Lemma open_files_insert t n z f :
  f ∈ open_files (with_slots (<[n := z]> (slots t)) t) → f ∈ open_files t ∨ (in_use z = true ∧ f = slot_file z).
Proof.
  unfold open_files. simpl. intros (y & -> & Hy)%list_elem_of_fmap. apply list_elem_of_filter in Hy as [Hu Hy].
  apply list_elem_of_lookup in Hy as [k Hk]. destruct (decide (n = k)) as [<-|Hne].
  - right. apply list_lookup_insert_Some in Hk as [(_ & -> & _)|[? _]]; [|done]. done.
  - left. rewrite list_lookup_insert_ne in Hk by done. apply list_elem_of_fmap. exists y. split; [done|].
    apply list_elem_of_filter. split; [done|]. by eapply list_elem_of_lookup_2.
Qed.

Lemma table_ok_insert x t n z : table_ok x t → (in_use z = true → file_ok x (slot_file z)) → table_ok x (with_slots (<[n := z]> (slots t)) t).
Proof.
  intros (Hl & Hd & Hf) Hz. split; [by simpl; rewrite length_insert|]. split; [done|].
  intros f [Hin|[Hu ->]]%open_files_insert; auto.
Qed.

Lemma open_file t n z : slots t !! n = Some z → in_use z = true → slot_file z ∈ open_files t.
Proof.
  intros Hz Hu. unfold open_files. apply list_elem_of_fmap. exists z. split; [done|]. apply list_elem_of_filter. split; [done|].
  by eapply list_elem_of_lookup_2.
Qed.

Lemma wp_bind_fd i fd f x :
  apps_ok x → is_Some (instances x !! i) → file_ok x f → wp (app_fd_table_bind i fd f) (λ _ x', apps_ok x' ∧ same_shape x x') x.
Proof.
  intros Hx [r Hr] Hf. unfold app_fd_table_bind. destruct (fd_in_range fd) eqn:Hfd; cbn [negb]; [|by apply wp_ret].
  destruct (ok_tables x Hx i r Hr) as (Hl & [Hm Hd] & Hfs).
  apply wp_bind. unfold wp at 1. rewrite (lock_table_eq i x r Hr Hm). apply wp_bind, wp_check; [by rewrite Hd|].
  destruct (lookup_lt_is_Some_2 (slots (fd_table r)) (Z.to_nat fd)) as [z Hz].
  { unfold fd_in_range, APP_MAX_FDS in Hfd. lia. }
  apply wp_bind. eapply wp_deref; [exact Hz|]. apply wp_bind. unfold wp at 1. rewrite (table_upd_eq i _ x r Hr).
  destruct (apps_ok_table x i r (set_slot fd (used_slot f) (fd_table r)) Hx Hr) as [Hx1 Hs1]; [by apply table_ok_insert|].
  set (x1 := set_instances _ x) in *. apply wp_bind. destruct (in_use z) eqn:Hu; [|by apply wp_ret, wp_ret].
  apply wp_bind. eapply wp_mono; [apply wp_file_close; [by apply Hx1|]|].
  { apply (file_ok_mono x); [done|]. apply Hfs. by eapply open_file. }
  intros e x2 [Hx2 Hq2]. apply wp_ret, wp_ret. split; [by eapply apps_ok_quiet|].
  etrans; [exact Hs1|]. by apply quiet_shape.
Qed.

(** ** Streams of an instance *)

Lemma wp_from {A} (m : M apps A) x x1 :
  same_shape x x1 → wp m (λ _ x', apps_ok x' ∧ same_shape x1 x') x1 → wp m (λ _ x', apps_ok x' ∧ same_shape x x') x1.
Proof. intros Hs Hm. eapply wp_mono; [exact Hm|]. intros a x' [Hx' Hs']. split; [done|by etrans]. Qed.

Lemma calm_then {A B} (m : M apps A) (f : A → M apps B) x :
  apps_ok x → wp m (λ _ x', apps_ok x' ∧ same_shape x x') x → (∀ a, calm None (f a)) →
  wp (m ≫= f) (λ _ x', apps_ok x' ∧ same_shape x x') x.
Proof.
  intros Hx Hm Hf. apply wp_bind. eapply wp_mono; [exact Hm|]. intros a x1 [Hx1 Hs1].
  eapply wp_mono; [by apply Hf|]. intros b x2 [Hx2 Hs2]. split; [done|by etrans].
Qed.

Lemma calm_release_both {A} g rb wb (a : A) : g ∈ live_groups → calm None (task_event_group_release_bit g rb;; task_event_group_release_bit g wb;; mret a).
Proof. intros Hg. apply calm_bind; [by apply calm_release|]. intros _. apply calm_bind; [by apply calm_release|]. intros _. apply calm_ret. Qed.

Lemma calm_subscribe a data g i fd : g ∈ live_groups → calm None (app_stream_subscribe a data g i fd).
Proof.
  intros Hg. unfold app_stream_subscribe. destruct (_ || _)%bool; [apply calm_ret|].
  apply calm_bind; [by apply calm_claim|]. intros [e [rb|]]; [|apply calm_ret].
  apply calm_bind; [by apply calm_claim|]. intros [e' [wb|]]; [|apply calm_bind; [by apply calm_release|intros _; apply calm_ret]].
  intros x Hx _. set (x1 := set_streams (<[a := new_stream i fd g rb wb data]> (streams x)) x).
  assert (apps_ok x1) as Hx1 by (apply apps_ok_stream; [by apply Hx|done|done]).
  assert (is_Some (streams x1 !! a)) as Ha by (exists (new_stream i fd g rb wb data); apply lookup_insert_eq).
  apply wp_bind. change (wp (o ← gets (λ s, instances s !! i); match o with
    | Some r => upd_stream a (with_producer_task (task r));; e0 ← app_fd_table_bind i fd (StreamFile a);
        if negb (e0 =? ERROR_NONE) then task_event_group_release_bit g rb;; task_event_group_release_bit g wb;; mret e0 else mret e0
    | None => task_event_group_release_bit g rb;; task_event_group_release_bit g wb;; mret ERROR_NOT_FOUND end)
    (λ _ x', apps_ok x' ∧ same_shape x x') x1).
  assert (same_shape x x1) as Hs1 by (split; [done|apply some_insert]).
  apply wp_from; [done|].
  apply wp_bind, wp_gets. cbn beta. destruct (instances x1 !! i) as [r|] eqn:Hr; [|by apply calm_release_both].
  apply wp_bind. eapply wp_mono; [by apply calm_upd_stream|]. intros _ x2 [Hx2 Hs2].
  apply wp_from; [done|].
  apply calm_then; [done| |intros e2; destruct (negb _); [by apply calm_release_both|apply calm_ret]].
  apply wp_bind_fd; [done|by apply (same_shape_some x1); [done|exists r]|]. by apply Hs2.
Qed.

Lemma calm_set_window_size a c h x : apps_ok x → is_Some (streams x !! a) → wp (app_stream_set_window_size a c h) (λ _ x', apps_ok x' ∧ same_shape x x') x.
Proof. intros Hx Ha. by apply calm_upd_stream. Qed.

Lemma calm_bind_alias a fd x : apps_ok x → is_Some (streams x !! a) → wp (app_stream_bind_alias_fd a fd) (λ _ x', apps_ok x' ∧ same_shape x x') x.
Proof.
  intros Hx [y Hy]. unfold app_stream_bind_alias_fd. destruct (_ || _)%bool; [by apply wp_ret|].
  apply wp_bind. unfold wp at 1. rewrite (stream_at_eq a x y Hy). apply wp_bind, wp_gets. cbn beta.
  destruct (instances x !! producer_id y) as [r|] eqn:Hr; [|by apply wp_ret]. apply wp_bind_fd; [done|by exists r|by exists y].
Qed.

Lemma wp_close_fd i fd x :
  apps_ok x → is_Some (instances x !! i) → 0 ≤ fd < APP_MAX_FDS → wp (app_fd_table_close i fd) (λ _ x', apps_ok x' ∧ same_shape x x') x.
Proof.
  intros Hx [r Hr] Hfd. unfold app_fd_table_close. assert (fd_in_range fd = true) as -> by (unfold fd_in_range; lia). cbn [negb].
  destruct (ok_tables x Hx i r Hr) as (Hl & [Hm Hd] & Hfs).
  apply wp_bind. unfold wp at 1. rewrite (lock_table_eq i x r Hr Hm). apply wp_bind, wp_check; [by rewrite Hd|].
  destruct (lookup_lt_is_Some_2 (slots (fd_table r)) (Z.to_nat fd)) as [z Hz]; [unfold APP_MAX_FDS in Hfd; lia|].
  apply wp_bind. eapply wp_deref; [exact Hz|]. apply wp_bind. unfold wp at 1. rewrite (table_upd_eq i _ x r Hr).
  destruct (apps_ok_table x i r (set_slot fd (with_in_use false z) (fd_table r)) Hx Hr) as [Hx1 Hs1]; [by apply table_ok_insert|].
  set (x1 := set_instances _ x) in *. destruct (in_use z) eqn:Hu; cbn [negb]; [|by apply wp_ret].
  eapply wp_mono; [apply wp_file_close; [by apply Hx1|]|].
  { apply (file_ok_mono x); [done|]. apply Hfs. by eapply open_file. }
  intros e x2 [Hx2 Hq2]. split; [by eapply apps_ok_quiet|]. etrans; [exact Hs1|by apply quiet_shape].
Qed.

Lemma wp_close_stream_fds i a n fd x :
  apps_ok x → is_Some (instances x !! i) → 0 ≤ fd → fd + Z.of_nat n ≤ APP_MAX_FDS →
  wp (close_stream_fds i a fd n) (λ _ x', apps_ok x' ∧ same_shape x x') x.
Proof.
  revert fd x. induction n as [|n IH]; intros fd x Hx Hi Hlo Hn; cbn [close_stream_fds]; [by apply wp_ret|].
  destruct Hi as [r Hr]. destruct (ok_tables x Hx i r Hr) as (Hl & [Hm Hd] & Hfs).
  destruct (lookup_lt_is_Some_2 (slots (fd_table r)) (Z.to_nat fd)) as [z Hz]; [unfold APP_MAX_FDS in Hn; lia|].
  apply wp_bind. unfold wp at 1. rewrite (get_internal_eq i fd x r z) by (done || lia). apply wp_bind.
  assert (wp (if bool_decide ((if in_use z then Some (slot_file z) else None) = Some (StreamFile a)) then app_fd_table_close i fd;; mret tt else mret tt)
    (λ _ x', apps_ok x' ∧ same_shape x x') x) as Hc.
  { case_bool_decide; [|by apply wp_ret]. apply calm_then; [done| |intros e; apply calm_ret]. apply wp_close_fd; [done|by exists r|lia]. }
  eapply wp_mono; [exact Hc|]. intros _ x1 [Hx1 Hs1].
  eapply wp_mono; [apply IH; [done|by apply (same_shape_some x); [|exists r]|lia|lia]|].
  intros _ x2 [Hx2 Hs2]. split; [done|by etrans].
Qed.

Lemma calm_unsubscribe a x : apps_ok x → is_Some (streams x !! a) → wp (app_stream_unsubscribe a) (λ _ x', apps_ok x' ∧ same_shape x x') x.
Proof.
  intros Hx [y Hy]. unfold app_stream_unsubscribe. apply wp_bind. unfold wp at 1. rewrite (stream_at_eq a x y Hy).
  apply wp_bind, wp_gets. cbn beta. apply wp_bind.
  assert (wp (match instances x !! producer_id y with Some _ => close_stream_fds (producer_id y) a 0 (Z.to_nat APP_MAX_FDS) | None => mret tt end)
    (λ _ x', apps_ok x' ∧ same_shape x x') x) as Hc.
  { destruct (instances x !! producer_id y) as [r|] eqn:Hr; [|by apply wp_ret]. apply wp_close_stream_fds; [done|by exists r|lia|done]. }
  eapply wp_mono; [exact Hc|]. intros _ x1 [Hx1 Hs1].
  apply wp_from; [done|].
  assert (is_Some (streams x1 !! a)) as Ha1 by (apply Hs1; by exists y).
  apply wp_bind. eapply wp_mono; [apply wp_app_stream_close; [by apply Hx1|done]|]. intros e x2 [Hx2 Hq2].
  assert (apps_ok x2) as Hok2 by by eapply apps_ok_quiet. destruct (quiet_some _ _ a Hq2 Ha1) as [z Hz].
  apply wp_from; [by apply quiet_shape|].
  apply wp_bind. unfold wp at 1. rewrite (stream_at_eq a x2 z Hz), (ok_idle x2 Hok2 a z Hz). cbn [Z.eqb negb].
  pose proof (ok_streams x2 Hx2 a z Hz) as Hg.
  apply wp_bind. eapply wp_mono; [by apply wp_release_bit|]. intros _ x3 [[Hx3 Hs3] Hg3].
  apply wp_bind. eapply wp_mono; [apply wp_release_bit; [done|by apply Hg3]|]. intros _ x4 [[Hx4 Hs4] _].
  apply wp_ret. split; [done|by etrans].
Qed.

(** ** Instances that come and go *)

Definition erased (i : Z) x : apps := set_instances (delete i (instances x)) x.

Lemma apps_ok_erased i x : apps_ok x → apps_ok (erased i x).
Proof.
  intros [Hb Hid Ht Hs]. split; [by destruct Hb|done| |]; intros j r; simpl; intros [_ Hr]%lookup_delete_Some; [by apply (Ht j)|by apply (Hs j)].
Qed.

Lemma wp_teardown i x :
  apps_ok x → is_Some (instances x !! i) →
  wp (app_fd_table_teardown i) (λ _ x', apps_ok (erased i x') ∧ same_shape (erased i x) (erased i x') ∧ ∀ a, is_Some (streams x !! a) → is_Some (streams x' !! a)) x.
Proof.
  intros Hx [r Hr]. destruct (ok_tables x Hx i r Hr) as (Hl & [Hm Hd] & Hfs). unfold app_fd_table_teardown.
  apply wp_bind. unfold wp at 1. rewrite (lock_table_eq i x r Hr Hm). apply wp_bind. unfold wp at 1. rewrite (table_upd_eq i _ x r Hr).
  set (x1 := set_instances _ x). assert (base_ok x1) as Hx1 by (destruct (ok_base x Hx); by split).
  apply wp_bind. eapply wp_mono; [apply wp_close_all; [done|]|].
  { intros f Hf. apply (file_ok_mono x); [done|by apply Hfs]. }
  intros _ x2 [Hx2 Hq2].
  assert (delete i (instances x2) = delete i (instances x)) as Ed.
  { rewrite (proj1 Hq2). simpl. by rewrite delete_insert_eq. }
  assert (∃ r2, instances x2 !! i = Some r2) as [r2 Hr2] by (rewrite (proj1 Hq2); simpl; rewrite lookup_insert_eq; by eexists).
  unfold wp. rewrite (table_upd_eq i _ x2 r2 Hr2). cbn beta iota.
  set (x3 := set_instances _ x2). assert (erased i x3 = erased i x2) as -> by (unfold erased, x3; simpl; by rewrite delete_insert_eq).
  split; [|split].
  - apply (apps_ok_quiet (erased i x)); [by apply apps_ok_erased|by destruct Hx2|]. split; [done|apply Hq2].
  - split; [by simpl; rewrite Ed|]. intros a. apply (quiet_some x1 x2 a Hq2).
  - intros a. apply (quiet_some x1 x2 a Hq2).
Qed.

Lemma apps_ok_insert i r x :
  apps_ok x → table_ok x (fd_table r) → length (signal_handlers r) = 32%nat → apps_ok (set_instances (<[i := r]> (instances x)) x).
Proof.
  intros [Hb Hid Ht Hs] Hok Hsig. split; [by destruct Hb|done| |]; intros j r'; simpl;
    (destruct (decide (j = i)) as [->|]; [rewrite lookup_insert_eq; by intros [= <-]|rewrite lookup_insert_ne by done]); [apply Ht|apply Hs].
Qed.

(** An update of an instance that keeps its descriptors and its handlers. *)
Lemma apps_ok_alter i f x :
  (∀ r, fd_table (f r) = fd_table r ∧ signal_handlers (f r) = signal_handlers r) → apps_ok x → apps_ok (set_instances (alter f i (instances x)) x).
Proof.
  intros Hf [Hb Hid Ht Hs]. split; [by destruct Hb|done| |]; intros j r; simpl; (destruct (decide (j = i)) as [->|];
    [rewrite lookup_alter_eq; intros (r' & Hr' & ->)%fmap_Some; destruct (Hf r') as [E1 E2]|rewrite lookup_alter_ne by done]).
  - rewrite E1. by apply (Ht i).
  - apply Ht.
  - rewrite E2. by apply (Hs i).
  - apply Hs.
Qed.

(** A new instance, with its descriptors constructed in place. *)
Lemma wp_insert_construct i r x :
  apps_ok x → length (slots (fd_table r)) = 16%nat → length (signal_handlers r) = 32%nat →
  wp (modify (λ x, set_instances (<[i := r]> (instances x)) x);; app_fd_table_construct i)
    (λ _ x', apps_ok x' ∧ shape <$> instances x' = <[i := shape r]> (shape <$> instances x)) x.
Proof.
  intros Hx Hl Hsig. apply wp_bind, wp_modify. unfold app_fd_table_construct, wp. set (y := set_instances _ x).
  rewrite (table_upd_eq i _ y r) by apply lookup_insert_eq.
  assert (∀ t, set_instances (<[i := with_fd_table t r]> (instances y)) y = set_instances (<[i := with_fd_table t r]> (instances x)) x) as ->
    by (intros t; unfold y; simpl; by rewrite insert_insert_eq).
  split; [|simpl; by rewrite fmap_insert]. apply apps_ok_insert; [done| |done].
  split; [by simpl; rewrite length_imap|]. split; [done|]. intros f. unfold open_files. simpl.
  intros (z & -> & Hz)%list_elem_of_fmap. apply list_elem_of_filter in Hz as [Hu (n & Hz)%list_elem_of_lookup].
  rewrite list_lookup_imap in Hz. apply fmap_Some in Hz as (z' & _ & ->). by destruct (_ <=? _).
Qed.
End apps_ok.
