(* ===== verification/SchedulerInv.v ===== *)
(** The protocol between an app's task, the task that starts it and those that stop it,
    as an invariant: what each task holds (its role) against the ledger's entries and the
    completion signals in memory, and how the sections of the scheduler change roles. *)

From S2P Require Import Prelude AppEvents Apps AppLedger.

(** * Roles *)

(** [inst]: the instance the task starts or runs, and how far it has got: 0 while it
    starts, 1 from when its completion signal is in the ledger, 2 from when its entry has
    left.  [comp]: its own reference to the signal.  [waits]: a reference of a task that
    stops an instance.  [reaps]: a signal without references that the task deletes.
    [facts]: stages that instances are known to have reached.  [budget]: how many
    instances the task may still start. *)
Record role := Role {
  inst : option Z;
  stage : nat;
  comp : option Z;
  waits : option (Z * Z);
  reaps : option Z;
  facts : list (Z * nat);
  budget : nat;
}.

Implicit Types (w : role) (ws : list role) (cs : gmap Z AppCompletionSignal) (es : gmap Z (option Z)) (c i : Z).

Definition idle (F : list (Z * nat)) (b : nat) : role := Role None 0 None None None F b.

Definition count (f : role → option Z) c ws : nat := length (filter (λ w, f w = Some c) ws).
Definition waited w : option Z := fst <$> waits w.
Definition refs c ws : nat := count comp c ws + count waited c ws.
Definition total ws : nat := sum_list (budget <$> ws).

(** What a role knows of another. *)
Definition knows w w' : Prop :=
  (∀ c i, waits w = Some (c, i) → (inst w' = Some i → comp w' = Some c ∨ stage w' = 2%nat) ∧ (comp w' = Some c → (1 ≤ stage w')%nat)) ∧
  (∀ i n, (i, n) ∈ facts w → inst w' = Some i → (n ≤ stage w')%nat).

(** [es] has the completion signal of every entry; with [strict], nobody takes an entry
    off the ledger but the instance's own task, unless it has. *)
Record protocol (strict : Prop) (next : Z) cs es ws : Prop := {
  p_next : 1 ≤ next ∧ next + Z.of_nat (total ws) < 2 ^ 32;
  p_refs c : match cs !! c with
             | Some x => refcount x = Z.of_nat (refs c ws) ∧ count reaps c ws = (if (refcount x =? 0)%Z then 1 else 0)%nat
             | None => refs c ws = 0%nat ∧ count reaps c ws = 0%nat
             end;
  p_insts : NoDup (omap inst ws);
  p_comps : NoDup (omap comp ws);
  p_ids w : w ∈ ws → (∀ i, inst w = Some i → 0 < i < next) ∧ (∀ c i, waits w = Some (c, i) → i < next) ∧
                     (∀ i n, (i, n) ∈ facts w → i < next);
  p_entries i c : es !! i = Some (Some c) → ∃ w, w ∈ ws ∧ inst w = Some i ∧ stage w = 1%nat ∧ comp w = Some c;
  p_listed i : is_Some (es !! i) → ∃ w, w ∈ ws ∧ inst w = Some i ∧ (stage w ≤ 1)%nat;
  p_knows w w' : w ∈ ws → w' ∈ ws → knows w w';
  p_given c x w : cs !! c = Some x → given x = true → w ∈ ws → comp w = Some c → stage w = 2%nat;
  p_strict w i : strict → w ∈ ws → inst w = Some i → (stage w ≤ 1)%nat → ∃ o, es !! i = Some o ∧ (stage w = 1%nat → o = comp w ∧ is_Some o);
}.

(** ** Lists of roles *)

Lemma omap_permutation {A B} (f : A → option B) l l' : l ≡ₚ l' → omap f l ≡ₚ omap f l'.
Proof.
  induction 1 as [|x l l' _ IH|x y l|l1 l2 l3 _ IH1 _ IH2]; simpl; [done| | |by etrans].
  - destruct (f x); [by constructor|done].
  - destruct (f x), (f y); try done. constructor.
Qed.

Lemma count_permutation f c ws ws' : ws ≡ₚ ws' → count f c ws = count f c ws'.
Proof. intros Hp. unfold count. by rewrite Hp. Qed.
Lemma count_cons f c w ws : count f c (w :: ws) = ((if decide (f w = Some c) then 1 else 0) + count f c ws)%nat.
Proof. unfold count. rewrite filter_cons. by case_decide. Qed.
Lemma refs_cons c w ws :
  refs c (w :: ws) = ((if decide (comp w = Some c) then 1 else 0) + (if decide (waited w = Some c) then 1 else 0) + refs c ws)%nat.
Proof. unfold refs. rewrite !count_cons. lia. Qed.
Lemma total_cons w ws : total (w :: ws) = (budget w + total ws)%nat.
Proof. done. Qed.
Lemma total_permutation ws ws' : ws ≡ₚ ws' → total ws = total ws'.
Proof. induction 1 as [| | |? ? ? ? IH1 ? IH2]; rewrite ?total_cons; [done|lia|lia|by rewrite IH1]. Qed.

Lemma count_in f c w ws : w ∈ ws → f w = Some c → (0 < count f c ws)%nat.
Proof.
  intros Hw Hf. unfold count. destruct (filter _ ws) as [|v l] eqn:E; [|simpl; lia].
  exfalso. assert (w ∈ filter (λ w, f w = Some c) ws) as Hin by (by apply list_elem_of_filter). rewrite E in Hin. by apply not_elem_of_nil in Hin.
Qed.
Lemma count_none f c ws : count f c ws = 0%nat → ∀ w, w ∈ ws → f w ≠ Some c.
Proof. intros E w Hw Hf. pose proof (count_in f c w ws Hw Hf). lia. Qed.

Lemma in_omap {B} (f : role → option B) w ws b : w ∈ ws → f w = Some b → b ∈ omap f ws.
Proof. intros Hw Hf. apply list_elem_of_omap. by exists w. Qed.

(** No other role has the same instance. *)
Lemma others {B} (f : role → option B) w w' ws b : NoDup (omap f (w :: ws)) → f w = Some b → w' ∈ ws → f w' ≠ Some b.
Proof. simpl. intros Hn Hf Hw Hf'. rewrite Hf in Hn. apply NoDup_cons in Hn as [Hn _]. by eapply Hn, in_omap. Qed.

Lemma NoDup_omap_weaken {B} (f : role → option B) w w' ws : (f w' = None ∨ f w' = f w) → NoDup (omap f (w :: ws)) → NoDup (omap f (w' :: ws)).
Proof. intros [E|E]; simpl; rewrite E; [|done]. destruct (f w); [|done]. by intros [_ Hn]%NoDup_cons. Qed.

Section protocol.
Variable strict : Prop.
Implicit Types next : Z.
Abbreviation protocol := (protocol strict).

Lemma protocol_permutation next cs es ws ws' : ws ≡ₚ ws' → protocol next cs es ws → protocol next cs es ws'.
Proof.
  intros Hp [P1 P2 P3 P4 P5 P6 PL P7 P8 P9].
  assert (∀ w, w ∈ ws' → w ∈ ws) as Hin by (intros w; by rewrite Hp).
  split; eauto.
  - by rewrite <-(total_permutation _ _ Hp).
  - intros c. specialize (P2 c). unfold refs in *. rewrite !(count_permutation _ _ _ _ Hp) in P2. exact P2.
  - by rewrite <-(omap_permutation _ _ _ Hp).
  - by rewrite <-(omap_permutation _ _ _ Hp).
  - intros i c (w & Hw & Hrest)%P6. exists w. by rewrite <-Hp.
  - intros i (w & Hw & Hrest)%PL. exists w. by rewrite <-Hp.
Qed.

(** ** The head of the list changes *)

Lemma protocol_head next next' cs cs' es es' w w' ws :
  protocol next cs es (w :: ws) → next ≤ next' →
  next' + Z.of_nat (budget w') ≤ next + Z.of_nat (budget w) →
  (∀ c, match cs' !! c with
        | Some x => refcount x = Z.of_nat (refs c (w' :: ws)) ∧ count reaps c (w' :: ws) = (if (refcount x =? 0)%Z then 1 else 0)%nat
        | None => refs c (w' :: ws) = 0%nat ∧ count reaps c (w' :: ws) = 0%nat
        end) →
  (inst w' = None ∨ inst w' = inst w ∨ inst w' = Some next) →
  NoDup (omap comp (w' :: ws)) →
  ((∀ i, inst w' = Some i → 0 < i < next') ∧ (∀ c i, waits w' = Some (c, i) → i < next') ∧ (∀ i n, (i, n) ∈ facts w' → i < next')) →
  (∀ i c, es' !! i = Some (Some c) → ∃ v, v ∈ w' :: ws ∧ inst v = Some i ∧ stage v = 1%nat ∧ comp v = Some c) →
  (∀ i, is_Some (es' !! i) → inst w' = Some i ∧ (stage w' ≤ 1)%nat ∨ is_Some (es !! i) ∧ (inst w = Some i → (stage w ≤ 1)%nat → False)) →
  knows w' w' → (∀ v, v ∈ ws → knows w' v ∧ knows v w') →
  (∀ c x v, cs' !! c = Some x → given x = true → v ∈ w' :: ws → comp v = Some c → stage v = 2%nat) →
  (∀ v i, strict → v ∈ w' :: ws → inst v = Some i → (stage v ≤ 1)%nat → ∃ o, es' !! i = Some o ∧ (stage v = 1%nat → o = comp v ∧ is_Some o)) →
  protocol next' cs' es' (w' :: ws).
Proof.
  intros [P1 P2 P3 P4 P5 P6 PL P7 P8 P9] Hn Hb Hr Hi Hc Hids He Hl Hk Hks Hg Hs. split; try done.
  - rewrite total_cons in *. lia.
  - destruct Hi as [Hi|[Hi|Hi]]; [apply (NoDup_omap_weaken inst w); [by left|done]|apply (NoDup_omap_weaken inst w); [by right|done]|].
    simpl. rewrite Hi. apply NoDup_cons. split.
    + intros (v & Hv & Hiv)%list_elem_of_omap. assert (v ∈ w :: ws) as Hin by by right. apply P5 in Hin as [Hin _]. apply Hin in Hiv. lia.
    + clear -P3. simpl in P3. destruct (inst w); [|done]. by apply NoDup_cons in P3 as [_ P3].
  - intros v [->|Hv]%elem_of_cons; [done|]. destruct (P5 v) as (A1 & A2 & A3); [by right|].
    split; [|split]; intros; [apply A1 in H|eapply A2 in H|eapply A3 in H]; lia.
  - intros i [Hw|[(v & [->|Hv]%elem_of_cons & Hiv & Hst)%PL Hno]]%Hl; [exists w'; split; [by left|done]|by destruct Hno|].
    exists v. by split; [right|].
  - intros v v' [->|Hv]%elem_of_cons [->|Hv']%elem_of_cons; [done|by apply Hks|by apply Hks|]. apply P7; by right.
Qed.

(** A role that keeps its instance, or had none in the ledger. *)
Lemma listed_head next cs es w w' ws :
  protocol next cs es (w :: ws) → inst w = None ∨ inst w' = inst w ∧ ((stage w' ≤ 1)%nat ∨ stage w' = stage w) →
  ∀ i, is_Some (es !! i) → inst w' = Some i ∧ (stage w' ≤ 1)%nat ∨ is_Some (es !! i) ∧ (inst w = Some i → (stage w ≤ 1)%nat → False).
Proof.
  intros P Hw i Hi. destruct (decide (inst w = Some i)) as [E|]; [|by right].
  destruct Hw as [?|[Ei Hst]]; [congruence|]. destruct (decide (stage w ≤ 1)%nat); [left; split; [congruence|lia]|by right].
Qed.

(** What the protocol says of the role at the head and of any other. *)
Lemma knows_head next cs es w ws v : protocol next cs es (w :: ws) → v ∈ ws → knows w v ∧ knows v w.
Proof. intros P Hv. split; apply (p_knows _ _ _ _ _ P); first [by left|by right]. Qed.

Lemma entry_owner next cs es w ws i c :
  protocol next cs es (w :: ws) → es !! i = Some (Some c) → inst w = Some i → stage w = 1%nat ∧ comp w = Some c.
Proof.
  intros P He Hi. destruct (p_entries _ _ _ _ _ P i c He) as (v & Hv & Hiv & Hs & Hc).
  apply elem_of_cons in Hv as [->|Hv]; [done|]. by destruct (others inst w v ws i (p_insts _ _ _ _ _ P) Hi Hv).
Qed.

(** Starting an instance, and giving it up. *)
Lemma protocol_start next cs es F b ws :
  protocol next cs es (idle F (Datatypes.S b) :: ws) →
  protocol (next + 1) cs (<[next := None]> es) (Role (Some next) 0 None None None F b :: ws).
Proof.
  intros P. pose proof (p_next _ _ _ _ _ P) as Hn. eapply (protocol_head next); [exact P|lia|simpl; lia| |right; by right| | | | | | | |].
  - intros c. apply (p_refs _ _ _ _ _ P c).
  - apply (p_comps _ _ _ _ _ P).
  - destruct (p_ids _ _ _ _ _ P (idle F (Datatypes.S b))) as (_ & _ & Hf); [by left|]. simpl in *.
    split; [intros i [= <-]; lia|]. split; [done|]. intros i n Hin. specialize (Hf i n Hin). lia.
  - intros i c. destruct (decide (i = next)) as [->|]; [by rewrite lookup_insert_eq|]. rewrite lookup_insert_ne by done.
    intros (v & [->|Hv]%elem_of_cons & Hrest)%(p_entries _ _ _ _ _ P); [by destruct Hrest|]. exists v. by split; [right|].
  - intros j [o Hj]. destruct (decide (j = next)) as [->|Hne]; [left; simpl; split; [done|lia]|].
    rewrite lookup_insert_ne in Hj by done. right. split; [by exists o|done].
  - split; [done|]. simpl. intros i n Hin [= <-]. exfalso. destruct (p_ids _ _ _ _ _ P (idle F (Datatypes.S b))) as (_ & _ & Hf); [by left|].
    specialize (Hf _ _ Hin). lia.
  - intros v Hv. destruct (knows_head _ _ _ _ _ v P Hv) as [[K1 K2] [K3 K4]]. split; split; try done.
    + intros c i Hw. destruct (K3 c i Hw) as [K5 K6]. split; [|done]. simpl. intros [= <-]. exfalso.
      destruct (p_ids _ _ _ _ _ P v) as (_ & Hf & _); [by right|]. specialize (Hf _ _ Hw). lia.
    + simpl. intros i n Hin [= <-]. exfalso. destruct (p_ids _ _ _ _ _ P v) as (_ & _ & Hf); [by right|]. specialize (Hf _ _ Hin). lia.
  - intros c x v Hc Hg [->|Hv]%elem_of_cons Hcv; [done|]. eapply (p_given _ _ _ _ _ P); [done..|by right|done].
  - intros v i Hs [->|Hv]%elem_of_cons Hi Hst.
    + simpl in *. injection Hi as <-. exists None. by rewrite lookup_insert_eq.
    + rewrite lookup_insert_ne; [by eapply (p_strict _ _ _ _ _ P); [|right|..]|].
      destruct (p_ids _ _ _ _ _ P v) as (Hf & _); [by right|]. specialize (Hf _ Hi). lia.
Qed.

Lemma protocol_drop next cs es i F b ws :
  protocol next cs es (Role (Some i) 0 None None None F b :: ws) → protocol next cs (delete i es) (idle F b :: ws).
Proof.
  intros P. eapply (protocol_head next); [exact P|lia|simpl; lia| |by left| | | | | | | |].
  - intros c. apply (p_refs _ _ _ _ _ P c).
  - apply (p_comps _ _ _ _ _ P).
  - split; [done|]. split; [done|]. simpl. apply (p_ids _ _ _ _ _ P (Role (Some i) 0 None None None F b)). by left.
  - intros j c [Hj He]%lookup_delete_Some. destruct (p_entries _ _ _ _ _ P j c He) as (v & Hv & Hrest).
    exists v. split; [|done]. apply elem_of_cons in Hv as [->|Hv]; [by destruct Hrest as (_ & ? & _)|by right].
  - intros j [o [Hj Ho]%lookup_delete_Some]. right. split; [by exists o|]. simpl. intros [= <-]. done.
  - done.
  - intros v Hv. destruct (knows_head _ _ _ _ _ v P Hv) as [K1 _]. split; [exact K1|]. split; [|done]. done.
  - intros c x v Hc Hg [->|Hv]%elem_of_cons Hcv; [done|]. eapply (p_given _ _ _ _ _ P); [done..|by right|done].
  - intros v j Hs [->|Hv]%elem_of_cons Hj Hst; [done|]. rewrite lookup_delete_ne; [by eapply (p_strict _ _ _ _ _ P); [|right|..]|].
    intros <-. by destruct (others inst _ v ws i (p_insts _ _ _ _ _ P) eq_refl Hv).
Qed.

(** A role that does not wait, and keeps its instance and what it knows. *)
Lemma knows_self next cs es w w' ws :
  protocol next cs es (w :: ws) → waits w' = None → inst w' = inst w → facts w' = facts w → (stage w ≤ stage w')%nat → knows w' w'.
Proof.
  intros P Hw Hi Hf Hs. destruct (p_knows _ _ _ _ _ P w w) as [_ K]; [by left..|]. split; [intros c i; by rewrite Hw|].
  rewrite Hf, Hi. intros i n Hin Hi'. specialize (K i n Hin Hi'). lia.
Qed.

(** ** References *)

Lemma refs_zero c ws : (∀ v, v ∈ ws → comp v ≠ Some c ∧ waited v ≠ Some c) → refs c ws = 0%nat.
Proof.
  induction ws as [|v ws IH]; intros Hv; [done|]. rewrite refs_cons. destruct (Hv v) as [H1 H2]; [by left|].
  rewrite !decide_False by done. simpl. apply IH. intros u Hu. apply Hv. by right.
Qed.
Lemma refs_zero_inv c ws v : refs c ws = 0%nat → v ∈ ws → comp v ≠ Some c ∧ waited v ≠ Some c.
Proof. unfold refs. intros Hz Hv. split; [apply (count_none comp c ws)|apply (count_none waited c ws)]; lia || done. Qed.

Lemma omap_inj {B} (f : role → option B) ws v v' b : NoDup (omap f ws) → v ∈ ws → v' ∈ ws → f v = Some b → f v' = Some b → v = v'.
Proof.
  induction ws as [|u ws IH]; intros Hn Hv Hv' Hb Hb'; [by apply not_elem_of_nil in Hv|].
  apply elem_of_cons in Hv as [->|Hv], Hv' as [->|Hv']; [done| | |].
  - by destruct (others f u v' ws b Hn Hb Hv').
  - by destruct (others f u v ws b Hn Hb' Hv).
  - apply IH; [|done..]. simpl in Hn. destruct (f u); [by apply NoDup_cons in Hn as [_ Hn]|done].
Qed.

(** The signal of a role is in memory. *)
Lemma comp_live next cs es ws w c : protocol next cs es ws → w ∈ ws → comp w = Some c → ∃ x, cs !! c = Some x ∧ refcount x = Z.of_nat (refs c ws).
Proof.
  intros P Hw Hc. pose proof (p_refs _ _ _ _ _ P c) as Hr. destruct (cs !! c) as [x|]; [by exists x; destruct Hr|].
  destruct Hr as [Hr _]. by destruct (refs_zero_inv c ws w Hr Hw).
Qed.
Lemma waited_live next cs es ws w c i : protocol next cs es ws → w ∈ ws → waits w = Some (c, i) → ∃ x, cs !! c = Some x ∧ refcount x = Z.of_nat (refs c ws).
Proof.
  intros P Hw Hc. pose proof (p_refs _ _ _ _ _ P c) as Hr. destruct (cs !! c) as [x|]; [by exists x; destruct Hr|].
  destruct Hr as [Hr _]. destruct (refs_zero_inv c ws w Hr Hw) as [_ []]. unfold waited. by rewrite Hc.
Qed.

(** A signal is made, and deleted again when starting fails. *)
Lemma protocol_new next cs es i F b c ws :
  cs !! c = None → protocol next cs es (Role (Some i) 0 None None None F b :: ws) →
  protocol next (<[c := {| given := false; refcount := 1 |}]> cs) es (Role (Some i) 0 (Some c) None None F b :: ws).
Proof.
  intros Hnew P. pose proof (p_refs _ _ _ _ _ P c) as Hc. rewrite Hnew in Hc. destruct Hc as [Hc Hcr].
  assert (∀ v, v ∈ ws → comp v ≠ Some c ∧ waited v ≠ Some c) as Hws by (intros v Hv; eapply refs_zero_inv; [exact Hc|by right]).
  eapply (protocol_head next); [exact P|lia|simpl; lia| |by right; left| | | | | | | |].
  - intros c'. pose proof (p_refs _ _ _ _ _ P c') as Hc'. rewrite refs_cons, count_cons in *. simpl in *.
    destruct (decide (c = c')) as [<-|Hne].
    + rewrite lookup_insert_eq, decide_True by done. simpl. lia.
    + rewrite lookup_insert_ne, decide_False by (done || congruence). exact Hc'.
  - simpl. apply NoDup_cons. split; [|apply (p_comps _ _ _ _ _ P)]. intros (v & Hv & Hcv)%list_elem_of_omap. by destruct (Hws v Hv).
  - simpl. apply (p_ids _ _ _ _ _ P (Role (Some i) 0 None None None F b)). by left.
  - intros j c' He. destruct (p_entries _ _ _ _ _ P j c' He) as (v & [->|Hv]%elem_of_cons & Hrest); [by destruct Hrest as (_ & ? & _)|].
    exists v. by split; [right|].
  - apply (listed_head _ _ _ _ _ _ P); simpl; auto.
  - by apply (knows_self _ _ _ _ _ _ P).
  - intros v Hv. destruct (knows_head _ _ _ _ _ v P Hv) as [K1 [K2 K3]]. split; [done|]. split; [|done].
    intros c' j Hw. destruct (K2 c' j Hw) as [K4 _]. split; [intros Hj; by destruct (K4 Hj)|]. simpl. intros [= <-].
    destruct (Hws v Hv) as [_ []]. unfold waited. by rewrite Hw.
  - intros c' x v. destruct (decide (c = c')) as [<-|Hne].
    + rewrite lookup_insert_eq. by intros [= <-].
    + rewrite lookup_insert_ne by done. intros Hx Hg [->|Hv]%elem_of_cons Hcv; [by injection Hcv|].
      eapply (p_given _ _ _ _ _ P); [done..|by right|done].
  - intros v j Hs [->|Hv]%elem_of_cons Hj Hst; [|by eapply (p_strict _ _ _ _ _ P); [|right|..]].
    simpl in *. destruct (p_strict _ _ _ _ _ P (Role (Some i) 0 None None None F b) j Hs) as (o & Ho & _); [by left|done..|]. by exists o.
Qed.

Lemma protocol_discard next cs es i F b c ws :
  protocol next cs es (Role (Some i) 0 (Some c) None None F b :: ws) →
  is_Some (cs !! c) ∧ protocol next (delete c cs) es (Role (Some i) 0 None None None F b :: ws).
Proof.
  intros P. assert (∀ v, v ∈ ws → comp v ≠ Some c ∧ waited v ≠ Some c) as Hws.
  { intros v Hv. split; [by apply (others comp _ v ws c (p_comps _ _ _ _ _ P) eq_refl)|].
    unfold waited. destruct (waits v) as [[c' j]|] eqn:Ew; [|done]. simpl. intros [= ->].
    destruct (knows_head _ _ _ _ _ v P Hv) as [_ [K _]]. destruct (K _ _ Ew) as [_ K']. specialize (K' eq_refl). simpl in K'. lia. }
  destruct (comp_live _ _ _ _ (Role (Some i) 0 (Some c) None None F b) c P) as (x & Hx & Hr); [by left|done|]. split; [by exists x|].
  eapply (protocol_head next); [exact P|lia|simpl; lia| |by right; left| | | | | | | |].
  - intros c'. pose proof (p_refs _ _ _ _ _ P c') as Hc'. rewrite refs_cons, count_cons in *. simpl in *.
    destruct (decide (c = c')) as [<-|Hne].
    + rewrite lookup_delete_eq. rewrite Hx in Hc'. rewrite decide_True in * by done. rewrite (refs_zero c ws Hws) in *.
      destruct Hc' as [Hc1 Hc2]. rewrite Hc1 in Hc2. simpl in Hc2. lia.
    + rewrite lookup_delete_ne by done. rewrite decide_False in Hc' by congruence. exact Hc'.
  - apply (NoDup_omap_weaken comp (Role (Some i) 0 (Some c) None None F b)); [by left|apply (p_comps _ _ _ _ _ P)].
  - simpl. apply (p_ids _ _ _ _ _ P (Role (Some i) 0 (Some c) None None F b)). by left.
  - intros j c' He. destruct (p_entries _ _ _ _ _ P j c' He) as (v & [->|Hv]%elem_of_cons & Hrest); [by destruct Hrest as (_ & ? & _)|].
    exists v. by split; [right|].
  - apply (listed_head _ _ _ _ _ _ P); simpl; auto.
  - by apply (knows_self _ _ _ _ _ _ P).
  - intros v Hv. destruct (knows_head _ _ _ _ _ v P Hv) as [K1 [K2 K3]]. split; [done|]. split; [|done].
    intros c' j Hw. destruct (K2 c' j Hw) as [K4 K5]. split; [|done]. simpl. intros Hj. destruct (K4 Hj) as [[= <-]|]; [|done].
    destruct (Hws v Hv) as [_ []]. unfold waited. by rewrite Hw.
  - intros c' y v [Hne Hy]%lookup_delete_Some Hg [->|Hv]%elem_of_cons Hcv; [done|]. eapply (p_given _ _ _ _ _ P); [done..|by right|done].
  - intros v j Hs [->|Hv]%elem_of_cons Hj Hst; [|by eapply (p_strict _ _ _ _ _ P); [|right|..]].
    simpl in *. destruct (p_strict _ _ _ _ _ P (Role (Some i) 0 (Some c) None None F b) j Hs) as (o & Ho & _); [by left|done..|]. by exists o.
Qed.

(** ** The signal is published, and the app's task created *)

Lemma protocol_publish next cs es i F b c ws :
  protocol next cs es (Role (Some i) 0 (Some c) None None F b :: ws) →
  protocol next cs (alter (λ _, Some c) i es) (Role (Some i) 1 (Some c) None None F b :: ws).
Proof.
  intros P. eapply (protocol_head next); [exact P|lia|simpl; lia| |by right; left| | | | | | | |].
  - intros c'. pose proof (p_refs _ _ _ _ _ P c') as Hr. rewrite refs_cons, count_cons in *. exact Hr.
  - apply (p_comps _ _ _ _ _ P).
  - simpl. apply (p_ids _ _ _ _ _ P (Role (Some i) 0 (Some c) None None F b)). by left.
  - intros j c'. destruct (decide (j = i)) as [->|].
    + rewrite lookup_alter_eq. intros (o & _ & [= <-])%fmap_Some. eexists. split; [by left|done].
    + rewrite lookup_alter_ne by done. intros (v & [->|Hv]%elem_of_cons & Hrest)%(p_entries _ _ _ _ _ P); [by destruct Hrest as (_ & ? & _)|].
      exists v. by split; [right|].
  - intros j Hj. apply (listed_head _ _ _ _ _ _ P); [simpl; by auto|].
    destruct (decide (j = i)) as [->|]; [|by rewrite lookup_alter_ne in Hj].
    rewrite lookup_alter_eq in Hj. by destruct (es !! i).
  - apply (knows_self _ _ _ _ _ _ P); simpl; by auto.
  - intros v Hv. destruct (knows_head _ _ _ _ _ v P Hv) as [K1 [K2 K3]]. split; [done|]. split.
    + intros c' j Hw. destruct (K2 c' j Hw) as [K4 K5]. split; [|done]. simpl. intros Hj. destruct (K4 Hj); [by left|done].
    + intros j n Hin Hj. specialize (K3 j n Hin Hj). simpl in *. lia.
  - intros c' x v Hx Hg [->|Hv]%elem_of_cons Hcv; [|eapply (p_given _ _ _ _ _ P); [done..|by right|done]].
    exfalso. assert (stage (Role (Some i) 0 (Some c) None None F b) = 2%nat); [|done]. eapply (p_given _ _ _ _ _ P); [done..|by left|done].
  - intros v j Hs [->|Hv]%elem_of_cons Hj Hst.
    + simpl in *. injection Hj as <-. destruct (p_strict _ _ _ _ _ P (Role (Some i) 0 (Some c) None None F b) i Hs) as (o & Ho & _); [by left|done|simpl; lia|].
      exists (Some c). rewrite lookup_alter_eq, Ho. done.
    + rewrite lookup_alter_ne; [by eapply (p_strict _ _ _ _ _ P); [|right|..]|]. intros <-.
      by destruct (others inst _ v ws i (p_insts _ _ _ _ _ P) eq_refl Hv).
Qed.

Lemma protocol_fork next cs es i F b c ws :
  protocol next cs es (Role (Some i) 1 (Some c) None None F b :: ws) →
  protocol next cs es (idle ((i, 1%nat) :: F) b :: Role (Some i) 1 (Some c) None None [] 0 :: ws).
Proof.
  intros P. set (w := Role (Some i) 1 (Some c) None None F b) in *. set (a := Role (Some i) 1 (Some c) None None [] 0).
  assert (∀ v, v ∈ a :: ws → ∃ v', v' ∈ w :: ws ∧ inst v = inst v' ∧ stage v = stage v' ∧ comp v = comp v' ∧ waits v = waits v' ∧ ∀ x, x ∈ facts v → x ∈ facts v') as Hold.
  { intros v [->|Hv]%elem_of_cons; [exists w|exists v]; [|by split_and!; [right|..]].
    split_and!; try done; [by left|]. intros x Hx. by apply not_elem_of_nil in Hx. }
  destruct P as [P1 P2 P3 P4 P5 P6 PL P7 P8 P9]. split; try done.
  - intros c'. specialize (P2 c'). unfold a, w in *. rewrite !refs_cons, !count_cons in *. unfold waited in *.
    cbn [idle comp waits reaps fmap option_fmap option_map] in *. rewrite !(decide_False (P := None = Some c')) in * by done. exact P2.
  - intros v [->|Hv]%elem_of_cons.
    + destruct (P5 w) as (A1 & _ & A3); [by left|]. split; [done|]. split; [done|]. simpl. intros j n [[= -> ->]|Hin]%elem_of_cons.
      * by apply (A1 i).
      * by eapply A3.
    + destruct (Hold v Hv) as (v' & Hv' & E1 & E2 & E3 & E4 & Hf). destruct (P5 v' Hv') as (A1 & A2 & A3). rewrite E1, E4. split; [done|]. split; [done|].
      intros j n Hin. by eapply A3, Hf.
  - intros j c' He. destruct (P6 j c' He) as (v & [->|Hv]%elem_of_cons & Hrest); [exists a|exists v]; (split; [|done]); [by right; left|by right; right].
  - intros j (v & [->|Hv]%elem_of_cons & Hrest)%PL; [exists a|exists v]; (split; [|done]); [by right; left|by right; right].
  - intros v v' Hv Hv'.
    assert (∀ u, u ∈ idle ((i, 1%nat) :: F) b :: a :: ws → inst u = None ∧ comp u = None ∨ u ∈ a :: ws) as Hcase.
    { intros u [->|Hu]%elem_of_cons; [by left|by right]. }
    destruct (Hcase v' Hv') as [[Ei Ec]|Hv'']; [split; [intros ? ? ?; rewrite Ei, Ec; done|intros ? ? ?; by rewrite Ei]|].
    destruct (Hold v' Hv'') as (u' & Hu' & E1 & E2 & E3 & _ & _). unfold knows. rewrite E1, E2, E3.
    apply elem_of_cons in Hv as [->|Hv].
    + split; [done|]. simpl. intros j n [[= -> ->]|Hin]%elem_of_cons Hj; [|destruct (P7 w u') as [_ K]; [by left|done|by apply (K j n)]].
      rewrite <-(omap_inj inst (w :: ws) w u' i P3); [done|by left|done..].
    + destruct (Hold v Hv) as (u & Hu & _ & _ & _ & E4 & Hf). rewrite E4. destruct (P7 u u' Hu Hu') as [K1 K2]. split; [done|].
      intros j n Hin. by apply K2, Hf.
  - intros c' x v Hx Hg [->|Hv]%elem_of_cons Hcv; [done|]. destruct (Hold v Hv) as (v' & Hv' & _ & E2 & E3 & _). rewrite E2. rewrite E3 in Hcv. by eapply P8.
  - intros v j Hs [->|Hv]%elem_of_cons Hj Hst; [done|]. destruct (Hold v Hv) as (v' & Hv' & E1 & E2 & E3 & _). rewrite E1 in Hj. rewrite E2, E3 in *. by eapply P9.
Qed.

(** A task is created that has no part in the protocol. *)
Lemma protocol_spawn next cs es w ws : protocol next cs es (w :: ws) → protocol next cs es (w :: idle [] 0 :: ws).
Proof.
  intros P. apply (protocol_permutation _ _ _ (idle [] 0 :: w :: ws)); [constructor|].
  assert (∀ v, v ∈ idle [] 0 :: w :: ws → v = idle [] 0 ∨ v ∈ w :: ws) as Hcase by (intros v [->|Hv]%elem_of_cons; auto).
  destruct P as [P1 P2 P3 P4 P5 P6 PL P7 P8 P9]. split; try done.
  - intros v [->|Hv]%Hcase; [|by apply P5]. split; [done|]. split; [done|]. by intros ? ? ?%not_elem_of_nil.
  - intros j c (v & Hv & Hrest)%P6. exists v. split; [by right|done].
  - intros j (v & Hv & Hrest)%PL. exists v. split; [by right|done].
  - intros v v' [->|Hv]%Hcase [->|Hv']%Hcase; [..|by apply P7].
    + by split; [|intros ? ? ?%not_elem_of_nil].
    + by split; [|intros ? ? ?%not_elem_of_nil].
    + by split.
  - intros c x v Hx Hgv [->|Hv]%Hcase Hcv; [done|by eapply P8].
  - intros v j Hs [->|Hv]%Hcase Hj Hst; [done|by eapply P9].
Qed.

(** ** An app's task ends *)

Lemma protocol_leave next cs es i F b c ws :
  protocol next cs es (Role (Some i) 1 (Some c) None None F b :: ws) →
  protocol next cs (delete i es) (Role (Some i) 2 (Some c) None None F b :: ws).
Proof.
  intros P. eapply (protocol_head next); [exact P|lia|simpl; lia| |by right; left| | | | | | | |].
  - intros c'. pose proof (p_refs _ _ _ _ _ P c') as Hr. rewrite refs_cons, count_cons in *. exact Hr.
  - apply (p_comps _ _ _ _ _ P).
  - simpl. apply (p_ids _ _ _ _ _ P (Role (Some i) 1 (Some c) None None F b)). by left.
  - intros j c' [Hj He]%lookup_delete_Some. destruct (p_entries _ _ _ _ _ P j c' He) as (v & [->|Hv]%elem_of_cons & Hrest); [by destruct Hrest as ([= ->] & _)|].
    exists v. by split; [right|].
  - intros j [o [Hj Ho]%lookup_delete_Some]. right. split; [by exists o|]. simpl. intros [= <-]. done.
  - apply (knows_self _ _ _ _ _ _ P); simpl; by auto.
  - intros v Hv. destruct (knows_head _ _ _ _ _ v P Hv) as [K1 [K2 K3]]. split; [done|]. split.
    + intros c' j Hw. destruct (K2 c' j Hw) as [K4 K5]. split; [by right|]. simpl. lia.
    + intros j n Hin Hj. specialize (K3 j n Hin Hj). simpl in *. lia.
  - intros c' x v Hx Hg [->|Hv]%elem_of_cons Hcv; [done|]. eapply (p_given _ _ _ _ _ P); [done..|by right|done].
  - intros v j Hs [->|Hv]%elem_of_cons Hj Hst; [simpl in *; lia|].
    rewrite lookup_delete_ne; [by eapply (p_strict _ _ _ _ _ P); [|right|..]|]. intros <-.
    by destruct (others inst _ v ws i (p_insts _ _ _ _ _ P) eq_refl Hv).
Qed.

(** Updates of a signal that keep its references. *)
Lemma protocol_signal next cs es w c x g' ws :
  protocol next cs es (w :: ws) → cs !! c = Some x → (g' = true → ∀ v, v ∈ w :: ws → comp v = Some c → stage v = 2%nat) →
  protocol next (<[c := {| given := g'; refcount := refcount x |}]> cs) es (w :: ws).
Proof.
  intros [P1 P2 P3 P4 P5 P6 PL P7 P8 P9] Hx Hg. split; try done.
  - intros c'. specialize (P2 c'). destruct (decide (c = c')) as [<-|]; [by rewrite lookup_insert_eq; rewrite Hx in P2|by rewrite lookup_insert_ne].
  - intros c' y v. destruct (decide (c = c')) as [<-|]; [rewrite lookup_insert_eq; intros [= <-]; simpl; intros Hg'; by apply Hg|].
    rewrite lookup_insert_ne by done. apply P8.
Qed.

Lemma protocol_give next cs es i F b c ws :
  protocol next cs es (Role (Some i) 2 (Some c) None None F b :: ws) →
  ∃ x, cs !! c = Some x ∧ protocol next (<[c := x <| given := true |>]> cs) es (Role (Some i) 2 (Some c) None None F b :: ws).
Proof.
  intros P. destruct (comp_live _ _ _ _ (Role (Some i) 2 (Some c) None None F b) c P) as (x & Hx & _); [by left|done|]. exists x. split; [done|].
  apply (protocol_signal _ _ _ _ _ x true); [done..|]. intros _ v [->|Hv]%elem_of_cons Hc; [done|].
  by destruct (others comp _ v ws c (p_comps _ _ _ _ _ P) eq_refl Hv).
Qed.

(** A reference is dropped; whoever drops the last one deletes the signal. *)
Definition dropped w (n : Z) c : role := Role (inst w) (stage w) None None (if n =? 0 then Some c else None) (facts w) (budget w).

Lemma protocol_unref next cs es w c ws :
  protocol next cs es (w :: ws) → reaps w = None → (stage w = 2%nat ∨ inst w = None) →
  (comp w = Some c ∧ waits w = None ∨ comp w = None ∧ waited w = Some c) →
  ∃ x, cs !! c = Some x ∧
    protocol next (<[c := x <| refcount := refcount x - 1 |>]> cs) es (dropped w (refcount x - 1) c :: ws).
Proof.
  intros P Hrw Hsi Hw.
  assert (refs c (w :: ws) = Datatypes.S (refs c ws)) as Hn.
  { rewrite refs_cons. destruct Hw as [[Hc Hw]|[Hc Hw]].
    - unfold waited. rewrite Hw, decide_True by done. by rewrite decide_False.
    - rewrite (decide_True (P := waited w = Some c)) by done. by rewrite decide_False by congruence. }
  pose proof (p_refs _ _ _ _ _ P c) as Hr. destruct (cs !! c) as [x|] eqn:Hx; [|destruct Hr as [Hr _]; lia].
  exists x. split; [done|]. destruct Hr as [Hr Hrc].
  assert (count reaps c ws = 0%nat) as Hrc0.
  { rewrite count_cons, Hrw in Hrc. rewrite decide_False in Hrc by done. simpl in Hrc. rewrite Hrc. destruct (refcount x =? 0) eqn:E; [lia|done]. }
  eapply (protocol_head next); [exact P|lia|simpl; lia| |by right; left| | | | | | | |].
  - intros c'. rewrite refs_cons, count_cons. unfold waited at 1. cbn [dropped comp waits reaps fmap option_fmap option_map].
    rewrite !(decide_False (P := None = Some c')) by done.
    destruct (decide (c = c')) as [<-|Hne].
    + rewrite lookup_insert_eq. cbn. split; [lia|]. rewrite Hrc0. destruct (refcount x - 1 =? 0); case_decide; done || congruence.
    + rewrite lookup_insert_ne by done. pose proof (p_refs _ _ _ _ _ P c') as Hr'. rewrite refs_cons, count_cons, Hrw in Hr'.
      rewrite (decide_False (P := None = Some c')) in Hr' by done.
      rewrite (decide_False (P := (if refcount x - 1 =? 0 then Some c else None) = Some c')) by (destruct (refcount x - 1 =? 0); [intros [=]; congruence|done]).
      assert (comp w ≠ Some c' ∧ waited w ≠ Some c') as [E1 E2].
      { destruct Hw as [[Hc Hw]|[Hc Hw]]; [unfold waited; rewrite Hc, Hw|rewrite Hc, Hw]; split; (done || congruence). }
      rewrite !decide_False in Hr' by done. exact Hr'.
  - apply (NoDup_omap_weaken comp w); [by left|apply (p_comps _ _ _ _ _ P)].
  - destruct (p_ids _ _ _ _ _ P w) as (A1 & _ & A3); [by left|]. by split.
  - intros j c' He. destruct (p_entries _ _ _ _ _ P j c' He) as (v & [->|Hv]%elem_of_cons & Hi & Hst & Hcv).
    + destruct Hsi; congruence.
    + exists v. by split; [right|].
  - apply (listed_head _ _ _ _ _ _ P); simpl; auto.
  - by apply (knows_self _ _ _ _ _ _ P).
  - intros v Hv. destruct (knows_head _ _ _ _ _ v P Hv) as [[_ K1] [K2 K3]]. split; [by split|]. split; [|done].
    intros c' j Hw'. destruct (K2 c' j Hw') as [K4 _]. split; [|done]. simpl. intros Hj. right.
    destruct Hsi as [|Hi]; [done|]. congruence.
  - intros c' y v. destruct (decide (c = c')) as [<-|].
    + rewrite lookup_insert_eq. intros [= <-] Hg [->|Hv]%elem_of_cons Hc; [done|]. eapply (p_given _ _ _ _ _ P); [exact Hx|exact Hg|by right|done].
    + rewrite lookup_insert_ne by done. intros Hy Hg [->|Hv]%elem_of_cons Hc; [done|]. eapply (p_given _ _ _ _ _ P); [done..|by right|done].
  - intros v j Hs [->|Hv]%elem_of_cons Hj Hst; [|by eapply (p_strict _ _ _ _ _ P); [|right|..]].
    simpl in *. destruct Hsi; [lia|congruence].
Qed.

Lemma protocol_reap next cs es o n c F b ws :
  protocol next cs es (Role o n None None (Some c) F b :: ws) →
  is_Some (cs !! c) ∧ protocol next (delete c cs) es (Role o n None None None F b :: ws).
Proof.
  intros P. pose proof (p_refs _ _ _ _ _ P c) as Hr. rewrite refs_cons, count_cons in Hr. cbn [comp waits reaps] in Hr.
  rewrite (decide_True (P := Some c = Some c)) in Hr by done. destruct (cs !! c) as [x|] eqn:Hx; [|lia]. split; [by exists x|].
  assert (refs c ws = 0%nat ∧ count reaps c ws = 0%nat) as [H1 H2].
  { destruct Hr as [Hr1 Hr2]. destruct (refcount x =? 0) eqn:E; [|lia]. apply Z.eqb_eq in E. unfold waited in Hr1. simpl in Hr1.
    lia. }
  eapply (protocol_head next); [exact P|lia|simpl; lia| |by right; left| | | | | | | |].
  - intros c'. pose proof (p_refs _ _ _ _ _ P c') as Hr'. rewrite refs_cons, count_cons in *. unfold waited at 1. unfold waited at 1 in Hr'. simpl in *.
    destruct (decide (c = c')) as [<-|Hne].
    + rewrite lookup_delete_eq. simpl. by split.
    + rewrite lookup_delete_ne by done. rewrite decide_False in Hr' by congruence. exact Hr'.
  - apply (p_comps _ _ _ _ _ P).
  - destruct (p_ids _ _ _ _ _ P (Role o n None None (Some c) F b)) as (A1 & _ & A3); [by left|]. by split.
  - intros j c' He. destruct (p_entries _ _ _ _ _ P j c' He) as (v & [->|Hv]%elem_of_cons & Hi & Hst & Hcv); [done|]. exists v. by split; [right|].
  - apply (listed_head _ _ _ _ _ _ P); simpl; auto.
  - by apply (knows_self _ _ _ _ _ _ P).
  - intros v Hv. destruct (knows_head _ _ _ _ _ v P Hv) as [[_ K1] [K2 K3]]. by split; split.
  - intros c' y v [Hne Hy]%lookup_delete_Some Hg [->|Hv]%elem_of_cons Hcv; [done|]. eapply (p_given _ _ _ _ _ P); [done..|by right|done].
  - intros v j Hs [->|Hv]%elem_of_cons Hj Hst; [|by eapply (p_strict _ _ _ _ _ P); [|right|..]].
    simpl in *. destruct (p_strict _ _ _ _ _ P (Role o n None None (Some c) F b) j Hs) as (q & Hq & Hq'); [by left|done..|]. by exists q.
Qed.

(** ** Stopping *)

(** The owner of a signal in the ledger is the only role with the instance or the signal. *)
Lemma entry_unique next cs es ws i c v :
  protocol next cs es ws → es !! i = Some (Some c) → v ∈ ws → inst v = Some i ∨ comp v = Some c → inst v = Some i ∧ stage v = 1%nat ∧ comp v = Some c.
Proof.
  intros P He Hv Hor. destruct (p_entries _ _ _ _ _ P i c He) as (u & Hu & Hi & Hs & Hc).
  destruct Hor as [Hiv|Hcv]; [rewrite <-(omap_inj inst ws u v i (p_insts _ _ _ _ _ P))|rewrite <-(omap_inj comp ws u v c (p_comps _ _ _ _ _ P))]; done.
Qed.

Lemma protocol_acquire next cs es i c F b ws :
  protocol next cs es (idle F b :: ws) → es !! i = Some (Some c) →
  ∃ x, cs !! c = Some x ∧
    protocol next (<[c := x <| refcount := refcount x + 1 |>]> cs) es (Role None 0 None (Some (c, i)) None F b :: ws).
Proof.
  intros P He. destruct (p_entries _ _ _ _ _ P i c He) as (u & Hu & Hiu & Hsu & Hcu).
  destruct (comp_live _ _ _ _ u c P Hu Hcu) as (x & Hx & Hr). exists x. split; [done|].
  assert (refs c (idle F b :: ws) = refs c ws ∧ (0 < refs c ws)%nat) as [E1 E2].
  { split; [by rewrite refs_cons|]. apply elem_of_cons in Hu as [->|Hu]; [done|]. pose proof (count_in comp c u ws Hu Hcu). unfold refs. lia. }
  eapply (protocol_head next); [exact P|lia|simpl; lia| |by left| | | | | | | |].
  - intros c'. pose proof (p_refs _ _ _ _ _ P c') as Hr'. rewrite refs_cons, count_cons in *. simpl in *.
    destruct (decide (c = c')) as [<-|Hne].
    + rewrite lookup_insert_eq, (decide_True (P := Some c = Some c)) by done. rewrite Hx in Hr'. simpl. destruct Hr' as [_ Hr2].
      split; [lia|]. rewrite Hr2. destruct (refcount x =? 0) eqn:E; [lia|]. destruct (refcount x + 1 =? 0) eqn:E'; [lia|done].
    + rewrite lookup_insert_ne by done. rewrite (decide_False (P := Some c = Some c')) by congruence. exact Hr'.
  - apply (p_comps _ _ _ _ _ P).
  - destruct (p_ids _ _ _ _ _ P (idle F b)) as (_ & _ & A3); [by left|]. split; [done|]. split; [|exact A3].
    intros c' j [= <- <-]. destruct (p_ids _ _ _ _ _ P u Hu) as (A1 & _). by apply A1.
  - intros j c' Hj. destruct (p_entries _ _ _ _ _ P j c' Hj) as (v & [->|Hv]%elem_of_cons & Hrest); [by destruct Hrest|]. exists v. by split; [right|].
  - apply (listed_head _ _ _ _ _ _ P); simpl; auto.
  - split; [done|]. done.
  - intros v Hv. destruct (knows_head _ _ _ _ _ v P Hv) as [[_ K1] [K2 K3]]. split; [|split; [|done]].
    + split; [|done]. simpl. intros c' j [= <- <-]. assert (v ∈ idle F b :: ws) as Hin by by right.
      split; intros Hiv; [left|]; edestruct (entry_unique _ _ _ _ i c v P He Hin) as (_ & Es & Ec); auto; lia.
    + intros c' j Hw. by destruct (K2 c' j Hw).
  - intros c' y v. destruct (decide (c = c')) as [<-|].
    + rewrite lookup_insert_eq. intros [= <-] Hg [->|Hv]%elem_of_cons Hc; [done|]. eapply (p_given _ _ _ _ _ P); [exact Hx|exact Hg|by right|done].
    + rewrite lookup_insert_ne by done. intros Hy Hg [->|Hv]%elem_of_cons Hc; [done|]. eapply (p_given _ _ _ _ _ P); [done..|by right|done].
  - intros v j Hs [->|Hv]%elem_of_cons Hj Hst; [done|]. by eapply (p_strict _ _ _ _ _ P); [|right|..].
Qed.

(** Something is learnt of an instance. *)
Lemma protocol_learn next cs es w i n ws :
  protocol next cs es (w :: ws) → i < next → (∀ v, v ∈ w :: ws → inst v = Some i → (n ≤ stage v)%nat) →
  protocol next cs es (Role (inst w) (stage w) (comp w) (waits w) (reaps w) ((i, n) :: facts w) (budget w) :: ws).
Proof.
  intros P Hi Hn. eapply (protocol_head next); [exact P|lia|simpl; lia| |by right; left| | | | | | | |].
  - intros c'. pose proof (p_refs _ _ _ _ _ P c') as Hr. rewrite refs_cons, count_cons in *. exact Hr.
  - apply (p_comps _ _ _ _ _ P).
  - destruct (p_ids _ _ _ _ _ P w) as (A1 & A2 & A3); [by left|]. split; [done|]. split; [done|]. simpl.
    intros j m [[= -> ->]|Hin]%elem_of_cons; [done|by eapply A3].
  - intros j c Hj. destruct (p_entries _ _ _ _ _ P j c Hj) as (v & [->|Hv]%elem_of_cons & Hrest); [|by exists v; split; [right|]].
    eexists. split; [by left|exact Hrest].
  - apply (listed_head _ _ _ _ _ _ P); simpl; auto.
  - destruct (p_knows _ _ _ _ _ P w w) as [K1 K2]; [by left..|]. split; [exact K1|]. simpl.
    intros j m [[= -> ->]|Hin]%elem_of_cons; [apply Hn; by left|by apply K2].
  - intros v Hv. destruct (knows_head _ _ _ _ _ v P Hv) as [[K1 K2] K3]. split; [|exact K3]. split; [exact K1|]. simpl.
    intros j m [[= -> ->]|Hin]%elem_of_cons; [apply Hn; by right|by apply K2].
  - intros c x v Hx Hg [->|Hv]%elem_of_cons Hcv; [|eapply (p_given _ _ _ _ _ P); [done..|by right|done]].
    eapply (p_given _ _ _ _ _ P c x w); [done..|by left|done].
  - intros v j Hs [->|Hv]%elem_of_cons Hj Hst; [|by eapply (p_strict _ _ _ _ _ P); [|right|..]].
    by apply (p_strict _ _ _ _ _ P w j Hs); [left|..].
Qed.

(** The semaphore is taken: the instance has ended. *)
Lemma protocol_take next cs es i c F b x ws :
  protocol next cs es (Role None 0 None (Some (c, i)) None F b :: ws) → cs !! c = Some x → given x = true →
  protocol next (<[c := x <| given := false |>]> cs) es (Role None 0 None (Some (c, i)) None ((i, 2%nat) :: F) b :: ws).
Proof.
  intros P Hx Hg. apply (protocol_signal _ _ _ _ _ x false); [|done..].
  apply (protocol_learn next cs es (Role None 0 None (Some (c, i)) None F b) i 2); [done| |].
  - destruct (p_ids _ _ _ _ _ P (Role None 0 None (Some (c, i)) None F b)) as (_ & A2 & _); [by left|]. by apply (A2 c).
  - intros v Hv Hi. destruct (p_knows _ _ _ _ _ P (Role None 0 None (Some (c, i)) None F b) v) as [K _]; [by left|done|].
    destruct (K c i eq_refl) as [K' _]. destruct (K' Hi) as [Hc|Hs]; [|by rewrite Hs].
    by rewrite (p_given _ _ _ _ _ P c x v Hx Hg Hv Hc).
Qed.

(** With [strict], an instance that is known to have started and is not in the ledger, or
    has no signal there, has ended. *)
Lemma protocol_gone next cs es i F b ws :
  strict → protocol next cs es (idle F b :: ws) → (i, 1%nat) ∈ F → es !! i = None ∨ es !! i = Some None →
  protocol next cs es (idle ((i, 2%nat) :: F) b :: ws).
Proof.
  intros Hs P Hi He. apply (protocol_learn next cs es (idle F b) i 2); [done| |].
  - destruct (p_ids _ _ _ _ _ P (idle F b)) as (_ & _ & A3); [by left|]. by apply (A3 i 1%nat).
  - intros v Hv Hiv. destruct (p_knows _ _ _ _ _ P (idle F b) v) as [_ K]; [by left|done|]. specialize (K i 1%nat Hi Hiv).
    destruct (decide (stage v ≤ 1)%nat) as [Hle|]; [|lia]. exfalso.
    destruct (p_strict _ _ _ _ _ P v i Hs Hv Hiv Hle) as (o & Ho & Hc). destruct Hc as [-> [c Hc]]; [lia|].
    destruct He as [He|He]; rewrite He in Ho; [done|]. injection Ho as Ho. congruence.
Qed.

Lemma protocol_erase next cs es i w ws :
  (strict → (i, 2%nat) ∈ facts w) → protocol next cs es (w :: ws) → protocol next cs (delete i es) (w :: ws).
Proof.
  intros Hf [P1 P2 P3 P4 P5 P6 PL P7 P8 P9]. split; try done.
  - intros j c [_ He]%lookup_delete_Some. by apply P6.
  - intros j [o [_ Ho]%lookup_delete_Some]. apply PL. by exists o.
  - intros v j Hs Hv Hj Hst. rewrite lookup_delete_ne; [by apply P9|]. intros <-.
    destruct (P7 w v) as [_ K]; [by left|done|]. specialize (K i 2%nat (Hf Hs) Hj). lia.
Qed.
End protocol.
