(* ===== verification/SchedulerSections.v ===== *)
(** The invariant of the scheduler: what each task owns, in the protocol and in memory,
    and what every section of Scheduler does to it. *)

From S2P Require Import Prelude EventGroups AppEvents Apps Streams AppEnv Tasks Resources Manifests AppLedger Scheduler AppsOk SchedulerInv.

(** * What a task owns *)

(** What a task knows that alone may change manifests, packages and files. *)
Record holding := Holding {
  h_manifests : gmap text manifest_ref;
  h_packages : gmap text AppPackageRecord;
  h_installing : installs;
}.

(** Every manifest in the ledger is in memory, under its id. *)
Definition manifests_ok (h : holding) : Prop :=
  ∀ id r, h_manifests h !! id = Some r → ∃ m, read_manifest (h_installing h) r = Some m ∧ manifest_id m = id.

(** Its role, what it has in memory, and what it holds. *)
Record ghost := Owns {
  who : role;
  o_ctx : option (Z * TaskContext);
  o_rt : option Z;
  o_buf : option Z;
  o_tracker : option Z;
  o_deferred : bool;
  o_store : option holding;
}.

Definition pending_count (gs : list ghost) : nat := length (filter (λ g, o_deferred g = true) gs).
Lemma pending_cons g gs : pending_count (g :: gs) = ((if o_deferred g then 1 else 0) + pending_count gs)%nat.
Proof. unfold pending_count. rewrite filter_cons. by destruct (o_deferred g). Qed.

(** A task whose instance has left the ledger has deleted its context, and the binary is
    unloaded, or will be when the thread ends; its tracker and its context are its own
    instance's. *)
Record ghost_ok (esp : bool) (g : ghost) : Prop := {
  own_ended : (2 ≤ stage (who g))%nat → o_ctx g = None ∧ (o_rt g = None ∨ esp = false ∧ o_deferred g = true);
  own_tracker i : o_tracker g = Some i → inst (who g) = Some i;
  own_context a y : o_ctx g = Some (a, y) → inst (who g) = Some (task_instance y);
}.
Ltac ghosts Hg :=
  apply Forall_cons in Hg as [[? ? ?] Hg]; apply Forall_cons; split; [split; simpl in *; naive_solver lia|exact Hg].

Section safety.
Context `{FreeRtosEventGroup} `{OtherFilesLaws} `{ResourcePlatform}.
Variable esp : bool.
Variable default_ignored : list Z.
Variables live_groups live_streams : gset Z.
(** Whether instances are stopped only by tasks that know that they have started. *)
Variable strict : bool.
Implicit Types (s : ledger) (g : ghost) (gs : list ghost).

(** What the task at hand holds. *)
Variable hold : option holding.
Abbreviation Ghost w x r b t d := (Owns w x r b t d hold).

Definition stored s : holding := Holding (manifests s) (packages s) (installing s).
Definition entries s : gmap Z (option Z) := completion <$> instances (running s).

(** The objects in memory are those that tasks own. *)
Record memory_ok s gs : Prop := {
  mem_ctx : omap o_ctx gs ≡ₚ map_to_list (contexts s);
  mem_rt : omap o_rt gs ≡ₚ elements (loaded s);
  mem_buf : omap o_buf gs ≡ₚ elements (buffers s);
  mem_tracker : omap o_tracker gs ≡ₚ elements (dom (registry (tracked s)));
  mem_size : registry_size (tracked s) = Z.of_nat (size (registry (tracked s)));
  mem_pending : pending_deferred_unloads s = Z.of_nat (pending_count gs);
  mem_store : omap o_store gs = [] ∨ omap o_store gs = [stored s];
  mem_manifests : manifests_ok (stored s);
}.

Record inv s gs : Prop := {
  inv_apps : apps_ok live_groups live_streams (running s);
  inv_memory : memory_ok s gs;
  inv_ghosts : Forall (ghost_ok esp) gs;
  inv_protocol : protocol strict (next_instance_id s) (completions s) (entries s) (who <$> gs);
}.

Lemma inv_permutation s gs gs' : gs ≡ₚ gs' → inv s gs → inv s gs'.
Proof.
  intros Hp [Ha [M1 M2 M3 M4 M5 M6 M7 M8] Hg Hpr]. split; [done| | |].
  - split; rewrite <-?(omap_permutation _ _ _ Hp); try done.
    + rewrite M6. unfold pending_count. by rewrite Hp.
    + pose proof (omap_permutation o_store _ _ Hp) as Hs. destruct M7 as [E|E]; rewrite E in Hs; [left|right].
      * by apply Permutation_nil_l in Hs as <-.
      * by apply Permutation_singleton_l in Hs as <-.
  - by rewrite <-Hp.
  - eapply protocol_permutation; [|exact Hpr]. by rewrite Hp.
Qed.

(** A task that owns nothing. *)
Definition at_rest (g : ghost) : Prop :=
  ∃ o n F b, g = Owns (Role o n None None None F b) None None (o_buf g) None false (o_store g) ∧ (o = None ∨ n = 2%nat).

(** The one failure there is: a start that fails erases its entry, which a concurrent
    [app_manager_stop] has erased already. *)
Inductive erased_start s : ∀ {B}, M ledger B → Prop :=
  | erased_start_at i : instances (running s) !! i = None → erased_start s (drop_instance i).
(** With [strict] nobody erases an entry while it starts. *)
Definition excused (B : Type) (m : M ledger B) s : Prop := ¬ strict ∧ erased_start s m.
Definition safe {A} := safe (A := A) excused inv at_rest.

(** * Sections that leave the ghost state alone *)

(** A section changes the apps only, and keeps them well-formed and the signals of their
    entries. *)
Lemma inv_apps_only s gs x :
  inv s gs → apps_ok live_groups live_streams x → completion <$> instances x = completion <$> instances (running s) → inv (s <| running := x |>) gs.
Proof. intros [Ha [M1 M2 M3 M4 M5 M6 M7 M8] Hg Hp] Hx He. split; [done|by split|done|]. unfold entries in *. simpl. by rewrite He. Qed.

Lemma same_shape_entries x x' : same_shape x x' → completion <$> instances x' = completion <$> instances x.
Proof.
  intros [Hs _]. apply (f_equal (fmap completion)) in Hs. rewrite <-!map_fmap_compose in Hs.
  etrans; [|etrans; [exact Hs|]]; apply map_fmap_ext; by intros.
Qed.

Lemma wp_on_apps {A} (m : M apps A) (Q : A → ledger → Prop) s :
  wp m (λ a x, Q a (s <| running := x |>)) (running s) → wp (on_apps m) Q s.
Proof. unfold wp, on_apps. by destruct (m (running s)) as [[a x]| |]. Qed.
Lemma wp_on_tracked {A} (m : M resources A) (Q : A → ledger → Prop) s :
  wp m (λ a x, Q a (s <| tracked := x |>)) (tracked s) → wp (on_tracked m) Q s.
Proof. unfold wp, on_tracked. by destruct (m (tracked s)) as [[a x]| |]. Qed.

(** [m] keeps the invariant, whoever runs it; its result and the state satisfy [P]. *)
Definition keeps {A} (m : M ledger A) : Prop := ∀ s gs, inv s gs → wp m (λ _ s', inv s' gs) s.

Lemma safe_keeps {A} (m : M ledger A) g (Q : ghost → A → Prop) : keeps m → (∀ a, Q g a) → safe (locked m) g Q.
Proof. intros Hm HQ. apply safe_locked. intros s gs HI. eapply wp_mono; [exact (Hm _ _ HI)|]. intros a s' HI'. exists g. split; [done|apply HQ]. Qed.

Lemma keep_ret {A} (a : A) : keeps (mret a).
Proof. by intros s gs HI. Qed.
Lemma keep_bind {A B} (m : M ledger A) (f : A → M ledger B) : keeps m → (∀ a, keeps (f a)) → keeps (m ≫= f).
Proof. intros Hm Hf s gs HI. apply wp_bind. eapply wp_mono; [exact (Hm _ _ HI)|]. intros a s' HI'. by apply Hf. Qed.
Lemma keep_gets {A} (f : ledger → A) : keeps (gets f).
Proof. by intros s gs HI. Qed.
Lemma keeps_calm {A} (m : M apps A) : calm live_groups live_streams None m → keeps (on_apps m).
Proof.
  intros Hm s gs HI. apply wp_on_apps. eapply wp_mono; [apply Hm; [apply HI|done]|]. intros a x [Hx Hs].
  apply inv_apps_only; [done..|]. by apply same_shape_entries.
Qed.

(** An update of an instance's entry that does not concern its descriptors, its handlers
    or its signal. *)
Lemma keeps_alter i f :
  (∀ r, fd_table (f r) = fd_table r ∧ signal_handlers (f r) = signal_handlers r ∧ completion (f r) = completion r) → keeps (alter_instance i f).
Proof.
  intros Hf s gs HI. unfold alter_instance. apply wp_on_apps, wp_modify. apply inv_apps_only; [done| |].
  - apply apps_ok_alter; [|apply HI]. intros r. destruct (Hf r) as (? & ? & ?). by split.
  - simpl. apply map_eq. intros j. rewrite !lookup_fmap. destruct (decide (j = i)) as [->|].
    + rewrite lookup_alter_eq. destruct (instances (running s) !! i) as [r|]; simpl; [|done]. f_equal. apply Hf.
    + by rewrite lookup_alter_ne.
Qed.

Lemma keeps_find_instance i : keeps (find_instance i).
Proof. apply keep_gets. Qed.
Lemma keeps_set_state i st : keeps (set_state i st).
Proof. by apply keeps_alter. Qed.
Lemma keeps_get_state i : keeps (app_manager_get_state i).
Proof. apply keep_bind; [apply keeps_find_instance|]. intros o. apply keep_ret. Qed.
Lemma keeps_parent_of i : keeps (parent_of i).
Proof. apply keep_bind; [apply keeps_find_instance|]. intros o. apply keep_ret. Qed.
Lemma keeps_has_cleanup_flag id : keeps (has_cleanup_flag id).
Proof.
  intros s gs HI. unfold has_cleanup_flag. case_decide; [by apply wp_ret|]. apply wp_bind, wp_gets.
  destruct (manifests s !! id) as [r|] eqn:Er; [|by apply wp_ret].
  destruct (mem_manifests _ _ (inv_memory _ _ HI) id r Er) as (m & Hm & _). apply wp_bind. eapply wp_deref; [exact Hm|]. by apply wp_ret.
Qed.
Lemma keeps_emit id e : keeps (on_apps (on_bus (app_event_emit id e))).
Proof. apply keeps_calm, calm_emit. Qed.

Lemma keeps_queue_signal i sig : 0 < sig < 32 → keeps (queue_signal default_ignored i sig).
Proof.
  intros Hsig s gs HI. unfold queue_signal. apply wp_bind. unfold find_instance. apply wp_gets.
  destruct (instances (running s) !! i) as [r|] eqn:Hr; [|by apply wp_ret]. apply wp_bind.
  destruct (lookup_lt_is_Some_2 (signal_handlers r) (Z.to_nat sig)) as [h Hh].
  { rewrite (ok_signals _ _ _ (inv_apps _ _ HI) i r Hr). lia. }
  eapply wp_deref; [exact Hh|]. destruct (is_ignored default_ignored h sig); [by apply wp_ret|]. apply wp_bind.
  eapply wp_mono; [eapply keeps_alter; [|exact HI]|]; [done|]. intros u s' HI'. by apply wp_ret.
Qed.

Lemma calm_producer_tasks (f : AppStream → AppStream) l x :
  (∀ y, stream_group (f y) = stream_group y ∧ active_operations (f y) = active_operations y) →
  apps_ok live_groups live_streams x → (∀ a, a ∈ l → is_Some (streams x !! a)) →
  wp (for_list (λ a, upd_stream a f) l) (λ _ x', apps_ok live_groups live_streams x' ∧ same_shape x x') x.
Proof.
  intros Hf. revert x. induction l as [|a l IH]; intros x Hx Hl; cbn [for_list]; [by apply wp_ret|]. apply wp_bind.
  eapply wp_mono; [apply calm_upd_stream; [done..|by apply Hl; left]|]. intros u x1 [Hx1 Hs1].
  eapply wp_mono; [apply IH; [done|]|]; [intros b Hb; apply Hs1, Hl; by right|]. intros u' x2 [Hx2 Hs2]. split; [done|by etrans].
Qed.

Lemma keeps_set_task i t : keeps (set_task i t).
Proof.
  intros s gs HI. unfold set_task. apply wp_bind. unfold find_instance. apply wp_gets.
  destruct (instances (running s) !! i) as [r|] eqn:Hr; [|by apply wp_ret]. apply wp_bind.
  destruct (ok_tables _ _ _ (inv_apps _ _ HI) i r Hr) as (_ & _ & Hfs).
  assert (wp (alter_instance i (λ r0, r0 <| task := Some t |>)) (λ _ s', inv s' gs ∧ streams (running s') = streams (running s)) s) as Ha.
  { apply wp_conj; [by eapply keeps_alter; [|exact HI]|done]. }
  eapply wp_mono; [exact Ha|]. intros u s1 [HI1 Es]. apply wp_on_apps.
  eapply wp_mono; [apply calm_producer_tasks; [done|apply HI1|]|].
  - intros a (z & Hz & Ez)%list_elem_of_omap. destruct (slot_file z) as [| |b|] eqn:Ef; try done. injection Ez as ->.
    rewrite Es. apply list_elem_of_filter in Hz as [Hu Hz]. apply (Hfs (StreamFile a)). apply list_elem_of_fmap.
    exists z. split; [done|]. by apply list_elem_of_filter.
  - intros u' x [Hx Hs]. apply inv_apps_only; [done..|]. by apply same_shape_entries.
Qed.

(** Hooks change what a tracker tracks. *)
Lemma keeps_hook owner current h : keeps (on_tracked (app_resources_hook owner current h)).
Proof.
  intros s gs [Ha [M1 M2 M3 M4 M5 M6 M7 M8] Hg Hp]. apply wp_on_tracked. unfold app_resources_hook, with_current_tracker.
  apply wp_bind, wp_gets. destruct (_ =? 0); [by apply wp_ret; split; [|split|..]|]. cbv zeta.
  destruct (_ =? 0); [by apply wp_ret; split; [|split|..]|]. unfold upd_tracker. apply wp_modify. split; [done| |done..].
  split; try done; simpl.
  - by rewrite dom_alter_L.
  - rewrite <-(size_dom (alter _ _ _)), dom_alter_L, size_dom. done.
Qed.

(** * Sections that change what a task has in memory *)

Section memory.
Implicit Types (w : role) (d : bool).

Lemma wp_load_runtime s w x b t d gs :
  inv s (Ghost w x None b t d :: gs) → (stage w < 2)%nat →
  wp load_runtime (λ r s', inv s' (Ghost w x (Some r) b t d :: gs)) s.
Proof.
  intros [Ha [M1 M2 M3 M4 M5 M6 M7 M8] Hg Hp] Hst. unfold load_runtime. apply wp_bind, wp_gets, wp_bind, wp_modify, wp_ret. split; [done| | |done].
  - split; rewrite ?pending_cons in *; try done. simpl. apply elements_add; [apply next_free_fresh|done].
  - ghosts Hg.
Qed.
Lemma loaded_own s w x r b t d gs : inv s (Ghost w x (Some r) b t d :: gs) → r ∈ loaded s.
Proof. intros [_ [_ M2 _ _ _ _ _ _] _ _]. simpl in M2. apply elem_of_elements. rewrite <-M2. by left. Qed.
Lemma wp_check_loaded s w x r b t d gs Q :
  inv s (Ghost w x (Some r) b t d :: gs) → Q tt s → wp (check_loaded r) Q s.
Proof. intros HI HQ. eapply wp_deref; [|exact HQ]. cbn. by rewrite decide_True by by eapply loaded_own. Qed.
Lemma wp_unload_runtime s w x r b t d gs :
  inv s (Ghost w x (Some r) b t d :: gs) → wp (unload_runtime r) (λ _ s', inv s' (Ghost w x None b t d :: gs)) s.
Proof.
  intros HI. unfold unload_runtime. apply wp_bind. eapply wp_check_loaded; [exact HI|]. apply wp_modify.
  destruct HI as [Ha [M1 M2 M3 M4 M5 M6 M7 M8] Hg Hp]. split; [done| | |done].
  - split; rewrite ?pending_cons in *; try done. simpl in *. by apply elements_remove in M2 as [_ M2].
  - ghosts Hg.
Qed.

Lemma wp_new_context s w r b t d gs y :
  inv s (Ghost w None r b t d :: gs) → (stage w < 2)%nat → inst w = Some (task_instance y) →
  wp (new_context y) (λ a s', inv s' (Ghost w (Some (a, y)) r b t d :: gs)) s.
Proof.
  intros [Ha [M1 M2 M3 M4 M5 M6 M7 M8] Hg Hp] Hst Hy. unfold new_context. apply wp_bind, wp_gets, wp_bind, wp_modify, wp_ret. split; [done| | |done].
  - split; rewrite ?pending_cons in *; try done. simpl. rewrite map_to_list_insert by (apply not_elem_of_dom, next_free_fresh). by f_equiv.
  - ghosts Hg.
Qed.
Lemma context_own s w a y r b t d gs : inv s (Ghost w (Some (a, y)) r b t d :: gs) → contexts s !! a = Some y.
Proof. intros [_ [M1 _ _ _ _ _ _ _] _ _]. simpl in M1. apply elem_of_map_to_list. rewrite <-M1. by left. Qed.
Lemma wp_context_at s w a y r b t d gs Q :
  inv s (Ghost w (Some (a, y)) r b t d :: gs) → Q y s → wp (context_at a) Q s.
Proof. intros HI HQ. eapply wp_deref; [|exact HQ]. by eapply context_own. Qed.
Lemma wp_upd_context s w a y r b t d gs f :
  inv s (Ghost w (Some (a, y)) r b t d :: gs) → task_instance (f y) = task_instance y →
  wp (upd_context a f) (λ _ s', inv s' (Ghost w (Some (a, f y)) r b t d :: gs)) s.
Proof.
  intros HI Hf. unfold upd_context. apply wp_bind. eapply wp_context_at; [exact HI|]. apply wp_modify.
  pose proof (context_own _ _ _ _ _ _ _ _ _ HI) as Hy. destruct HI as [Ha [M1 M2 M3 M4 M5 M6 M7 M8] Hg Hp]. split; [done| | |done].
  - split; rewrite ?pending_cons in *; try done. simpl in *. rewrite <-insert_delete_eq, map_to_list_insert by apply lookup_delete_eq. f_equiv.
    apply (Permutation_cons_inv (a := (a, y))). rewrite M1. symmetry. by apply map_to_list_delete.
  - apply Forall_cons in Hg as [[G1 G2 G3] Hg]. apply Forall_cons. split; [split; simpl in *|exact Hg]; [by intros [? _]%G1|exact G2|].
    intros a' y' [= <- <-]. rewrite Hf. by eapply G3.
Qed.
Lemma wp_delete_context s w a y r b t d gs :
  inv s (Ghost w (Some (a, y)) r b t d :: gs) → wp (delete_context a) (λ _ s', inv s' (Ghost w None r b t d :: gs)) s.
Proof.
  intros HI. unfold delete_context. apply wp_bind. eapply wp_context_at; [exact HI|]. apply wp_modify.
  pose proof (context_own _ _ _ _ _ _ _ _ _ HI) as Hy. destruct HI as [Ha [M1 M2 M3 M4 M5 M6 M7 M8] Hg Hp]. split; [done| | |done].
  - split; rewrite ?pending_cons in *; try done. simpl in *. apply (Permutation_cons_inv (a := (a, y))). rewrite M1. symmetry. by apply map_to_list_delete.
  - ghosts Hg.
Qed.

Lemma wp_alloc_buffer s w x r t d gs :
  inv s (Ghost w x r None t d :: gs) → wp alloc_buffer (λ b s', inv s' (Ghost w x r (Some b) t d :: gs)) s.
Proof.
  intros [Ha [M1 M2 M3 M4 M5 M6 M7 M8] Hg Hp]. unfold alloc_buffer. apply wp_bind, wp_gets, wp_bind, wp_modify, wp_ret. split; [done| |ghosts Hg|done].
  split; rewrite ?pending_cons in *; try done. simpl. apply elements_add; [apply next_free_fresh|done].
Qed.
Lemma wp_free_buffer s w x r b t d gs :
  inv s (Ghost w x r (Some b) t d :: gs) → wp (free_buffer b) (λ _ s', inv s' (Ghost w x r None t d :: gs)) s.
Proof.
  intros [Ha [M1 M2 M3 M4 M5 M6 M7 M8] Hg Hp]. simpl in M3. pose proof M3 as M3'. apply elements_remove in M3' as [Hb M3'].
  unfold free_buffer. apply wp_bind. eapply wp_deref; [cbn; by rewrite decide_True by done|]. apply wp_modify.
  split; [done| |ghosts Hg|done]. split; rewrite ?pending_cons in *; done.
Qed.

(** A loop of calls of the platform. *)
Lemma wp_platform_calls {A} (f : A → resource_world → resource_world) l (y : resources) Q :
  (∀ v, Q tt (y <| r_world := v |>)) → wp (for_list (λ z, platform_call (f z)) l) Q y.
Proof.
  revert y Q. induction l as [|z l IH]; intros y Q HQ; cbn [for_list]; [by apply wp_ret; specialize (HQ (r_world y)); destruct y|].
  apply wp_bind. unfold platform_call at 1. apply wp_modify. apply IH. intros v. apply (HQ v).
Qed.
Lemma keeps_join_tasks l : keeps (on_tracked (join_tasks l)).
Proof.
  intros s gs [Ha [M1 M2 M3 M4 M5 M6 M7 M8] Hg Hp]. apply wp_on_tracked. unfold join_tasks.
  apply (wp_platform_calls (λ x, join_task x.2 x.1)). intros v. by split; [|split|..].
Qed.

Lemma registry_fresh s w x r b d gs i : inv s (Ghost w x r b None d :: gs) → inst w = Some i → registry (tracked s) !! i = None.
Proof.
  intros [_ [_ _ _ M4 _ _ _ _] Hg Hp] Hi. apply not_elem_of_dom. intros Hd%elem_of_elements. rewrite <-M4 in Hd. simpl in Hd.
  apply list_elem_of_omap in Hd as (g & Hgin & Ht). apply Forall_cons in Hg as [_ Hg]. rewrite Forall_forall in Hg.
  destruct (Hg g Hgin) as [_ G _]. apply G in Ht. eapply (others inst w (who g) (who <$> gs)); [exact (p_insts _ _ _ _ _ Hp)|done| |done].
  apply list_elem_of_fmap. by exists g.
Qed.
Lemma wp_register s w x r b d gs i (ok : bool) :
  inv s (Ghost w x r b None d :: gs) → inst w = Some i →
  wp (on_tracked (app_resources_register ok i))
    (λ e s', e = (if ok then ERROR_NONE else ERROR_OUT_OF_MEMORY) ∧ inv s' (Ghost w x r b (if ok then Some i else None) d :: gs)) s.
Proof.
  intros HI Hi. pose proof (registry_fresh _ _ _ _ _ _ _ _ HI Hi) as Hn. apply wp_on_tracked. unfold app_resources_register.
  destruct ok; cbn [negb]; [|apply wp_ret; split; [done|by destruct s]]. apply wp_bind, wp_modify, wp_ret. split; [done|].
  destruct HI as [Ha [M1 M2 M3 M4 M5 M6 M7 M8] Hg Hp]. split; [done| | |done].
  - split; rewrite ?pending_cons in *; try done; simpl.
    + rewrite dom_insert_L. apply elements_add; [by apply not_elem_of_dom|done].
    + rewrite map_size_insert_None by done. simpl in M5. lia.
  - ghosts Hg.
Qed.
Lemma wp_release s w x r b d gs i owner :
  inv s (Ghost w x r b (Some i) d :: gs) → wp (on_tracked (app_resources_release i owner)) (λ _ s', inv s' (Ghost w x r b None d :: gs)) s.
Proof.
  intros [Ha [M1 M2 M3 M4 M5 M6 M7 M8] Hg Hp]. simpl in M4. pose proof M4 as M4'. apply elements_remove in M4' as [[tr Hi]%elem_of_dom M4'].
  apply wp_on_tracked. unfold app_resources_release. apply wp_bind. unfold release_locked. apply wp_bind, wp_gets. rewrite Hi.
  apply wp_bind, wp_modify, wp_ret, wp_bind. unfold release_tracked.
  apply wp_bind, wp_platform_calls. intros v1. apply wp_bind, wp_platform_calls. intros v2.
  apply wp_bind, wp_platform_calls. intros v3. apply wp_platform_calls. intros v4. apply wp_ret.
  split; [done| | |done].
  - split; rewrite ?pending_cons in *; try done; simpl.
    + by rewrite dom_delete_L.
    + rewrite map_size_delete, Hi. rewrite M5. assert (size (registry (tracked s)) ≠ 0%nat) by (intros Hz%map_size_empty_inv; by rewrite Hz in Hi). lia.
  - ghosts Hg.
Qed.
Lemma wp_release_tasks s gs i owner :
  inv s gs → wp (on_tracked (release_tasks_locked i owner)) (λ _ s', inv s' gs) s.
Proof.
  intros [Ha [M1 M2 M3 M4 M5 M6 M7 M8] Hg Hp]. apply wp_on_tracked. unfold release_tasks_locked. apply wp_bind, wp_gets.
  destruct (registry (tracked s) !! i) as [tr|] eqn:Hi; [|by apply wp_ret; split; [|split|..]]. cbv zeta. apply wp_bind, wp_modify, wp_bind.
  apply (wp_platform_calls (λ x : Z * TrackedTask, delete_task (task_delete x.2) x.1)). intros v. apply wp_bind, wp_modify, wp_ret. split; [done| |done|done]. split; rewrite ?pending_cons in *; try done; simpl.
  - by rewrite !dom_alter_L.
  - by rewrite <-(size_dom (alter _ _ _)), !dom_alter_L, size_dom.
Qed.

Lemma wp_defer s w x r b t gs :
  inv s (Ghost w x r b t false :: gs) → (stage w < 2)%nat → wp (add_pending 1) (λ _ s', inv s' (Ghost w x r b t true :: gs)) s.
Proof.
  intros [Ha [M1 M2 M3 M4 M5 M6 M7 M8] Hg Hp] Hst. unfold add_pending. apply wp_modify. split; [done| | |done].
  - split; rewrite ?pending_cons in *; try done. simpl in *. lia.
  - ghosts Hg.
Qed.
Lemma wp_deferred_done s w x b t gs :
  inv s (Ghost w x None b t true :: gs) → wp (add_pending (-1)) (λ _ s', inv s' (Ghost w x None b t false :: gs)) s.
Proof.
  intros [Ha [M1 M2 M3 M4 M5 M6 M7 M8] Hg Hp]. unfold add_pending. apply wp_modify. split; [done| | |done].
  - split; rewrite ?pending_cons in *; try done. simpl in *. lia.
  - ghosts Hg.
Qed.

(** A task that is created takes over the buffer. *)
Lemma inv_hand_over s w x r b t d gs :
  inv s (Ghost w x r b t d :: gs) → inv s (Ghost w x r None t d :: Owns (idle [] 0) None None b None false None :: gs).
Proof.
  intros [Ha [M1 M2 M3 M4 M5 M6 M7 M8] Hg Hp]. split; [done| | |].
  - split; rewrite ?pending_cons in *; try done.
  - apply Forall_cons in Hg as [[? ? ?] Hg]. repeat apply Forall_cons_2; [split; simpl in *; naive_solver lia..|exact Hg].
  - rewrite !fmap_cons in *. by apply protocol_spawn.
Qed.
End memory.

(** * Sections of the protocol *)

Section sections.
Implicit Types (w : role) (F : list (Z * nat)) (n : nat) (c i : Z).

(** The role of the task at the head changes, with the signals and the entries. *)
Lemma inv_role s s' w w' x r b t d gs :
  inv s (Ghost w x r b t d :: gs) → apps_ok live_groups live_streams (running s') →
  contexts s' = contexts s → loaded s' = loaded s → buffers s' = buffers s → tracked s' = tracked s →
  pending_deferred_unloads s' = pending_deferred_unloads s → stored s' = stored s →
  ((2 ≤ stage w')%nat → (2 ≤ stage w)%nat ∨ x = None ∧ (r = None ∨ esp = false ∧ d = true)) → x = None ∧ t = None ∨ inst w' = inst w →
  protocol strict (next_instance_id s') (completions s') (entries s') (w' :: (who <$> gs)) →
  inv s' (Ghost w' x r b t d :: gs).
Proof.
  intros [Ha [M1 M2 M3 M4 M5 M6 M7 M8] Hg Hp] Ha' E1 E2 E3 E4 E5 E6 G1 G2 Hp'. split; [done| | |done].
  - split; rewrite ?E1, ?E2, ?E3, ?E4, ?E5, ?E6; rewrite ?pending_cons in *; done.
  - apply Forall_cons in Hg as [[? ? ?] Hg]. apply Forall_cons. split; [split; simpl in *|exact Hg].
    + intros Hst. destruct (G1 Hst); auto.
    + intros i Ht. destruct G2 as [[-> ->]|E]; [done|rewrite E; auto].
    + intros a y Hx. destruct G2 as [[-> ->]|E]; [done|rewrite E; eauto].
Qed.

Ltac role_side := simpl; first [done | lia | by left | by right | intros ?; by left | intros ?; right; by split].

Lemma wp_on_apps_seq {A B} (m : M apps A) (k : M apps B) (Q : B → ledger → Prop) s :
  wp (m;; k) (λ a x, Q a (s <| running := x |>)) (running s) → wp (on_apps m;; on_apps k) Q s.
Proof. unfold wp, on_apps, mbind, M_bind. destruct (m (running s)) as [[a x]| |]; [|done..]. cbn. destruct (k x) as [[? ?]| |]; exact id. Qed.

Lemma wp_on_apps_then {A B C} (m : M apps A) (k : M apps B) (f : M ledger C) (Q : C → ledger → Prop) s :
  wp (m;; k) (λ _ x, wp f Q (s <| running := x |>)) (running s) → wp (on_apps m;; on_apps k;; f) Q s.
Proof. unfold wp, on_apps, mbind, M_bind. destruct (m (running s)) as [[a x]| |]; [|done..]. cbn. destruct (k x) as [[? ?]| |]; exact id. Qed.
Lemma shapes_completions (m m' : gmap Z AppInstanceRecord) i r :
  shape <$> m' = <[i := shape r]> (shape <$> m) → completion <$> m' = <[i := completion r]> (completion <$> m).
Proof.
  intros Hs. apply (f_equal (fmap completion)) in Hs. rewrite fmap_insert, <-!map_fmap_compose in Hs.
  etrans; [|etrans; [exact Hs|]]; [by apply map_fmap_ext|done].
Qed.

(** The entry that [drop_instance] makes has no mutex to lock. *)
Lemma drop_instance_fails s i : instances (running s) !! i = None → ∀ r, drop_instance i s ≠ Done r.
Proof.
  intros Hi r. set (x := set_instances (<[i := new_record [] APP_INSTANCE_STATE_STARTING 0 [] ($"/")]> (instances (running s))) (running s)).
  assert (app_fd_table_teardown i x = Panic) as E.
  { unfold app_fd_table_teardown, lock_table, mbind, M_bind.
    by rewrite (table_at_eq i x (new_record [] APP_INSTANCE_STATE_STARTING 0 [] ($"/"))) by apply lookup_insert_eq. }
  unfold drop_instance, find_instance, on_apps, mbind, M_bind, gets. rewrite Hi. unfold modify. fold x. cbn -[app_fd_table_teardown x]. by rewrite E.
Qed.

Lemma wp_allocate_instance s F b context gs :
  inv s (Ghost (idle F (Datatypes.S b)) None None None None false :: gs) →
  wp (allocate_instance context) (λ i s', inv s' (Ghost (Role (Some i) 0 None None None F b) None None None None false :: gs)) s.
Proof.
  intros HI. pose proof (inv_protocol _ _ HI) as Hp. destruct (p_next _ _ _ _ _ Hp) as [Hn1 Hn]. rewrite fmap_cons, total_cons in Hn. simpl in Hn.
  unfold allocate_instance. apply wp_bind, wp_gets, wp_bind, wp_modify, wp_bind. set (s1 := s <| next_instance_id := _ |>).
  assert (∀ Q, (∀ p, Q p s1) → wp (if negb (context_parent context =? 0) then find_instance (context_parent context) else mret None) Q s1) as Hparent.
  { intros Q HQ. destruct (negb _); [apply wp_gets, HQ|apply wp_ret, HQ]. }
  apply Hparent. intros p. clear Hparent. cbv zeta.
  destruct (match p with Some p => (env p, cwd p) | None => ([], $"/") end) as [e dir].
  set (rec := new_record _ _ _ _ _). set (i := next_instance_id s).
  apply (wp_on_apps_then _ _ (mret i)). eapply wp_mono; [by apply (wp_insert_construct live_groups live_streams i rec); [apply HI|..]|].
  intros u y' [Hy' Hs]. apply wp_ret.
  eapply (inv_role s); [exact HI|exact Hy'|role_side..|]. simpl.
  rewrite Z.mod_small by lia. replace (entries _) with (<[i := None]> (entries s)); [by apply protocol_start|].
  unfold entries. simpl. change (None : option Z) with (completion rec). by rewrite (shapes_completions _ _ _ _ Hs).
Qed.

(** The entry is gone, descriptors closed. *)
Lemma wp_teardown_erase i x :
  apps_ok live_groups live_streams x → is_Some (instances x !! i) →
  wp (app_fd_table_teardown i;; modify (λ x, set_instances (delete i (instances x)) x))
    (λ _ x', apps_ok live_groups live_streams x' ∧ completion <$> instances x' = delete i (completion <$> instances x)) x.
Proof.
  intros Hx Hi. apply wp_bind. eapply wp_mono; [by apply wp_teardown|]. intros _ x' (Hok & Hs & _). apply wp_modify. split; [exact Hok|].
  change (set_instances _ x') with (erased i x'). rewrite (same_shape_entries _ _ Hs). simpl. by rewrite fmap_delete.
Qed.
(** A start that failed erases its entry, if it is there. *)
Lemma attempt_drop_instance s i F b gs :
  inv s (Ghost (Role (Some i) 0 None None None F b) None None None None false :: gs) →
  attempt excused (drop_instance i) (λ _ s', inv s' (Ghost (idle F b) None None None None false :: gs)) s.
Proof.
  intros HI. pose proof (inv_protocol _ _ HI) as Hp. destruct (instances (running s) !! i) as [r|] eqn:Hr; [right|left].
  - unfold drop_instance. apply wp_bind, wp_gets, wp_bind. rewrite Hr. apply wp_ret.
    apply wp_on_apps_seq. eapply wp_mono; [apply wp_teardown_erase; [apply HI|by exists r]|].
    intros u y' [Hy' E']. eapply (inv_role s); [exact HI|exact Hy'|role_side..|]. unfold entries at 1. simpl. rewrite E'.
    by apply (protocol_drop strict _ _ _ i).
  - split; [|by apply drop_instance_fails]. split; [|by constructor]. intros Hs.
    destruct (p_strict _ _ _ _ _ Hp (Role (Some i) 0 None None None F b) i Hs) as (o & Ho & _); [by left|done|simpl; lia|].
    unfold entries in Ho. by rewrite lookup_fmap, Hr in Ho.
Qed.

Lemma wp_new_completion s i F b r t gs :
  inv s (Ghost (Role (Some i) 0 None None None F b) None r None t false :: gs) →
  wp new_completion (λ c s', inv s' (Ghost (Role (Some i) 0 (Some c) None None F b) None r None t false :: gs)) s.
Proof.
  intros HI. unfold new_completion. apply wp_bind, wp_gets, wp_bind, wp_modify, wp_ret.
  eapply (inv_role s); [exact HI|apply HI|role_side..|].
  apply protocol_new; [apply not_elem_of_dom, next_free_fresh|apply HI].
Qed.
Lemma wp_discard s i F b c x r bf t gs :
  inv s (Ghost (Role (Some i) 0 (Some c) None None F b) x r bf t false :: gs) →
  wp (delete_completion c) (λ _ s', inv s' (Ghost (Role (Some i) 0 None None None F b) x r bf t false :: gs)) s.
Proof.
  intros HI. destruct (protocol_discard _ _ _ _ _ _ _ _ _ (inv_protocol _ _ HI)) as [[y Hy] Hp].
  unfold delete_completion, completion_at. apply wp_bind. eapply wp_deref; [exact Hy|]. apply wp_modify.
  eapply (inv_role s); [exact HI|apply HI|role_side..|exact Hp].
Qed.

Lemma wp_set_completion s i F b c x r bf t gs :
  inv s (Ghost (Role (Some i) 0 (Some c) None None F b) x r bf t false :: gs) →
  wp (set_completion i c) (λ _ s', inv s' (Ghost (Role (Some i) 1 (Some c) None None F b) x r bf t false :: gs)) s.
Proof.
  intros HI. unfold set_completion, alter_instance. apply wp_on_apps, wp_modify. eapply (inv_role s); [exact HI| |role_side..|].
  - apply apps_ok_alter; [done|apply HI].
  - simpl. replace (entries _) with (alter (λ _, Some c) i (entries s)); [exact (protocol_publish _ _ _ _ _ _ _ _ _ (inv_protocol _ _ HI))|].
    unfold entries. simpl. apply map_eq. intros j. rewrite lookup_fmap. destruct (decide (j = i)) as [->|].
    + rewrite !lookup_alter_eq, lookup_fmap. by destruct (instances (running s) !! i).
    + by rewrite !lookup_alter_ne, lookup_fmap.
Qed.

Lemma wp_leave_ledger s i F b c r bf t d gs :
  inv s (Ghost (Role (Some i) 1 (Some c) None None F b) None r bf t d :: gs) → r = None ∨ esp = false ∧ d = true →
  wp (leave_ledger i) (λ _ s', inv s' (Ghost (Role (Some i) 2 (Some c) None None F b) None r bf t d :: gs)) s.
Proof.
  intros HI Hr. unfold leave_ledger. apply wp_bind, wp_gets.
  assert (∀ y, apps_ok live_groups live_streams y → completion <$> instances y = delete i (entries s) →
    inv (s <| running := y |>) (Ghost (Role (Some i) 2 (Some c) None None F b) None r bf t d :: gs)) as Hend.
  { intros y Hy Ey. eapply (inv_role s); [exact HI|exact Hy|role_side..|].
    unfold entries at 1. simpl. rewrite Ey. exact (protocol_leave _ _ _ _ _ _ _ _ _ (inv_protocol _ _ HI)). }
  destruct (instances (running s) !! i) as [rec|] eqn:Hrec.
  - apply wp_on_apps_seq. eapply wp_mono; [apply wp_teardown_erase; [apply HI|by exists rec]|]. intros u y [Hy Ey]. by apply Hend.
  - apply wp_bind, wp_ret, wp_on_apps, wp_modify. apply Hend; [apply apps_ok_erased, HI|]. simpl. by rewrite fmap_delete.
Qed.

(** The app's task is created: it takes over everything but what its starter knows. *)
Lemma inv_fork s i F b c x r bf t d gs :
  inv s (Ghost (Role (Some i) 1 (Some c) None None F b) x r bf t d :: gs) →
  inv s (Ghost (idle ((i, 1%nat) :: F) b) None None None None false :: Owns (Role (Some i) 1 (Some c) None None [] 0) x r bf t d None :: gs).
Proof.
  intros [Ha [M1 M2 M3 M4 M5 M6 M7 M8] Hg Hp]. split; [done| | |].
  - split; rewrite ?pending_cons in *; try done.
  - apply Forall_cons in Hg as [[? ? ?] Hg]. repeat apply Forall_cons_2; [split; simpl in *; naive_solver lia..|exact Hg].
  - rewrite !fmap_cons in *. by apply protocol_fork.
Qed.

(** Updates of the signals. *)
Lemma inv_signals s w w' cs x r b t d gs :
  inv s (Ghost w x r b t d :: gs) →
  ((2 ≤ stage w')%nat → (2 ≤ stage w)%nat ∨ x = None ∧ (r = None ∨ esp = false ∧ d = true)) → x = None ∧ t = None ∨ inst w' = inst w →
  protocol strict (next_instance_id s) cs (entries s) (w' :: (who <$> gs)) →
  inv (s <| completions := cs |>) (Ghost w' x r b t d :: gs).
Proof. intros HI G1 G2 Hp. eapply (inv_role s); [exact HI|apply HI|done..]. Qed.

Lemma wp_upd_completion s c f y (Q : unit → ledger → Prop) :
  completions s !! c = Some y → Q tt (s <| completions := <[c := f y]> (completions s) |>) → wp (upd_completion c f) Q s.
Proof. intros Hy HQ. unfold upd_completion, completion_at. apply wp_bind. eapply wp_deref; [exact Hy|]. by apply wp_modify. Qed.

Lemma wp_give_semaphore s i F b c r bf t d gs :
  inv s (Ghost (Role (Some i) 2 (Some c) None None F b) None r bf t d :: gs) →
  wp (give_semaphore c) (λ _ s', inv s' (Ghost (Role (Some i) 2 (Some c) None None F b) None r bf t d :: gs)) s.
Proof.
  intros HI. destruct (protocol_give _ _ _ _ _ _ _ _ _ (inv_protocol _ _ HI)) as (y & Hy & Hp). eapply wp_upd_completion; [exact Hy|].
  eapply inv_signals; [exact HI|role_side..|exact Hp].
Qed.

Lemma wp_drop_reference s w x r b t d c gs :
  inv s (Ghost w x r b t d :: gs) → reaps w = None → (stage w = 2%nat ∨ inst w = None) →
  (comp w = Some c ∧ waits w = None ∨ comp w = None ∧ waited w = Some c) →
  wp (drop_reference c) (λ last s', ∃ k : Z, last = (k =? 0) ∧ inv s' (Ghost (dropped w k c) x r b t d :: gs)) s.
Proof.
  intros HI H1' H2' H3'. destruct (protocol_unref _ _ _ _ _ _ _ (inv_protocol _ _ HI) H1' H2' H3') as (y & Hy & Hp).
  unfold drop_reference. apply wp_bind. eapply wp_upd_completion; [exact Hy|]. unfold completion_at. apply wp_bind.
  eapply wp_deref; [apply lookup_insert_eq|]. apply wp_ret. exists (refcount y - 1). split; [done|].
  eapply inv_signals; [exact HI|role_side..|exact Hp].
Qed.

Lemma wp_reap s o n c F b x r bf t d gs :
  inv s (Ghost (Role o n None None (Some c) F b) x r bf t d :: gs) →
  wp (delete_completion c) (λ _ s', inv s' (Ghost (Role o n None None None F b) x r bf t d :: gs)) s.
Proof.
  intros HI. destruct (protocol_reap _ _ _ _ _ _ _ _ _ _ (inv_protocol _ _ HI)) as [[y Hy] Hp].
  unfold delete_completion, completion_at. apply wp_bind. eapply wp_deref; [exact Hy|]. apply wp_modify.
  eapply inv_signals; [exact HI|role_side..|exact Hp].
Qed.

Lemma wp_acquire s F b i gs :
  inv s (Ghost (idle F b) None None None None false :: gs) →
  wp (acquire_completion_signal i) (λ o s', match o with
    | Some c => inv s' (Ghost (Role None 0 None (Some (c, i)) None F b) None None None None false :: gs)
    | None => inv s' (Ghost (idle F b) None None None None false :: gs) ∧ (entries s' !! i = None ∨ entries s' !! i = Some None)
    end) s.
Proof.
  intros HI. unfold acquire_completion_signal. apply wp_bind, wp_gets.
  assert (entries s !! i = completion <$> instances (running s) !! i) as Ee by (unfold entries; by rewrite lookup_fmap).
  destruct (instances (running s) !! i) as [rec|]; simpl in *; [|apply wp_ret; split; [done|by left]].
  destruct (completion rec) as [c|]; [|apply wp_ret; split; [done|by right]].
  destruct (protocol_acquire _ _ _ _ _ _ _ _ _ (inv_protocol _ _ HI) Ee) as (y & Hy & Hp).
  apply wp_bind. eapply wp_upd_completion; [exact Hy|]. apply wp_ret. eapply inv_signals; [exact HI|role_side..|exact Hp].
Qed.

Lemma wp_take_semaphore s F b c i gs :
  inv s (Ghost (Role None 0 None (Some (c, i)) None F b) None None None None false :: gs) →
  wp (take_semaphore c) (λ taken s', taken = true →
    inv s' (Ghost (Role None 0 None (Some (c, i)) None ((i, 2%nat) :: F) b) None None None None false :: gs)) s.
Proof.
  intros HI. destruct (waited_live strict _ _ _ _ (Role None 0 None (Some (c, i)) None F b) c i (inv_protocol _ _ HI)) as (y & Hy & _); [by left|done|].
  unfold take_semaphore, completion_at. apply wp_bind. eapply wp_deref; [exact Hy|]. destruct (given y) eqn:Hg; [|by apply wp_ret].
  apply wp_bind. eapply wp_upd_completion; [exact Hy|]. apply wp_ret. intros _.
  eapply inv_signals; [exact HI|role_side..|]. exact (protocol_take _ _ _ _ _ _ _ _ _ _ (inv_protocol _ _ HI) Hy Hg).
Qed.

Lemma wp_erase s i w x r b t d gs :
  inv s (Ghost w x r b t d :: gs) → (strict → (i, 2%nat) ∈ facts w) → wp (erase_instance i) (λ _ s', inv s' (Ghost w x r b t d :: gs)) s.
Proof.
  intros HI Hf. unfold erase_instance. apply wp_on_apps, wp_modify.
  eapply (inv_role s); [exact HI|apply apps_ok_erased, HI|role_side..|].
  unfold entries at 1. simpl. rewrite fmap_delete. by apply protocol_erase; [|apply (inv_protocol _ _ HI)].
Qed.

(** With [strict], a task that knows that the instance has started learns that it ended. *)
Lemma inv_gone s i F b gs :
  strict → inv s (Ghost (idle F b) None None None None false :: gs) → (i, 1%nat) ∈ F → entries s !! i = None ∨ entries s !! i = Some None →
  inv s (Ghost (idle ((i, 2%nat) :: F) b) None None None None false :: gs).
Proof.
  intros Hs HI Hi He. eapply (inv_role s); [exact HI|apply HI|role_side..|]. by apply (protocol_gone strict _ _ _ _ _ _ _ Hs (inv_protocol _ _ HI)).
Qed.
End sections.
End safety.
