(* ===== verification/SchedulerSafety.v ===== *)
(** The tasks of the scheduler, in the logic of [Tasks]: whatever tasks start and stop
    instances, and however their sections interleave, no object is used after it was
    deleted, all of them are deleted in the end, a task that stopped an instance knows that
    it has ended, and only a start that lost its entry fails. *)

From S2P Require Import Prelude EventGroups AppEvents Apps Streams AppEnv Tasks Resources AppLedger Scheduler AppsOk SchedulerInv SchedulerSections.

Section tasks_safe.
Context `{FreeRtosEventGroup} `{OtherFilesLaws} `{ResourcePlatform}.
Variable esp : bool.
Variable default_ignored : list Z.
Variables live_groups live_streams : gset Z.
Variable strict : bool.
(** What the task at hand holds. *)
Variable hold : option holding.
Implicit Types (s : ledger) (g : ghost) (gs : list ghost) (w : role) (F : list (Z * nat)).
Abbreviation inv := (inv esp live_groups live_streams strict).
Abbreviation safe := (SchedulerSections.safe esp live_groups live_streams strict).
Abbreviation Ghost w x r b t d := (Owns w x r b t d hold).

(** A section that changes what the task owns, before the rest of the task. *)
Lemma safe_section {A B} (m : M ledger A) (f : A → proc ledger B) g (g' : A → ghost) Q :
  (∀ s gs, inv s (g :: gs) → wp m (λ a s', inv s' (g' a :: gs)) s) → (∀ a, safe (f a) (g' a) Q) → safe (locked m ≫= f) g Q.
Proof. intros Hm Hf s gs HI. right. eapply wp_mono; [by apply Hm|]. intros a s' HI'. exists (g' a). split; [done|apply Hf]. Qed.

Lemma safe_keep {A B} (m : M ledger A) (f : A → proc ledger B) g Q :
  keeps esp live_groups live_streams strict m → (∀ a, safe (f a) g Q) → safe (locked m ≫= f) g Q.
Proof. intros Hm. apply (safe_section m f g (λ _, g)). intros s gs HI. by apply Hm. Qed.

Lemma safe_then {A B} (p : proc ledger A) (f : A → proc ledger B) g P Q :
  safe p g P → (∀ g' a, P g' a → safe (f a) g' Q) → safe (p ≫= f) g Q.
Proof. intros Hp Hf. apply safe_bind. by eapply safe_mono. Qed.

Lemma safe_choose {A B} `{Inhabited A} (k : A → proc ledger B) g Q : (∀ a, safe (k a) g Q) → safe (choose ≫= k) g Q.
Proof. done. Qed.

(** ** Signals *)

Lemma safe_signal_send i sig g : safe (app_signal_send default_ignored i sig) g (λ g' _, g' = g).
Proof.
  unfold app_signal_send. destruct (_ || _)%bool eqn:Hsig; [done|]. apply orb_false_iff in Hsig as [H1' H2'].
  apply safe_keep; [apply keeps_get_state|]. intros st. case_decide; [done|].
  apply safe_keep; [apply keeps_emit|]. intros e. destruct (negb _); [done|].
  apply safe_keeps; [|done]. apply keeps_queue_signal. unfold APP_LIBC_SIGNAL_COUNT in *. lia.
Qed.

Definition released w : role := Role (inst w) (stage w) None None None (facts w) (budget w).
Lemma safe_release_completion c w x r b t d :
  reaps w = None → (stage w = 2%nat ∨ inst w = None) → (comp w = Some c ∧ waits w = None ∨ comp w = None ∧ waited w = Some c) →
  safe (release_completion_signal c) (Ghost w x r b t d) (λ g' _, g' = Ghost (released w) x r b t d).
Proof.
  intros H1' H2' H3' s gs HI. right. eapply wp_mono; [by eapply wp_drop_reference|]. intros last s' (k & -> & HI1).
  eexists. split; [exact HI1|]. unfold dropped. cbn beta. destruct (k =? 0); [|reflexivity].
  intros s1 gs1 HI2. right. eapply wp_mono; [by apply wp_reap|]. intros u s2 HI3. eexists. split; [exact HI3|reflexivity].
Qed.

(** ** The loader and the trackers *)

Lemma safe_unload r owner w x b t d :
  safe (unload r owner) (Ghost w x (Some r) b t d) (λ g' _, g' = Ghost w x None b t d).
Proof.
  intros hooks. eapply safe_then; [apply (safe_for_each _ _ _ (eq (Ghost w x (Some r) b t d)) _ _ _ (eq (Ghost w x (Some r) b t d))); [|done..]|].
  - intros h g _ <-. by apply safe_keeps; [apply keeps_hook|].
  - intros g _ <-. intros s gs HI. right. eapply wp_mono; [by apply wp_unload_runtime|]. intros u s' HI'. eexists. split; [exact HI'|reflexivity].
Qed.

Lemma safe_release_tasks i owner g : safe (app_resources_release_tasks i owner) g (λ g' _, g' = g).
Proof.
  assert (safe ('(joins, owner) ← locked (on_tracked (release_tasks_locked i owner)); locked (on_tracked (join_tasks joins));; mret owner) g (λ g' _, g' = g)) as Hrest.
  { apply safe_keep; [intros s gs; apply wp_release_tasks|]. intros [joins o]. apply safe_keep; [|done]. apply keeps_join_tasks. }
  split; [apply Hrest|]. intros s gs HI. apply wp_gets. intros _. exists g. split; [done|apply Hrest].
Qed.

(** What [finish_app_task] leaves: the rest of the thread unloads the binary. *)
Lemma safe_deferred_unload r i owner (clean : bool) (o : option Z) n F b bf t :
  (o = None ∨ n = 2%nat) → t = (if clean then Some i else None) →
  safe (deferred_unload r i owner clean) (Ghost (Role o n None None None F b) None (Some r) bf t true) (λ g (_ : ()), at_rest g).
Proof.
  intros Ho ->. eapply safe_then; [apply safe_unload|]. cbn beta. intros g u ->.
  assert (safe (locked (add_pending (-1))) (Ghost (Role o n None None None F b) None None bf None true) (λ g (_ : ()), at_rest g)) as Hend.
  { intros s gs HI. right. eapply wp_mono; [by apply wp_deferred_done|]. intros v s' HI'. eexists. split; [exact HI'|].
    exists o, n, F, b. by split. }
  destruct clean; [|apply Hend]. eapply (safe_section _ _ _ (λ _, Ghost (Role o n None None None F b) None None bf None true)); [|intros _; apply Hend].
  intros s gs. apply wp_release.
Qed.

Lemma safe_deliver_result i result g : safe (deliver_result_to_parent_if_any i result) g (λ g' _, g' = g).
Proof.
  apply safe_keep; [apply keeps_parent_of|]. intros [p|]; [|done]. destruct (negb _); [|done]. apply safe_keep; [apply keeps_emit|done].
Qed.

Lemma safe_reap_self (o : option Z) n F b bf :
  (o = None ∨ n = 2%nat) → safe (reap_self bf) (Ghost (Role o n None None None F b) None None bf None false) (λ g (_ : ()), at_rest g).
Proof.
  intros Ho created. assert (at_rest (Ghost (Role o n None None None F b) None None bf None false)) as Hr by by exists o, n, F, b.
  destruct bf as [bf|]; [|done]. destruct created; [|done].
  exists (Ghost (Role o n None None None F b) None None None None false), (Owns (idle [] 0) None None (Some bf) None false None).
  split; [|split; [|by exists o, n, F, b]].
  - intros s gs. apply inv_hand_over.
  - eapply (safe_section _ _ _ (λ _, Owns (idle [] 0) None None None None false None)); [intros s gs; apply wp_free_buffer|].
    intros _. exists None, 0%nat, [], 0%nat. split; [done|by left].
Qed.

(** ** The task of an app *)

Lemma safe_context_at {B} a y (f : TaskContext → proc ledger B) w r b t d Q :
  safe (f y) (Ghost w (Some (a, y)) r b t d) Q → safe (locked (context_at a) ≫= f) (Ghost w (Some (a, y)) r b t d) Q.
Proof. intros Hf s gs HI. right. eapply wp_context_at; [exact HI|]. eexists. split; [exact HI|exact Hf]. Qed.

(** From when the result is known to when only the binary may be left. *)
Lemma safe_finish_ledger a y i c F b r bf t d result (rest : proc ledger ()) Q :
  task_instance y = i → r = None ∨ esp = false ∧ d = true →
  safe rest (Ghost (Role (Some i) 2 None None None F b) None r bf t d) Q →
  safe (deliver_result_to_parent_if_any i result;; locked (set_state i APP_INSTANCE_STATE_STOPPED);; locked (delete_context a);;
        locked (leave_ledger i);; locked (give_semaphore c);; release_completion_signal c;; rest)
    (Ghost (Role (Some i) 1 (Some c) None None F b) (Some (a, y)) r bf t d) Q.
Proof.
  intros Hi Hr Hrest. eapply safe_then; [apply safe_deliver_result|]. intros g u ->.
  apply safe_keep; [apply keeps_set_state|]. intros _.
  eapply (safe_section _ _ _ (λ _, Ghost (Role (Some i) 1 (Some c) None None F b) None r bf t d)); [intros s gs; apply wp_delete_context|intros _].
  eapply (safe_section _ _ _ (λ _, Ghost (Role (Some i) 2 (Some c) None None F b) None r bf t d)); [intros s gs HI; by apply wp_leave_ledger|intros _].
  eapply (safe_section _ _ _ (λ _, Ghost (Role (Some i) 2 (Some c) None None F b) None r bf t d)); [intros s gs; apply wp_give_semaphore|intros _].
  eapply safe_then; [apply safe_release_completion; [done|by left|by left]|]. by intros g _ ->.
Qed.

(** The binary is unloaded, or will be. *)
Lemma safe_unload_or_defer (deferred : bool) y i owner F b c x bf (t := if cleanup y then Some i else None) :
  let w := Role (Some i) 1 (Some c) None None F b in
  safe (if deferred then locked (add_pending 1)
        else unload (runtime y) owner;;
             (if cleanup y then locked (on_tracked (app_resources_release i owner));; mret tt else mret tt))
    (Ghost w x (Some (runtime y)) bf t false)
    (λ g _, g = if deferred then Ghost w x (Some (runtime y)) bf t true else Ghost w x None bf None false).
Proof.
  intros w. destruct deferred.
  - intros s gs HI. right. eapply wp_mono; [apply wp_defer; [exact HI|simpl; lia]|]. intros u s' HI'. eexists. split; [exact HI'|reflexivity].
  - eapply safe_then; [apply safe_unload|]. intros g u ->. subst t. destruct (cleanup y); [|done].
    eapply (safe_section _ _ _ (λ _, Ghost w x None bf None false)); [intros s gs; apply wp_release|done].
Qed.

(** What the task of an app owns while the app runs. *)
Definition app_ghost F b a y : ghost :=
  Ghost (Role (Some (task_instance y)) 1 (Some (task_completion y)) None None F b) (Some (a, y)) (Some (runtime y)) (task_buffer y)
    (if cleanup y then Some (task_instance y) else None) false.

Lemma safe_finish_app_task (e : bool) a y result exiting F b :
  e = esp → safe (finish_app_task e a result exiting) (app_ghost F b a y) (λ g (_ : ()), at_rest g).
Proof.
  intros He. apply safe_context_at. cbv zeta. set (i := task_instance y). set (c := task_completion y). set (deferred := (negb e && exiting)%bool).
  set (g0 := Ghost _ _ _ _ _ _). eapply (safe_then _ _ _ (λ g' _, g' = g0)); [destruct (cleanup y); [apply safe_release_tasks|done]|]. cbn beta. intros g owner ->.
  eapply safe_then; [apply (safe_unload_or_defer deferred)|]. cbn beta. intros g u ->.
  subst deferred. destruct e, exiting; cbn [negb andb] in *; apply safe_finish_ledger; auto.
  - apply safe_reap_self. by right.
  - apply safe_reap_self. by right.
  - apply safe_deferred_unload; [by right|done].
  - by exists (Some i), 2%nat, F, b; split; [|right].
Qed.

(** Accounting changes nothing else of the context. *)
Lemma safe_account i a f F b y :
  (∀ y, (runtime (f y), task_instance (f y), task_completion (f y), task_buffer (f y), cleanup (f y)) =
        (runtime y, task_instance y, task_completion y, task_buffer y, cleanup y)) →
  safe (locked (if i =? 0 then mret tt else upd_context a f)) (app_ghost F b a y) (λ g _, ∃ y', g = app_ghost F b a y').
Proof.
  intros Hf. destruct (i =? 0); [by apply safe_keeps; [apply keep_ret|exists y]|]. injection (Hf y) as E1 E2 E3 E4 E5.
  intros s gs HI. right. eapply wp_mono; [by apply wp_upd_context|]. intros u s' HI'. eexists. split; [exact HI'|]. exists (f y).
  unfold app_ghost. by rewrite E1, E2, E3, E4, E5.
Qed.
Lemma safe_run_call i a x F b y : safe (locked (run_call i a x)) (app_ghost F b a y) (λ g _, ∃ y', g = app_ghost F b a y').
Proof. destruct x as [h|n|n]; [apply safe_keeps; [apply keeps_hook|by exists y]|by apply safe_account..]. Qed.

Lemma safe_app_task_main a y F b : safe (app_task_main esp a) (app_ghost F b a y) (λ g (_ : Z), at_rest g).
Proof.
  apply safe_context_at. apply safe_keep; [apply keeps_set_state|]. intros _ s gs HI. right.
  unfold begin_run. apply wp_bind. eapply wp_context_at; [exact HI|]. apply wp_bind. eapply wp_check_loaded; [exact HI|].
  apply wp_ret. exists (app_ghost F b a y). split; [exact HI|]. intros calls. clear s gs HI.
  eapply safe_then; [apply (safe_for_each _ _ _ (λ g, ∃ y', g = app_ghost F b a y') _ _ _ (λ g, ∃ y', g = app_ghost F b a y')); [|by exists y|done]|].
  - intros x g _ [y' ->]. eapply safe_mono; [apply safe_run_call|]. by intros g' u Hg'.
  - intros g _ [y' ->] [result exiting]. eapply safe_then; [by apply safe_finish_app_task|]. by intros g' u Hg'.
Qed.

End tasks_safe.

(** ** Starting a task *)

Section starting.
Context `{FreeRtosEventGroup} `{OtherFilesLaws} `{ResourcePlatform}.
Variable esp : bool.
Variable default_ignored : list Z.
Variables live_groups live_streams : gset Z.
Variable strict : bool.
Variable hold : option holding.
Implicit Types (s : ledger) (g : ghost) (gs : list ghost) (w : role) (F : list (Z * nat)).
Abbreviation inv := (inv esp live_groups live_streams strict).
Abbreviation safe := (SchedulerSections.safe esp live_groups live_streams strict).
Abbreviation Ghost w x r b t d := (Owns w x r b t d hold).
#[local] Notation safe_section := (safe_section esp live_groups live_streams strict).
#[local] Notation safe_then := (safe_then esp live_groups live_streams strict).

(** What the task that starts the instance [i] owns. *)
Definition starting i F b oc r bf : ghost := Ghost (Role (Some i) 0 oc None None F b) None r bf None false.

Lemma safe_abandon c r i F b : safe (abandon c r) (starting i F b (Some c) (Some r) None) (λ g e, e = ERROR_OUT_OF_MEMORY ∧ g = starting i F b None None None).
Proof.
  eapply (safe_section _ _ _ (λ _, starting i F b None (Some r) None)); [intros s gs; apply wp_discard|]. intros _.
  eapply safe_then; [apply safe_unload|]. by intros g _ ->.
Qed.

Lemma safe_free_stack w x r bf t d : safe (free_stack bf) (Ghost w x r bf t d) (λ g _, g = Ghost w x r None t d).
Proof. destruct bf as [bf|]; [|done]. intros s gs HI. right. eapply wp_mono; [by apply wp_free_buffer|]. intros u s' HI'. eexists. split; [exact HI'|reflexivity]. Qed.

(** After a start: the app's task is another task's, or the instance is still to be dropped. *)
Definition client F b : ghost := Ghost (idle F b) None None None None false.
Definition start_result i F b (g : ghost) (e : error_t) : Prop :=
  e = ERROR_NONE ∧ g = client ((i, 1%nat) :: F) b ∨ e ≠ ERROR_NONE ∧ g = starting i F b None None None.

Lemma start_result_oom i F b g : g = starting i F b None None None → start_result i F b g ERROR_OUT_OF_MEMORY.
Proof. intros ->. by right. Qed.

Lemma safe_start_cleanup (flag : bool) a i c F b r bf y :
  task_instance y = i → cleanup y = false →
  let w := Role (Some i) 0 (Some c) None None F b in
  safe (if flag then
          allocated ← choose;
          e ← locked (on_tracked (app_resources_register allocated i));
          locked (upd_context a (λ x, x <| cleanup := (e =? ERROR_NONE) |>));;
          mret (e =? ERROR_NONE)
        else mret false)
    (Ghost w (Some (a, y)) (Some r) bf None false)
    (λ g clean, g = Ghost w (Some (a, y <| cleanup := clean |>)) (Some r) bf (if clean then Some i else None) false).
Proof.
  intros Hi Hc w. destruct flag; [|simpl; destruct y; simpl in *; by subst]. intros ok s gs HI. right.
  eapply wp_mono; [by eapply (wp_register) with (i := i)|]. intros e s' [-> HI']. eexists. split; [exact HI'|].
  destruct ok; intros s1 gs1 HI1; right;
    (eapply wp_mono; [by apply wp_upd_context|intros u s2 HI2; eexists; split; [exact HI2|reflexivity]]).
Qed.

Lemma safe_start_task (e : bool) i c r context bf F b :
  e = esp → safe (start_task e i c r context bf) (starting i F b (Some c) (Some r) bf) (start_result i F b).
Proof.
  intros He created. destruct created; cbn [negb].
  2:{ eapply safe_then; [apply safe_free_stack|]. intros g _ ->. eapply safe_mono; [apply safe_abandon|]. intros g v [-> Hg]. by apply start_result_oom. }
  set (w := Role (Some i) 0 (Some c) None None F b). set (y := Build_TaskContext r i _ c bf 0 0 false).
  eapply (safe_section _ _ _ (λ a, Ghost w (Some (a, y)) (Some r) bf None false)); [intros s gs HI; apply wp_new_context; [exact HI|simpl; lia|done]|]. intros a.
  apply safe_keep; [apply keeps_has_cleanup_flag|]. intros flag.
  eapply safe_then; [by apply safe_start_cleanup|]. cbn beta. intros g clean ->. intros [|]; cbn [negb].
  - intros t. apply safe_keep; [apply keeps_set_task|]. intros _.
    eapply (safe_section _ _ _ (λ _, Ghost (Role (Some i) 1 (Some c) None None F b) _ _ _ _ false)); [intros s gs; apply wp_set_completion|]. intros _.
    exists (client ((i, 1%nat) :: F) b), (app_ghost None [] 0 a (y <| cleanup := clean |>)). split; [|split; [|by left]].
    + intros s gs. apply inv_fork.
    + subst e. apply safe_app_task_main.
  - eapply (safe_then _ _ _ (λ g _, g = Ghost w (Some (a, y <| cleanup := clean |>)) (Some r) bf None false)).
    { destruct clean; [|done]. eapply safe_then; [apply safe_release_tasks|]. intros g owner ->.
      eapply (safe_section _ _ _ (λ _, Ghost w (Some (a, y <| cleanup := true |>)) (Some r) bf None false)); [intros s gs; apply wp_release|done]. }
    intros g _ ->. eapply (safe_section _ _ _ (λ _, starting i F b (Some c) (Some r) bf)); [intros s gs; apply wp_delete_context|]. intros _.
    eapply safe_then; [apply safe_free_stack|]. intros g _ ->. eapply safe_mono; [apply safe_abandon|]. intros g v [-> Hg]. by apply start_result_oom.
Qed.

Lemma safe_alloc_stack desired i c r F b :
  safe (alloc_stack desired) (starting i F b (Some c) (Some r) None) (λ g bf, g = starting i F b (Some c) (Some r) bf).
Proof.
  assert (∀ got : bool, safe (if got then b ← locked alloc_buffer; mret (Some b) else mret None) (starting i F b (Some c) (Some r) None)
    (λ g bf, g = starting i F b (Some c) (Some r) bf)) as Hrest.
  { intros [|]; [|done]. by eapply (safe_section _ _ _ (λ bf, starting i F b (Some c) (Some r) (Some bf))); [intros s gs; apply wp_alloc_buffer|]. }
  assert (∀ got : bool, safe (got ← (if got then mret true else choose); if (got : bool) then b ← locked alloc_buffer; mret (Some b) else mret None)
    (starting i F b (Some c) (Some r) None) (λ g bf, g = starting i F b (Some c) (Some r) bf)) as Hrest'.
  { intros [|]; [apply (Hrest true)|]. intros got. apply Hrest. }
  destruct desired; [intros got; apply Hrest'|apply (Hrest' false)].
Qed.

(** The characters of a location are not freed: they are the caller's own, or the caller
    is the task that alone may free them. *)
Definition location_held (l : location_ref) : Prop :=
  match l with Own _ => True | Borrowed _ _ => ∃ h, hold = Some h ∧ location_live (h_installing h) l = true end.
Lemma held_stored s w x r b t d gs h : inv s (Ghost w x r b t d :: gs) → hold = Some h → h = stored s.
Proof. intros [_ [_ _ _ _ _ _ M7 _] _ _] ->. simpl in M7. destruct M7 as [?|M7]; [done|]. by injection M7 as ->. Qed.
Lemma wp_check_location s w x r b t d gs l Q :
  inv s (Ghost w x r b t d :: gs) → location_held l → Q tt s → wp (check_location l) Q s.
Proof.
  intros HI Hl HQ. eapply wp_deref; [|exact HQ]. destruct l as [|a i]; [done|]. destruct Hl as (h & Hh & Hl).
  apply (held_stored _ _ _ _ _ _ _ _ _ HI) in Hh as ->. change (installing s) with (h_installing (stored s)). by rewrite Hl.
Qed.

Lemma safe_scheduler_start (e : bool) i context F b :
  e = esp → location_held (location context) → safe (app_scheduler_start e i context) (starting i F b None None None) (start_result i F b).
Proof.
  intros He Hl found. destruct found; cbn [negb]; [|by right].
  eapply (safe_then _ _ _ (λ g _, g = starting i F b None None None)).
  { destruct e; [done|]. split; [done|]. intros s gs HI. apply wp_gets. intros _. eexists. split; [exact HI|reflexivity]. }
  intros g _ ->. eapply (safe_section _ _ _ (λ _, starting i F b None None None)); [intros s gs HI; by eapply wp_check_location|].
  intros _. apply safe_choose. intros load_result. destruct (load_result =? ERROR_NONE) eqn:Hr; cbn [negb]; [|right; split; [lia|done]].
  eapply (safe_section _ _ _ (λ r, starting i F b None (Some r) None)); [intros s gs HI; apply wp_load_runtime; [exact HI|simpl; lia]|]. intros r allocated.
  destruct allocated; cbn [negb]; [|eapply safe_then; [apply safe_unload|]; intros g _ ->; by right].
  eapply (safe_section _ _ _ (λ c, starting i F b (Some c) (Some r) None)); [intros s gs; apply wp_new_completion|]. intros c created.
  assert (safe (abandon c r) (starting i F b (Some c) (Some r) None) (start_result i F b)) as Habandon.
  { eapply safe_mono; [apply safe_abandon|]. intros g v [-> Hg]. by apply start_result_oom. }
  destruct created; cbn [negb]; [|exact Habandon].
  eapply (safe_then _ _ _ (λ g _, g = starting i F b (Some c) (Some r) None)); [by case_decide|]. intros g copied ->.
  destruct copied; cbn [negb]; [|exact Habandon]. destruct e eqn:Ee; [|by apply safe_start_task].
  eapply safe_then; [apply safe_alloc_stack|]. cbn beta. intros g [bf|] ->; [|exact Habandon]. intros tcb.
  destruct tcb; cbn [negb]; [by apply safe_start_task|].
  eapply (safe_section _ _ _ (λ _, starting i F b (Some c) (Some r) None)); [intros s gs; apply wp_free_buffer|]. intros _. exact Habandon.
Qed.

(** ** Starting an instance *)

(** The bindings of a caller refer to groups and streams that stay. *)
Definition binding_ok (x : AppStreamBinding) : Prop := binding_group x ∈ live_groups ∧ binding_stream x ∈ live_streams.

Lemma keeps_stream {A} a (m : M apps A) :
  a ∈ live_streams →
  (∀ x, apps_ok live_groups live_streams x → is_Some (streams x !! a) → wp m (λ _ x', apps_ok live_groups live_streams x' ∧ same_shape x x') x) →
  keeps esp live_groups live_streams strict (on_apps m).
Proof. intros Ha Hm. apply keeps_calm. intros x Hx _. apply Hm; [done|]. by apply (ok_live _ _ _ (ok_base _ _ _ Hx)). Qed.

Lemma safe_bind_stream i x g : binding_ok x → safe (bind_stream i x) g (λ g' _, g' = g).
Proof.
  intros [Hg Hs]. apply safe_keep; [apply keeps_calm; by apply calm_subscribe|]. intros e. destruct (e =? ERROR_NONE); [|done].
  apply safe_keep; [apply (keeps_stream (binding_stream x)); [done|intros y Hy Ha; by apply calm_set_window_size]|]. intros _.
  destruct (0 <=? alias_fd x); [|done].
  apply safe_keeps; [|done]. apply (keeps_stream (binding_stream x)); [done|intros y Hy Ha; by apply calm_bind_alias].
Qed.
Lemma safe_unsubscribe_all l g : Forall binding_ok l → safe (for_each unsubscribe_binding l) g (λ g' _, g' = g).
Proof.
  intros Hl. apply (safe_for_each _ _ _ (λ g', g' = g) _ _ _ (λ g', g' = g)); [|done..]. intros x h Hx ->.
  rewrite Forall_forall in Hl. destruct (Hl x Hx) as [_ Hs].
  apply safe_keep; [|done]. apply (keeps_stream (binding_stream x)); [done|intros y Hy Ha; by apply calm_unsubscribe].
Qed.

Lemma safe_give_up {A} l i F b (v : A) (P : ghost → A → Prop) :
  Forall binding_ok l → P (client F b) v →
  safe (for_each unsubscribe_binding l;; locked (drop_instance i);; mret v) (starting i F b None None None) P.
Proof.
  intros Hl HP. eapply safe_then; [by apply safe_unsubscribe_all|]. intros g _ ->.
  apply safe_excused. intros s gs HI. eapply attempt_mono; [by apply attempt_drop_instance|].
  intros u s' HI'. by exists (client F b).
Qed.

Lemma safe_bind_streams i bound bs F b :
  Forall binding_ok bound → Forall binding_ok bs →
  safe (bind_streams i bound bs) (starting i F b None None None)
    (λ g e, e = ERROR_NONE ∧ g = starting i F b None None None ∨ e ≠ ERROR_NONE ∧ g = client F b).
Proof.
  revert bound. induction bs as [|x bs IH]; intros bound Hb Hbs; cbn [bind_streams]; [by left|].
  apply Forall_cons in Hbs as [Hx Hbs]. eapply safe_then; [by apply safe_bind_stream|]. intros g e ->.
  destruct (e =? ERROR_NONE) eqn:He; cbn [negb].
  - apply IH; [|done]. apply Forall_app; by split; [|constructor].
  - apply safe_give_up; [done|]. right. split; [lia|done].
Qed.

Definition context_ok (context : AppStartContext) : Prop :=
  Forall binding_ok (default [] (bindings context)) ∧ location_held (location context).

Lemma safe_start_internal context F b :
  context_ok context →
  safe (app_manager_start_internal esp context) (client F (Datatypes.S b)) (λ g v, match v with
    | inr i => g = client ((i, 1%nat) :: F) b
    | inl _ => ∃ b', (b ≤ b')%nat ∧ g = client F b'
    end).
Proof.
  intros [Hc Hloc]. unfold app_manager_start_internal. destruct (_ && _)%bool; [exists (Datatypes.S b); split; [lia|done]|].
  eapply (safe_section _ _ _ (λ i, starting i F b None None None)); [intros s gs; apply wp_allocate_instance|]. intros i. cbv zeta.
  assert (Forall binding_ok (take (binding_count context) (default [] (bindings context)))) as Hl by by apply Forall_take.
  eapply safe_then; [by apply safe_bind_streams|]. cbn beta. intros g e [[-> ->]|[He ->]].
  - rewrite Z.eqb_refl. cbn [negb]. eapply safe_then; [by apply safe_scheduler_start|]. intros g' e [[-> ->]|[He ->]]; [done|].
    assert (negb (e =? ERROR_NONE) = true) as -> by lia. apply safe_give_up; [done|]. by exists b.
  - assert (negb (e =? ERROR_NONE) = true) as -> by lia. by exists b.
Qed.

(** ** Stopping an instance *)

Lemma safe_stop self i F b :
  (strict → (i, 1%nat) ∈ F) →
  safe (app_manager_stop default_ignored self i) (client F b)
    (λ g e, ∃ F', g = client F' b ∧ (∀ x, x ∈ F → x ∈ F') ∧ (strict → e = ERROR_NONE → (i, 2%nat) ∈ F')).
Proof.
  intros Hi. unfold app_manager_stop, app_scheduler_stop. destruct (self =? i); [by exists F|].
  assert (∀ F', (∀ x, x ∈ F → x ∈ F') → (strict → (i, 2%nat) ∈ F') →
    safe (locked (set_state i APP_INSTANCE_STATE_STOPPED);; locked (erase_instance i);; mret ERROR_NONE) (client F' b)
      (λ g e, ∃ F', g = client F' b ∧ (∀ x, x ∈ F → x ∈ F') ∧ (strict → e = ERROR_NONE → (i, 2%nat) ∈ F'))) as Hend.
  { intros F' HF Hf. apply safe_keep; [apply keeps_set_state|]. intros _.
    eapply (safe_section _ _ _ (λ _, client F' b)); [intros s gs HI; by apply wp_erase|]. intros _. exists F'. split; [done|split; [done|intros ? _; by apply Hf]]. }
  intros s gs HI. right. eapply wp_mono; [by apply wp_acquire|]. intros [c|] s'.
  - intros HI'. eexists. split; [exact HI'|]. clear s gs HI s' HI'.
    assert (safe (release_completion_signal c;; mret false) (Ghost (Role None 0 None (Some (c, i)) None F b) None None None None false)
      (λ g taken, ∃ F', g = client F' b ∧ (∀ x, x ∈ F → x ∈ F') ∧ (taken = true → (i, 2%nat) ∈ F'))) as Hlate.
    { eapply safe_then; [apply safe_release_completion; [done|by right|by right]|]. intros g _ ->. by exists F. }
    eapply (safe_then _ _ _ (λ g taken, ∃ F', g = client F' b ∧ (∀ x, x ∈ F → x ∈ F') ∧ (taken = true → (i, 2%nat) ∈ F'))).
    + eapply safe_then; [apply safe_signal_send|]. intros g e ->. apply safe_keep; [apply keeps_set_state|]. intros _.
      split; [exact Hlate|]. intros s gs HI. eapply wp_mono; [by apply wp_take_semaphore|]. intros taken s' Ht Et.
      eexists. split; [exact (Ht Et)|]. eapply safe_then; [apply safe_release_completion; [done|by right|by right]|]. intros g _ ->.
      exists ((i, 2%nat) :: F). split; [done|]. split; [by right|by left].
    + intros g [|] (F' & -> & HF & Ht); [|by exists F']. apply Hend; auto.
  - intros [HI' He]. destruct (decide (Is_true strict)) as [Hs|Hs].
    + eexists. split; [by apply (inv_gone _ _ _ _ hold _ i); [..|apply Hi|]|]. apply Hend; [by right|by left].
    + eexists. split; [exact HI'|]. apply Hend; [done|by intros ?%Hs].
Qed.
End starting.
