(* ===== verification/SchedulerCorrect.v ===== *)
(** What the scheduler guarantees to the tasks that use it, for any number of them, in any
    interleaving of their sections with those of the apps' own tasks. *)

From S2P Require Import Prelude EventGroups AppEvents Apps Streams StreamSpecs AppEnv Tasks Files Resources Manifests AppLedger Scheduler AppsOk SchedulerInv SchedulerSections SchedulerSafety.

Section clients.
Context `{FreeRtosEventGroup} `{OtherFilesLaws} `{ResourcePlatform}.
Variable esp : bool.
Variable default_ignored : list Z.
Variables live_groups live_streams : gset Z.
Implicit Types (s : ledger) (g : ghost) (gs : list ghost).

(** * Tasks that use the scheduler *)

(** What they ask of it, and from which instance's task, 0 for none. *)
Inductive request := Launch (context : AppStartContext) | Stop (self i : Z).

Definition serve (r : request) : proc ledger unit :=
  match r with
  | Launch context => _ ← app_manager_start_internal esp context; mret tt
  | Stop self i => _ ← app_manager_stop default_ignored self i; mret tt
  end.
Definition user (l : list request) : proc ledger Z := for_each serve l;; mret 0.

Definition is_launch (r : request) : bool := match r with Launch _ => true | _ => false end.
Definition launches (l : list request) : nat := length (filter is_launch l).
Definition request_ok (r : request) : Prop :=
  match r with Launch context => context_ok live_groups live_streams None context | Stop _ _ => True end.

(** A task that starts an app and stops it; the instance, if it did. *)
Definition launch_and_stop (context : AppStartContext) : proc ledger Z :=
  r ← app_manager_start_internal esp context;
  match r with
  | inr i => e ← app_manager_stop default_ignored 0 i; mret (if e =? ERROR_NONE then i else 0)
  | inl _ => mret 0
  end.

(** The ledger before the first instance. *)
Record booted s : Prop := {
  boot_apps : apps_ok live_groups live_streams (running s);
  boot_instances : instances (running s) = ∅;
  boot_completions : completions s = ∅;
  boot_contexts : contexts s = ∅;
  boot_buffers : buffers s = ∅;
  boot_loaded : loaded s = ∅;
  boot_registry : registry (tracked s) = ∅;
  boot_size : registry_size (tracked s) = 0;
  boot_pending : pending_deferred_unloads s = 0;
  boot_next : next_instance_id s = 1;
  boot_manifests : manifests_ok (stored s);
}.

(** Nothing is left of any app; the memory of a stack may be, when no reaper could be made. *)
Record quiescent s : Prop := {
  q_instances : instances (running s) = ∅;
  q_completions : completions s = ∅;
  q_contexts : contexts s = ∅;
  q_loaded : loaded s = ∅;
  q_registry : registry (tracked s) = ∅;
  q_pending : pending_deferred_unloads s = 0;
}.

(** A start that failed is about to close the descriptors of its entry and to erase it, but
    the entry is gone. *)
Definition lost_teardown s (p : proc ledger Z) : Prop :=
  ∃ i (k : unit → proc ledger Z), p = Locked (drop_instance i) k ∧ instances (running s) !! i = None.

(** * From the start to the end *)

Lemma lost_teardown_crashes s p : lost_teardown s p → crashes s p.
Proof. intros (i & k & -> & Hi) r. by apply drop_instance_fails. Qed.
Lemma erased_start_locked s {B} (m : M ledger B) (k : B → proc ledger Z) : erased_start s m → lost_teardown s (Locked m k).
Proof. destruct 1 as [i Hi]. by exists i, k. Qed.
Lemma excused_lost strict s p : Tasks.excused (SchedulerSections.excused strict) s p → ¬ strict ∧ lost_teardown s p.
Proof. destruct p as [a|B m k|B ? k|m k|q k]; try done. intros [Hs Hm]. split; [done|by apply erased_start_locked]. Qed.

Lemma omap_none {A B} (f : A → option B) l : (∀ x, x ∈ l → f x = None) → omap f l = [].
Proof. induction l as [|x l IH]; intros Hl; [done|]. simpl. rewrite Hl by by left. apply IH. intros y Hy. apply Hl. by right. Qed.

Lemma idle_refs c ws : (∀ w, w ∈ ws → comp w = None ∧ waits w = None ∧ reaps w = None) → refs c ws = 0%nat ∧ count reaps c ws = 0%nat.
Proof.
  intros Hw. split; [apply refs_zero; intros w Hin; destruct (Hw w Hin) as (E1 & E2 & _); unfold waited; by rewrite E1, E2|].
  unfold count. induction ws as [|w ws IH]; [done|]. rewrite filter_cons. destruct (Hw w) as (_ & _ & E); [by left|]. rewrite E.
  rewrite decide_False by done. apply IH. intros v Hv. apply Hw. by right.
Qed.

(** The tasks of a pool at first: what each holds, and how many instances it may start. *)
Definition fresh (x : option holding * nat) : ghost := client x.1 [] x.2.

Lemma inv_boot strict s (l : list (option holding * nat)) :
  booted s → 1 + Z.of_nat (sum_list (l.*2)) < 2 ^ 32 → omap fst l = [] ∨ omap fst l = [stored s] →
  inv esp live_groups live_streams strict s (fresh <$> l).
Proof.
  intros [B1 B2 B3 B4 B5 B6 B7 B8 B9 B10 B11] Hb Hst.
  assert (∀ g, g ∈ fresh <$> l → ∃ h b, g = client h [] b) as Hg by (intros g ([h b] & -> & _)%list_elem_of_fmap; by exists h, b).
  assert (∀ w, w ∈ who <$> (fresh <$> l) → ∃ b, w = idle [] b) as Hw.
  { intros w (g & -> & (h & b & ->)%Hg)%list_elem_of_fmap. by exists b. }
  assert (∀ c, refs c (who <$> (fresh <$> l)) = 0%nat ∧ count reaps c (who <$> (fresh <$> l)) = 0%nat) as Hrefs.
  { intros c. apply idle_refs. by intros w [b ->]%Hw. }
  split; [done| | |].
  - assert (∀ {B} (f : ghost → option B), (∀ h b, f (client h [] b) = None) → omap f (fresh <$> l) = []) as Hn.
    { intros B f Hf. apply omap_none. by intros g (h & b & ->)%Hg. }
    split; rewrite ?Hn by done; rewrite ?B4, ?B5, ?B6, ?B7, ?B8, ?B9; try done.
    + unfold pending_count. replace (filter _ _) with (@nil ghost); [done|]. clear. by induction l.
    + by replace (omap o_store (fresh <$> l)) with (omap fst l) by (clear; induction l as [|[[h|] b] l IH]; simpl; [done|by f_equal|done]).
  - apply Forall_forall. intros g (h & b & ->)%Hg. by split; [simpl; lia|..].
  - assert (total (who <$> (fresh <$> l)) = sum_list (l.*2)) as Et by (clear; induction l as [|[h b] l IH]; [done|]; cbn; unfold total in *; cbn; by rewrite IH).
    unfold entries. rewrite B2, B3, B10. split.
    + rewrite Et. lia.
    + intros c. rewrite lookup_empty. apply Hrefs.
    + rewrite omap_none; [constructor|]. by intros w [b ->]%Hw.
    + rewrite omap_none; [constructor|]. by intros w [b ->]%Hw.
    + intros w [b ->]%Hw. split; [done|]. split; [done|]. by intros ? ? ?%not_elem_of_nil.
    + intros i c. by rewrite fmap_empty, lookup_empty.
    + intros i. rewrite fmap_empty, lookup_empty. by intros [].
    + intros w w' [b ->]%Hw [b' ->]%Hw. by split; [|intros ? ? ?%not_elem_of_nil].
    + intros c x w. by rewrite lookup_empty.
    + intros w i _ [b ->]%Hw. done.
Qed.

Lemma quiescent_rest strict s gs : inv esp live_groups live_streams strict s gs → Forall at_rest gs → quiescent s.
Proof.
  intros [Ha [M1 M2 M3 M4 M5 M6 M7 M8] Hg Hp] Hr. rewrite Forall_forall in Hr.
  assert (∀ w, w ∈ who <$> gs → (inst w = None ∨ stage w = 2%nat) ∧ comp w = None ∧ waits w = None ∧ reaps w = None) as Hw.
  { intros w (g & -> & (o & n & F & b & -> & Ho)%Hr)%list_elem_of_fmap. done. }
  assert (∀ {B} (f : ghost → option B), (∀ g, at_rest g → f g = None) → omap f gs = []) as Hn.
  { intros B f Hf. apply omap_none. intros g Hin. by apply Hf, Hr. }
  rewrite (Hn _ o_ctx) in M1 by by intros g (? & ? & ? & ? & -> & _). rewrite (Hn _ o_rt) in M2 by by intros g (? & ? & ? & ? & -> & _).
  rewrite (Hn _ o_tracker) in M4 by by intros g (? & ? & ? & ? & -> & _). split.
  - apply map_eq. intros i. rewrite lookup_empty. destruct (instances (running s) !! i) as [r|] eqn:Er; [|done].
    destruct (p_listed _ _ _ _ _ Hp i) as (w & Hin & Hi & Hst); [unfold entries; rewrite lookup_fmap, Er; by eexists|].
    destruct (Hw w Hin) as [[E|E] _]; [congruence|lia].
  - apply map_eq. intros c. rewrite lookup_empty. destruct (completions s !! c) as [x|] eqn:Ec; [|done].
    pose proof (p_refs _ _ _ _ _ Hp c) as Hc. rewrite Ec in Hc. destruct (idle_refs c (who <$> gs)) as [E1 E2]; [by intros w [_ ?]%Hw|].
    rewrite E1, E2 in Hc. destruct Hc as [-> Hc]. done.
  - apply map_to_list_empty_iff. by apply Permutation_nil_l in M1.
  - apply leibniz_equiv, elements_empty_iff. by apply Permutation_nil_l in M2.
  - apply dom_empty_inv_L, leibniz_equiv, elements_empty_iff. by apply Permutation_nil_l in M4.
  - rewrite M6. unfold pending_count. replace (filter _ gs) with (@nil ghost); [done|]. clear -Hr. induction gs as [|g gs IH]; [done|].
    rewrite filter_cons. destruct (Hr g) as (o & n & F & b & -> & _); [by left|]. rewrite decide_False by done. apply IH. intros h Hh. apply Hr. by right.
Qed.

(** ** Tasks that start and stop as they like *)

Lemma safe_user l F b :
  Forall request_ok l → (launches l ≤ b)%nat →
  safe esp live_groups live_streams false (user l) (client None F b) (λ g (_ : Z), at_rest g).
Proof.
  intros Hl Hb. apply safe_bind. revert F b Hl Hb. induction l as [|r l IH]; intros F b Hl Hb; cbn [for_each].
  - by exists None, 0%nat, F, b; split; [|left].
  - apply Forall_cons in Hl as [Hr Hl]. apply safe_bind. destruct r as [context|self i]; cbn [serve].
    + destruct b as [|b]; [unfold launches in Hb; simpl in Hb; lia|]. apply safe_bind.
      eapply safe_mono; [by apply safe_start_internal|]. intros g [e|i]; [intros (b' & Hb' & ->)|intros ->]; apply IH; try done;
        unfold launches in *; simpl in *; lia.
    + apply safe_bind. eapply safe_mono; [by apply (safe_stop _ _ _ _ false)|]. intros g e (F' & -> & _). by apply IH.
Qed.

Definition users (ls : list (list request)) : list (proc ledger Z) := user <$> ls.

Lemma users_safe ls :
  Forall (Forall request_ok) ls →
  all_safe (SchedulerSections.excused false) (inv esp live_groups live_streams false) at_rest (users ls) (fresh <$> ((λ l, (None, launches l)) <$> ls)) ((λ _ g _, at_rest g) <$> ls).
Proof. unfold users. induction 1 as [|l ls Hl Hls IH]; cbn; constructor; [by apply safe_user|exact IH]. Qed.

(** All that a pool of users reaches. *)
Lemma users_reach s ls ps s' :
  booted s → Forall (Forall request_ok) ls → 1 + Z.of_nat (sum_list (launches <$> ls)) < 2 ^ 32 → rtc step (users ls, s) (ps, s') →
  Forall (λ p, crashes s' p → lost_teardown s' p) ps ∧ (Forall returned ps → quiescent s').
Proof.
  intros Hs Hls Hn Hsteps. pose proof (users_safe ls Hls) as Hall.
  assert (inv esp live_groups live_streams false s (fresh <$> ((λ l, (None, launches l)) <$> ls))) as HI.
  { apply inv_boot; [done|by rewrite <-list_fmap_compose|]. left. rewrite omap_none; [done|]. by intros x (l & -> & _)%list_elem_of_fmap. }
  destruct (steps_safe _ _ _ (inv_permutation _ _ _ _) _ _ _ _ _ _ Hsteps HI Hall) as (gs & Qn & HI' & Hall' & Hnew). split.
  - eapply Forall_impl; [eapply (all_safe_crash _ _ _ (inv_permutation _ _ _ _)); [exact HI'|exact Hall']|].
    intros p Hp Hc. by apply (excused_lost false), Hp.
  - intros Hret. apply (quiescent_rest false _ gs); [done|].
    eapply all_safe_returned; [exact Hall'|exact Hret|]. apply Forall_app. split.
    + apply Forall_forall. by intros Q (l & -> & _)%list_elem_of_fmap.
    + eapply Forall_impl; [exact Hnew|]. by intros Q ->.
Qed.

(** ** Tasks that start an app and stop it *)

(** What the task knows when it has returned. *)
Definition knows_ended (g : ghost) (i : Z) : Prop := at_rest g ∧ (i ≠ 0 → (i, 2%nat) ∈ facts (who g)).

Lemma safe_launch_and_stop context b :
  context_ok live_groups live_streams None context → safe esp live_groups live_streams true (launch_and_stop context) (client None [] (Datatypes.S b)) knows_ended.
Proof.
  intros Hc. apply safe_bind. eapply safe_mono; [by apply safe_start_internal|]. intros g [e|i].
  - intros (b' & _ & ->). split; [|done]. by exists None, 0%nat, [], b'; split; [|left].
  - intros ->. apply safe_bind. eapply safe_mono; [apply safe_stop; intros _; by left|]. intros g e (F & -> & _ & Hf).
    split; [by exists None, 0%nat, F, b; split; [|left]|]. simpl. destruct (e =? ERROR_NONE) eqn:He; [|done]. intros _. apply Hf; [done|lia].
Qed.

Lemma ended_instance s gs g i :
  inv esp live_groups live_streams true s gs → g ∈ gs → (i, 2%nat) ∈ facts (who g) →
  instances (running s) !! i = None ∧ ∀ a x, contexts s !! a = Some x → task_instance x ≠ i.
Proof.
  intros [Ha [M1 _ _ _ _ _ _ _] Hg Hp] Hin Hf. assert (∀ h, h ∈ gs → inst (who h) = Some i → (2 ≤ stage (who h))%nat) as Hk.
  { intros h Hh Hi. destruct (p_knows _ _ _ _ _ Hp (who g) (who h)) as [_ K]; [apply list_elem_of_fmap; by eexists..|]. by apply (K i 2%nat). }
  split.
  - destruct (instances (running s) !! i) as [r|] eqn:Er; [|done]. destruct (p_listed _ _ _ _ _ Hp i) as (w & Hw & Hi & Hst).
    { unfold entries. rewrite lookup_fmap, Er. by eexists. }
    apply list_elem_of_fmap in Hw as (h & -> & Hh). specialize (Hk h Hh Hi). lia.
  - intros a x Hx E. assert ((a, x) ∈ omap o_ctx gs) as (h & Hh & Ho)%list_elem_of_omap by (rewrite M1; by apply elem_of_map_to_list).
    rewrite Forall_forall in Hg. destruct (Hg h Hh) as [G1 _ G3]. pose proof (G3 _ _ Ho) as Hi. rewrite E in Hi. specialize (Hk h Hh Hi).
    destruct (G1 Hk) as [G _]. congruence.
Qed.

(** All that a pool of such tasks reaches. *)
Lemma launchers_reach s cs ps s' :
  booted s → Forall (context_ok live_groups live_streams None) cs → 1 + Z.of_nat (length cs) < 2 ^ 32 →
  rtc step (launch_and_stop <$> cs, s) (ps, s') →
  Forall (λ p, ¬ crashes s' p) ps ∧ (Forall returned ps → quiescent s') ∧
  ∀ k i, (k < length cs)%nat → ps !! k = Some (Return i) → i ≠ 0 →
    instances (running s') !! i = None ∧ ∀ a x, contexts s' !! a = Some x → task_instance x ≠ i.
Proof.
  intros Hs Hcs Hn Hsteps.
  assert (inv esp live_groups live_streams true s (fresh <$> replicate (length cs) (None, 1%nat))) as HI.
  { apply inv_boot; [done|by rewrite fmap_replicate, sum_list_replicate, Nat.mul_1_r|]. left. rewrite omap_none; [done|]. by intros x [-> _]%elem_of_replicate. }
  assert (all_safe (SchedulerSections.excused true) (inv esp live_groups live_streams true) at_rest (launch_and_stop <$> cs)
    (fresh <$> replicate (length cs) (None, 1%nat)) (replicate (length cs) knows_ended)) as Hall.
  { clear -Hcs H1. induction Hcs as [|c cs Hc Hcs IH]; cbn; [constructor|]. constructor; [by apply safe_launch_and_stop|exact IH]. }
  destruct (steps_safe _ _ _ (inv_permutation _ _ _ _) _ _ _ _ _ _ Hsteps HI Hall) as (gs & Qn & HI' & Hall' & Hnew). split; [|split].
  - eapply Forall_impl; [eapply (all_safe_crash _ _ _ (inv_permutation _ _ _ _)); [exact HI'|exact Hall']|].
    intros p Hp Hc. by destruct (excused_lost true s' p (Hp Hc)) as [[] _].
  - intros Hret. apply (quiescent_rest true _ gs); [done|].
    eapply all_safe_returned; [exact Hall'|exact Hret|]. apply Forall_app. split.
    + apply Forall_forall. intros Q [-> _]%elem_of_replicate g a. by intros [].
    + eapply Forall_impl; [exact Hnew|]. by intros Q ->.
  - intros k i Hk Hret Hi. destruct (all_safe_result _ _ _ _ _ _ _ _ knows_ended Hall' Hret) as (g & Hg & _ & Hf).
    { by rewrite lookup_app_l, lookup_replicate_2 by (rewrite ?length_replicate; done). }
    by apply (ended_instance _ gs g); [..|apply Hf].
Qed.

(** * Theorems *)



(** C25: when apps are stopped only by tasks that started them, a task whose call of
    [app_manager_stop] returned without an error knows that the app has ended: its entry is
    not in the ledger, and no task has its context any more. *)
Theorem stopped_app_has_ended s cs ps s' k i :
  booted s → Forall (context_ok live_groups live_streams None) cs → 1 + Z.of_nat (length cs) < 2 ^ 32 →
  rtc step (launch_and_stop <$> cs, s) (ps, s') → (k < length cs)%nat → ps !! k = Some (Return i) → i ≠ 0 →
  instances (running s') !! i = None ∧ ∀ a x, contexts s' !! a = Some x → task_instance x ≠ i.
Proof. intros Hs Hcs Hn Hsteps Hk Hret Hi. destruct (launchers_reach s cs ps s' Hs Hcs Hn Hsteps) as (_ & _ & Hf). by apply (Hf k). Qed.
End clients.

(** * A run *)

Module SchedulerDemo.
(** A platform that counts what it does. *)
#[export] Instance platform : ResourcePlatform :=
  {| resource_world := nat; fclose _ := S; closedir _ := S; close_fd _ := S; free _ := S; delete_task _ _ := S; join_task _ _ := S |}.

(** An app with the cleanup flag, and a stream for its output. *)
Definition manifest : AppManifest :=
  {| manifest_id := $"a"; manifest_name := $"A"; category := 0; manifest_location := {| location_type := APP_LOCATION_MEMORY; location_data := [] |};
     manifest_flags := 4; manifest_stack := {| depth := 0; desired_memory_capability := 1 |} |}.
Definition output : AppStream := with_closed true (new_stream 0 0 7 0 0 [Byte.x00; Byte.x00; Byte.x00; Byte.x00]).
Definition binding : AppStreamBinding :=
  {| binding_fd := 1; binding_stream := 50; binding_data := [Byte.x00; Byte.x00; Byte.x00; Byte.x00]; binding_group := 7;
     window_columns := 80; window_rows := 24; alias_fd := 2 |}.
Definition context : AppStartContext :=
  {| context_id := $"a"; location := Own {| location_type := APP_LOCATION_MEMORY; location_data := [] |};
     stack := {| depth := 0; desired_memory_capability := 1 |}; arguments := [$"a"; $"x"]; bindings := Some [binding]; binding_count := 1;
     context_parent := 0; environment := [] |}.
Definition boot : ledger :=
  Ledger (Apps ∅ {[ 50 := output ]} (AppEvents None ∅ {[ 7 := {| claimed_bits := 0; group_flags := 0 |} ]} 0) 0)
    {[ $"a" := Static manifest ]} ∅ (Installs ∅ [] ∅ ∅ false ∅ (Files ∅ ∅)) 1 ∅ ∅ ∅ ∅ (Resources ∅ 0 0%nat) 0.

#[local] Existing Instance GroupDemo.rtos.
#[local] Existing Instance StreamDemo.others.
#[export] Instance others_laws : OtherFilesLaws.
Proof. split. intros o x. by exists ERROR_NONE. Qed.

Lemma demo_booted : booted {[ 7 ]} {[ 50 ]} boot.
Proof.
  split; try reflexivity. split; [split|..].
  - intros g ->%elem_of_singleton. by eexists.
  - intros a ->%elem_of_singleton. by eexists.
  - intros a y. simpl. rewrite lookup_singleton_Some. intros [_ <-]. by eexists.
  - exists []. split; [reflexivity|]. by intros a ?%not_elem_of_nil.
  - intros a y. simpl. rewrite lookup_singleton_Some. by intros [_ <-].
  - intros i r. simpl. by rewrite lookup_empty.
  - intros i r. simpl. by rewrite lookup_empty.
  - intros id r. simpl. rewrite lookup_singleton_Some. intros [<- <-]. by exists manifest.
Qed.
Lemma context_fine : context_ok {[ 7 ]} {[ 50 ]} None context.
Proof. repeat constructor; simpl; set_solver. Qed.

(** Two tasks: one starts the app and stops it, the other stops it as well. *)
Definition requests : list (list request) := [[Launch context; Stop 0 1]; [Stop 0 1]].
Definition asked : list (proc ledger Z) * ledger := (users true [] requests, boot).
(** The first waits for the app; the app ends; the first returns; then the others. *)
Definition waiting := advance 200 0 asked.
Definition ended := advance 200 2 waiting.
Definition finished := advance 200 3 (advance 200 1 (advance 200 0 ended)).
(** A task that starts the app and stops it, and the app's task. *)
Definition launched := advance 200 0 ([launch_and_stop true [] context], boot).
Definition stopped := advance 200 0 (advance 200 1 launched).
(** And the task that frees its stack. *)
Definition settled := advance 200 2 stopped.

(** The app is stopped when its entry has just been made. *)
Definition racing : list (proc ledger Z) * ledger := (users true [] [[Launch context]; [Stop 0 1]], boot).
Definition lost := advance 200 0 (advance 200 1 (advance 1 0 racing)).

(** The app is stopped after its first sections. *)
Definition start_only : proc ledger Z := r ← app_manager_start_internal true context; mret (match r with inr i => i | inl _ => 0 end).
Definition early := advance 200 0 (advance 200 1 (advance 4 0 ([start_only; app_manager_stop [] 0 1], boot))).
(** Both wait; the app ends; the first returns; the second waits in vain. *)
Definition both := advance 200 1 (advance 200 0 ([launch_and_stop true [] context; app_manager_stop [] 0 1], boot)).
Definition one_returned := advance 200 3 (advance 200 0 (advance 200 2 both)).
Definition timed_out := advance 200 1 (default one_returned (runs one_returned 1 true)).

Lemma asked_waiting : rtc step asked waiting.
Proof. apply advance_steps. Qed.
Lemma asked_finished : rtc step asked finished.
Proof. etrans; [apply asked_waiting|]. do 3 (etrans; [|apply advance_steps]). apply advance_steps. Qed.
Lemma launched_stopped : rtc step ([launch_and_stop true [] context], boot) stopped.
Proof. do 2 (etrans; [|apply advance_steps]). apply advance_steps. Qed.
Lemma launched_settled : rtc step ([launch_and_stop true [] context], boot) settled.
Proof. etrans; [apply launched_stopped|]. apply advance_steps. Qed.
Lemma racing_lost : rtc step racing lost.
Proof. do 2 (etrans; [|apply advance_steps]). apply advance_steps. Qed.
Lemma starting_early : rtc step ([start_only; app_manager_stop [] 0 1], boot) early.
Proof. do 2 (etrans; [|apply advance_steps]). apply advance_steps. Qed.
Lemma both_timed_out : rtc step ([launch_and_stop true [] context; app_manager_stop [] 0 1], boot) timed_out.
Proof.
  etrans; [|apply advance_steps]. etrans; [|apply expired_step]. do 4 (etrans; [|apply advance_steps]). apply advance_steps.
Qed.
End SchedulerDemo.

Import SchedulerDemo.
#[local] Existing Instance GroupDemo.rtos.
#[local] Existing Instance StreamDemo.others.

Lemma requests_fine (ls : list (list request)) :
  Forall (Forall (λ r, r = Launch context ∨ ∃ self i, r = Stop self i)) ls → Forall (Forall (request_ok {[ 7 ]} {[ 50 ]})) ls.
Proof.
  intros Hls. eapply Forall_impl; [exact Hls|]. intros l Hl. eapply Forall_impl; [exact Hl|].
  intros r [->|(self & i & ->)]; [apply context_fine|done].
Qed.




Lemma stopped_app_has_ended_witness :
  stopped.1 !! 0%nat = Some (Return 1) ∧ instances (running stopped.2) !! 1 = None ∧ ∀ a x, contexts stopped.2 !! a = Some x → task_instance x ≠ 1.
Proof.
  assert (stopped.1 !! 0%nat = Some (Return 1)) as Hr by by vm_compute. split; [exact Hr|].
  apply (stopped_app_has_ended true [] {[ 7 ]} {[ 50 ]} boot [context] stopped.1 stopped.2 0).
  - exact demo_booted.
  - repeat constructor; apply context_fine.
  - done.
  - rewrite <-surjective_pairing. exact launched_stopped.
  - simpl. lia.
  - exact Hr.
  - done.
Defined.

(** * What may go wrong *)

(** An app that is stopped while it starts is not stopped: its entry is there, but its
    completion signal is not, so [app_manager_stop] takes it for one that has ended, erases
    the entry and returns [ERROR_NONE]; the start goes on and succeeds, and the app runs
    without an entry in the ledger. *)
Theorem stopped_while_starting :
  ∃ ps s, rtc step ([start_only; app_manager_stop [] 0 1], boot) (ps, s) ∧
    ps !! 0%nat = Some (Return 1) ∧ ps !! 1%nat = Some (Return ERROR_NONE) ∧
    instances (running s) !! 1 = None ∧ ∃ x, contexts s !! 1 = Some x ∧ task_instance x = 1 ∧ runtime x ∈ loaded s.
Proof.
  exists early.1, early.2. split; [rewrite <-surjective_pairing; exact starting_early|].
  split; [by vm_compute|]. split; [by vm_compute|]. split; [by vm_compute|]. eexists. split; [by vm_compute|]. split; [done|].
  apply (bool_decide_unpack _). by vm_compute.
Qed.

(** Of two tasks that stop the same app, one is told that it did not end in time: the
    app gives its semaphore once, and the first task takes it. *)
Theorem second_stop_times_out :
  ∃ ps s, rtc step ([launch_and_stop true [] context; app_manager_stop [] 0 1], boot) (ps, s) ∧
    ps !! 0%nat = Some (Return 1) ∧ ps !! 1%nat = Some (Return ERROR_TIMEOUT) ∧ quiescent s.
Proof.
  exists timed_out.1, timed_out.2. split; [rewrite <-surjective_pairing; exact both_timed_out|].
  split; [by vm_compute|]. split; [by vm_compute|]. by split; vm_compute.
Qed.

(** An app that is stopped when its entry has just been made, and whose output can then not
    be bound: the start makes the entry anew to close its descriptors, and locks the mutex
    that this entry does not have. *)
Theorem stop_breaks_a_failing_start :
  ∃ ps s, rtc step racing (ps, s) ∧ ps !! 1%nat = Some (Return 0) ∧ ∃ p, ps !! 0%nat = Some p ∧ lost_teardown s p ∧ crashes s p.
Proof.
  exists lost.1, lost.2. split; [rewrite <-surjective_pairing; exact racing_lost|]. split; [by vm_compute|].
  destruct (crashed_crashes lost 0) as (p & Hp & Hc); [by vm_compute|]. exists p. split; [done|]. split; [|done].
  assert (∃ k, lost.1 !! 0%nat = Some (Locked (drop_instance 1) k)) as [k Hk] by (eexists; by vm_compute).
  assert (p = Locked (drop_instance 1) k) as -> by congruence. exists 1, k. split; [done|by vm_compute].
Qed.
