(* ===== verification/Signals.v ===== *)
(** Delivering signals, Modules/app-module/source/signal.cpp: the pending signals of an
    app's instance run their handlers on its own task, the lowest number first. *)

From S2P Require Import Prelude EventGroups AppEvents Apps StreamSpecs Resources AppLedger Scheduler SchedulerCorrect.

Section signals.
Context `{FreeRtosEventGroup} `{OtherFiles} `{ResourcePlatform}.
Variable default_ignored : list Z.
(** The app's handler, with the number of the signal. *)
Variable call : Z → Z → M ledger unit.
Implicit Types s : ledger.

(** [current] is the instance of the calling task, 0 for none. *)
Definition app_signal_is_pending (current : Z) : M ledger bool :=
  if current =? 0 then mret false
  else o ← find_instance current; mret (match o with Some r => negb (pending_signals r =? 0) | None => false end).

(** [__builtin_ctz] of a non-zero [uint32_t]. *)
Definition ctz (p : Z) : Z := default 32 (list_find (λ i, Z.testbit p i = true) (seqZ 0 32) ≫= λ x, Some x.2).

Definition clear_bit (sig p : Z) : Z := Z.ldiff p (Z.shiftl 1 sig).

(** The section of a turn: a signal that is taken, and its handler. *)
Definition take_signal (i : Z) : M ledger (option (Z * AppLibcSignalHandler)) :=
  o ← find_instance i;
  match o with
  | None => mret None
  | Some r =>
      if pending_signals r =? 0 then mret None
      else
        let sig := ctz (pending_signals r) in
        alter_instance i (λ r, with_pending (clear_bit sig (pending_signals r)) r);;
        h ← deref (λ _, signal_handlers r !! Z.to_nat sig);
        mret (Some (sig, h))
  end.

(** The status that the app exits with, if it does.  A handler may send further signals, so
    that the loop may have any number of turns. *)
Fixpoint deliver_turns (n : nat) (i : Z) : M ledger (option Z) :=
  match n with
  | O => undef
  | S n =>
      o ← take_signal i;
      match o with
      | None => mret None
      | Some (sig, h) =>
          if is_ignored default_ignored h sig then deliver_turns n i
          else
            match h with
            | Handler f => call f sig;; deliver_turns n i
            | _ => mret (Some (128 + sig))
            end
      end
  end.
Definition app_signal_deliver_pending (turns : nat) (current : Z) : M ledger (option Z) :=
  if current =? 0 then mret None else deliver_turns turns current.

(** * What delivery does *)

(** The signals of a set, in ascending order. *)
Definition signals_of (p : Z) : list Z := filter (λ i, Z.testbit p i = true) (seqZ 0 32).

(** Running handlers for a list of signals, one after the other. *)
Fixpoint deliver_list (i : Z) (hs : list AppLibcSignalHandler) (l : list Z) : M ledger (option Z) :=
  match l with
  | [] => mret None
  | sig :: l' =>
      alter_instance i (λ r, with_pending (clear_bit sig (pending_signals r)) r);;
      match nth (Z.to_nat sig) hs SIG_DFL with
      | SIG_IGN => deliver_list i hs l'
      | SIG_DFL => if is_ignored_by_default default_ignored sig then deliver_list i hs l' else mret (Some (128 + sig))
      | Handler f => call f sig;; deliver_list i hs l'
      end
  end.

Lemma list_find_filter {A} (P : A → Prop) `{∀ x, Decision (P x)} (l : list A) :
  (list_find P l ≫= λ x, Some x.2) = head (filter P l).
Proof.
  induction l as [|x l IH]; [done|]. rewrite filter_cons. simpl. case_decide; [done|].
  rewrite <-IH. by destruct (list_find P l).
Qed.

Lemma ctz_head p : ctz p = default 32 (head (signals_of p)).
Proof. unfold ctz, signals_of. by rewrite list_find_filter. Qed.

Lemma clear_bit_spec sig p i : 0 ≤ sig → 0 ≤ i → Z.testbit (clear_bit sig p) i = (Z.testbit p i && negb (bool_decide (i = sig)))%bool.
Proof.
  intros Hs Hi. unfold clear_bit. rewrite Z.ldiff_spec, Z.shiftl_spec by done. f_equal. f_equal.
  case_bool_decide as E; [subst; by rewrite Z.sub_diag|].
  destruct (decide (i < sig)); [by rewrite Z.testbit_neg_r by lia|]. rewrite Z.testbit_eqb by lia.
  apply Z.eqb_neq. rewrite Z.div_small; [done|]. split; [lia|]. apply Z.pow_gt_1; lia.
Qed.

Lemma signals_of_clear p sig l : signals_of p = sig :: l → signals_of (clear_bit sig p) = l.
Proof.
  assert (∀ k, Forall (λ i, 0 ≤ i) k → 0 ≤ sig → sig ∉ k → filter (λ i, Z.testbit (clear_bit sig p) i = true) k = filter (λ i, Z.testbit p i = true) k) as Hout.
  { intros k Hk Hsig. induction Hk as [|x k Hx Hk IH]; intros Hin; [done|]. apply not_elem_of_cons in Hin as [Hne Hin].
    rewrite !filter_cons, clear_bit_spec, bool_decide_false, andb_true_r, IH by done. done. }
  assert (∀ k, Forall (λ i, 0 ≤ i) k → NoDup k → ∀ l, filter (λ i, Z.testbit p i = true) k = sig :: l →
    filter (λ i, Z.testbit (clear_bit sig p) i = true) k = l) as Hall; [|apply Hall; [|apply NoDup_seqZ]].
  - intros k Hk. induction Hk as [|x k Hx Hk IH]; intros Hn k' E; [done|]. apply NoDup_cons in Hn as [Hin Hn]. rewrite filter_cons in *.
    assert (0 ≤ sig) as Hsig.
    { assert (sig ∈ filter (λ i, Z.testbit p i = true) (x :: k)) as [_ [->|Hs]%elem_of_cons]%list_elem_of_filter; [rewrite filter_cons, E; by left|done|].
      rewrite Forall_forall in Hk. by apply Hk. }
    case_decide as Hb.
    + injection E as -> <-. rewrite decide_False; [by apply Hout|]. by rewrite clear_bit_spec, bool_decide_true, andb_false_r by done.
    + rewrite decide_False; [by apply IH|]. rewrite clear_bit_spec by done. destruct (Z.testbit p x); [done|]. simpl. done.
  - apply Forall_forall. intros i [? _]%elem_of_seqZ. done.
Qed.

Lemma signals_of_zero p : 0 ≤ p < 2 ^ 32 → signals_of p = [] ↔ p = 0.
Proof.
  intros Hp. split.
  - intros E. apply Z.bits_inj'. intros n Hn. rewrite Z.bits_0. destruct (Z.testbit p n) eqn:Eb; [|done]. exfalso.
    assert (n < 32) as Hlt.
    { destruct (decide (n < 32)); [done|]. destruct (decide (p = 0)) as [->|Hz]; [by rewrite Z.bits_0 in Eb|].
      rewrite Z.bits_above_log2 in Eb; [done|lia|]. assert (Z.log2 p < 32) by (apply Z.log2_lt_pow2; lia). lia. }
    assert (n ∈ signals_of p) as Hin by (apply list_elem_of_filter; split; [done|apply elem_of_seqZ; lia]). rewrite E in Hin. by apply not_elem_of_nil in Hin.
  - intros ->. unfold signals_of.  generalize (seqZ 0 32). intros l. induction l as [|x l IH]; [done|].
    by rewrite filter_cons, Z.bits_0, decide_False.
Qed.

Lemma signals_of_below p sig : sig ∈ signals_of p → 0 ≤ sig < 32.
Proof. intros [_ H']%list_elem_of_filter. by apply elem_of_seqZ in H'. Qed.
Lemma clear_bit_range sig p : 0 ≤ p < 2 ^ 32 → 0 ≤ clear_bit sig p < 2 ^ 32.
Proof.
  intros Hp. unfold clear_bit.
  assert (Z.ldiff p (Z.shiftl 1 sig) = p - Z.land p (Z.shiftl 1 sig)) as ->.
  { rewrite Z.sub_nocarry_ldiff; apply Z.bits_inj'; intros n Hn; rewrite ?Z.bits_0, ?Z.ldiff_spec, ?Z.land_spec;
      by destruct (Z.testbit p n), (Z.testbit (Z.shiftl 1 sig) n). }
  assert (0 ≤ Z.land p (Z.shiftl 1 sig)) by (apply Z.land_nonneg; left; lia).
  assert (0 ≤ p - Z.land p (Z.shiftl 1 sig)); [|lia].
  rewrite Z.sub_nocarry_ldiff; [apply Z.ldiff_nonneg; left; lia|].
  apply Z.bits_inj'; intros n Hn; rewrite ?Z.bits_0, ?Z.ldiff_spec, ?Z.land_spec. by destruct (Z.testbit p n), (Z.testbit (Z.shiftl 1 sig) n).
Qed.

(** A handler that changes neither the pending signals nor the handlers. *)
Definition tame (i : Z) : Prop :=
  ∀ f sig s r, instances (running s) !! i = Some r →
  ∃ s' r', call f sig s = Done (tt, s') ∧ instances (running s') !! i = Some r' ∧
    pending_signals r' = pending_signals r ∧ signal_handlers r' = signal_handlers r.

Lemma alter_instance_eq s i f r :
  instances (running s) !! i = Some r →
  ∃ s', alter_instance i f s = Done (tt, s') ∧ instances (running s') !! i = Some (f r).
Proof. intros Hr. eexists. split; [reflexivity|]. simpl. by rewrite lookup_alter_eq, Hr. Qed.

Lemma deliver_turns_list i n l s r :
  tame i → instances (running s) !! i = Some r → 0 ≤ pending_signals r < 2 ^ 32 → length (signal_handlers r) = 32%nat →
  signals_of (pending_signals r) = l → (length l < n)%nat →
  deliver_turns n i s = deliver_list i (signal_handlers r) l s ∧
  ∃ e s' r', deliver_list i (signal_handlers r) l s = Done (e, s') ∧ instances (running s') !! i = Some r' ∧
    (e = None → pending_signals r' = 0).
Proof.
  intros Ht. revert n s r. induction l as [|sig l IH]; intros [|n] s r Hr Hp Hh Hl Hn; simpl in Hn; try lia.
  - apply signals_of_zero in Hl; [|done]. split; [|by exists None, s, r].
    cbn [deliver_turns]. unfold take_signal, find_instance, mbind, M_bind, gets. cbn beta iota. rewrite Hr. by rewrite Hl.
  - pose proof (signals_of_below (pending_signals r) sig) as Hsig. rewrite Hl in Hsig. specialize (Hsig ltac:(by left)).
    set (f := λ r, with_pending (clear_bit sig (pending_signals r)) r).
    destruct (alter_instance_eq s i f r Hr) as (s1 & E1 & Hr1).
    destruct (lookup_lt_is_Some_2 (signal_handlers r) (Z.to_nat sig)) as [h Hh']; [lia|].
    assert (pending_signals r ≠ 0) as Hnz by (intros Hz; by rewrite (proj2 (signals_of_zero _ Hp) Hz) in Hl).
    assert (take_signal i s = Done (Some (sig, h), s1)) as Etake.
    { unfold take_signal, find_instance, mbind, M_bind, gets, Prelude.deref. cbn beta iota. rewrite Hr. rewrite (proj2 (Z.eqb_neq _ _) Hnz).
      cbv zeta. rewrite ctz_head, Hl. change (default 32 (head (sig :: l))) with sig. fold f. by rewrite E1, Hh'. }
    assert (nth (Z.to_nat sig) (signal_handlers r) SIG_DFL = h) as Enth by by apply nth_lookup_Some.
    destruct (IH n s1 (f r)) as [E2 Hrest]; [done|by apply clear_bit_range|done|by apply (signals_of_clear _ sig)|lia|].
    cbn [deliver_turns deliver_list]. rewrite (bind_eq _ _ _ _ _ Etake), (bind_eq _ _ _ _ _ E1), Enth. cbn beta iota.
    destruct h as [| |g]; cbn [is_ignored]; [|by split|].
    + destruct (is_ignored_by_default default_ignored sig); [by split|]. split; [done|]. by exists (Some (128 + sig)), s1, (f r).
    + destruct (Ht g sig s1 (f r) Hr1) as (s2 & r2 & E3 & Hr2 & Hp2 & Hh2).
      rewrite !(bind_eq _ _ _ _ _ E3).
      destruct (IH n s2 r2) as [E4 Hrest4]; [done|rewrite Hp2; by apply clear_bit_range|by rewrite Hh2|rewrite Hp2; by apply (signals_of_clear _ sig)|lia|].
      rewrite Hh2 in *. by split.
Qed.

(** With handlers that do not themselves send signals, delivery ends after at most one
    turn for each pending signal and one more; it runs the handlers of the pending signals
    in ascending order, skips those that are ignored, and stops at the first whose default
    action ends the app, with the status 128 and the signal's number; when the app goes on,
    no signal is pending any more. *)
Theorem signals_delivered_in_order i s r turns :
  tame i → i ≠ 0 → instances (running s) !! i = Some r → 0 ≤ pending_signals r < 2 ^ 32 → length (signal_handlers r) = 32%nat →
  (33 ≤ turns)%nat →
  app_signal_deliver_pending turns i s = deliver_list i (signal_handlers r) (signals_of (pending_signals r)) s ∧
  ∃ e s' r', app_signal_deliver_pending turns i s = Done (e, s') ∧ instances (running s') !! i = Some r' ∧ (e = None → pending_signals r' = 0).
Proof.
  intros Ht Hi Hr Hp Hh Hn. unfold app_signal_deliver_pending. rewrite (proj2 (Z.eqb_neq _ _) Hi).
  assert (length (signals_of (pending_signals r)) < turns)%nat as Hl.
  { assert (length (signals_of (pending_signals r)) ≤ length (seqZ 0 32))%nat as Hle by apply length_filter. rewrite length_seqZ in Hle. lia. }
  destruct (deliver_turns_list i turns _ s r Ht Hr Hp Hh eq_refl Hl) as [E Hend]. split; [exact E|]. by rewrite E.
Qed.
End signals.

(** * A delivery *)

Module SignalDemo.
(** SIGINT has a handler, SIGHUP is ignored, SIGCHLD is by default, and so is not SIGTERM. *)
Definition handlers : list AppLibcSignalHandler := <[1%nat := SIG_IGN]> (<[2%nat := Handler 70]> (replicate 32 SIG_DFL)).
Definition record : AppInstanceRecord :=
  with_pending (Z.shiftl 1 1 + Z.shiftl 1 2 + Z.shiftl 1 15 + Z.shiftl 1 17 + Z.shiftl 1 18)
    (new_record [] APP_INSTANCE_STATE_ACTIVE 0 [] [] <| signal_handlers := handlers |>).
#[local] Existing Instance SchedulerDemo.platform.
Definition state : ledger := SchedulerDemo.boot <| running := set_instances {[ 1 := record ]} (running SchedulerDemo.boot) |>.
(** Handlers count their calls. *)
Definition call (f sig : Z) : M ledger unit := modify (λ s, s <| next_instance_id := next_instance_id s * 100 + sig |>).
Lemma tame_call : tame call 1.
Proof. intros f sig s r Hr. eexists _, r. split; [reflexivity|]. by split. Qed.
End SignalDemo.

#[local] Existing Instance SchedulerDemo.platform.
#[local] Existing Instance GroupDemo.rtos.
#[local] Existing Instance StreamDemo.others.

Lemma signals_delivered_in_order_witness :
  signals_of (pending_signals SignalDemo.record) = [1; 2; 15; 17; 18] ∧
  ∃ s', app_signal_deliver_pending [17] SignalDemo.call 33 1 SignalDemo.state = Done (Some (128 + 15), s') ∧ next_instance_id s' = 102.
Proof.
  split; [by vm_compute|].
  destruct (signals_delivered_in_order [17] SignalDemo.call 1 SignalDemo.state SignalDemo.record 33) as [E (e & s' & r' & E' & _)];
    [apply SignalDemo.tame_call|done|reflexivity|by vm_compute|reflexivity|lia|].
  exists s'. rewrite E in E'. rewrite E. vm_compute in E'. injection E' as <- <-. split; [by vm_compute|reflexivity].
Defined.
