(* ===== verification/Packages.v ===== *)
(** Registered manifests and installed packages, Modules/app-module: source/manager.cpp,
    source/start.cpp, source/install.cpp, source/paths.cpp and private/manifest_set.h.  What the mutex of
    the ledger or of a registry protects is one section; so is an operation on the file
    system.  Between sections other tasks may run. *)

From S2P Require Import Prelude Text EventGroups AppEvents Apps Streams AppEnv Tasks Files Resources Manifests AppLedger Scheduler.

Section packages.
Context `{FreeRtosEventGroup} `{OtherFiles} `{ResourcePlatform}.
Variable esp : bool.
Variable default_ignored : list Z.
(** The build: the largest [size_t], and the name of the platform. *)
Variable size_max : Z.
Variable platform : text.

Abbreviation proc A := (Tasks.proc ledger A).

Definition on_files {A} (m : M Files.files A) : M ledger A := λ s,
  match m (file_system (installing s)) with
  | Done (a, x) => Done (a, s <| installing := installing s <| file_system := x |> |>)
  | Panic => Panic
  | Undef => Undef
  end.
Definition upd_installing (f : installs → installs) : M ledger unit := modify (λ s, s <| installing := f (installing s) |>).

(** * The ledger (manager.cpp) *)

Definition app_manager_add (manifest : manifest_ref) : M ledger error_t :=
  m ← manifest_at manifest;
  o ← gets (λ s, manifests s !! manifest_id m);
  if is_some o then mret ERROR_INVALID_ARGUMENT
  else modify (λ s, s <| manifests := <[manifest_id m := manifest]> (manifests s) |>);; mret ERROR_NONE.

Definition app_manager_remove (id : text) : M ledger error_t :=
  o ← gets (λ s, manifests s !! id);
  if is_some o then modify (λ s, s <| manifests := delete id (manifests s) |>);; mret ERROR_NONE else mret ERROR_NOT_FOUND.

(** The location of the copy has the pointer of the original. *)
Definition location_of (r : manifest_ref) : location_ref :=
  match r with Static m => Own (manifest_location m) | InSet a i => Borrowed a i end.
Definition app_manager_find_manifest (id : text) : M ledger (option (AppManifest * location_ref)) :=
  o ← gets (λ s, manifests s !! id);
  match o with
  | None => mret None
  | Some r => m ← manifest_at r; mret (Some (m, location_of r))
  end.

Definition app_manager_for_each_manifest (visitor : AppManifest → M ledger unit) : M ledger unit :=
  l ← gets (λ s, map_to_list (manifests s)); for_list (λ x, m ← manifest_at x.2; visitor m) l.

Definition app_manager_add_package (package : PackageManifest) (ids : list text) : M ledger error_t :=
  o ← gets (λ s, packages s !! package_id package);
  if is_some o then mret ERROR_INVALID_ARGUMENT
  else modify (λ s, s <| packages := <[package_id package := {| package := package; app_ids := ids |}]> (packages s) |>);; mret ERROR_NONE.

Definition app_manager_remove_package (id : text) : M ledger error_t :=
  o ← gets (λ s, packages s !! id);
  if is_some o then modify (λ s, s <| packages := delete id (packages s) |>);; mret ERROR_NONE else mret ERROR_NOT_FOUND.

Definition app_manager_find_package (id : text) : M ledger (option PackageManifest) := gets (λ s, package <$> packages s !! id).

Definition app_manager_for_each_package (visitor : AppPackageRecord → M ledger unit) : M ledger unit :=
  l ← gets (λ s, map_to_list (packages s)); for_list (λ x, visitor x.2) l.

(** The highest id of an active instance. *)
Definition app_manager_get_topmost_instance_id : M ledger (error_t + Z) :=
  topmost_id ← gets (λ s, foldr (λ x t, if decide (instance_state x.2 = APP_INSTANCE_STATE_ACTIVE) then Z.max x.1 t else t) 0
                            (map_to_list (instances (running s))));
  mret (if topmost_id =? 0 then inl ERROR_NOT_FOUND else inr topmost_id).
Definition topmost_app_id (topmost : Z) (buffer_size : nat) : M ledger (error_t * text) :=
  o ← find_instance topmost;
  match o with
  | None => mret (ERROR_NOT_FOUND, [])
  | Some r =>
      if decide (manifestId r = []) then mret (ERROR_NOT_FOUND, [])
      else if (buffer_size <=? length (manifestId r))%nat then mret (ERROR_BUFFER_OVERFLOW, [])
      else mret (ERROR_NONE, manifestId r)
  end.
Definition app_manager_get_topmost_app_id (buffer_size : nat) : proc (error_t * text) :=
  if (buffer_size =? 0)%nat then mret (ERROR_BUFFER_OVERFLOW, [])
  else
    result ← locked app_manager_get_topmost_instance_id;
    match result with inl e => mret (e, []) | inr topmost => locked (topmost_app_id topmost buffer_size) end.

(** * Starting by id (start.cpp) *)

Definition start_context (id : text) (l : location_ref) (k : AppStackConfig) : AppStartContext :=
  {| context_id := id; location := l; stack := k; arguments := []; bindings := None; binding_count := 0; context_parent := 0; environment := [] |}.
Definition app_start_context_for_manifest (m : AppManifest) (l : location_ref) : AppStartContext := start_context (manifest_id m) l (manifest_stack m).
Definition app_start_context_for_location (l : location_ref) : AppStartContext :=
  start_context [] l {| depth := 0; desired_memory_capability := 0 |}.
Definition app_start_context_from_id (id : text) : M ledger (option AppStartContext) :=
  o ← gets (λ s, manifests s !! id);
  match o with
  | None => mret None
  | Some r => m ← manifest_at r; mret (Some (start_context (manifest_id m) (location_of r) (manifest_stack m)))
  end.
Definition app_start_context_set_stack (k : AppStackConfig) (c : AppStartContext) : AppStartContext := c <| stack := k |>.
Definition app_start_context_set_arguments (argv : list text) (c : AppStartContext) : AppStartContext := c <| arguments := argv |>.
Definition app_start_context_set_streams (bs : option (list AppStreamBinding)) (n : nat) (c : AppStartContext) : AppStartContext :=
  c <| bindings := bs |> <| binding_count := n |>.
Definition app_start_context_set_parent (parent : Z) (c : AppStartContext) : AppStartContext := c <| context_parent := parent |>.
Definition app_start_context_set_environment (e : list text) (c : AppStartContext) : AppStartContext := c <| environment := e |>.

(** Starts the manifest with this id, its context prepared by [f]. *)
Definition start_by_id (id : text) (f : AppStartContext → AppStartContext) : proc (error_t + Z) :=
  lookup_result ← locked (app_start_context_from_id id);
  match lookup_result with None => mret (inl ERROR_NOT_FOUND) | Some context => app_manager_start_internal esp (f context) end.
Definition app_start (id : text) (argv : list text) : proc (error_t + Z) := start_by_id id (app_start_context_set_arguments argv).
Definition app_start_for_result (id : text) (argv : list text) (parent : Z) : proc (error_t + Z) :=
  start_by_id id (λ c, app_start_context_set_parent parent (app_start_context_set_arguments argv c)).
Definition app_start_with_streams (id : text) (bs : option (list AppStreamBinding)) (n : nat) : proc (error_t + Z) :=
  start_by_id id (app_start_context_set_streams bs n).
Definition app_start_for_result_with_streams (id : text) (argv : list text) (bs : option (list AppStreamBinding)) (n : nat) (parent : Z) : proc (error_t + Z) :=
  start_by_id id (λ c, app_start_context_set_parent parent (app_start_context_set_streams bs n (app_start_context_set_arguments argv c))).

(** * Sets of manifests (manifest_set.h, binary_path.h) *)

Definition app_resolve_binary_path (install_dir binary : text) : text :=
  if esp then install_dir ++ $"/bin/" ++ platform ++ $"/" ++ binary ++ $".elf" else install_dir ++ $"/bin/posix-" ++ platform ++ $"/" ++ binary ++ $".so".
Definition owned_manifest (install_dir : text) (b : AppManifestBinding) : AppManifest :=
  binding_manifest b <| manifest_location := {| location_type := APP_LOCATION_PATH; location_data := app_resolve_binary_path install_dir (binary b) |} |>.
Definition new_manifest_set (install_dir : text) (bs : list AppManifestBinding) : M ledger Z :=
  a ← gets (λ s, next_free (dom (manifest_sets (installing s))));
  upd_installing (λ x, x <| manifest_sets := <[a := owned_manifest install_dir <$> bs]> (manifest_sets x) |>);;
  mret a.
Definition set_at (a : Z) : M ledger (list AppManifest) := deref (λ s, manifest_sets (installing s) !! a).
Definition delete_manifest_set (a : Z) : M ledger unit :=
  _ ← set_at a; upd_installing (λ x, x <| manifest_sets := delete a (manifest_sets x) |>).
(** A [unique_ptr] in a map is assigned, or erased. *)
Definition drop_owner (o : option PackageOwner) : M ledger unit :=
  match o with Some w => delete_manifest_set (owned w) | None => mret tt end.

(** [app_manager_remove] of each of them. *)
Definition remove_all (ids : list text) : proc unit := for_each (λ id, _ ← locked (app_manager_remove id); mret tt) ids.

(** [app_manager_add] of a set from [i] on, up to a failure: how many have been added. *)
Fixpoint add_manifests (a : Z) (i n : nat) : proc nat :=
  match n with
  | O => mret i
  | S n => e ← locked (app_manager_add (InSet a i)); if negb (e =? ERROR_NONE) then mret i else add_manifests a (S i) n
  end.

(** * Scanned packages (manager.cpp) *)

Definition app_manager_install_path_add (p : text) : M ledger error_t :=
  upd_installing (λ x, if decide (p ∈ install_paths x) then x else x <| install_paths := install_paths x ++ [p] |>);;
  mret ERROR_NONE.

(** A [for] loop that collects what its body gives. *)
Fixpoint collect {A B} (body : A → proc (list B)) (l : list A) : proc (list B) :=
  match l with [] => mret [] | a :: l' => x ← body a; xs ← collect body l'; mret (x ++ xs) end.

Record KnownPackage := { known_id : text; known_path : text; manifest_ids : list text }.
Fixpoint snapshot (l : list (text * PackageOwner)) : M ledger (list KnownPackage) :=
  match l with
  | [] => mret []
  | (id, w) :: l' =>
      ms ← set_at (owned w); ks ← snapshot l';
      mret ({| known_id := id; known_path := owner_path w; manifest_ids := manifest_id <$> ms |} :: ks)
  end.

(** A package whose manifest was parsed. *)
Record NewPackage := { new_package : PackageManifest; new_path : text; new_set : Z; new_count : nat }.

Definition read_package (manifest_path : text) : proc (result (PackageManifest * list AppManifestBinding)) :=
  first ← locked (on_files (read_file manifest_path));
  second ← locked (on_files (read_file manifest_path));
  mret (app_package_manifest_parse_into size_max first second).

Definition parse_found (known : list KnownPackage) (app_dir : text) : proc (list NewPackage) :=
  let manifest_path := app_dir ++ $"/manifest.properties" in
  f ← locked (on_files (app_fs_is_file manifest_path));
  if negb f then mret []
  else
    r ← read_package manifest_path;
    match r with
    | inl _ => mret []
    | inr (package, app_bindings) =>
        if decide (package_id package ∈ known_id <$> known) then mret []
        else
          a ← locked (new_manifest_set app_dir app_bindings);
          mret [{| new_package := package; new_path := app_dir; new_set := a; new_count := length app_bindings |}]
    end.

Definition find_missing (k : KnownPackage) : proc (list KnownPackage) :=
  d ← locked (on_files (app_fs_is_directory (known_path k))); mret (if d : bool then [] else [k]).

Definition unregister (k : KnownPackage) : proc unit :=
  remove_all (manifest_ids k);; _ ← locked (app_manager_remove_package (known_id k)); mret tt.

(** Registers a package: whether it did. *)
Definition register_new (p : NewPackage) : proc bool :=
  added_count ← add_manifests (new_set p) 0 (new_count p);
  ms ← locked (set_at (new_set p));
  if negb (added_count =? new_count p)%nat then remove_all (manifest_id <$> take added_count ms);; mret false
  else
    e ← locked (app_manager_add_package (new_package p) (manifest_id <$> ms));
    if negb (e =? ERROR_NONE) then remove_all (manifest_id <$> ms);; mret false else mret true.
(** The packages that were added, and those that were not. *)
Fixpoint register_all (ids : list text) (l : list NewPackage) : proc (list NewPackage * list NewPackage) :=
  match l with
  | [] => mret ([], [])
  | p :: l' =>
      let id := package_id (new_package p) in
      added ← (if decide (id ∈ ids) then mret false else register_new p);
      '(xs, ys) ← register_all (if added : bool then ids ++ [id] else ids) l';
      mret (if added : bool then (p :: xs, ys) else (xs, p :: ys))
  end.

Definition erase_scanned (id : text) : M ledger unit :=
  o ← gets (λ s, scanned (installing s) !! id);
  drop_owner o;; upd_installing (λ x, x <| scanned := delete id (scanned x) |>).
Definition publish_scanned (p : NewPackage) : M ledger unit :=
  let id := package_id (new_package p) in
  o ← gets (λ s, scanned (installing s) !! id);
  drop_owner o;;
  upd_installing (λ x, x <| scanned := <[id := {| owner_path := new_path p; owned := new_set p |}]> (scanned x) |>).

Definition app_manager_install_path_scan : proc unit :=
  paths_copy ← locked (gets (λ s, install_paths (installing s)));
  found_app_dirs ← collect (λ root, locked (on_files (app_fs_list_direct_subdirectories root))) paths_copy;
  known ← locked (l ← gets (λ s, map_to_list (scanned (installing s))); snapshot l);
  new ← collect (parse_found known) found_app_dirs;
  missing ← collect find_missing known;
  for_each unregister missing;;
  '(added, rest) ← register_all [] new;
  locked (for_list (λ k, erase_scanned (known_id k)) missing;; for_list publish_scanned added);;
  for_each (λ p, locked (delete_manifest_set (new_set p))) rest.

(** The instances of one of these apps. *)
Definition instances_of (ids : list text) : M ledger (list Z) :=
  gets (λ s, fst <$> filter (λ x, manifestId x.2 ∈ ids) (map_to_list (instances (running s)))).
Definition stop_instances (self : Z) (l : list Z) : proc unit := for_each (λ i, _ ← app_manager_stop default_ignored self i; mret tt) l.

(** Each turn of the loop reads the set. *)
Definition remove_set (a : Z) (ms : list AppManifest) : proc unit :=
  for_each (λ m, locked (set_at a);; _ ← locked (app_manager_remove (manifest_id m)); mret tt) ms.

Definition app_manager_install_path_uninstall (self : Z) (app_id : text) : proc error_t :=
  o ← locked (gets (λ s, scanned (installing s) !! app_id));
  match o with
  | None => mret ERROR_NOT_FOUND
  | Some w =>
      instance_ids ← locked (ms ← set_at (owned w); instances_of (manifest_id <$> ms));
      stop_instances self instance_ids;;
      ms ← locked (set_at (owned w));
      remove_set (owned w) ms;;
      _ ← locked (app_manager_remove_package app_id);
      deleted ← locked (on_files (delete_recursively (owner_path w)));
      if negb deleted then mret ERROR_RESOURCE else locked (erase_scanned app_id);; mret ERROR_NONE
  end.
End packages.
