(* ===== verification/Install.v ===== *)
(** Installing and uninstalling packages, Modules/app-module: source/install.cpp.  The mutex
    of the registry and those of the staging paths are held over several sections; a task
    that would have to wait for one has no next section here, so one task at a time installs. *)

From S2P Require Import Prelude Text EventGroups AppEvents Apps Streams AppEnv Tasks Files Resources Manifests AppLedger Scheduler Packages.

Section install.
Context `{FreeRtosEventGroup} `{OtherFiles} `{ResourcePlatform}.
Variable esp : bool.
Variable default_ignored : list Z.
Variable size_max : Z.
Variable platform : text.
Variable data_path : option text.
Variable minitar_open : text → option (list minitar_entry).

Abbreviation proc A := (Tasks.proc ledger A).

(** * Locks *)

#[export] Instance StagingLock_settable : Settable StagingLock := constr Build_StagingLock <*> staged <*> lock_refcount.

(** The entry of the table, made if there is none, with one more reference. *)
Definition refer_staging_lock (p : text) : M ledger unit :=
  upd_installing (λ x, x <| staging_locks := partial_alter (λ o,
    let lock := default {| staged := false; lock_refcount := 0 |} o in Some (lock <| lock_refcount := lock_refcount lock + 1 |>)) p (staging_locks x) |>).
Definition lock_staging (p : text) : M ledger unit :=
  lock ← deref (λ s, staging_locks (installing s) !! p);
  deref (λ _, if staged lock then None else Some tt);;
  upd_installing (λ x, x <| staging_locks := <[p := lock <| staged := true |>]> (staging_locks x) |>).
Definition acquire_staging_lock (p : text) : proc unit := locked (refer_staging_lock p);; locked (lock_staging p).
Definition release_staging_lock (p : text) : M ledger unit :=
  o ← gets (λ s, staging_locks (installing s) !! p);
  match o with
  | None => mret tt
  | Some lock =>
      let n := lock_refcount lock - 1 in
      upd_installing (λ x, x <| staging_locks :=
        if n =? 0 then delete p (staging_locks x) else <[p := {| staged := false; lock_refcount := n |}]> (staging_locks x) |>)
  end.

Definition lock_registry : M ledger unit :=
  deref (λ s, if registry_held (installing s) then None else Some tt);; upd_installing (λ x, x <| registry_held := true |>).
Definition unlock_registry : M ledger unit := upd_installing (λ x, x <| registry_held := false |>).

(** * The registry *)

Definition app_install_directory : option text := root ← data_path; Some (root ++ $"/app").

(** Removes an installed manifest with the id of [m], and adds [m]. *)
Definition replace_manifest (a : Z) (i : nat) (id : text) : proc error_t :=
  existing ← locked (app_manager_find_manifest id);
  (match existing with
   | Some (m, _) => if decide (location_type (manifest_location m) = APP_LOCATION_PATH) then _ ← locked (app_manager_remove id); mret tt else mret tt
   | None => mret tt
   end);;
  locked (app_manager_add (InSet a i)).
(** From the manifest [i] on; [done] are the ids before it. *)
Fixpoint register_manifests (a : Z) (i : nat) (done ids : list text) : proc error_t :=
  match ids with
  | [] => mret ERROR_NONE
  | id :: ids' =>
      add_result ← replace_manifest a i id;
      if negb (add_result =? ERROR_NONE) then remove_all done;; mret add_result else register_manifests a (S i) (done ++ [id]) ids'
  end.

Definition publish_installed (id path : text) (a : Z) : M ledger unit :=
  o ← gets (λ s, installed (installing s) !! id);
  drop_owner o;;
  upd_installing (λ x, x <| installed := <[id := {| owner_path := path; owned := a |}]> (installed x) |>).

Definition register_installed_package_locked (package : PackageManifest) (install_path : text) (bs : list AppManifestBinding) : proc error_t :=
  a ← locked (new_manifest_set esp platform install_path bs);
  let ids := (λ b, manifest_id (binding_manifest b)) <$> bs in
  add_result ← register_manifests a 0 [] ids;
  if negb (add_result =? ERROR_NONE) then locked (delete_manifest_set a);; mret add_result
  else
    _ ← locked (app_manager_remove_package (package_id package));
    add_package_result ← locked (app_manager_add_package package ids);
    if negb (add_package_result =? ERROR_NONE) then remove_all ids;; locked (delete_manifest_set a);; mret add_package_result
    else locked (publish_installed (package_id package) install_path a);; mret ERROR_NONE.

Definition stop_all_instances_of (self : Z) (id : text) : proc unit :=
  instance_ids ← locked (instances_of [id]); stop_instances default_ignored self instance_ids.

Definition erase_installed (id : text) : M ledger unit :=
  o ← gets (λ s, installed (installing s) !! id);
  drop_owner o;; upd_installing (λ x, x <| installed := delete id (installed x) |>).

Definition uninstall_manifest (self : Z) (a : Z) (m : AppManifest) : proc unit :=
  locked (set_at a);;
  if decide (location_type (manifest_location m) = APP_LOCATION_PATH) then
    stop_all_instances_of self (manifest_id m);;
    locked (set_at a);;
    _ ← locked (app_manager_remove (manifest_id m));
    mret tt
  else mret tt.
Definition uninstall_locked (self : Z) (id : text) : proc error_t :=
  o ← locked (gets (λ s, installed (installing s) !! id));
  match o with
  | None => mret ERROR_NOT_FOUND
  | Some w =>
      ms ← locked (set_at (owned w));
      for_each (uninstall_manifest self (owned w)) ms;;
      _ ← locked (app_manager_remove_package id);
      _ ← locked (on_files (delete_recursively (owner_path w)));
      locked (erase_installed id);;
      mret ERROR_NONE
  end.

(** * Operations *)

Definition app_get_install_path (app_id : text) (path_size : nat) : error_t * text :=
  if (path_size =? 0)%nat then (ERROR_BUFFER_OVERFLOW, [])
  else
    match app_install_directory with
    | None => (ERROR_NOT_FOUND, [])
    | Some parent =>
        let p := parent ++ "/"%char :: app_id in
        if (path_size <=? length p)%nat then (ERROR_BUFFER_OVERFLOW, []) else (ERROR_NONE, p)
    end.

(** What a failed install leaves of the staging path. *)
Definition abandon_staging (staging_path : text) (e : error_t) : proc error_t :=
  _ ← locked (on_files (delete_recursively staging_path));
  locked (release_staging_lock staging_path);;
  mret e.

(** From when the manifest has been parsed. *)
Definition install_package (self : Z) (app_parent_path staging_path : text) (package : PackageManifest) (bs : list AppManifestBinding) : proc error_t :=
  locked lock_registry;;
  _ ← uninstall_locked self (package_id package);
  let final_path := app_parent_path ++ "/"%char :: package_id package in
  _ ← locked (on_files (delete_recursively final_path));
  renamed ← locked (on_files (rename staging_path final_path));
  if negb renamed then
    e ← abandon_staging staging_path ERROR_NOT_FOUND;
    locked unlock_registry;;
    mret e
  else
    locked (release_staging_lock staging_path);;
    add_result ← register_installed_package_locked package final_path bs;
    locked unlock_registry;;
    mret add_result.

Definition app_install (self : Z) (source_path : text) : proc error_t :=
  match app_install_directory with
  | None => mret ERROR_NOT_FOUND
  | Some app_parent_path =>
      created ← locked (on_files (ensure_directory_recursive app_parent_path));
      if negb created then mret ERROR_NOT_FOUND
      else
        let source_name := last_path_segment source_path in
        if decide (source_name = [] ∨ source_name = $"." ∨ source_name = $"..") then mret ERROR_INVALID_ARGUMENT
        else
          let staging_path := app_parent_path ++ "/"%char :: source_name in
          acquire_staging_lock staging_path;;
          _ ← locked (on_files (delete_recursively staging_path));
          extracted ← locked (on_files (untar minitar_open source_path staging_path));
          if negb extracted then abandon_staging staging_path ERROR_NOT_FOUND
          else
            let manifest_path := staging_path ++ $"/manifest.properties" in
            f ← locked (on_files (app_fs_is_file manifest_path));
            if negb f then abandon_staging staging_path ERROR_INVALID_ARGUMENT
            else
              r ← read_package size_max manifest_path;
              match r with
              | inl _ => abandon_staging staging_path ERROR_INVALID_ARGUMENT
              | inr (package, app_bindings) => install_package self app_parent_path staging_path package app_bindings
              end
  end.

Definition app_uninstall (self : Z) (app_id : text) : proc error_t :=
  locked lock_registry;;
  error ← uninstall_locked self app_id;
  locked unlock_registry;;
  if error =? ERROR_NOT_FOUND then app_manager_install_path_uninstall default_ignored self app_id else mret error.
End install.
