(* ===== verification/PackageInv.v ===== *)
(** Reasoning about the task that installs packages: it alone changes manifests, packages
    and files, so between its sections it knows them exactly, whatever other tasks do; and
    the invariant of what is registered and installed. *)

From S2P Require Import Prelude EventGroups AppEvents Text Apps Streams AppEnv Tasks Resources Files FilesSpecs Manifests AppLedger Scheduler AppsOk SchedulerInv SchedulerSections SchedulerSafety Packages Install.

Section logic.
Context `{FreeRtosEventGroup} `{OtherFilesLaws} `{ResourcePlatform}.
Variable esp : bool.
Variable default_ignored : list Z.
Variables live_groups live_streams : gset Z.
Implicit Types (s : ledger) (h : holding) (F : list (Z * nat)) (b : nat).
Abbreviation inv := (inv esp live_groups live_streams false).
Abbreviation safe := (SchedulerSections.safe esp live_groups live_streams false).

(** * Sections *)

#[export] Instance holding_settable : Settable holding := constr Holding <*> h_manifests <*> h_packages <*> h_installing.

Definition put_store h s : ledger :=
  s <| manifests := h_manifests h |> <| packages := h_packages h |> <| installing := h_installing h |>.

(** From a state that has [h], the section goes to one that differs in what it has only. *)
Definition section {A} (m : M ledger A) (P : A → holding → Prop) h : Prop :=
  ∀ s, stored s = h → wp m (λ a s', ∃ h', s' = put_store h' s ∧ P a h') s.

Lemma put_stored s : s = put_store (stored s) s.
Proof. by destruct s. Qed.

Lemma section_mono {A} (m : M ledger A) (P Q : A → holding → Prop) h : section m P h → (∀ a h', P a h' → Q a h') → section m Q h.
Proof. intros Hm HPQ s Hs. eapply wp_mono; [by apply Hm|]. intros a s' (h' & -> & HP). exists h'. split; [done|by apply HPQ]. Qed.
Lemma section_ret {A} (a : A) (P : A → holding → Prop) h : P a h → section (mret a) P h.
Proof. intros HP s <-. apply wp_ret. exists (stored s). split; [apply put_stored|done]. Qed.
Lemma section_bind {A B} (m : M ledger A) (f : A → M ledger B) (P : B → holding → Prop) h :
  section m (λ a h', section (f a) P h') h → section (m ≫= f) P h.
Proof.
  intros Hm s Hs. apply wp_bind. eapply wp_mono; [by apply Hm|]. intros a s' ([h1 h2 h3] & -> & Hf). eapply wp_mono; [by apply Hf|].
  intros b s'' (h'' & -> & HP). by exists h''.
Qed.
Lemma section_gets {A} (f : ledger → A) (P : A → holding → Prop) h : (∀ s, stored s = h → P (f s) h) → section (gets f) P h.
Proof. intros HP s Hs. apply wp_gets. exists h. split; [rewrite <-Hs; apply put_stored|by apply HP]. Qed.
Lemma section_deref {A} (f : ledger → option A) a (P : A → holding → Prop) h : (∀ s, stored s = h → f s = Some a) → P a h → section (deref f) P h.
Proof. intros Hf HP s Hs. eapply wp_deref; [by apply Hf|]. exists h. split; [rewrite <-Hs; apply put_stored|done]. Qed.
Lemma section_upd f (P : unit → holding → Prop) h : P tt (h <| h_installing := f (h_installing h) |>) → section (upd_installing f) P h.
Proof. intros HP s <-. apply wp_modify. eexists. split; [|exact HP]. by destruct s. Qed.
Lemma section_manifests f (P : unit → holding → Prop) h :
  P tt (h <| h_manifests := f (h_manifests h) |>) → section (modify (λ s, s <| manifests := f (manifests s) |>)) P h.
Proof. intros HP s <-. apply wp_modify. eexists. split; [|exact HP]. by destruct s. Qed.
Lemma section_packages f (P : unit → holding → Prop) h :
  P tt (h <| h_packages := f (h_packages h) |>) → section (modify (λ s, s <| packages := f (packages s) |>)) P h.
Proof. intros HP s <-. apply wp_modify. eexists. split; [|exact HP]. by destruct s. Qed.
Lemma section_files {A} (m : M Files.files A) (P : A → holding → Prop) h :
  wp m (λ a x, P a (h <| h_installing := h_installing h <| file_system := x |> |>)) (file_system (h_installing h)) → section (on_files m) P h.
Proof.
  intros Hm s <-. unfold wp, on_files in *. simpl in *. destruct (m (file_system (installing s))) as [[a x]| |]; [|done..].
  eexists. split; [|exact Hm]. by destruct s.
Qed.

(** * Tasks *)

(** Whatever it knows of instances and however many it may start, the task runs to its
    end, and then [P] is true of its result and of what it has. *)
Definition does {A} (p : proc ledger A) (P : A → holding → Prop) h : Prop :=
  ∀ F b, safe p (client (Some h) F b) (λ g a, ∃ F' h', g = client (Some h') F' b ∧ P a h').

Lemma does_mono {A} (p : proc ledger A) (P Q : A → holding → Prop) h : does p P h → (∀ a h', P a h' → Q a h') → does p Q h.
Proof. intros Hp HPQ F b. eapply safe_mono; [apply Hp|]. intros g a (F' & h' & -> & HP). exists F', h'. split; [done|by apply HPQ]. Qed.
Lemma does_ret {A} (a : A) (P : A → holding → Prop) h : P a h → does (mret a) P h.
Proof. intros HP F b. by exists F, h. Qed.
Lemma does_bind {A B} (p : proc ledger A) (f : A → proc ledger B) (P : B → holding → Prop) h :
  does p (λ a h', does (f a) P h') h → does (p ≫= f) P h.
Proof. intros Hp F b. apply safe_bind. eapply safe_mono; [apply Hp|]. intros g a (F' & h' & -> & Hf). apply Hf. Qed.

(** The task's section, which leaves every manifest in memory. *)
Lemma does_locked {A} (m : M ledger A) (P : A → holding → Prop) h :
  section m (λ a h', manifests_ok h' ∧ P a h') h → does (locked m) P h.
Proof.
  intros Hm F b. apply safe_locked. intros s gs HI. assert (h = stored s) as Hh by by eapply held_stored.
  eapply wp_mono; [by apply Hm|]. intros a s' (h' & -> & Hok & HP). exists (client (Some h') F b). split; [|by exists F, h'].
  destruct HI as [Ha [M1 M2 M3 M4 M5 M6 M7 M8] Hg Hp]. split; [done| | |done].
  - split; [done..| |by destruct h']. right. simpl in *. destruct M7 as [|M7]; [done|]. injection M7 as _ ->. by destruct h'.
  - apply Forall_cons in Hg as [Hg1 Hg]. by constructor; [split; simpl; [lia|..]|].
Qed.

Lemma does_for_each {A} (I : holding → Prop) (body : A → proc ledger unit) l h :
  (∀ a h, a ∈ l → I h → does (body a) (λ _ h', I h') h) → I h → does (for_each body l) (λ _ h', I h') h.
Proof.
  intros Hb. revert h. induction l as [|a l IH]; intros h HI; cbn [for_each]; [by apply does_ret|]. apply does_bind.
  eapply does_mono; [apply Hb; [by left|done]|]. intros u h' HI'. apply IH; [|exact HI']. intros x k Hx. apply Hb. by right.
Qed.
(** A loop that collects: [I] is true of what has been collected so far. *)
Lemma does_collect {A B} (I : list B → holding → Prop) (body : A → proc ledger (list B)) l acc h :
  (∀ a acc h, a ∈ l → I acc h → does (body a) (λ x h', I (acc ++ x) h') h) → I acc h → does (collect body l) (λ x h', I (acc ++ x) h') h.
Proof.
  intros Hb. revert acc h. induction l as [|a l IH]; intros acc h HI; cbn [collect]; [apply does_ret; by rewrite app_nil_r|]. apply does_bind.
  eapply does_mono; [by apply (Hb a acc); [left|]|]. intros x h' HI'. apply does_bind.
  eapply does_mono; [apply IH; [intros y acc' k Hy; apply Hb; by right|exact HI']|]. intros xs h'' HI''. apply does_ret.
  by rewrite app_assoc.
Qed.

(** Stopping instances changes nothing that it has. *)
Lemma does_stop_instances self l h : does (stop_instances default_ignored self l) (λ _ h', h' = h) h.
Proof.
  apply (does_for_each (λ h', h' = h)); [|done]. intros i h' _ ->. intros F b. apply safe_bind.
  eapply safe_mono; [by apply (safe_stop _ _ _ _ false)|]. intros g e (F' & -> & _). by exists F', h.
Qed.
End logic.

(** * The invariant of what is registered and installed *)

Implicit Types (h : holding) (x : installs) (a : Z) (id : text) (w : PackageOwner) (pend : list Z) (t : gmap text StagingLock).

(** * Well-formed registries *)

Definition owners_in (m : gmap text PackageOwner) : list Z := owned <$> (map_to_list m).*2.
Definition owners x : list Z := owners_in (scanned x) ++ owners_in (installed x).

(** [pend]: sets whose owner is a variable of the task; [r] and [t]: what it has locked. *)
Record good (r : bool) t pend h : Prop := {
  good_manifests : manifests_ok h;
  good_sets : owners (h_installing h) ++ pend ≡ₚ elements (dom (manifest_sets (h_installing h)));
  good_located a ms m : manifest_sets (h_installing h) !! a = Some ms → m ∈ ms → location_type (manifest_location m) = APP_LOCATION_PATH;
  good_files : files_ok (file_system (h_installing h));
  good_paths : Forall plain (install_paths (h_installing h));
  good_owners id w : scanned (h_installing h) !! id = Some w ∨ installed (h_installing h) !! id = Some w → plain (owner_path w);
  good_held : registry_held (h_installing h) = r;
  good_staging : staging_locks (h_installing h) = t;
}.

(** No manifest of the set is in the ledger. *)
Definition unlisted a h : Prop := ∀ id i, h_manifests h !! id ≠ Some (InSet a i).

Lemma owners_insert m id w : m !! id = None → owners_in (<[id := w]> m) ≡ₚ owned w :: owners_in m.
Proof. intros Hm. unfold owners_in. rewrite map_to_list_insert by done. done. Qed.
Lemma owners_delete m id w : m !! id = Some w → owned w :: owners_in (delete id m) ≡ₚ owners_in m.
Proof. intros Hm. rewrite <-(owners_insert _ id) by apply lookup_delete_eq. by rewrite insert_delete_id. Qed.
Lemma owners_lookup m id w : m !! id = Some w → owned w ∈ owners_in m.
Proof. intros Hm%elem_of_map_to_list. unfold owners_in. apply list_elem_of_fmap. exists w. split; [done|]. apply list_elem_of_fmap. by exists (id, w). Qed.

Section good.
Variables (r : bool) (t : gmap text StagingLock).
Abbreviation good := (good r t).

Lemma good_permutation pend pend' h : pend ≡ₚ pend' → good pend h → good pend' h.
Proof. intros Hp [G1 G2 G3 G4 G5 G6 G7 G8]. split; try done. by rewrite <-Hp. Qed.

Lemma set_owned pend h a : good pend h → a ∈ owners (h_installing h) ++ pend ↔ is_Some (manifest_sets (h_installing h) !! a).
Proof. intros Hg. by rewrite (good_sets _ _ _ _ Hg), elem_of_elements, elem_of_dom. Qed.
Lemma owner_set pend h id w :
  good pend h → scanned (h_installing h) !! id = Some w ∨ installed (h_installing h) !! id = Some w →
  is_Some (manifest_sets (h_installing h) !! owned w).
Proof. intros Hg Hw. apply (set_owned pend); [done|]. unfold owners. rewrite !elem_of_app. destruct Hw as [Hw|Hw]; apply owners_lookup in Hw; auto. Qed.

(** A manifest in the ledger that is of a set has an id of the set. *)
Lemma listed_id pend h a ms id i :
  good pend h → manifest_sets (h_installing h) !! a = Some ms → h_manifests h !! id = Some (InSet a i) → id ∈ manifest_id <$> ms.
Proof.
  intros Hg Ha Hid. destruct (good_manifests _ _ _ _ Hg _ _ Hid) as (m & Hm & <-). simpl in Hm. rewrite Ha in Hm. simpl in Hm.
  apply list_elem_of_fmap. exists m. split; [done|]. by eapply list_elem_of_lookup_2.
Qed.
Lemma unlisted_ids pend h a ms :
  good pend h → manifest_sets (h_installing h) !! a = Some ms → (∀ id, id ∈ manifest_id <$> ms → h_manifests h !! id = None) → unlisted a h.
Proof. intros Hg Ha Hn id i Hid. pose proof (listed_id _ _ _ _ _ _ Hg Ha Hid) as Hin. by rewrite (Hn _ Hin) in Hid. Qed.

(** ** Changes *)

Lemma good_unregister pend h ms :
  good pend h → ms ⊆ h_manifests h → good pend (h <| h_manifests := ms |>).
Proof.
  intros [G1 G2 G3 G4 G5 G6 G7 G8] Hms. split; try done. intros id r' Hid. apply (G1 id). simpl in Hid. by eapply lookup_weaken.
Qed.
Lemma good_register pend h id m' m :
  good pend h → read_manifest (h_installing h) m' = Some m → manifest_id m = id → good pend (h <| h_manifests := <[id := m']> (h_manifests h) |>).
Proof.
  intros [G1 G2 G3 G4 G5 G6 G7 G8] Hr Hid. split; try done. intros id' r'. simpl. destruct (decide (id' = id)) as [->|].
  - rewrite lookup_insert_eq. intros [= <-]. by exists m.
  - rewrite lookup_insert_ne by done. apply G1.
Qed.
Lemma good_packages pend h ps : good pend h → good pend (h <| h_packages := ps |>).
Proof. by intros [G1 G2 G3 G4 G5 G6 G7 G8]. Qed.
Lemma good_file_system pend h fs : good pend h → files_ok fs → good pend (h <| h_installing := h_installing h <| file_system := fs |> |>).
Proof. by intros [G1 G2 G3 G4 G5 G6 G7 G8] Hfs. Qed.

Lemma good_new_set pend h a ms :
  good pend h → manifest_sets (h_installing h) !! a = None → Forall (λ m, location_type (manifest_location m) = APP_LOCATION_PATH) ms →
  good (a :: pend) (h <| h_installing := h_installing h <| manifest_sets := <[a := ms]> (manifest_sets (h_installing h)) |> |>).
Proof.
  intros [G1 G2 G3 G4 G5 G6 G7 G8] Ha Hms. split; try done; simpl.
  - intros id r' Hid. destruct (G1 id r' Hid) as (m & Hm & Hi). exists m. split; [|done]. destruct r' as [m0|a' i]; [done|]. simpl in *.
    rewrite lookup_insert_ne; [done|]. intros <-. by rewrite Ha in Hm.
  - rewrite dom_insert_L, elements_union_singleton, <-G2 by by apply not_elem_of_dom. apply Permutation_sym, Permutation_middle.
  - intros a' ms' m. destruct (decide (a' = a)) as [->|]; [rewrite lookup_insert_eq|rewrite lookup_insert_ne by done; apply G3].
    intros [= <-]. rewrite Forall_forall in Hms. apply Hms.
Qed.

(** A set that is not referred to is deleted with its owner. *)
Lemma delete_set pend pend' h a x' :
  good pend h → unlisted a h →
  (a :: (owners x' ++ pend')) ≡ₚ owners (h_installing h) ++ pend →
  manifest_sets x' = delete a (manifest_sets (h_installing h)) → file_system x' = file_system (h_installing h) →
  install_paths x' = install_paths (h_installing h) → registry_held x' = r → staging_locks x' = t →
  (∀ id w, scanned x' !! id = Some w ∨ installed x' !! id = Some w → plain (owner_path w)) →
  good pend' (h <| h_installing := x' |>).
Proof.
  intros [G1 G2 G3 G4 G5 G6 G7 G8] Hu Ho E1 E2 E3 E4 E5 Hw. split; simpl; rewrite ?E1, ?E2, ?E3; try done.
  - intros id r' Hid. destruct (G1 id r' Hid) as (m & Hm & Hi). exists m. split; [|done]. destruct r' as [m0|a' i]; [done|]. simpl in *.
    rewrite E1, lookup_delete_ne; [done|]. intros <-. by apply Hu in Hid.
  - rewrite <-Ho in G2. rewrite dom_delete_L. by apply elements_remove in G2 as [_ G2].
  - intros a' ms m [_ Ha]%lookup_delete_Some. by eapply G3.
Qed.
Lemma good_delete_pending pend h a :
  good (a :: pend) h → unlisted a h →
  good pend (h <| h_installing := h_installing h <| manifest_sets := delete a (manifest_sets (h_installing h)) |> |>).
Proof.
  intros Hg Hu. eapply (delete_set _ _ _ _ _ Hg Hu); try done; try apply Hg. simpl. by rewrite Permutation_middle.
Qed.
Lemma good_erase_scanned pend h id w :
  good pend h → scanned (h_installing h) !! id = Some w → unlisted (owned w) h →
  good pend (h <| h_installing := h_installing h <| manifest_sets := delete (owned w) (manifest_sets (h_installing h)) |>
                                                 <| scanned := delete id (scanned (h_installing h)) |> |>).
Proof.
  intros Hg Hw Hu. eapply (delete_set _ _ _ _ _ Hg Hu); try done; try apply Hg; simpl.
  - unfold owners. simpl. by rewrite <-(owners_delete _ _ _ Hw).
  - intros id' w' [[_ Hs]%lookup_delete_Some|Hi]; eapply (good_owners _ _ _ _ Hg); eauto.
Qed.
Lemma good_erase_installed pend h id w :
  good pend h → installed (h_installing h) !! id = Some w → unlisted (owned w) h →
  good pend (h <| h_installing := h_installing h <| manifest_sets := delete (owned w) (manifest_sets (h_installing h)) |>
                                                 <| installed := delete id (installed (h_installing h)) |> |>).
Proof.
  intros Hg Hw Hu. eapply (delete_set _ _ _ _ _ Hg Hu); try done; try apply Hg; simpl.
  - unfold owners. simpl. rewrite <-(owners_delete _ _ _ Hw). solve_Permutation.
  - intros id' w' [Hs|[_ Hi]%lookup_delete_Some]; eapply (good_owners _ _ _ _ Hg); eauto.
Qed.

(** A set gets an owner in a registry. *)
Lemma good_publish pend h a x' :
  good (a :: pend) h → owners x' ≡ₚ a :: owners (h_installing h) →
  manifest_sets x' = manifest_sets (h_installing h) → file_system x' = file_system (h_installing h) →
  install_paths x' = install_paths (h_installing h) → registry_held x' = r → staging_locks x' = t →
  (∀ id w, scanned x' !! id = Some w ∨ installed x' !! id = Some w → plain (owner_path w)) →
  good pend (h <| h_installing := x' |>).
Proof.
  intros [G1 G2 G3 G4 G5 G6 G7 G8] Ho E1 E2 E3 E4 E5 Hw. split; simpl; rewrite ?E1, ?E2, ?E3; try done.
  - intros id r' Hid. destruct (G1 id r' Hid) as (m & Hm & Hi). exists m. split; [|done]. destruct r'; [done|]. simpl in *. by rewrite E1.
  - rewrite <-G2, Ho. simpl. by rewrite Permutation_middle.
Qed.
Lemma good_publish_scanned pend h id w :
  good (owned w :: pend) h → scanned (h_installing h) !! id = None → plain (owner_path w) →
  good pend (h <| h_installing := h_installing h <| scanned := <[id := w]> (scanned (h_installing h)) |> |>).
Proof.
  intros Hg Hn Hp. eapply (good_publish _ _ (owned w)); [exact Hg|..]; try done; try apply Hg; simpl.
  - unfold owners. simpl. by rewrite owners_insert.
  - intros id' w'. destruct (decide (id' = id)) as [->|]; [rewrite lookup_insert_eq|rewrite lookup_insert_ne by done; by eapply (good_owners _ _ _ _ Hg)].
    intros [[= <-]|Hi]; [done|eapply (good_owners _ _ _ _ Hg); by right].
Qed.
Lemma good_publish_installed pend h id w :
  good (owned w :: pend) h → installed (h_installing h) !! id = None → plain (owner_path w) →
  good pend (h <| h_installing := h_installing h <| installed := <[id := w]> (installed (h_installing h)) |> |>).
Proof.
  intros Hg Hn Hp. eapply (good_publish _ _ (owned w)); [exact Hg|..]; try done; try apply Hg; simpl.
  - unfold owners. simpl. by rewrite owners_insert, <-Permutation_middle.
  - intros id' w'. destruct (decide (id' = id)) as [->|]; [rewrite lookup_insert_eq|rewrite lookup_insert_ne by done; by eapply (good_owners _ _ _ _ Hg)].
    intros [Hs|[= <-]]; [eapply (good_owners _ _ _ _ Hg); by left|done].
Qed.
End good.

(** Locks. *)
Lemma good_locks r t r' t' pend h : good r t pend h → good r' t' pend (h <| h_installing := h_installing h <| registry_held := r' |> <| staging_locks := t' |> |>).
Proof. by intros [G1 G2 G3 G4 G5 G6 G7 G8]. Qed.
