(* ===== verification/PackageScan.v ===== *)
(** The operations of the ledger and of scanned packages keep what is registered
    well-formed: no manifest is freed that the ledger still has, and no set is lost. *)

From S2P Require Import Prelude Text EventGroups AppEvents Apps Streams AppEnv Tasks Files FilesSpecs Resources Manifests AppLedger Scheduler AppsOk SchedulerInv SchedulerSections SchedulerSafety Packages Install PackageInv.

(** Without the manifests with these ids. *)
Definition without (ids : list text) (h : holding) : holding := h <| h_manifests := foldl (λ m id, delete id m) (h_manifests h) ids |>.

Lemma without_lookup ids h id : h_manifests (without ids h) !! id = if decide (id ∈ ids) then None else h_manifests h !! id.
Proof.
  unfold without. simpl. generalize (h_manifests h). induction ids as [|i ids IH]; intros m; simpl; [done|]. rewrite IH.
  destruct (decide (id ∈ ids)) as [Hin|Hin]; [by rewrite decide_True by by right|].
  destruct (decide (id = i)) as [->|Hne]; [by rewrite decide_True, lookup_delete_eq by by left|].
  rewrite lookup_delete_ne by done. rewrite decide_False; [done|]. by intros [?|?]%elem_of_cons.
Qed.
Lemma without_subseteq ids h : h_manifests (without ids h) ⊆ h_manifests h.
Proof. apply map_subseteq_spec. intros id r. rewrite without_lookup. by case_decide. Qed.
Lemma good_without r t pend ids h : good r t pend h → good r t pend (without ids h).
Proof. intros Hg. apply good_unregister; [done|]. apply (without_subseteq ids h). Qed.
Lemma unlisted_without a ids h : unlisted a h → unlisted a (without ids h).
Proof. intros Hu id i. rewrite without_lookup. case_decide; [done|apply Hu]. Qed.

Section scan.
Context `{FreeRtosEventGroup} `{OtherFilesLaws} `{ResourcePlatform}.
Variable esp : bool.
Variable default_ignored : list Z.
Variables live_groups live_streams : gset Z.
Variable size_max : Z.
Variable platform : text.
Implicit Types (s : ledger) (h : holding) (a : Z) (id : text) (w : PackageOwner) (pend : list Z).
Abbreviation does := (does esp live_groups live_streams).

Section op.
Variables (r : bool) (t : gmap text StagingLock).
Abbreviation good := (good r t).

(** * The ledger *)

Lemma section_remove id h : section (app_manager_remove id) (λ _ h', h' = without [id] h) h.
Proof.
  unfold app_manager_remove. apply section_bind, section_gets. intros s Hs. destruct (manifests s !! id) as [m|] eqn:E; cbn [is_some].
  - apply section_bind, section_manifests, section_ret. done.
  - apply section_ret. subst h. unfold without, stored. simpl. by rewrite delete_id.
Qed.
Lemma does_remove id pend h : good pend h → does (locked (app_manager_remove id)) (λ _ h', h' = without [id] h) h.
Proof. intros Hg. apply does_locked. eapply section_mono; [apply section_remove|]. intros e h' ->. split; [apply (good_without _ _ _ _ _ Hg)|done]. Qed.
Lemma does_remove_all ids pend h : good pend h → does (remove_all ids) (λ _ h', h' = without ids h) h.
Proof.
  revert h. induction ids as [|id ids IH]; intros h Hg; [by apply does_ret; destruct h|]. unfold remove_all. cbn [for_each]. apply does_bind, does_bind.
  eapply does_mono; [by eapply does_remove|]. intros e h' ->. apply does_ret. eapply does_mono; [apply IH; by apply good_without|]. by intros u h' ->.
Qed.

Lemma does_remove_package id pend h :
  good pend h → does (locked (app_manager_remove_package id)) (λ _ h', h' = h <| h_packages := delete id (h_packages h) |>) h.
Proof.
  intros Hg. apply does_locked. unfold app_manager_remove_package. apply section_bind, section_gets. intros s <-. destruct (packages s !! id) eqn:E; cbn [is_some].
  - apply section_bind, section_packages, section_ret. split; [apply (good_packages _ _ _ _ _ Hg)|done].
  - apply section_ret. split; [apply Hg|]. simpl. rewrite delete_id by done. done.
Qed.
Lemma does_add_package p ids pend h :
  good pend h → does (locked (app_manager_add_package p ids)) (λ e h',
    if e =? ERROR_NONE then h' = h <| h_packages := <[package_id p := {| package := p; app_ids := ids |}]> (h_packages h) |>
    else h' = h ∧ is_Some (h_packages h !! package_id p)) h.
Proof.
  intros Hg. apply does_locked. unfold app_manager_add_package. apply section_bind, section_gets. intros s <-.
  destruct (packages s !! package_id p) as [x|] eqn:E; cbn [is_some].
  - apply section_ret. split; [apply Hg|]. split; [done|by exists x].
  - apply section_bind, section_packages, section_ret. split; [apply (good_packages _ _ _ _ _ Hg)|done].
Qed.

Lemma does_set_at a pend h ms : good pend h → manifest_sets (h_installing h) !! a = Some ms → does (locked (set_at a)) (λ l h', l = ms ∧ h' = h) h.
Proof. intros Hg Ha. apply does_locked. eapply section_deref; [by intros s <-|]. split; [apply Hg|done]. Qed.

(** Reading the registries. *)
Lemma does_gets {A} (f : installs → A) pend h : good pend h → does (locked (gets (λ s, f (installing s)))) (λ v h', v = f (h_installing h) ∧ h' = h) h.
Proof. intros Hg. apply does_locked. apply section_gets. intros s <-. split; [apply Hg|done]. Qed.

(** Operations on files that keep them well-formed. *)
Lemma does_files_here {A} (m : M Files.files A) (P : A → Files.files → Prop) pend h :
  good pend h → wp m (λ v fs', files_ok fs' ∧ P v fs') (file_system (h_installing h)) →
  does (locked (on_files m)) (λ v h', ∃ fs, h' = h <| h_installing := h_installing h <| file_system := fs |> |> ∧ files_ok fs ∧ P v fs) h.
Proof.
  intros Hg Hm. apply does_locked, section_files. eapply wp_mono; [exact Hm|]. intros a fs [Hok HP].
  split; [by apply (good_file_system _ _ _ _ fs Hg)|by exists fs].
Qed.
Lemma does_files {A} (m : M Files.files A) (P : A → Files.files → Prop) pend h :
  good pend h → (∀ fs, files_ok fs → wp m (λ v fs', files_ok fs' ∧ P v fs') fs) →
  does (locked (on_files m)) (λ v h', ∃ fs, h' = h <| h_installing := h_installing h <| file_system := fs |> |> ∧ files_ok fs ∧ P v fs) h.
Proof. intros Hg Hm. eapply does_files_here; [done|]. apply Hm, Hg. Qed.

(** * Adding a set *)

(** Only manifests of the set [a] are added or removed. *)
Definition concerns a h h' : Prop :=
  h_installing h' = h_installing h ∧ ∀ a', a' ≠ a → unlisted a' h → unlisted a' h'.
(** The manifests of the set that are in the ledger are among the first [n]. *)
Definition listed_below a n h : Prop := ∀ id i, h_manifests h !! id = Some (InSet a i) → (i < n)%nat.
(** Those from [i] to [n] are in the ledger. *)
Definition listed_between a i n (ms : list AppManifest) h : Prop :=
  ∀ j m, (i ≤ j < n)%nat → ms !! j = Some m → h_manifests h !! manifest_id m = Some (InSet a j).

Lemma concerns_refl a h : concerns a h h.
Proof. by split. Qed.
Lemma concerns_trans a h1 h2 h3 : concerns a h1 h2 → concerns a h2 h3 → concerns a h1 h3.
Proof. intros [E1 H1'] [E2 H2']. split; [congruence|]. auto. Qed.
Lemma concerns_without a ids h : concerns a h (without ids h).
Proof. split; [done|]. intros a' _. apply unlisted_without. Qed.
Lemma concerns_insert a h id i : concerns a h (h <| h_manifests := <[id := InSet a i]> (h_manifests h) |>).
Proof.
  split; [done|]. intros a' Ha Hu id' j. simpl. destruct (decide (id' = id)) as [->|]; [rewrite lookup_insert_eq; congruence|].
  rewrite lookup_insert_ne by done. apply Hu.
Qed.

Lemma does_add a i m ms pend h :
  good pend h → manifest_sets (h_installing h) !! a = Some ms → ms !! i = Some m →
  does (locked (app_manager_add (InSet a i))) (λ e h', good pend h' ∧
    if e =? ERROR_NONE then
      h_manifests h !! manifest_id m = None ∧ h' = h <| h_manifests := <[manifest_id m := InSet a i]> (h_manifests h) |>
    else h' = h ∧ is_Some (h_manifests h !! manifest_id m)) h.
Proof.
  intros Hg Ha Hi. apply does_locked. unfold app_manager_add, manifest_at. apply section_bind. eapply section_deref.
  { intros s <-. simpl in *. by rewrite Ha. }
  apply section_bind, section_gets. intros s <-. destruct (manifests s !! manifest_id m) as [x|] eqn:E; cbn [is_some].
  - apply section_ret. split; [apply Hg|]. split; [exact Hg|]. split; [done|by exists x].
  - apply section_bind, section_manifests, section_ret.
    assert (good pend (stored s <| h_manifests := <[manifest_id m := InSet a i]> (h_manifests (stored s)) |>)) as Hg'.
    { eapply (good_register _ _ _ _ _ _ m); [done| |done]. simpl in *. by rewrite Ha. }
    split; [apply Hg'|]. split; [exact Hg'|done].
Qed.

Lemma does_add_manifests a i n ms pend h :
  good pend h → manifest_sets (h_installing h) !! a = Some ms → (i + n)%nat = length ms → listed_below a i h → listed_between a 0 i ms h →
  does (add_manifests a i n) (λ k h', good pend h' ∧ concerns a h h' ∧ (k ≤ length ms)%nat ∧ listed_below a k h' ∧ listed_between a 0 k ms h') h.
Proof.
  revert i h. induction n as [|n IH]; intros i h Hg Ha Hn Hb Hl; cbn [add_manifests].
  { apply does_ret. split_and!; [done|apply concerns_refl|lia|done|done]. }
  destruct (lookup_lt_is_Some_2 ms i) as [m Hm]; [lia|]. apply does_bind. eapply does_mono; [by eapply does_add|]. cbn beta.
  intros e h' [Hg' He]. destruct (e =? ERROR_NONE); cbn [negb].
  - destruct He as [Hnone ->]. eapply does_mono; [apply IH; [done|done|lia|..]|].
    + intros id j. simpl. destruct (decide (id = manifest_id m)) as [->|]; [rewrite lookup_insert_eq; intros [= <-]; lia|].
      rewrite lookup_insert_ne by done. intros Hj%Hb. lia.
    + intros j m' Hj Hm'. simpl. destruct (decide (j = i)) as [->|].
      * rewrite Hm in Hm'. injection Hm' as ->. apply lookup_insert_eq.
      * rewrite lookup_insert_ne; [apply Hl; [lia|done]|]. intros E. pose proof (Hl j m' ltac:(lia) Hm') as Hx. congruence.
    + cbn beta. intros k h' (Hg2 & Hc & Hk & Hb2 & Hl2). split_and!; try done. eapply concerns_trans; [|exact Hc]. apply concerns_insert.
  - destruct He as [-> _]. apply does_ret. split_and!; [done|apply concerns_refl|lia|done|done].
Qed.

(** Without the manifests that were added nothing of the set is in the ledger. *)
Lemma unlisted_prefix a k ms pend h :
  good pend h → manifest_sets (h_installing h) !! a = Some ms → listed_below a k h → unlisted a (without (manifest_id <$> take k ms) h).
Proof.
  intros Hg Ha Hb id i. rewrite without_lookup. case_decide as Hin; [done|]. intros Hid. apply Hin.
  destruct (good_manifests _ _ _ _ Hg _ _ Hid) as (m & Hm & <-). simpl in Hm. rewrite Ha in Hm. simpl in Hm. apply list_elem_of_fmap.
  exists m. split; [done|]. apply list_elem_of_lookup. exists i. rewrite lookup_take_Some. split; [done|]. by eapply Hb.
Qed.

(** All of the set is in the ledger. *)
Definition all_listed a ms h : Prop := listed_between a 0 (length ms) ms h.

Lemma does_register_new p ms pend h :
  good pend h → manifest_sets (h_installing h) !! new_set p = Some ms → new_count p = length ms → unlisted (new_set p) h →
  does (register_new p) (λ added h', good pend h' ∧ concerns (new_set p) h h' ∧ if added : bool then all_listed (new_set p) ms h' else unlisted (new_set p) h') h.
Proof.
  intros Hg Ha Hn Hu. unfold register_new. set (a := new_set p) in *. apply does_bind.
  eapply does_mono; [apply (does_add_manifests a 0 _ ms); [done|done|lia| |]|].
  { intros id i Hid. by apply Hu in Hid. }
  { intros j m Hj. lia. }
  cbn beta. intros k h1 (Hg1 & Hc1 & Hk & Hb & Hl). assert (manifest_sets (h_installing h1) !! a = Some ms) as Ha1 by by rewrite (proj1 Hc1).
  apply does_bind. eapply does_mono; [by eapply does_set_at|]. cbn beta. intros l h' [-> ->].
  rewrite Hn. destruct (Nat.eqb_spec k (length ms)) as [->|Hne]; cbn [negb].
  - apply does_bind. eapply does_mono; [by eapply does_add_package|]. cbn beta. intros e h2 He. destruct (e =? ERROR_NONE); cbn [negb].
    + subst h2. apply does_ret. split; [by apply good_packages|]. split; [exact Hc1|done].
    + destruct He as [-> _]. apply does_bind. eapply does_mono; [by eapply does_remove_all|]. intros u h2 ->. apply does_ret. split; [by apply good_without|].
      split; [eapply concerns_trans; [exact Hc1|apply concerns_without]|].
      pose proof (unlisted_prefix a (length ms) ms pend h1 Hg1 Ha1 Hb) as Hu2. by rewrite firstn_all in Hu2.
  - apply does_bind. eapply does_mono; [by eapply does_remove_all|]. intros u h2 ->. apply does_ret. split; [by apply good_without|].
    split; [eapply concerns_trans; [exact Hc1|apply concerns_without]|by eapply unlisted_prefix].
Qed.

(** * Scanning *)

Definition new_id (p : NewPackage) : text := package_id (new_package p).
(** The set of a parsed package is in memory, and none of it in the ledger. *)
Definition new_ok h (p : NewPackage) : Prop :=
  plain (new_path p) ∧ ∃ ms, manifest_sets (h_installing h) !! new_set p = Some ms ∧ new_count p = length ms.

Lemma does_register_all ids l pend h :
  good pend h → Forall (new_ok h) l → NoDup (new_set <$> l) → (∀ p, p ∈ l → unlisted (new_set p) h) →
  does (register_all ids l) (λ x h', good pend h' ∧ h_installing h' = h_installing h ∧ x.1 ++ x.2 ≡ₚ l ∧
    NoDup (new_id <$> x.1) ∧ (∀ p, p ∈ x.1 → new_id p ∉ ids) ∧ (∀ p, p ∈ x.2 → unlisted (new_set p) h') ∧
    (∀ a, a ∉ new_set <$> l → unlisted a h → unlisted a h')) h.
Proof.
  revert ids h. induction l as [|p l IH]; intros ids h Hg Hok Hnd Hu; cbn [register_all].
  { apply does_ret. split_and!; try done; [constructor|by intros p ?%not_elem_of_nil..]. }
  apply Forall_cons in Hok as [(Hpl & ms & Hms & Hlen) Hok]. apply NoDup_cons in Hnd as [Hp Hnd]. apply does_bind.
  assert (does (if decide (package_id (new_package p) ∈ ids) then mret false else register_new p)
    (λ added h', good pend h' ∧ concerns (new_set p) h h' ∧
      if added : bool then new_id p ∉ ids else unlisted (new_set p) h') h) as Hreg.
  { case_decide as Hin; [apply does_ret; split_and!; [done|apply concerns_refl|apply Hu; by left]|].
    eapply does_mono; [apply (does_register_new p ms); [done..|apply Hu; by left]|]. cbn beta. intros [|] h' (H1' & H2' & H3'); done. }
  eapply does_mono; [exact Hreg|]. cbn beta. intros added h1 (Hg1 & [Ei Hc] & Ha). apply does_bind.
  eapply does_mono; [apply IH; [done| |done|]|].
  { eapply Forall_impl; [exact Hok|]. intros q (Hq1 & msq & Hq). split; [done|]. exists msq. by rewrite Ei. }
  { intros q Hq. apply Hc; [|apply Hu; by right]. intros E. apply Hp. rewrite <-E. apply list_elem_of_fmap. by exists q. }
  cbn beta. intros [xs ys] h2 (Hg2 & Ei2 & Hperm & Hnd2 & Hids & Hys & Hother). simpl in *. apply does_ret.
  assert (∀ a, a ∉ new_set <$> p :: l → unlisted a h → unlisted a h2) as Hrest.
  { intros a Hna Hua. apply not_elem_of_cons in Hna as [Hna1 Hna2]. apply Hother; [done|]. by apply Hc. }
  destruct added; split_and!; simpl; try done; try congruence.
  - by rewrite Hperm.
  - apply NoDup_cons. split; [|done]. intros (q & E & Hq)%list_elem_of_fmap. apply (Hids q Hq). apply elem_of_app. right. apply list_elem_of_singleton. by rewrite <-E.
  - intros q [->|Hq]%elem_of_cons; [done|]. intros Hin. apply (Hids q Hq). apply elem_of_app. by left.
  - by rewrite <-Permutation_middle, Hperm.
  - intros q [->|Hq]%elem_of_cons; [by apply Hother|by apply Hys].
Qed.

Lemma section_drop_owner w pend h :
  good pend h → is_Some (manifest_sets (h_installing h) !! owned w) →
  section (drop_owner (Some w)) (λ _ h', h' = h <| h_installing := h_installing h <| manifest_sets := delete (owned w) (manifest_sets (h_installing h)) |> |>) h.
Proof. intros Hg [ms Hms]. unfold drop_owner, delete_manifest_set, set_at. apply section_bind. eapply section_deref; [by intros s <-|]. by apply section_upd. Qed.

(** Everything but the registry of scanned packages and the sets. *)
Definition scanned_only h h' : Prop :=
  h_manifests h' = h_manifests h ∧ h_packages h' = h_packages h ∧ installed (h_installing h') = installed (h_installing h) ∧
  file_system (h_installing h') = file_system (h_installing h) ∧ install_paths (h_installing h') = install_paths (h_installing h).
#[local] Instance scanned_only_preorder : PreOrder scanned_only.
Proof. split; [by intros h|]. unfold scanned_only. intros h1 h2 h3 H1' H2'. intuition congruence. Qed.

Lemma section_erase_scanned id pend h :
  good pend h → (∀ w, scanned (h_installing h) !! id = Some w → unlisted (owned w) h) →
  section (erase_scanned id) (λ _ h', good pend h' ∧ scanned_only h h' ∧ scanned (h_installing h') = delete id (scanned (h_installing h))) h.
Proof.
  intros Hg Hu. unfold erase_scanned. apply section_bind, section_gets. intros s <-. destruct (scanned (installing s) !! id) as [w|] eqn:E.
  - assert (is_Some (manifest_sets (h_installing (stored s)) !! owned w)) as Hw by (eapply owner_set; [done|by left]).
    apply section_bind. eapply section_mono; [by eapply section_drop_owner|]. cbn beta. intros u h' ->. apply section_upd. split; [|done].
    eapply (good_erase_scanned _ _ _ _ _ _ Hg E). by apply Hu.
  - apply section_bind, section_ret, section_upd. destruct Hg as [G1 G2 G3 G4 G5 G6 G7 G8]. split; [|done]. simpl. rewrite delete_id by done.
    by split.
Qed.
Lemma section_publish_scanned p pend h :
  good (new_set p :: pend) h → scanned (h_installing h) !! new_id p = None → plain (new_path p) →
  section (publish_scanned p) (λ _ h', good pend h' ∧ scanned_only h h' ∧
    scanned (h_installing h') = <[new_id p := {| owner_path := new_path p; owned := new_set p |}]> (scanned (h_installing h))) h.
Proof.
  intros Hg Hn Hp. unfold publish_scanned. apply section_bind, section_gets. intros s <-. simpl in Hn. unfold new_id in Hn. rewrite Hn.
  apply section_bind, section_ret, section_upd. split; [|done].
  by apply (good_publish_scanned r t pend _ (new_id p) {| owner_path := new_path p; owned := new_set p |}).
Qed.

Lemma section_erase_all ids pend h :
  good pend h → (∀ id w, id ∈ ids → scanned (h_installing h) !! id = Some w → unlisted (owned w) h) →
  section (for_list erase_scanned ids) (λ _ h', good pend h' ∧ scanned_only h h' ∧
    ∀ id, scanned (h_installing h') !! id = if decide (id ∈ ids) then None else scanned (h_installing h) !! id) h.
Proof.
  revert h. induction ids as [|i ids IH]; intros h Hg Hu; cbn [for_list]; [by apply section_ret|]. apply section_bind.
  eapply section_mono; [eapply section_erase_scanned; [done|]; intros w; apply Hu; by left|]. cbn beta. intros u h1 (Hg1 & Hs1 & E1).
  eapply section_mono; [apply IH; [done|]|].
  { intros id w Hin. rewrite E1. intros [_ Hw]%lookup_delete_Some. destruct Hs1 as [Em _]. unfold unlisted. rewrite Em. apply (Hu id w); [by right|done]. }
  cbn beta. intros u' h2 (Hg2 & Hs2 & E2). split; [done|]. split; [by etrans|]. intros id. rewrite E2, E1.
  destruct (decide (id ∈ ids)) as [Hin|Hin]; [by rewrite decide_True by by right|]. destruct (decide (id = i)) as [->|Hne].
  - by rewrite decide_True, lookup_delete_eq by by left.
  - rewrite lookup_delete_ne by done. rewrite decide_False; [done|]. by intros [?|?]%elem_of_cons.
Qed.
Lemma section_publish_all l pend h :
  good ((new_set <$> l) ++ pend) h → NoDup (new_id <$> l) → (∀ p, p ∈ l → plain (new_path p) ∧ scanned (h_installing h) !! new_id p = None) →
  section (for_list publish_scanned l) (λ _ h', good pend h' ∧ scanned_only h h') h.
Proof.
  revert h. induction l as [|p l IH]; intros h Hg Hnd Hl; cbn [for_list]; [by apply section_ret|]. apply NoDup_cons in Hnd as [Hp Hnd].
  destruct (Hl p) as [Hpl Hn]; [by left|]. apply section_bind. eapply section_mono; [by apply (section_publish_scanned p ((new_set <$> l) ++ pend))|]. cbn beta.
  intros u h1 (Hg1 & Hs1 & E1). eapply section_mono; [apply IH; [done|done|]|].
  - intros q Hq. destruct (Hl q) as [Hq1 Hq2]; [by right|]. split; [done|]. rewrite E1, lookup_insert_ne; [done|].
    intros E. apply Hp. rewrite E. apply list_elem_of_fmap. by exists q.
  - cbn beta. intros u' h2 [Hg2 Hs2]. split; [done|by etrans].
Qed.

Lemma does_delete_set a pend h :
  good (a :: pend) h → unlisted a h →
  does (locked (delete_manifest_set a)) (λ _ h', good pend h' ∧
    h' = h <| h_installing := h_installing h <| manifest_sets := delete a (manifest_sets (h_installing h)) |> |>) h.
Proof.
  intros Hg Hu. assert (is_Some (manifest_sets (h_installing h) !! a)) as [ms Hms].
  { apply (set_owned _ _ _ _ _ Hg). apply elem_of_app. right. by left. }
  apply does_locked. unfold delete_manifest_set, set_at. apply section_bind. eapply section_deref; [by intros s <-|]. apply section_upd.
  pose proof (good_delete_pending _ _ _ _ _ Hg Hu) as Hg'. split; [apply Hg'|]. by split.
Qed.
Lemma does_delete_rest l pend h :
  good ((new_set <$> l) ++ pend) h → (∀ p, p ∈ l → unlisted (new_set p) h) →
  does (for_each (λ p, locked (delete_manifest_set (new_set p))) l) (λ _ h', good pend h') h.
Proof.
  revert h. induction l as [|p l IH]; intros h Hg Hu; cbn [for_each]; [by apply does_ret|]. apply does_bind.
  eapply does_mono; [apply (does_delete_set _ ((new_set <$> l) ++ pend)); [done|apply Hu; by left]|]. cbn beta. intros u h' [Hg' ->].
  apply IH; [done|]. intros q Hq. apply (Hu q). by right.
Qed.

(** ** What is known, found and missing *)

(** Nothing that the ledger has or the registry, but new sets and other files. *)
Definition same_registry h h' : Prop :=
  h_manifests h' = h_manifests h ∧ h_packages h' = h_packages h ∧ scanned (h_installing h') = scanned (h_installing h) ∧
  installed (h_installing h') = installed (h_installing h).

(** A known package as the registry has it, with the ids of its set. *)
Definition known_ok h (k : KnownPackage) : Prop := ∃ w ms,
  scanned (h_installing h) !! known_id k = Some w ∧ known_path k = owner_path w ∧
  manifest_sets (h_installing h) !! owned w = Some ms ∧ manifest_ids k = manifest_id <$> ms.

Lemma section_snapshot l pend h :
  good pend h → (∀ id w, (id, w) ∈ l → scanned (h_installing h) !! id = Some w) →
  section (snapshot l) (λ ks h', h' = h ∧ Forall (known_ok h) ks ∧ known_id <$> ks = l.*1) h.
Proof.
  intros Hg. induction l as [|[id w] l IH]; intros Hl; cbn [snapshot]; [by apply section_ret|]. assert (scanned (h_installing h) !! id = Some w) as Hw by (apply Hl; by left).
  destruct (owner_set _ _ _ _ _ _ Hg (or_introl Hw)) as [ms Hms].
  apply section_bind. eapply section_deref; [by intros s <-|]. apply section_bind. eapply section_mono; [apply IH; intros id' w' Hin; apply Hl; by right|].
  intros ks h' (-> & Hks & Ei). apply section_ret. split; [done|]. split; [|rewrite !fmap_cons; by f_equal]. constructor; [by exists w, ms|done].
Qed.

(** Operations that only look at the files. *)
Lemma does_look {A} (m : M Files.files A) (P : A → Prop) pend h :
  good pend h → (∀ fs, files_ok fs → wp m (λ v fs', fs' = fs ∧ P v) fs) → does (locked (on_files m)) (λ v h', h' = h ∧ P v) h.
Proof.
  intros Hg Hm. apply does_locked, section_files. eapply wp_mono; [apply Hm, Hg|]. intros v fs [-> HP].
  assert (h <| h_installing := h_installing h <| file_system := file_system (h_installing h) |> |> = h) as -> by by destruct h as [? ? []].
  split; [apply Hg|done].
Qed.
Lemma does_stat {A} (p : text) (f : option node → A) pend h : good pend h → does (locked (on_files (n ← stat p; mret (f n)))) (λ _ h', h' = h) h.
Proof. intros Hg. eapply does_mono; [apply (does_look _ (λ _, True) pend); [done|]|by intros v h' [-> _]]. intros fs _. unfold stat. by apply wp_bind, wp_gets, wp_ret. Qed.
Lemma does_is_directory p pend h : good pend h → does (locked (on_files (app_fs_is_directory p))) (λ _ h', h' = h) h.
Proof. by apply does_stat. Qed.
Lemma does_is_file p pend h : good pend h → does (locked (on_files (app_fs_is_file p))) (λ _ h', h' = h) h.
Proof. by apply does_stat. Qed.
Lemma does_read_file p pend h : good pend h → does (locked (on_files (read_file p))) (λ _ h', h' = h) h.
Proof. by apply does_stat. Qed.
Lemma does_list_subdirectories p pend h :
  good pend h → plain p → does (locked (on_files (app_fs_list_direct_subdirectories p))) (λ l h', h' = h ∧ Forall plain l) h.
Proof. intros Hg Hp. apply (does_look _ (Forall plain) pend); [done|]. intros fs Hfs. by apply list_subdirectories_reads. Qed.

Lemma does_read_package p pend h : good pend h → does (read_package size_max p) (λ _ h', h' = h) h.
Proof.
  intros Hg. unfold read_package. apply does_bind. eapply does_mono; [by eapply does_read_file|]. intros f1 h' ->. apply does_bind.
  eapply does_mono; [by eapply does_read_file|]. intros f2 h' ->. by apply does_ret.
Qed.

Lemma does_new_set dir bs pend h :
  good pend h →
  does (locked (new_manifest_set esp platform dir bs)) (λ a h', good (a :: pend) h' ∧
    a ∉ owners (h_installing h) ++ pend ∧ unlisted a h' ∧
    h' = h <| h_installing := h_installing h <| manifest_sets := <[a := owned_manifest esp platform dir <$> bs]> (manifest_sets (h_installing h)) |> |>) h.
Proof.
  intros Hg. apply does_locked. unfold new_manifest_set. apply section_bind, section_gets. intros s <-.
  set (a := next_free _). assert (manifest_sets (h_installing (stored s)) !! a = None) as Ha by apply not_elem_of_dom, next_free_fresh.
  apply section_bind, section_upd, section_ret.
  assert (good (a :: pend) (stored s <| h_installing := h_installing (stored s) <| manifest_sets := <[a := owned_manifest esp platform dir <$> bs]> (manifest_sets (h_installing (stored s))) |> |>)) as Hg'.
  { apply good_new_set; [done|done|]. apply Forall_forall. by intros m (b & -> & _)%list_elem_of_fmap. }
  split; [apply Hg'|]. split_and!; [exact Hg'| | |done].
  - rewrite (set_owned _ _ _ _ _ Hg), Ha. by intros [].
  - intros id i Hid. destruct (good_manifests _ _ _ _ Hg id _ Hid) as (m & Hm & _). simpl in Hm, Ha. by rewrite Ha in Hm.
Qed.

(** What [parse_found] has collected. *)
Record parsed_ok (ids : list text) pend (h0 : holding) (acc : list NewPackage) h : Prop := {
  parsed_good : good ((new_set <$> acc) ++ pend) h;
  parsed_same : same_registry h0 h;
  parsed_sets : manifest_sets (h_installing h0) ⊆ manifest_sets (h_installing h);
  parsed_new : Forall (new_ok h) acc;
  parsed_unlisted p : p ∈ acc → unlisted (new_set p) h;
  parsed_ids p : p ∈ acc → new_id p ∉ ids;
}.

Lemma does_parse_found known pend h0 acc h dir :
  plain dir → parsed_ok (known_id <$> known) pend h0 acc h →
  does (parse_found esp size_max platform known dir) (λ x h', parsed_ok (known_id <$> known) pend h0 (acc ++ x) h') h.
Proof.
  intros Hd HI. pose proof (parsed_good _ _ _ _ _ HI) as Hg. unfold parse_found.
  assert (∀ (P : list NewPackage → holding → Prop), P [] h → does (mret []) P h) as Hnil by (intros P; apply does_ret).
  assert (parsed_ok (known_id <$> known) pend h0 (acc ++ []) h) as HI0 by by rewrite app_nil_r.
  apply does_bind. eapply does_mono; [by eapply does_is_file|]. intros f h' ->. destruct f; cbn [negb]; [|by apply Hnil].
  apply does_bind. eapply does_mono; [by eapply does_read_package|]. intros [e|[package bs]] h' ->; [by apply Hnil|].
  case_decide as Hk; [by apply Hnil|]. apply does_bind. eapply does_mono; [by eapply does_new_set|]. cbn beta.
  intros a h' (Hg' & Ha & Hu & ->). apply does_ret. destruct HI as [_ I2 I3 I4 I5 I6].
  assert (manifest_sets (h_installing h) !! a = None) as Hnone.
  { apply eq_None_not_Some. intros Hs. by apply Ha, (set_owned _ _ _ _ _ Hg). }
  split.
  - eapply good_permutation; [|exact Hg']. rewrite fmap_app. cbn. solve_Permutation.
  - exact I2.
  - simpl. etrans; [exact I3|]. by apply insert_subseteq.
  - apply Forall_app. split; [eapply Forall_impl; [exact I4|]; intros p (Hp & ms & Hms & Hl)|].
    + split; [done|]. exists ms. split; [|done]. simpl. rewrite lookup_insert_ne; [done|congruence].
    + constructor; [|done]. split; [done|]. simpl. eexists. split; [apply lookup_insert_eq|by rewrite length_fmap].
  - intros p [Hp| ->%list_elem_of_singleton]%elem_of_app; [|done]. intros id i. by apply (I5 p Hp).
  - by intros p [Hp| ->%list_elem_of_singleton]%elem_of_app; [apply I6|].
Qed.

Lemma does_unregister k pend h : good pend h → does (unregister k) (λ _ h', good pend h' ∧ h_installing h' = h_installing h ∧
  (∀ id, id ∈ manifest_ids k → h_manifests h' !! id = None) ∧ h_manifests h' ⊆ h_manifests h) h.
Proof.
  intros Hg. unfold unregister. apply does_bind. eapply does_mono; [by eapply does_remove_all|]. intros u h' ->. apply does_bind.
  eapply does_mono; [eapply does_remove_package; by apply good_without|]. intros e h' ->. apply does_ret.
  split; [by apply good_packages, good_without|]. split; [done|]. split; [|apply (without_subseteq _ h)].
  intros id Hid. change (h_manifests (without (manifest_ids k) h) !! id = None). by rewrite without_lookup, decide_True.
Qed.
Lemma does_unregister_all l pend h :
  good pend h → does (for_each unregister l) (λ _ h', good pend h' ∧ h_installing h' = h_installing h ∧
    (∀ k id, k ∈ l → id ∈ manifest_ids k → h_manifests h' !! id = None) ∧ h_manifests h' ⊆ h_manifests h) h.
Proof.
  revert h. induction l as [|k l IH]; intros h Hg; cbn [for_each].
  { apply does_ret. split_and!; [done..| |done]. by intros k id ?%not_elem_of_nil. }
  apply does_bind. eapply does_mono; [by eapply does_unregister|]. cbn beta. intros u h1 (Hg1 & Ei1 & Hn1 & Hs1).
  eapply does_mono; [by apply IH|]. cbn beta. intros u' h2 (Hg2 & Ei2 & Hn2 & Hs2). split; [done|]. split; [congruence|]. split; [|by etrans].
  intros k' id [->|Hk]%elem_of_cons Hid; [|by eapply Hn2]. eapply lookup_weaken_None; [by apply Hn1|done].
Qed.

Lemma good_NoDup pend h : good pend h → NoDup (owners (h_installing h) ++ pend).
Proof. intros Hg. rewrite (good_sets _ _ _ _ Hg). apply NoDup_elements. Qed.

Lemma find_missing_all known pend h :
  good pend h → does (collect find_missing known) (λ x h', h' = h ∧ x ⊆ known) h.
Proof.
  intros Hg. apply (does_collect _ _ _ (λ acc h', h' = h ∧ acc ⊆ known) _ _ []); [|by split; [|set_solver]].
  intros k acc h' Hk [-> Hacc]. unfold find_missing. apply does_bind. eapply does_mono; [by eapply does_is_directory|].
  intros d h' ->. apply does_ret. split; [done|]. destruct d; set_solver.
Qed.

Lemma does_scan h : good [] h → does (app_manager_install_path_scan esp size_max platform) (λ _ h', good [] h') h.
Proof.
  intros Hg. unfold app_manager_install_path_scan. apply does_bind.
  eapply does_mono; [by eapply (does_gets install_paths)|]. intros paths h' [-> ->]. apply does_bind.
  eapply does_mono.
  { apply (does_collect _ _ _ (λ acc h', h' = h ∧ Forall plain acc) _ _ []); [|by split]. intros root acc h' Hroot [-> Hacc].
    pose proof (good_paths _ _ _ _ Hg) as Hp. rewrite Forall_forall in Hp.
    eapply does_mono; [eapply does_list_subdirectories; [done|by apply Hp]|]. intros l h' [-> Hl]. split; [done|by apply Forall_app]. }
  cbn beta. intros dirs h' [-> Hdirs]. apply does_bind.
  assert (∀ id w, (id, w) ∈ map_to_list (scanned (h_installing h)) → scanned (h_installing h) !! id = Some w) as Hall by (by intros id w ?%elem_of_map_to_list).
  eapply (does_mono _ _ _ _ (λ ks h', h' = h ∧ Forall (known_ok h) ks ∧ known_id <$> ks = (map_to_list (scanned (h_installing h))).*1)).
  { apply does_locked, section_bind, section_gets. intros s <-. eapply section_mono; [by eapply section_snapshot|].
    cbn beta. intros ks h' (-> & HP). split; [apply Hg|done]. }
  cbn beta. intros known h' (-> & Hknown & Hids). apply does_bind.
  eapply does_mono; [apply (does_collect _ _ _ (parsed_ok (known_id <$> known) [] h) _ _ [])|].
  { intros dir acc h' Hdir HI. apply does_parse_found; [|done]. rewrite Forall_forall in Hdirs. by apply Hdirs. }
  { split; [exact Hg|by repeat split|done|done|by intros p ?%not_elem_of_nil|by intros p ?%not_elem_of_nil]. }
  cbn beta. intros new h1 [P1 P2 P3 P4 P5 P6]. rewrite app_nil_r in P1. apply does_bind.
  eapply does_mono; [by eapply find_missing_all|]. cbn beta. intros missing h' [-> Hmissing]. apply does_bind.
  eapply does_mono; [by eapply does_unregister_all|]. cbn beta. intros u h2 (Hg2 & Ei & Hgone & Hsub). apply does_bind.
  assert (NoDup (new_set <$> new)) as Hnd by (apply good_NoDup, NoDup_app in P1 as (_ & _ & ?); done).
  eapply does_mono; [apply does_register_all; [exact Hg2| |done|]|].
  { eapply Forall_impl; [exact P4|]. unfold new_ok. by rewrite Ei. }
  { intros p Hp id i Hid. eapply lookup_weaken in Hid; [|exact Hsub]. by eapply P5. }
  cbn beta. intros [added rest] h3 (Hg3 & Ei3 & Hperm & Hnd3 & _ & Hrest & Hother). cbn [fst snd] in *. apply does_bind.
  (* the sets of missing packages are not referred to *)
  assert (∀ id w, id ∈ known_id <$> missing → scanned (h_installing h3) !! id = Some w → unlisted (owned w) h3) as Hu.
  { intros id w (k & -> & Hk)%list_elem_of_fmap Hw. apply Hother.
    - apply good_NoDup in P1. apply NoDup_app in P1 as (_ & Hd & _). apply Hd. unfold owners. apply elem_of_app. left. rewrite <-Ei, <-Ei3. by eapply owners_lookup.
    - rewrite Forall_forall in Hknown. destruct (Hknown k (Hmissing k Hk)) as (w' & ms & Hw' & _ & Hms & Hmi).
      rewrite Ei3, Ei in Hw. destruct P2 as (_ & _ & Es & _). rewrite Es, Hw' in Hw. injection Hw as <-.
      apply (unlisted_ids r t _ _ _ ms Hg2); [rewrite Ei; by eapply lookup_weaken|]. intros id. rewrite <-Hmi. by apply Hgone. }
  assert (good ((new_set <$> added) ++ (new_set <$> rest)) h3) as Hg3'.
  { eapply good_permutation; [|exact Hg3]. by rewrite <-fmap_app, Hperm. }
  eapply (does_mono _ _ _ _ (λ _ h', good (new_set <$> rest) h' ∧ ∀ a, unlisted a h3 → unlisted a h')).
  - apply does_locked, section_bind.
    assert (section (for_list (λ k, erase_scanned (known_id k)) missing) (λ _ h', good ((new_set <$> added) ++ (new_set <$> rest)) h' ∧ scanned_only h3 h' ∧
      ∀ id, scanned (h_installing h') !! id = if decide (id ∈ known_id <$> missing) then None else scanned (h_installing h3) !! id) h3) as He.
    { assert (for_list (λ k, erase_scanned (known_id k)) missing = for_list erase_scanned (known_id <$> missing)) as -> by (clear; induction missing as [|k l IH]; [done|]; simpl; by rewrite IH).
      by apply section_erase_all. }
    eapply section_mono; [exact He|]. cbn beta. intros u1 h4 (Hg4 & Hs4 & E4).
    eapply section_mono; [apply section_publish_all; [exact Hg4|done|]|].
    + intros p Hp. assert (p ∈ new) as Hpn by (rewrite <-Hperm; apply elem_of_app; by left). rewrite Forall_forall in P4. split; [apply (P4 p Hpn)|].
      rewrite E4. case_decide; [done|]. apply eq_None_not_Some. intros [w Hw]. apply (P6 p Hpn). rewrite Hids. apply list_elem_of_fmap.
      exists (new_id p, w). split; [done|]. apply elem_of_map_to_list. destruct P2 as (_ & _ & <- & _). by rewrite <-Ei, <-Ei3.
    + cbn beta. intros u2 h5 [Hg5 Hs5]. split; [apply Hg5|]. split; [done|]. intros a Ha. unfold unlisted.
      destruct Hs4 as [Em4 _], Hs5 as [Em5 _]. by rewrite Em5, Em4.
  - cbn beta. intros u1 h4 [Hg4 Hu4]. apply does_delete_rest; [by rewrite app_nil_r|]. intros p Hp. by apply Hu4, Hrest.
Qed.

(** * Uninstalling a scanned package *)

Lemma does_set_instances a ms pend h :
  good pend h → manifest_sets (h_installing h) !! a = Some ms →
  does (locked (l ← set_at a; instances_of (manifest_id <$> l))) (λ _ h', h' = h) h.
Proof.
  intros Hg Ha. apply does_locked, section_bind. eapply section_deref; [by intros s <-|]. apply section_gets. intros s <-. split; [apply Hg|done].
Qed.
Lemma does_remove_set a ms l pend h :
  good pend h → manifest_sets (h_installing h) !! a = Some ms → does (remove_set a l) (λ _ h', h' = without (manifest_id <$> l) h) h.
Proof.
  revert h. induction l as [|m l IH]; intros h Hg Ha; [by apply does_ret; destruct h|]. unfold remove_set. cbn [for_each]. apply does_bind, does_bind.
  eapply does_mono; [by eapply does_set_at|]. intros ? h' [_ ->]. apply does_bind.
  eapply does_mono; [by eapply does_remove|]. intros e h' ->. apply does_ret. eapply does_mono; [apply IH; [by apply good_without|done]|]. by intros u h' ->.
Qed.

Lemma unlisted_whole a ms pend h :
  good pend h → manifest_sets (h_installing h) !! a = Some ms → unlisted a (without (manifest_id <$> ms) h).
Proof.
  intros Hg Ha. eapply unlisted_ids; [by apply good_without|exact Ha|]. intros id Hid. by rewrite without_lookup, decide_True.
Qed.

Lemma does_scanned_uninstall self id h :
  good [] h → does (app_manager_install_path_uninstall default_ignored self id) (λ e h', good [] h' ∧
    installed (h_installing h') = installed (h_installing h) ∧ (e = ERROR_NONE → scanned (h_installing h') !! id = None)) h.
Proof.
  intros Hg. unfold app_manager_install_path_uninstall. apply does_bind.
  eapply does_mono; [by eapply (does_gets (λ x, scanned x !! id))|]. intros o h' [-> ->].
  destruct (scanned (h_installing h) !! id) as [w|] eqn:Hw; [|by apply does_ret].
  destruct (owner_set _ _ _ _ _ _ Hg (or_introl Hw)) as [ms Hms]. apply does_bind.
  eapply does_mono; [by eapply does_set_instances|]. intros l h' ->. apply does_bind.
  eapply does_mono; [apply does_stop_instances|]. intros u h' ->. apply does_bind.
  eapply does_mono; [by eapply does_set_at|]. intros l' h' [-> ->]. apply does_bind.
  eapply does_mono; [by eapply does_remove_set|]. intros u' h' ->. set (h1 := without (manifest_id <$> ms) h).
  assert (good [] h1) as Hg1 by by apply good_without. apply does_bind.
  eapply does_mono; [by eapply does_remove_package|]. intros e h' ->. apply does_bind.
  eapply does_mono; [eapply (does_files _ (λ _ _, True)); [by apply good_packages|]|].
  { intros fs Hfs. eapply wp_mono; [by apply ok_delete; [eapply (good_owners _ _ _ _ Hg); left|]|]. done. }
  cbn beta. intros deleted h' (fs & -> & Hfs & _). destruct deleted; cbn [negb].
  - apply does_bind. eapply does_mono.
    + apply does_locked. eapply section_mono; [eapply section_erase_scanned; [apply good_file_system; [by apply good_packages|done]|]|].
      * simpl. rewrite Hw. intros w' [= <-]. eapply unlisted_whole; [exact Hg|exact Hms].
      * cbn beta. intros u2 h2 (Hg2 & Hs2 & E2). split; [apply Hg2|]. exact (conj Hg2 (conj Hs2 E2)).
    + cbn beta. intros u2 h2 (Hg2 & Hs2 & E2). apply does_ret. split; [done|]. split; [apply Hs2|]. intros _. rewrite E2. apply lookup_delete_eq.
  - apply does_ret. split; [|by split]. apply good_file_system; [by apply good_packages|done].
Qed.

Lemma does_path_add p h : plain p → good [] h → does (locked (app_manager_install_path_add p)) (λ _ h', good [] h') h.
Proof.
  intros Hp Hg. apply does_locked. unfold app_manager_install_path_add. apply section_bind, section_upd, section_ret.
  assert (good [] (h <| h_installing := if decide (p ∈ install_paths (h_installing h)) then h_installing h
    else h_installing h <| install_paths := install_paths (h_installing h) ++ [p] |> |>)) as Hg'.
  { case_decide; [by destruct h|]. destruct Hg as [G1 G2 G3 G4 G5 G6 G7 G8]. split; try done. simpl. apply Forall_app. by split; [|constructor]. }
  split; [apply Hg'|exact Hg'].
Qed.
End op.
End scan.
