(* ===== verification/PackageInstall.v ===== *)
(** Installing and uninstalling keep what is registered well-formed, and release what they
    lock; an installation that succeeds has registered the whole package. *)

From S2P Require Import Prelude Text EventGroups AppEvents Apps Streams AppEnv Tasks Files FilesSpecs Resources Manifests ManifestSpecs AppLedger Scheduler AppsOk SchedulerInv SchedulerSections SchedulerSafety Packages Install PackageInv PackageScan.

Section install.
Context `{FreeRtosEventGroup} `{OtherFilesLaws} `{ResourcePlatform}.
Variable esp : bool.
Variable default_ignored : list Z.
Variables live_groups live_streams : gset Z.
Variable size_max : Z.
Variable platform : text.
Variable data_path : option text.
Variable minitar_open : text → option (list minitar_entry).
Implicit Types (s : ledger) (h : holding) (a : Z) (id : text) (w : PackageOwner) (pend : list Z).
Abbreviation does := (does esp live_groups live_streams).

(** The files, and what a file has in it. *)
Abbreviation disk h := (file_system (h_installing h)).
Definition content_at (fs : Files.files) (p : text) : option text :=
  match resolve fs p ≫= node_at fs with Some (File c) => Some c | _ => None end.

Section op.
Variables (r : bool) (t : gmap text StagingLock).
Abbreviation good := (good r t).

(** * Registering *)

Lemma does_find id pend h :
  good pend h → does (locked (app_manager_find_manifest id)) (λ o h', h' = h ∧
    match h_manifests h !! id with None => o = None | Some x => ∃ m, read_manifest (h_installing h) x = Some m ∧ o = Some (m, location_of x) end) h.
Proof.
  intros Hg. apply does_locked. unfold app_manager_find_manifest. apply section_bind, section_gets. intros s <-.
  destruct (manifests s !! id) as [x|] eqn:E; [|apply section_ret; split; [apply Hg|]; simpl; by rewrite E].
  destruct (good_manifests _ _ _ _ Hg id x E) as (m & Hm & _). apply section_bind. eapply section_deref.
  { intros s' Es. change (installing s') with (h_installing (stored s')). by rewrite Es. }
  apply section_ret. split; [apply Hg|]. simpl. rewrite E. split; [done|by exists m].
Qed.

Lemma does_replace a i m ms pend h :
  good pend h → manifest_sets (h_installing h) !! a = Some ms → ms !! i = Some m →
  does (replace_manifest a i (manifest_id m)) (λ e h', good pend h' ∧ h_installing h' = h_installing h ∧ h_packages h' = h_packages h ∧
    h_manifests h' = if e =? ERROR_NONE then <[manifest_id m := InSet a i]> (h_manifests h) else h_manifests h) h.
Proof.
  intros Hg Ha Hi. unfold replace_manifest. apply does_bind. eapply does_mono; [by eapply does_find|]. cbn beta. intros o h' [-> Ho].
  apply does_bind.
  assert (∀ h', h' = h ∨ h' = without [manifest_id m] h → does (locked (app_manager_add (InSet a i))) (λ e h', good pend h' ∧
    h_installing h' = h_installing h ∧ h_packages h' = h_packages h ∧
    h_manifests h' = if e =? ERROR_NONE then <[manifest_id m := InSet a i]> (h_manifests h) else h_manifests h) h') as Hadd.
  { intros h1 Hh1. assert (good pend h1) as Hg1 by (destruct Hh1 as [->| ->]; [done|by apply good_without]).
    eapply does_mono; [eapply (does_add _ _ _ _ _ a i m ms); [exact Hg1| |done]|].
    { by destruct Hh1 as [->| ->]. }
    cbn beta. intros e h2 [Hg2 He]. split; [done|]. destruct (e =? ERROR_NONE) eqn:Ee.
    - destruct He as [_ ->]. destruct Hh1 as [->| ->]; [done|]. split; [done|]. split; [done|]. simpl. by rewrite insert_delete_eq.
    - destruct He as [-> [x Hx]]. destruct Hh1 as [->| ->]; [done|]. rewrite without_lookup, decide_True in Hx by by left. done. }
  destruct (h_manifests h !! manifest_id m) as [x|] eqn:E.
  - destruct Ho as (m' & Hm' & ->). case_decide; [|apply does_ret, Hadd; by left]. apply does_bind. eapply does_mono; [by eapply does_remove|].
    intros e h' ->. apply does_ret, Hadd. by right.
  - subst o. apply does_ret, Hadd. by left.
Qed.

(** Every id of the first [n] is in the ledger with a manifest of the set. *)
Definition ids_listed a n (ms : list AppManifest) h : Prop :=
  ∀ j m, (j < n)%nat → ms !! j = Some m → ∃ j', h_manifests h !! manifest_id m = Some (InSet a j').

Lemma does_register_manifests a i ms pend h :
  good pend h → manifest_sets (h_installing h) !! a = Some ms → (i ≤ length ms)%nat → listed_below a i h → ids_listed a i ms h →
  does (register_manifests a i (manifest_id <$> take i ms) (manifest_id <$> drop i ms)) (λ e h',
    good pend h' ∧ h_installing h' = h_installing h ∧ h_packages h' = h_packages h ∧
    if e =? ERROR_NONE then ids_listed a (length ms) ms h' ∧ (∀ id, id ∉ manifest_id <$> ms → h_manifests h' !! id = h_manifests h !! id)
    else unlisted a h') h.
Proof.
  intros Hg Ha Hi. remember (length ms - i)%nat as n eqn:En. revert i h Hg Ha Hi En. induction n as [|n IH]; intros i h Hg Ha Hi En Hb Hl.
  { rewrite drop_ge by lia. apply does_ret. split_and!; try done. by replace (length ms) with i by lia. }
  destruct (lookup_lt_is_Some_2 ms i) as [m Hm]; [lia|]. rewrite (drop_S _ m i Hm). cbn [fmap list_fmap register_manifests].
  apply does_bind. eapply does_mono; [by eapply does_replace|]. cbn beta. intros e h1 (Hg1 & Ei & Ep & Em). destruct (e =? ERROR_NONE) eqn:He; cbn [negb].
  - assert (manifest_id <$> take (S i) ms = (manifest_id <$> take i ms) ++ [manifest_id m]) as <- by by rewrite (take_S_r _ _ m Hm), fmap_app.
    eapply does_mono; [apply IH; [done|by rewrite Ei|lia|lia|..]|].
    + intros id j. rewrite Em. destruct (decide (id = manifest_id m)) as [->|]; [rewrite lookup_insert_eq; intros [= <-]; lia|].
      rewrite lookup_insert_ne by done. intros Hj%Hb. lia.
    + intros j m' Hj Hm'. rewrite Em. destruct (decide (manifest_id m' = manifest_id m)) as [->|]; [exists i; apply lookup_insert_eq|].
      rewrite lookup_insert_ne by done. apply (Hl j); [|done]. destruct (decide (j = i)) as [->|]; [congruence|lia].
    + cbn beta. intros e2 h2 (Hg2 & Ei2 & Ep2 & H2'). split_and!; [done|congruence..|]. destruct (e2 =? ERROR_NONE); [|done].
      destruct H2' as [Hl2 Hother]. split; [done|]. intros id Hid. rewrite (Hother _ Hid), Em, lookup_insert_ne; [done|].
      intros <-. apply Hid, list_elem_of_fmap. exists m. split; [done|]. by eapply list_elem_of_lookup_2.
  - apply does_bind. eapply does_mono; [by eapply does_remove_all|]. intros u h2 ->. apply does_ret. split; [by apply good_without|].
    split; [done|]. split; [done|]. rewrite He. eapply unlisted_prefix; [done|by rewrite Ei|]. intros id j. rewrite Em. apply Hb.
Qed.

(** What a package that is installed looks like. *)
Definition package_installed (p : PackageManifest) (dir : text) (bs : list AppManifestBinding) h : Prop :=
  ∃ a ms, ms = owned_manifest esp platform dir <$> bs ∧ manifest_sets (h_installing h) !! a = Some ms ∧
    installed (h_installing h) !! package_id p = Some {| owner_path := dir; owned := a |} ∧
    h_packages h !! package_id p = Some {| package := p; app_ids := manifest_id <$> ms |} ∧
    ∀ m, m ∈ ms → ∃ i, h_manifests h !! manifest_id m = Some (InSet a i).

Lemma does_register_installed p dir bs pend h :
  good pend h → plain dir → installed (h_installing h) !! package_id p = None →
  does (register_installed_package_locked esp platform p dir bs) (λ e h', good pend h' ∧
    scanned (h_installing h') = scanned (h_installing h) ∧
    (e = ERROR_NONE → package_installed p dir bs h' ∧ disk h' = disk h ∧
      ∀ id, id ∉ manifest_id ∘ binding_manifest <$> bs → h_manifests h' !! id = h_manifests h !! id)) h.
Proof.
  intros Hg Hdir Hn. unfold register_installed_package_locked. apply does_bind. eapply does_mono; [by eapply does_new_set|]. cbn beta.
  intros a h1 (Hg1 & Ha & Hu & E1). set (ms := owned_manifest esp platform dir <$> bs) in *.
  assert ((λ b, manifest_id (binding_manifest b)) <$> bs = manifest_id <$> ms) as Eids.
  { unfold ms. rewrite <-list_fmap_compose. by apply list_fmap_ext. }
  assert (manifest_sets (h_installing h1) !! a = Some ms) as Ha1 by (subst h1; apply lookup_insert_eq).
  cbv zeta. rewrite Eids. apply does_bind.
  eapply does_mono; [apply (does_register_manifests a 0 ms); [exact Hg1|done|lia|by intros id i ?%Hu|intros j m Hj; lia]|].
  cbn beta. intros e h2 (Hg2 & Ei2 & Ep2 & He). destruct (e =? ERROR_NONE) eqn:Ee; cbn [negb].
  - destruct He as [Hl Hother]. apply does_bind. eapply does_mono; [by eapply does_remove_package|]. intros e2 h3 ->. apply does_bind.
    eapply does_mono; [eapply does_add_package; by apply good_packages|]. cbn beta. intros e3 h4 He3.
    destruct (e3 =? ERROR_NONE) eqn:Ee3; cbn [negb]; [|destruct He3 as [_ [x Hx]]; simpl in Hx; by rewrite lookup_delete_eq in Hx].
    subst h4. set (h4 := _ <| h_packages := _ |>). assert (good (a :: pend) h4) as Hg4 by by apply good_packages, good_packages.
    assert (installed (h_installing h4) !! package_id p = None) as Hn4 by (simpl; rewrite Ei2; by subst h1).
    apply does_bind. eapply (does_mono _ _ _ _ (λ _ h', good pend h' ∧ h' = h4 <| h_installing := h_installing h4 <| installed := <[package_id p := {| owner_path := dir; owned := a |}]> (installed (h_installing h4)) |> |>)).
    + apply does_locked. unfold publish_installed. apply section_bind, section_gets. intros s Es.
      assert (installed (installing s) !! package_id p = None) as -> by (change (installing s) with (h_installing (stored s)); by rewrite Es).
      apply section_bind, section_ret, section_upd.
      assert (good pend (h4 <| h_installing := h_installing h4 <| installed := <[package_id p := {| owner_path := dir; owned := a |}]> (installed (h_installing h4)) |> |>)) as Hg5.
      { apply good_publish_installed; [exact Hg4|done|done]. }
      split; [apply Hg5|]. by split.
    + cbn beta. intros u h5 [Hg5 ->]. apply does_ret. split; [done|]. split; [simpl; rewrite Ei2; by subst h1|]. intros _. split.
      * exists a, ms. split; [done|]. split; [simpl; by rewrite Ei2|]. split; [apply lookup_insert_eq|]. split; [apply lookup_insert_eq|].
        intros m Hm. apply list_elem_of_lookup in Hm as [j Hj]. apply (Hl j m); [|done]. by eapply lookup_lt_Some.
      * split; [simpl; rewrite Ei2; by subst h1|]. intros id Hid. simpl. rewrite Hother; [by subst h1|]. by rewrite <-Eids.
  - apply does_bind. eapply does_mono; [by eapply does_delete_set|]. cbn beta. intros u h3 [Hg3 ->]. apply does_ret. split; [done|].
    split; [simpl; rewrite Ei2; by subst h1|]. intros ->. by rewrite Z.eqb_refl in Ee.
Qed.

(** * Uninstalling *)

Lemma does_uninstall_manifest self a ms m pend h :
  good pend h → manifest_sets (h_installing h) !! a = Some ms → m ∈ ms →
  does (uninstall_manifest default_ignored self a m) (λ _ h', h' = without [manifest_id m] h) h.
Proof.
  intros Hg Ha Hm. unfold uninstall_manifest. apply does_bind. eapply does_mono; [by eapply does_set_at|]. intros l h' [_ ->].
  rewrite decide_True by by eapply (good_located _ _ _ _ Hg). apply does_bind.
  eapply (does_mono _ _ _ _ (λ _ h', h' = h)).
  { unfold stop_all_instances_of. apply does_bind. eapply (does_mono _ _ _ _ (λ _ h', h' = h)); [|intros l' h' ->; apply does_stop_instances].
    apply does_locked, section_gets. intros s <-. split; [apply Hg|done]. }
  intros u h' ->. apply does_bind. eapply does_mono; [by eapply does_set_at|]. intros l' h' [_ ->]. apply does_bind.
  eapply does_mono; [by eapply does_remove|]. intros e h' ->. by apply does_ret.
Qed.
Lemma does_uninstall_manifests self a ms l pend h :
  good pend h → manifest_sets (h_installing h) !! a = Some ms → l ⊆ ms →
  does (for_each (uninstall_manifest default_ignored self a) l) (λ _ h', h' = without (manifest_id <$> l) h) h.
Proof.
  revert h. induction l as [|m l IH]; intros h Hg Ha Hl; cbn [for_each]; [by apply does_ret; destruct h|]. apply does_bind.
  eapply does_mono; [eapply does_uninstall_manifest; [done..|apply Hl; by left]|]. intros u h' ->.
  eapply does_mono; [apply IH; [by apply good_without|done|set_solver]|]. by intros u' h' ->.
Qed.

Lemma section_erase_installed id w pend h :
  good pend h → installed (h_installing h) !! id = Some w → unlisted (owned w) h →
  section (erase_installed id) (λ _ h', good pend h' ∧ h_manifests h' = h_manifests h ∧ scanned (h_installing h') = scanned (h_installing h) ∧
    installed (h_installing h') = delete id (installed (h_installing h)) ∧ disk h' = disk h) h.
Proof.
  intros Hg Hw Hu. unfold erase_installed. apply section_bind, section_gets. intros s <-.
  assert (installed (installing s) !! id = Some w) as -> by done.
  assert (is_Some (manifest_sets (h_installing (stored s)) !! owned w)) as Hset by (eapply owner_set; [done|by right]).
  apply section_bind. eapply section_mono; [by eapply section_drop_owner|]. cbn beta. intros u h' ->. apply section_upd. split; [|done].
  by eapply (good_erase_installed _ _ _ _ _ _ Hg Hw).
Qed.

(** What it returns tells whether the package was installed; afterwards it is not. *)
Lemma does_uninstall_locked self id pend h :
  good pend h →
  does (uninstall_locked default_ignored self id) (λ e h', good pend h' ∧ scanned (h_installing h') = scanned (h_installing h) ∧
    installed (h_installing h') = delete id (installed (h_installing h)) ∧ h_manifests h' ⊆ h_manifests h ∧
    nodes (disk h') ⊆ nodes (disk h)) h.
Proof.
  intros Hg. unfold uninstall_locked. apply does_bind. eapply does_mono; [by eapply (does_gets _ _ _ _ _ (λ x, installed x !! id))|]. intros o h' [-> ->].
  destruct (installed (h_installing h) !! id) as [w|] eqn:Hw; [|apply does_ret; split_and!; [done|done|by rewrite delete_id|done|done]].
  destruct (owner_set _ _ _ _ _ _ Hg (or_intror Hw)) as [ms Hms]. apply does_bind. eapply does_mono; [by eapply does_set_at|]. intros l h' [-> ->].
  apply does_bind. eapply does_mono; [by eapply does_uninstall_manifests|]. intros u h' ->. set (h1 := without (manifest_id <$> ms) h).
  assert (good pend h1) as Hg1 by by apply good_without. apply does_bind.
  eapply does_mono; [by eapply does_remove_package|]. intros e h' ->. apply does_bind.
  eapply does_mono; [eapply (does_files_here _ _ _ _ _ _ (λ _ fs, nodes fs ⊆ nodes (disk h))); [by apply good_packages|]|].
  { eapply delete_subset; [eapply (good_owners _ _ _ _ Hg); by right|apply (good_files _ _ _ _ Hg)]. }
  cbn beta. intros deleted h' (fs & -> & Hfs & Hsub). apply does_bind. eapply does_mono.
  - apply does_locked. eapply section_mono; [eapply section_erase_installed; [apply good_file_system; [by apply good_packages|done]|exact Hw|]|].
    + eapply unlisted_whole; [exact Hg|exact Hms].
    + cbn beta. intros u2 h2 (Hg2 & Em & Es & E2 & Ed). split; [apply Hg2|]. exact (conj Hg2 (conj Em (conj Es (conj E2 Ed)))).
  - cbn beta. intros u2 h2 (Hg2 & Em & Es & E2 & Ed). apply does_ret. split_and!; [done|by rewrite Es|by rewrite E2|rewrite Em; apply (without_subseteq _ h)|by rewrite Ed].
Qed.
End op.

(** * Locks *)

Lemma good_hold r t r' pend h : good r t pend h → good r' t pend (h <| h_installing := h_installing h <| registry_held := r' |> |>).
Proof. by intros [G1 G2 G3 G4 G5 G6 G7 G8]. Qed.
Lemma good_stage r t t' pend h : good r t pend h → good r t' pend (h <| h_installing := h_installing h <| staging_locks := t' |> |>).
Proof. by intros [G1 G2 G3 G4 G5 G6 G7 G8]. Qed.

Lemma does_lock_registry t pend h :
  good false t pend h → does (locked lock_registry) (λ _ h', good true t pend h' ∧ h' = h <| h_installing := h_installing h <| registry_held := true |> |>) h.
Proof.
  intros Hg. apply does_locked. unfold lock_registry. apply section_bind. eapply section_deref.
  { intros s <-. pose proof (good_held _ _ _ _ Hg) as E. simpl in E. by rewrite E. }
  apply section_upd. pose proof (good_hold _ _ true _ _ Hg) as Hg'. split; [apply Hg'|by split].
Qed.
Lemma does_unlock_registry t pend h :
  good true t pend h → does (locked unlock_registry) (λ _ h', good false t pend h' ∧ h' = h <| h_installing := h_installing h <| registry_held := false |> |>) h.
Proof.
  intros Hg. apply does_locked. unfold unlock_registry. apply section_upd. pose proof (good_hold _ _ false _ _ Hg) as Hg'. split; [apply Hg'|by split].
Qed.

(** What the table has while a path is locked. *)
Definition locked_path (p : text) : gmap text StagingLock := {[ p := {| staged := true; lock_refcount := 1 |} ]}.
Lemma does_acquire r p pend h :
  good r ∅ pend h → does (acquire_staging_lock p) (λ _ h', good r (locked_path p) pend h' ∧ h' = h <| h_installing := h_installing h <| staging_locks := locked_path p |> |>) h.
Proof.
  intros Hg. unfold acquire_staging_lock. set (t1 := {[ p := {| staged := false; lock_refcount := 1 |} ]} : gmap text StagingLock).
  apply does_bind. eapply (does_mono _ _ _ _ (λ _ h', h' = h <| h_installing := h_installing h <| staging_locks := t1 |> |>)).
  - apply does_locked. unfold refer_staging_lock. apply section_upd. pose proof (good_stage _ _ t1 _ _ Hg) as Hg'.
    cbv beta. rewrite (good_staging _ _ _ _ Hg).
    assert (∀ f, partial_alter f p (∅ : gmap text StagingLock) = match f None with Some x => {[ p := x ]} | None => ∅ end) as ->.
    { intros f. apply map_eq. intros q. destruct (decide (q = p)) as [->|].
      - rewrite lookup_partial_alter_eq, lookup_empty. destruct (f None); [by rewrite lookup_singleton_eq|by rewrite lookup_empty].
      - rewrite lookup_partial_alter_ne, lookup_empty by done. destruct (f None); [by rewrite lookup_singleton_ne|by rewrite lookup_empty]. }
    split; [apply Hg'|done].
  - intros u h' ->. apply does_locked. unfold lock_staging. apply section_bind.
    eapply section_deref; [intros s Es; change (installing s) with (h_installing (stored s)); rewrite Es; apply lookup_singleton_eq|].
    apply section_bind. eapply section_deref; [done|]. apply section_upd.
    assert (good r (locked_path p) pend (h <| h_installing := h_installing h <| staging_locks := locked_path p |> |>)) as Hg' by by eapply good_stage.
    simpl. unfold t1. rewrite insert_singleton, decide_True by done. split; [apply Hg'|]. by split.
Qed.
Lemma does_release r p pend h :
  good r (locked_path p) pend h → does (locked (release_staging_lock p)) (λ _ h', good r ∅ pend h' ∧ h' = h <| h_installing := h_installing h <| staging_locks := ∅ |> |>) h.
Proof.
  intros Hg. apply does_locked. unfold release_staging_lock. apply section_bind, section_gets. intros s <-.
  pose proof (good_staging _ _ _ _ Hg) as E. simpl in E. rewrite E. unfold locked_path. rewrite lookup_singleton_eq. cbn [lock_refcount].
  apply section_upd. simpl. rewrite E. unfold locked_path. rewrite delete_singleton_eq.
  assert (good r ∅ pend (stored s <| h_installing := installing s <| staging_locks := ∅ |> |>)) as Hg' by by eapply good_stage.
  split; [apply Hg'|by split].
Qed.

(** * Whole operations *)

Lemma plain_cons p name : plain p → plain name → plain (p ++ "/"%char :: name).
Proof. intros Hp Hn. unfold plain. rewrite pieces_app. by apply Forall_app. Qed.
Lemma plain_one name : "/"%char ∉ name → name ≠ $".." → plain name.
Proof. intros Hs Hn. unfold plain. rewrite pieces_one by done. by constructor. Qed.
Lemma plain_id id : app_manifest_id_is_valid id = true → plain id.
Proof.
  unfold app_manifest_id_is_valid, app_package_manifest_validate_string. intros Hv. bsimpl. apply plain_one.
  - intros Hin. match goal with Hf : forallb _ id = true |- _ => rewrite forallb_forall in Hf; by apply list_elem_of_In, Hf in Hin end.
  - intros ->. simpl in *. lia.
Qed.
Lemma last_segment_no_slash p : "/"%char ∉ last_path_segment p.
Proof.
  unfold last_path_segment. destruct (last (pieces "/" p)) as [n|] eqn:E; [|by intros ?%not_elem_of_nil].
  apply last_Some_elem_of in E. pose proof (pieces_notin "/"%char p) as Hp. rewrite Forall_forall in Hp. by apply Hp.
Qed.

Lemma does_read_manifest r t p pend h :
  good r t pend h → does (read_package size_max p) (λ x h', h' = h ∧ x = app_package_manifest_parse_into size_max (content_at (disk h) p) (content_at (disk h) p)) h.
Proof.
  intros Hg. set (content := content_at (disk h) p).
  assert (does (locked (on_files (read_file p))) (λ c h', c = content ∧ h' = h) h) as Hread.
  { apply does_locked, section_files. unfold read_file, stat. apply wp_bind, wp_gets, wp_ret.
    assert (h <| h_installing := h_installing h <| file_system := file_system (h_installing h) |> |> = h) as -> by by destruct h as [? ? []].
    split; [apply Hg|done]. }
  unfold read_package. apply does_bind. eapply does_mono; [exact Hread|]. intros c1 h' [-> ->]. apply does_bind.
  eapply does_mono; [exact Hread|]. intros c2 h' [-> ->]. by apply does_ret.
Qed.

Lemma does_on_files {A} (m : M Files.files A) r t pend h :
  good r t pend h → keeps_ok m → does (locked (on_files m)) (λ _ h', good r t pend h' ∧ ∃ fs, h' = h <| h_installing := h_installing h <| file_system := fs |> |>) h.
Proof.
  intros Hg Hm. eapply does_mono; [eapply (does_files _ _ _ _ _ _ (λ _ _, True)); [exact Hg|]|].
  - intros fs Hfs. eapply wp_mono; [by apply Hm|]. done.
  - cbn beta. intros v h' (fs & -> & Hfs & _). split; [by apply good_file_system|by exists fs].
Qed.

Lemma does_abandon r p e pend h :
  plain p → good r (locked_path p) pend h → does (abandon_staging p e) (λ e' h', good r ∅ pend h' ∧ e' = e) h.
Proof.
  intros Hp Hg. unfold abandon_staging. apply does_bind. eapply does_mono; [eapply does_on_files; [exact Hg|by apply ok_delete]|].
  intros d h1 [Hg1 _]. apply does_bind. eapply does_mono; [by eapply does_release|]. intros u h2 [Hg2 _]. by apply does_ret.
Qed.

(** The directory [dir] has what the directory [from] of [fs] had, but for what was deleted. *)
Definition taken_from (from : text) (fs : Files.files) (dir : text) h : Prop :=
  ∃ q k, resolve fs from = Some q ∧ resolve (disk h) dir = Some k ∧ ∀ l x, nodes (disk h) !! (k ++ l) = Some x → nodes fs !! (q ++ l) = Some x.

Lemma subset_dir fs fs' q : nodes fs' ⊆ nodes fs → is_Some (node_at fs' q) → is_dir fs q = true → is_dir fs' q = true.
Proof.
  intros Hs [x Hx]. unfold is_dir. rewrite !bool_decide_eq_true. unfold node_at in *. case_decide; [done|]. intros Hd.
  eapply lookup_weaken in Hs; [|exact Hx]. congruence.
Qed.

Lemma does_install_package self parent staging p bs h :
  plain parent → plain staging → app_manifest_id_is_valid (package_id p) = true → good false (locked_path staging) [] h →
  (∀ q, resolve (disk h) staging = Some q → is_dir (disk h) q = true) →
  does (install_package esp default_ignored platform self parent staging p bs) (λ e h', good false ∅ [] h' ∧
    (e = ERROR_NONE → package_installed p (parent ++ "/"%char :: package_id p) bs h' ∧
      taken_from staging (disk h) (parent ++ "/"%char :: package_id p) h')) h.
Proof.
  intros Hpar Hst Hid%plain_id Hg Hdir. assert (plain (parent ++ "/"%char :: package_id p)) as Hfinal by by apply plain_cons.
  unfold install_package. apply does_bind. eapply does_mono; [by eapply does_lock_registry|]. intros u h1 [Hg1 E1]. apply does_bind.
  eapply does_mono; [by eapply does_uninstall_locked|]. cbn beta. intros e2 h2 (Hg2 & _ & Ei2 & _ & Ed2). cbv zeta. apply does_bind.
  eapply does_mono; [eapply (does_files_here _ _ _ _ _ _ (λ _ fs, nodes fs ⊆ nodes (disk h2))); [exact Hg2|eapply delete_subset; [done|apply Hg2]]|].
  cbn beta. intros d h3 (fs3 & E3 & Hfs3 & Ed3). assert (good true (locked_path staging) [] h3) as Hg3 by (subst h3; by apply good_file_system).
  assert (nodes (disk h3) ⊆ nodes (disk h)) as Hsub by (subst h3 h1; simpl in *; by etrans). apply does_bind.
  eapply does_mono; [eapply does_files_here; [exact Hg3|by apply rename_moves; [apply Hg3|]]|].
  cbn beta. intros renamed h4 (fs4 & E4 & Hfs4 & Hren). assert (good true (locked_path staging) [] h4) as Hg4 by (subst h4; by apply good_file_system).
  destruct renamed; cbn [negb].
  - destruct (Hren eq_refl) as (q & k & Hq & Hqn & Hk & Hbelow). pose proof (resolve_subset _ _ _ _ Hsub Hq) as Hq0.
    specialize (Hk (subset_dir _ _ _ Hsub Hqn (Hdir _ Hq0))). apply does_bind. eapply does_mono; [by eapply does_release|]. cbn beta. intros u5 h5 [Hg5 E5]. apply does_bind.
    eapply does_mono; [apply (does_register_installed _ _ _ _ _ _ _ Hg5 Hfinal)|].
    { subst h5 h4 h3. simpl. rewrite Ei2. apply lookup_delete_eq. }
    cbn beta. intros e h6 (Hg6 & _ & He). apply does_bind. eapply does_mono; [by eapply does_unlock_registry|]. cbn beta.
    intros u7 h7 [Hg7 ->]. apply does_ret. split; [done|]. intros Hok. destruct (He Hok) as (Hi & Ed & _). split; [exact Hi|].
    assert (disk h6 = fs4) as Ed6 by (rewrite Ed; by subst h5 h4). exists q, k. change (disk (h6 <| h_installing := _ |>)) with (disk h6). rewrite Ed6.
    split; [done|]. split; [done|]. intros l x Hx%Hbelow. by eapply lookup_weaken.
  - apply does_bind. eapply does_mono; [eapply does_abandon; [exact Hst|exact Hg4]|]. cbn beta. intros e h5 [Hg5 ->]. apply does_bind.
    eapply does_mono; [by eapply does_unlock_registry|]. cbn beta. intros u6 h6 [Hg6 _]. by apply does_ret.
Qed.

(** Where a package is installed, and where its archive is extracted before that. *)
Definition package_directory (root : text) (p : PackageManifest) : text := (root ++ $"/app") ++ "/"%char :: package_id p.
Definition staging_directory (root source : text) : text := (root ++ $"/app") ++ "/"%char :: last_path_segment source.

(** The package that was installed is the one of the archive: extracting it on some disk
    succeeded, [p] and [bs] are what the manifest in there says, and the directory of the
    package has what was extracted. *)
Definition installed_from (root source : text) (p : PackageManifest) (bs : list AppManifestBinding) h : Prop :=
  let staging := staging_directory root source in
  ∃ fs fs', untar minitar_open source staging fs = Done (true, fs') ∧
    let content := content_at fs' (staging ++ $"/manifest.properties") in
    app_package_manifest_parse_into size_max content content = inr (p, bs) ∧
    taken_from staging fs' (package_directory root p) h.

Lemma content_directory fs p t c q : p ≠ [] → content_at fs (p ++ "/"%char :: t) = Some c → resolve fs p = Some q → is_dir fs q = true.
Proof.
  intros Hp. unfold content_at. rewrite resolve_child by done. intros Hc Hq. rewrite Hq in Hc. simpl in Hc.
  destruct (walk fs q (pieces "/" t)) as [k|] eqn:Ew; [|done]. eapply walk_dir; [exact Ew|apply pieces_nonempty].
Qed.

Lemma does_install self source h :
  (∀ root, data_path = Some root → plain root) → good false ∅ [] h →
  does (app_install esp default_ignored size_max platform data_path minitar_open self source) (λ e h', good false ∅ [] h' ∧
    (e = ERROR_NONE → ∃ root p bs, data_path = Some root ∧ package_ok p ∧ Forall ManifestSpecs.binding_ok bs ∧
      installed_from root source p bs h' ∧ package_installed p (package_directory root p) bs h')) h.
Proof.
  intros Hroot Hg. unfold app_install, app_install_directory. destruct data_path as [root|] eqn:Ed; [|by apply does_ret]. cbn [mbind option_bind].
  set (parent := root ++ $"/app").
  assert (plain parent) as Hparent by (apply (plain_cons root ($"app")); [by apply Hroot|by apply plain_one; [compute_done|]]).
  apply does_bind. eapply does_mono; [eapply does_on_files; [exact Hg|apply ok_ensure_recursive]|]. cbn beta. intros created h1 [Hg1 _].
  destruct created; cbn [negb]; [|by apply does_ret]. cbv zeta. set (name := last_path_segment source).
  destruct (decide (name = [] ∨ _)) as [Hbad|Hname]; [by apply does_ret|].
  assert (plain (parent ++ "/"%char :: name)) as Hst.
  { apply plain_cons; [done|]. apply plain_one; [apply last_segment_no_slash|]. intros E. apply Hname. auto. }
  change (parent ++ "/"%char :: name) with (staging_directory root source) in *. set (staging := staging_directory root source) in *.
  apply does_bind. eapply does_mono; [by eapply does_acquire|]. cbn beta. intros u h2 [Hg2 _]. apply does_bind.
  eapply does_mono; [eapply does_on_files; [exact Hg2|by apply ok_delete]|]. cbn beta. intros d h3 [Hg3 _]. apply does_bind.
  eapply does_mono; [eapply (does_files_here _ _ _ _ _ _ (λ v fs, untar minitar_open source staging (disk h3) = Done (v, fs))); [exact Hg3|]|].
  { destruct (wp_done _ _ _ (ok_untar minitar_open source staging (disk h3) (good_files _ _ _ _ Hg3))) as (v & fs & E & Hfs).
    unfold wp. by rewrite E. }
  cbn beta. intros extracted h4 (fs' & E4 & Hfs' & Hrun).
  assert (good false (locked_path staging) [] h4) as Hg4 by (subst h4; by apply good_file_system).
  assert (∀ e h', good false (locked_path staging) [] h' → e ≠ ERROR_NONE → does (abandon_staging staging e) (λ e' h'', good false ∅ [] h'' ∧
    (e' = ERROR_NONE → ∃ root' p bs, Some root = Some root' ∧ package_ok p ∧ Forall ManifestSpecs.binding_ok bs ∧
      installed_from root' source p bs h'' ∧ package_installed p (package_directory root' p) bs h'')) h') as Habandon.
  { intros e h' Hg' He. eapply does_mono; [by eapply does_abandon|]. cbn beta. intros e' h'' [Hg'' ->]. by split. }
  destruct extracted; cbn [negb]; [|by apply Habandon]. apply does_bind. eapply does_mono; [by eapply does_is_file|]. cbn beta. intros f h' ->.
  destruct f; cbn [negb]; [|by apply Habandon]. apply does_bind. eapply does_mono; [by eapply does_read_manifest|]. cbn beta.
  intros x h' [-> ->]. set (content := content_at (disk h4) _) in *. destruct (app_package_manifest_parse_into _ content content) as [e|[p bs]] eqn:Ep; [by apply Habandon|].
  pose proof Ep as (Hp & Hbs & _)%parse_into_ok. eapply does_mono; [apply does_install_package; [done|done|apply Hp|exact Hg4|]|].
  { intros q Hq. destruct content as [c|] eqn:Ec; [|done]. eapply (content_directory _ staging ($"manifest.properties")); [|exact Ec|exact Hq].
    unfold staging, staging_directory. by destruct root. }
  cbn beta. intros e h5 [Hg5 He]. split; [done|]. intros Hok. destruct (He Hok) as [Hi Ht]. exists root, p, bs. split; [done|]. split; [done|]. split; [done|].
  split; [|exact Hi]. exists (disk h3), fs'. assert (disk h4 = fs') as Ed4 by by subst h4. unfold content in Ep. rewrite Ed4 in Ep, Ht. done.
Qed.

Lemma does_uninstall self id h :
  good false ∅ [] h → does (app_uninstall default_ignored self id) (λ e h', good false ∅ [] h' ∧
    (e = ERROR_NONE → installed (h_installing h') !! id = None)) h.
Proof.
  intros Hg. unfold app_uninstall. apply does_bind. eapply does_mono; [by eapply does_lock_registry|]. intros u h1 [Hg1 _]. apply does_bind.
  eapply does_mono; [by eapply does_uninstall_locked|]. cbn beta. intros e h2 (Hg2 & _ & E2 & _). apply does_bind.
  eapply does_mono; [by eapply does_unlock_registry|]. cbn beta. intros u3 h3 [Hg3 ->].
  assert (installed (h_installing (h2 <| h_installing := h_installing h2 <| registry_held := false |> |>)) !! id = None) as E3 by (simpl; rewrite E2; apply lookup_delete_eq).
  destruct (Z.eqb_spec e ERROR_NOT_FOUND); [|by apply does_ret]. eapply does_mono; [by apply does_scanned_uninstall|]. cbn beta.
  intros e' h4 (Hg4 & E4 & _). split; [done|]. intros _. by rewrite E4.
Qed.
End install.
