(* ===== verification/PackagesCorrect.v ===== *)
(** What a task that installs, scans, uninstalls and starts packages can rely on while any
    number of other tasks start and stop apps. *)

From S2P Require Import Prelude Text EventGroups AppEvents Apps Streams StreamSpecs AppEnv Tasks Files FilesSpecs Resources Manifests ManifestSpecs AppLedger Scheduler AppsOk SchedulerInv SchedulerSections SchedulerSafety SchedulerCorrect Packages Install PackageInv PackageScan PackageInstall.

Section clients.
Context `{FreeRtosEventGroup} `{OtherFilesLaws} `{ResourcePlatform}.
Variable esp : bool.
Variable default_ignored : list Z.
Variables live_groups live_streams : gset Z.
Variable size_max : Z.
Variable platform : text.
Variable data_path : option text.
Variable minitar_open : text → option (list minitar_entry).
Implicit Types (s : ledger) (h : holding) (g : ghost) (gs : list ghost).
Abbreviation does := (does esp live_groups live_streams).
Abbreviation good := (good false ∅ []).
Abbreviation inv := (inv esp live_groups live_streams false).
Abbreviation safe := (SchedulerSections.safe esp live_groups live_streams false).

(** * The task that manages packages *)

Inductive package_request :=
  | Install (self : Z) (source : text)
  | Uninstall (self : Z) (id : text)
  | UninstallScanned (self : Z) (id : text)
  | AddPath (p : text)
  | Scan
  | AddManifest (m : AppManifest)
  | RemoveManifest (id : text)
  | FindManifest (id : text)
  | StartById (id : text) (argv : list text)
  | Scheduled (r : request).

Definition manage (r : package_request) : proc ledger unit :=
  match r with
  | Install self source => _ ← app_install esp default_ignored size_max platform data_path minitar_open self source; mret tt
  | Uninstall self id => _ ← app_uninstall default_ignored self id; mret tt
  | UninstallScanned self id => _ ← app_manager_install_path_uninstall default_ignored self id; mret tt
  | AddPath p => _ ← locked (app_manager_install_path_add p); mret tt
  | Scan => app_manager_install_path_scan esp size_max platform
  | AddManifest m => _ ← locked (app_manager_add (Static m)); mret tt
  | RemoveManifest id => _ ← locked (app_manager_remove id); mret tt
  | FindManifest id => _ ← locked (app_manager_find_manifest id); mret tt
  | StartById id argv => _ ← app_start esp id argv; mret tt
  | Scheduled r => serve esp default_ignored r
  end.
(** It does these, and then [p]. *)
Definition manager (l : list package_request) (p : proc ledger Z) : proc ledger Z := for_each manage l;; p.

Definition starts (r : package_request) : bool := match r with StartById _ _ => true | Scheduled r => is_launch r | _ => false end.
Definition started (l : list package_request) : nat := length (filter starts l).
(** Paths have no "..". *)
Definition package_request_ok (r : package_request) : Prop :=
  match r with AddPath p => plain p | Scheduled r => request_ok live_groups live_streams r | _ => True end.
Definition data_path_ok : Prop := ∀ root, data_path = Some root → plain root.

(** ** Each request *)

Lemma does_add_static m h : good h → does (locked (app_manager_add (Static m))) (λ _ h', good h') h.
Proof.
  intros Hg. apply does_locked. unfold app_manager_add. apply section_bind. eapply section_deref; [done|]. apply section_bind, section_gets. intros s <-.
  destruct (is_some _); [apply section_ret; split; [apply Hg|done]|]. apply section_bind, section_manifests, section_ret.
  assert (good (stored s <| h_manifests := <[manifest_id m := Static m]> (h_manifests (stored s)) |>)) as Hg' by by eapply good_register.
  split; [apply Hg'|exact Hg'].
Qed.

(** What the task has between requests, and how many instances it may still start. *)
Definition managing (n : nat) g : Prop := ∃ F b h, g = client (Some h) F b ∧ (n ≤ b)%nat ∧ good h.

Lemma safe_does {A} (p : proc ledger A) n g :
  (∀ h, good h → does p (λ _ h', good h') h) → managing n g → safe p g (λ g' _, managing n g').
Proof.
  intros Hp (F & b & h & -> & Hb & Hg). eapply safe_mono; [by apply Hp|]. intros g' a (F' & h' & -> & Hg'). by exists F', b, h'.
Qed.
Lemma safe_request {A} (p : proc ledger A) n g :
  (∀ h, good h → does p (λ _ h', good h') h) → managing n g → safe (_ ← p; mret tt) g (λ g' _, managing n g').
Proof. intros Hp Hg. apply safe_bind. eapply safe_mono; [by apply safe_does|]. by intros g' a Hg'. Qed.
Lemma safe_start_held context n h F b :
  good h → context_ok live_groups live_streams (Some h) context → (S n ≤ b)%nat →
  safe (app_manager_start_internal esp context) (client (Some h) F b) (λ g' _, managing n g').
Proof.
  intros Hg Hc Hb. destruct b as [|b]; [lia|]. eapply safe_mono; [by apply safe_start_internal|]. intros g' [e|i].
  - intros (b' & Hb' & ->). exists F, b', h. split_and!; [done|lia|done].
  - intros ->. eexists _, b, h. split_and!; [done|lia|done].
Qed.

Lemma safe_start_by_id id argv n g : managing (S n) g → safe (app_start esp id argv) g (λ g' _, managing n g').
Proof.
  intros (F & b & h & -> & Hb & Hg). unfold app_start, start_by_id. apply safe_bind.
  assert (does (locked (app_start_context_from_id id)) (λ o h', h' = h ∧ ∀ c, o = Some c → bindings c = None ∧
    match location c with Own _ => True | Borrowed a i => location_live (h_installing h) (Borrowed a i) = true end) h) as Hlook.
  { apply does_locked. unfold app_start_context_from_id. apply section_bind, section_gets. intros s <-.
    destruct (manifests s !! id) as [x|] eqn:E; [|apply section_ret; split; [apply Hg|done]].
    destruct (good_manifests _ _ _ _ Hg id x E) as (m & Hm & _). apply section_bind. eapply section_deref.
    { intros s' Es. change (installing s') with (h_installing (stored s')). by rewrite Es. }
    apply section_ret. split; [apply Hg|]. split; [done|]. intros c [= <-]. split; [done|]. destruct x as [m0|a i]; [done|].
    change (is_some (read_manifest (h_installing (stored s)) (InSet a i)) = true). by rewrite Hm. }
  eapply safe_mono; [apply Hlook|]. intros g' o (F' & h' & -> & -> & Ho). destruct o as [c|]; [|exists F', b, h; split_and!; [done|lia|done]].
  destruct (Ho c eq_refl) as [Hb' Hl]. eapply safe_start_held; [done| |done]. split; cbn; [by rewrite Hb'|].
  destruct (location c); [done|by exists h].
Qed.

Lemma safe_manage r n g :
  data_path_ok → package_request_ok r → managing ((if starts r then 1 else 0) + n) g → safe (manage r) g (λ g' _, managing n g').
Proof.
  intros Hd Hr Hg. destruct r as [self source|self id|self id|p| |m|id|id|id argv|[context|self i]]; cbn [manage starts is_launch serve] in *.
  - apply safe_request; [|done]. intros h Hh. eapply does_mono; [by apply does_install|]. by intros e h' [? _].
  - apply safe_request; [|done]. intros h Hh. eapply does_mono; [by apply does_uninstall|]. by intros e h' [? _].
  - apply safe_request; [|done]. intros h Hh. eapply does_mono; [by apply does_scanned_uninstall|]. by intros e h' [? _].
  - apply safe_request; [|done]. intros h Hh. by apply does_path_add.
  - apply safe_does; [|done]. intros h Hh. by apply does_scan.
  - apply safe_request; [|done]. intros h Hh. by apply does_add_static.
  - apply safe_request; [|done]. intros h Hh. eapply does_mono; [by eapply does_remove|]. intros e h' ->. by apply good_without.
  - apply safe_request; [|done]. intros h Hh. eapply does_mono; [by eapply does_find|]. by intros o h' [-> _].
  - apply safe_bind. eapply safe_mono; [by apply (safe_start_by_id _ _ n)|]. by intros g' e Hg'.
  - apply safe_bind. destruct Hg as (F & b & h & -> & Hb & Hg). eapply safe_mono; [apply (safe_start_held _ n _ _ _ Hg)|by intros g' e Hg'].
    + destruct Hr as [Hbs Hl]. split; [done|]. destruct (location context); [done|]. by destruct Hl as (? & ? & _).
    + lia.
  - apply safe_bind. destruct Hg as (F & b & h & -> & Hb & Hg). eapply safe_mono; [by apply (safe_stop _ _ _ _ false)|].
    intros g' e (F' & -> & _). by exists F', b, h.
Qed.

(** ** All of them *)

(** What the task knows when it has returned. *)
Definition managed (P : Z → holding → Prop) g (a : Z) : Prop := ∃ F b h, g = client (Some h) F b ∧ good h ∧ P a h.

Lemma safe_manager l p P g :
  data_path_ok → Forall package_request_ok l → (∀ h, good h → does p (λ a h', good h' ∧ P a h') h) →
  managing (started l) g → safe (manager l p) g (managed P).
Proof.
  intros Hd Hl Hp Hg. apply safe_bind. revert g Hg. induction Hl as [|r l Hr Hl IH]; intros g Hg; cbn [for_each].
  - destruct Hg as (F & b & h & -> & Hb & Hg). change (safe p (client (Some h) F b) (managed P)). eapply safe_mono; [by apply Hp|].
    intros g' a (F' & h' & -> & Hg' & HP). by exists F', b, h'.
  - apply safe_bind. eapply safe_mono; [apply (safe_manage r (started l)); [done|done|]|intros g' u Hg'; by apply IH].
    destruct Hg as (F & b & h & -> & Hb & Hg). exists F, b, h. split; [done|]. split; [|done]. unfold started in *. rewrite filter_cons in Hb.
    destruct (starts r); simpl in *; lia.
Qed.

Lemma managed_rest P g a : managed P g a → at_rest g.
Proof. intros (F & b & h & -> & _). by exists None, 0%nat, F, b; split; [|left]. Qed.
Lemma managed_stored P g a s gs : inv s gs → g ∈ gs → managed P g a → good (stored s) ∧ P a (stored s).
Proof.
  intros HI (gs1 & gs2 & ->)%list_elem_of_split (F & b & h & -> & Hg & HP).
  apply (inv_permutation _ _ _ _ _ _ _ (Permutation_sym (Permutation_middle gs1 gs2 _))) in HI.
  by rewrite <-(held_stored _ _ _ _ (Some h) _ _ _ _ _ _ _ _ h HI eq_refl).
Qed.

Section reach.
Variables (l : list package_request) (p : proc ledger Z) (P : Z → holding → Prop) (ls : list (list request)) (s : ledger).
Hypothesis Hs : booted live_groups live_streams s.
Hypothesis Hgood : good (stored s).
Hypothesis Hd : data_path_ok.
Hypothesis Hl : Forall package_request_ok l.
Hypothesis Hp : ∀ h, good h → does p (λ a h', good h' ∧ P a h') h.
Hypothesis Hls : Forall (Forall (request_ok live_groups live_streams)) ls.
Hypothesis Hn : 1 + Z.of_nat (started l + sum_list (launches <$> ls)) < 2 ^ 32.

Lemma managed_safe :
  let gs := fresh <$> ((Some (stored s), started l) :: ((λ l, (None, launches l)) <$> ls)) in
  inv s gs ∧ all_safe (SchedulerSections.excused false) inv at_rest (manager l p :: users esp default_ignored ls) gs (managed P :: ((λ _ g _, at_rest g) <$> ls)).
Proof.
  split.
  - apply inv_boot; [done|simpl; by rewrite <-list_fmap_compose|]. right. simpl. f_equal. apply omap_none.
    by intros x (l' & -> & _)%list_elem_of_fmap.
  - cbn [fmap list_fmap]. constructor.
    + apply safe_manager; [done..|]. by exists [], (started l), (stored s).
    + by apply users_safe.
Qed.

Lemma managed_reach ps s' :
  rtc step (manager l p :: users esp default_ignored ls, s) (ps, s') →
  Forall (λ p, crashes s' p ↔ lost_teardown s' p) ps ∧ (∀ a, ps !! 0%nat = Some (Return a) → good (stored s') ∧ P a (stored s')) ∧
  (Forall returned ps → quiescent s').
Proof.
  intros Hsteps. destruct managed_safe as [HI Hall].
  destruct (steps_safe _ _ _ (inv_permutation _ _ _ _) _ _ _ _ _ _ Hsteps HI Hall) as (gs & Qn & HI' & Hall' & Hnew). split; [|split].
  - eapply Forall_impl; [eapply (all_safe_crash _ _ _ (inv_permutation _ _ _ _)); [exact HI'|exact Hall']|].
    intros q Hq. split; [|apply lost_teardown_crashes]. intros Hc. by apply (excused_lost false), Hq.
  - intros a Ha. destruct (all_safe_result _ _ _ _ _ _ _ _ (managed P) Hall' Ha eq_refl) as (g & Hg & Hm). by eapply managed_stored.
  - intros Hret. apply (quiescent_rest esp live_groups live_streams false _ gs); [done|].
    eapply all_safe_returned; [exact Hall'|exact Hret|]. cbn [app]. constructor; [intros g a; apply managed_rest|]. apply Forall_app. split.
    + apply Forall_forall. by intros Q (l' & -> & _)%list_elem_of_fmap.
    + eapply Forall_impl; [exact Hnew|]. by intros Q ->.
Qed.
End reach.

Lemma does_nothing h : good h → does (mret 0) (λ _ h', good h' ∧ True) h.
Proof. intros Hg. by apply does_ret. Qed.



End clients.

(** * A run *)

Module PackagesDemo.
(** An archive of the package with two apps. *)
Definition archive (content : text) : option (list minitar_entry) :=
  if decide (content = $"two") then
    Some [{| entry_path := $"./"; entry_name := $"."; entry_type := MTAR_DIRECTORY; entry_content := [] |};
          {| entry_path := $"manifest.properties"; entry_name := $"manifest.properties"; entry_type := MTAR_REGULAR; entry_content := two_apps |};
          {| entry_path := $"bin/esp32/one.elf"; entry_name := $"one.elf"; entry_type := MTAR_REGULAR; entry_content := $"1" |};
          {| entry_path := $"bin/esp32/other.elf"; entry_name := $"other.elf"; entry_type := MTAR_REGULAR; entry_content := $"2" |}]
  else None.
Definition disk : Files.files := Files (list_to_map [([$"data"], Directory); ([$"sd"], Directory); ([$"sd"; $"two.app"], File ($"two"))]) ∅.
Definition boot : ledger := SchedulerDemo.boot <| installing := Installs ∅ [] ∅ ∅ false ∅ disk |>.

#[local] Existing Instance GroupDemo.rtos.
#[local] Existing Instance StreamDemo.others.
#[local] Existing Instance SchedulerDemo.others_laws.
#[local] Existing Instance SchedulerDemo.platform.

Lemma disk_ok : files_ok disk.
Proof.
  assert (Forall (λ x, x.1 ≠ [] ∧ Forall good_name x.1 ∧ is_dir disk (removelast x.1) = true) (map_to_list (nodes disk))) as Hall.
  { apply (bool_decide_unpack _). by vm_compute. }
  intros q n Hin%elem_of_map_to_list. rewrite Forall_forall in Hall. exact (Hall (q, n) Hin).
Qed.
Lemma packages_booted : booted {[ 7 ]} {[ 50 ]} boot.
Proof. destruct SchedulerDemo.demo_booted as [B1 B2 B3 B4 B5 B6 B7 B8 B9 B10 B11]. by split. Qed.
Lemma boot_good : good false ∅ [] (stored boot).
Proof.
  split; [apply packages_booted|reflexivity|..|exact disk_ok|constructor| |reflexivity|reflexivity].
  - intros a ms m. cbn. by rewrite lookup_empty.
  - intros id w. cbn. rewrite !lookup_empty. by intros [E|E].
Qed.

(** One task installs the package, another starts the app of the scheduler's demo. *)
Definition install := app_install true [] (2 ^ 32 - 1) ($"esp32") (Some ($"/data")) archive 0 ($"/sd/two.app").
Definition lists : list (list request) := [[Launch SchedulerDemo.context]].
Definition asked : list (proc ledger Z) * ledger := (manager true [] (2 ^ 32 - 1) ($"esp32") (Some ($"/data")) archive [] install :: users true [] lists, boot).
Definition installed := advance 200 0 (advance 3 1 (advance 20 0 asked)).

(** One task installs the package, starts its first app and uninstalls it. *)
Definition requests : list package_request :=
  [Install 0 ($"/sd/two.app"); StartById ($"com.example.one") []; FindManifest ($"com.example.other"); Uninstall 0 ($"com.example.two")].
Definition begun : list (proc ledger Z) * ledger :=
  (manager true [] (2 ^ 32 - 1) ($"esp32") (Some ($"/data")) archive requests (mret 0) :: users true [] lists, boot).
Definition managing_done := advance 400 0 (advance 300 2 (advance 400 0 (advance 5 1 begun))).
Lemma asked_installed : rtc step asked installed.
Proof. do 2 (etrans; [|apply advance_steps]). apply advance_steps. Qed.
Lemma begun_done : rtc step begun managing_done.
Proof. do 3 (etrans; [|apply advance_steps]). apply advance_steps. Qed.

(** Another task starts the first app by its id, and has looked it up when the package is
    uninstalled. *)
Definition starter : proc ledger Z := _ ← app_start true ($"com.example.one") []; mret 0.
Definition racing : list (proc ledger Z) * ledger :=
  ([manager true [] (2 ^ 32 - 1) ($"esp32") (Some ($"/data")) archive [Install 0 ($"/sd/two.app"); Uninstall 0 ($"com.example.two")] (mret 0); starter], boot).
Definition looked_up := advance 1 1 (advance 22 0 racing).
Definition uninstalled := advance 10 1 (advance 400 0 looked_up).
Lemma racing_uninstalled : rtc step racing uninstalled.
Proof. do 3 (etrans; [|apply advance_steps]). apply advance_steps. Qed.

(** A scanned package has an app with an id that the installed package has as well. *)
Definition third : text := $"manifest.version=0.3
id=com.example.three
version.name=1.0
version.code=1
target.sdk=1.0.0
app.0.id=com.example.one
app.0.binary=one
app.0.name=One
".
Definition shared_boot : ledger :=
  boot <| installing := Installs ∅ [] ∅ ∅ false ∅ (disk <| nodes := list_to_map [([$"sd"; $"apps"], Directory); ([$"sd"; $"apps"; $"three"], Directory);
    ([$"sd"; $"apps"; $"three"; $"manifest.properties"], File third)] ∪ nodes disk |>) |>.
Definition sharing : list (proc ledger Z) * ledger :=
  ([manager true [] (2 ^ 32 - 1) ($"esp32") (Some ($"/data")) archive
      [AddPath ($"/sd/apps"); Scan; Install 0 ($"/sd/two.app"); UninstallScanned 0 ($"com.example.three")] (mret 0)], shared_boot).
Definition shared := advance 400 0 sharing.
Lemma sharing_shared : rtc step sharing shared.
Proof. apply advance_steps. Qed.
End PackagesDemo.

Import PackagesDemo.
#[local] Existing Instance GroupDemo.rtos.
#[local] Existing Instance StreamDemo.others.
#[local] Existing Instance SchedulerDemo.others_laws.
#[local] Existing Instance SchedulerDemo.platform.




(** * What may go wrong *)

(** A task that is not the one that manages packages looks an app up by its id and has the
    pointer of its path; the package is uninstalled; the task goes on and reads what was
    freed. *)
Theorem start_by_id_races_with_uninstall :
  ∃ ps s, rtc step racing (ps, s) ∧ ps !! 0%nat = Some (Return 0) ∧ ∃ p, ps !! 1%nat = Some p ∧ crashes s p.
Proof.
  exists uninstalled.1, uninstalled.2. split; [rewrite <-surjective_pairing; exact racing_uninstalled|].
  split; [by vm_compute|]. apply crashed_crashes. by vm_compute.
Qed.

(** Installing a package takes an id from a scanned package that has it; uninstalling the
    scanned one then removes the app of the installed package from the ledger. *)
Theorem uninstalling_removes_the_app_of_another_package :
  ∃ ps s, rtc step sharing (ps, s) ∧ ps = [Return 0] ∧ is_Some (packages s !! $"com.example.two") ∧
    manifests s !! $"com.example.one" = None.
Proof.
  exists shared.1, shared.2. split; [rewrite <-surjective_pairing; exact sharing_shared|].
  split; [by vm_compute|]. split; [eexists; by vm_compute|]. by vm_compute.
Qed.
