(* ===== verification/ShellGlob.v ===== *)
(** The shell's patterns, Tactility/Source/app/shell/shell/sh_glob.c: matching with a
    single backtrack point, the prefixes and suffixes that parameter expansion strips, and
    the expansion of a pattern to the names in a directory.  A pointer into a C string is
    the text from there on. *)

From stdpp Require Import sorting.
From S2P Require Import Prelude Text.

(** * Bracket expressions *)

Definition class_match (name : text) (c : ascii) : bool :=
  if decide (name = $"alpha") then isalpha c
  else if decide (name = $"digit") then isdigit c
  else if decide (name = $"alnum") then isalnum c
  else if decide (name = $"space") then isspace c
  else if decide (name = $"upper") then isupper c
  else if decide (name = $"lower") then islower c
  else if decide (name = $"print") then isprint c
  else if decide (name = $"graph") then isgraph c
  else if decide (name = $"punct") then ispunct c
  else if decide (name = $"cntrl") then iscntrl c
  else if decide (name = $"blank") then (bool_decide (c = " "%char) || bool_decide (c = "009"%char))%bool
  else if decide (name = $"xdigit") then isxdigit c
  else false.

(** The scan for ":]": the name before it and the text after it. *)
Fixpoint class_end (e : text) : option (text * text) :=
  match e with
  | [] => None
  | c :: e' =>
      if (bool_decide (c = ":"%char) && bool_decide (head e' = Some "]"%char))%bool then Some ([], tail e')
      else '(n, r) ← class_end e'; Some (c :: n, r)
  end.
(** A class "[:name:]", and a range "lo-hi" whose [hi] does not close the bracket. *)
Definition class_at (p : text) : option (text * text) :=
  if bool_decide (take 2 p = $"[:") then class_end (drop 2 p) else None.
Definition range_at (p : text) : option (ascii * text) :=
  match p with
  | _ :: d :: hi :: r => if (bool_decide (d = "-"%char) && negb (bool_decide (hi = "]"%char)))%bool then Some (hi, r) else None
  | _ => None
  end.

(** The members up to the closing bracket.  [first] is [p == start]; the result is
    [matched] and the text after the bracket, or [None] if nothing closes it. *)
Fixpoint bracket_loop (fuel : nat) (c : ascii) (first : bool) (p : text) (matched : bool) : option (bool * text) :=
  match fuel with
  | O => None
  | S f =>
      match p with
      | [] => None
      | lo :: p1 =>
          if (bool_decide (lo = "]"%char) && negb first)%bool then Some (matched, p1)
          else
            match class_at p with
            | Some (name, e) => bracket_loop f c false e (matched || class_match name c)
            | None =>
                match range_at p with
                | Some (hi, e) => bracket_loop f c false e (matched || between lo hi c)
                | None => bracket_loop f c false p1 (matched || bool_decide (c = lo))
                end
            end
      end
  end.

(** [negate], and where the members start. *)
Definition negation (p : text) : bool * text :=
  match p with
  | c :: p' => if (bool_decide (c = "!"%char) || bool_decide (c = "^"%char))%bool then (true, p') else (false, p)
  | [] => (false, p)
  end.

Definition bracket_match (p : text) (c : ascii) : option (bool * text) :=
  let '(negate, start) := negation p in
  '(matched, e) ← bracket_loop (length start) c true start false;
  Some (if negate : bool then negb matched else matched, e).

(** * sh_pattern_match *)

(** One turn of the loop: the verdict, or the next positions in pattern and subject, and
    after the last star. *)
Record position := Position { pat : text; subject : text; star : option (text * text) }.

Definition mismatch (x : position) : bool + position :=
  match star x with
  | Some (star_p, _ :: star_s) => inr (Position star_p star_s (Some (star_p, star_s)))
  | _ => inl false
  end.

Definition ordinary (c : ascii) (p : text) (x : position) : bool + position :=
  match subject x with
  | d :: s => if decide (d = c) then inr (Position p s (star x)) else mismatch x
  | [] => mismatch x
  end.

Definition match_step (x : position) : bool + position :=
  match pat x with
  | [] => match subject x with [] => inl true | _ => mismatch x end
  | c :: p =>
      match (if decide (c = "["%char) then bracket_match p (default NUL (head (subject x))) else None) with
      | Some (r, pp) =>
          match subject x with
          | _ :: s => if r : bool then inr (Position pp s (star x)) else mismatch x
          | [] => mismatch x
          end
      | None =>
          if decide (c = "*"%char) then
            match p with [] => inl true | _ => inr (Position p (subject x) (Some (p, subject x))) end
          else if decide (c = "?"%char) then
            match subject x with _ :: s => inr (Position p s (star x)) | [] => mismatch x end
          else if decide (c = "\"%char) then
            match p with d :: p' => ordinary d p' x | [] => ordinary c p x end
          else ordinary c p x
      end
  end.

Fixpoint match_loop (fuel : nat) (x : position) : option bool :=
  match fuel with
  | O => None
  | S f => match match_step x with inl b => Some b | inr x' => match_loop f x' end
  end.

Definition sh_pattern_match (fuel : nat) (p s : text) : option bool := match_loop fuel (Position p s None).
(** As many turns as any pattern and subject of these lengths take. *)
Definition match_fuel (p s : text) : nat := (length s + 2) * (length p + 1).
Definition pattern_match (p s : text) : bool := default false (sh_pattern_match (match_fuel p s) p s).

(** * Stripping *)

(** The [for] loops over the lengths of a prefix and the starts of a suffix; [best] is kept
    until a longer match replaces it. *)
Fixpoint strip_loop (test : nat → bool) (longest : bool) (l : list nat) (best : option nat) : option nat :=
  match l with
  | [] => best
  | i :: l' =>
      if test i then if longest then strip_loop test longest l' (Some i) else Some i
      else strip_loop test longest l' best
  end.

Definition sh_strip_prefix (s p : text) (longest : bool) : text :=
  match strip_loop (λ i, pattern_match p (take i s)) longest (seq 0 (S (length s))) None with
  | Some i => drop i s
  | None => s
  end.

Definition sh_strip_suffix (s p : text) (longest : bool) : text :=
  match strip_loop (λ i, pattern_match p (drop i s)) longest (reverse (seq 0 (S (length s)))) None with
  | Some i => take i s
  | None => s
  end.

(** * sh_glob_pathnames *)

(** [strcmp] by unsigned bytes. *)
Fixpoint text_le (s t : text) : Prop :=
  match s, t with
  | [], _ => True
  | _ :: _, [] => False
  | c :: s', d :: t' => code c < code d ∨ (code c = code d ∧ text_le s' t')
  end.
#[export] Instance text_le_dec s t : Decision (text_le s t).
Proof. revert t. induction s; intros [|? ?]; simpl; apply _. Defined.

(** The scan for the last slash: [None] when a metacharacter precedes a slash; otherwise
    the index of the last slash, and whether there is a metacharacter after it. *)
Fixpoint scan_pattern (i : nat) (lastslash : option nat) (meta : bool) (pat : text) : option (option nat * bool) :=
  match pat with
  | [] => Some (lastslash, meta)
  | c :: p =>
      if decide (c = "\"%char) then
        match p with [] => Some (lastslash, meta) | _ :: p' => scan_pattern (i + 2) lastslash meta p' end
      else if decide (c = "/"%char) then if meta then None else scan_pattern (S i) (Some i) meta p
      else scan_pattern (S i) lastslash (meta || bool_decide (c ∈ $"*?[")) p
  end.

(** The size of [dir] and of [full]. *)
Definition GLOB_DIR_SIZE : nat := 512.
Definition GLOB_FULL_SIZE : nat := 1024.

Definition hidden (base name : text) : bool :=
  match name with
  | "."%char :: rest => (negb (bool_decide (head base = Some "."%char)) || bool_decide (rest = []) || bool_decide (rest = $"."))%bool
  | _ => false
  end.

(** The working directory and the file system: the path that [shell_bridge_resolve] gives,
    and the names that [opendir] and [readdir] give. *)
Class Directories := {
  shell_bridge_resolve : text → option text;
  opendir : text → option (list text);
}.

Section pathnames.
Context `{Directories}.

(** The fields that are pushed; none stands for the result 0. *)
Definition sh_glob_pathnames (pat : text) : list text :=
  match scan_pattern 0 None false pat with
  | Some (lastslash, true) =>
      let base := drop (match lastslash with Some n => S n | None => O end) pat in
      match (match lastslash with
             | None => Some ($".")
             | Some O => Some ($"/")
             | Some n => if (GLOB_DIR_SIZE <=? n)%nat then None else Some (take n pat)
             end) with
      | None => []
      | Some dir =>
          let dir := match shell_bridge_resolve dir with Some d => take (GLOB_DIR_SIZE - 1) d | None => dir end in
          match opendir dir with
          | None => []
          | Some names =>
              let m := filter (λ nm, hidden base nm = false ∧ pattern_match base nm = true) names in
              (λ nm, match lastslash with
                     | None => nm
                     | Some n => take (GLOB_FULL_SIZE - 1) (take n pat ++ "/"%char :: nm)
                     end) <$> merge_sort text_le m
          end
      end
  | _ => []
  end.
End pathnames.
