(* ===== verification/ShellGlobSpecs.v ===== *)
(** Patterns as the standard describes them, and the properties of the matcher: what a
    pattern's text means, the equivalence with the matcher of sh_glob.c, stripping, and
    pathname expansion. *)

From stdpp Require Import sorting.
From S2P Require Import Prelude Text ShellGlob.

(** * Patterns *)

Inductive member := MChar (c : ascii) | MRange (lo hi : ascii) | MClass (name : text).
Inductive item := Star | Any | Lit (c : ascii) | OneOf (negate : bool) (ms : list member).
#[export] Instance member_eq_dec : EqDecision member.
Proof. solve_decision. Defined.
#[export] Instance item_eq_dec : EqDecision item.
Proof. solve_decision. Defined.

(** The members of a bracket expression and what follows it.  A closing bracket is a member
    in the first place only. *)
Inductive members : bool → text → list member → text → Prop :=
  | members_close r : members false ("]"%char :: r) [] r
  | members_class first p name e ms r :
      class_at p = Some (name, e) → members false e ms r → members first p (MClass name :: ms) r
  | members_range (first : bool) lo p hi e ms r :
      (lo = "]"%char → first = true) → class_at (lo :: p) = None → range_at (lo :: p) = Some (hi, e) →
      members false e ms r → members first (lo :: p) (MRange lo hi :: ms) r
  | members_char (first : bool) c p ms r :
      (c = "]"%char → first = true) → class_at (c :: p) = None → range_at (c :: p) = None →
      members false p ms r → members first (c :: p) (MChar c :: ms) r.

Definition bracket (p : text) (negate : bool) (ms : list member) (r : text) : Prop :=
  ∃ start, negation p = (negate, start) ∧ members true start ms r.

(** The items that a pattern's text denotes. *)
Inductive reads : text → list item → Prop :=
  | reads_nil : reads [] []
  | reads_bracket p negate ms r l : bracket p negate ms r → reads r l → reads ("["%char :: p) (OneOf negate ms :: l)
  | reads_open p l : (∀ negate ms r, ¬ bracket p negate ms r) → reads p l → reads ("["%char :: p) (Lit "[" :: l)
  | reads_star p l : reads p l → reads ("*"%char :: p) (Star :: l)
  | reads_any p l : reads p l → reads ("?"%char :: p) (Any :: l)
  | reads_escape c p l : reads p l → reads ("\"%char :: c :: p) (Lit c :: l)
  | reads_backslash : reads ["\"%char] [Lit "\"]
  | reads_plain c p l : c ∉ $"[*?\" → reads p l → reads (c :: p) (Lit c :: l).

(** * Their meaning *)

Definition member_has (c : ascii) (m : member) : bool :=
  match m with MChar d => bool_decide (c = d) | MRange lo hi => between lo hi c | MClass n => class_match n c end.
Definition accepts (i : item) (c : ascii) : bool :=
  match i with
  | Star => false
  | Any => true
  | Lit d => bool_decide (c = d)
  | OneOf negate ms => if negate then negb (existsb (member_has c) ms) else existsb (member_has c) ms
  end.

Inductive matches : list item → text → Prop :=
  | matches_nil : matches [] []
  | matches_one i l c s : accepts i c = true → matches l s → matches (i :: l) (c :: s)
  | matches_star l u s : matches l s → matches (Star :: l) (u ++ s).

(** * The matcher on items *)

Record place := Place { items : list item; left : text; restart : option (list item * text) }.

Definition retry (y : place) : bool + place :=
  match restart y with Some (r, _ :: s) => inr (Place r s (Some (r, s))) | _ => inl false end.

Definition item_step (y : place) : bool + place :=
  match items y with
  | [] => match left y with [] => inl true | _ => retry y end
  | [Star] => inl true
  | Star :: l => inr (Place l (left y) (Some (l, left y)))
  | i :: l =>
      match left y with
      | c :: s => if accepts i c then inr (Place l s (restart y)) else retry y
      | [] => retry y
      end
  end.

(** What the machine still has to decide: whether the items match what is left, or the
    items after the last star match some later part of the subject. *)
Definition later (o : option (list item * text)) : Prop :=
  match o with Some (r, s) => ∃ u w, s = u ++ w ∧ u ≠ [] ∧ matches r w | None => False end.
Definition goal (y : place) : Prop := matches (items y) (left y) ∨ later (restart y).

(** Since the last star, the items before the present ones took one character each. *)
Definition place_ok (N : nat) (y : place) : Prop :=
  (length (items y) ≤ N)%nat ∧
  match restart y with
  | Some (r, s) => (length r ≤ N)%nat ∧
      ∃ q u, r = q ++ items y ∧ s = u ++ left y ∧ Forall2 (λ i c, accepts i c = true) q u
  | None => True
  end.
Definition measure (N : nat) (y : place) : nat :=
  match restart y with
  | Some (_, s) => length s * (N + 1) + length (items y)
  | None => (length (left y) + 1) * (N + 1) + length (items y)
  end.

Section machine.
Implicit Types (l q r : list item) (s u w : text) (y : place).

Lemma matches_star_inv l s : matches (Star :: l) s → ∃ u w, s = u ++ w ∧ matches l w.
Proof. inversion 1; subst; [done|]. eauto. Qed.

Lemma matches_star_app l u s : matches (Star :: l) s → matches (Star :: l) (u ++ s).
Proof. intros (v & w & -> & Hw)%matches_star_inv. rewrite app_assoc. by constructor. Qed.

Lemma matches_prefix q l u s :
  Forall2 (λ i c, accepts i c = true) q u → matches (q ++ l) s → ∃ u' w, s = u' ++ w ∧ length u' = length u ∧ matches l w.
Proof.
  intros Hq. revert s. induction Hq as [|i c q u Hi Hq IH]; intros s Hs; [by exists [], s|].
  simpl in Hs. inversion Hs; subst; [|discriminate Hi].
  match goal with H : matches (q ++ l) _ |- _ => destruct (IH _ H) as (u' & w & -> & Hl & Hw) end.
  eexists (_ :: u'), w. simpl. auto.
Qed.

(** Where a star is reached, what an earlier star could still match is matched from here
    too: one restart is enough. *)
Lemma later_absorbed q l u s :
  Forall2 (λ i c, accepts i c = true) q u → later (Some (q ++ Star :: l, u ++ s)) → matches (Star :: l) s.
Proof.
  intros Hq (v & w & E & Hv & Hw). destruct (matches_prefix _ _ _ _ Hq Hw) as (u' & w' & -> & Hl & Hw').
  assert (∃ a, s = a ++ w') as [a ->]; [|by apply matches_star_app].
  exists (drop (length u) (v ++ u')).
  assert (drop (length u) (u ++ s) = drop (length u) ((v ++ u') ++ w')) as E' by (by rewrite E, <-app_assoc).
  rewrite drop_app_length, drop_app_le in E'; [done|]. rewrite length_app. lia.
Qed.

Lemma retry_spec N y :
  place_ok N y → ¬ matches (items y) (left y) →
  match retry y with
  | inl b => b = false ∧ ¬ goal y
  | inr y' => place_ok N y' ∧ (goal y ↔ goal y') ∧ (measure N y' < measure N y)%nat
  end.
Proof.
  intros [Hn Hr] Hm. unfold retry, goal, measure, place_ok. destruct y as [l s [[r [|c t]]|]]; simpl in *.
  - split; [done|]. intros [?|(u & w & E & Hu & _)]; [done|]. by destruct u.
  - destruct Hr as [Hrn _]. split_and!; [done|done| | |nia].
    + by exists [], [].
    + split; [intros [?|(u & w & E & Hu & Hw)]; [done|]|].
      * destruct u as [|c' u]; [done|]. injection E as -> ->. destruct u as [|d u]; [by left|].
        right. by exists (d :: u), w.
      * intros [Hw|(u & w & -> & Hu & Hw)]; right; [by exists [c], t|by exists (c :: u), w].
  - split; [done|]. by intros [?|?].
Qed.

Lemma item_step_spec N y :
  place_ok N y →
  match item_step y with
  | inl b => b = true ↔ goal y
  | inr y' => place_ok N y' ∧ (goal y ↔ goal y') ∧ (measure N y' < measure N y)%nat
  end.
Proof.
  intros Hy.
  assert (¬ matches (items y) (left y) →
    match retry y with
    | inl b => b = true ↔ goal y
    | inr y' => place_ok N y' ∧ (goal y ↔ goal y') ∧ (measure N y' < measure N y)%nat
    end) as Hretry.
  { intros Hm. pose proof (retry_spec N y Hy Hm) as Hs. destruct (retry y); [|done]. destruct Hs as [-> ?]. naive_solver. }
  unfold item_step. destruct (items y) as [|i l] eqn:El.
  { destruct (left y) eqn:Es; [|apply Hretry; by inversion 1].
    split; [|done]. intros _. left. rewrite El, Es. constructor. }
  destruct Hy as [Hn Hr]. rewrite El in *. simpl in Hn.
  assert (∀ c s, left y = c :: s → accepts i c = true →
    let y' := Place l s (restart y) in place_ok N y' ∧ (goal y ↔ goal y') ∧ (measure N y' < measure N y)%nat) as Hone.
  { intros c s Es Hi y'. assert (Star ≠ i) as Hstar by (by intros <-).
    unfold y', place_ok, goal, measure. simpl. rewrite El, Es in *. split_and!; [lia| | |].
    - destruct (restart y) as [[r t]|]; [|done]. destruct Hr as (Hrn & q & u & -> & -> & Hq). split; [done|].
      exists (q ++ [i]), (u ++ [c]). rewrite <-!app_assoc. split_and!; [done|done|]. apply Forall2_app; [done|by repeat constructor].
    - split; (intros [Hm|?]; [left|by right]); [by inversion Hm; subst|by constructor].
    - destruct (restart y) as [[r t]|]; simpl; lia. }
  assert (∀ c s, left y = c :: s → accepts i c = false → i ≠ Star → ¬ matches (i :: l) (left y)) as Hno.
  { intros c s -> Hi Hne Hm. inversion Hm; subst; congruence. }
  assert (left y = [] → i ≠ Star → ¬ matches (i :: l) (left y)) as Hnil.
  { intros -> Hne Hm. inversion Hm; subst; congruence. }
  destruct (decide (i = Star)) as [->|Hi].
  - destruct l as [|j l].
    { split; [|done]. intros _. left. rewrite El, <-(app_nil_r (left y)). repeat constructor. }
    unfold place_ok, goal, measure. simpl in *. rewrite El. split_and!; [lia|lia|by exists [], []| |].
    + split.
      * intros Hg. assert (matches (Star :: j :: l) (left y)) as (u & w & E & Hw)%matches_star_inv.
        { destruct Hg as [?|Hg]; [done|]. destruct (restart y) as [[r t]|]; [|done].
          destruct Hr as (_ & q & u & -> & -> & Hq). by apply (later_absorbed q (j :: l) u). }
        destruct u as [|c u]; simpl in E; [left; by rewrite E|right; by exists (c :: u), w].
      * intros [Hm|(u & w & -> & _ & Hw)]; left; [by apply (matches_star _ [])|by constructor].
    + destruct (restart y) as [[r t]|]; [|simpl; nia].
      destruct Hr as (_ & q & u & -> & -> & Hq). rewrite length_app. simpl. nia.
  - destruct i; [done|..];
      (destruct (left y) as [|d s] eqn:Es; [apply Hretry; rewrite <-Es in *; by apply Hnil|];
       destruct (accepts _ d) eqn:Ea; [by apply (Hone d s)|apply Hretry; rewrite <-Es in *; by eapply Hno]).
Qed.
End machine.

(** * Reading patterns *)

Section reading.
Implicit Types (c d : ascii) (p r : text) (b : bool).

Lemma class_end_length e n r : class_end e = Some (n, r) → (length r < length e)%nat.
Proof.
  revert n. induction e as [|c e IH]; intros n He; [done|]. cbn [class_end] in He.
  destruct (_ && _)%bool; simplify_option_eq.
  - destruct e; simpl; lia.
  - destruct (class_end e) as [[n' r']|]; simplify_option_eq. specialize (IH _ eq_refl). simpl. lia.
Qed.

Lemma class_at_length p n r : class_at p = Some (n, r) → (length r < length p)%nat.
Proof.
  unfold class_at. case_bool_decide; [|done]. intros He%class_end_length. rewrite length_drop in He. lia.
Qed.

Lemma range_at_length c p hi r : range_at (c :: p) = Some (hi, r) → (length r < length p)%nat.
Proof. unfold range_at. intros. repeat case_match; simplify_eq; simpl; lia. Qed.

(** The loop reads exactly the members, and looks the character up in them. *)
Lemma members_loop first p ms r c f b :
  members first p ms r → (length p ≤ f)%nat →
  bracket_loop f c first p b = Some ((b || existsb (member_has c) ms)%bool, r).
Proof.
  intros Hm. revert f b. induction Hm as [r|first p name e ms r Hc Hm IH|first lo p hi e ms r Hf Hc Hr Hm IH|first d p ms r Hf Hc Hr Hm IH];
    intros f b Hl.
  - destruct f; [simpl in Hl; lia|]. simpl. by rewrite orb_false_r.
  - assert (∃ x p1, p = x :: p1 ∧ x ≠ "]"%char) as (x & p1 & -> & Hx).
    { unfold class_at in Hc. case_bool_decide as E; [|done]. destruct p as [|x p1]; [done|]. exists x, p1. split; [done|].
      destruct p1 as [|y p1]; [done|]. by injection E as -> _. }
    destruct f; [simpl in Hl; lia|]. cbn [bracket_loop]. rewrite bool_decide_false by done. cbn [andb].
    rewrite Hc, IH; [cbn [existsb member_has]; by rewrite orb_assoc|]. apply class_at_length in Hc. simpl in *. lia.
  - destruct f; [simpl in Hl; lia|]. cbn [bracket_loop].
    assert ((bool_decide (lo = "]"%char) && negb first)%bool = false) as ->
      by (case_bool_decide; [by rewrite Hf|done]).
    rewrite Hc, Hr, IH; [cbn [existsb member_has]; by rewrite orb_assoc|]. apply range_at_length in Hr. simpl in *. lia.
  - destruct f; [simpl in Hl; lia|]. cbn [bracket_loop].
    assert ((bool_decide (d = "]"%char) && negb first)%bool = false) as ->
      by (case_bool_decide; [by rewrite Hf|done]).
    rewrite Hc, Hr, IH; [cbn [existsb member_has]; by rewrite orb_assoc|]. simpl in *. lia.
Qed.

Lemma loop_members f c first p b m r :
  bracket_loop f c first p b = Some (m, r) → ∃ ms, members first p ms r.
Proof.
  revert first p b. induction f as [|f IH]; intros first p b Hb; [done|]. cbn [bracket_loop] in Hb.
  destruct p as [|lo p]; [done|]. destruct (bool_decide _ && _)%bool eqn:E.
  - simplify_eq. bsimpl. subst. exists []. constructor.
  - assert (lo = "]"%char → first = true) as Hf by (intros ->; by destruct first).
    destruct (class_at _) as [[n e]|] eqn:Hc; [|destruct (range_at _) as [[hi e]|] eqn:Hr];
      apply IH in Hb as [ms Hms]; eexists; [by eapply members_class|by eapply members_range|by eapply members_char].
Qed.

Lemma bracket_match_spec p c :
  match bracket_match p c with
  | Some (b, r) => ∃ negate ms, bracket p negate ms r ∧ b = accepts (OneOf negate ms) c
  | None => ∀ negate ms r, ¬ bracket p negate ms r
  end.
Proof.
  unfold bracket_match, bracket. destruct (negation p) as [negate start].
  destruct (bracket_loop _ c true start false) as [[m r]|] eqn:E; simpl.
  - destruct (loop_members _ _ _ _ _ _ _ E) as [ms Hms]. exists negate, ms. split; [by exists start|].
    erewrite members_loop in E by done. cbn [orb] in E. injection E as <-. done.
  - intros ? ms r (? & [= <- <-] & Hms). by erewrite members_loop in E.
Qed.

(** A bracket expression is read in one way only. *)
Lemma bracket_det p n1 ms1 r1 n2 ms2 r2 : bracket p n1 ms1 r1 → bracket p n2 ms2 r2 → n1 = n2 ∧ ms1 = ms2 ∧ r1 = r2.
Proof.
  intros (s1 & E1 & H1) (s2 & E2 & H2). rewrite E1 in E2. simplify_eq. split; [done|].
  clear E1. revert ms2 H2. induction H1 as [r|first p0 n e ms r Hc Hm IH|first lo p0 hi e ms r Hf Hc Hr Hm IH|first d p0 ms r Hf Hc Hr Hm IH];
    intros ms' H'; inversion H'; subst; simplify_eq/=; try done;
    repeat match goal with
    | H : _ → false = true |- _ => specialize (H eq_refl); done
    | E1 : class_at ?p = _, E2 : class_at ?p = _ |- _ => rewrite E1 in E2; simplify_eq
    | E1 : range_at ?p = _, E2 : range_at ?p = _ |- _ => rewrite E1 in E2; simplify_eq
    end; try done;
    match goal with IH : ∀ ms2, members _ _ ms2 _ → _, H : members _ _ _ _ |- _ => by destruct (IH _ H) as [-> ->] end.
Qed.

Lemma members_length first p ms r : members first p ms r → (length r < length p)%nat.
Proof.
  induction 1 as [r|first p n e ms r Hc Hm IH|first lo p hi e ms r Hf Hc Hr Hm IH|]; cbn [length] in *; [lia| | |lia].
  - apply class_at_length in Hc. lia.
  - apply range_at_length in Hr. lia.
Qed.

Lemma bracket_length p negate ms r : bracket p negate ms r → (length r < length p)%nat.
Proof.
  intros (start & Hn & Hm%members_length). unfold negation in Hn.
  destruct p as [|c p]; [|destruct (_ || _)%bool]; simplify_eq; simpl in *; lia.
Qed.

(** Every text is a pattern, with no more items than characters. *)
Lemma reads_total p : ∃ l, reads p l ∧ (length l ≤ length p)%nat.
Proof.
  induction p as [p IH] using (induction_ltof1 _ (@length ascii)). unfold ltof in IH.
  destruct p as [|c p]; [exists []; split; [constructor|done]|].
  destruct (IH p) as (l & Hl & Hlen); [simpl; lia|].
  destruct (decide (c = "["%char)) as [->|H1].
  { pose proof (bracket_match_spec p NUL) as Hb. destruct (bracket_match p NUL) as [[b r]|].
    - destruct Hb as (negate & ms & Hb & _). pose proof (bracket_length _ _ _ _ Hb).
      destruct (IH r) as (l' & Hl' & Hlen'); [simpl; lia|]. exists (OneOf negate ms :: l').
      split; [by econstructor|simpl; lia].
    - exists (Lit "[" :: l). split; [by constructor|simpl; lia]. }
  destruct (decide (c = "*"%char)) as [->|H2]; [exists (Star :: l); split; [by constructor|simpl; lia]|].
  destruct (decide (c = "?"%char)) as [->|H3]; [exists (Any :: l); split; [by constructor|simpl; lia]|].
  destruct (decide (c = "\"%char)) as [->|H4].
  { destruct p as [|d p]; [exists [Lit "\"]; split; [constructor|simpl; lia]|].
    destruct (IH p) as (l' & Hl' & Hlen'); [simpl; lia|]. exists (Lit d :: l'). split; [by constructor|simpl in *; lia]. }
  exists (Lit c :: l). split; [constructor; [set_solver|done]|simpl; lia].
Qed.

Lemma reads_det p l1 l2 : reads p l1 → reads p l2 → l1 = l2.
Proof.
  intros H1. revert l2. induction H1 as [|p n ms r l Hb Hr IH|p l Hb Hr IH|p l Hr IH|p l Hr IH|c p l Hr IH| |c p l Hc Hr IH];
    intros l2 H2; inversion H2; subst; try done; try set_solver;
    try match goal with
    | H1 : bracket _ _ _ _, H2 : bracket _ _ _ _ |- _ => destruct (bracket_det _ _ _ _ _ _ _ H1 H2) as (-> & -> & ->)
    | H1 : bracket _ _ _ _, H2 : ∀ _ _ _, ¬ bracket _ _ _ _ |- _ => by destruct (H2 _ _ _ H1)
    end; try (f_equal; by apply IH).
Qed.
End reading.

(** * The matcher of the source runs the machine on items *)

Definition same (x : position) (y : place) : Prop :=
  reads (pat x) (items y) ∧ subject x = left y ∧
  match star x, restart y with
  | None, None => True
  | Some (p, s), Some (r, s') => reads p r ∧ s = s'
  | _, _ => False
  end.
Definition same_result (o : bool + position) (o' : bool + place) : Prop :=
  match o, o' with inl b, inl b' => b = b' | inr x, inr y => same x y | _, _ => False end.

Section simulation.
Implicit Types (x : position) (y : place) (p s : text).

Lemma mismatch_same x y : same x y → same_result (mismatch x) (retry y).
Proof.
  intros (_ & _ & Hs). unfold mismatch, retry. destruct (star x) as [[p [|c s]]|], (restart y) as [[r [|d t]]|]; try done;
    destruct Hs as [Hr E]; simplify_eq. by split_and!.
Qed.

Lemma ordinary_same c p x y l :
  same x y → items y = Lit c :: l → reads p l → same_result (ordinary c p x) (item_step y).
Proof.
  intros Hxy El Hp. pose proof (mismatch_same x y Hxy) as Hm. destruct Hxy as (_ & Hs & Hst).
  unfold ordinary, item_step. rewrite El, <-Hs. destruct (subject x) as [|d s]; [done|]. cbn [accepts].
  case_decide; [rewrite bool_decide_true by done|rewrite bool_decide_false by done; done].
  split_and!; [done|done|done].
Qed.

Lemma match_step_same x y : same x y → same_result (match_step x) (item_step y).
Proof.
  intros Hxy. pose proof (mismatch_same x y Hxy) as Hm.
  assert (∀ c p l, items y = Lit c :: l → reads p l → same_result (ordinary c p x) (item_step y)) as Hord
    by (intros; by eapply ordinary_same).
  pose proof Hxy as (Hr & Hs & Hst). unfold match_step. inversion Hr as [E E'|p n ms r l Hb Hp E E'|p l Hb Hp E E'|p l Hp E E'|p l Hp E E'|c p l Hp E E'|E E'|c p l Hc Hp E E'].
  - unfold item_step. rewrite <-E', <-Hs. by destruct (subject x).
  - rewrite decide_True by done. pose proof (bracket_match_spec p (default NUL (head (subject x)))) as Hbm.
    destruct (bracket_match p _) as [[b r']|]; [|by destruct (Hbm n ms r)].
    destruct Hbm as (n' & ms' & Hb' & ->). destruct (bracket_det _ _ _ _ _ _ _ Hb Hb') as (<- & <- & <-).
    unfold item_step. rewrite <-E', <-Hs. destruct (subject x) as [|d s]; [done|]. simpl head. simpl default.
    destruct (accepts _ d); [|done]. by split_and!.
  - rewrite decide_True by done. pose proof (bracket_match_spec p (default NUL (head (subject x)))) as Hbm.
    destruct (bracket_match p _) as [[b r']|]; [destruct Hbm as (n' & ms' & Hb' & _); by destruct (Hb n' ms' r')|].
    repeat rewrite decide_False by done. by eapply Hord.
  - rewrite (decide_False (P := "*"%char = "["%char)) by done. rewrite decide_True by done.
    unfold item_step. rewrite <-E', <-Hs. destruct p as [|c p].
    + inversion Hp. done.
    + destruct l as [|i l]; [by inversion Hp|]. split_and!; [done|done|by split].
  - repeat rewrite decide_False by done. rewrite decide_True by done.
    unfold item_step. rewrite <-E', <-Hs. destruct (subject x); [done|]. by split_and!.
  - repeat rewrite decide_False by done. rewrite decide_True by done. by eapply Hord.
  - repeat rewrite decide_False by done. rewrite decide_True by done. eapply Hord; [done|constructor].
  - repeat rewrite decide_False by set_solver. by eapply Hord.
Qed.

Lemma match_loop_spec N x y f :
  same x y → place_ok N y → (measure N y < f)%nat → ∃ b, match_loop f x = Some b ∧ (b = true ↔ goal y).
Proof.
  revert x y. induction f as [|f IH]; intros x y Hxy Hy Hf; [lia|]. cbn [match_loop].
  pose proof (match_step_same x y Hxy) as Hs. pose proof (item_step_spec N y Hy) as Hi.
  destruct (match_step x) as [b|x'], (item_step y) as [b'|y']; try done.
  - simpl in Hs. subst. eauto.
  - destruct Hi as (Hy' & Hg & Hm). destruct (IH x' y' Hs Hy') as (b & E & Hb); [lia|]. exists b. by rewrite Hg.
Qed.
End simulation.

Lemma pattern_match_reads p l s :
  reads p l → (length l ≤ length p)%nat →
  (∀ fuel, (match_fuel p s ≤ fuel)%nat → sh_pattern_match fuel p s = Some (pattern_match p s)) ∧
  (pattern_match p s = true ↔ matches l s).
Proof.
  intros Hl Hlen. set (y := Place l s None).
  assert (∀ f, (match_fuel p s ≤ f)%nat → ∃ b, sh_pattern_match f p s = Some b ∧ (b = true ↔ matches l s)) as Hf.
  { intros f Hf. destruct (match_loop_spec (length p) (Position p s None) y f) as (b & E & Hb).
    - by split_and!.
    - by split.
    - unfold measure, match_fuel in *. simpl. nia.
    - exists b. split; [done|]. rewrite Hb. unfold goal. simpl. tauto. }
  unfold pattern_match. destruct (Hf (match_fuel p s) ltac:(lia)) as (b & -> & Hb). split; [|done].
  intros f (b' & -> & Hb')%Hf. simpl. f_equal. destruct b, b'; naive_solver.
Qed.

(** * Stripping *)

Lemma seq_sorted i n : StronglySorted lt (seq i n).
Proof. revert i. induction n as [|n IH]; intros i; simpl; constructor; [done|]. apply Forall_forall. intros j ?%elem_of_seq. lia. Qed.

Lemma reverse_seq_sorted i n : StronglySorted (flip lt) (reverse (seq i n)).
Proof.
  induction n as [|n IH]; [constructor|]. rewrite seq_S, reverse_app. simpl. constructor; [done|].
  apply Forall_forall. intros j Hj. apply elem_of_reverse, elem_of_seq in Hj. unfold flip. lia.
Qed.

(** The shortest match is the first in the order of the loop, the longest the last. *)
Lemma strip_loop_spec (R : relation nat) test longest l best :
  StronglySorted R l → (longest = true → ∀ b, best = Some b → test b = true ∧ Forall (R b) l) →
  match strip_loop test longest l best with
  | Some i => (best = Some i ∨ i ∈ l ∧ test i = true) ∧
      ∀ j, j ∈ l → test j = true → if longest then j = i ∨ R j i else best = None → j = i ∨ R i j
  | None => best = None ∧ ∀ j, j ∈ l → test j = false
  end.
Proof.
  intros Hl. revert best. induction Hl as [|i l Hl IH Hi]; intros best Hb; simpl.
  { destruct best; [|by split; [|intros ? ?%elem_of_nil]]. split; [by left|]. by intros ? ?%elem_of_nil. }
  destruct (test i) eqn:Ei.
  - destruct longest.
    + specialize (IH (Some i)). destruct (strip_loop test true l (Some i)) as [k|]; [|destruct IH as [? _]; [|done]; by intros _ b [= ->]].
      destruct IH as [Hk Hmax]; [by intros _ b [= ->]|]. split.
      * destruct Hk as [[= ->]|[? ?]]; right; (split; [|done]); [by apply elem_of_cons; left|by apply elem_of_cons; right].
      * intros j [->|Hj]%elem_of_cons Ht; [|by apply Hmax]. destruct Hk as [[= ->]|[Hk _]]; [by left|].
        right. by apply (proj1 (Forall_forall _ _) Hi).
    + split; [right; split; [by apply elem_of_cons; left|done]|]. intros j [->|Hj]%elem_of_cons _ _; [by left|].
      right. by apply (proj1 (Forall_forall _ _) Hi).
  - specialize (IH best). destruct (strip_loop test longest l best) as [k|].
    + destruct IH as [Hk Hmax]; [intros Hlo b E; destruct (Hb Hlo b E) as [? [_ ?]%Forall_cons]; done|]. split.
      * destruct Hk as [?|[? ?]]; [by left|right; split; [by apply elem_of_cons; right|done]].
      * intros j [->|Hj]%elem_of_cons Ht; [congruence|by apply Hmax].
    + destruct IH as [E Hno]; [intros Hlo b E; destruct (Hb Hlo b E) as [? [_ ?]%Forall_cons]; done|].
      split; [done|]. intros j [->|Hj]%elem_of_cons; [done|by apply Hno].
Qed.

(** C14: the matcher with a single backtrack point agrees with the meaning of patterns: every
    text is a pattern in exactly one way, and for all subjects the matcher stops, with the
    verdict whether the pattern's items match the whole subject. *)
Theorem sh_pattern_match_correct p s :
  ∃ l, reads p l ∧ (∀ l', reads p l' → l' = l) ∧
    ∃ b, (∀ fuel, (match_fuel p s ≤ fuel)%nat → sh_pattern_match fuel p s = Some b) ∧ (b = true ↔ matches l s).
Proof.
  destruct (reads_total p) as (l & Hl & Hlen). exists l. split; [done|]. split; [intros; by eapply reads_det|].
  exists (pattern_match p s). by apply pattern_match_reads.
Qed.

(** What is left when the shortest or the longest of the matching pieces goes; [split u r]
    says that the subject consists of the piece [u] and the rest [r]. *)
Definition stripped (split : text → text → Prop) (longest : bool) (l : list item) (s result : text) : Prop :=
  (result = s ∧ ∀ u r, split u r → ¬ matches l u) ∨
  ∃ u, split u result ∧ matches l u ∧
    ∀ u' r', split u' r' → matches l u' → if longest then (length u' ≤ length u)%nat else (length u ≤ length u')%nat.

(** "${v#p}" and "${v##p}" remove the shortest and the longest prefix that matches the
    pattern, "${v%p}" and "${v%%p}" the shortest and the longest suffix; a value without
    such a piece stays as it is. *)
Theorem sh_strip_correct s p longest :
  ∃ l, reads p l ∧
    stripped (λ u r, s = u ++ r) longest l s (sh_strip_prefix s p longest) ∧
    stripped (λ u r, s = r ++ u) longest l s (sh_strip_suffix s p longest).
Proof.
  destruct (reads_total p) as (l & Hl & Hlen). exists l. split; [done|].
  assert (∀ u, pattern_match p u = true ↔ matches l u) as Hm by (intros; by apply pattern_match_reads). split.
  - unfold sh_strip_prefix. pose proof (strip_loop_spec lt (λ i, pattern_match p (take i s)) longest _ None (seq_sorted 0 (S (length s)))) as Hs.
    destruct (strip_loop _ _ _ _) as [i|].
    + destruct Hs as [[?|[Hi Ht]] Hj]; [done..|]. right. exists (take i s). apply elem_of_seq in Hi.
      rewrite take_drop. split_and!; [done|by apply Hm|]. intros u' r' -> Hu.
      specialize (Hj (length u')). rewrite take_app_length in Hj. rewrite length_take.
      specialize (Hj ltac:(apply elem_of_seq; rewrite length_app; lia) (proj2 (Hm _) Hu)).
      destruct longest; [|specialize (Hj eq_refl)]; rewrite length_app in *; lia.
    + destruct Hs as [_ Hno]; [done|]. left. split; [done|]. intros u r -> Hu%Hm.
      specialize (Hno (length u)). rewrite take_app_length in Hno. rewrite Hno in Hu; [done|].
      apply elem_of_seq. rewrite length_app. lia.
  - unfold sh_strip_suffix. pose proof (strip_loop_spec (flip lt) (λ i, pattern_match p (drop i s)) longest _ None (reverse_seq_sorted 0 (S (length s)))) as Hs.
    destruct (strip_loop _ _ _ _) as [i|].
    + destruct Hs as [[?|[Hi Ht]] Hj]; [done..|]. right. exists (drop i s). apply elem_of_reverse, elem_of_seq in Hi.
      rewrite take_drop. split_and!; [done|by apply Hm|]. intros u' r' -> Hu.
      specialize (Hj (length r')). rewrite drop_app_length in Hj. rewrite length_drop.
      specialize (Hj ltac:(apply elem_of_reverse, elem_of_seq; rewrite length_app; lia) (proj2 (Hm _) Hu)).
      unfold flip in Hj. destruct longest; [|specialize (Hj eq_refl)]; rewrite length_app in *; lia.
    + destruct Hs as [_ Hno]; [done|]. left. split; [done|]. intros u r -> Hu%Hm.
      specialize (Hno (length r)). rewrite drop_app_length in Hno. rewrite Hno in Hu; [done|].
      apply elem_of_reverse, elem_of_seq. rewrite length_app. lia.
Qed.
