(* ===== verification/ShellLex.v ===== *)
(** The shell's tokenizer, Tactility/Source/app/shell/shell/sh_lex.c.  A position in the
    source is the text from there on; a scanner gives the characters it puts into the word
    and the text after it.  Scanners take fuel, and answer [None] when it is used up; the
    length of the source is enough ([sh_lex_total] in ShellLexSpecs). *)

From S2P Require Import Prelude Text.

(** * Tokens (sh_lex.h) *)

Inductive tok_type :=
  | T_WORD | T_SEMI | T_AMPAMP | T_BARBAR | T_BAR | T_LT | T_GT | T_GTGT | T_GTAMP | T_LTAMP | T_CLOBBER
  | T_DLESS | T_DLESSDASH | T_LPAREN | T_RPAREN | T_DSEMI | T_NEWLINE | T_EOF.
#[export] Instance tok_type_eq_dec : EqDecision tok_type.
Proof. solve_decision. Defined.

Record sh_tok := Tok { type : tok_type; tok_text : option text; hd_quoted : bool; rfd : Z }.

(** The token that [push] makes. *)
Definition push (t : tok_type) (w : option text) : sh_tok := Tok t w false (-1).
Definition push_redir (t : tok_type) (fd : Z) : sh_tok := Tok t None false fd.
Definition word (w : text) : sh_tok := push T_WORD (Some w).
Definition op (t : tok_type) : sh_tok := push t None.

(** * Characters *)

Definition newline : ascii := "010".
Definition carriage : ascii := "013".
Definition tab : ascii := "009".
Definition quote : ascii := "'".
Definition dquote : ascii := Ascii.ascii_of_nat 34.
Definition backslash : ascii := "\".

Definition is_op_char (c : ascii) : bool := bool_decide (c ∈ $";&|<>()").
(** [src[j] == c] *)
Definition at_char (c : ascii) (s : text) : bool := bool_decide (head s = Some c).

(** The loop that copies up to a closing quote, and the quote if it is there. *)
Definition copy_until (q : ascii) (s : text) : text * text :=
  let n := span (λ c, negb (bool_decide (c = q))) s in (take n s, drop n s).
Definition copy_quoted (q : ascii) (s : text) : text * text :=
  let '(a, r) := copy_until q s in
  match r with c :: r' => (a ++ [c], r') | [] => (a, []) end.

(** What has been copied comes before what is copied next. *)
Definition before (a : text) (o : option (text * text)) : option (text * text) := '(b, r) ← o; Some (a ++ b, r).

(** * Command substitutions *)

(** A context of the explicit stack: an open parenthesis with its depth, or a double quote. *)
Inductive scan_ctx := Paren (depth : nat) | DoubleQuote.

Fixpoint cmdsub_loop (fuel : nat) (cs : list scan_ctx) (src : text) : option (text * text) :=
  match fuel with
  | O => None
  | S f =>
      match cs, src with
      | [], _ => Some ([], src)
      | _, [] => Some ([], [])
      | DoubleQuote :: cs', d :: r =>
          if (bool_decide (d = "$"%char) && at_char "(" r)%bool then
            before [d; "("%char] (cmdsub_loop f (Paren 1 :: cs) (tail r))
          else if (bool_decide (d = backslash) && negb (bool_decide (r = [])))%bool then
            before (d :: take 1 r) (cmdsub_loop f cs (tail r))
          else before [d] (cmdsub_loop f (if decide (d = dquote) then cs' else cs) r)
      | Paren depth :: cs', d :: r =>
          if decide (d = quote) then
            let '(a, r') := copy_quoted quote r in before (d :: a) (cmdsub_loop f cs r')
          else if decide (d = dquote) then before [d] (cmdsub_loop f (DoubleQuote :: cs) r)
          else if (bool_decide (d = backslash) && negb (bool_decide (r = [])))%bool then
            before (d :: take 1 r) (cmdsub_loop f cs (tail r))
          else
            let depth' := if decide (d = "("%char) then S depth else if decide (d = ")"%char) then Nat.pred depth else depth in
            before [d] (cmdsub_loop f (if decide (depth' = O) then cs' else Paren depth' :: cs') r)
      end
  end.

(** From the dollar and the parenthesis on. *)
Definition scan_cmdsub (fuel : nat) (src : text) : option (text * text) :=
  before (take 2 src) (cmdsub_loop fuel [Paren 1] (drop 2 src)).

Fixpoint backtick_loop (fuel : nat) (src : text) : option (text * text) :=
  match fuel with
  | O => None
  | S f =>
      match src with
      | [] => Some ([], [])
      | c :: r =>
          if decide (c = "`"%char) then Some ([], r)
          else if (bool_decide (c = backslash) && (at_char "`" r || at_char backslash r || at_char "$" r))%bool then
            before (take 1 r) (backtick_loop f (tail r))
          else before [c] (backtick_loop f r)
      end
  end.

(** From the backtick on; the word gets a command substitution with parentheses. *)
Definition scan_backtick (fuel : nat) (src : text) : option (text * text) :=
  let r := tail src in
  '(a, r') ← backtick_loop fuel r;
  Some ($"$(" ++ (if at_char "(" r then [" "%char] else []) ++ a ++ [")"%char], r').

(** * Parameter expansions *)

(** The characters up to a closing double quote, escapes included, and the quote. *)
Fixpoint copy_dquoted (fuel : nat) (src : text) : option (text * text) :=
  match fuel with
  | O => None
  | S f =>
      match src with
      | [] => Some ([], [])
      | c :: r =>
          if decide (c = dquote) then Some ([c], r)
          else if (bool_decide (c = backslash) && negb (bool_decide (r = [])))%bool then
            before (c :: take 1 r) (copy_dquoted f (tail r))
          else before [c] (copy_dquoted f r)
      end
  end.

Fixpoint brace_loop (fuel : nat) (depth : nat) (src : text) : option (text * text) :=
  match fuel with
  | O => None
  | S f =>
      match depth, src with
      | O, _ => Some ([], src)
      | _, [] => Some ([], [])
      | S depth', d :: r =>
          if (bool_decide (d = backslash) && negb (bool_decide (r = [])))%bool then
            before (d :: take 1 r) (brace_loop f depth (tail r))
          else if decide (d = quote) then let '(a, r') := copy_quoted quote r in before (d :: a) (brace_loop f depth r')
          else if decide (d = dquote) then '(a, r') ← copy_dquoted f r; before (d :: a) (brace_loop f depth r')
          else if (bool_decide (d = "$"%char) && at_char "(" r)%bool then
            '(a, r') ← scan_cmdsub f src; before a (brace_loop f depth r')
          else if (bool_decide (d = "$"%char) && at_char "{" r)%bool then
            before [d; "{"%char] (brace_loop f (S depth) (tail r))
          else if decide (d = "{"%char) then before [d] (brace_loop f (S depth) r)
          else if decide (d = "}"%char) then before [d] (brace_loop f depth' r)
          else before [d] (brace_loop f depth r)
      end
  end.

Definition scan_braceparam (fuel : nat) (src : text) : option (text * text) :=
  before (take 2 src) (brace_loop fuel 1 (drop 2 src)).

(** * Words *)

(** Inside double quotes, up to the closing quote or the end. *)
Fixpoint dquoted_loop (fuel : nat) (src : text) : option (text * text) :=
  match fuel with
  | O => None
  | S f =>
      match src with
      | [] => Some ([], [])
      | c :: r =>
          if decide (c = dquote) then Some ([], src)
          else if (bool_decide (c = "$"%char) && at_char "(" r)%bool then
            '(a, r') ← scan_cmdsub f src; before a (dquoted_loop f r')
          else if decide (c = "`"%char) then '(a, r') ← scan_backtick f src; before a (dquoted_loop f r')
          else if (bool_decide (c = backslash) && at_char newline r)%bool then dquoted_loop f (tail r)
          else if (bool_decide (c = backslash) && negb (bool_decide (r = [])))%bool then
            before (c :: take 1 r) (dquoted_loop f (tail r))
          else before [c] (dquoted_loop f r)
      end
  end.

Definition ends_word (c : ascii) : bool :=
  (bool_decide (c ∈ [" "%char; tab; newline; carriage]) || is_op_char c)%bool.

(** The word, or none when a quote is not closed; the position is not used then. *)
Abbreviation scanned := (option (option text * text))%type.
Definition before_word (a : text) (o : scanned) : scanned := '(w, r) ← o; Some (option_map (app a) w, r).

Fixpoint scan_word (fuel : nat) (src : text) : scanned :=
  match fuel with
  | O => None
  | S f =>
      match src with
      | [] => Some (Some [], [])
      | c :: r =>
          if ends_word c then Some (Some [], src)
          else if decide (c = quote) then
            match copy_until quote r with
            | (a, q :: r') => before_word (c :: a ++ [q]) (scan_word f r')
            | (_, []) => Some (None, [])
            end
          else if decide (c = dquote) then
            '(a, r') ← dquoted_loop f r;
            match r' with q :: r'' => before_word (c :: a ++ [q]) (scan_word f r'') | [] => Some (None, []) end
          else if decide (c = "`"%char) then '(a, r') ← scan_backtick f src; before_word a (scan_word f r')
          else if (bool_decide (c = "$"%char) && at_char "(" r)%bool then
            '(a, r') ← scan_cmdsub f src; before_word a (scan_word f r')
          else if (bool_decide (c = "$"%char) && at_char "{" r)%bool then
            '(a, r') ← scan_braceparam f src; before_word a (scan_word f r')
          else if decide (c = backslash) then
            if at_char newline r then scan_word f (tail r) else before_word (c :: take 1 r) (scan_word f (tail r))
          else before_word [c] (scan_word f r)
      end
  end.

(** * Here-documents *)

(** The delimiter without its quotes, and whether there were any. *)
Fixpoint heredoc_delim (fuel : nat) (w : text) : option (text * bool) :=
  match fuel with
  | O => None
  | S f =>
      match w with
      | [] => Some ([], false)
      | c :: r =>
          if (bool_decide (c = quote) || bool_decide (c = dquote))%bool then
            let '(a, r') := copy_until c r in '(d, _) ← heredoc_delim f (tail r'); Some (a ++ d, true)
          else if (bool_decide (c = backslash) && negb (bool_decide (r = [])))%bool then
            '(d, _) ← heredoc_delim f (tail r); Some (take 1 r ++ d, true)
          else '(d, q) ← heredoc_delim f r; Some (c :: d, q)
      end
  end.

(** The body and the text after the line of the delimiter. *)
Fixpoint collect_heredoc (fuel : nat) (delim : text) (dash : bool) (src : text) : option (text * text) :=
  match fuel with
  | O => None
  | S f =>
      match src with
      | [] => Some ([], [])
      | _ =>
          let start := if dash then drop (span (λ c, bool_decide (c = tab)) src) src else src in
          let '(line, r) := copy_until newline start in
          if decide (line = delim) then Some ([], tail r)
          else
            match r with
            | [] => Some (line ++ [newline], [])
            | _ :: r' => before (line ++ [newline]) (collect_heredoc f delim dash r')
            end
      end
  end.

(** * sh_lex *)

(** The text left, the tokens so far, and the here-documents whose bodies follow the
    present line: the index of the operator and whether it strips tabs. *)
Record lexer := Lexer { src : text; toks : list sh_tok; pend : list (nat * bool) }.

Definition MAX_PENDING : nat := 8.

Definition add (t : sh_tok) (r : text) (x : lexer) : lexer := Lexer r (toks x ++ [t]) (pend x).

Definition redir_tok (t : tok_type) (fd default : Z) : sh_tok := push_redir t (if fd <? 0 then default else fd).

(** At "<" or ">", with the descriptor before it or -1. *)
Definition lex_redir (fd : Z) (r : text) (x : lexer) : lexer :=
  if at_char "<" r then
    let r1 := tail r in
    if at_char "<" r1 then
      let dash := at_char "-" (tail r1) in
      let i := length (toks x) in
      let x' := add (op (if dash then T_DLESSDASH else T_DLESS)) (drop (if dash then 3 else 2) r) x in
      if (length (pend x) <? MAX_PENDING)%nat then Lexer (src x') (toks x') (pend x ++ [(i, dash)]) else x'
    else if at_char "&" r1 then add (redir_tok T_LTAMP fd 0) (drop 2 r) x
    else add (redir_tok T_LT fd 0) r1 x
  else
    let r1 := tail r in
    if at_char ">" r1 then add (redir_tok T_GTGT fd 1) (drop 2 r) x
    else if at_char "&" r1 then add (redir_tok T_GTAMP fd 1) (drop 2 r) x
    else if at_char "|" r1 then add (redir_tok T_CLOBBER fd 1) (drop 2 r) x
    else add (redir_tok T_GT fd 1) r1 x.

(** The bodies that follow the newline. *)
Fixpoint collect_pending (fuel : nat) (l : list (nat * bool)) (x : lexer) : option lexer :=
  match l with
  | [] => Some (Lexer (src x) (toks x) [])
  | (dt, dash) :: l' =>
      match toks x !! S dt with
      | Some (Tok T_WORD (Some w) _ _) =>
          '(delim, quoted) ← heredoc_delim (S (length w)) w;
          '(body, r) ← collect_heredoc fuel delim dash (src x);
          collect_pending fuel l'
            (Lexer r (alter (λ t, Tok (type t) (Some body) quoted (rfd t)) dt (toks x)) (pend x))
      | _ => collect_pending fuel l' x
      end
  end.

(** One turn of the loop; [None] in the result stands for an unterminated quote. *)
Definition lex_step (fuel : nat) (c : ascii) (r : text) (x : lexer) : option (option lexer) :=
  let go t n := Some (Some (add (op t) (drop n (c :: r)) x)) in
  if decide (c ∈ [" "%char; tab; carriage]) then Some (Some (Lexer r (toks x) (pend x)))
  else if (bool_decide (c = backslash) && at_char newline r)%bool then Some (Some (Lexer (tail r) (toks x) (pend x)))
  else if decide (c = "#"%char) then Some (Some (Lexer (copy_until newline r).2 (toks x) (pend x)))
  else if decide (c = newline) then
    x' ← collect_pending fuel (pend x) (add (op T_NEWLINE) r x); Some (Some x')
  else if decide (c = ";"%char) then if at_char ";" r then go T_DSEMI 2%nat else go T_SEMI 1%nat
  else if decide (c = "("%char) then go T_LPAREN 1%nat
  else if decide (c = ")"%char) then go T_RPAREN 1%nat
  else if decide (c = "&"%char) then
    if at_char "&" r then go T_AMPAMP 2%nat else Some (Some (Lexer r (toks x) (pend x)))
  else if decide (c = "|"%char) then if at_char "|" r then go T_BARBAR 2%nat else go T_BAR 1%nat
  else if decide (c ∈ $"<>") then Some (Some (lex_redir (-1) (c :: r) x))
  else
    let k := span isdigit (c :: r) in
    let r' := drop k (c :: r) in
    if (isdigit c && (at_char "<" r' || at_char ">" r'))%bool then
      Some (Some (lex_redir ((strtol 32 (c :: r)).1.1) r' x))
    else
      '(w, r') ← scan_word fuel (c :: r);
      Some (option_map (λ w, add (word w) r' x) w).

Fixpoint lex_loop (steps fuel : nat) (x : lexer) : option (option (list sh_tok)) :=
  match steps with
  | O => None
  | S n =>
      match src x with
      | [] => Some (Some (toks x ++ [op T_EOF]))
      | c :: r =>
          y ← lex_step fuel c r x;
          match y with Some x' => lex_loop n fuel x' | None => Some None end
      end
  end.

(** The tokens, or none for the result -1. *)
Definition sh_lex (s : text) : option (option (list sh_tok)) :=
  let fuel := S (length s) in lex_loop fuel fuel (Lexer s [] []).
