(* ===== verification/ShellLexSpecs.v ===== *)
(** The tokenizer answers on every source, with tokens that the parser can read; and the
    tokens of a printed command line are the tokens it was printed from. *)

From S2P Require Import Prelude Text ShellLex.

(** * Totality *)

(** A scanner has answered, and has no more than [n] characters left. *)
Definition within {A} (n : nat) (o : option (A * text)) : Prop :=
  match o with Some (_, r) => (length r ≤ n)%nat | None => False end.

Section total.
Implicit Types (a r s w : text) (f n : nat).

Lemma within_before n a o : within n o → within n (before a o).
Proof. by destruct o as [[b r]|]. Qed.

Lemma within_before_word n a (o : option (option text * text)) : within n o → within n (before_word a o).
Proof. by destruct o as [[b r]|]. Qed.

Lemma ends_within_le {A} m n (o : option (A * text)) : within m o → (m ≤ n)%nat → within n o.
Proof. destruct o as [[b r]|]; simpl; [lia|done]. Qed.

Lemma within_bind {A B} m n (o : option (A * text)) (g : A * text → option (B * text)) :
  within m o → (∀ x r, (length r ≤ m)%nat → within n (g (x, r))) → within n (o ≫= g).
Proof. destruct o as [[b r]|]; simpl; auto. Qed.

Lemma length_tail s : length (tail s) = Nat.pred (length s).
Proof. by destruct s. Qed.

Lemma copy_until_length q s : (length (copy_until q s).2 ≤ length s)%nat.
Proof. unfold copy_until. simpl. rewrite length_drop. lia. Qed.

Lemma copy_quoted_length q s : (length (copy_quoted q s).2 ≤ length s)%nat.
Proof.
  unfold copy_quoted. pose proof (copy_until_length q s) as H. destruct (copy_until q s) as [a [|c r]]; simpl in *; lia.
Qed.
End total.

(** One turn of a scanner: the rest of the scan, from a shorter text. *)
Ltac scan_bound :=
  repeat first
    [ apply within_before | apply within_before_word
    | case_decide
    | match goal with |- within _ (if ?b then _ else _) => destruct b end ].
Ltac scan_next IH := eapply ends_within_le; [apply IH|]; rewrite ?length_tail in *; simpl in *; lia.

Section loops.
Implicit Types (a r s w : text) (f n : nat).

Lemma cmdsub_loop_total f cs s : (length s < f)%nat → within (length s) (cmdsub_loop f cs s).
Proof.
  revert cs s. induction f as [|f IH]; intros cs s Hs; [lia|]. cbn [cmdsub_loop].
  destruct cs as [|[depth|] cs], s as [|d r]; try (simpl; lia).
  - case_decide.
    + pose proof (copy_quoted_length quote r). destruct (copy_quoted quote r) as [a r']. scan_bound. scan_next IH.
    + scan_bound; scan_next IH.
  - scan_bound; scan_next IH.
Qed.

Lemma scan_cmdsub_total f s : (length (drop 2 s) < f)%nat → within (length (drop 2 s)) (scan_cmdsub f s).
Proof. intros Hs. unfold scan_cmdsub. scan_bound. by apply cmdsub_loop_total. Qed.

Lemma backtick_loop_total f s : (length s < f)%nat → within (length s) (backtick_loop f s).
Proof.
  revert s. induction f as [|f IH]; intros [|c r] Hs; simpl; try lia. scan_bound; [simpl; lia|scan_next IH..].
Qed.

Lemma scan_backtick_total f s : (length (tail s) < f)%nat → within (length (tail s)) (scan_backtick f s).
Proof.
  intros Hs. unfold scan_backtick. pose proof (backtick_loop_total f (tail s) Hs) as Hb.
  by destruct (backtick_loop f (tail s)) as [[a r]|].
Qed.

Lemma copy_dquoted_total f s : (length s < f)%nat → within (length s) (copy_dquoted f s).
Proof.
  revert s. induction f as [|f IH]; intros [|c r] Hs; simpl; try lia. scan_bound; [simpl; lia|scan_next IH..].
Qed.

Lemma brace_loop_total f depth s : (length s < f)%nat → within (length s) (brace_loop f depth s).
Proof.
  revert depth s. induction f as [|f IH]; intros [|depth] [|d r] Hs; cbn [brace_loop]; try (simpl in *; lia).
  destruct (_ && _)%bool; [scan_bound; scan_next IH|].
  case_decide; [pose proof (copy_quoted_length quote r); destruct (copy_quoted quote r) as [a r']; scan_bound; scan_next IH|].
  simpl in Hs. case_decide; [apply (within_bind (length r)); [apply copy_dquoted_total; lia|]; intros; scan_bound; scan_next IH|].
  destruct (_ && _)%bool; [|scan_bound; scan_next IH].
  apply (within_bind (length (drop 2 (d :: r)))); [apply scan_cmdsub_total; rewrite length_drop; simpl; lia|].
  intros; scan_bound; rewrite length_drop in *; scan_next IH.
Qed.

Lemma scan_braceparam_total f s : (length (drop 2 s) < f)%nat → within (length (drop 2 s)) (scan_braceparam f s).
Proof. intros Hs. unfold scan_braceparam. scan_bound. by apply brace_loop_total. Qed.
End loops.

(** The scanners that are called with the dollar or the backtick. *)
Ltac scan_sub lem n :=
  apply (within_bind n); [apply lem; rewrite ?length_drop; simpl; lia|]; intros; scan_bound; rewrite ?length_drop in *.

Section words.
Implicit Types (a r s w : text) (f n : nat).

Lemma dquoted_loop_total f s : (length s < f)%nat → within (length s) (dquoted_loop f s).
Proof.
  revert s. induction f as [|f IH]; intros [|c r] Hs; cbn [dquoted_loop]; try (simpl in *; lia).
  simpl in Hs. case_decide; [simpl; lia|]. destruct (_ && _)%bool; [scan_sub scan_cmdsub_total (length (drop 2 (c :: r))); scan_next IH|].
  case_decide; [scan_sub scan_backtick_total (length r); scan_next IH|]. scan_bound; scan_next IH.
Qed.

(** A word's first character does not end it, so that something is read. *)
Lemma scan_word_total f s :
  (length s < f)%nat → within (length s) (scan_word f s) ∧
  match s with c :: r => ends_word c = false → within (length r) (scan_word f s) | [] => True end.
Proof.
  revert s. induction f as [|f IH0]; intros s Hs; [lia|].
  assert (∀ s, (length s < f)%nat → within (length s) (scan_word f s)) as IH by (intros ? ?; by apply IH0).
  destruct s as [|c r]; [by split; [simpl|]|]. simpl in Hs.
  assert (ends_word c = false → within (length r) (scan_word (S f) (c :: r))) as Hw; [|split; [|done]].
  2:{ destruct (ends_word c) eqn:Ec; [cbn [scan_word]; rewrite Ec; simpl; lia|]. eapply ends_within_le; [by apply Hw|simpl; lia]. }
  intros Ec. cbn [scan_word]. rewrite Ec. case_decide.
  { pose proof (copy_until_length quote r). destruct (copy_until quote r) as [a [|q r']]; [simpl; lia|]. scan_bound. scan_next IH. }
  case_decide.
  { apply (within_bind (length r)); [apply dquoted_loop_total; lia|]. intros a [|q r'] Hr; [simpl; lia|]. scan_bound. scan_next IH. }
  case_decide; [scan_sub scan_backtick_total (length r); scan_next IH|].
  destruct (_ && _)%bool; [scan_sub scan_cmdsub_total (length (drop 2 (c :: r))); scan_next IH|].
  destruct (_ && _)%bool; [scan_sub scan_braceparam_total (length (drop 2 (c :: r))); scan_next IH|].
  scan_bound; scan_next IH.
Qed.

Lemma heredoc_delim_total f w : (length w < f)%nat → is_Some (heredoc_delim f w).
Proof.
  revert w. induction f as [|f IH]; intros [|c r] Hs; cbn [heredoc_delim]; try (simpl in *; lia); [by eexists|].
  assert (∀ r', (length r' ≤ length r)%nat → is_Some (heredoc_delim f r')) as IH' by (intros; apply IH; simpl in *; lia).
  destruct (_ || _)%bool.
  - pose proof (copy_until_length c r) as Hc. destruct (copy_until c r) as [a r']. simpl in Hc.
    destruct (IH' (tail r')) as [[d q] E]; [rewrite length_tail; lia|]. rewrite E. by eexists.
  - destruct (_ && _)%bool.
    + destruct (IH' (tail r)) as [[d q] E]; [rewrite length_tail; lia|]. rewrite E. by eexists.
    + destruct (IH' r) as [[d q] E]; [lia|]. rewrite E. by eexists.
Qed.

Lemma collect_heredoc_total f delim dash s : (length s < f)%nat → within (length s) (collect_heredoc f delim dash s).
Proof.
  revert s. induction f as [|f IH]; intros [|c r] Hs; cbn [collect_heredoc]; try (simpl in *; lia).
  set (start := if dash then _ else _).
  assert (length start ≤ S (length r))%nat as Hstart by (unfold start; destruct dash; rewrite ?length_drop; simpl; lia).
  pose proof (copy_until_length newline start) as Hc. destruct (copy_until newline start) as [line r']. simpl in Hc.
  simpl in Hs. case_decide; [simpl; rewrite length_tail; lia|]. destruct r' as [|d r']; [simpl; lia|]. scan_bound. scan_next IH.
Qed.
End words.

(** ** Tokens *)

(** What the parser relies on: words have their text, and the end comes last only. *)
Definition tok_ok (t : sh_tok) : Prop := type t ≠ T_EOF ∧ (type t = T_WORD → is_Some (tok_text t)).
Definition toks_ok (l : list sh_tok) : Prop := ∃ l', l = l' ++ [op T_EOF] ∧ Forall tok_ok l'.

Section lexer.
Implicit Types (r s : text) (f n : nat) (x : lexer).

Definition lexer_ok (n : nat) (x : lexer) : Prop := (length (src x) ≤ n)%nat ∧ Forall tok_ok (toks x).

Lemma tok_ok_op t : t ≠ T_EOF → t ≠ T_WORD → tok_ok (op t).
Proof. by split. Qed.
Lemma tok_ok_redir t fd d : t ≠ T_EOF → t ≠ T_WORD → tok_ok (redir_tok t fd d).
Proof. by split. Qed.
Lemma tok_ok_word w : tok_ok (word w).
Proof. split; [done|]. by eexists. Qed.

Lemma add_ok n t r x : (length r ≤ n)%nat → Forall tok_ok (toks x) → tok_ok t → lexer_ok n (add t r x).
Proof. intros Hr Hx Ht. split; [done|]. simpl. apply Forall_app. split; [done|]. by apply Forall_singleton. Qed.

Lemma lex_redir_ok n fd c r x :
  (length r ≤ n)%nat → Forall tok_ok (toks x) → lexer_ok n (lex_redir fd (c :: r) x).
Proof.
  intros Hr Hx. unfold lex_redir. cbn [tail].
  assert (length (drop 1 r) ≤ n ∧ length (drop 2 r) ≤ n)%nat as [H1 H2] by (rewrite !length_drop; lia).
  destruct (at_char "<" (c :: r)).
  - destruct (at_char "<" r); [|destruct (at_char "&" r); (apply add_ok; first [done|by apply tok_ok_redir])].
    set (y := add _ _ x). assert (lexer_ok n y) as [Hs Ht] by (apply add_ok; [by destruct (at_char "-" _)|done|by destruct (at_char "-" _)]).
    by destruct (_ <? _)%nat.
  - destruct (at_char ">" r); [|destruct (at_char "&" r); [|destruct (at_char "|" r)]]; (apply add_ok; first [done|by apply tok_ok_redir]).
Qed.

Lemma collect_pending_ok f n l x :
  lexer_ok n x → (n < f)%nat → ∃ x', collect_pending f l x = Some x' ∧ lexer_ok n x'.
Proof.
  intros Hx Hf. revert x Hx. induction l as [|[dt dash] l IH]; intros x [Hs Ht]; cbn [collect_pending]; [by eexists|].
  destruct (toks x !! S dt) as [[ty [w|] hq fd]|]; [|by destruct ty; apply IH|by apply IH].
  destruct ty; try by apply IH.
  destruct (heredoc_delim_total (S (length w)) w) as [[delim quoted] E]; [lia|]. rewrite E. cbn [mbind option_bind].
  pose proof (collect_heredoc_total f delim dash (src x) ltac:(lia)) as Hc.
  destruct (collect_heredoc f delim dash (src x)) as [[body r]|]; [|done]. simpl in Hc. cbn [mbind option_bind].
  apply IH. split; simpl; [lia|]. apply Forall_alter; [done|]. intros t Ht' [Hne Hw]. split; [done|]. by eexists.
Qed.

Lemma lex_step_ok f c r x :
  Forall tok_ok (toks x) → (S (length r) < f)%nat →
  ∃ y, lex_step f c r x = Some y ∧ match y with Some x' => lexer_ok (length r) x' | None => True end.
Proof.
  intros Hx Hf. unfold lex_step.
  assert (∀ t n, t ≠ T_EOF → t ≠ T_WORD → (0 < n)%nat →
    ∃ y, Some (Some (add (op t) (drop n (c :: r)) x)) = Some y ∧ match y with Some x' => lexer_ok (length r) x' | None => True end) as Hgo.
  { intros t n H1 H2 Hn. eexists. split; [done|]. apply add_ok; [|done|by apply tok_ok_op]. destruct n; [lia|]. simpl. rewrite length_drop. lia. }
  assert (∀ r', (length r' ≤ length r)%nat → ∃ y, Some (Some (Lexer r' (toks x) (pend x))) = Some y ∧
    match y with Some x' => lexer_ok (length r) x' | None => True end) as Hskip by (intros r' Hr; eexists; split; [done|by split]).
  cbv zeta.
  case_decide; [by apply Hskip|]. destruct (_ && _)%bool; [apply Hskip; rewrite length_tail; lia|].
  case_decide; [apply Hskip; apply copy_until_length|].
  case_decide.
  { destruct (collect_pending_ok f (length r) (pend x) (add (op T_NEWLINE) r x)) as (x' & E & Hx'); [by apply add_ok|lia|].
    rewrite E. by eexists. }
  case_decide; [destruct (at_char _ _); apply Hgo; (done || lia)|]. case_decide; [apply Hgo; (done || lia)|]. case_decide; [apply Hgo; (done || lia)|].
  case_decide; [destruct (at_char _ _); [apply Hgo; (done || lia)|by apply Hskip]|].
  case_decide; [destruct (at_char _ _); apply Hgo; (done || lia)|].
  case_decide as Hredir; [eexists; split; [done|by apply lex_redir_ok]|].
  assert (∃ y, ('(w, r') ← scan_word f (c :: r); Some (option_map (λ w, add (word w) r' x) w)) = Some y ∧
    match y with Some x' => lexer_ok (length r) x' | None => True end) as Hword.
  { destruct (scan_word_total f (c :: r)) as [_ Hw]; [done|].
    assert (ends_word c = false) as Hc.
    { unfold ends_word, is_op_char. apply orb_false_iff. split; apply bool_decide_eq_false; set_solver. }
    specialize (Hw Hc). destruct (scan_word f (c :: r)) as [[[w|] r']|]; [|by eexists|done].
    eexists. split; [done|]. apply add_ok; [done|done|apply tok_ok_word]. }
  destruct (isdigit c) eqn:Ed; cbn [andb].
  - destruct (_ || _)%bool eqn:E.
    + eexists. split; [done|]. cbn [span]. rewrite Ed. cbn [drop].
      destruct (drop (span isdigit r) r) as [|d r'] eqn:Edrop; [by cbn [span drop] in E; rewrite Ed in E; simpl in E; rewrite Edrop in E|].
      apply (f_equal length) in Edrop. rewrite length_drop in Edrop. simpl in Edrop. apply lex_redir_ok; [lia|done].
    + by apply Hword.
  - by apply Hword.
Qed.

Lemma lex_loop_ok n f x :
  lexer_ok (pred n) x → (0 < n ≤ f)%nat →
  ∃ o, lex_loop n f x = Some o ∧ match o with Some l => toks_ok l | None => True end.
Proof.
  revert x. induction n as [|n IH]; intros x [Hs Hx] Hn; [lia|]. cbn [lex_loop]. simpl in Hs.
  destruct (src x) as [|c r]; [eexists; split; [done|by eexists]|]. simpl in Hs.
  destruct (lex_step_ok f c r x) as (y & E & Hy); [done|lia|]. rewrite E. cbn [mbind option_bind].
  destruct y as [x'|]; [|by eexists]. apply IH; [|lia]. destruct Hy as [Hl Ht]. split; [lia|done].
Qed.
End lexer.

(** The tokenizer stops on every source, with a syntax error or with tokens that the
    parser can read: words have a text, and the end of the input comes once, as the last. *)
Theorem sh_lex_total s : ∃ o, sh_lex s = Some o ∧ match o with Some l => toks_ok l | None => True end.
Proof. unfold sh_lex. apply lex_loop_ok; [|lia]. by split. Qed.

(** * Words as they are written *)

(** The text inside "$( )": parentheses are balanced where they are not quoted.  [inner]
    is the text of such a substitution's double quotes. *)
Inductive sub : text → Prop :=
  | sub_nil : sub []
  | sub_char c s : c ∉ [quote; dquote; backslash; "("; ")"]%char → sub s → sub (c :: s)
  | sub_quote a s : quote ∉ a → sub s → sub (quote :: a ++ quote :: s)
  | sub_dquote a s : inner a → sub s → sub (dquote :: a ++ dquote :: s)
  | sub_escape c s : sub s → sub (backslash :: c :: s)
  | sub_parens a s : sub a → sub s → sub ("("%char :: a ++ ")"%char :: s)
with inner : text → Prop :=
  | inner_nil : inner []
  | inner_char c s : c ∉ [dquote; backslash] → (c = "$"%char → head s ≠ Some "("%char) → inner s → inner (c :: s)
  | inner_escape c s : inner s → inner (backslash :: c :: s)
  | inner_sub a s : sub a → inner s → inner ("$"%char :: "("%char :: a ++ ")"%char :: s).

(** The text inside "${ }". *)
Inductive params : text → Prop :=
  | params_nil : params []
  | params_char c s :
      c ∉ [quote; dquote; backslash; "{"; "}"]%char → (c = "$"%char → head s ≠ Some "("%char ∧ head s ≠ Some "{"%char) →
      params s → params (c :: s)
  | params_quote a s : quote ∉ a → params s → params (quote :: a ++ quote :: s)
  | params_dquote a s : escaped a → params s → params (dquote :: a ++ dquote :: s)
  | params_escape c s : params s → params (backslash :: c :: s)
  | params_sub a s : sub a → params s → params ("$"%char :: "("%char :: a ++ ")"%char :: s)
  | params_braces a s : params a → params s → params ("{"%char :: a ++ "}"%char :: s)
  | params_nested a s : params a → params s → params ("$"%char :: "{"%char :: a ++ "}"%char :: s)
with escaped : text → Prop :=
  | escaped_nil : escaped []
  | escaped_char c s : c ∉ [dquote; backslash] → escaped s → escaped (c :: s)
  | escaped_escape c s : escaped s → escaped (backslash :: c :: s).

(** The text between a word's double quotes, and words: without line continuations and
    backticks, which the tokenizer rewrites. *)
Inductive dquoted : text → Prop :=
  | dquoted_nil : dquoted []
  | dquoted_char c s : c ∉ [dquote; backslash; "`"%char] → (c = "$"%char → head s ≠ Some "("%char) → dquoted s → dquoted (c :: s)
  | dquoted_escape c s : c ≠ newline → dquoted s → dquoted (backslash :: c :: s)
  | dquoted_sub a s : sub a → dquoted s → dquoted ("$"%char :: "("%char :: a ++ ")"%char :: s).

Inductive word_text : text → Prop :=
  | word_nil : word_text []
  | word_char c s :
      ends_word c = false → c ∉ [quote; dquote; backslash; "`"%char] →
      (c = "$"%char → head s ≠ Some "("%char ∧ head s ≠ Some "{"%char) → word_text s → word_text (c :: s)
  | word_quote a s : quote ∉ a → word_text s → word_text (quote :: a ++ quote :: s)
  | word_dquote a s : dquoted a → word_text s → word_text (dquote :: a ++ dquote :: s)
  | word_escape c s : c ≠ newline → word_text s → word_text (backslash :: c :: s)
  | word_sub a s : sub a → word_text s → word_text ("$"%char :: "("%char :: a ++ ")"%char :: s)
  | word_params a s : params a → word_text s → word_text ("$"%char :: "{"%char :: a ++ "}"%char :: s).

Scheme sub_mut := Minimality for sub Sort Prop with inner_mut := Minimality for inner Sort Prop.
Combined Scheme sub_inner_ind from sub_mut, inner_mut.

Section verbatim.
Implicit Types (a b r s t w : text) (f n : nat) (cs : list scan_ctx).

Lemma copy_until_app q a t : q ∉ a → copy_until q (a ++ q :: t) = (a, q :: t).
Proof.
  intros Ha. unfold copy_until. assert (span (λ c, negb (bool_decide (c = q))) (a ++ q :: t) = length a) as ->.
  - induction a as [|c a IH]; simpl; [by rewrite bool_decide_true|]. apply not_elem_of_cons in Ha as [Hc Ha].
    rewrite bool_decide_false by done. simpl. by rewrite IH.
  - by rewrite take_app_length, drop_app_length.
Qed.

Lemma copy_quoted_app q a t : q ∉ a → copy_quoted q (a ++ q :: t) = (a ++ [q], t).
Proof. intros Ha. unfold copy_quoted. by rewrite copy_until_app. Qed.

Lemma before_before a b o : before a (before b o) = before (a ++ b) o.
Proof. destruct o as [[c r]|]; simpl; [by rewrite app_assoc|done]. Qed.

Lemma at_char_cons c d s : at_char c (d :: s) = bool_decide (d = c).
Proof. unfold at_char. simpl. apply bool_decide_ext. naive_solver. Qed.

Lemma at_char_app c s t : at_char c t = false → head s ≠ Some c → at_char c (s ++ t) = false.
Proof. destruct s as [|d s]; [done|]. intros _ Hd. unfold at_char. simpl in *. by apply bool_decide_eq_false. Qed.
End verbatim.

(** Decide a condition on characters that are given. *)
Ltac chars := first [done | apply (bool_decide_unpack _); vm_compute; exact I].

(** Decide the tests on the next character. *)
Ltac next_char f :=
  repeat match goal with H : _ ∉ _ :: _ |- _ => apply not_elem_of_cons in H as [? H] end;
  destruct f as [|f]; [simpl in *; lia|]; cbn [app];
  cbn [cmdsub_loop copy_dquoted brace_loop dquoted_loop scan_word head tail take].
Ltac test :=
  match goal with
  | |- context [decide ?P] => first [rewrite (decide_False (P := P)) by chars | rewrite (decide_True (P := P)) by chars]
  | |- context [bool_decide ?P] => first [rewrite (bool_decide_false P) by done | rewrite (bool_decide_true P) by done]
  | |- context [copy_quoted _ _] => rewrite copy_quoted_app by done
  | |- context [at_char _ (_ :: _)] => rewrite at_char_cons
  end; cbn [andb orb negb Nat.pred].

Ltac fuel_bound := do 4 (cbn [length app] in *; rewrite ?length_app in *); cbn [length] in *; lia.

Section verbatim_subs.
Implicit Types (a b r s t w : text) (f n : nat) (cs : list scan_ctx).

Lemma sub_inner_passes :
  (∀ s, sub s → ∀ t f d cs, (length (s ++ t) < f)%nat → ∃ g, (length t < g)%nat ∧
    cmdsub_loop f (Paren (S d) :: cs) (s ++ t) = before s (cmdsub_loop g (Paren (S d) :: cs) t)) ∧
  (∀ s, inner s → ∀ t f cs, at_char "(" t = false → (length (s ++ t) < f)%nat → ∃ g, (length t < g)%nat ∧
    cmdsub_loop f (DoubleQuote :: cs) (s ++ t) = before s (cmdsub_loop g (DoubleQuote :: cs) t)).
Proof.
  apply sub_inner_ind.
  - intros t f d cs Hf. exists f. split; [done|]. by destruct (cmdsub_loop _ _ _) as [[]|].
  - intros c s Hc _ IH t f d cs Hf. next_char f.
    repeat test. destruct (IH t f d cs) as (g & Hg & ->); [simpl in *; lia|]. exists g. by rewrite before_before.
  - intros a s Ha _ IH t f d cs Hf. next_char f. rewrite <-app_assoc. cbn [app]. repeat test.
    destruct (IH t f d cs) as (g & Hg & ->); [rewrite ?length_app in *; simpl in *; rewrite ?length_app in *; simpl in *; lia|].
    exists g. rewrite before_before. simpl. by rewrite <-app_assoc.
  - intros a s _ IHa _ IH t f d cs Hf. next_char f. rewrite <-app_assoc. cbn [app]. repeat test.
    destruct (IHa (dquote :: s ++ t) f (Paren (S d) :: cs)) as (g & Hg & ->); [done|rewrite ?length_app in *; simpl in *; rewrite ?length_app in *; simpl in *; lia|].
    next_char g. repeat test.
    destruct (IH t g d cs) as (g' & Hg' & ->); [simpl in *; lia|]. exists g'. rewrite !before_before. simpl. by rewrite <-app_assoc.
  - intros c s _ IH t f d cs Hf. next_char f. repeat test. 
    destruct (IH t f d cs) as (g & Hg & ->); [simpl in *; lia|]. exists g. by rewrite before_before.
  - intros a s _ IHa _ IH t f d cs Hf. next_char f. rewrite <-app_assoc. cbn [app]. repeat test.
    destruct (IHa (")"%char :: s ++ t) f (S d) cs) as (g & Hg & ->); [rewrite ?length_app in *; simpl in *; rewrite ?length_app in *; simpl in *; lia|].
    next_char g. repeat test.
    destruct (IH t g d cs) as (g' & Hg' & ->); [simpl in *; lia|]. exists g'. rewrite !before_before. simpl. by rewrite <-app_assoc.
  - intros t f cs _ Hf. exists f. split; [done|]. by destruct (cmdsub_loop _ _ _) as [[]|].
  - intros c s Hc Hd _ IH t f cs Ht Hf. next_char f.
    assert ((bool_decide (c = "$"%char) && at_char "(" (s ++ t))%bool = false) as ->.
    { case_bool_decide; [|done]. simpl. apply at_char_app; auto. }
    repeat test. destruct (IH t f cs) as (g & Hg & ->); [done|simpl in *; lia|]. exists g. by rewrite before_before.
  - intros c s _ IH t f cs Ht Hf. next_char f. repeat test.
    destruct (IH t f cs) as (g & Hg & ->); [done|simpl in *; lia|]. exists g. by rewrite before_before.
  - intros a s _ IHa _ IH t f cs Ht Hf. next_char f. rewrite <-app_assoc. cbn [app]. repeat test. cbn [tail].
    destruct (IHa (")"%char :: s ++ t) f O (DoubleQuote :: cs)) as (g & Hg & ->); [rewrite ?length_app in *; simpl in *; rewrite ?length_app in *; simpl in *; lia|].
    next_char g. repeat test.
    destruct (IH t g cs) as (g' & Hg' & ->); [done|simpl in *; lia|]. exists g'. rewrite !before_before. simpl. by rewrite <-app_assoc.
Qed.

Lemma scan_cmdsub_app a t f :
  sub a → (length (a ++ ")"%char :: t) < f)%nat →
  scan_cmdsub f ("$"%char :: "("%char :: a ++ ")"%char :: t) = Some ("$"%char :: "("%char :: a ++ [")"%char], t).
Proof.
  intros Ha Hf. unfold scan_cmdsub. simpl drop. rewrite drop_0. simpl take. rewrite take_0.
  destruct (proj1 sub_inner_passes a Ha (")"%char :: t) f O []) as (g & Hg & ->); [done|].
  next_char g. repeat test. destruct g as [|g]; [simpl in *; lia|]. done.
Qed.

Lemma copy_dquoted_app a t f :
  escaped a → (length (a ++ dquote :: t) < f)%nat → copy_dquoted f (a ++ dquote :: t) = Some (a ++ [dquote], t).
Proof.
  intros Ha. revert f. induction Ha as [|c s Hc _ IH|c s _ IH]; intros f Hf; next_char f; repeat test; [done|..];
    by rewrite IH by fuel_bound.
Qed.

Lemma params_passes s :
  params s → ∀ t f d, at_char "(" t = false → at_char "{" t = false → (length (s ++ t) < f)%nat →
  ∃ g, (length t < g)%nat ∧ brace_loop f (S d) (s ++ t) = before s (brace_loop g (S d) t).
Proof.
  induction 1 as [|c s Hc Hd _ IH|a s Ha _ IH|a s Ha _ IH|c s _ IH|a s Ha _ IH|a s _ IHa _ IH|a s _ IHa _ IH];
    intros t f d Ht1 Ht2 Hf.
  - exists f. split; [done|]. by destruct (brace_loop _ _ _) as [[]|].
  - next_char f. assert (∀ e, e = "("%char ∨ e = "{"%char → (bool_decide (c = "$"%char) && at_char e (s ++ t))%bool = false) as Hno.
    { intros e He. case_bool_decide; [|done]. destruct Hd as [? ?]; [done|]. destruct He as [-> | ->]; simpl; by apply at_char_app. }
    rewrite !Hno by auto. repeat test. destruct (IH t f d) as (g & Hg & ->); [done..|fuel_bound|]. exists g. by rewrite before_before.
  - next_char f. rewrite <-app_assoc. cbn [app]. repeat test.
    destruct (IH t f d) as (g & Hg & ->); [done..|fuel_bound|]. exists g. rewrite before_before. simpl. by rewrite <-app_assoc.
  - next_char f. rewrite <-app_assoc. cbn [app]. repeat test. rewrite copy_dquoted_app by first [done|fuel_bound]. cbn [mbind option_bind].
    destruct (IH t f d) as (g & Hg & ->); [done..|fuel_bound|]. exists g. rewrite before_before. simpl. by rewrite <-app_assoc.
  - next_char f. repeat test. destruct (IH t f d) as (g & Hg & ->); [done..|fuel_bound|]. exists g. by rewrite before_before.
  - next_char f. rewrite <-app_assoc. cbn [app]. repeat test. rewrite scan_cmdsub_app by first [done|fuel_bound]. cbn [mbind option_bind].
    destruct (IH t f d) as (g & Hg & ->); [done..|fuel_bound|]. exists g. rewrite before_before. simpl. by rewrite <-app_assoc.
  - next_char f. rewrite <-app_assoc. cbn [app]. repeat test.
    destruct (IHa ("}"%char :: s ++ t) f (S d)) as (g & Hg & ->); [done..|fuel_bound|].
    next_char g. repeat test. destruct (IH t g d) as (g' & Hg' & ->); [done..|fuel_bound|].
    exists g'. rewrite !before_before. simpl. by rewrite <-app_assoc.
  - next_char f. rewrite <-app_assoc. cbn [app]. repeat test.
    destruct (IHa ("}"%char :: s ++ t) f (S d)) as (g & Hg & ->); [done..|fuel_bound|].
    next_char g. repeat test. destruct (IH t g d) as (g' & Hg' & ->); [done..|fuel_bound|].
    exists g'. rewrite !before_before. simpl. by rewrite <-app_assoc.
Qed.

Lemma scan_braceparam_app a t f :
  params a → (length (a ++ "}"%char :: t) < f)%nat →
  scan_braceparam f ("$"%char :: "{"%char :: a ++ "}"%char :: t) = Some ("$"%char :: "{"%char :: a ++ ["}"%char], t).
Proof.
  intros Ha Hf. unfold scan_braceparam. simpl drop. rewrite drop_0. simpl take. rewrite take_0.
  destruct (params_passes a Ha ("}"%char :: t) f O) as (g & Hg & ->); [done..|].
  next_char g. repeat test. destruct g as [|g]; [simpl in *; lia|]. done.
Qed.

Lemma dquoted_app a t f :
  dquoted a → (length (a ++ dquote :: t) < f)%nat → dquoted_loop f (a ++ dquote :: t) = Some (a, dquote :: t).
Proof.
  intros Ha. revert f. induction Ha as [|c s Hc Hd _ IH|c s Hc _ IH|a s Ha _ IH]; intros f Hf; next_char f.
  - repeat test. done.
  - assert ((bool_decide (c = "$"%char) && at_char "(" (s ++ dquote :: t))%bool = false) as ->.
    { case_bool_decide; [|done]. simpl. apply at_char_app; auto. }
    repeat test. by rewrite IH by fuel_bound.
  - repeat test. by rewrite IH by fuel_bound.
  - rewrite <-app_assoc. cbn [app]. repeat test. rewrite scan_cmdsub_app by first [done|fuel_bound]. cbn [mbind option_bind].
    rewrite IH by fuel_bound. simpl. by rewrite <-app_assoc.
Qed.

(** A word is read as it is written, up to a character that ends it. *)
Lemma scan_word_app w t f :
  word_text w → match t with c :: _ => ends_word c = true ∧ c ≠ "("%char | [] => True end → (length (w ++ t) < f)%nat →
  scan_word f (w ++ t) = Some (Some w, t).
Proof.
  intros Hw Ht. assert (∀ e, e = "("%char ∨ e = "{"%char → at_char e t = false) as Hno.
  { intros e He. destruct t as [|c t]; [done|]. destruct Ht as [Ht Hc]. rewrite at_char_cons. apply bool_decide_eq_false.
    intros ->. by destruct He as [-> | ->]. }
  revert f. induction Hw as [|c s Hc Hs Hd _ IH|a s Ha _ IH|a s Ha _ IH|c s Hc _ IH|a s Ha _ IH|a s Ha _ IH]; intros f Hf.
  - destruct f as [|f]; [simpl in *; lia|]. destruct t as [|c t]; [done|]. cbn [app scan_word]. destruct Ht as [-> _]. done.
  - next_char f. rewrite Hc.
    assert (∀ e, e = "("%char ∨ e = "{"%char → (bool_decide (c = "$"%char) && at_char e (s ++ t))%bool = false) as Hno'.
    { intros e He. case_bool_decide; [|done]. destruct Hd as [? ?]; [done|]. destruct He as [-> | ->]; simpl; apply at_char_app; auto. }
    rewrite !Hno' by auto. repeat test. rewrite IH by fuel_bound. done.
  - next_char f. change (ends_word quote) with false. rewrite <-app_assoc. cbn [app]. repeat test. rewrite copy_until_app by done.
    rewrite IH by fuel_bound. simpl. by rewrite <-app_assoc.
  - next_char f. change (ends_word dquote) with false. rewrite <-app_assoc. cbn [app]. repeat test.
    rewrite dquoted_app by first [done|fuel_bound]. cbn [mbind option_bind]. rewrite IH by fuel_bound. simpl. by rewrite <-app_assoc.
  - next_char f. change (ends_word backslash) with false. repeat test. rewrite IH by fuel_bound. done.
  - next_char f. change (ends_word "$") with false. rewrite <-app_assoc. cbn [app]. repeat test.
    rewrite scan_cmdsub_app by first [done|fuel_bound]. cbn [mbind option_bind]. rewrite IH by fuel_bound. simpl. by rewrite <-app_assoc.
  - next_char f. change (ends_word "$") with false. rewrite <-app_assoc. cbn [app]. repeat test.
    rewrite scan_braceparam_app by first [done|fuel_bound]. cbn [mbind option_bind]. rewrite IH by fuel_bound. simpl. by rewrite <-app_assoc.
Qed.
End verbatim_subs.

(** * Printing tokens *)

Definition op_text (t : tok_type) : text :=
  match t with
  | T_SEMI => $";" | T_AMPAMP => $"&&" | T_BARBAR => $"||" | T_BAR => $"|" | T_LPAREN => $"(" | T_RPAREN => $")"
  | T_DSEMI => $";;" | T_NEWLINE => [newline]
  | T_LT => $"<" | T_GT => $">" | T_GTGT => $">>" | T_GTAMP => $">&" | T_LTAMP => $"<&" | T_CLOBBER => $">|"
  | _ => []
  end.

(** The tokens of a command line without here-documents. *)
Inductive printable : sh_tok → Prop :=
  | printable_word w : word_text w → w ≠ [] → head w ≠ Some "#"%char → printable (word w)
  | printable_op t : t ∈ [T_SEMI; T_AMPAMP; T_BARBAR; T_BAR; T_LPAREN; T_RPAREN; T_DSEMI; T_NEWLINE] → printable (op t)
  | printable_redir t fd : t ∈ [T_LT; T_GT; T_GTGT; T_GTAMP; T_LTAMP; T_CLOBBER] → 0 ≤ fd < 2^31 → printable (push_redir t fd).

Definition print_tok (t : sh_tok) : text :=
  match tok_text t with
  | Some w => w
  | None => (if rfd t <? 0 then [] else print_long (rfd t)) ++ op_text (type t)
  end.
Definition print_toks (l : list sh_tok) : text := concat ((λ t, print_tok t ++ [" "%char]) <$> l).

Section printing.
Implicit Types (r s w rest : text) (x : lexer).

Lemma ends_word_ne c :
  ends_word c = false →
  c ∉ [" "%char; tab; carriage] ∧ c ≠ newline ∧ c ≠ ";"%char ∧ c ≠ "("%char ∧ c ≠ ")"%char ∧ c ≠ "&"%char ∧
  c ≠ "|"%char ∧ c ∉ $"<>".
Proof.
  unfold ends_word, is_op_char. intros [H1 H2]%orb_false_iff. apply bool_decide_eq_false in H1, H2.
  cbn [list_ascii_of_string] in *. set_solver.
Qed.

(** The first character decides that a word is scanned. *)
Lemma lex_step_word f c r x :
  ends_word c = false → (bool_decide (c = backslash) && at_char newline r)%bool = false → c ≠ "#"%char →
  (isdigit c && (at_char "<" (drop (span isdigit (c :: r)) (c :: r)) || at_char ">" (drop (span isdigit (c :: r)) (c :: r))))%bool = false →
  lex_step f c r x = '(w, r') ← scan_word f (c :: r); Some (option_map (λ w, add (word w) r' x) w).
Proof.
  intros (H1 & H2 & H3 & H4 & H5 & H6 & H7 & H8)%ends_word_ne Hb Hh Hd. unfold lex_step. cbv zeta. rewrite Hb, Hd.
  repeat rewrite decide_False by done. done.
Qed.

Lemma span_digits_stop (d t : text) :
  Forall (λ c, isdigit c = true) d → match t with c :: _ => isdigit c = false | [] => True end →
  span isdigit (d ++ t) = length d.
Proof.
  intros Hd Ht. induction Hd as [|c d Hc Hd IH]; simpl; [by apply span_stop|]. by rewrite Hc, IH.
Qed.

Lemma digit_not c : isdigit c = true → ends_word c = false ∧ c ≠ "#"%char ∧ c ≠ backslash ∧ isspace c = false ∧ c ≠ "-"%char ∧ c ≠ "+"%char.
Proof.
  intros Hc. split_and!; try (intros ->; done).
  - unfold ends_word, is_op_char. apply orb_false_iff. split; apply bool_decide_eq_false; intros Hin;
      repeat (apply elem_of_cons in Hin as [->|Hin]; [done|]); by apply not_elem_of_nil in Hin.
  - unfold isspace, isdigit, between in *. rewrite bool_decide_false by by intros ->.
    assert (code "0" = 48 ∧ code "009" = 9 ∧ code "013" = 13) as (E1 & E2 & E3) by done. rewrite E1, E2, E3 in *. lia.
Qed.

(** A descriptor before a redirection is read as it was printed. *)
Lemma lex_step_fd f c d t x fd :
  c :: d = print_long fd → 0 ≤ fd < 2^31 → (at_char "<" t || at_char ">" t)%bool = true →
  lex_step f c (d ++ t) x = Some (Some (lex_redir fd t x)).
Proof.
  intros E Hfd Ht. unfold print_long in E. rewrite (proj2 (Z.ltb_ge fd 0)) in E by lia.
  destruct (print_digits_spec 20 fd []) as (ds & Eds & Hne & Hds & Hv); [lia|lia|]. rewrite app_nil_r in Eds. rewrite Eds in E. subst ds.
  assert (match t with e :: _ => isdigit e = false | [] => True end) as Hstop.
  { destruct t as [|e t]; [done|]. rewrite !at_char_cons in Ht. apply orb_true_iff in Ht as [Ht|Ht]; bsimpl; by subst. }
  pose proof (span_digits_stop _ _ Hds Hstop) as Hspan. cbn [app] in Hspan.
  assert (drop (length (c :: d)) (c :: d ++ t) = t) as Hdrop by apply (drop_app_length (c :: d)).
  pose proof Hds as Hc%Forall_inv. destruct (digit_not c Hc) as (Hw & Hh & Hb & Hsp & Hm & Hpl).
  assert ((strtol 32 (c :: d ++ t)).1.1 = fd) as Hval.
  { unfold strtol. cbn [span]. rewrite Hsp, drop_0.
    assert ((match c :: d ++ t with "-"%char :: _ => (-1, 1%nat) | "+"%char :: _ => (1, 1%nat) | _ => (1, O) end) = (1, O)) as ->.
    { clear -Hm Hpl. destruct c as [[] [] [] [] [] [] [] []]; try done; congruence. }
    rewrite drop_0, Hspan. cbn [length]. change (S (length d)) with (length (c :: d)).
    assert (take (length (c :: d)) (c :: d ++ t) = c :: d) as -> by apply (take_app_length (c :: d)).
    rewrite Hv. cbn [length]. rewrite (proj2 (Z.ltb_ge _ _)), (proj2 (Z.ltb_ge _ _)) by lia. cbn [fst]. lia. }
  apply ends_word_ne in Hw as (H1 & H2 & H3 & H4 & H5 & H6 & H7 & H8).
  unfold lex_step. cbv zeta. rewrite Hspan, Hdrop, Hval, Ht, Hc.
  rewrite (bool_decide_false (c = backslash)) by done. cbn [andb]. repeat rewrite decide_False by done. done.
Qed.

Definition prints_as (t : sh_tok) (s : text) : Prop :=
  ∃ c r, s = c :: r ∧ ∀ f rest x, (length (s ++ " "%char :: rest) < f)%nat → pend x = [] →
    lex_step f c (r ++ " "%char :: rest) x = Some (Some (add t (" "%char :: rest) x)).

Lemma print_op (t : tok_type) :
  t ∈ [T_SEMI; T_AMPAMP; T_BARBAR; T_BAR; T_LPAREN; T_RPAREN; T_DSEMI; T_NEWLINE] → prints_as (op t) (op_text t).
Proof.
  intros Ht. repeat (apply elem_of_cons in Ht as [->|Ht];
    [eexists _, _; split; [reflexivity|]; intros f rest x _ Hx; unfold lex_step; cbv zeta; cbn [app]; repeat test; cbn [drop]|]).
  9: by apply not_elem_of_nil in Ht.
  all: try done. unfold add. by rewrite Hx.
Qed.

Lemma lex_redir_print (t : tok_type) fd rest x :
  t ∈ [T_LT; T_GT; T_GTGT; T_GTAMP; T_LTAMP; T_CLOBBER] → 0 ≤ fd →
  lex_redir fd (op_text t ++ " "%char :: rest) x = add (push_redir t fd) (" "%char :: rest) x.
Proof.
  intros Ht Hfd. assert (∀ t d, redir_tok t fd d = push_redir t fd) as Hr.
  { intros. unfold redir_tok. by rewrite (proj2 (Z.ltb_ge fd 0)). }
  repeat (apply elem_of_cons in Ht as [->|Ht]; [unfold lex_redir; cbn [op_text app list_ascii_of_string tail drop]; repeat test; by rewrite Hr|]).
  by apply not_elem_of_nil in Ht.
Qed.

Lemma print_redir (t : tok_type) fd :
  t ∈ [T_LT; T_GT; T_GTGT; T_GTAMP; T_LTAMP; T_CLOBBER] → 0 ≤ fd < 2^31 →
  prints_as (push_redir t fd) (print_long fd ++ op_text t).
Proof.
  intros Ht Hfd. pose proof (print_long_nonempty fd) as Hne. destruct (print_long fd) as [|c d] eqn:E; [done|].
  exists c, (d ++ op_text t). split; [done|]. intros f rest x _ _. rewrite <-app_assoc.
  rewrite (lex_step_fd f c d (op_text t ++ " "%char :: rest) x fd); [|done|done|].
  - by rewrite lex_redir_print by (done || lia).
  - clear -Ht. repeat (apply elem_of_cons in Ht as [->|Ht]; [cbn [op_text app list_ascii_of_string]; by repeat test|]).
    by apply not_elem_of_nil in Ht.
Qed.

Lemma word_head w : word_text w → w ≠ [] →
  ∃ c r, w = c :: r ∧ ends_word c = false ∧ (c = backslash → ∃ d r', r = d :: r' ∧ d ≠ newline).
Proof.
  intros [|c s Hc Hs Hd Hw|a s Ha Hw|a s Ha Hw|c s Hc Hw|a s Ha Hw|a s Ha Hw] Hne; [done|..];
    (eexists _, _; split; [reflexivity|]; split; [done|]); try (by intros [=]).
  - intros ->. by repeat (apply not_elem_of_cons in Hs as [? Hs]).
  - intros _. eauto.
Qed.

(** The digits at the start of a word are followed by a character of the word, or by the
    space: not by a redirection. *)
Lemma word_digits w rest :
  word_text w → let r := drop (span isdigit (w ++ " "%char :: rest)) (w ++ " "%char :: rest) in
  (at_char "<" r || at_char ">" r)%bool = false.
Proof.
  intros Hw. cbv zeta. induction Hw as [|c s Hc Hs Hd Hw IH|a s Ha _ IH|a s Ha _ IH|c s Hc _ IH|a s Ha _ IH|a s Ha _ IH]; try done.
  cbn [app span]. destruct (isdigit c); [done|]. cbn [drop]. rewrite !at_char_cons.
  apply orb_false_iff. split; apply bool_decide_eq_false; intros ->; done.
Qed.

Lemma print_word w : word_text w → w ≠ [] → head w ≠ Some "#"%char → prints_as (word w) w.
Proof.
  intros Hw Hne Hh. destruct (word_head w Hw Hne) as (c & r & -> & Hc & Hb).
  exists c, r. split; [done|]. intros f rest x Hf _. rewrite lex_step_word; [|done| |by intros ->|].
  - change (c :: r ++ " "%char :: rest) with ((c :: r) ++ " "%char :: rest). by rewrite scan_word_app.
  - case_bool_decide; [|done]. destruct Hb as (d & r' & -> & Hd); [done|]. cbn [app andb]. rewrite at_char_cons. by apply bool_decide_eq_false.
  - pose proof (word_digits (c :: r) rest Hw) as Hd. cbv zeta in Hd. cbn [app] in Hd. rewrite Hd. by rewrite andb_false_r.
Qed.

Lemma printable_prints t : printable t → prints_as t (print_tok t).
Proof.
  intros [w ? ? ?|t' Ht|t' fd Ht Hfd]; [by apply print_word|by apply print_op|].
  unfold print_tok. cbn [tok_text push_redir rfd type]. rewrite (proj2 (Z.ltb_ge fd 0)) by lia. by apply print_redir.
Qed.

Lemma lex_loop_print l n f x :
  Forall printable l → pend x = [] → src x = print_toks l → (length (src x) < n ≤ f)%nat →
  lex_loop n f x = Some (Some (toks x ++ l ++ [op T_EOF])).
Proof.
  intros Hl. revert n x. induction Hl as [|t l Ht Hl IH]; intros n x Hp Hs Hn.
  - destruct n as [|n]; [lia|]. cbn [lex_loop]. by rewrite Hs.
  - destruct (printable_prints t Ht) as (c & r & Hc & Hstep).
    assert (src x = c :: r ++ " "%char :: print_toks l) as E.
    { rewrite Hs. unfold print_toks. cbn [fmap list_fmap concat]. rewrite Hc. cbn [app]. by rewrite <-app_assoc. }
    destruct n as [|n]; [lia|]. cbn [lex_loop]. rewrite E. rewrite E in Hn. rewrite Hstep; [|rewrite Hc; simpl in *; lia|done].
    cbn [mbind option_bind]. simpl in Hn. rewrite length_app in Hn. simpl in Hn.
    destruct n as [|n]; [lia|]. cbn [lex_loop src add]. unfold lex_step. cbv zeta. rewrite decide_True by set_solver.
    cbn [mbind option_bind]. rewrite IH; [|done|done|simpl; lia]. cbn [toks add]. by rewrite <-app_assoc.
Qed.
End printing.

(** C36: a printed command line is read back as the tokens it was printed from, whatever
    quotes, escapes, command substitutions and parameter expansions its words contain. *)
Theorem sh_lex_print l : Forall printable l → sh_lex (print_toks l) = Some (Some (l ++ [op T_EOF])).
Proof. intros Hl. unfold sh_lex. by rewrite (lex_loop_print l) by (done || simpl; lia). Qed.

(** [a'b c'"$(x ')') y"${v:-w}\;] *)
Definition demo_word : text := $"a'b c'" ++ dquote :: $"$(x ')') y" ++ dquote :: $"${v:-w}\;".
Lemma demo_word_text : word_text demo_word.
Proof.
  apply word_char; [done|chars|done|]. apply (word_quote ($"b c") (dquote :: _)); [chars|].
  apply (word_dquote ($"$(x ')') y") ($"${v:-w}\;")).
  - apply (dquoted_sub ($"x ')'") ($" y")); [|do 2 (apply dquoted_char; [chars|done|]); constructor].
    do 2 (apply sub_char; [chars|]). apply (sub_quote ($")") []); [chars|constructor].
  - apply (word_params ($"v:-w") ($"\;")); [do 4 (apply params_char; [chars|done|]); constructor|].
    apply word_escape; [chars|constructor].
Qed.

Definition demo_line : list sh_tok :=
  [word ($"ls"); op T_BAR; op T_LPAREN; word demo_word; op T_RPAREN; push_redir T_GTGT 2; word ($"f")].
Lemma sh_lex_print_witness : sh_lex (print_toks demo_line) = Some (Some (demo_line ++ [op T_EOF])).
Proof.
  apply sh_lex_print.
  assert (∀ w, word_text w → w ≠ [] → head w ≠ Some "#"%char → printable (word w)) as Hw by (intros; by constructor).
  assert (word_text ($"ls") ∧ word_text ($"f")) as [? ?] by (split; repeat (apply word_char; [done|chars|done|]); constructor).
  repeat apply List.Forall_cons; try apply List.Forall_nil;
    try (apply Hw; [first [done|apply demo_word_text]|done|done]); try (apply printable_op; chars).
  apply printable_redir; [chars|lia].
Defined.
