(* ===== verification/ShellParse.v ===== *)
(** The shell's parser, Tactility/Source/app/shell/shell/sh_parse.cpp: a push-down machine
    with a frame for each grammar rule in progress.  Reading a token out of range, or the
    text of a token that has none, is undefined behaviour. *)

From S2P Require Import Prelude Text ShellLex.

(** * The syntax tree (sh_parse.h) *)

Inductive redir_kind := R_IN | R_OUT | R_APPEND | R_HEREDOC | R_DUP | R_CLOSE.
Record sh_redir := Redir { kind : redir_kind; fd : Z; dupfd : Z; redir_word : option text; heredoc_quoted : bool }.

(** [struct node]: the fields that every kind has, and those of its kind. *)
Inductive node :=
  | Node (negated : bool) (redirs : list sh_redir) (k : node_kind)
with node_kind :=
  | N_LIST (children : list node)
  | N_ANDOR (left right : node) (andor_op : tok_type)
  | N_PIPE (children : list node)
  | N_SIMPLE (assigns words : list text)
  | N_IF (clauses : list (node * node)) (else_body : option node)
  | N_WHILE (cond : node) (until : bool) (body : node)
  | N_FOR (for_name : text) (for_words : list text) (for_implicit : bool) (body : node)
  | N_CASE (case_word : text) (clauses : list (list text * node))
  | N_GROUP (subshell : bool) (body : node)
  | N_FUNCDEF (func_name : text) (body : node).

Definition new_node (k : node_kind) : node := Node false [] k.
Definition set_negated (b : bool) (n : node) : node := let 'Node _ rs k := n in Node b rs k.
Definition add_redirs (l : list sh_redir) (n : node) : node := let 'Node b rs k := n in Node b (rs ++ l) k.
Definition nchild (n : node) : nat :=
  match n with Node _ _ (N_LIST l) | Node _ _ (N_PIPE l) => length l | _ => O end.

(** * Helpers *)

Definition is_redir_tok (t : tok_type) : bool :=
  bool_decide (t ∈ [T_LT; T_GT; T_GTGT; T_GTAMP; T_LTAMP; T_CLOBBER; T_DLESS; T_DLESSDASH]).

Definition all_digits (s : text) : bool := (negb (bool_decide (s = [])) && forallb isdigit s)%bool.

Definition name_start (c : ascii) : bool := (bool_decide (c = "_"%char) || isupper c || islower c)%bool.
Definition name_char (c : ascii) : bool := (name_start c || isdigit c)%bool.

(** A name and an equals sign. *)
Definition looks_like_assign (w : text) : bool :=
  match w with
  | c :: q =>
      (name_start c && bool_decide (head (drop (span name_char q) q) = Some "="%char))%bool
  | [] => false
  end.

Definition reserved : list text := [$"then"; $"else"; $"elif"; $"fi"; $"do"; $"done"; $"esac"; $"}"].

(** * Frames *)

(** The rules in progress, with what each keeps from one step to the next. *)
Inductive ParseFrame :=
  | ParseList (n : option (list node))
  | ParseAndOr_Start
  | ParseAndOr_Left
  | ParseAndOr_Right (left : node) (op : tok_type)
  | ParsePipeline_Start
  | ParsePipeline_First (negated : bool)
  | ParsePipeline_Next (negated : bool) (pipe : list node)
  | ParseCommand (started : bool)
  | ParseGroup (subshell started : bool)
  | ParseFuncdef (name : option text)
  | ParseIf_Start
  | ParseIf_Cond (clauses : list (node * node))
  | ParseIf_Body (clauses : list (node * node)) (cond : node)
  | ParseIf_Else (clauses : list (node * node))
  | ParseWhile_Start
  | ParseWhile_Cond (until : bool)
  | ParseWhile_Body (until : bool) (cond : node)
  | ParseFor (n : option (text * list text * bool))
  | ParseCase (n : option (text * list (list text * node) * list text)).

(** What a step answers: call a nested rule and stay as the first frame, or be done. *)
Inductive Step := Call (self callee : ParseFrame) | Return (n : node) | Fail.

Record parser := Parser { pos : nat; err : option text }.
Definition set_pos (p : nat) (s : parser) : parser := Parser p (err s).

Section parser.
Variable toks : list sh_tok.

Definition tok_at (i : nat) : M parser sh_tok := deref (λ _, toks !! i).
Definition cur : M parser sh_tok := p ← gets pos; tok_at p.
Definition curt : M parser tok_type := t ← cur; mret (type t).
Definition peekt : M parser tok_type :=
  t ← curt; if decide (t = T_EOF) then mret T_EOF else p ← gets pos; t' ← tok_at (S p); mret (type t').
Definition adv : M parser unit :=
  t ← curt; if decide (t = T_EOF) then mret tt else modify (λ s, set_pos (S (pos s)) s).
Definition cur_text : M parser text := t ← cur; match tok_text t with Some w => mret w | None => undef end.

(** The loops that skip or collect tokens; the number of tokens bounds them. *)
Fixpoint skip (test : tok_type → bool) (fuel : nat) : M parser unit :=
  match fuel with
  | O => undef
  | S f => t ← curt; if test t then adv;; skip test f else mret tt
  end.
Definition fuel : nat := S (length toks).
Definition is_sep (t : tok_type) : bool := bool_decide (t = T_NEWLINE ∨ t = T_SEMI).
Definition skip_seps : M parser unit := skip is_sep fuel.
Definition skip_newlines : M parser unit := skip (λ t, bool_decide (t = T_NEWLINE)) fuel.

Definition is_word (kw : text) : M parser bool :=
  t ← cur; mret (bool_decide (type t = T_WORD) && bool_decide (tok_text t = Some kw))%bool.
Definition reserved_tok (t : sh_tok) : bool :=
  (bool_decide (type t = T_WORD) && existsb (λ kw, bool_decide (tok_text t = Some kw)) reserved)%bool.
Definition is_reserved : M parser bool := t ← cur; mret (reserved_tok t).

Definition error (message : text) : M parser unit := modify (λ s, Parser (pos s) (Some message)).
Definition fail (message : text) : M parser Step := error message;; mret Fail.

(** The redirection at the current token; none on an error. *)
Definition parse_redir : M parser (option sh_redir) :=
  k ← cur;
  let t := type k in
  let fd := if rfd k <? 0 then if bool_decide (t ∈ [T_LT; T_LTAMP; T_DLESS; T_DLESSDASH]) then 0 else 1 else rfd k in
  if bool_decide (t = T_DLESS ∨ t = T_DLESSDASH) then
    adv;;
    u ← curt;
    if decide (u = T_WORD) then
      adv;; mret (Some (Redir R_HEREDOC 0 0 (Some (default [] (tok_text k))) (hd_quoted k)))
    else error ($"expected here-doc delimiter");; mret None
  else if bool_decide (t = T_GTAMP ∨ t = T_LTAMP) then
    adv;;
    u ← curt;
    if decide (u = T_WORD) then
      tgt ← cur_text;
      adv;;
      mret (Some
        (if all_digits tgt then Redir R_DUP fd (strtol 32 tgt).1.1 None false
         else if decide (tgt = $"-") then Redir R_CLOSE fd 0 None false
         else Redir (if decide (t = T_GTAMP) then R_OUT else R_IN) fd 0 (Some tgt) false))
    else error ($"expected fd or filename after >&");; mret None
  else
    let rk := if decide (t = T_LT) then R_IN else if decide (t = T_GTGT) then R_APPEND else R_OUT in
    adv;;
    u ← curt;
    if decide (u = T_WORD) then
      w ← cur_text; adv;; mret (Some (Redir rk fd 0 (Some w) false))
    else error ($"expected filename after redirection");; mret None.

Fixpoint parse_redir_list (fuel : nat) (n : node) : M parser (option node) :=
  match fuel with
  | O => undef
  | S f =>
      t ← curt;
      if is_redir_tok t then
        r ← parse_redir;
        match r with Some r => parse_redir_list f (add_redirs [r] n) | None => mret None end
      else mret (Some n)
  end.

(** The loop of [parse_simple]: assignments, words and redirections so far. *)
Fixpoint simple_loop (fuel : nat) (assigns words : list text) (rs : list sh_redir) : M parser (option node) :=
  match fuel with
  | O => undef
  | S f =>
      let finish :=
        match assigns, words, rs with
        | [], [], [] => error ($"expected command");; mret None
        | _, _, _ => mret (Some (Node false rs (N_SIMPLE assigns words)))
        end in
      t ← curt;
      if decide (t = T_WORD) then
        w ← cur_text;
        if (bool_decide (words = []) && looks_like_assign w)%bool then
          adv;; simple_loop f (assigns ++ [w]) words rs
        else
          res ← is_reserved;
          if (bool_decide (words = []) && res)%bool then finish
          else adv;; simple_loop f assigns (words ++ [w]) rs
      else if is_redir_tok t then
        r ← parse_redir;
        match r with Some r => simple_loop f assigns words (rs ++ [r]) | None => mret None end
      else finish
  end.
Definition parse_simple : M parser (option node) := simple_loop fuel [] [] [].

(** * The rules *)

Definition call (self callee : ParseFrame) : M parser Step := mret (Call self callee).
Definition finish (n : node) : M parser Step := mret (Return n).
(** A frame that is resumed takes its child: a null child is dereferenced. *)
Definition taken (child : option node) : M parser node := match child with Some n => mret n | None => undef end.
(** [if (!is_word(kw)) return fail(message);] *)
Definition expect (kw message : text) (k : M parser Step) : M parser Step :=
  b ← is_word kw; if b : bool then k else fail message.

Definition list_goes_on : M parser bool :=
  t ← curt; r ← is_reserved; mret (negb (bool_decide (t ∈ [T_EOF; T_RPAREN; T_DSEMI])) && negb r)%bool.

(** The next part of the list, or its end. *)
Definition list_more (l : list node) : M parser Step :=
  b ← list_goes_on; if b : bool then call (ParseList (Some l)) ParseAndOr_Start else finish (new_node (N_LIST l)).
Definition list_step (n : option (list node)) (child : option node) : M parser Step :=
  match n with
  | None => skip_seps;; list_more []
  | Some l =>
      c ← taken child;
      t ← curt;
      if is_sep t then skip_seps;; list_more (l ++ [c]) else finish (new_node (N_LIST (l ++ [c])))
  end.

Definition andor_step (lhs : node) : M parser Step :=
  t ← curt;
  if bool_decide (t = T_AMPAMP ∨ t = T_BARBAR) then
    adv;; skip_newlines;; call (ParseAndOr_Right lhs t) ParsePipeline_Start
  else finish lhs.

(** The words "!" at the start of a pipeline. *)
Fixpoint negations (fuel : nat) (negated : bool) : M parser bool :=
  match fuel with
  | O => undef
  | S f => b ← is_word ($"!"); if b : bool then adv;; skip_newlines;; negations f (negb negated) else mret negated
  end.

Definition pipeline_step (negated : bool) (pipe : list node) : M parser Step :=
  t ← curt;
  if decide (t = T_BAR) then adv;; skip_newlines;; call (ParsePipeline_Next negated pipe) (ParseCommand false)
  else finish (set_negated negated (new_node (N_PIPE pipe))).

Definition simple_step : M parser Step :=
  n ← parse_simple; match n with Some n => finish n | None => mret Fail end.

Definition command_step : M parser Step :=
  t ← curt;
  brace ← is_word ($"{"); r ← is_reserved;
  def ← (if (bool_decide (t = T_WORD) && negb r)%bool then u ← peekt; mret (bool_decide (u = T_LPAREN)) else mret false);
  wif ← is_word ($"if"); wwhile ← is_word ($"while"); wuntil ← is_word ($"until");
  wfor ← is_word ($"for"); wcase ← is_word ($"case");
  if decide (t = T_LPAREN) then call (ParseCommand true) (ParseGroup true false)
  else if brace : bool then call (ParseCommand true) (ParseGroup false false)
  else if wif : bool then call (ParseCommand true) ParseIf_Start
  else if (wwhile || wuntil)%bool then call (ParseCommand true) ParseWhile_Start
  else if wfor : bool then call (ParseCommand true) (ParseFor None)
  else if wcase : bool then call (ParseCommand true) (ParseCase None)
  else if def : bool then call (ParseCommand true) (ParseFuncdef None)
  else simple_step.

Definition command_end (child : option node) : M parser Step :=
  c ← taken child;
  n ← parse_redir_list fuel c; match n with Some n => finish n | None => mret Fail end.

Definition group_end (subshell : bool) (child : option node) : M parser Step :=
  c ← taken child;
  let done := adv;; finish (new_node (N_GROUP subshell c)) in
  if subshell then t ← curt; if decide (t = T_RPAREN) then done else fail ($"expected ')'")
  else expect ($"}") ($"expected '}'") done.

Definition funcdef_begin : M parser Step :=
  name ← cur_text; adv;; adv;;
  t ← curt;
  if decide (t = T_RPAREN) then adv;; skip_newlines;; call (ParseFuncdef (Some name)) (ParseCommand false)
  else fail ($"expected ')' in function definition").

Definition if_end (n : node) : M parser Step := expect ($"fi") ($"expected 'fi'") (adv;; finish n).
(** The next branch, or the end. *)
Definition if_more (clauses : list (node * node)) : M parser Step :=
  elif ← is_word ($"elif");
  if elif : bool then adv;; call (ParseIf_Cond clauses) (ParseList None)
  else
    els ← is_word ($"else");
    if els : bool then adv;; call (ParseIf_Else clauses) (ParseList None)
    else if_end (new_node (N_IF clauses None)).
Definition if_body (clauses : list (node * node)) (cond : node) (child : option node) : M parser Step :=
  c ← taken child;
  if (nchild c =? 0)%nat then fail ($"empty then body") else if_more (clauses ++ [(cond, c)]).
Definition if_else (clauses : list (node * node)) (child : option node) : M parser Step :=
  c ← taken child;
  if (nchild c =? 0)%nat then fail ($"empty else body") else if_end (new_node (N_IF clauses (Some c))).

(** The end of the body of a loop. *)
Definition loop_end (body : node) (n : node) : M parser Step :=
  if (nchild body =? 0)%nat then fail ($"empty do/done body")
  else expect ($"done") ($"expected 'done'") (adv;; finish n).

Fixpoint for_words (fuel : nat) (l : list text) : M parser (list text) :=
  match fuel with
  | O => undef
  | S f =>
      t ← curt; r ← is_reserved;
      if (bool_decide (t = T_WORD) && negb r)%bool then w ← cur_text; adv;; for_words f (l ++ [w]) else mret l
  end.

Definition valid_name (w : text) : bool := match w with c :: q => (name_start c && forallb name_char q)%bool | [] => false end.

Definition for_begin : M parser Step :=
  adv;;
  t ← curt;
  if decide (t = T_WORD) then
    nm ← cur_text;
    if valid_name nm then
      adv;; skip_newlines;;
      has_in ← is_word ($"in");
      words ← (if has_in : bool then adv;; for_words fuel [] else mret []);
      skip_seps;;
      expect ($"do") ($"expected 'do'") (adv;; call (ParseFor (Some (nm, words, negb has_in))) (ParseList None))
    else fail ($"bad for loop variable")
  else fail ($"expected name after for").

Fixpoint case_patterns (fuel : nat) (pats : list text) : M parser (option (list text)) :=
  match fuel with
  | O => undef
  | S f =>
      t ← curt;
      if decide (t = T_WORD) then
        w ← cur_text; adv;;
        u ← curt;
        if decide (u = T_BAR) then adv;; case_patterns f (pats ++ [w]) else mret (Some (pats ++ [w]))
      else error ($"expected case pattern");; mret None
  end.

(** The next clause, or the end. *)
Definition case_clause (w : text) (clauses : list (list text * node)) : M parser Step :=
  esac ← is_word ($"esac"); t ← curt;
  if esac : bool then adv;; finish (new_node (N_CASE w clauses))
  else if decide (t = T_EOF) then fail ($"expected 'esac'")
  else
    (if decide (t = T_LPAREN) then adv else mret tt);;
    pats ← case_patterns fuel [];
    match pats with
    | None => mret Fail
    | Some pats =>
        u ← curt;
        if decide (u = T_RPAREN) then adv;; call (ParseCase (Some (w, clauses, pats))) (ParseList None)
        else fail ($"expected ')' in case")
    end.

Definition case_step (n : option (text * list (list text * node) * list text)) (child : option node) : M parser Step :=
  match n with
  | None =>
      adv;;
      t ← curt;
      if decide (t = T_WORD) then
        w ← cur_text; adv;;
        expect ($"in") ($"expected 'in' after case word") (adv;; skip_seps;; case_clause w [])
      else fail ($"expected word after case")
  | Some (w, clauses, pats) =>
      c ← taken child;
      let clauses := clauses ++ [(pats, c)] in
      t ← curt;
      if decide (t = T_DSEMI) then adv;; skip_seps;; case_clause w clauses
      else expect ($"esac") ($"expected 'esac'") (adv;; finish (new_node (N_CASE w clauses)))
  end.

Definition frame_step (f : ParseFrame) (child : option node) : M parser Step :=
  match f with
  | ParseList n => list_step n child
  | ParseAndOr_Start => call ParseAndOr_Left ParsePipeline_Start
  | ParseAndOr_Left => c ← taken child; andor_step c
  | ParseAndOr_Right lhs op => c ← taken child; andor_step (new_node (N_ANDOR lhs c op))
  | ParsePipeline_Start => negated ← negations fuel false; call (ParsePipeline_First negated) (ParseCommand false)
  | ParsePipeline_First negated =>
      c ← taken child;
      t ← curt;
      if decide (t = T_BAR) then pipeline_step negated [c] else finish (set_negated negated c)
  | ParsePipeline_Next negated pipe => c ← taken child; pipeline_step negated (pipe ++ [c])
  | ParseCommand false => command_step
  | ParseCommand true => command_end child
  | ParseGroup subshell false => adv;; call (ParseGroup subshell true) (ParseList None)
  | ParseGroup subshell true => group_end subshell child
  | ParseFuncdef None => funcdef_begin
  | ParseFuncdef (Some name) => c ← taken child; finish (new_node (N_FUNCDEF name c))
  | ParseIf_Start => adv;; call (ParseIf_Cond []) (ParseList None)
  | ParseIf_Cond clauses =>
      c ← taken child; expect ($"then") ($"expected 'then'") (adv;; call (ParseIf_Body clauses c) (ParseList None))
  | ParseIf_Body clauses cond => if_body clauses cond child
  | ParseIf_Else clauses => if_else clauses child
  | ParseWhile_Start =>
      until ← is_word ($"until"); adv;; call (ParseWhile_Cond until) (ParseList None)
  | ParseWhile_Cond until =>
      c ← taken child; expect ($"do") ($"expected 'do'") (adv;; call (ParseWhile_Body until c) (ParseList None))
  | ParseWhile_Body until cond => c ← taken child; loop_end c (new_node (N_WHILE cond until c))
  | ParseFor None => for_begin
  | ParseFor (Some (name, words, implicit)) => c ← taken child; loop_end c (new_node (N_FOR name words implicit c))
  | ParseCase n => case_step n child
  end.

(** * The machine *)

Definition SH_MAX_PARSE_FRAMES : nat := 1024.

(** The stack with its last frame first; [None] is a failed parse. *)
Fixpoint run (steps : nat) (frames : list ParseFrame) (child : option node) : M parser (option node) :=
  match frames with
  | [] => mret child
  | f :: fs =>
      match steps with
      | O => undef
      | S n =>
          s ← frame_step f child;
          match s with
          | Call self callee =>
              if (SH_MAX_PARSE_FRAMES <=? length frames)%nat then error ($"nesting too deep");; mret None
              else run n (callee :: self :: fs) None
          | Return c => run n fs (Some c)
          | Fail => mret None
          end
      end
  end.

(** The tree, or the message. *)
Definition sh_parse (steps : nat) : outcome (node + text) :=
  match (n ← run steps [ParseList None] None;
         match n with
         | None => e ← gets err; mret (inr (default ($"parse error") e))
         | Some n => t ← curt; mret (if decide (t = T_EOF) then inl n else inr ($"unexpected token"))
         end) (Parser 0 None) with
  | Done (r, _) => Done r
  | Panic => Panic
  | Undef => Undef
  end.
End parser.
