(* ===== verification/ShellParseSafety.v ===== *)
(** The parser on arbitrary tokens: no token list that ends as the tokenizer's do makes it
    read out of range or dereference a null pointer, and it stops. *)

From S2P Require Import Prelude Text ShellLex ShellLexSpecs ShellParse.

(** * Reading tokens *)

Section reading.
Context (toks : list sh_tok) (Htoks : toks_ok toks).
Implicit Types (s : parser).

Definition in_range s : Prop := (pos s < length toks)%nat.
Definition tok s : sh_tok := default (op T_EOF) (toks !! pos s).
(** The state after tokens have been consumed. *)
Definition after s s' : Prop := in_range s' ∧ (pos s ≤ pos s')%nat.

Lemma after_refl s : in_range s → after s s.
Proof. by split. Qed.

Lemma tok_word_text s : type (tok s) = T_WORD → is_Some (tok_text (tok s)).
Proof.
  unfold tok. destruct Htoks as (l & -> & Hl). intros Hw. destruct (_ !! pos s) as [t|] eqn:E; [|done].
  apply lookup_app_Some in E as [E|[_ E]].
  - destruct (Forall_lookup_1 _ _ _ _ Hl E) as [_ Ht]. by apply Ht.
  - apply list_lookup_singleton_Some in E as [_ <-]. done.
Qed.

Lemma tok_next s : in_range s → type (tok s) ≠ T_EOF → (S (pos s) < length toks)%nat.
Proof.
  unfold in_range, tok. destruct Htoks as (l & -> & Hl). rewrite length_app. simpl. intros Hs Ht.
  destruct (decide (pos s = length l)) as [E|]; [|lia]. exfalso. apply Ht. by rewrite E, lookup_app_r, Nat.sub_diag by done.
Qed.

Lemma toks_pos : (0 < length toks)%nat.
Proof. destruct Htoks as (l & -> & _). rewrite length_app. simpl. lia. Qed.

Lemma cur_eq s : in_range s → cur toks s = Done (tok s, s).
Proof.
  intros Hs. unfold cur, tok, tok_at, deref, gets, mbind, M_bind. by destruct (lookup_lt_is_Some_2 _ _ Hs) as [t ->].
Qed.

Lemma curt_eq s : in_range s → curt toks s = Done (type (tok s), s).
Proof. intros Hs. unfold curt. by rewrite (bind_eq _ _ _ _ _ (cur_eq s Hs)). Qed.

Lemma adv_eq s : in_range s → adv toks s = Done (tt, if decide (type (tok s) = T_EOF) then s else set_pos (S (pos s)) s).
Proof. intros Hs. unfold adv. rewrite (bind_eq _ _ _ _ _ (curt_eq s Hs)). by case_decide. Qed.

Lemma wp_cur (Q : sh_tok → parser → Prop) s : in_range s → Q (tok s) s → wp (cur toks) Q s.
Proof. intros Hs HQ. unfold wp. by rewrite cur_eq. Qed.

Lemma wp_curt (Q : tok_type → parser → Prop) s : in_range s → Q (type (tok s)) s → wp (curt toks) Q s.
Proof. intros Hs HQ. unfold wp. by rewrite curt_eq. Qed.

Lemma wp_is_word kw (Q : bool → parser → Prop) s :
  in_range s → (∀ b : bool, (b = true → type (tok s) = T_WORD) → Q b s) → wp (is_word toks kw) Q s.
Proof.
  intros Hs HQ. unfold is_word. apply wp_bind, wp_cur; [done|]. apply wp_ret, HQ. intros Hb.
  apply andb_true_iff in Hb as [Hb _]. by apply bool_decide_eq_true in Hb.
Qed.

Lemma wp_is_reserved (Q : bool → parser → Prop) s :
  in_range s → (∀ b : bool, (b = true → type (tok s) = T_WORD) → Q b s) → wp (is_reserved toks) Q s.
Proof.
  intros Hs HQ. unfold is_reserved. apply wp_bind, wp_cur; [done|]. apply wp_ret, HQ. unfold reserved_tok. intros Hb.
  apply andb_true_iff in Hb as [Hb _]. by apply bool_decide_eq_true in Hb.
Qed.

Lemma wp_cur_text (Q : text → parser → Prop) s :
  in_range s → type (tok s) = T_WORD → (∀ w, Q w s) → wp (cur_text toks) Q s.
Proof.
  intros Hs Ht HQ. unfold cur_text. apply wp_bind, wp_cur; [done|]. destruct (tok_word_text s Ht) as [w ->]. by apply wp_ret.
Qed.

Lemma wp_adv (Q : unit → parser → Prop) s :
  in_range s → (∀ s', after s s' → (type (tok s) ≠ T_EOF → pos s' = S (pos s)) → Q tt s') → wp (adv toks) Q s.
Proof.
  intros Hs HQ. unfold wp. rewrite adv_eq by done. apply HQ.
  - case_decide; [by apply after_refl|]. split; [by apply tok_next|simpl; lia].
  - intros Ht. by rewrite decide_False.
Qed.

Lemma wp_peekt (Q : tok_type → parser → Prop) s : in_range s → (∀ t, Q t s) → wp (peekt toks) Q s.
Proof.
  intros Hs HQ. unfold peekt. apply wp_bind, wp_curt; [done|]. case_decide; [by apply wp_ret|].
  apply wp_bind, wp_gets. apply wp_bind. destruct (lookup_lt_is_Some_2 toks (S (pos s))) as [t Ht]; [by apply tok_next|].
  eapply wp_deref; [done|]. by apply wp_ret.
Qed.

Lemma wp_error m (Q : unit → parser → Prop) s : in_range s → (∀ s', after s s' → pos s' = pos s → Q tt s') → wp (error m) Q s.
Proof. intros Hs HQ. apply wp_modify, HQ; [by split|done]. Qed.
End reading.

(** * Loops and rules *)

#[export] Hint Resolve after_refl : tactility.

(** One step of symbolic execution of the parser; [in_range] of the present state is among
    the hypotheses. *)
Ltac ranges := repeat match goal with H : after _ ?s ?s' |- _ =>
  lazymatch goal with _ : in_range _ s' |- _ => fail | _ => pose proof (proj1 H) end end.
Ltac parse_one :=
  lazymatch goal with
  | |- wp (_ ≫= _) _ _ => apply wp_bind
  | |- wp (mret _) _ _ => apply wp_ret
  | |- wp (call _ _) _ _ => apply wp_ret
  | |- wp (finish _) _ _ => apply wp_ret
  | |- wp (gets _) _ _ => apply wp_gets
  | |- wp (cur _) _ _ => apply wp_cur; [assumption|]
  | |- wp (curt _) _ _ => apply wp_curt; [assumption|]
  | |- wp (peekt _) _ _ => apply wp_peekt; [assumption..|]; intros ?
  | |- wp (adv _) _ _ => let s' := fresh "s" in let Ha := fresh "Ha" in let Hp := fresh "Hp" in
      apply wp_adv; [assumption..|]; intros s' Ha Hp
  | |- wp (cur_text _) _ _ => apply wp_cur_text; [assumption..|]; intros ?
  | |- wp (is_word _ _) _ _ => apply wp_is_word; [assumption|]; intros ? ?
  | |- wp (is_reserved _) _ _ => apply wp_is_reserved; [assumption|]; intros ? ?
  | |- wp (error _) _ _ => let s' := fresh "s" in let Ha := fresh "Ha" in let Hp := fresh "Hp" in
      eapply wp_error; [eassumption|]; intros s' Ha Hp
  | |- wp (if decide ?P then _ else _) _ _ => destruct (decide P)
  | |- wp (if ?b then _ else _) _ _ => lazymatch type of b with bool => destruct b eqn:? end
  end.

Ltac parse_step := ranges; parse_one; ranges.

(** [after] and inequalities of positions. *)
Ltac after_lia := repeat match goal with H : after _ _ _ |- _ => destruct H end;
  unfold in_range in *; first [lia | split; unfold in_range; lia].

Section loops.
Context (toks : list sh_tok) (Htoks : toks_ok toks).
Implicit Types (s : parser).
Abbreviation ok := (in_range toks).
Abbreviation after := (after toks).

Lemma wp_skip test f (Q : unit → parser → Prop) s :
  ok s → (length toks - pos s < f)%nat → test T_EOF = false → (∀ s', after s s' → (test (type (tok toks s)) = true → (pos s < pos s')%nat) → Q tt s') →
  wp (skip toks test f) Q s.
Proof.
  revert s. induction f as [|f IH]; intros s Hs Hf He HQ; [lia|]. cbn [skip]. repeat parse_step.
  - assert (type (tok toks s) ≠ T_EOF) as Hne by congruence. specialize (Hp Hne).
    apply IH; [apply Ha|destruct Ha; unfold in_range in *; lia|done|]. intros s'' [? ?] _. apply HQ; [split; [done|]|]; lia.
  - apply HQ; [by apply after_refl|congruence].
Qed.

Lemma after_trans s1 s2 s3 : after s1 s2 → after s2 s3 → after s1 s3.
Proof. intros [H1 H2] [H3 H4]. split; [done|lia]. Qed.

Lemma fuel_enough s : (length toks - pos s < fuel toks)%nat.
Proof. unfold fuel. lia. Qed.

Lemma wp_skip_seps (Q : unit → parser → Prop) s :
  ok s → (∀ s', after s s' → (is_sep (type (tok toks s)) = true → (pos s < pos s')%nat) → Q tt s') → wp (skip_seps toks) Q s.
Proof. intros Hs HQ. by apply wp_skip; [|apply fuel_enough| |]. Qed.

Lemma wp_skip_newlines (Q : unit → parser → Prop) s :
  ok s → (∀ s', after s s' → Q tt s') → wp (skip_newlines toks) Q s.
Proof. intros Hs HQ. apply wp_skip; [done|apply fuel_enough|done|]. intros s' ? _. by apply HQ. Qed.

(** A redirection consumes at least its operator. *)
Lemma wp_parse_redir (Q : option sh_redir → parser → Prop) s :
  ok s → type (tok toks s) ≠ T_EOF → (∀ r s', after s s' → (pos s < pos s')%nat → Q r s') → wp (parse_redir toks) Q s.
Proof.
  intros Hs Hne HQ. unfold parse_redir. parse_step. parse_step. cbv zeta.
  repeat parse_step; specialize (Hp Hne); apply HQ; after_lia.
Qed.

Lemma redir_not_end t : is_redir_tok t = true → t ≠ T_EOF.
Proof. by intros Ht ->. Qed.

Lemma wp_parse_redir_list f n (Q : option node → parser → Prop) s :
  ok s → (length toks - pos s < f)%nat → (∀ r s', after s s' → Q r s') → wp (parse_redir_list toks f n) Q s.
Proof.
  revert s n. induction f as [|f IH]; intros s n Hs Hf HQ; [lia|]. cbn [parse_redir_list]. repeat parse_step.
  - apply wp_parse_redir; [done|by apply redir_not_end|]. intros [r|] s' Ha Hlt; [|by apply wp_ret, HQ].
    apply IH; [apply Ha|after_lia|]. intros r' s'' Ha'. apply HQ. by eapply after_trans.
  - by apply HQ, after_refl.
Qed.

Lemma wp_simple_loop f assigns words rs (Q : option node → parser → Prop) s :
  ok s → (length toks - pos s < f)%nat → (∀ r s', after s s' → Q r s') → wp (simple_loop toks f assigns words rs) Q s.
Proof.
  revert s assigns words rs. induction f as [|f IH]; intros s assigns words rs Hs Hf HQ; [lia|]. cbn [simple_loop].
  assert (wp (match assigns, words, rs with
              | [], [], [] => error ($"expected command");; mret None
              | _, _, _ => mret (Some (Node false rs (N_SIMPLE assigns words))) end) Q s) as Hfinish.
  { assert (∀ n, wp (mret (Some n)) Q s) as Hn by (intros; by apply wp_ret, HQ, after_refl).
    destruct assigns; [destruct words; [destruct rs|]|]; try apply Hn. repeat parse_step. apply HQ, Ha. }
  repeat parse_step; try done.
  - assert (pos s0 = S (pos s)) by (apply Hp; congruence).
    apply IH; [after_lia|after_lia|]. intros r s'' Ha'. apply HQ. by eapply after_trans.
  - assert (pos s0 = S (pos s)) by (apply Hp; congruence).
    apply IH; [after_lia|after_lia|]. intros r s'' Ha'. apply HQ. by eapply after_trans.
  - apply wp_parse_redir; [done|by apply redir_not_end|]. intros [r|] s' Ha Hlt; [|by apply wp_ret, HQ].
    apply IH; [apply Ha|after_lia|]. intros r' s'' Ha'. apply HQ. by eapply after_trans.
Qed.

Lemma wp_negations f b (Q : bool → parser → Prop) s :
  ok s → (length toks - pos s < f)%nat → (∀ r s', after s s' → Q r s') → wp (negations toks f b) Q s.
Proof.
  revert s b. induction f as [|f IH]; intros s b Hs Hf HQ; [lia|]. cbn [negations]. repeat parse_step.
  - assert (pos s0 = S (pos s)) by (apply Hp; rewrite H; done). apply wp_skip_newlines; [apply Ha|]. intros s' Ha'.
    apply IH; [apply Ha'|after_lia|]. intros r s'' Ha''. apply HQ. eapply after_trans; [|done]. by eapply after_trans.
  - by apply HQ, after_refl.
Qed.

Lemma wp_for_words f l (Q : list text → parser → Prop) s :
  ok s → (length toks - pos s < f)%nat → (∀ r s', after s s' → Q r s') → wp (for_words toks f l) Q s.
Proof.
  revert s l. induction f as [|f IH]; intros s l Hs Hf HQ; [lia|]. cbn [for_words].
  parse_step. parse_step. parse_step. parse_step. parse_step.
  - apply andb_true_iff in Heqb0 as [Ht _]. apply bool_decide_eq_true in Ht. repeat parse_step.
    assert (pos s0 = S (pos s)) by (apply Hp; by rewrite Ht).
    apply IH; [after_lia|after_lia|]. intros r s'' Ha'. apply HQ. by eapply after_trans.
  - by apply wp_ret, HQ, after_refl.
Qed.

Lemma wp_case_patterns f l (Q : option (list text) → parser → Prop) s :
  ok s → (length toks - pos s < f)%nat → (∀ r s', after s s' → Q r s') → wp (case_patterns toks f l) Q s.
Proof.
  revert s l. induction f as [|f IH]; intros s l Hs Hf HQ; [lia|]. cbn [case_patterns].
  repeat parse_step; try by apply HQ.
  - assert (pos s0 = S (pos s)) by (apply Hp; by rewrite e). assert (pos s1 = S (pos s0)) by (apply Hp0; by rewrite e0).
    apply IH; [after_lia|after_lia|]. intros r s'' Ha'. apply HQ. eapply after_trans; [|done]. by eapply after_trans.
Qed.
End loops.

(** * Frames *)

(** A frame waits for a child exactly when it has called one. *)
Definition waiting (f : ParseFrame) : bool :=
  match f with
  | ParseList None | ParseAndOr_Start | ParsePipeline_Start | ParseCommand false | ParseGroup _ false
  | ParseFuncdef None | ParseIf_Start | ParseWhile_Start | ParseFor None | ParseCase None => false
  | _ => true
  end.

(** The steps that a frame may take before a token is consumed. *)
Definition weight (f : ParseFrame) : nat :=
  match f with
  | ParseList None => 9
  | ParseAndOr_Start => 7
  | ParsePipeline_Start => 5
  | ParseCommand false => 3
  | _ => 1
  end.

Section frames.
Context (toks : list sh_tok) (Htoks : toks_ok toks).
Implicit Types (s : parser) (f : ParseFrame).
Abbreviation ok := (in_range toks).
Abbreviation after := (after toks).

(** Compound commands are called at the token that starts them. *)
Definition starts f s : Prop :=
  match f with
  | ParseFuncdef None => type (tok toks s) = T_WORD
  | ParseGroup _ false | ParseIf_Start | ParseWhile_Start | ParseFor None | ParseCase None => type (tok toks s) ≠ T_EOF
  | _ => True
  end.

(** What a step may do: consume tokens, call a fresh rule whose steps are paid for, end. *)
Definition step_ok f s (o : Step) s' : Prop :=
  after s s' ∧
  match o with
  | Call self callee => waiting self = true ∧ waiting callee = false ∧ starts callee s' ∧
      (weight self + weight callee < weight f + 10 * (pos s' - pos s))%nat
  | _ => True
  end.

(** The end of a rule: positions, and the weights of a call. *)
Ltac step_done := split; [after_lia|try done; try (split_and!; [done|done|done|simpl; repeat match goal with H : weight _ = _ |- _ => rewrite H end; after_lia])].
(** A token that was tested is not the end. *)
Ltac words := bsimpl; repeat match goal with
  | H : true = true → _ |- _ => specialize (H eq_refl)
  | H : false = true → _ |- _ => clear H
  | H : ?b = true → type _ = T_WORD, E : ?b = true |- _ => specialize (H E)
  | H : (_ || _)%bool = true |- _ => apply orb_true_iff in H as [H|H]
  | H : type _ = _ ∨ type _ = _ |- _ => destruct H
  end.
Ltac tested := words; repeat match goal with
  | H : type _ ≠ T_EOF → _ |- _ => first [specialize (H ltac:(congruence)) | clear H]
  | H : ?P → (_ < _)%nat, HP : ?P |- _ => specialize (H HP)
  end.
Ltac rule_steps := repeat first
  [ parse_step
  | apply wp_skip_seps; [assumption..|]; intros ? ? ?
  | apply wp_skip_newlines; [assumption..|]; intros ? ? ].
Ltac rule := rule_steps; tested; step_done.

Lemma list_step_ok n child s :
  ok s → (n ≠ None → is_Some child) → wp (list_step toks n child) (step_ok (ParseList n) s) s.
Proof.
  intros Hs Hc. unfold list_step, list_more, list_goes_on. destruct n as [l|].
  - destruct Hc as [c ->]; [done|]. cbn [taken]. rule.
  - rule.
Qed.

Lemma andor_step_ok f lhs s : ok s → weight f = 1%nat → wp (andor_step toks lhs) (step_ok f s) s.
Proof. intros Hs Hf. unfold andor_step. rule. Qed.

Lemma pipeline_step_ok f negated pipe s : ok s → weight f = 1%nat → wp (pipeline_step toks negated pipe) (step_ok f s) s.
Proof. intros Hs Hf. unfold pipeline_step. rule. Qed.

Lemma wp_expect kw m k (Q : Step → parser → Prop) s :
  ok s → (type (tok toks s) = T_WORD → wp k Q s) → (∀ s', after s s' → Q Fail s') → wp (expect toks kw m k) Q s.
Proof. intros Hs Hk HQ. unfold expect, fail. repeat parse_step; [by apply Hk, H|by apply HQ]. Qed.

Lemma command_step_ok s : ok s → wp (command_step toks) (step_ok (ParseCommand false) s) s.
Proof.
  intros Hs. unfold command_step, simple_step, parse_simple.
  assert (∀ g, waiting g = false → weight g = 1%nat → starts g s → wp (call (ParseCommand true) g) (step_ok (ParseCommand false) s) s) as Hcall.
  { intros g Hg Hw Hst. apply wp_ret. split; [by apply after_refl|]. split_and!; [done|done|done|]. simpl. lia. }
  rule_steps; try (apply wp_simple_loop; [done..|apply fuel_enough|]; intros [?|] ? ?; apply wp_ret; by split);
    apply Hcall; try done; simpl; bsimpl; words; congruence.
Qed.

Lemma group_end_ok b child s : ok s → is_Some child → wp (group_end toks b child) (step_ok (ParseGroup b true) s) s.
Proof.
  intros Hs [c ->]. unfold group_end. apply wp_bind, wp_ret. destruct b.
  - unfold fail. rule.
  - apply wp_expect; [done| |intros; by split]. intros. rule.
Qed.

Lemma funcdef_begin_ok s : ok s → type (tok toks s) = T_WORD → wp (funcdef_begin toks) (step_ok (ParseFuncdef None) s) s.
Proof. intros Hs Ht. unfold funcdef_begin, fail. rule. Qed.

Lemma if_end_ok f n s : ok s → wp (if_end toks n) (step_ok f s) s.
Proof. intros Hs. unfold if_end. apply wp_expect; [done| |intros; by split]. intros. rule. Qed.

Lemma loop_end_ok f b n s : ok s → wp (loop_end toks b n) (step_ok f s) s.
Proof. intros Hs. unfold loop_end, fail. parse_step; [rule|]. apply wp_expect; [done| |intros; by split]. intros. rule. Qed.

Lemma if_body_ok l c child s : ok s → is_Some child → wp (if_body toks l c child) (step_ok (ParseIf_Body l c) s) s.
Proof. intros Hs [n ->]. unfold if_body, if_more. apply wp_bind, wp_ret. unfold fail. rule_steps; try (by apply if_end_ok); bsimpl; tested; step_done. Qed.

Lemma if_else_ok l child s : ok s → is_Some child → wp (if_else toks l child) (step_ok (ParseIf_Else l) s) s.
Proof. intros Hs [n ->]. unfold if_else. apply wp_bind, wp_ret. unfold fail. rule_steps; try (by apply if_end_ok); bsimpl; tested; step_done. Qed.

Lemma for_begin_ok s : ok s → type (tok toks s) ≠ T_EOF → wp (for_begin toks) (step_ok (ParseFor None) s) s.
Proof.
  intros Hs Ht. unfold for_begin, fail.
  assert (∀ s1 nm words b, after s s1 → (pos s < pos s1)%nat →
    wp (skip_seps toks;; expect toks ($"do") ($"expected 'do'") (adv toks;; call (ParseFor (Some (nm, words, b))) (ParseList None)))
      (step_ok (ParseFor None) s) s1) as Hend.
  { intros s1 nm words b Ha Hp. ranges. rule_steps. ranges. apply wp_expect; [done| |].
    - intros. rule.
    - intros. split; [after_lia|done]. }
  repeat parse_step; try (tested; step_done).
  apply wp_skip_newlines; [done..|]; intros s2 Ha2. ranges. parse_step. parse_step. parse_step. parse_step.
  - repeat parse_step. apply wp_for_words; [done..|apply fuel_enough|]. intros l s4 Ha4. apply Hend; tested; after_lia.
  - apply wp_ret, Hend; tested; after_lia.
Qed.

Lemma case_clause_ok f w l s s1 :
  ok s → after s s1 → weight f = 1%nat → wp (case_clause toks w l) (step_ok f s) s1.
Proof.
  intros Hs Ha Hf. unfold case_clause, fail. ranges. repeat parse_step; try (split; [after_lia|done]).
  - apply wp_case_patterns; [done..|apply fuel_enough|]. intros [pats|] s2 Ha2; [|apply wp_ret; split; [after_lia|done]].
    rule_steps; tested; step_done.
  - apply wp_case_patterns; [done..|apply fuel_enough|]. intros [pats|] s2 Ha2; [|apply wp_ret; split; [after_lia|done]].
    rule_steps; tested; step_done.
Qed.

Lemma case_step_ok n child s :
  ok s → (n = None → type (tok toks s) ≠ T_EOF) → (n ≠ None → is_Some child) → wp (case_step toks n child) (step_ok (ParseCase n) s) s.
Proof.
  intros Hs Ht Hc. unfold case_step, fail. destruct n as [[[w l] pats]|].
  - destruct Hc as [c ->]; [done|]. apply wp_bind, wp_ret. cbv zeta. parse_step. parse_step. parse_step.
    + rule_steps. by apply case_clause_ok; [|after_lia|].
    + apply wp_expect; [done| |intros; by split]. intros. rule.
  - repeat parse_step; try (split; [after_lia|done]).
    apply wp_expect; [done| |intros; split; [after_lia|done]]. intros. rule_steps. by apply case_clause_ok; [|after_lia|].
Qed.

Lemma frame_step_ok f child s :
  ok s → starts f s → (waiting f = true → is_Some child) → wp (frame_step toks f child) (step_ok f s) s.
Proof.
  intros Hs Hst Hc.
  assert (waiting f = true → ∀ g, (∀ c, wp (g c) (step_ok f s) s) → wp (c ← taken child; g c) (step_ok f s) s) as Htaken.
  { intros Hw g Hg. destruct Hc as [c ->]; [done|]. by apply wp_bind, wp_ret. }
  destruct f as [n| | |lhs op| |b|b l|[]|b []|[name|]| |l|l c|l| |b|b c|[[[nm ws] im]|]|n]; cbn [frame_step].
  - apply list_step_ok; [done|]. intros Hn. apply Hc. by destruct n.
  - rule.
  - apply Htaken; [done|]. intros. by apply andor_step_ok.
  - apply Htaken; [done|]. intros. by apply andor_step_ok.
  - apply wp_bind, wp_negations; [done..|apply fuel_enough|]. intros r s' Ha. rule.
  - apply Htaken; [done|]. intros. parse_step. parse_step. parse_step; [by apply pipeline_step_ok|]. rule.
  - apply Htaken; [done|]. intros. by apply pipeline_step_ok.
  - unfold command_end. apply Htaken; [done|]. intros c. apply wp_bind, wp_parse_redir_list; [done..|apply fuel_enough|].
    intros [n|] s' Ha; apply wp_ret; by split.
  - by apply command_step_ok.
  - apply group_end_ok; [done|by apply Hc].
  - simpl in Hst. rule.
  - apply Htaken; [done|]. intros. rule.
  - by apply funcdef_begin_ok.
  - simpl in Hst. rule.
  - apply Htaken; [done|]. intros. apply wp_expect; [done| |intros; by split]. intros. rule.
  - apply if_body_ok; [done|by apply Hc].
  - apply if_else_ok; [done|by apply Hc].
  - simpl in Hst. rule.
  - apply Htaken; [done|]. intros. apply wp_expect; [done| |intros; by split]. intros. rule.
  - apply Htaken; [done|]. intros. by apply loop_end_ok.
  - apply Htaken; [done|]. intros. by apply loop_end_ok.
  - by apply for_begin_ok.
  - apply case_step_ok; [done| |].
    + intros ->. done.
    + intros Hn. apply Hc. by destruct n as [[[]]|].
Qed.

(** The stack: the first frame is fresh, or has been given a child; the others wait. *)
Definition stack_ok (frames : list ParseFrame) (child : option node) s : Prop :=
  ok s ∧
  match frames with
  | [] => is_Some child
  | f :: fs => starts f s ∧ (waiting f = true → is_Some child) ∧ Forall (λ g, waiting g = true) fs
  end.

(** Steps that are left: ten for a token, and those of the frames. *)
Definition budget (frames : list ParseFrame) s : nat := 10 * (length toks - pos s) + sum_list (weight <$> frames).

Lemma budget_cons f fs s : budget (f :: fs) s = (weight f + budget fs s)%nat.
Proof. unfold budget. rewrite fmap_cons. cbn [sum_list]. unfold id. lia. Qed.

Lemma budget_move fs s s' : after s s' → (budget fs s' + 10 * (pos s' - pos s) = budget fs s)%nat.
Proof. intros [? ?]. unfold budget, in_range in *. lia. Qed.

Lemma weight_pos f : (0 < weight f)%nat.
Proof. destruct f as [[]| | | | | | |[]|? []|[]| | | | | | | |[]|[]]; simpl; lia. Qed.

Lemma starts_waiting f s : waiting f = true → starts f s.
Proof. by destruct f as [| | | | | | |[]|? []|[]| | | | | | | |[]|[]]. Qed.

Lemma run_ok n frames child s :
  stack_ok frames child s → (budget frames s ≤ n)%nat →
  wp (run toks n frames child) (λ r s', ok s') s.
Proof.
  revert frames child s. induction n as [|n IH]; intros [|f fs] child s [Hs Hf] Hn; try done; cbn [run].
  { rewrite budget_cons in Hn. pose proof (weight_pos f). lia. }
  destruct Hf as (Hst & Hc & Hfs). apply wp_bind. eapply wp_mono; [by apply frame_step_ok|].
  intros [self callee|c|] s' [Ha Ho]; [| |by apply wp_ret, Ha].
  - destruct Ho as (Hw & Hfr & Hst' & Hlt). destruct (_ <=? _)%nat.
    { apply wp_bind. eapply wp_error; [apply Ha|]. intros s'' Ha' _. apply wp_ret, Ha'. }
    apply IH.
    + split; [apply Ha|]. split_and!; [done|congruence|by constructor].
    + rewrite !budget_cons in *. pose proof (budget_move fs _ _ Ha). lia.
  - apply IH.
    + split; [apply Ha|]. destruct fs as [|g fs]; [by eexists|]. apply Forall_cons in Hfs as [Hg Hfs].
      split_and!; [by apply starts_waiting|by eexists|done].
    + rewrite budget_cons in Hn. pose proof (budget_move fs _ _ Ha). pose proof (weight_pos f). lia.
Qed.
End frames.

Lemma run_mono toks n m frames child s x :
  run toks n frames child s = Done x → (n ≤ m)%nat → run toks m frames child s = Done x.
Proof.
  destruct x as [r s2]. revert m frames child s. induction n as [|n IH]; intros m [|f fs] child s Hr Hm; try done; [by destruct m|by destruct m|].
  destruct m as [|m]; [lia|]. cbn [run] in *. apply bind_done in Hr as (o & s' & E & Hr).
  rewrite (bind_eq _ _ _ _ _ E). destruct o as [self callee|c|]; [|by apply IH; [|lia]|done].
  destruct (_ <=? _)%nat; [done|]. by apply IH; [|lia].
Qed.

Lemma parse_stops toks :
  toks_ok toks → ∃ r, ∀ steps, (10 * length toks + 9 ≤ steps)%nat → sh_parse toks steps = Done r.
Proof.
  intros Htoks. set (n := (10 * length toks + 9)%nat). set (s0 := Parser 0 None).
  assert (in_range toks s0) as Hs by by apply toks_pos.
  assert (wp (run toks n [ParseList None] None) (λ r s', in_range toks s') s0) as (c & s' & E & Hs')%wp_done.
  { apply run_ok; [done|by split|]. unfold budget. simpl. lia. }
  unfold sh_parse. destruct c as [c|].
  - exists (if decide (type (tok toks s') = T_EOF) then inl c else inr ($"unexpected token")). intros m Hm.
    rewrite (bind_eq _ _ _ _ _ (run_mono _ _ _ _ _ _ _ E Hm)), (bind_eq _ _ _ _ _ (curt_eq toks s' Hs')). done.
  - exists (inr (default ($"parse error") (err s'))). intros m Hm.
    by rewrite (bind_eq _ _ _ _ _ (run_mono _ _ _ _ _ _ _ E Hm)).
Qed.

(** C37: on every token list that the tokenizer can make, the parser stops within ten steps
    a token, with a tree or with a message; it never reads past the tokens, takes the text
    of a token without one, or dereferences a child that is not there. *)
Theorem sh_parse_total toks :
  toks_ok toks → ∃ r, ∀ steps, (10 * length toks + 9 ≤ steps)%nat → sh_parse toks steps = Done r.
Proof. apply parse_stops. Qed.

Lemma sh_parse_total_witness :
  ∃ r, ∀ steps, (10 * length (demo_line ++ [op T_EOF]) + 9 ≤ steps)%nat → sh_parse (demo_line ++ [op T_EOF]) steps = Done r.
Proof.
  apply sh_parse_total. exists demo_line. split; [done|].
  repeat apply List.Forall_cons; try apply List.Forall_nil; (split; [done|first [done|by eexists]]).
Defined.
