(* ===== verification/ShellParseSpecs.v ===== *)
(** Command lines as syntax, their tokens and their trees: the parser, on the tokens of a
    command line, gives its tree; so does the tokenizer followed by the parser, on its
    text. *)

From S2P Require Import Prelude Text ShellLex ShellLexSpecs ShellParse ShellParseSafety.

(** * Syntax *)

Inductive cmd :=
  | CSimple (assigns words : list text) (rs : list sh_redir)
  | CGroup (subshell : bool) (b : prog) (rs : list sh_redir)
  | CIf (c b : prog) (e : elifs) (rs : list sh_redir)
  | CWhile (until : bool) (c b : prog) (rs : list sh_redir)
  | CFor (name : text) (words : option (list text)) (b : prog) (rs : list sh_redir)
  | CCase (w : text) (k : cases) (rs : list sh_redir)
  | CDef (name : text) (c : cmd)
with pipe := PEnd (c : cmd) | PMore (c : cmd) (p : pipe)
with andor := AOnly (negated : bool) (p : pipe) | AMore (a : andor) (both negated : bool) (p : pipe)
with prog := LNil | LCons (a : andor) (line : bool) (l : prog)
with elifs := ENil | EElse (b : prog) | EElif (c b : prog) (e : elifs)
with cases := KNil | KCons (pats : list text) (b : prog) (k : cases).

Scheme cmd_mut := Induction for cmd Sort Prop
with pipe_mut := Induction for pipe Sort Prop
with andor_mut := Induction for andor Sort Prop
with prog_mut := Induction for prog Sort Prop
with elifs_mut := Induction for elifs Sort Prop
with cases_mut := Induction for cases Sort Prop.
Combined Scheme syntax_ind from cmd_mut, pipe_mut, andor_mut, prog_mut, elifs_mut, cases_mut.

(** * Tokens *)

Definition kw (s : text) : sh_tok := word s.

Definition redir_toks (r : sh_redir) : list sh_tok :=
  let target := word (default [] (redir_word r)) in
  match kind r with
  | R_IN => [push_redir T_LT (fd r); target]
  | R_OUT => [push_redir T_GT (fd r); target]
  | R_APPEND => [push_redir T_GTGT (fd r); target]
  | R_DUP => [push_redir T_GTAMP (fd r); word (print_long (dupfd r))]
  | R_CLOSE => [push_redir T_GTAMP (fd r); word ($"-")]
  | R_HEREDOC => [Tok T_DLESS (redir_word r) (heredoc_quoted r) (-1); word ($"EOF")]
  end.
Definition redirs_toks (l : list sh_redir) : list sh_tok := concat (redir_toks <$> l).

(** The patterns of a clause, separated by bars. *)
Fixpoint pats_toks (l : list text) : list sh_tok :=
  match l with [] => [] | [w] => [word w] | w :: l' => word w :: op T_BAR :: pats_toks l' end.

Definition bang (negated : bool) : list sh_tok := if negated then [kw ($"!")] else [].

Fixpoint cmd_toks (c : cmd) : list sh_tok :=
  match c with
  | CSimple assigns words rs => (word <$> assigns) ++ (word <$> words) ++ redirs_toks rs
  | CGroup true b rs => op T_LPAREN :: prog_toks b ++ op T_RPAREN :: redirs_toks rs
  | CGroup false b rs => kw ($"{") :: prog_toks b ++ kw ($"}") :: redirs_toks rs
  | CIf c b e rs => kw ($"if") :: prog_toks c ++ kw ($"then") :: prog_toks b ++ elifs_toks e ++ kw ($"fi") :: redirs_toks rs
  | CWhile until c b rs =>
      kw (if until then $"until" else $"while") :: prog_toks c ++ kw ($"do") :: prog_toks b ++ kw ($"done") :: redirs_toks rs
  | CFor name words b rs =>
      kw ($"for") :: word name :: match words with Some ws => kw ($"in") :: (word <$> ws) | None => [] end ++
      op T_SEMI :: kw ($"do") :: prog_toks b ++ kw ($"done") :: redirs_toks rs
  | CCase w k rs => kw ($"case") :: word w :: kw ($"in") :: cases_toks k ++ kw ($"esac") :: redirs_toks rs
  | CDef name c => word name :: op T_LPAREN :: op T_RPAREN :: cmd_toks c
  end
with pipe_toks (p : pipe) : list sh_tok :=
  match p with PEnd c => cmd_toks c | PMore c p => cmd_toks c ++ op T_BAR :: pipe_toks p end
with andor_toks (a : andor) : list sh_tok :=
  match a with
  | AOnly negated p => bang negated ++ pipe_toks p
  | AMore a both negated p => andor_toks a ++ op (if both then T_AMPAMP else T_BARBAR) :: bang negated ++ pipe_toks p
  end
with prog_toks (l : prog) : list sh_tok :=
  match l with
  | LNil => []
  | LCons a line l => andor_toks a ++ op (if line then T_NEWLINE else T_SEMI) :: prog_toks l
  end
with elifs_toks (e : elifs) : list sh_tok :=
  match e with
  | ENil => []
  | EElse b => kw ($"else") :: prog_toks b
  | EElif c b e => kw ($"elif") :: prog_toks c ++ kw ($"then") :: prog_toks b ++ elifs_toks e
  end
with cases_toks (k : cases) : list sh_tok :=
  match k with
  | KNil => []
  | KCons pats b k => pats_toks pats ++ op T_RPAREN :: prog_toks b ++ op T_DSEMI :: cases_toks k
  end.

(** * Trees *)

Definition pipe_node (negated : bool) (l : list node) : node :=
  match l with [n] => set_negated negated n | _ => Node negated [] (N_PIPE l) end.

Definition list_of (l : list node) : node := new_node (N_LIST l).

Fixpoint cmd_node (c : cmd) : node :=
  match c with
  | CSimple assigns words rs => Node false rs (N_SIMPLE assigns words)
  | CGroup subshell b rs => Node false rs (N_GROUP subshell (list_of (prog_nodes b)))
  | CIf c b e rs => let '(l, els) := elifs_nodes e in Node false rs (N_IF ((list_of (prog_nodes c), list_of (prog_nodes b)) :: l) els)
  | CWhile until c b rs => Node false rs (N_WHILE (list_of (prog_nodes c)) until (list_of (prog_nodes b)))
  | CFor name words b rs =>
      Node false rs (N_FOR name (default [] words) (match words with None => true | _ => false end) (list_of (prog_nodes b)))
  | CCase w k rs => Node false rs (N_CASE w (cases_nodes k))
  | CDef name c => new_node (N_FUNCDEF name (cmd_node c))
  end
with pipe_nodes (p : pipe) : list node :=
  match p with PEnd c => [cmd_node c] | PMore c p => cmd_node c :: pipe_nodes p end
with andor_node (a : andor) : node :=
  match a with
  | AOnly negated p => pipe_node negated (pipe_nodes p)
  | AMore a both negated p =>
      new_node (N_ANDOR (andor_node a) (pipe_node negated (pipe_nodes p)) (if both then T_AMPAMP else T_BARBAR))
  end
with prog_nodes (l : prog) : list node :=
  match l with LNil => [] | LCons a _ l => andor_node a :: prog_nodes l end
with elifs_nodes (e : elifs) : list (node * node) * option node :=
  match e with
  | ENil => ([], None)
  | EElse b => ([], Some (list_of (prog_nodes b)))
  | EElif c b e => let '(l, els) := elifs_nodes e in ((list_of (prog_nodes c), list_of (prog_nodes b)) :: l, els)
  end
with cases_nodes (k : cases) : list (list text * node) :=
  match k with KNil => [] | KCons pats b k => (pats, list_of (prog_nodes b)) :: cases_nodes k end.
Definition list_node (l : prog) : node := list_of (prog_nodes l).

(** * Well-formed command lines *)

Definition keyword (w : text) : Prop := w ∈ [$"{"; $"if"; $"while"; $"until"; $"for"; $"case"; $"!"].
(** A word that can be the first of a command. *)
Definition plain_word (w : text) : Prop := w ∉ reserved ∧ ¬ keyword w ∧ looks_like_assign w = false.

Definition redir_wf (r : sh_redir) : Prop :=
  0 ≤ fd r ∧
  match kind r with
  | R_IN | R_OUT | R_APPEND => dupfd r = 0 ∧ is_Some (redir_word r) ∧ heredoc_quoted r = false
  | R_DUP => 0 ≤ dupfd r < 2^31 ∧ redir_word r = None ∧ heredoc_quoted r = false
  | R_CLOSE => dupfd r = 0 ∧ redir_word r = None ∧ heredoc_quoted r = false
  | R_HEREDOC => fd r = 0 ∧ dupfd r = 0 ∧ is_Some (redir_word r)
  end.

Definition nonempty (l : prog) : Prop := l ≠ LNil.

Fixpoint cmd_wf (c : cmd) : Prop :=
  match c with
  | CSimple assigns words rs =>
      Forall redir_wf rs ∧ Forall (λ w, looks_like_assign w = true) assigns ∧
      match words with w :: _ => plain_word w | [] => True end ∧ (assigns ≠ [] ∨ words ≠ [] ∨ rs ≠ [])
  | CGroup _ b rs => prog_wf b ∧ Forall redir_wf rs
  | CIf c b e rs => prog_wf c ∧ prog_wf b ∧ nonempty b ∧ elifs_wf e ∧ Forall redir_wf rs
  | CWhile _ c b rs => prog_wf c ∧ prog_wf b ∧ nonempty b ∧ Forall redir_wf rs
  | CFor name words b rs =>
      valid_name name = true ∧ Forall (λ w, w ∉ reserved) (default [] words) ∧ prog_wf b ∧ nonempty b ∧ Forall redir_wf rs
  | CCase w k rs => cases_wf k ∧ Forall redir_wf rs
  | CDef name c => name ∉ reserved ∧ ¬ keyword name ∧ cmd_wf c
  end
with pipe_wf (p : pipe) : Prop := match p with PEnd c => cmd_wf c | PMore c p => cmd_wf c ∧ pipe_wf p end
with andor_wf (a : andor) : Prop :=
  match a with AOnly _ p => pipe_wf p | AMore a _ _ p => andor_wf a ∧ pipe_wf p end
with prog_wf (l : prog) : Prop := match l with LNil => True | LCons a _ l => andor_wf a ∧ prog_wf l end
with elifs_wf (e : elifs) : Prop :=
  match e with
  | ENil => True
  | EElse b => prog_wf b ∧ nonempty b
  | EElif c b e => prog_wf c ∧ prog_wf b ∧ nonempty b ∧ elifs_wf e
  end
with cases_wf (k : cases) : Prop :=
  match k with KNil => True | KCons pats b k => pats ≠ [] ∧ head pats ≠ Some ($"esac") ∧ prog_wf b ∧ cases_wf k end.

(** The frames that are on the stack at most, while a rule is in progress. *)
Fixpoint cmd_depth (c : cmd) : nat :=
  match c with
  | CSimple _ _ _ => 1
  | CGroup _ b _ => 2 + prog_depth b
  | CIf c b e _ => 2 + Nat.max (prog_depth c) (Nat.max (prog_depth b) (elifs_depth e))
  | CWhile _ c b _ => 2 + Nat.max (prog_depth c) (prog_depth b)
  | CFor _ _ b _ => 2 + prog_depth b
  | CCase _ k _ => 2 + cases_depth k
  | CDef _ c => 2 + cmd_depth c
  end
with pipe_depth (p : pipe) : nat :=
  match p with PEnd c => cmd_depth c | PMore c p => Nat.max (cmd_depth c) (pipe_depth p) end
with andor_depth (a : andor) : nat :=
  match a with AOnly _ p => 2 + pipe_depth p | AMore a _ _ p => Nat.max (andor_depth a) (2 + pipe_depth p) end
with prog_depth (l : prog) : nat :=
  match l with LNil => 1 | LCons a _ l => Nat.max (1 + andor_depth a) (prog_depth l) end
with elifs_depth (e : elifs) : nat :=
  match e with
  | ENil => 0
  | EElse b => prog_depth b
  | EElif c b e => Nat.max (prog_depth c) (Nat.max (prog_depth b) (elifs_depth e))
  end
with cases_depth (k : cases) : nat :=
  match k with KNil => 0 | KCons _ b k => Nat.max (prog_depth b) (cases_depth k) end.

Lemma cmd_depth_pos c : (0 < cmd_depth c)%nat.
Proof. destruct c; simpl; lia. Qed.
Lemma pipe_depth_pos p : (0 < pipe_depth p)%nat.
Proof. destruct p as [c|c p]; simpl; pose proof (cmd_depth_pos c); lia. Qed.

(** * Running the machine *)

Section running.
Context (toks : list sh_tok) (Htoks : toks_ok toks).
Implicit Types (s : parser) (l rest : list sh_tok) (t : sh_tok) (fs : list ParseFrame).

(** The tokens from the present one on. *)
Definition upcoming s l : Prop := drop (pos s) toks = l.
Definition next s : parser := set_pos (S (pos s)) s.

Lemma up_range s t l : upcoming s (t :: l) → in_range toks s.
Proof. intros H%(f_equal length). rewrite length_drop in H. simpl in H. unfold in_range. lia. Qed.

Lemma up_tok s t l : upcoming s (t :: l) → tok toks s = t.
Proof. intros H. unfold tok. apply (f_equal (lookup O)) in H. rewrite lookup_drop, Nat.add_0_r in H. by rewrite H. Qed.

Lemma up_next s t l : upcoming s (t :: l) → upcoming (next s) l.
Proof.
  unfold upcoming, next. simpl. intros H. replace (S (pos s)) with (pos s + 1)%nat by lia. by rewrite <-drop_drop, H.
Qed.

Lemma up_length s l : upcoming s l → (length l ≤ length toks)%nat.
Proof. intros <-. rewrite length_drop. lia. Qed.

Definition tok_is (k : text) t : bool := (bool_decide (type t = T_WORD) && bool_decide (tok_text t = Some k))%bool.

Lemma cur_up s t l : upcoming s (t :: l) → cur toks s = Done (t, s).
Proof. intros H. rewrite cur_eq by by eapply up_range. by rewrite (up_tok _ _ _ H). Qed.
Lemma curt_up s t l : upcoming s (t :: l) → curt toks s = Done (type t, s).
Proof. intros H. unfold curt. by rewrite (bind_eq _ _ _ _ _ (cur_up _ _ _ H)). Qed.
Lemma adv_up s t l : upcoming s (t :: l) → type t ≠ T_EOF → adv toks s = Done (tt, next s).
Proof. intros H Ht. rewrite adv_eq by by eapply up_range. rewrite (up_tok _ _ _ H). by rewrite decide_False. Qed.
Lemma cur_text_up s t l w : upcoming s (t :: l) → tok_text t = Some w → cur_text toks s = Done (w, s).
Proof. intros H Ht. unfold cur_text. rewrite (bind_eq _ _ _ _ _ (cur_up _ _ _ H)). by rewrite Ht. Qed.
Lemma is_word_up s t l k : upcoming s (t :: l) → is_word toks k s = Done (tok_is k t, s).
Proof. intros H. unfold is_word. by rewrite (bind_eq _ _ _ _ _ (cur_up _ _ _ H)). Qed.
Lemma is_reserved_up s t l : upcoming s (t :: l) → is_reserved toks s = Done (reserved_tok t, s).
Proof. intros H. unfold is_reserved. by rewrite (bind_eq _ _ _ _ _ (cur_up _ _ _ H)). Qed.
Lemma peekt_up s t u l : upcoming s (t :: u :: l) → type t ≠ T_EOF → peekt toks s = Done (type u, s).
Proof.
  intros H Ht. unfold peekt. rewrite (bind_eq _ _ _ _ _ (curt_up _ _ _ H)). rewrite decide_False by done.
  pose proof (up_next _ _ _ H) as Hn. unfold tok_at. apply (f_equal (lookup O)) in Hn. rewrite lookup_drop, Nat.add_0_r in Hn.
  simpl in Hn. unfold gets, deref, mbind, M_bind. by rewrite Hn.
Qed.

(** Runs of the machine. *)
Definition steps (fr : list ParseFrame) (ch : option node) s (fr' : list ParseFrame) (ch' : option node) s' : Prop :=
  ∃ k, ∀ n, run toks (k + n) fr ch s = run toks n fr' ch' s'.

Lemma steps_refl fr ch s : steps fr ch s fr ch s.
Proof. by exists O. Qed.
Lemma steps_trans fr1 ch1 s1 fr2 ch2 s2 fr3 ch3 s3 :
  steps fr1 ch1 s1 fr2 ch2 s2 → steps fr2 ch2 s2 fr3 ch3 s3 → steps fr1 ch1 s1 fr3 ch3 s3.
Proof. intros [k1 H1] [k2 H2]. exists (k1 + k2)%nat. intros n. by rewrite <-Nat.add_assoc, H1, H2. Qed.

Lemma steps_call f fs ch s self callee s' :
  frame_step toks f ch s = Done (Call self callee, s') → (S (length fs) < SH_MAX_PARSE_FRAMES)%nat →
  steps (f :: fs) ch s (callee :: self :: fs) None s'.
Proof.
  intros E Hd. exists 1%nat. intros n. cbn [Nat.add run]. rewrite (bind_eq _ _ _ _ _ E).
  by rewrite (proj2 (Nat.leb_gt _ _)).
Qed.
Lemma steps_return f fs ch s c s' : frame_step toks f ch s = Done (Return c, s') → steps (f :: fs) ch s fs (Some c) s'.
Proof. intros E. exists 1%nat. intros n. cbn [Nat.add run]. by rewrite (bind_eq _ _ _ _ _ E). Qed.

(** The first token of a command, and the tokens that end lists. *)
Definition starter t : Prop := (type t = T_WORD ∨ type t = T_LPAREN ∨ is_redir_tok (type t) = true) ∧ reserved_tok t = false.
Definition closer t : Prop := type t ∈ [T_EOF; T_RPAREN; T_DSEMI] ∨ reserved_tok t = true.

Lemma skip_none s t l test f : upcoming s (t :: l) → (0 < f)%nat → test (type t) = false → skip toks test f s = Done (tt, s).
Proof. intros H Hf Ht. destruct f as [|f]; [lia|]. cbn [skip]. rewrite (bind_eq _ _ _ _ _ (curt_up _ _ _ H)). by rewrite Ht. Qed.
Lemma skip_one s t u l test f :
  upcoming s (t :: u :: l) → (1 < f)%nat → type t ≠ T_EOF → test (type t) = true → test (type u) = false →
  skip toks test f s = Done (tt, next s).
Proof.
  intros H Hf Hne Ht Hu. destruct f as [|f]; [lia|]. cbn [skip]. rewrite (bind_eq _ _ _ _ _ (curt_up _ _ _ H)). rewrite Ht.
  rewrite (bind_eq _ _ _ _ _ (adv_up _ _ _ H Hne)). eapply skip_none; [by eapply up_next|lia|done].
Qed.

Lemma fuel_up s l : upcoming s l → (length l < fuel toks)%nat.
Proof. intros H%up_length. unfold fuel. lia. Qed.

End running.

Section tokens.
Implicit Types t : sh_tok.

Lemma reserved_word t : reserved_tok t = true → type t = T_WORD.
Proof. unfold reserved_tok. intros [H _]%andb_true_iff. by apply bool_decide_eq_true in H. Qed.
Lemma starter_not t : starter t → type t ∉ [T_NEWLINE; T_SEMI; T_EOF; T_RPAREN; T_DSEMI].
Proof. intros [[->|[->|H]] _]; [set_solver..|]. by intros Hin; repeat (apply elem_of_cons in Hin as [E|Hin]; [by rewrite E in H|]); apply not_elem_of_nil in Hin. Qed.
Lemma closer_not_sep t : closer t → is_sep (type t) = false.
Proof.
  intros [Ht|Ht%reserved_word]; [|by rewrite Ht]. repeat (apply elem_of_cons in Ht as [->|Ht]; [done|]). by apply not_elem_of_nil in Ht.
Qed.
Lemma starter_not_sep t : starter t → is_sep (type t) = false.
Proof. intros Ht%starter_not. unfold is_sep. apply bool_decide_eq_false. set_solver. Qed.
End tokens.

(** Decide the tests on a token that is given. *)
Ltac decide_toks := repeat match goal with
  | |- context [tok_is ?k ?t] =>
      let b := eval vm_compute in (tok_is k t) in
      lazymatch b with true => change (tok_is k t) with true | false => change (tok_is k t) with false end; cbn match
  | |- context [reserved_tok ?t] =>
      let b := eval vm_compute in (reserved_tok t) in
      lazymatch b with true => change (reserved_tok t) with true | false => change (reserved_tok t) with false end
  | |- context [bool_decide ?P] => first [rewrite (bool_decide_true P) by chars | rewrite (bool_decide_false P) by chars]
  | |- context [decide ?P] => first [rewrite (decide_True (P := P)) by chars | rewrite (decide_False (P := P)) by chars]
  end.
(** One operation of the parser at tokens that are given. *)
Ltac ev :=
  match goal with
  | H : upcoming _ ?s _ |- context [mbind _ (cur _) ?s] => rewrite (bind_eq _ _ _ _ _ (cur_up _ _ _ _ H))
  | H : upcoming _ ?s _ |- context [mbind _ (curt _) ?s] => rewrite (bind_eq _ _ _ _ _ (curt_up _ _ _ _ H))
  | H : upcoming _ ?s _ |- context [mbind _ (is_word _ _) ?s] => rewrite (bind_eq _ _ _ _ _ (is_word_up _ _ _ _ _ H))
  | H : upcoming _ ?s _ |- context [mbind _ (is_reserved _) ?s] => rewrite (bind_eq _ _ _ _ _ (is_reserved_up _ _ _ _ H))
  | H : upcoming _ ?s _ |- context [mbind _ (cur_text _) ?s] => rewrite (bind_eq _ _ _ _ _ (cur_text_up _ _ _ _ _ H eq_refl))
  | H : upcoming _ ?s _ |- context [mbind _ (adv _) ?s] =>
      let H' := fresh "Hup" in
      pose proof (up_next _ _ _ _ H) as H';
      rewrite (bind_eq _ _ _ _ _ (adv_up _ _ _ _ H ltac:(done)))
  | H : upcoming _ ?s _ |- context [mbind _ (peekt _) ?s] => rewrite (bind_eq _ _ _ _ _ (peekt_up _ _ _ _ _ H ltac:(done)))
  end; cbn [type kw word op push push_redir tok_text rfd].

Section simple.
Context (toks : list sh_tok) (Htoks : toks_ok toks).
Implicit Types (s : parser) (l rest : list sh_tok) (t : sh_tok).
Abbreviation upcoming := (upcoming toks).

(** What follows a command: not a word and not a redirection. *)
Definition ends_cmd rest : Prop :=
  match rest with t :: _ => type t ≠ T_WORD ∧ is_redir_tok (type t) = false ∧ type t ≠ T_LPAREN | [] => False end.

Lemma all_digits_print z : 0 ≤ z < 10^20 → all_digits (print_long z) = true.
Proof.
  intros Hz. unfold print_long. rewrite (proj2 (Z.ltb_ge z 0)) by lia.
  destruct (print_digits_spec 20 z []) as (d & -> & Hne & Hd & _); [lia|lia|]. rewrite app_nil_r. unfold all_digits.
  rewrite bool_decide_false by done. cbn [negb andb]. apply forallb_forall. intros c Hc. by apply (proj1 (List.Forall_forall _ _) Hd).
Qed.

Lemma parse_redir_toks s r rest :
  redir_wf r → upcoming s (redir_toks r ++ rest) → ∃ s', parse_redir toks s = Done (Some r, s') ∧ upcoming s' rest.
Proof.
  intros [Hfd Hr] Hup. destruct r as [k fd dup w q]. simpl in Hfd, Hr. unfold redir_toks in Hup. 
  assert ((fd <? 0) = false) as Hlt by lia.
  destruct k; simpl in Hup; unfold parse_redir.
  1-3: destruct Hr as (-> & [w' ->] & ->); simpl in Hup; eexists; ev; rewrite Hlt; decide_toks; repeat ev; decide_toks; repeat ev; split; [reflexivity|by repeat (eapply up_next; eassumption)].
  - destruct Hr as (-> & -> & [w' ->]). eexists; ev; decide_toks; repeat ev; decide_toks; repeat ev. by split.
  - destruct Hr as (Hd & -> & ->). eexists; ev; rewrite Hlt; decide_toks; repeat ev; decide_toks; repeat ev.
    rewrite all_digits_print by lia. rewrite strtol_print by lia. by split.
  - destruct Hr as (-> & -> & ->). eexists; ev; rewrite Hlt; decide_toks; repeat ev; decide_toks; repeat ev.
    change (all_digits _) with false. decide_toks. by split.
Qed.

Lemma redir_toks_head r : ∃ t l, redir_toks r = t :: l ∧ is_redir_tok (type t) = true ∧ type t ≠ T_WORD.
Proof. unfold redir_toks. destruct (kind r); eexists _, _; (split; [reflexivity|]); done. Qed.

Lemma redirs_toks_cons r rs rest : redirs_toks (r :: rs) ++ rest = redir_toks r ++ redirs_toks rs ++ rest.
Proof. unfold redirs_toks. cbn [fmap list_fmap concat]. by rewrite <-app_assoc. Qed.

Lemma redirs_toks_length rs : (length rs ≤ length (redirs_toks rs))%nat.
Proof.
  induction rs as [|r rs IH]; [done|]. unfold redirs_toks in *. cbn [fmap list_fmap concat]. rewrite length_app.
  destruct (redir_toks_head r) as (t & l & -> & _). simpl. lia.
Qed.

(** A redirection comes before what the parser is at. *)
Lemma up_redir s r rest : upcoming s (redir_toks r ++ rest) →
  ∃ t, curt toks s = Done (type t, s) ∧ is_redir_tok (type t) = true ∧ type t ≠ T_WORD.
Proof.
  destruct (redir_toks_head r) as (t & l & -> & Ht & Hw). intros Hup. exists t. split; [|done]. by eapply curt_up.
Qed.

Lemma add_redirs_app rs1 rs2 n : add_redirs rs2 (add_redirs rs1 n) = add_redirs (rs1 ++ rs2) n.
Proof. destruct n. simpl. by rewrite app_assoc. Qed.

Lemma redir_list_toks s rs n rest f :
  Forall redir_wf rs → upcoming s (redirs_toks rs ++ rest) → ends_cmd rest → (length rs < f)%nat →
  ∃ s', parse_redir_list toks f n s = Done (Some (add_redirs rs n), s') ∧ upcoming s' rest.
Proof.
  intros Hrs. revert s n f. induction Hrs as [|r rs Hr Hrs IH]; intros s n f Hup He Hf; (destruct f as [|f]; [simpl in Hf; lia|]);
    cbn [parse_redir_list].
  - destruct rest as [|t rest]; [done|]. destruct He as (_ & He & _). simpl in Hup. ev. rewrite He.
    exists s. split; [|done]. destruct n. simpl. by rewrite app_nil_r.
  - rewrite redirs_toks_cons in Hup. destruct (up_redir _ _ _ Hup) as (t & E & Ht & _). rewrite (bind_eq _ _ _ _ _ E), Ht.
    destruct (parse_redir_toks _ _ _ Hr Hup) as (s1 & E1 & Hup1). rewrite (bind_eq _ _ _ _ _ E1).
    destruct (IH s1 (add_redirs [r] n) f) as (s2 & E2 & Hup2); [done..|simpl in Hf; lia|]. exists s2. by rewrite E2, add_redirs_app.
Qed.

Definition simple_node (assigns words : list text) (rs : list sh_redir) : node := Node false rs (N_SIMPLE assigns words).

Lemma simple_redirs s a w rs0 rs rest f :
  Forall redir_wf rs → upcoming s (redirs_toks rs ++ rest) → ends_cmd rest → (length rs < f)%nat →
  (a ≠ [] ∨ w ≠ [] ∨ rs0 ++ rs ≠ []) →
  ∃ s', simple_loop toks f a w rs0 s = Done (Some (simple_node a w (rs0 ++ rs)), s') ∧ upcoming s' rest.
Proof.
  intros Hrs. revert s rs0 f. induction Hrs as [|r rs Hr Hrs IH]; intros s rs0 f Hup He Hf Hne; (destruct f as [|f]; [simpl in Hf; lia|]);
    cbn [simple_loop].
  - destruct rest as [|t rest]; [done|]. destruct He as (He1 & He2 & _). simpl in Hup. ev.
    rewrite decide_False, He2 by done. rewrite app_nil_r in *. exists s. split; [|done].
    destruct a, w, rs0; try done. by destruct Hne as [|[|]].
  - rewrite redirs_toks_cons in Hup. destruct (up_redir _ _ _ Hup) as (t & E & Ht & Hw). rewrite (bind_eq _ _ _ _ _ E).
    rewrite decide_False, Ht by done.
    destruct (parse_redir_toks _ _ _ Hr Hup) as (s1 & E1 & Hup1). rewrite (bind_eq _ _ _ _ _ E1).
    destruct (IH s1 (rs0 ++ [r]) f) as (s2 & E2 & Hup2); [done..|simpl in Hf; lia| |].
    + right; right. by destruct rs0.
    + exists s2. rewrite E2. by rewrite <-app_assoc.
Qed.

(** Words after the first. *)
Lemma simple_words s a w0 ws rs rest f :
  w0 ≠ [] → Forall redir_wf rs → upcoming s ((word <$> ws) ++ redirs_toks rs ++ rest) → ends_cmd rest →
  (length ws + length rs < f)%nat →
  ∃ s', simple_loop toks f a w0 [] s = Done (Some (simple_node a (w0 ++ ws) rs), s') ∧ upcoming s' rest.
Proof.
  intros Hne Hrs. revert s w0 f Hne. induction ws as [|w ws IH]; intros s w0 f Hne Hup He Hf.
  - rewrite app_nil_r. destruct (simple_redirs s a w0 [] rs rest f) as (s' & E & Hup'); first [done | by auto | by exists s' | simpl in Hf; lia].
  - destruct f as [|f]; [simpl in Hf; lia|]. cbn [simple_loop]. cbn [fmap list_fmap app] in Hup. ev.
    rewrite decide_True by done. ev. rewrite (bool_decide_false (w0 = [])) by done. cbn [andb]. ev. cbn [andb]. ev.
    destruct (IH (next s) (w0 ++ [w]) f) as (s2 & E2 & Hup2); [by destruct w0|done..|simpl in Hf; lia|].
    exists s2. rewrite E2. by rewrite <-app_assoc.
Qed.

Lemma reserved_tok_word w : reserved_tok (word w) = bool_decide (w ∈ reserved).
Proof.
  unfold reserved_tok. cbn [type word push tok_text]. rewrite bool_decide_true by done. cbn [andb].
  apply eq_true_iff_eq. rewrite existsb_exists, bool_decide_eq_true. split.
  - intros (k & Hk & E). apply bool_decide_eq_true in E. injection E as ->. by apply list_elem_of_In.
  - intros Hw. exists w. split; [by apply list_elem_of_In|by apply bool_decide_eq_true].
Qed.

Lemma simple_first s a ws rs rest f :
  match ws with w :: _ => plain_word w | [] => True end → Forall redir_wf rs → (a ≠ [] ∨ ws ≠ [] ∨ rs ≠ []) →
  upcoming s ((word <$> ws) ++ redirs_toks rs ++ rest) → ends_cmd rest → (length ws + length rs < f)%nat →
  ∃ s', simple_loop toks f a [] [] s = Done (Some (simple_node a ws rs), s') ∧ upcoming s' rest.
Proof.
  intros Hw Hrs Hne Hup He Hf. destruct ws as [|w ws].
  - by destruct (simple_redirs s a [] [] rs rest f) as (s' & E & Hup'); [..|exists s'].
  - destruct f as [|f]; [simpl in Hf; lia|]. cbn [simple_loop]. cbn [fmap list_fmap app] in Hup. ev.
    rewrite decide_True by done. ev. destruct Hw as (Hres & _ & Has). rewrite Has, andb_false_r. ev.
    rewrite reserved_tok_word, (bool_decide_false (w ∈ reserved)) by done. rewrite andb_false_r. ev.
    destruct (simple_words (next s) a [w] ws rs rest f) as (s2 & E2 & Hup2); [done..|simpl in Hf; lia|]. by exists s2.
Qed.

Lemma simple_toks s a0 a ws rs rest f :
  Forall (λ w, looks_like_assign w = true) a → match ws with w :: _ => plain_word w | [] => True end → Forall redir_wf rs →
  (a0 ++ a ≠ [] ∨ ws ≠ [] ∨ rs ≠ []) →
  upcoming s ((word <$> a) ++ (word <$> ws) ++ redirs_toks rs ++ rest) → ends_cmd rest →
  (length a + length ws + length rs < f)%nat →
  ∃ s', simple_loop toks f a0 [] [] s = Done (Some (simple_node (a0 ++ a) ws rs), s') ∧ upcoming s' rest.
Proof.
  intros Ha Hw Hrs. revert s a0 f. induction Ha as [|w a Haw Ha IH]; intros s a0 f Hne Hup He Hf.
  - rewrite app_nil_r in *. by apply simple_first.
  - destruct f as [|f]; [simpl in Hf; lia|]. cbn [simple_loop]. cbn [fmap list_fmap app] in Hup. ev.
    rewrite decide_True by done. ev. rewrite (bool_decide_true ([] = [])), Haw by done. cbn [andb]. ev.
    destruct (IH (next s) (a0 ++ [w]) f) as (s2 & E2 & Hup2); [left; by destruct a0|done..|simpl in Hf; lia|].
    exists s2. rewrite E2. by rewrite <-app_assoc.
Qed.
End simple.

(** * The first tokens of commands *)

Section starts.
Implicit Types (t : sh_tok) (l rest : list sh_tok).

Definition starts_cmd l : Prop := ∃ t l', l = t :: l' ∧ starter t ∧ tok_is ($"!") t = false.

Lemma assign_not_reserved w : looks_like_assign w = true → w ∉ reserved ∧ ¬ keyword w.
Proof.
  intros Hw. split; intros Hin; unfold reserved, keyword in Hin;
    repeat (apply elem_of_cons in Hin as [->|Hin]; [by vm_compute in Hw|]); by apply not_elem_of_nil in Hin.
Qed.

Lemma word_starts w l : w ∉ reserved → w ≠ $"!" → starts_cmd (word w :: l).
Proof.
  intros Hr Hk. eexists _, _. split; [reflexivity|]. split; [split; [by left|]|].
  - rewrite reserved_tok_word. by apply bool_decide_eq_false.
  - unfold tok_is. cbn [type word push tok_text]. rewrite bool_decide_true by done. cbn [andb]. apply bool_decide_eq_false.
    by intros [= ->].
Qed.

Lemma not_bang w : ¬ keyword w → w ≠ $"!".
Proof. intros Hw ->. apply Hw. unfold keyword. chars. Qed.

Lemma starts_app l rest : starts_cmd l → starts_cmd (l ++ rest).
Proof. intros (t & l' & -> & Ht). by exists t, (l' ++ rest). Qed.

Lemma cmd_starts c : cmd_wf c → starts_cmd (cmd_toks c).
Proof.
  intros Hc. destruct c as [a ws rs|[] b rs|c b e rs|until c b rs|name ws b rs|w k rs|name c]; cbn [cmd_toks].
  - destruct Hc as (Hrs & Ha & Hw & Hne). destruct a as [|w a].
    + destruct ws as [|w ws].
      * destruct rs as [|r rs]; [by destruct Hne as [|[]]|]. cbn [fmap list_fmap app]. unfold redirs_toks. cbn [fmap list_fmap concat].
        apply starts_app. destruct (redir_toks_head r) as (t & l & -> & Ht & Hne'). exists t, l. split; [done|]. split; [split; [by auto|]|].
        -- unfold reserved_tok. by rewrite bool_decide_false.
        -- unfold tok_is. by rewrite bool_decide_false.
      * cbn [fmap list_fmap app]. destruct Hw as (? & ? & ?). by apply word_starts; [|apply not_bang].
    + apply Forall_cons in Ha as [Ha _]. cbn [fmap list_fmap app]. apply assign_not_reserved in Ha as [? ?]. by apply word_starts; [|apply not_bang].
  - eexists _, _. split; [reflexivity|]. split; [split; [by right; left|done]|done].
  - by apply word_starts; chars.
  - by apply word_starts; chars.
  - by destruct until; apply word_starts; chars.
  - by apply word_starts; chars.
  - by apply word_starts; chars.
  - destruct Hc as (? & ? & _). by apply word_starts; [|apply not_bang].
Qed.

Lemma pipe_starts p : pipe_wf p → starts_cmd (pipe_toks p).
Proof. destruct p as [c|c p]; simpl; [apply cmd_starts|]. intros [? _]. by apply starts_app, cmd_starts. Qed.

(** The first token of a pipeline or a list of them may be the negation. *)
Definition starts_list l : Prop := ∃ t l', l = t :: l' ∧ starter t.

Lemma bang_starts b l : starts_cmd l → starts_list (bang b ++ l).
Proof.
  intros (t & l' & -> & Ht & _). destruct b; [|by exists t, l']. eexists _, _. split; [reflexivity|]. by split; [left|].
Qed.

Lemma andor_starts a rest : andor_wf a → starts_list (andor_toks a ++ rest).
Proof.
  intros Ha. assert (starts_list (andor_toks a)) as (t & l & E & Ht).
  { induction a as [b p|a IH both b p]; cbn [andor_toks].
    - by apply bang_starts, pipe_starts.
    - destruct Ha as [Ha _]. destruct (IH Ha) as (t & l & -> & Ht). by eexists _, _. }
  rewrite E. by eexists _, _.
Qed.
End starts.

(** * The parser builds the tree *)

Section parses.
Context (toks : list sh_tok) (Htoks : toks_ok toks).
Implicit Types (s : parser) (l rest : list sh_tok) (t : sh_tok) (fs : list ParseFrame).
Abbreviation upcoming := (upcoming toks).
Abbreviation steps := (steps toks).
Abbreviation frame_step := (frame_step toks).

(** What a command with its first two tokens calls. *)
Definition command_choice t u : M parser Step :=
  if decide (type t = T_LPAREN) then call (ParseCommand true) (ParseGroup true false)
  else if tok_is ($"{") t then call (ParseCommand true) (ParseGroup false false)
  else if tok_is ($"if") t then call (ParseCommand true) ParseIf_Start
  else if (tok_is ($"while") t || tok_is ($"until") t)%bool then call (ParseCommand true) ParseWhile_Start
  else if tok_is ($"for") t then call (ParseCommand true) (ParseFor None)
  else if tok_is ($"case") t then call (ParseCommand true) (ParseCase None)
  else if (bool_decide (type t = T_WORD) && negb (reserved_tok t) && bool_decide (type u = T_LPAREN))%bool
  then call (ParseCommand true) (ParseFuncdef None)
  else simple_step toks.

Lemma command_eq s t u l : upcoming s (t :: u :: l) → type t ≠ T_EOF → command_step toks s = command_choice t u s.
Proof.
  intros Hup Ht. unfold command_step, command_choice. do 3 ev.
  match goal with |- mbind _ ?m s = _ =>
    assert (m s = Done ((bool_decide (type t = T_WORD) && negb (reserved_tok t) && bool_decide (type u = T_LPAREN))%bool, s)) as E end.
  { destruct (_ && _)%bool; [|done]. by ev. }
  rewrite (bind_eq _ _ _ _ _ E). repeat ev. done.
Qed.

(** A compound command, called at its first token, with the redirections after it. *)
Lemma compound_toks g n s s1 t l rs rest fs :
  upcoming s (t :: l) → l ≠ [] → type t ≠ T_EOF → (∀ u l', l = u :: l' → command_choice t u s = call (ParseCommand true) g s) →
  Forall redir_wf rs → ends_cmd rest → (S (length fs) < SH_MAX_PARSE_FRAMES)%nat →
  steps (g :: ParseCommand true :: fs) None s (ParseCommand true :: fs) (Some n) s1 →
  upcoming s1 (redirs_toks rs ++ rest) →
  ∃ s', upcoming s' rest ∧ steps (ParseCommand false :: fs) None s fs (Some (add_redirs rs n)) s'.
Proof.
  intros Hup Hl Ht Hg Hrs He Hd Hst Hup1. destruct l as [|u l]; [done|].
  assert (frame_step (ParseCommand false) None s = Done (Call (ParseCommand true) g, s)) as E.
  { cbn [ShellParse.frame_step]. by rewrite (command_eq s t u l Hup Ht), (Hg u l). }
  destruct (redir_list_toks toks s1 rs n rest (fuel toks)) as (s' & E' & Hup'); [done..| |].
  { apply fuel_up in Hup1. rewrite length_app in Hup1. pose proof (redirs_toks_length rs). lia. }
  exists s'. split; [done|]. eapply steps_trans; [by eapply steps_call|]. eapply steps_trans; [exact Hst|].
  apply steps_return. cbn [ShellParse.frame_step]. unfold command_end. cbn [taken]. 
  unfold mbind at 1, M_bind at 1. cbn. by rewrite (bind_eq _ _ _ _ _ E').
Qed.

(** What follows the rules. *)
Definition ends_pipe rest : Prop := ∃ t l, rest = t :: l ∧ type t ∈ [T_AMPAMP; T_BARBAR; T_SEMI; T_NEWLINE].
Definition closes rest : Prop := ∃ t l, rest = t :: l ∧ closer t.

Lemma ends_pipe_cmd rest : ends_pipe rest → ends_cmd rest.
Proof.
  intros (t & l & -> & Ht). simpl. repeat (apply elem_of_cons in Ht as [->|Ht]; [done|]). by apply not_elem_of_nil in Ht.
Qed.

(** What each part of a command line makes the machine do. *)
Definition runs_cmd c : Prop := cmd_wf c → ∀ s rest fs,
  upcoming s (cmd_toks c ++ rest) → ends_cmd rest → (length fs + cmd_depth c ≤ SH_MAX_PARSE_FRAMES)%nat →
  ∃ s', upcoming s' rest ∧ steps (ParseCommand false :: fs) None s fs (Some (cmd_node c)) s'.
Definition runs_pipe p : Prop := pipe_wf p → ∀ s rest fs b,
  upcoming s (pipe_toks p ++ rest) → ends_pipe rest → (1 + length fs + pipe_depth p ≤ SH_MAX_PARSE_FRAMES)%nat →
  (∃ s', upcoming s' rest ∧
    steps (ParseCommand false :: ParsePipeline_First b :: fs) None s fs (Some (pipe_node b (pipe_nodes p))) s') ∧
  (∀ ns, ∃ s', upcoming s' rest ∧
    steps (ParseCommand false :: ParsePipeline_Next b ns :: fs) None s fs (Some (Node b [] (N_PIPE (ns ++ pipe_nodes p)))) s').
Definition runs_andor a : Prop := andor_wf a → ∀ s rest fs,
  upcoming s (andor_toks a ++ rest) → ends_pipe rest → (length fs + andor_depth a ≤ SH_MAX_PARSE_FRAMES)%nat →
  ∃ f c s', upcoming s' rest ∧ steps (ParseAndOr_Start :: fs) None s (f :: fs) (Some c) s' ∧
    frame_step f (Some c) s' = andor_step toks (andor_node a) s'.
Definition runs_prog (l : prog) : Prop := prog_wf l → ∀ s0 s rest f fs ch acc,
  upcoming s (prog_toks l ++ rest) → closes rest → (length fs + prog_depth l ≤ SH_MAX_PARSE_FRAMES)%nat →
  frame_step f ch s0 = list_more toks acc s →
  ∃ s', upcoming s' rest ∧ steps (f :: fs) ch s0 fs (Some (list_of (acc ++ prog_nodes l))) s'.
Definition runs_elifs e : Prop := elifs_wf e → ∀ s0 s rest f fs ch ns,
  upcoming s (elifs_toks e ++ kw ($"fi") :: rest) → (1 + length fs + elifs_depth e ≤ SH_MAX_PARSE_FRAMES)%nat →
  frame_step f ch s0 = if_more toks ns s →
  ∃ s', upcoming s' rest ∧
    steps (f :: fs) ch s0 fs (Some (new_node (N_IF (ns ++ (elifs_nodes e).1) (elifs_nodes e).2))) s'.
Definition runs_cases k : Prop := cases_wf k → ∀ s0 s rest f fs ch w ns,
  upcoming s (cases_toks k ++ kw ($"esac") :: rest) → (1 + length fs + cases_depth k ≤ SH_MAX_PARSE_FRAMES)%nat →
  frame_step f ch s0 = case_clause toks w ns s →
  ∃ s', upcoming s' rest ∧ steps (f :: fs) ch s0 fs (Some (new_node (N_CASE w (ns ++ cases_nodes k)))) s'.

Lemma goes_on s t l : upcoming s (t :: l) → starter t → list_goes_on toks s = Done (true, s).
Proof.
  intros Hup Ht. unfold list_goes_on. do 2 ev. pose proof (starter_not t Ht) as Hn. destruct Ht as [_ Hr]. rewrite Hr.
  rewrite bool_decide_false by set_solver. done.
Qed.
Lemma goes_not_on s t l : upcoming s (t :: l) → closer t → list_goes_on toks s = Done (false, s).
Proof.
  intros Hup Ht. unfold list_goes_on. do 2 ev. destruct Ht as [Ht| ->]; [rewrite bool_decide_true by done; done|]. by rewrite andb_false_r.
Qed.

(** A list after a token: the first token is of a command, or closes the list. *)
Lemma prog_first (l : prog) rest : prog_wf l → closes rest → ∃ t l', prog_toks l ++ rest = t :: l' ∧ is_sep (type t) = false.
Proof.
  intros Hl (t & l' & -> & Ht). destruct l as [|a b l]; simpl.
  - exists t, l'. split; [done|]. by apply closer_not_sep.
  - destruct Hl as [Ha _]. destruct (andor_starts a ((op (if b then T_NEWLINE else T_SEMI) :: prog_toks l) ++ t :: l') Ha) as (u & l2 & E & Hu).
    exists u, l2. rewrite <-app_assoc. split; [done|]. by apply starter_not_sep.
Qed.

Lemma list_runs (l : prog) s rest fs :
  runs_prog l → prog_wf l → upcoming s (prog_toks l ++ rest) → closes rest → (length fs + prog_depth l ≤ SH_MAX_PARSE_FRAMES)%nat →
  ∃ s', upcoming s' rest ∧ steps (ParseList None :: fs) None s fs (Some (list_node l)) s'.
Proof.
  intros Hrun Hl Hup Hc Hd. apply (Hrun Hl s s rest (ParseList None) fs None [] Hup Hc Hd).
  destruct (prog_first l rest Hl Hc) as (t & l' & E & Ht). rewrite E in Hup. cbn [ShellParse.frame_step list_step].
  unfold skip_seps. pose proof (fuel_up _ _ _ Hup). by rewrite (bind_eq _ _ _ _ _ (skip_none toks s t l' is_sep (fuel toks) Hup ltac:(simpl in *; lia) Ht)).
Qed.

Lemma nchild_list (l : prog) : nonempty l → (nchild (list_node l) =? 0)%nat = false.
Proof. by destruct l. Qed.

Lemma prog_depth_pos (l : prog) : (0 < prog_depth l)%nat.
Proof. destruct l; simpl; lia. Qed.

Lemma runs_LNil : runs_prog LNil.
Proof.
  intros _ s0 s rest f fs ch acc Hup (t & l & -> & Ht) Hd E. exists s. split; [done|]. apply steps_return.
  rewrite E. unfold list_more. simpl in Hup. rewrite (bind_eq _ _ _ _ _ (goes_not_on _ _ _ Hup Ht)). by rewrite app_nil_r.
Qed.

Lemma runs_LCons a b (l : prog) : runs_andor a → runs_prog l → runs_prog (LCons a b l).
Proof.
  intros Ha Hl [Hwa Hwl] s0 s rest f fs ch acc Hup Hc Hd E. simpl in Hup, Hd. rewrite <-app_assoc in Hup. cbn [app] in Hup.
  assert (ends_pipe (op (if b then T_NEWLINE else T_SEMI) :: prog_toks l ++ rest)) as He
    by (eexists _, _; split; [reflexivity|]; destruct b; chars).
  destruct (andor_starts a (op (if b then T_NEWLINE else T_SEMI) :: prog_toks l ++ rest) Hwa) as (t & l' & Et & Ht).
  assert (frame_step f ch s0 = Done (Call (ParseList (Some acc)) ParseAndOr_Start, s)) as E1.
  { rewrite E. unfold list_more. pose proof Hup as Hup'. rewrite Et in Hup'. by rewrite (bind_eq _ _ _ _ _ (goes_on _ _ _ Hup' Ht)). }
  destruct (Ha Hwa s _ (ParseList (Some acc) :: fs) Hup He) as (g & c & s1 & Hup1 & Hs1 & Eg); [simpl; lia|].
  destruct (prog_first l rest Hwl Hc) as (u & l2 & Eu & Hu).
  assert (skip_seps toks s1 = Done (tt, next s1)) as Eskip.
  { rewrite Eu in Hup1. pose proof (fuel_up _ _ _ Hup1). eapply skip_one; [done|simpl in *; lia|by destruct b..|done]. }
  destruct (Hl Hwl s1 (next s1) rest (ParseList (Some acc)) fs (Some (andor_node a)) (acc ++ [andor_node a])) as (s2 & Hup2 & Hs2).
  - by eapply up_next.
  - done.
  - lia.
  - cbn [ShellParse.frame_step list_step taken]. unfold mbind at 1, M_bind at 1. cbn [mret M_ret]. ev.
    assert (is_sep (if b then T_NEWLINE else T_SEMI) = true) as -> by by destruct b. by rewrite (bind_eq _ _ _ _ _ Eskip).
  - exists s2. split; [done|]. eapply steps_trans; [eapply steps_call; [exact E1|]|].
    { assert (2 ≤ andor_depth a)%nat by (clear; induction a; simpl; lia). lia. }
    eapply steps_trans; [exact Hs1|]. eapply steps_trans; [eapply steps_return|].
    + rewrite Eg. unfold andor_step. ev. rewrite bool_decide_false by (destruct b; chars). done.
    + rewrite <-app_assoc in Hs2. exact Hs2.
Qed.

Lemma skip_newlines_start s t l : upcoming s (t :: l) → type t ≠ T_NEWLINE → skip_newlines toks s = Done (tt, s).
Proof.
  intros Hup Ht. pose proof (fuel_up _ _ _ Hup). eapply skip_none; [done|simpl in *; lia|by apply bool_decide_false].
Qed.

Lemma starter_not_newline t : starter t → type t ≠ T_NEWLINE.
Proof. intros Ht%starter_not. set_solver. Qed.

Lemma cmd_first c rest : cmd_wf c → starts_cmd (cmd_toks c ++ rest).
Proof. intros Hc. by apply starts_app, cmd_starts. Qed.

Lemma runs_PEnd c : runs_cmd c → runs_pipe (PEnd c).
Proof.
  intros Hc Hwf s rest fs b Hup He Hd. simpl in Hwf, Hup, Hd. pose proof (ends_pipe_cmd _ He) as He'.
  destruct He as (t & l & -> & Ht).
  assert (type t ≠ T_BAR) as Hbar by (intros E; rewrite E in Ht; set_solver). split.
  - destruct (Hc Hwf s (t :: l) (ParsePipeline_First b :: fs) Hup He') as (s' & Hup' & Hs); [simpl; lia|].
    exists s'. split; [done|]. eapply steps_trans; [exact Hs|]. apply steps_return.
    cbn [ShellParse.frame_step taken]. unfold mbind at 1, M_bind at 1. cbn [mret M_ret]. ev. by rewrite decide_False.
  - intros ns. destruct (Hc Hwf s (t :: l) (ParsePipeline_Next b ns :: fs) Hup He') as (s' & Hup' & Hs); [simpl; lia|].
    exists s'. split; [done|]. eapply steps_trans; [exact Hs|]. apply steps_return.
    cbn [ShellParse.frame_step taken]. unfold mbind at 1, M_bind at 1. cbn [mret M_ret]. unfold pipeline_step. ev. by rewrite decide_False.
Qed.

(** At the bar after a command. *)
Lemma at_bar s c rest : upcoming s (op T_BAR :: cmd_toks c ++ rest) → cmd_wf c →
  ∀ b ns, pipeline_step toks b ns s = Done (Call (ParsePipeline_Next b ns) (ParseCommand false), next s).
Proof.
  intros Hup Hc b ns. unfold pipeline_step. ev. rewrite decide_True by done. ev.
  destruct (cmd_first c rest Hc) as (t & l & E & Ht & _). rewrite E in Hup0.
  by rewrite (bind_eq _ _ _ _ _ (skip_newlines_start _ _ _ Hup0 (starter_not_newline _ Ht))).
Qed.

Lemma pipe_first p rest : pipe_wf p → ∃ c rest', pipe_toks p ++ rest = cmd_toks c ++ rest' ∧ cmd_wf c.
Proof. destruct p as [c|c p]; simpl; [by exists c, rest|]. intros [? ?]. eexists c, _. by rewrite <-app_assoc. Qed.

Lemma pipe_nodes_more p : ∃ n (ns : list node), pipe_nodes p = n :: ns.
Proof. destruct p; by eexists _, _. Qed.

Lemma runs_PMore c p : runs_cmd c → runs_pipe p → runs_pipe (PMore c p).
Proof.
  intros Hc Hp [Hwc Hwp] s rest fs b Hup He Hd. simpl in Hup, Hd. rewrite <-app_assoc in Hup. cbn [app] in Hup.
  assert (ends_cmd (op T_BAR :: pipe_toks p ++ rest)) as He' by done.
  destruct (pipe_first p rest Hwp) as (c' & rest' & E & Hwc').
  assert (∀ f acc, (∀ s1 l, upcoming s1 (op T_BAR :: l) → frame_step f (Some (cmd_node c)) s1 = pipeline_step toks b acc s1) →
    ∃ s', upcoming s' rest ∧ steps (ParseCommand false :: f :: fs) None s fs (Some (Node b [] (N_PIPE (acc ++ pipe_nodes p)))) s') as Hall.
  { intros f acc Hf. destruct (Hc Hwc s _ (f :: fs) Hup He') as (s1 & Hup1 & Hs1); [simpl; lia|].
    pose proof (up_next _ _ _ _ Hup1) as Hup1'. pose proof Hup1 as Hup1b. rewrite E in Hup1b.
    destruct (Hp Hwp (next s1) rest fs b Hup1' He) as [_ Hnext]; [lia|]. destruct (Hnext acc) as (s2 & Hup2 & Hs2).
    exists s2. split; [done|]. eapply steps_trans; [exact Hs1|]. eapply steps_trans; [eapply steps_call|exact Hs2]; [|pose proof (pipe_depth_pos p); lia].
    rewrite (Hf s1 _ Hup1). by apply (at_bar _ c' rest'). }
  split.
  - destruct (Hall (ParsePipeline_First b) [cmd_node c]) as (s' & Hup' & Hs').
    + intros s1 l Hup1. cbn [ShellParse.frame_step taken]. unfold mbind at 1, M_bind at 1. cbn [mret M_ret]. ev. by rewrite decide_True.
    + exists s'. split; [done|]. cbn [pipe_nodes]. destruct (pipe_nodes_more p) as (n & ns & En). rewrite En in *. exact Hs'.
  - intros ns. destruct (Hall (ParsePipeline_Next b ns) (ns ++ [cmd_node c])) as (s' & Hup' & Hs').
    + intros s1 l Hup1. cbn [ShellParse.frame_step taken]. done.
    + exists s'. split; [done|]. rewrite <-app_assoc in Hs'. exact Hs'.
Qed.

Lemma negations_eq s b l f neg :
  upcoming s (bang b ++ l) → starts_cmd l → (1 < f)%nat →
  ∃ s', negations toks f neg s = Done (if b then negb neg else neg, s') ∧ upcoming s' l.
Proof.
  intros Hup (t & l' & -> & Ht & Hb) Hf. destruct f as [|[|f]]; [lia..|]. destruct b; cbn [bang app] in Hup; cbn [negations].
  - ev. change (tok_is _ _) with true. cbn match. ev.
    rewrite (bind_eq _ _ _ _ _ (skip_newlines_start _ _ _ Hup0 (starter_not_newline _ Ht))).
    cbn [negations]. ev. rewrite Hb. by eexists.
  - ev. rewrite Hb. by eexists.
Qed.

Lemma pipeline_runs p b s rest fs :
  runs_pipe p → pipe_wf p → upcoming s (bang b ++ pipe_toks p ++ rest) → ends_pipe rest →
  (1 + length fs + pipe_depth p ≤ SH_MAX_PARSE_FRAMES)%nat →
  ∃ s', upcoming s' rest ∧ steps (ParsePipeline_Start :: fs) None s fs (Some (pipe_node b (pipe_nodes p))) s'.
Proof.
  intros Hp Hwf Hup He Hd.
  assert (starts_cmd (pipe_toks p ++ rest)) as Hst by by apply starts_app, pipe_starts.
  pose proof (fuel_up _ _ _ Hup) as Hf.
  assert (1 < fuel toks)%nat as Hf'.
  { destruct Hst as (t & l & E & _). rewrite E in Hf. rewrite length_app in Hf. simpl in Hf. lia. }
  destruct (negations_eq s b _ (fuel toks) false Hup Hst Hf') as (s1 & E1 & Hup1).
  destruct (Hp Hwf s1 rest fs b Hup1 He Hd) as [(s2 & Hup2 & Hs2) _].
  exists s2. split; [done|]. eapply steps_trans; [eapply steps_call|exact Hs2].
  - cbn [ShellParse.frame_step]. rewrite (bind_eq _ _ _ _ _ E1). by destruct b.
  - pose proof (pipe_depth_pos p). lia.
Qed.

Lemma runs_AOnly b p : runs_pipe p → runs_andor (AOnly b p).
Proof.
  intros Hp Hwf s rest fs Hup He Hd. simpl in Hup, Hd. rewrite <-app_assoc in Hup.
  destruct (pipeline_runs p b s rest (ParseAndOr_Left :: fs) Hp Hwf Hup He) as (s1 & Hup1 & Hs1); [simpl; lia|].
  exists ParseAndOr_Left, (pipe_node b (pipe_nodes p)), s1. split_and!; [done| |done].
  eapply steps_trans; [eapply steps_call|exact Hs1]; [done|lia].
Qed.

Lemma runs_AMore a both b p : runs_andor a → runs_pipe p → runs_andor (AMore a both b p).
Proof.
  intros Ha Hp [Hwa Hwp] s rest fs Hup He Hd. simpl in Hup, Hd. rewrite <-app_assoc in Hup. cbn [app] in Hup. rewrite <-app_assoc in Hup.
  destruct (Ha Hwa s _ fs Hup) as (f & c & s1 & Hup1 & Hs1 & E1); [eexists _, _; split; [reflexivity|]; destruct both; chars|lia|].
  pose proof (up_next _ _ _ _ Hup1) as Hup1'.
  set (f' := ParseAndOr_Right (andor_node a) (if both then T_AMPAMP else T_BARBAR)).
  destruct (pipeline_runs p b (next s1) rest (f' :: fs) Hp Hwp Hup1' He) as (s2 & Hup2 & Hs2); [simpl; lia|].
  exists f', (pipe_node b (pipe_nodes p)), s2. split_and!; [done| |done].
  eapply steps_trans; [exact Hs1|]. eapply steps_trans; [eapply steps_call|exact Hs2]; [|lia].
  rewrite E1. unfold andor_step. ev. rewrite bool_decide_true by (destruct both; auto).
  assert (starts_list (bang b ++ pipe_toks p ++ rest)) as (t & l & Et & Ht).
  { apply bang_starts, starts_app, pipe_starts, Hwp. }
  rewrite (bind_eq _ _ _ _ _ (adv_up _ _ _ _ Hup1 ltac:(by destruct both))). rewrite Et in Hup1'.
  by rewrite (bind_eq _ _ _ _ _ (skip_newlines_start _ _ _ Hup1' (starter_not_newline _ Ht))).
Qed.

(** A frame that is resumed with its child. *)
Ltac resume := cbn [ShellParse.frame_step taken]; unfold mbind at 1, M_bind at 1; cbn [mret M_ret].

Lemma kw_closes w rest : w ∈ reserved → closes (kw w :: rest).
Proof. intros Hw. eexists _, _. split; [reflexivity|]. right. unfold kw. rewrite reserved_tok_word. by apply bool_decide_eq_true. Qed.
Lemma op_closes (t : tok_type) rest : t ∈ [T_EOF; T_RPAREN; T_DSEMI] → closes (op t :: rest).
Proof. intros Ht. eexists _, _. split; [reflexivity|]. by left. Qed.

(** A list between two keywords, called by a frame that waits for it. *)
Lemma list_called (l : prog) f g ch s0 s rest fs :
  runs_prog l → prog_wf l → frame_step f ch s0 = Done (Call g (ParseList None), s) →
  upcoming s (prog_toks l ++ rest) → closes rest → (1 + length fs + prog_depth l ≤ SH_MAX_PARSE_FRAMES)%nat →
  ∃ s', upcoming s' rest ∧ steps (f :: fs) ch s0 (g :: fs) (Some (list_node l)) s'.
Proof.
  intros Hrun Hl E Hup Hc Hd. destruct (list_runs l s rest (g :: fs) Hrun Hl Hup Hc) as (s' & Hup' & Hs); [simpl; lia|].
  exists s'. split; [done|]. eapply steps_trans; [eapply steps_call; [exact E|]|exact Hs]. pose proof (prog_depth_pos l). lia.
Qed.

Ltac choose := intros ? ? _; reflexivity.

Lemma runs_CGroup b (l : prog) rs : runs_prog l → runs_cmd (CGroup b l rs).
Proof.
  intros Hl [Hwl Hrs] s rest fs Hup He Hd. cbn [cmd_toks cmd_depth] in Hup, Hd.
  destruct b; cbn [app] in Hup; rewrite <-app_assoc in Hup; cbn [app] in Hup.
  - destruct (list_called l (ParseGroup true false) (ParseGroup true true) None s (next s) (op T_RPAREN :: redirs_toks rs ++ rest) (ParseCommand true :: fs))
      as (s1 & Hup1 & Hs1); [done|done|cbn [ShellParse.frame_step]; by ev|by eapply up_next|apply op_closes; chars|simpl; lia|].
    eapply compound_toks with (g := ParseGroup true false) (n := new_node (N_GROUP true (list_node l))) (s1 := next s1);
      [exact Hup|by destruct (prog_toks l)|done|choose|done|done|lia| |by eapply up_next].
    eapply steps_trans; [exact Hs1|]. apply steps_return. cbn [ShellParse.frame_step]. unfold group_end. resume. ev. decide_toks. by ev.
  - destruct (list_called l (ParseGroup false false) (ParseGroup false true) None s (next s) (kw ($"}") :: redirs_toks rs ++ rest) (ParseCommand true :: fs))
      as (s1 & Hup1 & Hs1); [done|done|cbn [ShellParse.frame_step]; by ev|by eapply up_next|apply kw_closes; chars|simpl; lia|].
    eapply compound_toks with (g := ParseGroup false false) (n := new_node (N_GROUP false (list_node l))) (s1 := next s1);
      [exact Hup|by destruct (prog_toks l)|done|choose|done|done|lia| |by eapply up_next].
    eapply steps_trans; [exact Hs1|]. apply steps_return. cbn [ShellParse.frame_step]. unfold group_end. resume. unfold expect. ev. decide_toks. by ev.
Qed.

Lemma loop_end_toks s b n rest : nonempty b → upcoming s (kw ($"done") :: rest) → loop_end toks (list_node b) n s = Done (Return n, next s).
Proof. intros Hb Hup. unfold loop_end. rewrite nchild_list by done. unfold expect. ev. decide_toks. by ev. Qed.

Lemma runs_CWhile until (c b : prog) rs : runs_prog c → runs_prog b → runs_cmd (CWhile until c b rs).
Proof.
  intros Hc Hb (Hwc & Hwb & Hne & Hrs) s rest fs Hup He Hd. cbn [cmd_toks cmd_depth] in Hup, Hd.
  cbn [app] in Hup. rewrite <-app_assoc in Hup. cbn [app] in Hup. rewrite <-app_assoc in Hup. cbn [app] in Hup.
  destruct (list_called c ParseWhile_Start (ParseWhile_Cond until) None s (next s)
    (kw ($"do") :: prog_toks b ++ kw ($"done") :: redirs_toks rs ++ rest) (ParseCommand true :: fs))
    as (s1 & Hup1 & Hs1); [done|done| |by eapply up_next|apply kw_closes; chars|simpl; lia|].
  { cbn [ShellParse.frame_step]. destruct until; ev; decide_toks; by ev. }
  destruct (list_called b (ParseWhile_Cond until) (ParseWhile_Body until (list_node c)) (Some (list_node c)) s1 (next s1)
    (kw ($"done") :: redirs_toks rs ++ rest) (ParseCommand true :: fs))
    as (s2 & Hup2 & Hs2); [done|done| |by eapply up_next|apply kw_closes; chars|simpl; lia|].
  { resume. unfold expect. ev. decide_toks. by ev. }
  eapply compound_toks with (g := ParseWhile_Start) (n := new_node (N_WHILE (list_node c) until (list_node b))) (s1 := next s2);
    [exact Hup|by destruct (prog_toks c)|done|destruct until; choose|done|done|lia| |by eapply up_next].
  eapply steps_trans; [exact Hs1|]. eapply steps_trans; [exact Hs2|]. apply steps_return. resume. by eapply loop_end_toks.
Qed.

Lemma tok_is_word k w : tok_is k (word w) = bool_decide (w = k).
Proof.
  unfold tok_is. cbn [type word push tok_text]. rewrite bool_decide_true by done. cbn [andb].
  apply bool_decide_ext. split; [by intros [=]|by intros ->].
Qed.

(** A word that is no keyword makes a function definition or a simple command. *)
Lemma choice_word w u s : w ∉ reserved → ¬ keyword w →
  command_choice (word w) u s =
    if bool_decide (type u = T_LPAREN) then call (ParseCommand true) (ParseFuncdef None) s else simple_step toks s.
Proof.
  intros Hr Hk. unfold keyword in Hk. repeat apply not_elem_of_cons in Hk as [? Hk]. unfold command_choice.
  rewrite reserved_tok_word, !tok_is_word, !(bool_decide_false (w = _)) by done. rewrite (bool_decide_false (w ∈ _)) by done.
  cbn [type word push]. rewrite decide_False by done. rewrite bool_decide_true by done. cbn [orb andb negb]. by case_match.
Qed.

Lemma args_head ws rs rest : ends_cmd rest →
  ∃ u l, (word <$> ws) ++ redirs_toks rs ++ rest = u :: l ∧ type u ≠ T_LPAREN.
Proof.
  intros He. destruct ws as [|w ws]; [|by eexists _, _]. destruct rs as [|r rs].
  - destruct rest as [|t rest]; [done|]. destruct He as (_ & _ & ?). by exists t, rest.
  - unfold redirs_toks. cbn [fmap list_fmap concat app]. destruct (redir_toks_head r) as (t & l & -> & Ht & _).
    eexists _, _. split; [reflexivity|]. by intros E; rewrite E in Ht.
Qed.

Lemma simple_head a ws rs rest : cmd_wf (CSimple a ws rs) → ends_cmd rest →
  ∃ t u l, (word <$> a) ++ (word <$> ws) ++ redirs_toks rs ++ rest = t :: u :: l ∧ type t ≠ T_EOF ∧
    ∀ s, command_choice t u s = simple_step toks s.
Proof.
  intros (Hrs & Ha & Hw & Hne) He. destruct a as [|w a]; [destruct ws as [|w ws]; [destruct rs as [|r rs]; [by destruct Hne as [|[]]|]|]|].
  - unfold redirs_toks. cbn [fmap list_fmap concat app]. 
    assert (∃ t w, redir_toks r = [t; word w] ∧ is_redir_tok (type t) = true) as (t & w & -> & Ht)
      by (unfold redir_toks; destruct (kind r); by eexists _, _).
    eexists t, _, _. split; [reflexivity|]. split; [by intros E; rewrite E in Ht|]. intros s. unfold command_choice, tok_is.
    rewrite decide_False by (by intros E; rewrite E in Ht). by rewrite !(bool_decide_false (type t = T_WORD)) by (by intros E; rewrite E in Ht).
  - destruct (args_head ws rs rest He) as (u & l & E & Hu). rewrite fmap_nil, fmap_cons. cbn [app]. rewrite E.
    eexists _, u, l. split; [reflexivity|]. split; [done|]. intros s. destruct Hw as (? & ? & _). rewrite choice_word by done.
    by rewrite bool_decide_false.
  - apply Forall_cons in Ha as [[Hr Hk]%assign_not_reserved Ha]. rewrite fmap_cons. cbn [app].
    assert (∃ u l, (word <$> a) ++ (word <$> ws) ++ redirs_toks rs ++ rest = u :: l ∧ type u ≠ T_LPAREN) as (u & l & -> & Hu)
      by (destruct a; [by apply args_head|by eexists _, _]).
    eexists _, u, l. split; [reflexivity|]. split; [done|]. intros s. rewrite choice_word by done. by rewrite bool_decide_false.
Qed.

Lemma runs_CSimple a ws rs : runs_cmd (CSimple a ws rs).
Proof.
  intros Hwf s rest fs Hup He Hd. cbn [cmd_toks] in Hup. rewrite <-!app_assoc in Hup.
  destruct (simple_head a ws rs rest Hwf He) as (t & u & l & E & Ht & Hch). destruct Hwf as (Hrs & Ha & Hw & Hne).
  destruct (simple_toks toks s [] a ws rs rest (fuel toks)) as (s' & E' & Hup'); [done..| |].
  { pose proof (fuel_up _ _ _ Hup) as Hf. rewrite !length_app, !length_fmap in Hf. pose proof (redirs_toks_length rs). lia. }
  exists s'. split; [done|]. apply steps_return. rewrite E in Hup. cbn [ShellParse.frame_step].
  rewrite (command_eq _ _ _ _ Hup Ht), Hch. unfold simple_step, parse_simple. by rewrite (bind_eq _ _ _ _ _ E').
Qed.

(** A condition and its branch. *)
Lemma if_branch (c b : prog) f ch s0 s ns rest fs :
  runs_prog c → runs_prog b → prog_wf c → prog_wf b → nonempty b →
  frame_step f ch s0 = Done (Call (ParseIf_Cond ns) (ParseList None), s) →
  upcoming s (prog_toks c ++ kw ($"then") :: prog_toks b ++ rest) → closes rest →
  (1 + length fs + Nat.max (prog_depth c) (prog_depth b) ≤ SH_MAX_PARSE_FRAMES)%nat →
  ∃ g s', upcoming s' rest ∧ steps (f :: fs) ch s0 (g :: fs) (Some (list_node b)) s' ∧
    frame_step g (Some (list_node b)) s' = if_more toks (ns ++ [(list_node c, list_node b)]) s'.
Proof.
  intros Hc Hb Hwc Hwb Hne E Hup He Hd.
  destruct (list_called c f (ParseIf_Cond ns) ch s0 s (kw ($"then") :: prog_toks b ++ rest) fs) as (s1 & Hup1 & Hs1);
    [done..|apply kw_closes; chars|lia|].
  destruct (list_called b (ParseIf_Cond ns) (ParseIf_Body ns (list_node c)) (Some (list_node c)) s1 (next s1) rest fs) as (s2 & Hup2 & Hs2);
    [done|done| |by eapply up_next|done|lia|].
  { resume. unfold expect. ev. decide_toks. by ev. }
  exists (ParseIf_Body ns (list_node c)), s2. split_and!; [done|by eapply steps_trans|].
  cbn [ShellParse.frame_step]. unfold if_body. resume. by rewrite nchild_list.
Qed.

Lemma if_end_toks n s rest : upcoming s (kw ($"fi") :: rest) → if_end toks n s = Done (Return n, next s).
Proof. intros Hup. unfold if_end, expect. ev. decide_toks. by ev. Qed.

Lemma runs_ENil : runs_elifs ENil.
Proof.
  intros _ s0 s rest f fs ch ns Hup Hd E. simpl in Hup. exists (next s). split; [by eapply up_next|]. apply steps_return.
  rewrite E. unfold if_more. ev. decide_toks. ev. decide_toks. simpl. rewrite app_nil_r. by eapply if_end_toks.
Qed.

Lemma runs_EElse (b : prog) : runs_prog b → runs_elifs (EElse b).
Proof.
  intros Hb [Hwb Hne] s0 s rest f fs ch ns Hup Hd E. cbn [elifs_toks app elifs_depth] in Hup, Hd.
  destruct (list_called b f (ParseIf_Else ns) ch s0 (next s) (kw ($"fi") :: rest) fs) as (s1 & Hup1 & Hs1);
    [done|done| |by eapply up_next|apply kw_closes; chars|lia|].
  { rewrite E. unfold if_more. ev. decide_toks. ev. decide_toks. by ev. }
  exists (next s1). split; [by eapply up_next|]. eapply steps_trans; [exact Hs1|]. apply steps_return.
  cbn [ShellParse.frame_step elifs_nodes fst snd]. rewrite app_nil_r. unfold if_else. resume. rewrite nchild_list by done. by eapply if_end_toks.
Qed.

Lemma elifs_close e rest : closes (elifs_toks e ++ kw ($"fi") :: rest).
Proof. destruct e; apply kw_closes; chars. Qed.

Lemma runs_EElif (c b : prog) e : runs_prog c → runs_prog b → runs_elifs e → runs_elifs (EElif c b e).
Proof.
  intros Hc Hb He (Hwc & Hwb & Hne & Hwe) s0 s rest f fs ch ns Hup Hd E. cbn [elifs_toks app elifs_depth] in Hup, Hd.
  rewrite <-app_assoc in Hup. cbn [app] in Hup. rewrite <-app_assoc in Hup.
  destruct (if_branch c b f ch s0 (next s) ns (elifs_toks e ++ kw ($"fi") :: rest) fs) as (g & s1 & Hup1 & Hs1 & Eg);
    [done..| |by eapply up_next|apply elifs_close|lia|].
  { rewrite E. unfold if_more. ev. decide_toks. by ev. }
  destruct (He Hwe s1 s1 rest g fs (Some (list_node b)) (ns ++ [(list_node c, list_node b)])) as (s2 & Hup2 & Hs2); [done|lia|done|].
  exists s2. split; [done|]. eapply steps_trans; [exact Hs1|]. rewrite <-app_assoc in Hs2. cbn [elifs_nodes].
  destruct (elifs_nodes e). exact Hs2.
Qed.

Lemma runs_CIf (c b : prog) e rs : runs_prog c → runs_prog b → runs_elifs e → runs_cmd (CIf c b e rs).
Proof.
  intros Hc Hb He (Hwc & Hwb & Hne & Hwe & Hrs) s rest fs Hup Hend Hd. cbn [cmd_toks cmd_depth] in Hup, Hd.
  cbn [app] in Hup. rewrite <-app_assoc in Hup. cbn [app] in Hup. rewrite <-app_assoc in Hup. rewrite <-app_assoc in Hup. cbn [app] in Hup.
  destruct (if_branch c b ParseIf_Start None s (next s) [] (elifs_toks e ++ kw ($"fi") :: redirs_toks rs ++ rest) (ParseCommand true :: fs))
    as (g & s1 & Hup1 & Hs1 & Eg); [done..| |by eapply up_next|apply elifs_close|simpl; lia|].
  { cbn [ShellParse.frame_step]. by ev. }
  destruct (He Hwe s1 s1 (redirs_toks rs ++ rest) g (ParseCommand true :: fs) (Some (list_node b)) [(list_node c, list_node b)])
    as (s2 & Hup2 & Hs2); [done|simpl; lia|done|].
  pose proof (steps_trans _ _ _ _ _ _ _ _ _ _ Hs1 Hs2) as Hs.
  destruct (compound_toks ParseIf_Start _ s s2 _ _ rs rest fs Hup ltac:(by destruct (prog_toks c)) ltac:(done) ltac:(choose) Hrs Hend ltac:(lia) Hs Hup2)
    as (s' & Hup' & Hs'). exists s'. split; [done|]. cbn [cmd_node]. destruct (elifs_nodes e). exact Hs'.
Qed.

Lemma for_words_toks ws acc s t rest f : Forall (λ w, w ∉ reserved) ws → upcoming s ((word <$> ws) ++ t :: rest) → type t ≠ T_WORD →
  (length ws < f)%nat → ∃ s', for_words toks f acc s = Done (acc ++ ws, s') ∧ upcoming s' (t :: rest).
Proof.
  intros Hws. revert s acc f. induction Hws as [|w ws Hw Hws IH]; intros s acc f Hup Ht Hf; (destruct f as [|f]; [simpl in Hf; lia|]); cbn [for_words].
  - simpl in Hup. do 2 ev. rewrite (bool_decide_false (type t = T_WORD)) by done. rewrite app_nil_r. by exists s.
  - rewrite fmap_cons in Hup. cbn [app] in Hup. do 2 ev. rewrite reserved_tok_word, (bool_decide_false (w ∈ _)) by done.
    rewrite bool_decide_true by done. cbn [andb negb]. do 2 ev.
    destruct (IH (next s) (acc ++ [w]) f) as (s' & E & Hup'); [done..|simpl in Hf; lia|]. exists s'. by rewrite E, <-app_assoc.
Qed.

(** The separators before a word. *)
Lemma skip_seps_word s w l : upcoming s (word w :: l) → skip_seps toks s = Done (tt, s).
Proof. intros Hup. pose proof (fuel_up _ _ _ Hup). eapply skip_none; [done|simpl in *; lia|done]. Qed.
Lemma skip_seps_one s t w l : upcoming s (t :: word w :: l) → is_sep (type t) = true → type t ≠ T_EOF → skip_seps toks s = Done (tt, next s).
Proof. intros Hup Ht He. pose proof (fuel_up _ _ _ Hup). eapply skip_one; [done|simpl in *; lia|done..]. Qed.

Definition in_toks (words : option (list text)) : list sh_tok :=
  match words with Some ws => kw ($"in") :: (word <$> ws) | None => [] end.

Lemma for_begin_toks s name words rest :
  valid_name name = true → Forall (λ w, w ∉ reserved) (default [] words) →
  upcoming s (kw ($"for") :: word name :: in_toks words ++ op T_SEMI :: kw ($"do") :: rest) →
  ∃ s', upcoming s' rest ∧ for_begin toks s =
    Done (Call (ParseFor (Some (name, default [] words, match words with None => true | _ => false end))) (ParseList None), s').
Proof.
  intros Hname Hws Hup. unfold for_begin. ev. ev. rewrite decide_True by done. ev. rewrite Hname. ev.
  destruct words as [ws|]; cbn [in_toks app default] in *; rewrite (bind_eq _ _ _ _ _ (skip_newlines_start _ _ _ Hup1 ltac:(done))); ev; decide_toks.
  - pose proof (up_next _ _ _ _ Hup1) as Hup2. pose proof (fuel_up _ _ _ Hup2) as Hf. rewrite length_app, length_fmap in Hf.
    destruct (for_words_toks ws [] _ _ _ (fuel toks) Hws Hup2 ltac:(done) ltac:(lia)) as (s1 & E & Hup3).
    assert ((adv toks;; for_words toks (fuel toks) []) (next (next s)) = Done (ws, s1)) as Ein.
    { by ev. }
    rewrite (bind_eq _ _ _ _ _ Ein), (bind_eq _ _ _ _ _ (skip_seps_one _ _ _ _ Hup3 eq_refl ltac:(done))).
    pose proof (up_next _ _ _ _ Hup3) as Hup4. exists (next (next s1)). split; [by eapply up_next|]. unfold expect. ev. decide_toks. by ev.
  - unfold mbind at 1, M_bind at 1. cbn [mret M_ret]. rewrite (bind_eq _ _ _ _ _ (skip_seps_one _ _ _ _ Hup1 eq_refl ltac:(done))).
    pose proof (up_next _ _ _ _ Hup1) as Hup4. exists (next (next (next (next s)))). split; [by eapply up_next|]. unfold expect. ev. decide_toks. by ev.
Qed.

Lemma runs_CFor name words (b : prog) rs : runs_prog b → runs_cmd (CFor name words b rs).
Proof.
  intros Hb (Hname & Hws & Hwb & Hne & Hrs) s rest fs Hup He Hd. cbn [cmd_toks cmd_depth] in Hup, Hd. fold (in_toks words) in Hup.
  cbn [app] in Hup. rewrite <-app_assoc in Hup. cbn [app] in Hup. rewrite <-app_assoc in Hup. cbn [app] in Hup.
  destruct (for_begin_toks s name words _ Hname Hws Hup) as (s1 & Hup1 & E1).
  destruct (list_called b (ParseFor None) _ None s s1 (kw ($"done") :: redirs_toks rs ++ rest) (ParseCommand true :: fs) Hb Hwb E1)
    as (s2 & Hup2 & Hs2); [done|apply kw_closes; chars|simpl; lia|].
  eapply compound_toks with (g := ParseFor None) (n := new_node (N_FOR _ _ _ (list_node b))) (s1 := next s2);
    [exact Hup|done|done|choose|done|done|lia| |by eapply up_next].
  eapply steps_trans; [exact Hs2|]. apply steps_return. resume. by eapply loop_end_toks.
Qed.

Lemma case_patterns_toks pats acc s t rest f : pats ≠ [] → upcoming s (pats_toks pats ++ t :: rest) → type t ≠ T_BAR → (length pats ≤ f)%nat →
  ∃ s', case_patterns toks f acc s = Done (Some (acc ++ pats), s') ∧ upcoming s' (t :: rest).
Proof.
  intros Hne. revert s acc f. induction pats as [|w pats IH]; intros s acc f Hup Ht Hf; [done|]. destruct f as [|f]; [simpl in Hf; lia|].
  cbn [case_patterns]. destruct pats as [|w' pats]; cbn [pats_toks app] in Hup; ev; (rewrite decide_True by done); do 3 ev.
  - rewrite decide_False by done. by exists (next s).
  - rewrite decide_True by done. ev.
    destruct (IH ltac:(done) (next (next s)) (acc ++ [w]) f) as (s' & E & Hup'); [done..|simpl in *; lia|]. exists s'. by rewrite E, <-app_assoc.
Qed.

Lemma runs_KNil : runs_cases KNil.
Proof.
  intros _ s0 s rest f fs ch w ns Hup Hd E. simpl in Hup. exists (next s). split; [by eapply up_next|]. apply steps_return.
  rewrite E. unfold case_clause. do 2 ev. decide_toks. ev. simpl. by rewrite app_nil_r.
Qed.

(** A clause begins with a word, and so does the end. *)
Lemma cases_first k rest : cases_wf k → ∃ w l, cases_toks k ++ kw ($"esac") :: rest = word w :: l.
Proof.
  destruct k as [|[|w [|w' pats]] b k]; [by eexists _, _|by intros [? _]|by eexists _, _|by eexists _, _].
Qed.

Lemma pats_length pats : (length pats ≤ length (pats_toks pats))%nat.
Proof. induction pats as [|w [|w' pats] IH]; simpl in *; lia. Qed.

Lemma runs_KCons pats (b : prog) k : runs_prog b → runs_cases k → runs_cases (KCons pats b k).
Proof.
  intros Hb Hk (Hne & Hesac & Hwb & Hwk) s0 s rest f fs ch w ns Hup Hd E. cbn [cases_toks cases_depth] in Hup, Hd.
  rewrite <-!app_assoc in Hup. cbn [app] in Hup. rewrite <-!app_assoc in Hup. cbn [app] in Hup.
  pose proof (fuel_up _ _ _ Hup) as Hf. rewrite length_app in Hf. pose proof (pats_length pats).
  destruct (case_patterns_toks pats [] s _ _ (fuel toks) Hne Hup ltac:(done) ltac:(lia)) as (s1 & E1 & Hup1).
  destruct (list_called b f (ParseCase (Some (w, ns, pats))) ch s0 (next s1) (op T_DSEMI :: cases_toks k ++ kw ($"esac") :: rest) fs)
    as (s2 & Hup2 & Hs2); [done|done| |by eapply up_next|apply op_closes; chars|lia|].
  { rewrite E. unfold case_clause. destruct pats as [|p pats]; [done|]. cbn [head] in Hesac.
    assert (∃ l, upcoming s (word p :: l)) as [l Hup'] by (destruct pats; eexists; exact Hup).
    do 2 ev. change (Tok _ _ _ _) with (word p). rewrite tok_is_word, bool_decide_false by (by intros ->; apply Hesac).
    rewrite !decide_False by done. unfold mbind at 1, M_bind at 1. cbn [mret M_ret].
    rewrite (bind_eq _ _ _ _ _ E1). ev. rewrite decide_True by done. by ev. }
  destruct (cases_first k rest Hwk) as (p & l & Ek).
  destruct (Hk Hwk s2 (next s2) rest (ParseCase (Some (w, ns, pats))) fs (Some (list_node b)) w (ns ++ [(pats, list_node b)])) as (s3 & Hup3 & Hs3);
    [by eapply up_next|lia| |].
  { cbn [ShellParse.frame_step]. unfold case_step. resume. ev. rewrite decide_True by done. pose proof (up_next _ _ _ _ Hup2) as Hup2'. rewrite Ek in Hup2'. ev.
    by rewrite (bind_eq _ _ _ _ _ (skip_seps_word _ _ _ Hup2')). }
  exists s3. split; [done|]. eapply steps_trans; [exact Hs2|]. rewrite <-app_assoc in Hs3. exact Hs3.
Qed.

Lemma runs_CCase w k rs : runs_cases k → runs_cmd (CCase w k rs).
Proof.
  intros Hk (Hwk & Hrs) s rest fs Hup He Hd. cbn [cmd_toks cmd_depth] in Hup, Hd. cbn [app] in Hup. rewrite <-app_assoc in Hup. cbn [app] in Hup.
  destruct (cases_first k (redirs_toks rs ++ rest) Hwk) as (p & l & Ek).
  pose proof (up_next _ _ _ _ (up_next _ _ _ _ (up_next _ _ _ _ Hup))) as Hup3.
  destruct (Hk Hwk s _ (redirs_toks rs ++ rest) (ParseCase None) (ParseCommand true :: fs) None w [] Hup3) as (s1 & Hup1 & Hs1); [simpl; lia| |].
  { cbn [ShellParse.frame_step]. unfold case_step. do 2 ev. rewrite decide_True by done. ev. ev. unfold expect. ev. decide_toks. ev.
    rewrite Ek in Hup3. by rewrite (bind_eq _ _ _ _ _ (skip_seps_word _ _ _ Hup3)). }
  by eapply (compound_toks (ParseCase None) (new_node (N_CASE w (cases_nodes k)))); [exact Hup|done|done|choose|done|done|lia|exact Hs1|].
Qed.

Lemma runs_CDef name c : runs_cmd c → runs_cmd (CDef name c).
Proof.
  intros Hc (Hr & Hk & Hwc) s rest fs Hup He Hd. cbn [cmd_toks cmd_depth app] in Hup, Hd.
  pose proof (up_next _ _ _ _ (up_next _ _ _ _ (up_next _ _ _ _ Hup))) as Hup3.
  destruct (Hc Hwc (next (next (next s))) rest (ParseFuncdef (Some name) :: ParseCommand true :: fs) Hup3 He) as (s1 & Hup1 & Hs1); [simpl; lia|].
  eapply (compound_toks (ParseFuncdef None) (new_node (N_FUNCDEF name (cmd_node c))) s s1 (word name) _ []);
    [exact Hup|done|done| |done|done|lia| |done].
  { intros u l [= <- _]. by rewrite choice_word. }
  eapply steps_trans; [eapply steps_call|eapply steps_trans; [exact Hs1|by apply steps_return]]; [|simpl; pose proof (cmd_depth_pos c); lia].
  cbn [ShellParse.frame_step]. unfold funcdef_begin. do 4 ev. rewrite decide_True by done. ev.
  destruct (cmd_first c rest Hwc) as (t & l & E & Ht & _). rewrite E in Hup3.
  by rewrite (bind_eq _ _ _ _ _ (skip_newlines_start _ _ _ Hup3 (starter_not_newline _ Ht))).
Qed.

Lemma command_lines_run :
  (∀ c, runs_cmd c) ∧ (∀ p, runs_pipe p) ∧ (∀ a, runs_andor a) ∧ (∀ l : prog, runs_prog l) ∧ (∀ e, runs_elifs e) ∧ (∀ k, runs_cases k).
Proof.
  apply syntax_ind; eauto using runs_CSimple, runs_CGroup, runs_CIf, runs_CWhile, runs_CFor, runs_CCase, runs_CDef, runs_PEnd, runs_PMore,
    runs_AOnly, runs_AMore, runs_LNil, runs_LCons, runs_ENil, runs_EElse, runs_EElif, runs_KNil, runs_KCons.
Qed.
End parses.

(** * The theorems *)

Lemma words_ok ws : Forall tok_ok (word <$> ws).
Proof. apply Forall_fmap, Forall_true. intros w. by split; [|by exists w]. Qed.

Lemma redirs_ok rs : Forall tok_ok (redirs_toks rs).
Proof.
  unfold redirs_toks. apply Forall_concat, Forall_fmap, Forall_true. intros r. unfold compose, redir_toks.
  destruct (kind r); repeat apply List.Forall_cons; try apply List.Forall_nil; (split; [done|]); done || (intros _; by eexists).
Qed.

Lemma pats_ok pats : Forall tok_ok (pats_toks pats).
Proof.
  induction pats as [|w [|w' pats] IH]; [done|..]; (apply List.Forall_cons; [by split; [|by exists w]|]); [done|].
  apply List.Forall_cons; [by split|done].
Qed.

Lemma bang_ok b : Forall tok_ok (bang b).
Proof. destruct b; [|done]. by apply List.Forall_cons; [split; [|eexists]|]. Qed.

Lemma command_line_ok :
  (∀ c, Forall tok_ok (cmd_toks c)) ∧ (∀ p, Forall tok_ok (pipe_toks p)) ∧ (∀ a, Forall tok_ok (andor_toks a)) ∧
  (∀ l : prog, Forall tok_ok (prog_toks l)) ∧ (∀ e, Forall tok_ok (elifs_toks e)) ∧ (∀ k, Forall tok_ok (cases_toks k)).
Proof.
  assert (∀ w, tok_ok (word w)) as Hw by (intros w; split; [done|by exists w]).
  assert (∀ w, tok_ok (kw w)) as Hkw by done.
  apply syntax_ind; intros; cbn [cmd_toks pipe_toks andor_toks prog_toks elifs_toks cases_toks];
    repeat lazymatch goal with
    | |- Forall tok_ok (match ?x with _ => _ end) => destruct x
    | |- Forall tok_ok (_ ++ _) => apply Forall_app_2
    | |- Forall tok_ok (_ :: _) => apply List.Forall_cons
    | |- Forall tok_ok (bang _) => apply bang_ok
    | |- Forall tok_ok [] => apply List.Forall_nil
    | |- Forall tok_ok (word <$> _) => apply words_ok
    | |- Forall tok_ok (redirs_toks _) => apply redirs_ok
    | |- Forall tok_ok (pats_toks _) => apply pats_ok
    | |- Forall tok_ok (_ _) => assumption
    | |- tok_ok (op (if ?b then _ else _)) => destruct b
    | |- tok_ok (op _) => by split
    | |- tok_ok (word _) => apply Hw
    | |- tok_ok (kw _) => apply Hkw
    end.
Qed.

Lemma parse_tree (p : prog) (Hwf : prog_wf p) (Hdepth : (prog_depth p ≤ SH_MAX_PARSE_FRAMES)%nat) :
  let toks := prog_toks p ++ [op T_EOF] in
  ∀ n, (10 * length toks + 9 ≤ n)%nat → sh_parse toks n = Done (inl (list_node p)).
Proof.
  intros toks n Hn. destruct (command_line_ok) as (_ & _ & _ & Hok & _).
  assert (toks_ok toks) as Htoks by by exists (prog_toks p).
  destruct (parse_stops toks Htoks) as [r Hr]. destruct (command_lines_run toks Htoks) as (_ & _ & _ & Hrun & _ & _).
  destruct (list_runs toks p (Parser 0 None) [op T_EOF] [] (Hrun p)) as (s' & Hup & k & Hk); [done|done|by eapply op_closes; chars|done|].
  rewrite Hr by done. rewrite <-(Hr (k + n)%nat) by lia. unfold sh_parse.
  assert (run toks (k + n) [ParseList None] None (Parser 0 None) = Done (Some (list_node p), s')) as E by (rewrite Hk; by destruct n).
  rewrite (bind_eq _ _ _ _ _ E). by ev.
Qed.

(** C12: on the tokens of every well-formed command line (assignments, words and
    redirections; groups and subshells; if, while, until, for, case; function definitions;
    pipelines, negation, "&&" and "||", and lists) that needs no more frames than the
    parser has, the parser returns the tree of that command line, with "&&" and "||"
    grouped to the left, and a pipeline of one command as that command. *)
Theorem sh_parse_tree (p : prog) (Hwf : prog_wf p) (Hdepth : (prog_depth p ≤ SH_MAX_PARSE_FRAMES)%nat) :
  let toks := prog_toks p ++ [op T_EOF] in
  ∀ n, (10 * length toks + 9 ≤ n)%nat → sh_parse toks n = Done (inl (list_node p)).
Proof. by apply parse_tree. Qed.

(** The tokenizer and the parser together: the text of a well-formed command line,
    with its words and operators separated by blanks, is read back as its tree. *)
Theorem sh_front_end (p : prog) (Hwf : prog_wf p) (Hdepth : (prog_depth p ≤ SH_MAX_PARSE_FRAMES)%nat)
    (Hprint : Forall printable (prog_toks p)) :
  ∃ toks, sh_lex (print_toks (prog_toks p)) = Some (Some toks) ∧
    ∀ n, (10 * length toks + 9 ≤ n)%nat → sh_parse toks n = Done (inl (list_node p)).
Proof.
  exists (prog_toks p ++ [op T_EOF]). split; [|intros n Hn; by apply parse_tree].
  unfold sh_lex. rewrite (lex_loop_print (prog_toks p)); [done..|simpl; lia].
Qed.

(** [f () while ! a | b x=y; do c < i; done; for v in p q; do if d && e; then (g); else h >&2; fi; done 2>> l
     case w in m | n) k;; esac] *)
Definition demo_prog : prog :=
  let cmd w := CSimple [] [w] [] in
  let one c := LCons (AOnly false (PEnd c)) false LNil in
  LCons (AOnly false (PEnd (CDef ($"f")
    (CWhile false
      (LCons (AOnly true (PMore (cmd ($"a")) (PEnd (CSimple [] [$"b"; $"x=y"] [])))) false LNil)
      (one (CSimple [] [$"c"] [Redir R_IN 0 0 (Some ($"i")) false])) [])))) false
  (LCons (AOnly false (PEnd (CFor ($"v") (Some [$"p"; $"q"])
    (one (CIf (LCons (AMore (AOnly false (PEnd (cmd ($"d")))) true false (PEnd (cmd ($"e")))) false LNil)
      (one (CGroup true (one (cmd ($"g"))) []))
      (EElse (one (CSimple [] [$"h"] [Redir R_DUP 1 2 None false]))) []))
    [Redir R_APPEND 2 0 (Some ($"l")) false]))) true
  (LCons (AOnly false (PEnd (CCase ($"w") (KCons [$"m"; $"n"] (one (cmd ($"k"))) KNil) []))) false LNil)).

Ltac plain := repeat (first [split | apply List.Forall_cons | apply List.Forall_nil]); first [done | by eexists | chars | by auto | lia].

Lemma sh_parse_tree_witness :
  let toks := prog_toks demo_prog ++ [op T_EOF] in
  sh_parse toks (10 * length toks + 9) = Done (inl (list_node demo_prog)).
Proof. apply sh_parse_tree; [|by apply Nat.leb_le|done]. cbn. plain. Defined.

Lemma sh_front_end_witness :
  ∃ toks, sh_lex (print_toks (prog_toks demo_prog)) = Some (Some toks) ∧
    ∀ n, (10 * length toks + 9 ≤ n)%nat → sh_parse toks n = Done (inl (list_node demo_prog)).
Proof.
  apply sh_front_end; [cbn; plain|by apply Nat.leb_le|]. cbn.
  repeat first [apply List.Forall_nil | apply List.Forall_cons];
    first [apply printable_op; chars | apply printable_redir; [chars|lia] | apply printable_word; [|done|done]];
    repeat (apply word_char; [done|chars|done|]); apply word_nil.
Defined.
