(* ===== verification/Arith.v ===== *)
(** The shell's arithmetic evaluator, Tactility/Source/app/shell/shell/sh_arith.cpp: an
    operator-precedence machine over explicit stacks of inputs, operators and values. *)

From S2P Require Import Prelude Text.

(** * Characters *)

Definition isodigit (c : ascii) : bool := between "0" "7" c.
Definition isspace3 (c : ascii) : bool :=
  (bool_decide (c = " "%char) || bool_decide (c = "009"%char) || bool_decide (c = "010"%char))%bool.
Definition is_name_start (c : ascii) : bool := (isalpha c || bool_decide (c = "_"%char))%bool.
Definition is_name_char (c : ascii) : bool := (isalnum c || bool_decide (c = "_"%char))%bool.

Definition hex_digit (c : ascii) : Z :=
  if isdigit c then code c - code "0" else (if isupper c then code c + 32 else code c) - code "a" + 10.
Definition dec_digit (c : ascii) : Z := code c - code "0".

(** * Data *)

Definition ARITH_MAX_DEPTH : Z := 32.

Inductive Op :=
  | Comma | Assign | Or | And | Equal | NotEqual | Less | LessEqual | Greater | GreaterEqual
  | Add | Subtract | Multiply | Divide | Modulo | Plus | Negate | Not
  | LeftParen | Deref | AssignDone.

#[export] Instance Op_eq : EqDecision Op.
Proof. solve_decision. Defined.

(** [assign] is the character of a compound assignment, NUL for a plain one. *)
Record Operator := { op : Op; assign : ascii; name : text; rhs : Z }.
Definition plain_op (o : Op) : Operator := {| op := o; assign := NUL; name := []; rhs := 0 |}.

Record Input := { itext : text; pos : nat; depth : Z }.

(** The characters not yet read. *)
Definition rest (i : Input) : text := drop (pos i) (itext i).
Definition at_ (i : Input) (offset : nat) : ascii := default NUL (itext i !! (pos i + offset)%nat).
Definition advance (n : nat) (i : Input) : Input :=
  {| itext := itext i; pos := pos i + n; depth := depth i |}.

Definition starts_with (token : text) (i : Input) : bool :=
  bool_decide (take (length token) (rest i) = token).

Definition skipWhitespace (i : Input) : Input := advance (span isspace3 (rest i)) i.

Definition isMarker (o : Op) : bool :=
  match o with LeftParen | Deref | AssignDone => true | _ => false end.
Definition isUnary (o : Op) : bool :=
  match o with Plus | Negate | Not => true | _ => false end.

Definition precedence (o : Op) : Z :=
  match o with
  | Comma => 1
  | Assign => 2
  | Or => 3
  | And => 4
  | Equal | NotEqual => 5
  | Less | LessEqual | Greater | GreaterEqual => 6
  | Add | Subtract => 7
  | Multiply | Divide | Modulo => 8
  | _ => 9
  end.

(** [inputs], [ops] and [values] are stacks with the top first; [vars] are the
    variables of the shell. *)
Record evaluator := Evaluator {
  vars : gmap text text;
  inputs : list Input;
  ops : list Operator;
  values : list Z;
  error : option text;
  expectOperand : bool;
  assignAllowed : bool;
}.

Definition set_vars (m : gmap text text) (s : evaluator) : evaluator :=
  Evaluator m (inputs s) (ops s) (values s) (error s) (expectOperand s) (assignAllowed s).
Definition set_inputs (l : list Input) (s : evaluator) : evaluator :=
  Evaluator (vars s) l (ops s) (values s) (error s) (expectOperand s) (assignAllowed s).
Definition set_ops (l : list Operator) (s : evaluator) : evaluator :=
  Evaluator (vars s) (inputs s) l (values s) (error s) (expectOperand s) (assignAllowed s).
Definition set_values (l : list Z) (s : evaluator) : evaluator :=
  Evaluator (vars s) (inputs s) (ops s) l (error s) (expectOperand s) (assignAllowed s).
Definition set_error (e : option text) (s : evaluator) : evaluator :=
  Evaluator (vars s) (inputs s) (ops s) (values s) e (expectOperand s) (assignAllowed s).
Definition set_expect (e a : bool) (s : evaluator) : evaluator :=
  Evaluator (vars s) (inputs s) (ops s) (values s) (error s) e a.

(** Signed arithmetic on [long]: the value of an exact result, or none where C leaves
    it undefined. *)
Class Long := long_of : Z → option Z.

Definition LONG_MAX : Z := 2^31 - 1.
Definition LONG_MIN : Z := - 2^31.
Definition in_long (z : Z) : bool := ((LONG_MIN <=? z) && (z <=? LONG_MAX))%bool.

(** C as the standard defines it, and with wrapping overflow. *)
Definition strict_long : Long := λ z, if in_long z then Some z else None.
Definition wrapping_long : Long := λ z, Some ((z - LONG_MIN) mod 2^32 + LONG_MIN).

Section evaluator.
Context `{Long}.

(** The shell's variables. The copy of an exported variable in the environment of the
    process, which [sh_set] keeps up to date, is not part of this state: the evaluator
    only reads variables. *)
Definition sh_get (n : text) : M evaluator (option text) := gets (λ s, vars s !! n).
Definition sh_set (n v : text) : M evaluator unit := modify (λ s, set_vars (<[n := v]> (vars s)) s).

Definition fail (message : text) : M evaluator unit :=
  modify (λ s, match error s with None => set_error (Some message) s | Some _ => s end).

(** The top of a stack; an empty one is undefined behaviour. *)
Definition popValue : M evaluator Z :=
  l ← gets values;
  match l with [] => undef | v :: l' => modify (set_values l');; mret v end.
Definition pushValue (v : Z) : M evaluator unit := modify (λ s, set_values (v :: values s) s).
Definition popOp : M evaluator Operator :=
  l ← gets ops;
  match l with [] => undef | o :: l' => modify (set_ops l');; mret o end.
Definition pushOp (o : Operator) : M evaluator unit := modify (λ s, set_ops (o :: ops s) s).
Definition top_input : M evaluator Input :=
  l ← gets inputs; match l with [] => undef | i :: _ => mret i end.
Definition put_input (i : Input) : M evaluator unit :=
  modify (λ s, set_inputs (i :: tail (inputs s)) s).
Definition long (z : Z) : M evaluator Z := match long_of z with Some v => mret v | None => undef end.

Definition pushOperand (v : Z) : M evaluator unit :=
  pushValue v;; modify (set_expect false false).

(** [in.pos++; ops.push_back(...)] with the flags left for the next token. *)
Definition shift (i : Input) (n : nat) (o : Operator) (allowed : bool) : M evaluator unit :=
  put_input (advance n i);; pushOp o;; modify (λ s, set_expect (expectOperand s) allowed s).

(** A run of digits: the value and the number of characters read. *)
Fixpoint digits (p : ascii → bool) (value : ascii → Z) (base acc : Z) (s : text) : option (Z * nat) :=
  match s with
  | [] => Some (acc, O)
  | c :: s' =>
      if p c then
        v ← long_of (acc * base + value c);
        '(r, n) ← digits p value base v s';
        Some (r, S n)
      else Some (acc, O)
  end.

(** Reads digits at the current position and moves past them. *)
Definition readDigits (p : ascii → bool) (value : ascii → Z) (base : Z) (i : Input) : M evaluator (Z * Input) :=
  match digits p value base 0 (rest i) with
  | None => undef
  | Some (v, n) => let i := advance n i in put_input i;; mret (v, i)
  end.

Definition readNumber (i : Input) : M evaluator Z :=
  if (bool_decide (at_ i 0 = "0"%char) && (bool_decide (at_ i 1 = "x"%char) || bool_decide (at_ i 1 = "X"%char)))%bool
  then
    let i := advance 2 i in
    put_input i;;
    if negb (isxdigit (at_ i 0)) then fail ($"bad hex constant");; mret 0
    else '(v, _) ← readDigits isxdigit hex_digit 16 i; mret v
  else if (bool_decide (at_ i 0 = "0"%char) && isdigit (at_ i 1))%bool then
    '(v, i) ← readDigits isodigit dec_digit 8 (advance 1 i);
    if (bool_decide (at_ i 0 = "8"%char) || bool_decide (at_ i 0 = "9"%char))%bool
    then fail ($"bad octal constant");; mret 0
    else mret v
  else '(v, _) ← readDigits isdigit dec_digit 10 i; mret v.

Definition identifier_length (i : Input) : nat := span is_name_char (rest i).
Definition identifier (i : Input) : text := take (identifier_length i) (rest i).

Definition deref (n : text) (onImmediate : Z → M evaluator unit) (marker : Operator) : M evaluator unit :=
  o ← sh_get n;
  let value := match o with Some v => drop (span isspace3 v) v | None => [] end in
  match value with
  | [] => onImmediate 0
  | _ =>
      i ← top_input;
      let d := depth i + 1 in
      if ARITH_MAX_DEPTH <? d then fail ($"arithmetic recursion too deep")
      else
        pushOp marker;;
        modify (λ s, set_inputs ({| itext := value; pos := 0; depth := d |} :: inputs s) s);;
        modify (set_expect true true)
  end.

(** The operator at the current position, if it assigns: its character and length. *)
Definition assignment_op (i : Input) : option (ascii * nat) :=
  if starts_with ($"+=") i then Some ("+"%char, 2%nat)
  else if starts_with ($"-=") i then Some ("-"%char, 2%nat)
  else if starts_with ($"*=") i then Some ("*"%char, 2%nat)
  else if starts_with ($"/=") i then Some ("/"%char, 2%nat)
  else if starts_with ($"%=") i then Some ("%"%char, 2%nat)
  else if (bool_decide (at_ i 0 = "="%char) && negb (bool_decide (at_ i 1 = "="%char)))%bool
  then Some (NUL, 1%nat)
  else None.

(** The position is moved only on a match. *)
Definition tryAssignment (i : Input) : M evaluator bool :=
  let j := if bool_decide (at_ i 0 = "$"%char) then advance 1 i else i in
  if negb (is_name_start (at_ j 0)) then mret false
  else
    let n := identifier j in
    let j := skipWhitespace (advance (identifier_length j) j) in
    match assignment_op j with
    | Some (c, len) =>
        put_input (advance len j);;
        pushOp {| op := Assign; assign := c; name := n; rhs := 0 |};;
        mret true
    | None => mret false
    end.

Definition readOperand (i : Input) : M evaluator unit :=
  let c := at_ i 0 in
  if bool_decide (c = "("%char) then shift i 1 (plain_op LeftParen) true
  else if bool_decide (c = "+"%char) then shift i 1 (plain_op Plus) false
  else if bool_decide (c = "-"%char) then shift i 1 (plain_op Negate) false
  else if bool_decide (c = "!"%char) then shift i 1 (plain_op Not) false
  else
    a ← gets assignAllowed;
    matched ← (if a : bool then tryAssignment i else mret false);
    if matched : bool then mret tt
    else
      let i := if bool_decide (at_ i 0 = "$"%char) then advance 1 i else i in
      put_input i;;
      if isdigit (at_ i 0) then
        v ← readNumber i;
        e ← gets error;
        match e with None => pushOperand v | Some _ => mret tt end
      else if is_name_start (at_ i 0) then
        put_input (advance (identifier_length i) i);;
        deref (identifier i) pushOperand (plain_op Deref)
      else fail ($"unexpected token in arithmetic").

Definition apply (c : ascii) (current r : Z) : M evaluator Z :=
  if bool_decide (c = NUL) then mret r
  else if bool_decide (c = "+"%char) then long (current + r)
  else if bool_decide (c = "-"%char) then long (current - r)
  else if bool_decide (c = "*"%char) then long (current * r)
  else if bool_decide (c = "/"%char) then
    (if r =? 0 then fail ($"division by zero");; mret 0 else long (Z.quot current r))
  else if bool_decide (c = "%"%char) then
    (if r =? 0 then fail ($"division by zero");; mret 0
     else long (Z.quot current r);; mret (Z.rem current r))
  else mret r.

Definition finishAssignment (n : text) (c : ascii) (current r : Z) : M evaluator unit :=
  result ← apply c current r;
  e ← gets error;
  match e with
  | Some _ => mret tt
  | None => sh_set n (print_long result);; pushOperand result
  end.

Definition truth (b : bool) : Z := if b then 1 else 0.

(** The result of a binary operator, or the message of its failure. *)
Definition binary (o : Op) (l r : Z) : M evaluator (option Z) :=
  match o with
  | Comma => mret (Some r)
  | Or => mret (Some (truth (negb (l =? 0) || negb (r =? 0))))
  | And => mret (Some (truth (negb (l =? 0) && negb (r =? 0))))
  | Equal => mret (Some (truth (l =? r)))
  | NotEqual => mret (Some (truth (negb (l =? r))))
  | Less => mret (Some (truth (l <? r)))
  | LessEqual => mret (Some (truth (l <=? r)))
  | Greater => mret (Some (truth (r <? l)))
  | GreaterEqual => mret (Some (truth (r <=? l)))
  | Add => v ← long (l + r); mret (Some v)
  | Subtract => v ← long (l - r); mret (Some v)
  | Multiply => v ← long (l * r); mret (Some v)
  | Divide => if r =? 0 then fail ($"division by zero");; mret None
              else v ← long (Z.quot l r); mret (Some v)
  | Modulo => if r =? 0 then fail ($"division by zero");; mret None
              else long (Z.quot l r);; mret (Some (Z.rem l r))
  | _ => mret (Some 0)
  end.

Definition reduce : M evaluator unit :=
  top ← popOp;
  if isUnary (op top) then
    v ← popValue;
    match op top with
    | Negate => w ← long (- v); pushValue w
    | Not => pushValue (truth (v =? 0))
    | _ => pushValue v
    end
  else if bool_decide (op top = Assign) then
    r ← popValue;
    if bool_decide (assign top = NUL) then finishAssignment (name top) NUL 0 r
    else deref (name top) (λ current, finishAssignment (name top) (assign top) current r)
           {| op := AssignDone; assign := assign top; name := name top; rhs := r |}
  else
    r ← popValue;
    l ← popValue;
    o ← binary (op top) l r;
    match o with None => mret tt | Some v => pushValue v end.

Definition trailingError (i : Input) : text :=
  if 0 <? depth i then $"invalid arithmetic value" else $"unexpected trailing characters in arithmetic".

(** The operator at the current position and its length, or an error. *)
Definition operator_at (i : Input) : Op * nat + text :=
  let c := at_ i 0 in
  if bool_decide (c = ","%char) then inl (Comma, 1%nat)
  else if starts_with ($"||") i then inl (Or, 2%nat)
  else if starts_with ($"&&") i then inl (And, 2%nat)
  else if starts_with ($"==") i then inl (Equal, 2%nat)
  else if starts_with ($"!=") i then inl (NotEqual, 2%nat)
  else if starts_with ($"<=") i then inl (LessEqual, 2%nat)
  else if starts_with ($">=") i then inl (GreaterEqual, 2%nat)
  else if bool_decide (c = "<"%char) then inl (Less, 1%nat)
  else if bool_decide (c = ">"%char) then inl (Greater, 1%nat)
  else if starts_with ($"**") i then inr ($"** not supported")
  else if bool_decide (c = "*"%char) then inl (Multiply, 1%nat)
  else if bool_decide (c = "/"%char) then inl (Divide, 1%nat)
  else if bool_decide (c = "%"%char) then inl (Modulo, 1%nat)
  else if (starts_with ($"++") i || starts_with ($"--") i)%bool then inr ($"++/-- not supported")
  else if bool_decide (c = "+"%char) then inl (Add, 1%nat)
  else if bool_decide (c = "-"%char) then inl (Subtract, 1%nat)
  else inr (trailingError i).

(** The operator on top of the stack, unless it is a marker. *)
Definition pending_op (s : evaluator) : option Op :=
  match ops s with
  | [] => None
  | o :: _ => if isMarker (op o) then None else Some (op o)
  end.

Definition readOperator (i : Input) : M evaluator unit :=
  p ← gets pending_op;
  if bool_decide (at_ i 0 = ")"%char) then
    match p with
    | Some _ => reduce
    | None =>
        l ← gets ops;
        match l with
        | o :: l' =>
            if bool_decide (op o = LeftParen) then modify (set_ops l');; put_input (advance 1 i)
            else fail (trailingError i)
        | [] => fail (trailingError i)
        end
    end
  else
    match operator_at i with
    | inr message => fail message
    | inl (o, length) =>
        if match p with Some q => precedence o <=? precedence q | None => false end then reduce
        else
          put_input (advance length i);;
          pushOp (plain_op o);;
          modify (set_expect true (bool_decide (o = Comma)))
    end.

Definition endOfInput : M evaluator bool :=
  p ← gets pending_op;
  match p with
  | Some _ => reduce;; mret true
  | None =>
      l ← gets ops;
      if match l with o :: _ => bool_decide (op o = LeftParen) | [] => false end
      then fail ($"missing ) in arithmetic");; mret true
      else
        ins ← gets inputs;
        if bool_decide (length ins = 1%nat) then mret false
        else
          marker ← popOp;
          modify (λ s, set_inputs (tail (inputs s)) s);;
          (if bool_decide (op marker = AssignDone) then
             current ← popValue;
             finishAssignment (name marker) (assign marker) current (rhs marker)
           else modify (set_expect false false));;
          mret true
  end.

(** One unit of work; false when the evaluation is complete. *)
Definition step : M evaluator bool :=
  i ← top_input;
  let i := skipWhitespace i in
  put_input i;;
  e ← gets expectOperand;
  if e : bool then readOperand i;; mret true
  else if bool_decide (at_ i 0 = NUL) then endOfInput
  else readOperator i;; mret true.

(** [while (error == nullptr && step()) {}]. *)
Fixpoint steps (fuel : nat) : M evaluator bool :=
  e ← gets error;
  match e with
  | Some _ => mret true
  | None =>
      match fuel with
      | O => mret false
      | S f => more ← step; if more : bool then steps f else mret true
      end
  end.

Definition initial (m : gmap text text) (expr : text) : evaluator :=
  Evaluator m [{| itext := expr; pos := 0; depth := 0 |}] [] [] None true true.

(** The value and the shell's variables, an error message, or no result yet. *)
Inductive result :=
  | Value (v : Z) (m : gmap text text)
  | Error (message : text) (m : gmap text text)
  | Running.

Definition finish (s : evaluator) : outcome result :=
  match error s with
  | Some e => Done (Error e (vars s))
  | None => match values s with v :: _ => Done (Value v (vars s)) | [] => Undef end
  end.

Definition sh_arith_eval (fuel : nat) (m : gmap text text) (expr : text) : outcome result :=
  let i := skipWhitespace {| itext := expr; pos := 0; depth := 0 |} in
  if bool_decide (at_ i 0 = NUL) then Done (Value 0 m)
  else
    match steps fuel (set_inputs [i] (initial m expr)) with
    | Done (true, s) => finish s
    | Done (false, _) => Done Running
    | Panic => Panic
    | Undef => Undef
    end.
End evaluator.

#[local] Existing Instance strict_long.
Definition demo_vars : gmap text text := list_to_map [($"x", $"y + 1"); ($"y", $"41")].
Example eval_precedence : sh_arith_eval 100 ∅ ($"1 + 2 * (3 - 4) << ") = Done (Error ($"unexpected token in arithmetic") ∅).
Proof. vm_compute. reflexivity. Qed.
Example eval_nested : sh_arith_eval 100 demo_vars ($" x * 2, z += -x") =
  Done (Value (-42) (<[$"z" := $"-42"]> demo_vars)).
Proof. vm_compute. reflexivity. Qed.
