(* ===== verification/ArithSafety.v ===== *)
(** The evaluator of [Arith] never reads an empty stack, so that the overflow of
    signed arithmetic is the only undefined behaviour it can run into, and it always
    finishes: every unit of work shrinks the stack of inputs lexicographically. *)

From S2P Require Import Prelude Text Arith.

(** [pwp ok m Q s]: like [wp], but undefined behaviour is acceptable when [ok] holds. *)
Definition pwp {S A} (ok : Prop) (m : M S A) (Q : A → S → Prop) (s : S) : Prop :=
  match m s with Done (a, s') => Q a s' | Undef => ok | Panic => False end.

Section pwp.
Context {S : Type} (ok : Prop).
Implicit Types s : S.

Lemma pwp_ret {A} (a : A) (Q : A → S → Prop) s : Q a s → pwp ok (mret a) Q s.
Proof. done. Qed.
Lemma pwp_bind {A B} (m : M S A) (f : A → M S B) (Q : B → S → Prop) s :
  pwp ok m (λ a, pwp ok (f a) Q) s → pwp ok (m ≫= f) Q s.
Proof. unfold pwp, mbind, M_bind. destruct (m s) as [[a s']| |]; done. Qed.
Lemma pwp_mono {A} (m : M S A) (P Q : A → S → Prop) s :
  pwp ok m P s → (∀ a s', P a s' → Q a s') → pwp ok m Q s.
Proof. unfold pwp. destruct (m s) as [[a s']| |]; auto. Qed.
Lemma pwp_modify (f : S → S) (Q : unit → S → Prop) s : Q tt (f s) → pwp ok (modify f) Q s.
Proof. done. Qed.
Lemma pwp_gets {A} (f : S → A) (Q : A → S → Prop) s : Q (f s) s → pwp ok (gets f) Q s.
Proof. done. Qed.
End pwp.

Ltac pwp_step :=
  lazymatch goal with
  | |- pwp _ (_ ≫= _) _ _ => apply pwp_bind
  | |- pwp _ (mret _) _ _ => apply pwp_ret
  | |- pwp _ (modify _) _ _ => apply pwp_modify
  | |- pwp _ (gets _) _ _ => apply pwp_gets
  end.
Ltac pwp_auto := repeat (pwp_step; simpl).

(** * Shrinking stacks

    A stack of sizes, top first, with at most [n] entries: the top gets smaller, or
    a new entry appears on a smaller one, or the top is taken away. *)
Section shrinks.
Context (n : nat).

Inductive shrinks : list nat → list nat → Prop :=
  | shrinks_top a' a k : (a' < a)%nat → shrinks (a' :: k) (a :: k)
  | shrinks_push b a' a k : (a' < a)%nat → (length (b :: a' :: k) ≤ n)%nat → shrinks (b :: a' :: k) (a :: k)
  | shrinks_pop b a' a k : (a' ≤ a)%nat → shrinks (a' :: k) (b :: a :: k).

Lemma shrinks_wf_above d k :
  (n ≤ d + length k)%nat →
  (∀ c c' k0, k = c :: k0 → (c' ≤ c)%nat → Acc shrinks (c' :: k0)) →
  ∀ a, Acc shrinks (a :: k).
Proof.
  revert k. induction d as [|d IHd]; intros k Hd Hbelow a;
    induction (lt_wf a) as [a _ IHa]; constructor; intros l Hl;
    inversion Hl as [a' ? ? Hlt|b a' ? ? Hlt Hlen|b a' c k0 Hle]; subst;
    try (by apply IHa); try (by eapply Hbelow).
  - simpl in *. lia.
  - apply IHd; [simpl; lia|]. intros c c' k0 [= -> ->] Hc. apply IHa. lia.
Qed.

Lemma shrinks_wf a : Acc shrinks [a].
Proof. apply (shrinks_wf_above n); [simpl; lia|done]. Qed.
End shrinks.

(** * What the stacks hold *)

Definition is_binary (o : Op) : bool := negb (isMarker o || isUnary o || bool_decide (o = Assign)).
Definition is_nesting (o : Op) : bool := match o with Deref | AssignDone => true | _ => false end.

(** How many operands wait on the value stack for the operators, and how many
    nested inputs the markers delimit. *)
Definition binops (l : list Operator) : nat := length (filter (λ o, is_binary (op o) = true) l).
Definition nested (l : list Operator) : nat := length (filter (λ o, is_nesting (op o) = true) l).

(** The operators of each input, top first. *)
Fixpoint segments (l : list Operator) : nat * list nat :=
  match l with
  | [] => (0%nat, [])
  | o :: l' => let '(n, r) := segments l' in if is_nesting (op o) then (0%nat, n :: r) else (S n, r)
  end.

(** The size of an input with its operators: a character may become an operator. *)
Definition weight (i : Input) (n : nat) : nat := (1 + 2 * length (rest i) + n)%nat.

Definition levels (s : evaluator) : list nat :=
  match inputs s, segments (ops s) with
  | i :: ins, (n, r) => weight i n :: zip_with weight ins r
  | [], _ => []
  end.

Fixpoint depths_ok (l : list Input) : Prop :=
  match l with [] => True | i :: l' => depth i = Z.of_nat (length l') ∧ depths_ok l' end.

Definition height (s : evaluator) : nat := ((if expectOperand s then 0 else 1) + binops (ops s))%nat.

Definition inputs_ok (s : evaluator) : Prop :=
  length (inputs s) = S (nested (ops s)) ∧ depths_ok (inputs s).

Record stacks_ok (s : evaluator) : Prop := {
  stacks_inputs : inputs_ok s;
  values_height : error s = None → length (values s) = height s;
}.

Lemma binops_cons o l : binops (o :: l) = ((if is_binary (op o) then 1 else 0) + binops l)%nat.
Proof. unfold binops. rewrite filter_cons. case_decide as Hd; [by rewrite Hd|]. by destruct (is_binary (op o)). Qed.
Lemma nested_cons o l : nested (o :: l) = ((if is_nesting (op o) then 1 else 0) + nested l)%nat.
Proof. unfold nested. rewrite filter_cons. case_decide as Hd; [by rewrite Hd|]. by destruct (is_nesting (op o)). Qed.

Lemma length_rest_advance n i : length (rest (advance n i)) = (length (rest i) - n)%nat.
Proof. unfold rest, advance. simpl. rewrite !length_drop. lia. Qed.

Lemma at_rest i k : at_ i k = default NUL (rest i !! k).
Proof. unfold at_, rest. by rewrite lookup_drop. Qed.

(** A character that is not NUL has not been read yet. *)
Lemma at_not_NUL i c : at_ i 0 = c → c ≠ NUL → (0 < length (rest i))%nat.
Proof. rewrite at_rest. destruct (rest i); simpl; [by intros <-|lia]. Qed.

Lemma depths_advance n i l : depths_ok (i :: l) → depths_ok (advance n i :: l).
Proof. done. Qed.

(** The outermost input and thirty-two nested ones. *)
Definition MAX_INPUTS : nat := 33.

(** * The levels along a unit of work *)

(** [s] works on the top of [l] and has at least [k] to spare. *)
Definition within (l : list nat) (k : nat) (s : evaluator) : Prop :=
  ∃ a a0 r, levels s = a :: r ∧ l = a0 :: r ∧ (a + k ≤ a0)%nat.

Definition advanced (l : list nat) (s : evaluator) : Prop := shrinks MAX_INPUTS (levels s) l.

Lemma within_advanced l k s : within l (S k) s → advanced l s.
Proof. intros (a & a0 & r & Hs & -> & Hle). unfold advanced. rewrite Hs. constructor. lia. Qed.

Lemma within_le l k k' s : (k' ≤ k)%nat → within l k s → within l k' s.
Proof. intros Hk (a & a0 & r & ? & ? & ?). exists a, a0, r. split; [done|]. split; [done|lia]. Qed.

Lemma within_input l k d i j s :
  within l k s → inputs s = i :: tail (inputs s) → (length (rest j) + d ≤ length (rest i))%nat →
  within l (k + 2 * d) (set_inputs (j :: tail (inputs s)) s).
Proof.
  intros (a & a0 & r & Hs & -> & Hle) Hi Hd. unfold levels in Hs. rewrite Hi in Hs.
  unfold within, levels. simpl. destruct (segments (ops s)) as [n r']. injection Hs as <- <-.
  do 3 eexists. split; [done|]. split; [done|]. unfold weight in *. lia.
Qed.

Lemma within_push l k o s :
  within l (S k) s → is_nesting (op o) = false → within l k (set_ops (o :: ops s) s).
Proof.
  intros (a & a0 & r & Hs & -> & Hle) Ho. unfold within, levels in *. simpl.
  destruct (inputs s) as [|i ins]; [done|]. destruct (segments (ops s)) as [n r']. rewrite Ho.
  injection Hs as <- <-. do 3 eexists. split; [done|]. split; [done|]. unfold weight in *. lia.
Qed.

Lemma within_pop l k o ol s :
  within l k s → ops s = o :: ol → is_nesting (op o) = false → within l (S k) (set_ops ol s).
Proof.
  intros (a & a0 & r & Hs & -> & Hle) Hol Ho. unfold within, levels in *. rewrite Hol in Hs. simpl in *.
  destruct (inputs s) as [|i ins]; [done|]. destruct (segments ol) as [n r']. rewrite Ho in Hs.
  injection Hs as <- <-. do 3 eexists. split; [done|]. split; [done|]. unfold weight in *. lia.
Qed.

(** Entering a nested input. *)
Lemma within_nest l o i s :
  within l 1 s → is_nesting (op o) = true → (length (inputs s) < MAX_INPUTS)%nat → length (inputs s) = S (nested (ops s)) →
  ∀ e a, advanced l (set_expect e a (set_inputs (i :: inputs s) (set_ops (o :: ops s) s))).
Proof.
  intros (a & a0 & r & Hs & -> & Hle) Ho Hlen Hn e al. unfold advanced, levels in *. simpl.
  rewrite Ho. destruct (inputs s) as [|j ins] eqn:Hin; [done|].
  assert (length (snd (segments (ops s))) = nested (ops s)) as Hseg.
  { clear. induction (ops s) as [|p q IH]; [done|]. simpl. rewrite nested_cons.
    destruct (segments q) as [n r]. destruct (is_nesting (op p)); simpl in *; lia. }
  destruct (segments (ops s)) as [n r']. simpl in *. injection Hs as <- <-.
  apply shrinks_push; [lia|]. simpl. rewrite length_zip_with. simpl in *. lia.
Qed.

(** Leaving one. *)
Lemma unnest_advanced l s o ol i ins :
  within l 0 s → ops s = o :: ol → is_nesting (op o) = true → inputs s = i :: ins → ins ≠ [] →
  advanced l (set_inputs ins (set_ops ol s)).
Proof.
  intros (a & a0 & r & Hs & -> & _) Ho Hn Hi Hne. unfold advanced, levels in *.
  rewrite Ho, Hi in Hs. simpl in *. destruct (segments ol) as [n r']. rewrite Hn in Hs.
  destruct ins as [|j ins]; [done|]. simpl in *. injection Hs as _ <-. by apply shrinks_pop.
Qed.

(** * Every operation keeps the stacks in shape and makes progress *)

Section safety.
Context `{Long} (ok : Prop).
(** Overflow has some result, or may be undefined. *)
Hypothesis long_total : ∀ z, is_Some (long_of z) ∨ ok.
Implicit Types (s : evaluator) (Q : unit → evaluator → Prop) (l : list nat).

Lemma pwp_undef {A} (Q : A → evaluator → Prop) s : ok → pwp ok undef Q s.
Proof. done. Qed.

Lemma pwp_long z (Q : Z → evaluator → Prop) s : (∀ v, Q v s) → pwp ok (long z) Q s.
Proof. intros HQ. unfold long. destruct (long_of z) as [v|] eqn:E; [apply HQ|].
  destruct (long_total z) as [[v Hv]|]; [congruence|done]. Qed.

(** A failure leaves an error, which ends the evaluation. *)
Lemma pwp_fail msg Q s : (∀ e, Q tt (set_error (Some e) s)) → pwp ok (fail msg) Q s.
Proof.
  intros HQ. unfold fail, modify, pwp. destruct (error s) as [t|] eqn:He; [|apply HQ].
  replace s with (set_error (Some t) s) by (destruct s; simpl in *; by subst). apply HQ.
Qed.

(** The outcome of a unit of work that began with levels [l]. *)
Definition done_ok l s : Prop := stacks_ok s ∧ (error s = None → advanced l s).

Lemma failed_ok l e s : inputs_ok s → done_ok l (set_error (Some e) s).
Proof. intros [Hi Hd]. by split. Qed.

(** An operand is missing: the values are those of the waiting operators. *)
Record missing s : Prop := {
  missing_inputs : inputs_ok s;
  missing_values : length (values s) = binops (ops s);
  missing_error : error s = None;
}.

Lemma pushOperand_ok l v s : missing s → advanced l s → pwp ok (pushOperand v) (λ _, done_ok l) s.
Proof.
  intros [[Hi Hd] Hv He] Hl. unfold pushOperand, pushValue. pwp_auto.
  split; [|done]. split; [by split|]. intros _. unfold height. simpl. lia.
Qed.

Lemma put_input_ok i j s :
  inputs_ok s → inputs s = i :: tail (inputs s) → depth j = depth i →
  inputs_ok (set_inputs (j :: tail (inputs s)) s).
Proof.
  intros [Hi Hd] Hin Hj. rewrite Hin in Hi, Hd. simpl in Hi, Hd. split; simpl; [done|].
  by rewrite Hj.
Qed.

Lemma missing_put_input i j s :
  missing s → inputs s = i :: tail (inputs s) → depth j = depth i →
  missing (set_inputs (j :: tail (inputs s)) s).
Proof. intros [Hi Hv He] Hin Hj. split; [by eapply put_input_ok|done|done]. Qed.

Lemma deref_ok l n f marker s :
  missing s → is_nesting (op marker) = true → within l 1 s → pwp ok (f 0) (λ _, done_ok l) s →
  pwp ok (deref n f marker) (λ _, done_ok l) s.
Proof.
  intros [[Hi Hd] Hv He] Hm Hl Hf. unfold deref, sh_get. apply pwp_bind, pwp_gets.
  destruct (match vars s !! n with Some v => _ | None => [] end) as [|c t]; [exact Hf|].
  apply pwp_bind. unfold top_input. apply pwp_bind, pwp_gets.
  destruct (inputs s) as [|i ins] eqn:Hin; [done|]. apply pwp_ret.
  destruct (ARITH_MAX_DEPTH <? depth i + 1) eqn:Hdepth.
  - apply pwp_fail. intros e. apply failed_ok. split; by rewrite Hin.
  - apply Z.ltb_ge in Hdepth. unfold ARITH_MAX_DEPTH in Hdepth. pose proof Hd as [Hdi _].
    unfold pushOp. apply pwp_bind, pwp_modify, pwp_bind, pwp_modify, pwp_modify. split.
    + split; [split|].
      * simpl. rewrite Hin, nested_cons, Hm. simpl in *. lia.
      * simpl. rewrite Hin. split; [simpl in *; lia|exact Hd].
      * intros _. unfold height. simpl. rewrite binops_cons.
        assert (is_binary (op marker) = false) as -> by by destruct (op marker). done.
    + intros _. simpl ops. apply (within_nest l marker _ s); try done; rewrite Hin; simpl in *; [|lia].
      unfold MAX_INPUTS. lia.
Qed.

Lemma digits_none p value base acc (t : text) : digits p value base acc t = None → ok.
Proof.
  revert acc. induction t as [|c t IH]; intros acc; simpl; [done|]. destruct (p c); [|done].
  destruct (long_total (acc * base + value c)) as [[v ->]|]; [|done]. simpl.
  destruct (digits p value base v t) as [[r n]|] eqn:E; [done|]. intros _. by eapply IH.
Qed.

Lemma digits_pos p value base acc c (t : text) r n :
  digits p value base acc (c :: t) = Some (r, n) → p c = true → (0 < n)%nat.
Proof.
  simpl. intros Hd Hp. rewrite Hp in Hd. destruct (long_of _) as [v|]; [|done]. simpl in Hd.
  destruct (digits p value base v t) as [[r' n']|]; [|done]. simpl in Hd. injection Hd as <- <-. lia.
Qed.

Lemma readDigits_ok l k d p value base i0 i (Q : Z * Input → evaluator → Prop) s :
  missing s → within l k s → inputs s = i0 :: tail (inputs s) → depth i = depth i0 →
  (length (rest i) + d ≤ length (rest i0))%nat →
  (2 ≤ k + 2 * d)%nat ∨ p (at_ i 0) = true ∧ at_ i 0 ≠ NUL →
  (∀ r s', missing s' → within l 2 s' → Q r s') → pwp ok (readDigits p value base i) Q s.
Proof.
  intros Hs Hl Hin Hdep Hlen Hk HQ. unfold readDigits.
  destruct (digits p value base 0 (rest i)) as [[v n]|] eqn:E; [|by eapply digits_none].
  unfold put_input. pwp_auto. apply HQ; [by eapply missing_put_input|].
  destruct Hk as [Hk|[Hp Hc]].
  - eapply (within_le _ (k + 2 * d)); [lia|]. eapply within_input; [done|done|].
    rewrite length_rest_advance. lia.
  - eapply (within_le _ (k + 2 * 1)); [lia|]. eapply within_input; [done|done|].
    rewrite length_rest_advance. rewrite at_rest in Hp, Hc.
    destruct (rest i) as [|c t]; [done|]. simpl in *. pose proof (digits_pos _ _ _ _ _ _ _ _ E Hp). lia.
Qed.

(** Moving past [n > 0] characters. *)
Lemma advance_within l k n i s :
  within l k s → inputs s = i :: tail (inputs s) → (0 < n)%nat → (0 < length (rest i))%nat →
  within l (k + 2) (set_inputs (advance n i :: tail (inputs s)) s).
Proof.
  intros Hl Hin Hn Hr. apply (within_input _ _ 1 i); [done|done|]. rewrite length_rest_advance. lia.
Qed.

(** A number, or a failure. *)
Lemma readNumber_ok l i s :
  missing s → within l 0 s → inputs s = i :: tail (inputs s) → isdigit (at_ i 0) = true →
  pwp ok (v ← readNumber i; e ← gets error;
          match e with None => pushOperand v | Some _ => mret tt end) (λ _, done_ok l) s.
Proof.
  intros Hs Hl Hin Hdig.
  assert (at_ i 0 ≠ NUL) as Hnul by by intros Hn; rewrite Hn in Hdig.
  assert (0 < length (rest i))%nat as Hr by by eapply at_not_NUL.
  assert (∀ v s', missing s' → within l 2 s' →
    pwp ok (e ← gets error; match e with None => pushOperand v | Some _ => mret tt end)
    (λ _, done_ok l) s') as Hdone.
  { intros v s' Hs' Hl'. apply pwp_bind, pwp_gets. rewrite (missing_error _ Hs').
    apply pushOperand_ok; [done|]. by eapply (within_advanced _ 1). }
  assert (∀ msg v s', missing s' → pwp ok (fail msg) (λ _ s', pwp ok (e ← gets error;
    match e with None => pushOperand v | Some _ => mret tt end) (λ _, done_ok l) s') s') as Hfail.
  { intros msg v s' Hs'. apply pwp_fail. intros e. apply pwp_bind, pwp_gets. simpl. apply failed_ok, Hs'. }
  apply pwp_bind. unfold readNumber.
  destruct (_ && (_ || _))%bool; [|destruct (_ && _)%bool].
  - apply pwp_bind. unfold put_input. apply pwp_modify.
    assert (missing (set_inputs (advance 2 i :: tail (inputs s)) s)) as Hm by by eapply missing_put_input.
    destruct (negb _); apply pwp_bind.
    + eapply pwp_mono; [by apply Hfail|]. intros [] s' Hq. by apply pwp_ret.
    + eapply (readDigits_ok l 2 0); [done|by apply (advance_within _ 0); try done; lia|done|done|lia|by left|].
      intros [v j] s' Hs' Hl'. apply pwp_ret. by apply Hdone.
  - apply pwp_bind.
    apply (readDigits_ok l 0 1 _ _ _ i); [done|done|done|done|rewrite length_rest_advance; lia|by left|].
    intros [v j] s' Hs' Hl'. destruct (_ || _)%bool; [|apply pwp_ret; by apply Hdone].
    apply pwp_bind. eapply pwp_mono; [by apply Hfail|]. intros [] s'' Hq. by apply pwp_ret.
  - apply pwp_bind. apply (readDigits_ok l 0 0 _ _ _ i); [done|done|done|done|lia|by right|].
    intros [v j] s' Hs' Hl'. apply pwp_ret. by apply Hdone.
Qed.

(** An operator that waits for no value. *)
Lemma push_waiting o s :
  missing s → is_binary (op o) = false → is_nesting (op o) = false →
  missing (set_ops (o :: ops s) s).
Proof.
  intros [[Hi Hd] Hv He] Hb Hn. split; [split|..]; simpl; rewrite ?binops_cons, ?nested_cons, ?Hb, ?Hn; done.
Qed.

Lemma missing_ok l s : missing s → expectOperand s = true → advanced l s → done_ok l s.
Proof. intros [Hi Hv He] Hx Hl. split; [|done]. split; [done|]. intros _. unfold height. by rewrite Hx. Qed.

Lemma shift_ok l i n o allowed s :
  missing s → expectOperand s = true → within l 0 s → inputs s = i :: tail (inputs s) →
  at_ i 0 ≠ NUL → (0 < n)%nat → is_binary (op o) = false → is_nesting (op o) = false →
  pwp ok (shift i n o allowed) (λ _, done_ok l) s.
Proof.
  intros Hs Hx Hl Hin Hc Hn Hb Hne. unfold shift, put_input, pushOp. pwp_auto.
  assert (0 < length (rest i))%nat as Hr by by eapply at_not_NUL.
  pose proof (missing_put_input i (advance n i) s Hs Hin eq_refl) as Hs1.
  pose proof (push_waiting o _ Hs1 Hb Hne) as Hs2.
  pose proof (within_push l 1 o _ (advance_within l 0 n i s Hl Hin Hn Hr) Hne) as Hl2.
  apply within_advanced in Hl2. destruct Hs2 as [Hi2 Hv2 He2].
  split; [|intros _; exact Hl2]. split; [exact Hi2|]. intros _. unfold height. simpl. rewrite Hx. exact Hv2.
Qed.

Lemma assignment_op_at i c n : assignment_op i = Some (c, n) → (0 < n)%nat.
Proof. unfold assignment_op. intros Ha. repeat case_match; simplify_eq; lia. Qed.

Lemma span_pos p (c : ascii) (t : text) : p c = true → (0 < span p (c :: t))%nat.
Proof. simpl. intros ->. lia. Qed.

(** An identifier at the current position is not empty. *)
Lemma identifier_length_pos i :
  is_name_start (at_ i 0) = true → (0 < identifier_length i)%nat ∧ (0 < length (rest i))%nat.
Proof.
  rewrite at_rest. unfold identifier_length. destruct (rest i) as [|c t]; [done|]. simpl. intros Hc.
  split; [|lia]. assert (is_name_char c = true) as ->; [|lia].
  unfold is_name_start, is_name_char, isalnum in *. by destruct (isalpha c), (isdigit c).
Qed.

Lemma tryAssignment_ok l i s :
  missing s → expectOperand s = true → within l 0 s → inputs s = i :: tail (inputs s) →
  pwp ok (tryAssignment i) (λ b s', if b : bool then done_ok l s' else s' = s) s.
Proof.
  intros Hs Hx Hl Hin. unfold tryAssignment. set (j := if bool_decide _ then _ else _).
  destruct (is_name_start (at_ j 0)) eqn:Hname; [|by apply pwp_ret]. simpl.
  apply identifier_length_pos in Hname as [Hn Hr].
  assert (length (rest j) ≤ length (rest i))%nat as Hji
    by (unfold j; case_bool_decide; rewrite ?length_rest_advance; lia).
  assert (depth j = depth i) as Hdep by (unfold j; by case_bool_decide).
  destruct (assignment_op _) as [[c len]|]; [|by apply pwp_ret].
  unfold put_input, pushOp. pwp_auto. set (j' := advance len _).
  assert (missing (set_inputs (j' :: tail (inputs s)) s)) as Hm by by eapply missing_put_input.
  assert (length (rest j') + 1 ≤ length (rest i))%nat as Hlen
    by (unfold j', skipWhitespace; rewrite !length_rest_advance; lia).
  pose proof (within_input l 0 1 i j' s Hl Hin Hlen) as Hl1.
  apply missing_ok; [|done|].
  - by apply (push_waiting _ (set_inputs _ s)).
  - apply (within_advanced _ 0). by apply (within_push _ 1 _ (set_inputs _ s)).
Qed.

Lemma readOperand_ok l i s :
  missing s → expectOperand s = true → within l 0 s → inputs s = i :: tail (inputs s) →
  pwp ok (readOperand i) (λ _, done_ok l) s.
Proof.
  intros Hs Hx Hl Hin. unfold readOperand. cbn zeta.
  repeat (case_bool_decide as Hc; [apply shift_ok; try done; try lia; by rewrite Hc|clear Hc]).
  apply pwp_bind, pwp_gets, pwp_bind.
  eapply (pwp_mono _ _ (λ b s', if b : bool then done_ok l s' else s' = s)).
  { destruct (assignAllowed s); [by apply tryAssignment_ok|by apply pwp_ret]. }
  intros [] s' Hs'; [by apply pwp_ret|]. subst s'.
  set (j := if bool_decide _ then _ else _).
  assert (length (rest j) + 0 ≤ length (rest i))%nat as Hji
    by (unfold j; case_bool_decide; rewrite ?length_rest_advance; lia).
  assert (depth j = depth i) as Hdep by (unfold j; by case_bool_decide).
  apply pwp_bind. unfold put_input at 1. apply pwp_modify. set (s1 := set_inputs _ s).
  assert (missing s1) as Hs1 by by eapply missing_put_input.
  assert (within l 0 s1) as Hl1 by by apply (within_input l 0 0 i).
  destruct (isdigit _) eqn:Hd; [by apply readNumber_ok|].
  destruct (is_name_start (at_ j 0)) eqn:Hname.
  - apply identifier_length_pos in Hname as [Hn Hr].
    apply pwp_bind. unfold put_input. apply pwp_modify. set (s2 := set_inputs _ s1).
    assert (missing s2) as Hs2 by by eapply (missing_put_input j).
    assert (within l 2 s2) as Hl2 by by apply (advance_within l 0).
    apply deref_ok; [done|done|by eapply within_le; [|exact Hl2]; lia|].
    apply pushOperand_ok; [done|]. by eapply (within_advanced _ 1).
  - apply pwp_fail. intros e. apply failed_ok, Hs1.
Qed.

Lemma apply_ok c current r s :
  missing s → pwp ok (apply c current r) (λ _ s', s' = s ∨ ∃ e, s' = set_error (Some e) s) s.
Proof.
  intros Hs. unfold apply.
  repeat case_bool_decide; try (apply pwp_ret; by left); try (apply pwp_long; by left);
    destruct (r =? 0); try (apply pwp_bind, pwp_fail; intros e; apply pwp_ret; right; by exists e).
  - apply pwp_long. by left.
  - apply pwp_bind, pwp_long. intros _. apply pwp_ret. by left.
Qed.

Lemma finishAssignment_ok l n c current r s :
  missing s → advanced l s → pwp ok (finishAssignment n c current r) (λ _, done_ok l) s.
Proof.
  intros Hs Hl. unfold finishAssignment. apply pwp_bind.
  eapply pwp_mono; [by apply apply_ok|]. intros v s' Hs'. apply pwp_bind, pwp_gets.
  destruct Hs' as [->|[e ->]]; simpl.
  - rewrite (missing_error _ Hs). apply pwp_bind. unfold sh_set. apply pwp_modify.
    apply pushOperand_ok; [by destruct Hs|exact Hl].
  - apply pwp_ret. apply failed_ok, Hs.
Qed.

Lemma binary_ok o a b s :
  pwp ok (binary o a b) (λ v s', (∃ x, v = Some x ∧ s' = s) ∨ ∃ e, v = None ∧ s' = set_error (Some e) s) s.
Proof.
  assert (∀ m : M evaluator (option Z),
    pwp ok m (λ v s', (∃ x, v = Some x ∧ s' = s)) s →
    pwp ok (if b =? 0 then fail ($"division by zero");; mret None else m)
      (λ v s', (∃ x, v = Some x ∧ s' = s) ∨ ∃ e, v = None ∧ s' = set_error (Some e) s) s) as Hdiv.
  { intros m Hm. destruct (b =? 0).
    - apply pwp_bind, pwp_fail. intros e. apply pwp_ret. right. by exists e.
    - eapply pwp_mono; [exact Hm|]. intros v s' Hv. by left. }
  unfold binary. destruct o; try (apply pwp_ret; left; by eexists);
    try (apply pwp_bind, pwp_long; intros v; apply pwp_ret; left; by eexists);
    apply Hdiv, pwp_bind, pwp_long; intros v; apply pwp_ret; by eexists.
Qed.

(** The state between tokens: an operand is on the stack. *)
Record present s : Prop := {
  present_ok : stacks_ok s;
  present_expect : expectOperand s = false;
  present_error : error s = None;
}.

Lemma present_values s : present s → length (values s) = S (binops (ops s)).
Proof. intros [[_ Hv] Hx He]. rewrite (Hv He). unfold height. by rewrite Hx. Qed.

Lemma popValue_ok (Q : Z → evaluator → Prop) s n :
  length (values s) = S n → (∀ v vs, values s = v :: vs → length vs = n → Q v (set_values vs s)) →
  pwp ok popValue Q s.
Proof.
  intros Hv HQ. unfold popValue. apply pwp_bind, pwp_gets. destruct (values s) as [|v vs]; [done|].
  apply pwp_bind, pwp_modify, pwp_ret. apply HQ; [done|]. simpl in Hv. lia.
Qed.

Lemma reduce_ok l s q :
  present s → within l 0 s → pending_op s = Some q → pwp ok reduce (λ _, done_ok l) s.
Proof.
  intros Hs Hl Hp. pose proof (present_values s Hs) as Hv. destruct Hs as [[[Hi Hd] _] Hx He].
  unfold pending_op in Hp. unfold reduce, popOp. apply pwp_bind, pwp_bind, pwp_gets.
  destruct (ops s) as [|o ol] eqn:Ho; [done|]. destruct (isMarker (op o)) eqn:Hm; [done|].
  apply pwp_bind, pwp_modify, pwp_ret.
  assert (is_nesting (op o) = false) as Hn by by destruct (op o).
  pose proof (within_pop _ _ _ _ _ Hl Ho Hn) as Hl1.
  rewrite nested_cons, Hn in Hi. rewrite binops_cons in Hv. set (s1 := set_ops ol s) in *.
  assert (∀ w vs s', s' = set_values vs s1 → length vs = binops ol →
    pwp ok (pushValue w) (λ _, done_ok l) s') as Hpush.
  { intros w vs s' -> Hvs. unfold pushValue. apply pwp_modify. split; [split; [by split|]|].
    - intros _. unfold height. simpl. rewrite Hx. lia.
    - intros _. by apply (within_advanced _ 0). }
  destruct (isUnary (op o)) eqn:Hu; [|case_bool_decide as Ha].
  - assert (is_binary (op o) = false) as Hb by (unfold is_binary; by rewrite Hm, Hu).
    rewrite Hb in Hv. simpl in Hv.
    apply pwp_bind. apply (popValue_ok _ s1 (binops ol)); [exact Hv|]. intros v vs _ Hvs.
    destruct (op o); try (by eapply Hpush); [].
    apply pwp_bind, pwp_long. intros w. by eapply Hpush.
  - assert (is_binary (op o) = false) as Hb by by rewrite Ha.
    rewrite Hb in Hv. simpl in Hv.
    apply pwp_bind. apply (popValue_ok _ s1 (binops ol)); [exact Hv|]. intros v vs _ Hvs.
    assert (missing (set_values vs s1)) as Hmiss by (split; [split; simpl in *; done|exact Hvs|done]).
    assert (advanced l (set_values vs s1)) as Ha1 by by apply (within_advanced _ 0).
    case_bool_decide; [by apply finishAssignment_ok|].
    apply deref_ok; [done|done|exact Hl1|by apply finishAssignment_ok].
  - assert (is_binary (op o) = true) as Hb by (unfold is_binary; by rewrite Hm, Hu, bool_decide_false).
    rewrite Hb in Hv. simpl in Hv.
    apply pwp_bind. apply (popValue_ok _ s1 (S (binops ol))); [exact Hv|]. intros v vs _ Hvs.
    apply pwp_bind. apply (popValue_ok _ _ (binops ol)); [exact Hvs|]. intros w ws _ Hws.
    apply pwp_bind. eapply pwp_mono; [apply binary_ok|]. intros x s' [(y & -> & ->)|(e & -> & ->)].
    + by eapply Hpush.
    + apply pwp_ret. by apply failed_ok.
Qed.

Lemma readOperator_ok l i s :
  present s → within l 0 s → inputs s = i :: tail (inputs s) → at_ i 0 ≠ NUL →
  pwp ok (readOperator i) (λ _, done_ok l) s.
Proof.
  intros Hs Hl Hin Hc. pose proof (present_values s Hs) as Hv. pose proof Hs as [[[Hi Hd] _] Hx He].
  assert (0 < length (rest i))%nat as Hr by by eapply at_not_NUL.
  unfold readOperator. apply pwp_bind, pwp_gets. case_bool_decide.
  - destruct (pending_op s) as [q|] eqn:Hp; [by eapply reduce_ok|].
    apply pwp_bind, pwp_gets. destruct (ops s) as [|o ol] eqn:Ho.
    + apply pwp_fail. intros e. apply failed_ok. split; by rewrite ?Ho.
    + case_bool_decide as Hpar.
      * unfold put_input. apply pwp_bind, pwp_modify, pwp_modify.
        assert (is_nesting (op o) = false) as Hn by by rewrite Hpar.
        pose proof (within_pop _ _ _ _ _ Hl Ho Hn) as Hl1.
        rewrite nested_cons, Hpar in Hi. rewrite binops_cons, Hpar in Hv. simpl in Hi, Hv.
        split; [split|].
        -- by apply (put_input_ok i _ (set_ops ol s)).
        -- intros _. unfold height. simpl. by rewrite Hx.
        -- intros _. apply (within_advanced _ 2).
           eapply within_le; [|by apply (advance_within _ 1 _ _ (set_ops ol s)); try done; lia]. lia.
      * apply pwp_fail. intros e. apply failed_ok. split; by rewrite ?Ho.
  - destruct (operator_at i) as [[o n]|msg] eqn:Hop; [|apply pwp_fail; intros e; by apply failed_ok].
    destruct (match pending_op s with Some q => precedence o <=? precedence q | None => false end) eqn:Hred.
    { destruct (pending_op s) as [q|] eqn:Hp; [by eapply reduce_ok|done]. }
    assert (is_binary o = true ∧ is_nesting o = false ∧ (0 < n)%nat) as (Hb & Hn & Hpos).
    { clear -Hop. unfold operator_at in Hop. repeat case_match; simplify_eq; (split; [done|split; [done|lia]]). }
    unfold put_input, pushOp. apply pwp_bind, pwp_modify, pwp_bind, pwp_modify, pwp_modify.
    set (s1 := set_inputs _ s).
    pose proof (within_push _ 1 (plain_op o) _ (advance_within _ 0 n i s Hl Hin Hpos Hr) Hn) as Hl1.
    split; [split|].
    + destruct (put_input_ok i (advance n i) s (conj Hi Hd) Hin eq_refl) as [Hi1 Hd1].
      split; [|exact Hd1]. cbn [set_ops set_expect ops inputs]. rewrite nested_cons.
      cbn [op plain_op]. by rewrite Hn.
    + intros _. unfold height. simpl. rewrite binops_cons. simpl. rewrite Hb. lia.
    + intros _. by apply (within_advanced _ 0).
Qed.

Lemma endOfInput_ok s l :
  present s → within l 0 s →
  pwp ok endOfInput (λ b s', if b : bool then done_ok l s' else stacks_ok s' ∧ error s' = None ∧ values s' ≠ []) s.
Proof.
  intros Hs Hl. pose proof (present_values s Hs) as Hv. pose proof Hs as [[[Hi Hd] Hh] Hx He].
  unfold endOfInput. apply pwp_bind, pwp_gets.
  destruct (pending_op s) as [q|] eqn:Hp.
  { apply pwp_bind. eapply pwp_mono; [by eapply reduce_ok|]. intros [] s' Hs'. by apply pwp_ret. }
  apply pwp_bind, pwp_gets.
  destruct (match ops s with o :: _ => bool_decide (op o = LeftParen) | [] => false end) eqn:Hpar.
  { apply pwp_bind, pwp_fail. intros e. apply pwp_ret. by apply failed_ok. }
  apply pwp_bind, pwp_gets. case_bool_decide as H1.
  { apply pwp_ret. split; [apply Hs|]. split; [done|]. intros Hnil. by rewrite Hnil in Hv. }
  unfold popOp. apply pwp_bind, pwp_bind, pwp_gets. unfold pending_op in Hp.
  destruct (ops s) as [|o ol] eqn:Ho; [exfalso; rewrite Hi in H1; done|].
  destruct (isMarker (op o)) eqn:Hm; [|done]. apply bool_decide_eq_false in Hpar.
  assert (is_nesting (op o) = true) as Hn by by destruct (op o).
  assert (is_binary (op o) = false) as Hb by by destruct (op o).
  rewrite nested_cons, Hn in Hi. rewrite binops_cons, Hb in Hv. simpl in Hi, Hv.
  apply pwp_bind, pwp_modify, pwp_ret, pwp_bind, pwp_modify.
  destruct (inputs s) as [|i ins] eqn:Hin; [done|]. simpl in Hi. destruct Hd as [_ Hd].
  assert (ins ≠ []) as Hne by by destruct ins.
  set (s1 := set_inputs (tail (inputs (set_ops ol s))) (set_ops ol s)).
  assert (s1 = set_inputs ins (set_ops ol s)) as Hs1 by (unfold s1; simpl; by rewrite Hin).
  assert (advanced l s1) as Ha by (rewrite Hs1; by eapply unnest_advanced).
  assert (inputs_ok s1) as Hs1i by (rewrite Hs1; split; simpl; [lia|done]).
  case_bool_decide.
  - apply pwp_bind, pwp_bind. apply (popValue_ok _ s1 (binops ol)); [exact Hv|]. intros v vs _ Hvs.
    eapply pwp_mono; [apply (finishAssignment_ok l)|].
    + by split.
    + exact Ha.
    + intros [] s' Hs'. by apply pwp_ret.
  - apply pwp_bind, pwp_modify, pwp_ret. split; [split|].
    + exact Hs1i.
    + intros _. unfold height. simpl. lia.
    + intros _. exact Ha.
Qed.

Lemma step_ok s :
  stacks_ok s → error s = None →
  pwp ok step (λ b s', if b : bool then done_ok (levels s) s'
                       else stacks_ok s' ∧ error s' = None ∧ values s' ≠ []) s.
Proof.
  intros Hs He. pose proof Hs as [[Hi Hd] Hv]. unfold step, top_input. apply pwp_bind, pwp_bind, pwp_gets.
  destruct (inputs s) as [|i ins] eqn:Hin; [done|]. apply pwp_ret, pwp_bind. unfold put_input. apply pwp_modify.
  set (j := skipWhitespace i). set (s1 := set_inputs _ s).
  assert (inputs s = i :: tail (inputs s)) as Hin' by by rewrite Hin.
  assert (inputs_ok s1) as Hi1 by (apply (put_input_ok i); [split; by rewrite Hin|done|done]).
  assert (within (levels s) 0 s) as Hl.
  { unfold within, levels. rewrite Hin. destruct (segments (ops s)) as [n r]. do 3 eexists.
    split; [done|]. split; [done|lia]. }
  assert (within (levels s) 0 s1) as Hl1.
  { apply (within_input _ 0 0 i); [done|done|]. unfold j, skipWhitespace. rewrite length_rest_advance. lia. }
  assert (stacks_ok s1) as Hs1 by (split; [exact Hi1|exact Hv]).
  apply pwp_bind, pwp_gets. destruct (expectOperand s1) eqn:Hx.
  - apply pwp_bind. eapply pwp_mono; [apply (readOperand_ok (levels s) j s1)|]; [|done|done|done|].
    + split; [exact Hi1| |exact He]. destruct Hs1 as [_ Hv1]. rewrite (Hv1 He). unfold height. by rewrite Hx.
    + intros [] s' Hs'. by apply pwp_ret.
  - assert (present s1) as Hp by by split.
    case_bool_decide as Hend; [by apply endOfInput_ok|].
    apply pwp_bind. eapply pwp_mono; [by apply (readOperator_ok (levels s) j s1)|].
    intros [] s' Hs'. by apply pwp_ret.
Qed.

(** The evaluation has ended well. *)
Definition ended s : Prop := stacks_ok s ∧ (error s = None → values s ≠ []).

Lemma steps_ok fuel s :
  stacks_ok s → pwp ok (steps fuel) (λ b s', if b : bool then ended s' else True) s.
Proof.
  revert s. induction fuel as [|f IH]; intros s Hs; simpl; apply pwp_bind, pwp_gets.
  - destruct (error s) eqn:He; apply pwp_ret; [|done]. split; [done|congruence].
  - destruct (error s) eqn:He; [apply pwp_ret; split; [done|congruence]|].
    apply pwp_bind. eapply pwp_mono; [by apply step_ok|]. intros [] s' Hs'.
    + apply IH, Hs'.
    + apply pwp_ret. split; [apply Hs'|]. intros _. apply Hs'.
Qed.

(** With enough fuel the evaluation ends, and more fuel changes nothing. *)
Lemma steps_terminate s :
  Acc (shrinks MAX_INPUTS) (levels s) → stacks_ok s →
  ∃ n r, r ≠ Done (false, s) ∧ (∀ s', r ≠ Done (false, s')) ∧ ∀ fuel, (n ≤ fuel)%nat → steps fuel s = r.
Proof.
  intros Hacc. remember (levels s) as l eqn:Hl. revert s Hl.
  induction Hacc as [l _ IH]; intros s -> Hs.
  destruct (error s) as [e|] eqn:He.
  { exists 0%nat, (Done (true, s)). split; [done|]. split; [done|]. intros [|f] _; simpl;
    unfold mbind, M_bind, gets; by rewrite He. }
  pose proof (step_ok s Hs He) as Hstep. unfold pwp in Hstep.
  assert (∀ r, (∀ f, steps (S f) s = r) → (∀ s', r ≠ Done (false, s')) →
    ∃ n r, r ≠ Done (false, s) ∧ (∀ s', r ≠ Done (false, s')) ∧ ∀ fuel, (n ≤ fuel)%nat → steps fuel s = r) as Hend.
  { intros r Hr Hne. exists 1%nat, r. split; [done|]. split; [done|]. intros [|f] Hf; [lia|apply Hr]. }
  destruct (step s) as [[b s1]| |] eqn:E.
  - destruct b.
    + destruct Hstep as [Hs1 Hadv]. destruct (error s1) as [e|] eqn:He1.
      * apply (Hend (Done (true, s1))); [|done]. intros f. cbn [steps].
        rewrite (bind_eq _ _ s None s) by (unfold gets; by rewrite He). rewrite (bind_eq _ _ _ _ _ E).
        destruct f; cbn [steps]; by rewrite (bind_eq _ _ s1 (Some e) s1) by (unfold gets; by rewrite He1).
      * destruct (IH (levels s1) (Hadv eq_refl) s1 eq_refl Hs1) as (n & r & _ & Hr & Hn).
        exists (S n), r. split; [apply Hr|]. split; [done|]. intros [|f] Hf; [lia|].
        cbn [steps]. rewrite (bind_eq _ _ s None s) by (unfold gets; by rewrite He).
        rewrite (bind_eq _ _ _ _ _ E). apply Hn. lia.
    + apply (Hend (Done (true, s1))); [|done]. intros f. cbn [steps].
      rewrite (bind_eq _ _ s None s) by (unfold gets; by rewrite He). by rewrite (bind_eq _ _ _ _ _ E).
  - done.
  - apply (Hend Undef); [|done]. intros f. cbn [steps].
    rewrite (bind_eq _ _ s None s) by (unfold gets; by rewrite He). unfold mbind, M_bind. by rewrite E.
Qed.

Lemma initial_ok m expr n : stacks_ok (set_inputs [advance n {| itext := expr; pos := 0; depth := 0 |}] (initial m expr)).
Proof. split; [split|]; done. Qed.
End safety.

(** Whatever the expression and the variables, the evaluator reads no empty stack
    and no missing input: with an arithmetic that gives every overflow some value it
    has no undefined behaviour at all, so overflow is the only kind it can have. *)
Theorem sh_arith_eval_safe `{Long} fuel m expr :
  (∀ z, is_Some (long_of z)) → ∃ r, sh_arith_eval fuel m expr = Done r.
Proof.
  intros Ht. unfold sh_arith_eval. case_bool_decide; [by eexists|].
  assert (∀ z, is_Some (long_of z) ∨ False) as Ht' by (intros z; left; apply Ht).
  pose proof (steps_ok False Ht' fuel _ (initial_ok m expr (span isspace3 expr))) as Hs.
  unfold skipWhitespace. change (rest _) with (drop 0 expr). rewrite drop_0. unfold pwp in Hs.
  destruct (steps fuel _) as [[b s]| |]; [|done..]. destruct b; [|by eexists].
  destruct Hs as [_ Hv]. unfold finish.
  destruct (error s) eqn:He; [by eexists|]. destruct (values s) as [|v l] eqn:Hvs; [|by eexists].
  by destruct (Hv eq_refl).
Qed.

Lemma sh_arith_eval_safe_witness :
  ∃ r, @sh_arith_eval wrapping_long 50 ∅ ($"2147483647 + 1") = Done r.
Proof. apply (@sh_arith_eval_safe wrapping_long). intros z. by eexists. Defined.

(** C38: evaluation terminates for every expression and every shell state, also when
    variables refer to each other in a cycle or are reassigned on the way: some
    number of steps is enough, and the result does not depend on having more. *)
Theorem sh_arith_eval_terminates `{Long} m expr :
  ∃ n r, r ≠ Done Running ∧ ∀ fuel, (n ≤ fuel)%nat → sh_arith_eval fuel m expr = r.
Proof.
  unfold sh_arith_eval. case_bool_decide; [by exists 0%nat, (Done (Value 0 m))|].
  unfold skipWhitespace. change (rest _) with (drop 0 expr). rewrite drop_0.
  set (s := set_inputs _ _).
  assert (∀ z, is_Some (long_of z) ∨ True) as Ht by (intros z; by right).
  destruct (steps_terminate True Ht s) as (n & r & _ & Hr & Hn);
    [apply shrinks_wf|apply initial_ok|].
  exists n. eexists. split; [|intros fuel Hf; rewrite (Hn fuel Hf); reflexivity].
  destruct r as [[[] s']| |]; [|by destruct (Hr s')|done..].
  unfold finish. destruct (error s'); [done|]. by destruct (values s').
Qed.
