(* ===== verification/ArithSpec.v ===== *)
(** What arithmetic expressions mean: their syntax with the precedence levels of C,
    their concrete text, and a reference semantics that walks the syntax tree. *)

From S2P Require Import Prelude Text Arith.

Definition ws (w : text) : Prop := Forall (λ c, isspace3 c = true) w.

(** * Syntax *)

Inductive expr :=
  | Num (s : text) (v : Z)
  | Var (n : text)
  | Par (e : expr)
  | Un (o : Op) (e : expr)
  | Bin (o : Op) (l r : expr)
  | Asg (c : ascii) (n : text) (e : expr).

Definition level (e : expr) : Z :=
  match e with
  | Num _ _ | Var _ | Par _ => 10
  | Un _ _ => 9
  | Bin o _ _ => precedence o
  | Asg _ _ _ => 2
  end.

Definition binary_op (o : Op) : bool :=
  match o with
  | Comma | Or | And | Equal | NotEqual | Less | LessEqual | Greater | GreaterEqual
  | Add | Subtract | Multiply | Divide | Modulo => true
  | _ => false
  end.

(** Digits with their positional value. *)
Definition positional (base : Z) (value : ascii → Z) (t : text) : Z :=
  foldl (λ a c, a * base + value c) 0 t.

(** Decimal, hexadecimal and octal constants that fit in a [long]. *)
Inductive literal : text → Z → Prop :=
  | lit_dec t v :
      t ≠ [] → Forall (λ c, isdigit c = true) t → (head t ≠ Some "0"%char ∨ length t = 1%nat) →
      positional 10 dec_digit t = v → in_long v = true → literal t v
  | lit_hex x t v :
      x = "x"%char ∨ x = "X"%char → t ≠ [] → Forall (λ c, isxdigit c = true) t →
      positional 16 hex_digit t = v → in_long v = true → literal ("0"%char :: x :: t) v
  | lit_oct t v :
      t ≠ [] → Forall (λ c, isodigit c = true) t →
      positional 8 dec_digit t = v → in_long v = true → literal ("0"%char :: t) v.

Definition is_name (n : text) : Prop :=
  (∃ c t, n = c :: t ∧ is_name_start c = true) ∧ Forall (λ c, is_name_char c = true) n.

Definition is_assign_char (c : ascii) : Prop := c ∈ [NUL; "+"; "-"; "*"; "/"; "%"]%char.

(** Operands bind at least as tightly as their operators ask, the right one of a
    left-associative operator more tightly. *)
Fixpoint well_formed (e : expr) : Prop :=
  match e with
  | Num s v => literal s v
  | Var n => is_name n
  | Par e => well_formed e
  | Un o e => isUnary o = true ∧ 9 ≤ level e ∧ well_formed e
  | Bin o l r => binary_op o = true ∧ precedence o ≤ level l ∧ precedence o < level r ∧
                 well_formed l ∧ well_formed r
  | Asg c n e => is_assign_char c ∧ is_name n ∧ 2 ≤ level e ∧ well_formed e
  end.

(** * Text *)

Definition unary_char (o : Op) : ascii :=
  match o with Plus => "+" | Negate => "-" | _ => "!" end%char.

Definition token (o : Op) : text :=
  match o with
  | Comma => $"," | Or => $"||" | And => $"&&" | Equal => $"==" | NotEqual => $"!="
  | Less => $"<" | LessEqual => $"<=" | Greater => $">" | GreaterEqual => $">="
  | Add => $"+" | Subtract => $"-" | Multiply => $"*" | Divide => $"/" | Modulo => $"%"
  | _ => []
  end.

Definition assign_token (c : ascii) : text := if decide (c = NUL) then $"=" else [c; "="%char].

(** The next character does not extend the operator. *)
Definition separate (o : Op) (t : text) : Prop :=
  match t with
  | [] => True
  | c :: _ => c ≠ "="%char ∧ (o = Add → c ≠ "+"%char) ∧ (o = Subtract → c ≠ "-"%char) ∧
              (o = Multiply → c ≠ "*"%char)
  end.

(** An optional [$] before a name. *)
Definition dollar (d : text) : Prop := d = [] ∨ d = $"$".

(** The texts of an expression: blanks may precede every token. *)
Inductive prints : expr → text → Prop :=
  | pr_num w s v : ws w → prints (Num s v) (w ++ s)
  | pr_var w d n : ws w → dollar d → prints (Var n) (w ++ d ++ n)
  | pr_par w e s w' : ws w → ws w' → prints e s → prints (Par e) (w ++ "("%char :: s ++ w' ++ $")")
  | pr_un w o e s : ws w → prints e s → prints (Un o e) (w ++ unary_char o :: s)
  | pr_bin o l r s w s' : ws w → prints l s → prints r s' → separate o s' →
      prints (Bin o l r) (s ++ w ++ token o ++ s')
  | pr_asg w d c n w' e s : ws w → dollar d → ws w' → prints e s → head s ≠ Some "="%char →
      prints (Asg c n e) (w ++ d ++ n ++ w' ++ assign_token c ++ s).

(** * Meaning *)

Section meaning.
Context `{Long}.

Definition unary_value (o : Op) (v : Z) : option Z :=
  match o with
  | Negate => long_of (- v)
  | Not => Some (truth (v =? 0))
  | _ => Some v
  end.

Definition binary_value (o : Op) (a b : Z) : option (Z + text) :=
  match o with
  | Comma => Some (inl b)
  | Or => Some (inl (truth (negb (a =? 0) || negb (b =? 0))))
  | And => Some (inl (truth (negb (a =? 0) && negb (b =? 0))))
  | Equal => Some (inl (truth (a =? b)))
  | NotEqual => Some (inl (truth (negb (a =? b))))
  | Less => Some (inl (truth (a <? b)))
  | LessEqual => Some (inl (truth (a <=? b)))
  | Greater => Some (inl (truth (b <? a)))
  | GreaterEqual => Some (inl (truth (b <=? a)))
  | Add => inl <$> long_of (a + b)
  | Subtract => inl <$> long_of (a - b)
  | Multiply => inl <$> long_of (a * b)
  | Divide => if b =? 0 then Some (inr ($"division by zero")) else inl <$> long_of (Z.quot a b)
  | Modulo => if b =? 0 then Some (inr ($"division by zero"))
              else (_ ← long_of (Z.quot a b); Some (inl (Z.rem a b)))
  | _ => None
  end.

(** The operator of a compound assignment; a plain one takes the new value. *)
Definition assign_value (c : ascii) (current v : Z) : option (Z + text) :=
  if decide (c = NUL) then Some (inl v)
  else if decide (c = "+"%char) then binary_value Add current v
  else if decide (c = "-"%char) then binary_value Subtract current v
  else if decide (c = "*"%char) then binary_value Multiply current v
  else if decide (c = "/"%char) then binary_value Divide current v
  else if decide (c = "%"%char) then binary_value Modulo current v
  else None.

(** The value of a variable without its leading blanks. *)
Definition var_text (m : gmap text text) (n : text) : text :=
  match m !! n with Some v => drop (span isspace3 v) v | None => [] end.

Inductive res :=
  | RVal (v : Z) (m : gmap text text)
  | RErr (msg : text) (m : gmap text text).

(** The second operand of [||] and [&&] after a first one that decides the value: it is
    evaluated, as the shell does, or skipped, as C does; [harmless d m e] then restricts the
    operands [e] that may be skipped at depth [d] with variables [m]. *)
Inductive second_operand :=
  | Evaluated
  | Skipped (harmless : Z → gmap text text → expr → Prop).
Definition decides (o : Op) (a : Z) : bool :=
  match o with Or => negb (a =? 0) | And => a =? 0 | _ => false end.
Definition needs_second (k : second_operand) (o : Op) (a : Z) : Prop :=
  match k with Evaluated => True | Skipped _ => decides o a = false end.

(** [eval k d m e r]: at nesting depth [d], with variables [m], [e] evaluates to [r].
    Operands are evaluated left to right; a variable's value is itself an expression, one
    level deeper. *)
Inductive eval (k : second_operand) : Z → gmap text text → expr → res → Prop :=
  | ev_num d m s v : eval k d m (Num s v) (RVal v m)
  | ev_var_blank d m n : var_text m n = [] → eval k d m (Var n) (RVal 0 m)
  | ev_var_deep d m n : var_text m n ≠ [] → ARITH_MAX_DEPTH < d + 1 →
      eval k d m (Var n) (RErr ($"arithmetic recursion too deep") m)
  | ev_var d m n e s w r : var_text m n = s ++ w → var_text m n ≠ [] → d + 1 ≤ ARITH_MAX_DEPTH →
      prints e s → ws w → well_formed e → eval k (d + 1) m e r → eval k d m (Var n) r
  | ev_par d m e r : eval k d m e r → eval k d m (Par e) r
  | ev_un d m o e v m' v' : eval k d m e (RVal v m') → unary_value o v = Some v' →
      eval k d m (Un o e) (RVal v' m')
  | ev_un_err d m o e msg m' : eval k d m e (RErr msg m') → eval k d m (Un o e) (RErr msg m')
  | ev_bin d m o l r a m1 b m2 v : eval k d m l (RVal a m1) → needs_second k o a → eval k d m1 r (RVal b m2) →
      binary_value o a b = Some (inl v) → eval k d m (Bin o l r) (RVal v m2)
  | ev_bin_fail d m o l r a m1 b m2 msg : eval k d m l (RVal a m1) → eval k d m1 r (RVal b m2) →
      binary_value o a b = Some (inr msg) → eval k d m (Bin o l r) (RErr msg m2)
  | ev_bin_err_l d m o l r msg m1 : eval k d m l (RErr msg m1) → eval k d m (Bin o l r) (RErr msg m1)
  | ev_bin_err_r d m o l r a m1 msg m2 : eval k d m l (RVal a m1) → needs_second k o a → eval k d m1 r (RErr msg m2) →
      eval k d m (Bin o l r) (RErr msg m2)
  | ev_skip harmless d m o l r a m1 : k = Skipped harmless → eval k d m l (RVal a m1) → decides o a = true →
      harmless d m1 r → eval k d m (Bin o l r) (RVal (truth (negb (a =? 0))) m1)
  | ev_asg_err d m c n e msg m1 : eval k d m e (RErr msg m1) → eval k d m (Asg c n e) (RErr msg m1)
  | ev_asg d m n e v m1 : eval k d m e (RVal v m1) →
      eval k d m (Asg NUL n e) (RVal v (<[n := print_long v]> m1))
  | ev_compound d m c n e v m1 current m2 v' : c ≠ NUL → eval k d m e (RVal v m1) →
      eval k d m1 (Var n) (RVal current m2) → assign_value c current v = Some (inl v') →
      eval k d m (Asg c n e) (RVal v' (<[n := print_long v']> m2))
  | ev_compound_fail d m c n e v m1 current m2 msg : c ≠ NUL → eval k d m e (RVal v m1) →
      eval k d m1 (Var n) (RVal current m2) → assign_value c current v = Some (inr msg) →
      eval k d m (Asg c n e) (RErr msg m2)
  | ev_compound_err d m c n e v m1 msg m2 : c ≠ NUL → eval k d m e (RVal v m1) →
      eval k d m1 (Var n) (RErr msg m2) → eval k d m (Asg c n e) (RErr msg m2).

(** C's semantics, and the part of it where an operand that is skipped could be evaluated as
    well: it has a value and changes no variable. *)
Definition eval_C := eval (Skipped (λ _ _ _, True)).
Definition no_effect (d : Z) (m : gmap text text) (e : expr) : Prop := ∃ b, eval Evaluated d m e (RVal b m).

(** There the two agree. *)
Lemma eval_both d m e r : eval (Skipped no_effect) d m e r → eval Evaluated d m e r.
Proof.
  induction 1; try (by econstructor; eauto).
  match goal with H : Skipped _ = Skipped _ |- _ => injection H as <- end.
  match goal with H : no_effect _ _ _ |- _ => destruct H as [b Hb] end.
  eapply ev_bin; [done|exact I|exact Hb|]. destruct o; try done; cbn in *; destruct (a =? 0); done.
Qed.
Lemma eval_C_harmless d m e r : eval (Skipped no_effect) d m e r → eval_C d m e r.
Proof. induction 1; by econstructor; eauto. Qed.
End meaning.
