(* ===== verification/ArithCorrect.v ===== *)
(** The evaluator of [Arith] computes the reference semantics of [ArithSpec]: every
    text of an expression, blanks and nested variables included, evaluates to what
    its syntax tree means. *)

From S2P Require Import Prelude Text Arith ArithSpec.

(** * Lexical facts *)

(** What may follow an expression in a text, and how tightly it binds: the end, a
    closing parenthesis, or a binary operator. *)
Inductive terminated : Z → text → Prop :=
  | term_end w : ws w → terminated 0 w
  | term_paren w t : ws w → terminated 0 (w ++ ")"%char :: t)
  | term_op w o t : ws w → binary_op o = true → separate o t → terminated (precedence o) (w ++ token o ++ t).

Section lexical.
Implicit Types (i : Input) (w t : text).

Lemma rest_advance n i : rest (advance n i) = drop n (rest i).
Proof. unfold rest, advance. simpl. by rewrite drop_drop. Qed.

Lemma at_0 i : at_ i 0 = default NUL (head (rest i)).
Proof. unfold at_, rest. rewrite <-lookup_drop. by destruct (drop (pos i) (itext i)). Qed.

Lemma at_1 i c t : rest i = c :: t → at_ i 1 = default NUL (head t).
Proof. unfold at_, rest. rewrite <-lookup_drop. intros ->. by destruct t. Qed.

Lemma span_app p w t : Forall (λ c, p c = true) w → span p (w ++ t) = (length w + span p t)%nat.
Proof. induction 1 as [|c w Hc Hw IH]; simpl; [done|]. by rewrite Hc, IH. Qed.

Lemma span_head p t : match t with [] => True | c :: _ => p c = false end → span p t = 0%nat.
Proof. destruct t as [|c t]; simpl; [done|]. by intros ->. Qed.

(** Skipping blanks reaches the next token. *)
Lemma skip_rest i w t :
  ws w → rest i = w ++ t → match t with [] => True | c :: _ => isspace3 c = false end →
  rest (skipWhitespace i) = t.
Proof.
  intros Hw Hi Ht. unfold skipWhitespace. rewrite rest_advance, Hi, span_app by done.
  rewrite span_head, Nat.add_0_r by done. apply drop_app_length.
Qed.

Lemma isspace3_cases c : isspace3 c = true → c = " "%char ∨ c = "009"%char ∨ c = "010"%char.
Proof.
  unfold isspace3. intros H. apply orb_true_iff in H as [H|H]; [apply orb_true_iff in H as [H|H]|];
    apply bool_decide_eq_true in H; auto.
Qed.

(** The first character of a token that may follow an expression is no part of a
    name or a number. *)
Lemma terminated_head q t :
  terminated q t → match t with [] => True | c :: _ => is_name_char c = false ∧ isxdigit c = false end.
Proof.
  assert (∀ w t, ws w → match t with [] => True | c :: _ => is_name_char c = false ∧ isxdigit c = false end →
    match w ++ t with [] => True | c :: _ => is_name_char c = false ∧ isxdigit c = false end) as Hws.
  { intros [|c w] t' Hw Ht; [done|]. simpl. apply Forall_cons in Hw as [Hc _].
    apply isspace3_cases in Hc as [->|[->| ->]]; by split. }
  intros [w Hw|w t' Hw|w o t' Hw Ho Hs].
  - specialize (Hws w [] Hw I). by rewrite app_nil_r in Hws.
  - by apply Hws.
  - apply Hws; [done|]. by destruct o.
Qed.

(** The length of a run of characters before such a token. *)
Lemma span_terminated p q w t :
  Forall (λ c, p c = true) w → terminated q t →
  (∀ c, is_name_char c = false ∧ isxdigit c = false → p c = false) → span p (w ++ t) = length w.
Proof.
  intros Hw Ht Hp. rewrite span_app by done. rewrite span_head; [lia|].
  apply terminated_head in Ht. destruct t; [done|]. by apply Hp.
Qed.

Lemma starts_with_eq tok i : starts_with tok i = bool_decide (take (length tok) (rest i) = tok).
Proof. done. Qed.

(** The operator is recognised. *)
Lemma operator_at_token o i t :
  binary_op o = true → rest i = token o ++ t → separate o t → operator_at i = inl (o, length (token o)).
Proof.
  intros Ho Hi Hs. unfold operator_at. rewrite !starts_with_eq, at_0, Hi.
  destruct o; try done; destruct t as [|c t]; try done; destruct Hs as (H1 & H2 & H3 & H4); simpl;
    try (specialize (H2 eq_refl)); try (specialize (H3 eq_refl)); try (specialize (H4 eq_refl));
    repeat (rewrite bool_decide_false by congruence; simpl); try done;
    repeat (rewrite bool_decide_true by done; simpl); try done.
Qed.

(** The token after the blanks. *)
Inductive token_at : Z → text → Prop :=
  | tk_end : token_at 0 []
  | tk_paren t : token_at 0 (")"%char :: t)
  | tk_op o t : binary_op o = true → separate o t → token_at (precedence o) (token o ++ t).

Lemma terminated_split q t : terminated q t → ∃ w t', t = w ++ t' ∧ ws w ∧ token_at q t'.
Proof.
  intros [w Hw|w t' Hw|w o t' Hw Ho Hs].
  - exists w, []. rewrite app_nil_r. split; [done|]. by split; [|constructor].
  - exists w, (")"%char :: t'). split; [done|]. by split; [|constructor].
  - exists w, (token o ++ t'). split; [done|]. by split; [|constructor].
Qed.

Lemma terminated_ws q w t : ws w → terminated q t → terminated q (w ++ t).
Proof.
  intros Hw [w' Hw'|w' t' Hw'|w' o t' Hw' Ho Hs].
  - constructor. by apply Forall_app.
  - rewrite app_assoc. apply term_paren. by apply Forall_app.
  - rewrite app_assoc. apply term_op; [by apply Forall_app|done|done].
Qed.

Lemma token_at_nonspace q t : token_at q t → match t with [] => True | c :: _ => isspace3 c = false end.
Proof. intros [|t'|o t' Ho _]; [done|done|by destruct o]. Qed.

Lemma blanks_unique w w' t t' :
  ws w → ws w' → w ++ t = w' ++ t' →
  match t with [] => True | c :: _ => isspace3 c = false end →
  match t' with [] => True | c :: _ => isspace3 c = false end → t = t'.
Proof.
  intros Hw Hw' E Ht Ht'. revert w' Hw' E. induction w as [|c w IH]; intros [|c' w'] Hw' E; cbn [app] in E.
  - done.
  - exfalso. apply Forall_cons in Hw' as [Hc _]. rewrite E in Ht. congruence.
  - exfalso. apply Forall_cons in Hw as [Hc _]. rewrite <-E in Ht'. congruence.
  - injection E as -> E. apply Forall_cons in Hw as [_ Hw]. apply Forall_cons in Hw' as [_ Hw']. by eapply IH.
Qed.

(** Nothing that may follow an operand looks like an assignment. *)
Lemma assignment_op_token q t i : token_at q t → rest i = t → assignment_op i = None.
Proof.
  intros Ht Hi. unfold assignment_op. rewrite !starts_with_eq, at_0.
  destruct Ht as [|t|o t Ho Hs].
  - by rewrite Hi.
  - rewrite Hi. simpl. repeat (rewrite bool_decide_false by congruence; simpl). done.
  - destruct o; try done; simpl in Hi; rewrite (at_1 i _ _ Hi), Hi;
      destruct t as [|c t]; try done; destruct Hs as (H1 & _); simpl;
      repeat (rewrite bool_decide_false by congruence; simpl); done.
Qed.
End lexical.

(** * Numbers *)

Class LongLaws `{Long} : Prop := long_in : ∀ z, in_long z = true → long_of z = Some z.

Section numbers.
Context `{LongLaws}.

Lemma foldl_ge (base : Z) (value : ascii → Z) t a :
  1 ≤ base → (∀ c, c ∈ t → 0 ≤ value c) → 0 ≤ a → a ≤ foldl (λ a c, a * base + value c) a t.
Proof.
  intros Hb. revert a. induction t as [|c t IH]; intros a Hv Ha; simpl; [done|].
  specialize (IH (a * base + value c)). assert (0 ≤ value c) by (apply Hv; left).
  etrans; [|apply IH; [intros c' Hc'; apply Hv; by right|nia]]. nia.
Qed.

(** Digits whose value fits are read exactly. *)
Lemma digits_eq p (value : ascii → Z) base a w t q :
  1 ≤ base → Forall (λ c, p c = true) w → (∀ c, p c = true → 0 ≤ value c) → 0 ≤ a →
  terminated q t → (∀ c, is_name_char c = false ∧ isxdigit c = false → p c = false) →
  in_long (foldl (λ a c, a * base + value c) a w) = true →
  digits p value base a (w ++ t) = Some (foldl (λ a c, a * base + value c) a w, length w).
Proof.
  intros Hb Hw Hv Ha Ht Hp. revert a Ha. induction Hw as [|c w Hc Hw IH]; intros a Ha Hin; simpl.
  - apply terminated_head in Ht. destruct t as [|c t]; [done|]. simpl. by rewrite Hp.
  - simpl in Hin. rewrite Hc. assert (0 ≤ value c) as Hvc by auto.
    assert (a * base + value c ≤ foldl (λ a c, a * base + value c) (a * base + value c) w) as Hle.
    { apply foldl_ge; [done| |nia]. intros c' Hc'. apply Hv. by apply (proj1 (Forall_forall _ _) Hw). }
    rewrite long_in; [|unfold in_long, LONG_MIN, LONG_MAX in *; lia]. simpl.
    rewrite IH by (done || nia). done.
Qed.

Lemma isdigit_stop c : is_name_char c = false ∧ isxdigit c = false → isdigit c = false.
Proof. unfold isxdigit. intros [_ Hc]. by destruct (isdigit c). Qed.
Lemma isxdigit_stop c : is_name_char c = false ∧ isxdigit c = false → isxdigit c = false.
Proof. by intros [_ ?]. Qed.
Lemma between_spec lo hi c : between lo hi c = true ↔ code lo ≤ code c ≤ code hi.
Proof. unfold between. rewrite andb_true_iff, !Z.leb_le. done. Qed.
Lemma isodigit_digit c : isodigit c = true → isdigit c = true.
Proof.
  unfold isodigit, isdigit. rewrite !between_spec.
  assert (code "7" = 55 ∧ code "9" = 57) as [-> ->] by done. lia.
Qed.
Lemma isodigit_stop c : is_name_char c = false ∧ isxdigit c = false → isodigit c = false.
Proof.
  intros Hc%isdigit_stop. destruct (isodigit c) eqn:Ho; [|done].
  apply isodigit_digit in Ho. congruence.
Qed.
Lemma dec_digit_pos c : isdigit c = true → 0 ≤ dec_digit c.
Proof. unfold isdigit, dec_digit. rewrite between_spec. lia. Qed.
Lemma hex_digit_pos c : isxdigit c = true → 0 ≤ hex_digit c.
Proof.
  unfold isxdigit, hex_digit. destruct (isdigit c) eqn:Hd; [intros _; by apply dec_digit_pos|].
  rewrite orb_true_iff, orb_false_l. unfold isupper. intros [Hc|Hc].
  - destruct (between "A" "Z" c) eqn:Hu; rewrite ?between_spec in *.
    + assert (code "Z" = 90 ∧ code "a" = 97) as [Ez Ea] by done. lia.
    + lia.
  - assert (between "A" "Z" c = true) as ->; rewrite ?between_spec in *;
      assert (code "F" = 70 ∧ code "Z" = 90 ∧ code "a" = 97 ∧ code "A" = 65) as (Ef & Ez & Ea & EA) by done; lia.
Qed.

(** What [readNumber] does on the text of a constant. *)
Lemma advance_advance a b i : advance a (advance b i) = advance (b + a) i.
Proof. unfold advance. simpl. by rewrite Nat.add_assoc. Qed.

Lemma readDigits_eq p value base i ins w t q s :
  1 ≤ base → Forall (λ c, p c = true) w → (∀ c, p c = true → 0 ≤ value c) →
  (∀ c, is_name_char c = false ∧ isxdigit c = false → p c = false) →
  terminated q t → rest i = w ++ t → tail (inputs s) = ins → in_long (positional base value w) = true →
  readDigits p value base i s =
    Done ((positional base value w, advance (length w) i), set_inputs (advance (length w) i :: ins) s).
Proof.
  intros Hb Hw Hv Hp Ht Hi Hin Hl. unfold readDigits.
  rewrite Hi, (digits_eq p value base 0 w t q) by done.
  unfold put_input, modify, mbind, M_bind, mret, M_ret. by rewrite Hin.
Qed.

Lemma terminated_first q t : terminated q t → isdigit (default NUL (head t)) = false ∧ is_name_char (default NUL (head t)) = false.
Proof.
  intros Ht%terminated_head. destruct t as [|c t]; simpl; [done|].
  split; [by apply isdigit_stop|apply Ht].
Qed.

Lemma readNumber_literal i ins l v t q s :
  literal l v → terminated q t → rest i = l ++ t → inputs s = i :: ins →
  readNumber i s = Done (v, set_inputs (advance (length l) i :: ins) s).
Proof.
  intros Hlit Ht Hi Hin. destruct (terminated_first q t Ht) as [Hd Hn]. unfold readNumber. rewrite at_0.
  destruct Hlit as [l v Hne Hl Hz <- Hv|x l v Hx Hne Hl <- Hv|l v Hne Hl <- Hv].
  - destruct l as [|c l]; [done|]. pose proof (at_1 i c (l ++ t) Hi) as ->. rewrite Hi. cbn [head app default from_option id].
    assert ((bool_decide (c = "0"%char) && (bool_decide (default NUL (head (l ++ t)) = "x"%char) ||
      bool_decide (default NUL (head (l ++ t)) = "X"%char)))%bool = false ∧
      (bool_decide (c = "0"%char) && isdigit (default NUL (head (l ++ t))))%bool = false) as [-> ->].
    { destruct Hz as [Hz|Hz].
      - rewrite bool_decide_false by (simpl in Hz; congruence). done.
      - destruct l; [|done]. cbn [app]. rewrite Hd, !(bool_decide_false (default NUL (head t) = _)), !andb_false_r; [done|..];
          intros Hx; by rewrite Hx in Hn. }
    pose proof (readDigits_eq isdigit dec_digit 10 i ins (c :: l) t q s ltac:(lia) Hl dec_digit_pos
      isdigit_stop Ht Hi ltac:(by rewrite Hin) Hv) as E. by rewrite (bind_eq _ _ _ _ _ E).
  - rewrite (at_1 i _ _ Hi), Hi. cbn [head app default from_option id].
    assert ((bool_decide (x = "x"%char) || bool_decide (x = "X"%char))%bool = true) as Hb
      by by destruct Hx as [->| ->].
    rewrite (bool_decide_true ("0"%char = "0"%char)), Hb by done. cbn [andb].
    set (j := advance 2 i). assert (rest j = l ++ t) as Hj by (unfold j; by rewrite rest_advance, Hi).
    rewrite (bind_eq _ _ _ tt (set_inputs (j :: ins) s)) by (unfold put_input, modify; by rewrite Hin).
    rewrite at_0, Hj. destruct l as [|c l]; [done|]. cbn [head app default from_option id].
    pose proof Hl as Hl'. apply Forall_cons in Hl' as [-> _]. cbn [negb].
    pose proof (readDigits_eq isxdigit hex_digit 16 j ins (c :: l) t q (set_inputs (j :: ins) s)
      ltac:(lia) Hl hex_digit_pos isxdigit_stop Ht Hj eq_refl Hv) as E.
    rewrite (bind_eq _ _ _ _ _ E). unfold j. by rewrite advance_advance.
  - rewrite (at_1 i _ _ Hi), Hi. cbn [head app default from_option id].
    set (j := advance 1 i). assert (rest j = l ++ t) as Hj by (unfold j; by rewrite rest_advance, Hi).
    destruct l as [|c l]; [done|]. cbn [head app default from_option id].
    pose proof Hl as Hl'. apply Forall_cons in Hl' as [Hc _]. pose proof (isodigit_digit c Hc) as Hcd.
    rewrite !(bool_decide_false (c = _)), (bool_decide_true ("0"%char = "0"%char)), Hcd
      by (done || intros ->; done). cbn [andb orb].
    pose proof (readDigits_eq isodigit dec_digit 8 j ins (c :: l) t q s ltac:(lia) Hl
      (λ c Hc, dec_digit_pos c (isodigit_digit c Hc)) isodigit_stop Ht Hj ltac:(by rewrite Hin) Hv) as E.
    rewrite (bind_eq _ _ _ _ _ E). cbn beta iota.
    rewrite at_0, rest_advance, Hj, drop_app_length.
    rewrite !(bool_decide_false (default _ _ = _)) by (intros Hx; by rewrite Hx in Hd).
    cbn [orb]. unfold j. rewrite advance_advance. done.
Qed.
End numbers.

(** * Names *)

Lemma at_head i c t : rest i = c :: t → at_ i 0 = c.
Proof. rewrite at_0. by intros ->. Qed.

Lemma identifier_eq i n t :
  is_name n → rest i = n ++ t → match t with [] => True | c :: _ => is_name_char c = false end →
  identifier_length i = length n ∧ identifier i = n ∧ is_name_start (at_ i 0) = true.
Proof.
  intros [(c & n' & -> & Hc) Hn] Hi Ht.
  assert (identifier_length i = length (c :: n')) as Hl.
  { unfold identifier_length. rewrite Hi, span_app by done. rewrite span_head by by destruct t. lia. }
  split; [done|]. split.
  - unfold identifier. rewrite Hl, Hi. apply take_app_length.
  - by rewrite (at_head i c (n' ++ t)).
Qed.

(** The first character of a name or a number starts no other operand. *)
Lemma operand_char c :
  c = "$"%char ∨ is_name_start c = true ∨ isdigit c = true →
  c ≠ "("%char ∧ c ≠ "+"%char ∧ c ≠ "-"%char ∧ c ≠ "!"%char ∧ isspace3 c = false.
Proof.
  intros Hc. split_and!; try (intros ->; naive_solver).
  destruct (isspace3 c) eqn:Hs; [|done]. apply isspace3_cases in Hs as [->|[->| ->]]; naive_solver.
Qed.

Lemma name_start_not c : is_name_start c = true → c ≠ "$"%char ∧ isdigit c = false.
Proof.
  intros Hc. split; [by intros ->|]. unfold is_name_start, isalpha, isupper, islower in Hc.
  destruct (isdigit c) eqn:Hd; [|done]. unfold isdigit in Hd. apply between_spec in Hd.
  assert (code "0" = 48 ∧ code "9" = 57) as [E0 E9] by done.
  rewrite !orb_true_iff, !between_spec, bool_decide_eq_true in Hc.
  assert (code "A" = 65 ∧ code "a" = 97) as [EA Ea] by done.
  destruct Hc as [[Hc|Hc]| ->]; [lia..|]. assert (code "_" = 95) by done. lia.
Qed.

(** * Runs of the machine *)

Section machine.
Context `{LongLaws}.
Implicit Types (m : gmap text text) (i : Input) (ins : list Input) (os : list Operator)
  (vals : list Z) (s : evaluator) (t w : text).

Definition reaches : relation evaluator := rtc (λ s s', error s = None ∧ step s = Done (true, s')).

(** The outcome [r] is reached from [s]: the value in a state that satisfies [K], or
    the error. *)
Definition ends (r : res) (K : Z → gmap text text → evaluator → Prop) s : Prop :=
  match r with
  | RVal v m => ∃ s', reaches s s' ∧ K v m s'
  | RErr msg m => ∃ s', reaches s s' ∧ error s' = Some msg ∧ vars s' = m
  end.

Lemma ends_reach r K s s' : reaches s s' → ends r K s' → ends r K s.
Proof.
  intros Hr. destruct r; simpl; intros (s'' & Hr' & Hk); exists s''; (split; [by etrans|done]).
Qed.

Lemma ends_bind r r' K K' s :
  ends r K s → (∀ v m s', r = RVal v m → K v m s' → ends r' K' s') →
  (∀ msg m, r = RErr msg m → r' = RErr msg m) → ends r' K' s.
Proof.
  destruct r as [v m|msg m]; simpl.
  - intros (s' & Hr & Hk) Hv _. eapply ends_reach; [exact Hr|]. by eapply Hv.
  - intros Hs _ He. by rewrite (He msg m eq_refl).
Qed.

Lemma reach_step s s' : error s = None → step s = Done (true, s') → reaches s s'.
Proof. intros He Hs. by apply rtc_once. Qed.

(** Between tokens: [t] is left to read up to blanks, and nothing is pending above
    [os]. *)
Definition at_state m t (d : Z) ins os vals s : Prop :=
  ∃ i a w, s = Evaluator m (i :: ins) os vals None false a ∧ depth i = d ∧ ws w ∧ t = w ++ rest i.

Definition operand_state m i ins os vals (a : bool) : evaluator :=
  Evaluator m (i :: ins) os vals None true a.

Lemma step_operand m i ins os vals a :
  step (operand_state m i ins os vals a) =
    (readOperand (skipWhitespace i);; mret true) (operand_state m (skipWhitespace i) ins os vals a).
Proof. done. Qed.

Lemma step_between m i ins os vals a :
  step (Evaluator m (i :: ins) os vals None false a) =
    (if bool_decide (at_ (skipWhitespace i) 0 = NUL) then endOfInput
     else readOperator (skipWhitespace i);; mret true)
    (Evaluator m (skipWhitespace i :: ins) os vals None false a).
Proof. done. Qed.

(** The blanks that are left can be split in any way. *)
Lemma at_skip m t d q ins os vals s :
  at_state m t d ins os vals s → terminated q t →
  ∃ i a w, s = Evaluator m (i :: ins) os vals None false a ∧ depth i = d ∧ ws w ∧
    t = w ++ rest (skipWhitespace i) ∧ token_at q (rest (skipWhitespace i)).
Proof.
  intros (i & a & w & -> & Hd & Hw & ->) Ht.
  destruct (terminated_split _ _ Ht) as (w' & t' & He & Hw' & Htok).
  assert (∃ w1, ws w1 ∧ rest i = w1 ++ t') as (w1 & Hw1 & Hi).
  { clear -He Hw Hw' Htok. revert w' He Hw'.
    induction w as [|c w IH]; intros w' He Hw'; [by exists w'|].
    apply Forall_cons in Hw as [Hc Hw]. destruct w' as [|c' w'].
    - apply token_at_nonspace in Htok. simpl in He. rewrite <-He in Htok. congruence.
    - injection He as -> He. apply Forall_cons in Hw' as [_ Hw']. by eapply IH. }
  assert (rest (skipWhitespace i) = t') as Hj by (by eapply skip_rest; [..|by eapply token_at_nonspace]).
  exists i, a, (w ++ w1). rewrite Hj. split; [done|]. split; [done|]. split; [by apply Forall_app|].
  split; [|done]. by rewrite Hi, app_assoc.
Qed.

(** Reducing: what follows binds no tighter than the pending operator. *)
Lemma step_reduce m t d q ins o os vals s :
  at_state m t d ins (o :: os) vals s → terminated q t → isMarker (op o) = false → q ≤ precedence (op o) →
  ∃ i a w, depth i = d ∧ ws w ∧ t = w ++ rest i ∧ error s = None ∧
    step s = (reduce;; mret true) (Evaluator m (i :: ins) (o :: os) vals None false a).
Proof.
  intros Hs Ht Ho Hq. destruct (at_skip _ _ _ _ _ _ _ _ Hs Ht) as (i & a & w & -> & Hd & Hw & -> & Htok).
  exists (skipWhitespace i), a, w. split; [done|]. split; [done|]. split; [done|]. split; [done|].
  rewrite step_between. set (j := skipWhitespace i) in *.
  set (s := Evaluator m (j :: ins) (o :: os) vals None false a).
  assert (pending_op s = Some (op o)) as Hp by (unfold pending_op; simpl; by rewrite Ho).
  rewrite at_0. remember (rest j) as t' eqn:Hj. destruct Htok as [|t0|o' t0 Ho' Hs'].
  - rewrite bool_decide_true by done. unfold endOfInput.
    by rewrite (bind_eq _ _ _ (Some (op o)) s) by (unfold gets; by rewrite Hp).
  - rewrite bool_decide_false by done. unfold readOperator.
    rewrite at_0, <-Hj. unfold mbind, M_bind, gets. rewrite Hp. rewrite bool_decide_true by done. done.
  - rewrite bool_decide_false by by destruct o'.
    unfold readOperator. rewrite at_0, <-Hj. unfold mbind, M_bind, gets. rewrite Hp.
    rewrite bool_decide_false by by destruct o'.
    rewrite (operator_at_token o' j t0) by done.
    by rewrite (proj2 (Z.leb_le _ _) Hq).
Qed.

(** Nothing on the stack has to be reduced before an operator of level [l]. *)
Definition top_ok (l : Z) os : Prop :=
  match os with [] => True | o :: _ => isMarker (op o) = true ∨ precedence (op o) < l end.

(** Shifting a binary operator. *)
Lemma step_shift m w o t d ins os vals s :
  at_state m (w ++ token o ++ t) d ins os vals s → ws w → binary_op o = true → separate o t →
  top_ok (precedence o) os →
  ∃ i, depth i = d ∧ rest i = t ∧ reaches s (operand_state m i ins (plain_op o :: os) vals (bool_decide (o = Comma))).
Proof.
  intros Hs Hw Ho Hsep Htop.
  destruct (at_skip _ _ _ (precedence o) _ _ _ _ Hs) as (i & a & w' & -> & Hd & Hw' & Ht & Htok);
    [by constructor|].
  set (j := skipWhitespace i) in *.
  assert (rest j = token o ++ t) as Hj.
  { symmetry. eapply (blanks_unique w w'); [done..| |by eapply token_at_nonspace]. by destruct o. }
  exists (advance (length (token o)) j). split; [done|]. split; [by rewrite rest_advance, Hj, drop_app_length|].
  apply reach_step; [done|]. rewrite step_between. fold j. rewrite at_0, Hj.
  rewrite bool_decide_false by by destruct o. unfold readOperator. rewrite at_0, Hj.
  set (s := Evaluator m (j :: ins) os vals None false a).
  rewrite (bool_decide_false (default NUL (head (token o ++ t)) = ")"%char)) by by destruct o.
  rewrite (operator_at_token o j t) by done. unfold mbind, M_bind, gets.
  assert ((match pending_op s with Some q => precedence o <=? precedence q | None => false end) = false) as ->.
  { unfold pending_op. simpl. destruct os as [|o' os']; [done|]. destruct (isMarker (op o')) eqn:Hm; [done|].
    destruct Htop as [Hm'|Hlt]; [congruence|]. apply Z.leb_gt. lia. }
  done.
Qed.

(** * Reading operands *)

Lemma bind_cong {A B} (n n' : M evaluator A) (f : A → M evaluator B) s s' :
  n s = n' s' → (n ≫= f) s = (n' ≫= f) s'.
Proof. unfold mbind, M_bind. by intros ->. Qed.

Lemma bind_cong' (n : M evaluator unit) s s' :
  n s = Done (tt, s') → (n;; mret true) s = Done (true, s').
Proof. unfold mbind, M_bind. by intros ->. Qed.

Lemma skip_to i w c t : ws w → rest i = w ++ c :: t → isspace3 c = false →
  rest (skipWhitespace i) = c :: t ∧ at_ (skipWhitespace i) 0 = c.
Proof.
  intros Hw Hi Hc. assert (rest (skipWhitespace i) = c :: t) as Hj by by eapply skip_rest.
  split; [done|]. by eapply at_head.
Qed.

Lemma read_paren m i ins os vals a w t :
  ws w → rest i = w ++ "("%char :: t →
  ∃ i', depth i' = depth i ∧ rest i' = t ∧
    step (operand_state m i ins os vals a) = Done (true, operand_state m i' ins (plain_op LeftParen :: os) vals true).
Proof.
  intros Hw Hi. destruct (skip_to i w _ t Hw Hi eq_refl) as [Hj Hc].
  exists (advance 1 (skipWhitespace i)). split; [done|]. split; [by rewrite rest_advance, Hj|].
  rewrite step_operand. unfold readOperand. rewrite Hc. done.
Qed.

Lemma read_unary m i ins os vals a w o t :
  ws w → isUnary o = true → rest i = w ++ unary_char o :: t →
  ∃ i', depth i' = depth i ∧ rest i' = t ∧
    step (operand_state m i ins os vals a) = Done (true, operand_state m i' ins (plain_op o :: os) vals false).
Proof.
  intros Hw Ho Hi. destruct (skip_to i w _ t Hw Hi) as [Hj Hc]; [by destruct o|].
  exists (advance 1 (skipWhitespace i)). split; [done|]. split; [by rewrite rest_advance, Hj|].
  rewrite step_operand. unfold readOperand. rewrite Hc. by destruct o.
Qed.

(** The position after an optional [$]. *)
Definition past_dollar i : Input := if bool_decide (at_ i 0 = "$"%char) then advance 1 i else i.

Lemma past_dollar_eq i d n t :
  dollar d → is_name n → rest i = d ++ n ++ t →
  rest (past_dollar i) = n ++ t ∧ depth (past_dollar i) = depth i ∧
  (at_ i 0 = "$"%char ∨ is_name_start (at_ i 0) = true).
Proof.
  intros [->| ->] [(c & n' & -> & Hc) _] Hi; unfold past_dollar; cbn [app] in Hi.
  - rewrite (at_head i _ _ Hi). rewrite bool_decide_false by by apply name_start_not. auto.
  - rewrite (at_head i _ _ Hi), bool_decide_true by done. rewrite rest_advance, Hi. auto.
Qed.

Lemma tryAssignment_no i d n t q s :
  dollar d → is_name n → rest i = d ++ n ++ t → terminated q t → tryAssignment i s = Done (false, s).
Proof.
  intros Hd Hn Hi Ht. destruct (past_dollar_eq i d n t Hd Hn Hi) as (Hj & _ & _).
  unfold tryAssignment. fold (past_dollar i). set (j := past_dollar i) in *.
  pose proof (terminated_head _ _ Ht) as Hh.
  destruct (identifier_eq j n t Hn Hj) as (Hl & _ & Hs); [destruct t; [done|apply Hh]|].
  rewrite Hs. cbn [negb]. rewrite Hl.
  destruct (terminated_split _ _ Ht) as (w & t' & -> & Hw & Htok).
  assert (rest (skipWhitespace (advance (length n) j)) = t') as Hk.
  { eapply skip_rest; [exact Hw| |by eapply token_at_nonspace]. by rewrite rest_advance, Hj, drop_app_length. }
  by rewrite (assignment_op_token _ _ _ Htok Hk).
Qed.

Lemma read_var m i ins os vals a w d n t q :
  ws w → dollar d → is_name n → rest i = w ++ d ++ n ++ t → terminated q t →
  ∃ i', depth i' = depth i ∧ rest i' = t ∧
    step (operand_state m i ins os vals a) =
      (deref n pushOperand (plain_op Deref);; mret true) (operand_state m i' ins os vals a).
Proof.
  intros Hw Hd Hn Hi Ht. pose proof (terminated_head _ _ Ht) as Hh.
  assert (rest (skipWhitespace i) = d ++ n ++ t) as Hj.
  { eapply skip_rest; [exact Hw|exact Hi|]. destruct Hd as [->| ->]; [|done].
    destruct Hn as [(c & n' & -> & Hc) _]. simpl. by apply operand_char; auto. }
  set (j := skipWhitespace i) in *.
  destruct (past_dollar_eq j d n t Hd Hn Hj) as (Hk & Hkd & Hc).
  destruct (operand_char (at_ j 0)) as (C1 & C2 & C3 & C4 & _); [naive_solver|].
  destruct (identifier_eq (past_dollar j) n t Hn Hk) as (Hl & Hid & Hs); [destruct t; [done|apply Hh]|].
  exists (advance (length n) (past_dollar j)). split; [exact Hkd|].
  split; [by rewrite rest_advance, Hk, drop_app_length|].
  rewrite step_operand. fold j. set (s := operand_state m j ins os vals a).
  apply bind_cong. unfold readOperand. cbv zeta. fold (past_dollar j).
  rewrite !(bool_decide_false (at_ j 0 = _)) by done.
  rewrite (bind_eq _ _ s a s eq_refl).
  assert ((if a then tryAssignment j else mret false) s = Done (false, s)) as Htry
    by (destruct a; [by eapply tryAssignment_no|done]).
  rewrite (bind_eq _ _ _ _ _ Htry).
  destruct (name_start_not _ Hs) as [_ Hdig].
  rewrite (bind_eq _ _ s tt (operand_state m (past_dollar j) ins os vals a) eq_refl).
  rewrite Hdig, Hs. rewrite Hl, Hid.
  reflexivity.
Qed.

Lemma read_num m i ins os vals a w l v t q :
  ws w → literal l v → rest i = w ++ l ++ t → terminated q t →
  ∃ i', depth i' = depth i ∧ rest i' = t ∧
    step (operand_state m i ins os vals a) = Done (true, Evaluator m (i' :: ins) os (v :: vals) None false false).
Proof.
  intros Hw Hl Hi Ht.
  assert (∃ c l', l = c :: l' ∧ isdigit c = true) as (c & l' & El & Hc).
  { destruct Hl as [l v Hne Hl _ _ _|x l v _ _ _ _ _|l v _ _ _ _].
    - destruct l as [|c l]; [done|]. apply Forall_cons in Hl as [Hc _]. by exists c, l.
    - by do 2 eexists. - by do 2 eexists. }
  destruct (operand_char c) as (C1 & C2 & C3 & C4 & Csp); [auto|].
  assert (rest (skipWhitespace i) = l ++ t ∧ at_ (skipWhitespace i) 0 = c) as [Hj Hc0].
  { rewrite El in Hi |- *. by apply (skip_to i w). }
  set (j := skipWhitespace i) in *. exists (advance (length l) j). split; [done|].
  split; [by rewrite rest_advance, Hj, drop_app_length|].
  assert (c ≠ "$"%char ∧ is_name_start c = false) as [Hnd Hns].
  { split; [by intros ->|]. destruct (is_name_start c) eqn:E; [|done]. apply name_start_not in E as [_ E]. congruence. }
  assert (past_dollar j = j) as Hpd by (unfold past_dollar; by rewrite Hc0, bool_decide_false).
  rewrite step_operand. fold j. set (s := operand_state m j ins os vals a).
  apply bind_cong'. unfold readOperand. cbv zeta. fold (past_dollar j). rewrite Hpd, Hc0, !bool_decide_false by done.
  rewrite (bind_eq _ _ s a s eq_refl).
  assert ((if a then tryAssignment j else mret false) s = Done (false, s)) as Htry.
  { destruct a; [|done]. unfold tryAssignment. fold (past_dollar j). by rewrite Hpd, Hc0, Hns. }
  rewrite (bind_eq _ _ _ _ _ Htry).
  rewrite (bind_eq _ _ s tt s eq_refl). rewrite Hc.
  by rewrite (bind_eq _ _ _ _ _ (readNumber_literal j ins l v t q s Hl Ht Hj eq_refl)).
Qed.

Lemma read_asg m i ins os vals w d c n w' t :
  ws w → dollar d → is_name n → ws w' → is_assign_char c → head t ≠ Some "="%char →
  rest i = w ++ d ++ n ++ w' ++ assign_token c ++ t →
  ∃ i', depth i' = depth i ∧ rest i' = t ∧
    step (operand_state m i ins os vals true) =
      Done (true, operand_state m i' ins ({| op := Assign; assign := c; name := n; rhs := 0 |} :: os) vals true).
Proof.
  intros Hw Hd Hn Hw' Hc Ht Hi.
  assert (rest (skipWhitespace i) = d ++ n ++ w' ++ assign_token c ++ t) as Hj.
  { eapply skip_rest; [exact Hw|exact Hi|]. destruct Hd as [->| ->]; [|done].
    destruct Hn as [(x & n' & -> & Hx) _]. simpl. by apply operand_char; auto. }
  set (j := skipWhitespace i) in *.
  destruct (past_dollar_eq j d n _ Hd Hn Hj) as (Hk & Hkd & Hx).
  destruct (operand_char (at_ j 0)) as (C1 & C2 & C3 & C4 & _); [naive_solver|].
  assert (match assign_token c ++ t with [] => True | x :: _ => is_name_char x = false ∧ isspace3 x = false end) as Hop.
  { unfold is_assign_char in Hc. rewrite !elem_of_cons in Hc.
    destruct Hc as [->|[->|[->|[->|[->|[->|Hc%not_elem_of_nil]]]]]]; try done; by split. }
  destruct (identifier_eq (past_dollar j) n (w' ++ assign_token c ++ t) Hn Hk) as (Hl & Hid & Hs).
  { destruct w' as [|x w']; simpl; [destruct (assign_token c ++ t); [done|apply Hop]|].
    apply Forall_cons in Hw' as [Hx' _]. by apply isspace3_cases in Hx' as [->|[->| ->]]. }
  set (k := skipWhitespace (advance (length n) (past_dollar j))).
  assert (rest k = assign_token c ++ t) as Hk'.
  { eapply skip_rest; [exact Hw'| |destruct (assign_token c ++ t); [done|apply Hop]].
    by rewrite rest_advance, Hk, drop_app_length. }
  assert (assignment_op k = Some (c, length (assign_token c))) as Hasg.
  { clear -Hc Hk' Ht. unfold assignment_op. rewrite !starts_with_eq.
    unfold is_assign_char in Hc. rewrite !elem_of_cons in Hc.
    destruct Hc as [->|[->|[->|[->|[->|[->|Hc%not_elem_of_nil]]]]]]; [..|done]; rewrite Hk';
      try (repeat (first [rewrite bool_decide_true by done|rewrite bool_decide_false by (simpl; congruence)]); done).
    change (assign_token NUL ++ t) with ("="%char :: t) in *.
    rewrite (at_head k _ _ Hk'), (at_1 k _ _ Hk').
    rewrite (bool_decide_true ("="%char = "="%char)) by done.
    rewrite (bool_decide_false (default NUL (head t) = _)) by (destruct t; [done|]; intros E; apply Ht; simpl in E |- *; congruence).
    repeat rewrite bool_decide_false by (simpl; destruct t; simpl; congruence). done. }
  exists (advance (length (assign_token c)) k). split; [exact Hkd|].
  split; [by rewrite rest_advance, Hk', drop_app_length|].
  rewrite step_operand. fold j. set (s := operand_state m j ins os vals true).
  apply bind_cong'. unfold readOperand. cbv zeta. fold (past_dollar j).
  rewrite !(bool_decide_false (at_ j 0 = _)) by done.
  rewrite (bind_eq _ _ s true s eq_refl).
  assert (tryAssignment j s = Done (true, operand_state m (advance (length (assign_token c)) k) ins
    ({| op := Assign; assign := c; name := n; rhs := 0 |} :: os) vals true)) as Htry.
  { unfold tryAssignment. fold (past_dollar j). rewrite Hs. cbn [negb]. rewrite Hl. fold k. by rewrite Hasg, Hid. }
  by rewrite (bind_eq _ _ _ _ _ Htry).
Qed.

(** * Ends of steps *)

Lemma ends_step r K s s' : error s = None → step s = Done (true, s') → ends r K s' → ends r K s.
Proof. intros He Hs. apply ends_reach. by apply reach_step. Qed.

Lemma ends_value (v : Z) m (K : Z → gmap text text → evaluator → Prop) s : K v m s → ends (RVal v m) K s.
Proof. intros Hk. by exists s. Qed.

Lemma ends_error msg m K s : error s = Some msg → vars s = m → ends (RErr msg m) K s.
Proof. intros He Hv. by exists s. Qed.

(** A step whose only effect is one command. *)
Lemma ends_command r K s (n : M evaluator unit) s1 s2 :
  error s = None → step s = (n;; mret true) s1 → n s1 = Done (tt, s2) → ends r K s2 → ends r K s.
Proof. intros He Hs Hn. apply ends_step; [done|]. rewrite Hs. by apply bind_cong'. Qed.

Lemma prints_nonempty e (s : text) : prints e s → well_formed e → s ≠ [].
Proof.
  intros Hp. induction Hp as [w s v Hw|w d n Hw Hd|w e s w' Hw Hw' Hp IH|w o e s Hw Hp IH
    |o l r s w s' Hw Hp IH Hp' IH' Hs|w d c n w' e s Hw Hd Hw' Hp IH He]; simpl; intros Hwf.
  - intros [_ ->]%app_eq_nil. by inversion Hwf.
  - intros [_ [_ ->]%app_eq_nil]%app_eq_nil. by destruct Hwf as [(c & t & ? & _) _].
  - by intros [_ ?]%app_eq_nil.
  - by intros [_ ?]%app_eq_nil.
  - destruct Hwf as (_ & _ & _ & Hl & _). intros [-> _]%app_eq_nil. by apply IH.
  - destruct Hwf as (_ & [(x & t & -> & _) _] & _). intros [_ [_ ?]%app_eq_nil]%app_eq_nil. done.
Qed.

(** * Values of operators *)

Lemma long_done z v s : long_of z = Some v → long z s = Done (v, s).
Proof. unfold long. by intros ->. Qed.

Lemma fail_done msg s : error s = None → fail msg s = Done (tt, set_error (Some msg) s).
Proof. unfold fail, modify. by intros ->. Qed.

Lemma long_value z v : inl <$> long_of z = Some (inl v : Z + text) → long_of z = Some v.
Proof. intros Hz. apply fmap_Some in Hz as (x & -> & Hx). congruence. Qed.
Lemma long_no_error z msg : ¬ (inl <$> long_of z = Some (inr msg : Z + text)).
Proof. intros Hz. apply fmap_Some in Hz as (x & _ & ?). done. Qed.

Lemma binary_value_inl o l r v s : binary_value o l r = Some (inl v) → binary o l r s = Done (Some v, s).
Proof.
  destruct o; cbn [binary_value binary]; intros Hv; try done; try (injection Hv as <-; reflexivity);
    try (apply long_value in Hv; by rewrite (bind_eq _ _ _ _ _ (long_done _ _ s Hv)));
    destruct (r =? 0) eqn:Hr; try done.
  - apply long_value in Hv. by rewrite (bind_eq _ _ _ _ _ (long_done _ _ s Hv)).
  - apply bind_Some in Hv as (x & Hx & [= <-]). by rewrite (bind_eq _ _ _ _ _ (long_done _ _ s Hx)).
Qed.

Lemma binary_value_inr o l r msg s :
  error s = None → binary_value o l r = Some (inr msg) → binary o l r s = Done (None, set_error (Some msg) s).
Proof.
  intros He. destruct o; cbn [binary_value binary]; intros Hv; try done; try (by apply long_no_error in Hv);
    destruct (r =? 0) eqn:Hr; try (by apply long_no_error in Hv).
  - injection Hv as <-. by rewrite (bind_eq _ _ _ _ _ (fail_done _ _ He)).
  - injection Hv as <-. by rewrite (bind_eq _ _ _ _ _ (fail_done _ _ He)).
  - by apply bind_Some in Hv as (x & _ & ?).
Qed.

Lemma apply_inl c cur r v s : is_assign_char c → assign_value c cur r = Some (inl v) → apply c cur r s = Done (v, s).
Proof.
  unfold is_assign_char, assign_value, apply. rewrite !elem_of_cons. intros Hc Hv.
  destruct Hc as [->|[->|[->|[->|[->|[->|Hc%not_elem_of_nil]]]]]]; [..|done]; simpl in Hv |- *;
    try (by injection Hv as <-); try (apply long_done; by apply long_value);
    destruct (r =? 0) eqn:Hr; try done.
  - by apply long_done, long_value.
  - apply bind_Some in Hv as (x & Hx & [= <-]). by rewrite (bind_eq _ _ _ _ _ (long_done _ _ s Hx)).
Qed.

Lemma apply_inr c cur r msg s :
  is_assign_char c → error s = None → assign_value c cur r = Some (inr msg) →
  apply c cur r s = Done (0, set_error (Some msg) s).
Proof.
  unfold is_assign_char, assign_value, apply. rewrite !elem_of_cons. intros Hc He Hv.
  destruct Hc as [->|[->|[->|[->|[->|[->|Hc%not_elem_of_nil]]]]]]; [..|done]; simpl in Hv |- *;
    try done; try (by apply long_no_error in Hv);
    destruct (r =? 0) eqn:Hr; try (by apply long_no_error in Hv).
  - injection Hv as <-. by rewrite (bind_eq _ _ _ _ _ (fail_done _ _ He)).
  - injection Hv as <-. by rewrite (bind_eq _ _ _ _ _ (fail_done _ _ He)).
  - by apply bind_Some in Hv as (x & _ & ?).
Qed.

Lemma finish_inl n c cur r v m i ins os vals e a :
  is_assign_char c → assign_value c cur r = Some (inl v) →
  finishAssignment n c cur r (Evaluator m (i :: ins) os vals None e a) =
    Done (tt, Evaluator (<[n := print_long v]> m) (i :: ins) os (v :: vals) None false false).
Proof. intros Hc Hv. unfold finishAssignment. by rewrite (bind_eq _ _ _ _ _ (apply_inl _ _ _ _ _ Hc Hv)). Qed.

Lemma finish_inr n c cur r msg m ins os vals e a :
  is_assign_char c → assign_value c cur r = Some (inr msg) →
  finishAssignment n c cur r (Evaluator m ins os vals None e a) =
    Done (tt, Evaluator m ins os vals (Some msg) e a).
Proof.
  intros Hc Hv. unfold finishAssignment. set (s := Evaluator m ins os vals None e a).
  by rewrite (bind_eq _ _ _ _ _ (apply_inr _ _ _ _ s Hc eq_refl Hv)).
Qed.

(** * Variables *)

(** The states a variable's value is evaluated in: the value is an input of its own
    above a marker. *)
Definition nested m n d k i ins os vals : evaluator :=
  operand_state m {| itext := var_text m n; pos := 0; depth := d + 1 |} (i :: ins) (k :: os) vals true.

(** The value of the nested text is left on the stack, with the marker still there. *)
Definition nested_end k i ins os vals (v : Z) m s : Prop :=
  ∃ j a, s = Evaluator m (j :: i :: ins) (k :: os) (v :: vals) None false a ∧ rest (skipWhitespace j) = [].

Definition nested_run (d : Z) m n r : Prop :=
  (var_text m n = [] ∧ r = RVal 0 m) ∨
  (var_text m n ≠ [] ∧ ARITH_MAX_DEPTH < d + 1 ∧ r = RErr ($"arithmetic recursion too deep") m) ∨
  (var_text m n ≠ [] ∧ d + 1 ≤ ARITH_MAX_DEPTH ∧ ∀ k i ins os vals, isMarker (op k) = true →
     ends r (nested_end k i ins os vals) (nested m n d k i ins os vals)).

Lemma deref_blank m n f k i ins os vals e a :
  var_text m n = [] →
  deref n f k (Evaluator m (i :: ins) os vals None e a) = f 0 (Evaluator m (i :: ins) os vals None e a).
Proof. unfold var_text. intros Hv. unfold deref, sh_get, mbind, M_bind, gets. simpl. by rewrite Hv. Qed.

Lemma deref_deep m n f k i ins os vals e a :
  var_text m n ≠ [] → ARITH_MAX_DEPTH < depth i + 1 →
  deref n f k (Evaluator m (i :: ins) os vals None e a) =
    Done (tt, Evaluator m (i :: ins) os vals (Some ($"arithmetic recursion too deep")) e a).
Proof.
  unfold var_text. intros Hv Hd%Z.ltb_lt. unfold deref, sh_get, top_input, mbind, M_bind, gets. cbn beta iota delta [vars inputs].
  destruct (match m !! n with Some _ => _ | None => _ end); [done|]. cbn beta iota delta [inputs mret M_ret]. by rewrite Hd.
Qed.

Lemma deref_nested m n f k i ins os vals e a :
  var_text m n ≠ [] → depth i + 1 ≤ ARITH_MAX_DEPTH →
  deref n f k (Evaluator m (i :: ins) os vals None e a) = Done (tt, nested m n (depth i) k i ins os vals).
Proof.
  unfold nested, operand_state. intros Hv Hd%Z.ltb_ge. unfold deref, sh_get, top_input, mbind, M_bind, gets. cbn beta iota delta [vars inputs].
  unfold var_text in *.
  destruct (match m !! n with Some _ => _ | None => _ end); [done|]. cbn beta iota delta [inputs mret M_ret]. by rewrite Hd.
Qed.

(** At the end of a nested input its marker is popped. *)
Lemma step_pop m i j ins k os v vals a :
  rest (skipWhitespace j) = [] → isMarker (op k) = true → op k ≠ LeftParen →
  step (Evaluator m (j :: i :: ins) (k :: os) (v :: vals) None false a) =
    ((if bool_decide (op k = AssignDone) then finishAssignment (name k) (assign k) v (rhs k)
      else modify (set_expect false false));; mret true)
    (Evaluator m (i :: ins) os (if bool_decide (op k = AssignDone) then vals else v :: vals) None false a).
Proof.
  intros Hj Hk Hp. rewrite step_between, at_0, Hj, bool_decide_true by done.
  unfold endOfInput, mbind, M_bind, gets, pending_op. simpl. rewrite Hk. simpl.
  rewrite (bool_decide_false (op k = LeftParen)) by done.
  rewrite (bool_decide_false (length _ = 1%nat)) by done.
  unfold popOp, popValue, mbind, M_bind, gets. simpl.
  by destruct (decide (op k = AssignDone)) as [E|E];
    rewrite ?(bool_decide_true (op k = AssignDone)), ?(bool_decide_false (op k = AssignDone)) by done.
Qed.

(** * Runs of expressions *)

Definition top_for e os : Prop := match e with Bin o _ _ => top_ok (precedence o) os | _ => True end.

(** Wherever a text of [e] is the next operand, the machine reaches the outcome [r]
    and has moved past the text. *)
Definition runs (d : Z) m e r : Prop :=
  ∀ txt t q i ins os vals a,
    prints e txt → well_formed e → terminated q t → q ≤ level e → rest i = txt ++ t → depth i = d →
    (level e ≤ 2 → a = true) → top_for e os →
    ends r (λ v m', at_state m' t d ins os (v :: vals)) (operand_state m i ins os vals a).

Lemma at_state_rest m i a t ins os vals : rest i = t → at_state m t (depth i) ins os vals (Evaluator m (i :: ins) os vals None false a).
Proof. intros Hi. exists i, a, []. rewrite Hi. repeat split. constructor. Qed.

Lemma run_num d m l v : runs d m (Num l v) (RVal v m).
Proof.
  intros txt t q i ins os vals a Hp Hwf Ht _ Hi <- _ _. inversion Hp as [w ? ? Hw| | | | |]; subst.
  rewrite <-app_assoc in Hi.
  destruct (read_num m i ins os vals a w l v t q Hw Hwf Hi Ht) as (i' & <- & Hi' & Hs).
  eapply ends_step; [done|exact Hs|]. by apply ends_value, at_state_rest.
Qed.

Lemma run_var d m n r : nested_run d m n r → runs d m (Var n) r.
Proof.
  intros Hn txt t q i ins os vals a Hp Hwf Ht _ Hi <- _ _. inversion Hp as [|w dl ? Hw Hdl| | | |]; subst.
  rewrite <-!app_assoc in Hi.
  destruct (read_var m i ins os vals a w dl n t q Hw Hdl Hwf Hi Ht) as (i' & Hd & Hi' & Hs). rewrite <-Hd in *.
  destruct Hn as [[Hv ->]|[(Hv & Hdp & ->)|(Hv & Hdp & Hn)]].
  - eapply ends_command; [done|exact Hs|unfold operand_state; by rewrite deref_blank|]. by apply ends_value, at_state_rest.
  - eapply ends_command; [done|exact Hs|by apply deref_deep|]. by apply ends_error.
  - eapply ends_command; [done|exact Hs|by apply deref_nested|].
    eapply ends_bind; [by apply Hn| |naive_solver].
    intros v m' s' -> (j & a' & -> & Hj). eapply ends_step; [done|by rewrite step_pop|].
    by apply ends_value, at_state_rest.
Qed.

Lemma run_par d m e r : runs d m e r → runs d m (Par e) r.
Proof.
  intros He txt t q i ins os vals a Hp Hwf Ht _ Hi <- _ _. inversion Hp as [| |w ? txt' w' Hw Hw' Hp'| | |]; subst.
  rewrite <-app_assoc in Hi. cbn [app] in Hi.
  destruct (read_paren m i ins os vals a w _ Hw Hi) as (i' & Hdi & Hi' & Hs). rewrite <-Hdi in *.
  eapply ends_step; [done|exact Hs|].
  assert (rest i' = txt' ++ w' ++ ")"%char :: t) as Hi2 by (by rewrite Hi', <-!app_assoc).
  assert (0 ≤ level e) as Hl by (destruct e; simpl; try lia; by destruct o).
  eapply ends_bind; [eapply (He txt' _ 0); [done|done|by apply term_paren|done|done|done|done|destruct e; try exact I; by left]| |naive_solver].
  intros v m' s' -> Hat. destruct (at_skip _ _ _ 0 _ _ _ _ Hat) as (j & b & w1 & -> & Hd & Hw1 & Hj & Htok);
    [by apply term_paren|].
  assert (rest (skipWhitespace j) = ")"%char :: t) as Hj'.
  { symmetry. eapply (blanks_unique w' w1); [done..|by eapply token_at_nonspace]. }
  rewrite <-Hd.
  eapply ends_step; [done| |].
  { rewrite step_between, (at_head _ _ _ Hj'). unfold readOperator. rewrite (at_head _ _ _ Hj').
    rewrite bool_decide_false by done. reflexivity. }
  apply ends_value. apply (at_state_rest _ (advance 1 (skipWhitespace j))). by rewrite rest_advance, Hj'.
Qed.

(** Errors pass through. *)
Definition fails_with r r' : Prop := ∀ msg m, r = RErr msg m → r' = RErr msg m.

Definition computes (x : option (Z + text)) (k : Z → gmap text text) m r' : Prop :=
  (∃ v, x = Some (inl v) ∧ r' = RVal v (k v)) ∨ (∃ msg, x = Some (inr msg) ∧ r' = RErr msg m).

Lemma run_un d m o e r r' :
  runs d m e r → fails_with r r' →
  (∀ v m', r = RVal v m' → ∃ v', unary_value o v = Some v' ∧ r' = RVal v' m') → runs d m (Un o e) r'.
Proof.
  intros He Hf Hv txt t q i ins os vals a Hp Hwf Ht Hq Hi <- _ _. inversion Hp as [| | |w ? ? txt' Hw Hp'| |]; subst.
  rewrite <-app_assoc in Hi. destruct Hwf as (Ho & Hl & Hwf). cbn [app] in Hi. simpl in Hq.
  destruct (read_unary m i ins os vals a w o _ Hw Ho Hi) as (i' & Hdi & Hi' & Hs). rewrite <-Hdi in *.
  assert (top_for e (plain_op o :: os)) as Htop.
  { destruct e as [| | | |o' l r'' | ]; try exact I. simpl in *. destruct o'; simpl in Hl; lia || by destruct Hwf. }
  eapply ends_step; [done|exact Hs|].
  eapply ends_bind; [eapply (He txt' t q); try done; lia| |exact Hf].
  intros v m' s' Hr Hat. destruct (Hv v m' Hr) as (v' & Hv' & ->).
  edestruct step_reduce as (j & b & w1 & Hd & Hw1 & -> & He' & Hst);
    [exact Hat|exact Ht|by destruct o|by destruct o|].
  eapply (ends_command _ _ _ reduce _ (Evaluator m' (j :: ins) os (v' :: vals) None false b)); [done|exact Hst| |].
  - destruct o; try done; simpl in Hv'; try (by injection Hv' as <-).
    unfold reduce, long, mbind, M_bind, popOp, popValue, gets. simpl. unfold mbind, M_bind. by rewrite Hv'.
  - apply ends_value. by exists j, b, w1.
Qed.

Lemma top_ok_le q q' os : q ≤ q' → top_ok q os → top_ok q' os.
Proof. destruct os as [|o os]; [done|]. intros Hq [Ho|Ho]; [by left|right; lia]. Qed.

Lemma separate_app o txt t : txt ≠ [] → separate o txt → separate o (txt ++ t).
Proof. by destruct txt. Qed.

(** The second operand and the reduction of a binary operator. *)
Lemma run_bin d m o l r r1 r' :
  runs d m l r1 → fails_with r1 r' →
  (∀ x m1, r1 = RVal x m1 → ∃ r2, runs d m1 r r2 ∧ fails_with r2 r' ∧
     ∀ y m2, r2 = RVal y m2 → computes (binary_value o x y) (λ _, m2) m2 r') →
  runs d m (Bin o l r) r'.
Proof.
  intros Hl Hf1 Hr txt t q i ins os vals a Hp Hwf Ht Hq Hi <- Ha Htop.
  inversion Hp as [| | | |? ? ? txt1 w txt2 Hw Hp1 Hp2 Hsep|]; subst.
  destruct Hwf as (Ho & Hll & Hlr & Hwl & Hwr). simpl in *.
  rewrite <-!app_assoc in Hi.
  assert (separate o (txt2 ++ t)) as Hsep' by (apply separate_app; [by eapply prints_nonempty|done]).
  assert (top_for l os) as Htl by (destruct l; try exact I; simpl in *; by eapply top_ok_le).
  eapply ends_bind; [eapply (Hl txt1 (w ++ token o ++ txt2 ++ t) (precedence o)); try done| |exact Hf1].
  { by apply term_op. }
  { intros Hle. apply Ha. lia. }
  intros x m1 s1 Hr1 Hat1. destruct (Hr x m1 Hr1) as (r2 & Hrr & Hf2 & Hy).
  destruct (step_shift _ _ _ _ _ _ _ _ _ Hat1 Hw Ho Hsep' Htop) as (i2 & Hd2 & Hi2 & Hreach).
  eapply ends_reach; [exact Hreach|].
  eapply ends_bind; [eapply (Hrr txt2 t q); try done; [lia| |]| |exact Hf2].
  { intros Hle. apply bool_decide_eq_true. destruct o; simpl in *; done || lia. }
  { destruct r as [| | | |o' ? ?|]; try exact I. right. done. }
  intros y m2 s2 Hr2 Hat2.
  edestruct step_reduce as (j & b & w1 & Hd & Hw1 & -> & He' & Hst);
    [exact Hat2|exact Ht|by destruct o|done|].
  set (s3 := Evaluator m2 (j :: ins) os vals None false b).
  assert (reduce (Evaluator m2 (j :: ins) (plain_op o :: os) (y :: x :: vals) None false b) =
    (v ← binary o x y; match v with None => mret tt | Some v => pushValue v end) s3) as Hred by by destruct o.
  destruct (Hy y m2 Hr2) as [(v & Hv & ->)|(msg & Hv & ->)].
  - eapply ends_command; [done|exact Hst|rewrite Hred, (bind_eq _ _ _ _ _ (binary_value_inl _ _ _ _ _ Hv)); reflexivity|].
    apply ends_value. by exists j, b, w1.
  - eapply ends_command; [done|exact Hst|rewrite Hred, (bind_eq _ _ _ _ _ (binary_value_inr _ _ _ _ s3 eq_refl Hv)); reflexivity|].
    by apply ends_error.
Qed.

(** What is left once the current value of the assigned variable is known. *)
Lemma finish_ends c n cur v m i ins os vals e b r' t w1 :
  is_assign_char c → computes (assign_value c cur v) (λ v', <[n := print_long v']> m) m r' →
  ws w1 → t = w1 ++ rest i →
  ∃ s', finishAssignment n c cur v (Evaluator m (i :: ins) os vals None e b) = Done (tt, s') ∧
    ends r' (λ v m', at_state m' t (depth i) ins os (v :: vals)) s'.
Proof.
  intros Hc [(v' & Hv & ->)|(msg & Hv & ->)] Hw ->.
  - eexists. split; [by apply finish_inl|]. apply ends_value. by exists i, false, w1.
  - eexists. split; [by apply finish_inr|]. by apply ends_error.
Qed.

Lemma run_asg d m c n e r1 r' :
  runs d m e r1 → fails_with r1 r' →
  (∀ v m1, r1 = RVal v m1 →
     if decide (c = NUL) then r' = RVal v (<[n := print_long v]> m1)
     else ∃ r2, nested_run d m1 n r2 ∧ fails_with r2 r' ∧
       ∀ cur m2, r2 = RVal cur m2 → computes (assign_value c cur v) (λ v', <[n := print_long v']> m2) m2 r') →
  runs d m (Asg c n e) r'.
Proof.
  intros He Hf Hv txt t q i ins os vals a Hp Hwf Ht Hq Hi <- Ha _.
  inversion Hp as [| | | | |w dl ? ? w' ? txt' Hw Hdl Hw' Hp' Hhead]; subst.
  destruct Hwf as (Hc & Hn & Hl & Hwf). simpl in Hq. rewrite (Ha ltac:(simpl; lia)). rewrite <-!app_assoc in Hi.
  destruct (read_asg m i ins os vals w dl c n w' (txt' ++ t) Hw Hdl Hn Hw' Hc) as (i' & Hdi & Hi' & Hs); [|done|].
  { pose proof (prints_nonempty _ _ Hp' Hwf). by destruct txt'. }
  set (o := {| op := Assign; assign := c; name := n; rhs := 0 |}) in *. rewrite <-Hdi in *.
  eapply ends_step; [done|exact Hs|].
  eapply ends_bind; [eapply (He txt' t q); try done; [lia|]| |exact Hf].
  { destruct e as [| | | |o' ? ?|]; try exact I. right. simpl in *. destruct Hwf as [Ho _]. by destruct o'. }
  intros v m1 s1 Hr1 Hat1. specialize (Hv v m1 Hr1).
  edestruct step_reduce as (j & b & w1 & Hd & Hw1 & E & He' & Hst); [exact Hat1|exact Ht|done|done|].
  set (s2 := Evaluator m1 (j :: ins) os vals None false b).
  destruct (decide (c = NUL)) as [Hnul|Hnul].
  - subst r'. destruct (finish_ends NUL n 0 v m1 j ins os vals false b (RVal v (<[n := print_long v]> m1)) t w1)
      as (s' & Hfin & Hend); [by left|left; by exists v|done..|]. rewrite <-Hd in *.
    eapply ends_command; [done|exact Hst| |exact Hend].
    rewrite <-Hfin. unfold reduce, o. rewrite Hnul. reflexivity.
  - destruct Hv as (r2 & Hnest & Hf2 & Hcur).
    set (k := {| op := AssignDone; assign := c; name := n; rhs := v |}).
    assert (reduce (Evaluator m1 (j :: ins) (o :: os) (v :: vals) None false b) =
      deref n (λ current, finishAssignment n c current v) k s2) as Hred.
    { unfold reduce, mbind, M_bind, popOp, popValue, gets, modify. simpl. by rewrite (bool_decide_false (c = NUL)). }
    rewrite <-Hd in *.
    destruct Hnest as [[Hb ->]|[(Hb & Hdp & ->)|(Hb & Hdp & Hrun)]].
    + destruct (finish_ends c n 0 v m1 j ins os vals false b r' t w1) as (s' & Hfin & Hend); [done|by apply Hcur|done..|].
      eapply ends_command; [done|exact Hst| |exact Hend]. rewrite Hred. unfold s2. by rewrite deref_blank.
    + rewrite (Hf2 _ _ eq_refl).
      eapply ends_command; [done|exact Hst|rewrite Hred; unfold s2; by apply deref_deep|]. by apply ends_error.
    + eapply ends_command; [done|exact Hst|rewrite Hred; unfold s2; by apply deref_nested|].
      eapply ends_bind; [by apply Hrun| |exact Hf2].
      intros cur m2 s3 Hr2 (j' & b' & -> & Hj').
      destruct (finish_ends c n cur v m2 j ins os vals false b' r' t w1) as (s' & Hfin & Hend); [done|by apply Hcur|done..|].
      eapply ends_command; [done|by apply step_pop|exact Hfin|exact Hend].
Qed.

(** The value of a variable, read as an expression one level deeper. *)
Lemma nested_expr d m n e txt w r :
  runs (d + 1) m e r → var_text m n = txt ++ w → var_text m n ≠ [] → d + 1 ≤ ARITH_MAX_DEPTH →
  prints e txt → ws w → well_formed e → nested_run d m n r.
Proof.
  intros He Hv Hne Hd Hp Hw Hwf. right; right. split; [done|]. split; [done|]. intros k i ins os vals Hk.
  eapply ends_bind; [eapply (He txt w 0); try done; [by constructor| |]| |naive_solver].
  - destruct e; simpl; try lia. by destruct o.
  - destruct e as [| | | |o l r'|]; try exact I. by left.
  - intros v m' s' -> (j & a & w' & -> & _ & Hw' & E). apply ends_value. exists j, a. split; [done|].
    subst w. apply Forall_app in Hw as [_ Hw]. eapply skip_rest; [exact Hw| |done]. by rewrite app_nil_r.
Qed.

Lemma fails_refl r : fails_with r r.
Proof. by intros ??. Qed.
Lemma fails_value v m r : fails_with (RVal v m) r.
Proof. by intros ??. Qed.

(** Every evaluation of the reference semantics is a run of the machine. *)
Lemma eval_runs d m e r :
  eval Evaluated d m e r → runs d m e r ∧ match e with Var n => nested_run d m n r | _ => True end.
Proof.
  assert (∀ d m n r, nested_run d m n r → runs d m (Var n) r ∧ nested_run d m n r) as Hvar
    by (intros; split; [by apply run_var|done]).
  induction 1 as [d m l v|d m n Hb|d m n Hb Hd|d m n e txt w r Hv Hb Hd Hp Hw Hwf _ [IH _]|d m e r _ [IH _]
    |d m o e v m' v' _ [IH _] Hu|d m o e msg m' _ [IH _]
    |d m o l r x m1 y m2 v _ [IHl _] _ _ [IHr _] Hv|d m o l r x m1 y m2 msg _ [IHl _] _ [IHr _] Hv
    |d m o l r msg m1 _ [IHl _]|d m o l r x m1 msg m2 _ [IHl _] _ _ [IHr _]|h d m o l r x m1 Hk
    |d m c n e msg m1 _ [IH _]|d m n e v m1 _ [IH _]
    |d m c n e v m1 cur m2 v' Hc _ [IH _] _ [_ IHn] Hv|d m c n e v m1 cur m2 msg Hc _ [IH _] _ [_ IHn] Hv
    |d m c n e v m1 msg m2 Hc _ [IH _] _ [_ IHn]].
  - split; [apply run_num|done].
  - apply Hvar. by left.
  - apply Hvar. by right; left.
  - apply Hvar. by eapply nested_expr.
  - split; [by apply run_par|done].
  - split; [|done]. eapply run_un; [exact IH|apply fails_value|]. intros ?? [= <- <-]. by exists v'.
  - split; [|done]. eapply run_un; [exact IH|apply fails_refl|done].
  - split; [|done]. eapply run_bin; [exact IHl|apply fails_value|]. intros ?? [= <- <-].
    exists (RVal y m2). split; [done|]. split; [apply fails_value|]. intros ?? [= <- <-]. left. by exists v.
  - split; [|done]. eapply run_bin; [exact IHl|apply fails_value|]. intros ?? [= <- <-].
    exists (RVal y m2). split; [done|]. split; [apply fails_value|]. intros ?? [= <- <-]. right. by exists msg.
  - split; [|done]. eapply run_bin; [exact IHl|apply fails_refl|done].
  - split; [|done]. eapply run_bin; [exact IHl|apply fails_value|]. intros ?? [= <- <-].
    exists (RErr msg m2). split; [done|]. split; [apply fails_refl|done].
  - discriminate Hk.
  - split; [|done]. eapply run_asg; [exact IH|apply fails_refl|done].
  - split; [|done]. eapply run_asg; [exact IH|apply fails_value|]. by intros ?? [= <- <-].
  - split; [|done]. eapply run_asg; [exact IH|apply fails_value|]. intros ?? [= <- <-].
    rewrite decide_False by done. exists (RVal cur m2). split; [done|]. split; [apply fails_value|].
    intros ?? [= <- <-]. left. by exists v'.
  - split; [|done]. eapply run_asg; [exact IH|apply fails_value|]. intros ?? [= <- <-].
    rewrite decide_False by done. exists (RVal cur m2). split; [done|]. split; [apply fails_value|].
    intros ?? [= <- <-]. right. by exists msg.
  - split; [|done]. eapply run_asg; [exact IH|apply fails_value|]. intros ?? [= <- <-].
    rewrite decide_False by done. exists (RErr msg m2). split; [done|]. by split; [apply fails_refl|].
Qed.

(** * Complete evaluations *)

Lemma steps_reach s s' : reaches s s' → ∃ n, ∀ fuel, steps (n + fuel) s = steps fuel s'.
Proof.
  induction 1 as [s|s s1 s2 [He Hs] _ (n & IH)]; [by exists 0%nat|].
  exists (S n). intros fuel. cbn [Nat.add steps]. rewrite (bind_eq _ _ _ None s) by (unfold gets; by rewrite He).
  by rewrite (bind_eq _ _ _ _ _ Hs).
Qed.

Definition result_of r : result := match r with RVal v m => Value v m | RErr msg m => Error msg m end.

Lemma steps_ends r s w :
  ws w → ends r (λ v m', at_state m' w 0 [] [] [v]) s →
  ∃ n s', (∀ fuel, (n ≤ fuel)%nat → steps fuel s = Done (true, s')) ∧ finish s' = Done (result_of r).
Proof.
  intros Hw. destruct r as [v m|msg m]; simpl.
  - intros (s' & Hr & (i & a & w' & -> & _ & Hw' & E)). destruct (steps_reach _ _ Hr) as (n & Hn).
    assert (rest (skipWhitespace i) = []) as Hi.
    { subst w. apply Forall_app in Hw as [_ Hw]. eapply skip_rest; [exact Hw| |done]. by rewrite app_nil_r. }
    exists (n + 1)%nat, (Evaluator m [skipWhitespace i] [] [v] None false a). split; [|done].
    intros fuel Hf. replace fuel with (n + S (fuel - n - 1))%nat by lia. rewrite Hn. cbn [steps].
    set (s0 := Evaluator m (i :: []) [] [v] None false a). rewrite (bind_eq _ _ s0 None s0 eq_refl). unfold s0.
    rewrite (bind_eq _ _ _ false (Evaluator m [skipWhitespace i] [] [v] None false a)); [done|].
    rewrite step_between, at_0, Hi. done.
  - intros (s' & Hr & He & Hv). destruct (steps_reach _ _ Hr) as (n & Hn).
    exists n, s'. split; [|unfold finish; by rewrite He, Hv].
    intros fuel Hf. replace fuel with (n + (fuel - n))%nat by lia. rewrite Hn.
    destruct (fuel - n)%nat; cbn [steps]; by rewrite (bind_eq _ _ _ (Some msg) s') by (unfold gets; by rewrite He).
Qed.

Lemma prints_first e txt :
  prints e txt → well_formed e → ∃ w c t, txt = w ++ c :: t ∧ ws w ∧ isspace3 c = false ∧ c ≠ NUL.
Proof.
  assert (∀ dl n t, dollar dl → is_name n → ∃ c t', dl ++ n ++ t = c :: t' ∧ isspace3 c = false ∧ c ≠ NUL) as Hname.
  { intros dl n t Hd [(c & n' & -> & Hc) _]. destruct Hd as [->| ->]; simpl; do 2 eexists; (split; [done|]); [|done].
    split; [by apply operand_char; auto|by intros ->]. }
  assert (∀ l v, literal l v → ∃ c t, l = c :: t ∧ isspace3 c = false ∧ c ≠ NUL) as Hlit.
  { intros l v [t ? Hne Ht _ _ _|x t ? _ _ _ _ _|t ? _ _ _ _]; [|by do 2 eexists..].
    destruct t as [|c t]; [done|]. apply Forall_cons in Ht as [Hc _]. exists c, t. split; [done|].
    split; [by apply operand_char; auto|by intros ->]. }
  intros Hp. induction Hp as [w s v Hw|w d n Hw Hd|w e s w' Hw Hw' Hp IH|w o e s Hw Hp IH
    |o l r s w s' Hw Hp IH Hp' IH' Hs|w d c n w' e s Hw Hd Hw' Hp IH He]; simpl; intros Hwf.
  - destruct (Hlit s v Hwf) as (c & t & -> & Hc). by exists w, c, t.
  - destruct (Hname d n [] Hd Hwf) as (c & t & E & Hc). rewrite app_nil_r in E. rewrite E. by exists w, c, t.
  - exists w, "("%char. eexists. done.
  - exists w, (unary_char o), s. split_and!; try done; by destruct o.
  - destruct Hwf as (_ & _ & _ & Hl & _). destruct (IH Hl) as (w0 & c & t & -> & Hc).
    rewrite <-app_assoc. simpl. by exists w0, c, (t ++ w ++ token o ++ s').
  - destruct Hwf as (_ & Hn & _). destruct (Hname d n (w' ++ assign_token c ++ s) Hd Hn) as (x & t & -> & Hc).
    by exists w, x, t.
Qed.

Lemma skip_skip i : skipWhitespace (skipWhitespace i) = skipWhitespace i.
Proof.
  assert (span isspace3 (rest (skipWhitespace i)) = 0%nat) as Hs.
  { unfold skipWhitespace. rewrite rest_advance.
    induction (rest i) as [|c t IH]; simpl; [done|]. destruct (isspace3 c) eqn:Hc; simpl; [done|]. by rewrite Hc. }
  unfold skipWhitespace at 1. rewrite Hs. unfold advance. rewrite Nat.add_0_r. by destruct (skipWhitespace i).
Qed.

(** Blanks before the first token make no difference. *)
Lemma steps_skip fuel m i ins os vals a :
  steps (S fuel) (operand_state m (skipWhitespace i) ins os vals a) = steps (S fuel) (operand_state m i ins os vals a).
Proof.
  assert (step (operand_state m (skipWhitespace i) ins os vals a) = step (operand_state m i ins os vals a)) as E
    by by rewrite !step_operand, skip_skip.
  cbn [steps]. unfold mbind, M_bind, gets. simpl. by rewrite E.
Qed.
End machine.

#[export] Instance strict_laws : LongLaws (H := strict_long).
Proof. intros z Hz. unfold long_of, strict_long. by rewrite Hz. Qed.

#[export] Instance wrapping_laws : LongLaws (H := wrapping_long).
Proof.
  intros z Hz. unfold long_of, wrapping_long, in_long, LONG_MIN, LONG_MAX in *. f_equal.
  rewrite Z.mod_small by lia. lia.
Qed.

(** C4: the arithmetic evaluator computes what expressions mean.  Every text of a
    well-formed expression, blanks around its tokens included, evaluates with enough
    fuel to the value and the variables (or to the error message and the variables)
    that the reference semantics gives its syntax tree: C's precedence and left
    associativity, right-associative assignments, truncating division, variables whose
    values are expressions themselves.  The reference evaluates both operands of [||] and
    [&&] always; and the result is the one of C's semantics, which skips the second when the
    first one decides, whenever every operand that C skips has a value and assigns no
    variable.  (Otherwise the code departs from the C operators that sh_arith.h names:
    [no_short_circuit].) *)
Theorem sh_arith_eval_correct `{LongLaws} (m : gmap text text) (e : expr) (s w : text) (r : res) :
  well_formed e → prints e s → ws w →
  eval Evaluated 0 m e r ∨ eval (Skipped no_effect) 0 m e r ∧ eval_C 0 m e r →
  ∃ n, ∀ fuel, (n ≤ fuel)%nat → sh_arith_eval fuel m (s ++ w) = Done (result_of r).
Proof.
  intros Hwf Hp Hw He. assert (eval Evaluated 0 m e r) as He' by (destruct He as [He|[He _]]; [done|by apply eval_both]). destruct (prints_first e s Hp Hwf) as (w0 & c & t & E & Hw0 & Hc & Hnul).
  set (i := {| itext := s ++ w; pos := 0; depth := 0 |}).
  assert (rest (skipWhitespace i) = c :: t ++ w) as Hi
    by (apply (skip_rest i w0); [done|unfold i, rest; simpl; by rewrite E, <-app_assoc|done]).
  assert (ends r (λ v m', at_state m' w 0 [] [] [v]) (operand_state m i [] [] [] true)) as Hends.
  { apply (proj1 (eval_runs 0 m e r He') s w 0); try done; [by constructor| |].
    - destruct e; simpl; try lia. by destruct o.
    - by destruct e. }
  destruct (steps_ends r _ w Hw Hends) as (n & s' & Hn & Hfin). exists (S n). intros fuel Hf.
  unfold sh_arith_eval. fold i. rewrite (at_head _ _ _ Hi), bool_decide_false by done.
  destruct fuel as [|fuel]; [lia|]. unfold initial, set_inputs. cbn [vars ops values error expectOperand assignAllowed].
  fold (operand_state m (skipWhitespace i) [] [] [] true).
  rewrite steps_skip, Hn by lia. done.
Qed.

(** [x * 2] with [x] bound to the text [1 + y] and [y] to [2]. *)
Definition demo_expr : expr := Bin Multiply (Var ($"x")) (Num ($"2") 2).
Definition demo_store : gmap text text := list_to_map [($"x", $"1 + y"); ($"y", $"2")].

#[local] Existing Instance strict_long.

Lemma literal_digit c v : isdigit c = true → dec_digit c = v → literal [c] v.
Proof.
  intros Hc <-. apply lit_dec; [done|by constructor|by right|done|].
  unfold isdigit in Hc. apply between_spec in Hc. unfold dec_digit, in_long, LONG_MIN, LONG_MAX.
  assert (code "0" = 48 ∧ code "9" = 57) as [E0 E9] by done. lia.
Qed.

Lemma name_letter c : is_name_start c = true → is_name_char c = true → is_name [c].
Proof. intros H1 H2. split; [by exists c, []|by constructor]. Qed.

Lemma prints_blank e s : prints e s → match e with Num _ _ | Var _ => prints e (" "%char :: s) | _ => True end.
Proof.
  assert (∀ w, ws w → ws (" "%char :: w)) by (intros; by constructor).
  intros [w t v Hw|w d n Hw Hd| | | |]; try exact I.
  - apply (pr_num (" "%char :: w)); auto.
  - apply (pr_var (" "%char :: w)); auto.
Qed.

Lemma prints_word e s : (∃ v, e = Num s v) ∨ e = Var s → prints e s.
Proof. intros [[v ->]| ->]; [apply (pr_num []); constructor|apply (pr_var [] []); [constructor|by left]]. Qed.

Lemma demo_prints : well_formed demo_expr ∧ prints demo_expr ($"x * 2").
Proof.
  split; [split_and!; try done; [by apply name_letter|by apply literal_digit]|].
  apply (pr_bin Multiply (Var ($"x")) (Num ($"2") 2) ($"x") ($" ") ($" 2")).
  - by constructor.
  - apply prints_word. by right.
  - apply (prints_blank (Num ($"2") 2) ($"2")). apply prints_word. left. by exists 2.
  - done.
Qed.

Lemma demo_eval : eval Evaluated 0 demo_store demo_expr (RVal 6 demo_store).
Proof.
  apply (ev_bin _ _ _ _ _ _ 3 demo_store 2); [|exact I|constructor|done].
  apply (ev_var _ _ _ _ (Bin Add (Num ($"1") 1) (Var ($"y"))) ($"1 + y") []); try done.
  - apply (pr_bin Add (Num ($"1") 1) (Var ($"y")) ($"1") ($" ") ($" y")).
    + by constructor.
    + apply prints_word. left. by exists 1.
    + apply (prints_blank (Var ($"y")) ($"y")). apply prints_word. by right.
    + done.
  - constructor.
  - split_and!; try done; [by apply literal_digit|by apply name_letter].
  - apply (ev_bin _ _ _ _ _ _ 1 demo_store 2); [constructor|exact I| |done].
    apply (ev_var _ _ _ _ (Num ($"2") 2) ($"2") []); try done.
    + apply prints_word. left. by exists 2.
    + constructor.
    + by apply literal_digit.
    + constructor.
Qed.

(** A product, and [1||3], where C skips the second operand. *)
Lemma sh_arith_eval_correct_witness :
  (∃ n, ∀ fuel, (n ≤ fuel)%nat → sh_arith_eval fuel demo_store ($"x * 2" ++ $"  ") = Done (Value 6 demo_store)) ∧
  eval_C 0 demo_store (Bin Or (Num ($"1") 1) (Num ($"3") 3)) (RVal 1 demo_store) ∧
  ∃ n, ∀ fuel, (n ≤ fuel)%nat → sh_arith_eval fuel demo_store ($"1||3" ++ []) = Done (Value 1 demo_store).
Proof.
  split; [apply (sh_arith_eval_correct demo_store demo_expr ($"x * 2") ($"  ") (RVal 6 demo_store));
    [apply demo_prints|apply demo_prints|by repeat constructor|left; apply demo_eval]|].
  assert (eval (Skipped no_effect) 0 demo_store (Bin Or (Num ($"1") 1) (Num ($"3") 3)) (RVal 1 demo_store)) as E.
  { apply (ev_skip _ no_effect 0 demo_store Or (Num ($"1") 1) (Num ($"3") 3) 1 demo_store); [reflexivity|constructor|reflexivity|exists 3; constructor]. }
  split; [by apply eval_C_harmless|].
  apply (sh_arith_eval_correct demo_store (Bin Or (Num ($"1") 1) (Num ($"3") 3)) ($"1||3") [] (RVal 1 demo_store)).
  - split_and!; try done; by apply literal_digit.
  - apply (pr_bin Or (Num ($"1") 1) (Num ($"3") 3) ($"1") [] ($"3")); [by constructor|apply prints_word; left; by exists 1|apply prints_word; left; by exists 3|done].
  - by constructor.
  - right. split; [done|by apply eval_C_harmless].
Defined.

(** Both operands of [||] and [&&] are evaluated, whatever the first one is. *)
Example no_short_circuit :
  sh_arith_eval 100 ∅ ($"1 || 1 / 0") = Done (Error ($"division by zero") ∅) ∧
  sh_arith_eval 100 ∅ ($"0 && (x = 1)") = Done (Value 0 {[ $"x" := $"1" ]}).
Proof. split; vm_compute; reflexivity. Qed.
