(* ===== verification/ShellState.v ===== *)
(** The state of the shell's interpreter, sh_state.c, with the redirection of its streams,
    sh_redir.c, and the platform below it (sh_port.h, ShellBridge.h).

    The source keeps variables and functions in lists without duplicate names, and looks
    them up by name: they are finite maps here.  A node of a syntax tree is an object in
    memory, as functions take nodes away from the tree they were defined in, and a tree is
    released when its program is done. *)

From S2P Require Import Prelude Text ShellGlob ShellLex ShellParse.

(** * The platform *)

(** What [fopen] was asked for, and what [stat] tells of a file that exists. *)
Inductive open_mode := Read | Write | Append.
Record file_info := FileInfo { is_reg : bool; is_dir : bool; is_link : bool; st_size : Z; st_dev : Z; st_ino : Z }.

(** The C library's files and directories, and the bridge to the shell's app.  [fclose]
    writes what is buffered; [fopen] answers a file or [errno]; a command is run on three
    streams and answers its status and whether it was found. *)
Class Platform := {
  world : Type;
  FILE : Type;
  fopen : text → open_mode → world → (FILE + Z) * world;
  fclose : FILE → world → world;
  fputs : text → FILE → world → world;
  fgetc : FILE → world → option ascii * world;
  remove : text → world → world;
  strerror : Z → text;
  opendir : text → world → option (list text);
  stat : text → world → option file_info;
  access : text → ascii → world → bool;
  isatty : Z → world → bool;
  shell_bridge_resolve : text → nat → world → option text;
  shell_bridge_temp_path : Z → nat → world → text;
  shell_bridge_chdir : text → world → bool * world;
  shell_bridge_getcwd : nat → world → text;
  shell_bridge_read_file : text → world → option text;
  shell_bridge_run_command : list text → FILE → FILE → FILE → world → (Z * bool) * world;
}.
Definition directories `{Platform} (w : world) : Directories :=
  {| ShellGlob.shell_bridge_resolve := λ p, shell_bridge_resolve p GLOB_DIR_SIZE w; ShellGlob.opendir := λ p, opendir p w |}.

(** * Data *)

Record sh_var := Var { value : text; exported : bool }.
(** What [local] has to put back: the value before, if the variable was set. *)
Record sh_saved_var := SavedVar { saved_name : text; saved_value : option text }.

(** The flags that subshells, stages and substitutions keep to themselves. *)
Record FlowFlags := Flow { exiting : bool; exit_code : Z; brk : Z; cont : Z; returning : bool; return_code : Z }.
#[export] Instance FlowFlags_settable : Settable FlowFlags :=
  constr Flow <*> exiting <*> exit_code <*> brk <*> cont <*> returning <*> return_code.

(** A pointer to a node; the nodes, with pointers to their children. *)
Abbreviation addr := nat.
Inductive cell_kind :=
  | C_LIST (children : list addr)
  | C_ANDOR (left right : addr) (andor_op : tok_type)
  | C_PIPE (children : list addr)
  | C_SIMPLE (assigns words : list text)
  | C_IF (clauses : list (addr * addr)) (else_body : option addr)
  | C_WHILE (cond : addr) (until : bool) (body : addr)
  | C_FOR (for_name : text) (for_words : list text) (for_implicit : bool) (body : addr)
  | C_CASE (case_word : text) (clauses : list (list text * addr))
  | C_GROUP (subshell : bool) (body : addr)
  | C_FUNCDEF (func_name : text) (body : option addr).
Record cell := Cell { negated : bool; redirs : list sh_redir; cell_of : cell_kind }.

Record sh_state := ShState {
  vars : gmap text sh_var;
  last_status : Z;
  opt_errexit : bool;
  opt_nounset : bool;
  flow : FlowFlags;
  loop_depth : Z;
  pos : list text;
  arg0 : option text;
  funcs : gmap text (option addr);
  call_depth : nat;
  scopes : list (list sh_saved_var);
  parse_error : bool;
  cmdsub_ran : bool;
  cmdsub_status : Z;
  cwd : option text;
}.
#[export] Instance sh_state_settable : Settable sh_state :=
  constr ShState <*> vars <*> last_status <*> opt_errexit <*> opt_nounset <*> flow <*> loop_depth <*> pos <*> arg0 <*>
  funcs <*> call_depth <*> scopes <*> parse_error <*> cmdsub_ran <*> cmdsub_status <*> cwd.

Definition SH_MAX_CALL_DEPTH : nat := 64.

Section shell.
Context {P : Platform}.

(** The interpreter's state; the environment of the process; the three streams, which are
    variables of the C library; files and directories; the nodes in memory, and the next
    address; the counter of [sh_port_tmpfile]. *)
Record shell := Shell {
  st : sh_state;
  environ : gmap text text;
  stdin : FILE;
  stdout : FILE;
  stderr : FILE;
  files : world;
  nodes : gmap addr cell;
  next_addr : addr;
  next_id : Z;
}.
End shell.
#[export] Instance shell_settable {P : Platform} : Settable shell :=
  constr Shell <*> st <*> environ <*> stdin <*> stdout <*> stderr <*> files <*> nodes <*> next_addr <*> next_id.

(** What a C string holds of a text. *)
Definition c_string (s : text) : text := take (span (λ c, negb (bool_decide (c = NUL))) s) s.

Section state.
Context `{Platform}.
Implicit Types (n v : text) (a : addr).

Definition getst {A} (f : sh_state → A) : M shell A := gets (λ s, f (st s)).
Definition setst (f : sh_state → sh_state) : M shell unit := modify (λ s, s <| st := f (st s) |>).
Definition get_flow {A} (f : FlowFlags → A) : M shell A := getst (λ s, f (flow s)).
Definition set_flow (f : FlowFlags → FlowFlags) : M shell unit := setst (λ s, s <| flow := f (flow s) |>).
(** A call of the platform. *)
Definition platform {A} (f : world → A * world) : M shell A :=
  w ← gets files; let '(r, w') := f w in modify (λ s, s <| files := w' |>);; mret r.
Definition print (out : shell → FILE) (l : list text) : M shell unit :=
  f ← gets out; platform (λ w, (tt, fputs (concat l) f w)).
(** [fprintf(stderr, ...)] *)
Definition complain (l : list text) : M shell unit := print stderr l.

(** * Variables *)

Definition setenv n v : M shell unit := modify (λ s, s <| environ := <[n := v]> (environ s) |>).
Definition unsetenv n : M shell unit := modify (λ s, s <| environ := delete n (environ s) |>).
Definition getenv n : M shell (option text) := gets (λ s, environ s !! n).

Definition find n : M shell (option sh_var) := getst (λ s, vars s !! n).
Definition put_var n (x : sh_var) : M shell unit := setst (λ s, s <| vars := <[n := x]> (vars s) |>).

Definition sh_get n : M shell (option text) := v ← find n; mret (value <$> v).

Definition sh_set n v : M shell unit :=
  x ← find n;
  match x with
  | Some x => put_var n (Var v (exported x));; if exported x then setenv n v else mret tt
  | None => put_var n (Var v false)
  end.

Definition sh_export n : M shell unit :=
  x ← find n;
  match x with
  | None => put_var n (Var [] true)
  | Some x => put_var n (Var (value x) true);; setenv n (value x)
  end.

Definition sh_unset n : M shell unit :=
  x ← find n;
  match x with
  | Some x => setst (λ s, s <| vars := delete n (vars s) |>);; if exported x then unsetenv n else mret tt
  | None => mret tt
  end.

(** * Positional parameters *)

Definition sh_set_positional (name : option text) (params : list text) : M shell unit :=
  setst (λ s, s <| arg0 := match name with Some x => Some x | None => arg0 s end |> <| pos := params |>).

(** Whether it was possible. *)
Definition sh_shift_positional (n : Z) : M shell bool :=
  let n := Z.max 0 n in
  npos ← getst (λ s, Z.of_nat (length (pos s)));
  if npos <? n then mret false else setst (λ s, s <| pos := drop (Z.to_nat n) (pos s) |>);; mret true.

(** * Nodes *)

(** A node is used: a null pointer, or one to a node that was released, is undefined. *)
Definition cell_at a : M shell cell := deref (λ s, nodes s !! a).
Definition put_cell a (c : cell) : M shell unit := modify (λ s, s <| nodes := <[a := c]> (nodes s) |>).

Definition new_cell (c : cell) : M shell addr :=
  a ← gets next_addr; put_cell a c;; modify (λ s, s <| next_addr := S a |>);; mret a.

(** The tree that the parser made, in memory. *)
Fixpoint load (n : node) : M shell addr :=
  match n with Node neg rs k => c ← load_kind k; new_cell (Cell neg rs c) end
with load_kind (k : node_kind) : M shell cell_kind :=
  let load_opt (o : option node) : M shell (option addr) :=
    match o with Some n => a ← load n; mret (Some a) | None => mret None end in
  let fix loads (l : list node) : M shell (list addr) :=
    match l with [] => mret [] | n :: l' => a ← load n; r ← loads l'; mret (a :: r) end in
  let fix load_pairs (l : list (node * node)) : M shell (list (addr * addr)) :=
    match l with [] => mret [] | (c, b) :: l' => x ← load c; y ← load b; r ← load_pairs l'; mret ((x, y) :: r) end in
  let fix load_clauses (l : list (list text * node)) : M shell (list (list text * addr)) :=
    match l with [] => mret [] | (p, b) :: l' => y ← load b; r ← load_clauses l'; mret ((p, y) :: r) end in
  match k with
  | N_LIST l => r ← loads l; mret (C_LIST r)
  | N_ANDOR l r o => x ← load l; y ← load r; mret (C_ANDOR x y o)
  | N_PIPE l => r ← loads l; mret (C_PIPE r)
  | N_SIMPLE a w => mret (C_SIMPLE a w)
  | N_IF l e => r ← load_pairs l; x ← load_opt e; mret (C_IF r x)
  | N_WHILE c u b => x ← load c; y ← load b; mret (C_WHILE x u y)
  | N_FOR n w i b => y ← load b; mret (C_FOR n w i y)
  | N_CASE w l => r ← load_clauses l; mret (C_CASE w r)
  | N_GROUP sub b => y ← load b; mret (C_GROUP sub y)
  | N_FUNCDEF n b => y ← load b; mret (C_FUNCDEF n (Some y))
  end.

(** What [sh_free_node] pushes for a node, in its order. *)
Definition children (c : cell) : list addr :=
  match cell_of c with
  | C_LIST l | C_PIPE l => l
  | C_ANDOR l r _ => [l; r]
  | C_SIMPLE _ _ => []
  | C_IF l e => concat ((λ '(x, y), [x; y]) <$> l) ++ option_list e
  | C_WHILE c _ b => [c; b]
  | C_FOR _ _ _ b | C_GROUP _ b => [b]
  | C_CASE _ l => snd <$> l
  | C_FUNCDEF _ b => option_list b
  end.

(** The worklist, with its back first; every turn releases a node. *)
Fixpoint free_loop (fuel : nat) (pending : list addr) : M shell unit :=
  match pending with
  | [] => mret tt
  | a :: l =>
      match fuel with
      | O => undef
      | S f => c ← cell_at a; modify (λ s, s <| nodes := delete a (nodes s) |>);; free_loop f (reverse (children c) ++ l)
      end
  end.
Definition sh_free_node (root : option addr) : M shell unit :=
  n ← gets (λ s, size (nodes s)); free_loop n (option_list root).

(** * Functions and local scopes *)

(** The pointer to the body, which may be null, of a function that is defined. *)
Definition sh_func_find n : M shell (option (option addr)) := getst (λ s, funcs s !! n).

Definition sh_func_define n (body : option addr) : M shell unit :=
  f ← sh_func_find n;
  (match f with Some old => sh_free_node old | None => mret tt end);;
  setst (λ s, s <| funcs := <[n := body]> (funcs s) |>).

Definition sh_func_unset n : M shell unit :=
  f ← sh_func_find n;
  match f with
  | Some body => sh_free_node body;; setst (λ s, s <| funcs := delete n (funcs s) |>)
  | None => mret tt
  end.

Definition sh_scope_push : M shell unit := setst (λ s, s <| scopes := [] :: scopes s |>).

Definition restore_var (sv : sh_saved_var) : M shell unit :=
  match saved_value sv with Some v => sh_set (saved_name sv) v | None => sh_unset (saved_name sv) end.
Definition sh_scope_pop : M shell unit :=
  l ← getst scopes;
  match l with
  | [] => mret tt
  | s :: l' => setst (λ t, t <| scopes := l' |>);; for_list restore_var s
  end.

(** Whether a function is active. *)
Definition sh_local n (v : option text) : M shell bool :=
  l ← getst scopes;
  match l with
  | [] => mret false
  | s :: l' =>
      prior ← sh_get n;
      setst (λ t, t <| scopes := (SavedVar n prior :: s) :: l' |>);;
      (match v with Some v => sh_set n v | None => mret tt end);;
      mret true
  end.

(** * The start and the end of an interpreter *)

Definition PATH_BUFFER : nat := 512.

Definition same_dir (a b : text) : M shell bool :=
  if decide (a = b) then mret true
  else
    w ← gets files;
    mret match stat a w, stat b w with
         | Some sa, Some sb =>
             (negb (bool_decide (st_ino sa = 0)) && negb (bool_decide (st_ino sb = 0)) &&
              bool_decide (st_dev sa = st_dev sb) && bool_decide (st_ino sa = st_ino sb))%bool
         | _, _ => false
         end.

(** A variable that is taken from the environment if it is there. *)
Definition seed n : M shell unit :=
  v ← getenv n; match v with Some v => sh_set n v | None => mret tt end.

Definition sh_port_getcwd : M shell text := gets (λ s, shell_bridge_getcwd PATH_BUFFER (files s)).

Definition sh_state_init : M shell unit :=
  setst (λ s, ShState ∅ 0 false false (Flow false 0 0 0 false 0) 0 [] None ∅ 0 [] false (cmdsub_ran s) (cmdsub_status s) None);;
  seed ($"HOME");;
  buf ← sh_port_getcwd;
  pwd ← getenv ($"PWD");
  dir ← match pwd with
        | Some d => if at_char "/" d then b ← same_dir d buf; mret (if b : bool then d else buf) else mret buf
        | None => mret buf
        end;
  setst (λ s, s <| cwd := Some dir |>);;
  sh_set ($"PWD") dir;;
  sh_export ($"PWD");;
  seed ($"OLDPWD");; seed ($"TMP");; seed ($"SH").

Fixpoint pop_scopes (fuel : nat) : M shell unit :=
  match fuel with O => mret tt | S f => sh_scope_pop;; pop_scopes f end.
Definition sh_state_free : M shell unit :=
  fs ← getst (λ s, (map_to_list (funcs s)).*2);
  setst (λ s, s <| vars := ∅ |> <| pos := [] |> <| arg0 := None |> <| cwd := None |>);;
  for_list sh_free_node fs;;
  setst (λ s, s <| funcs := ∅ |>);;
  n ← getst (λ s, length (scopes s));
  pop_scopes n.

(** * Redirections (sh_redir.c) *)

Inductive sh_rd_op := SH_RD_IN | SH_RD_OUT | SH_RD_APPEND | SH_RD_DUP | SH_RD_CLOSE.
Record sh_redir_rt := RedirRt { rt_fd : Z; rt_op : sh_rd_op; rt_path : option text; rt_dupfd : Z }.

(** The streams before, which of them were assigned, and the files to close. *)
Record sh_redir_saved := RedirSaved { orig : FILE * FILE * FILE; touched : bool * bool * bool; opened : list FILE }.

Definition MAX_OPENED : nat := 8.
Definition REDIR_PATH_SIZE : nat := 256.

Definition sh_stream_slot (fd : Z) (s : shell) : option FILE :=
  if decide (fd = 0) then Some (stdin s)
  else if decide (fd = 1) then Some (stdout s)
  else if decide (fd = 2) then Some (stderr s)
  else None.
Definition assign_slot (fd : Z) (f : FILE) (s : shell) : shell :=
  if decide (fd = 0) then s <| stdin := f |>
  else if decide (fd = 1) then s <| stdout := f |>
  else if decide (fd = 2) then s <| stderr := f |>
  else s.

Definition touch (fd : Z) (x : bool * bool * bool) : bool * bool * bool :=
  let '(a, b, c) := x in ((a || bool_decide (fd = 0))%bool, (b || bool_decide (fd = 1))%bool, (c || bool_decide (fd = 2))%bool).

(** The stream of a slot is assigned, for the redirections in [saved]. *)
Definition redirect (fd : Z) (f : FILE) (saved : sh_redir_saved) : M shell sh_redir_saved :=
  modify (assign_slot fd f);; mret (RedirSaved (orig saved) (touch fd (touched saved)) (opened saved)).

Definition open_target (it : sh_redir_rt) (target : text) : M shell (FILE + Z) :=
  platform match rt_op it with
    | SH_RD_OUT => fopen target Write
    | SH_RD_APPEND => fopen target Append
    | SH_RD_CLOSE => fopen target (if decide (rt_fd it = 0) then Read else Write)
    | _ => fopen target Read
    end.

(** The items from the first on; the flag tells whether all were possible. *)
Fixpoint apply_items (l : list sh_redir_rt) (saved : sh_redir_saved) : M shell (bool * sh_redir_saved) :=
  match l with
  | [] => mret (true, saved)
  | it :: l' =>
      slot ← gets (sh_stream_slot (rt_fd it));
      match slot with
      | None => mret (false, saved)
      | Some _ =>
          if match rt_op it with SH_RD_DUP => true | _ => false end then
            src ← gets (sh_stream_slot (rt_dupfd it));
            match src with
            | None => mret (false, saved)
            | Some f => saved ← redirect (rt_fd it) f saved; apply_items l' saved
            end
          else
            w ← gets files;
            let path := default ($"/dev/null") (rt_path it) in
            let target := match rt_path it with Some p => default p (shell_bridge_resolve p REDIR_PATH_SIZE w) | None => path end in
            r ← open_target it target;
            match r with
            | inl f =>
                saved ← redirect (rt_fd it) f
                  (RedirSaved (orig saved) (touched saved)
                    (if (length (opened saved) <? MAX_OPENED)%nat then opened saved ++ [f] else opened saved));
                apply_items l' saved
            | inr errno =>
                complain [$"sh: cannot open "; target; $": "; strerror errno; $" (errno "; print_long errno; $")"; [newline]];;
                mret (false, saved)
            end
      end
  end.

Definition sh_redir_restore (saved : sh_redir_saved) : M shell unit :=
  let '(f0, f1, f2) := orig saved in
  let '(t0, t1, t2) := touched saved in
  (if t0 : bool then modify (assign_slot 0 f0) else mret tt);;
  (if t1 : bool then modify (assign_slot 1 f1) else mret tt);;
  (if t2 : bool then modify (assign_slot 2 f2) else mret tt);;
  for_list (λ f, platform (λ w, (tt, fclose f w))) (opened saved).

(** What has to be restored, or none if the redirections failed and were undone. *)
Definition sh_redir_apply (l : list sh_redir_rt) : M shell (option sh_redir_saved) :=
  s ← get;
  '(ok, saved) ← apply_items l (RedirSaved (stdin s, stdout s, stderr s) (false, false, false) []);
  if ok : bool then mret (Some saved) else sh_redir_restore saved;; mret None.

(** * The port (sh_port_tactility.c) *)

Definition sh_port_tmpfile : M shell text :=
  i ← gets next_id; modify (λ s, s <| next_id := i + 1 |>);;
  gets (λ s, shell_bridge_temp_path i PATH_BUFFER (files s)).
Definition sh_port_chdir (path : text) : M shell bool := platform (shell_bridge_chdir path).
Definition sh_port_run_external (argv : list text) : M shell (Z * bool) :=
  s ← get; platform (shell_bridge_run_command argv (stdin s) (stdout s) (stderr s)).
Definition remove_file (path : text) : M shell unit := platform (λ w, (tt, remove path w)).
End state.
