(* ===== verification/ShellFrames.v ===== *)
(** The frames of the shell's execution machine, sh_machine.h: the state of every construct
    that is not finished.  A frame that has a pointer into the frame that called it finds
    that frame right below its own on the stack. *)

From S2P Require Import Prelude Text ShellLex ShellParse ShellState.

Abbreviation Fields := (list text).

(** What a finished frame hands to the frame that pushed it. *)
Record Result := Res { status : Z; rtext : text; rfields : Fields }.

(** The field currently being built during expansion. *)
Record FieldBuilder := Builder { ftext : text; fstarted : bool }.
#[export] Instance FieldBuilder_settable : Settable FieldBuilder := constr Builder <*> ftext <*> fstarted.
Definition empty_field : FieldBuilder := Builder [] false.
Definition put (b : FieldBuilder) (c : ascii) : FieldBuilder := Builder (ftext b ++ [c]) true.
Definition puts (s : text) (b : FieldBuilder) : FieldBuilder := foldl put b s.
Definition emit (b : FieldBuilder) (out : Fields) : Fields := if fstarted b then out ++ [ftext b] else out.
Definition emitForced (b : FieldBuilder) (out : Fields) : Fields := out ++ [ftext b].

Section frames.
Context {P : Platform}.

(** Redirections around a command: what to restore if they are active, and the files of
    here-documents. *)
Record Redirections := Redirs { io : option sh_redir_saved; tempFiles : list text }.
Definition no_redirections : Redirections := Redirs None [].

(** Expansions.  [todo] is the raw word from the index [i] on. *)
Inductive expand_mode := Word | Single | Heredoc.
Inductive Pending := No_pending | Arithmetic (split : bool) | CommandSubstitution (split : bool) | Brace | Backtick.
Record Expand := Expansion {
  raw : text;
  mode : expand_mode;
  allowSplit : bool;
  allowTilde : bool;
  quotedContext : bool;
  field : FieldBuilder;
  out : Fields;
  todo : text;
  started : bool;
  inDoubleQuote : bool;
  pending : Pending;
}.
#[export] Instance Expand_settable : Settable Expand :=
  constr Expansion <*> raw <*> mode <*> allowSplit <*> allowTilde <*> quotedContext <*> field <*> out <*> todo <*>
  started <*> inDoubleQuote <*> pending.
Definition expand (m : expand_mode) (split tilde quoted : bool) (s : text) : Expand :=
  Expansion s m split tilde quoted empty_field [] s false false No_pending.
Definition expand_word : text → Expand := expand Word true true false.
Definition expand_single (allowTilde quotedContext : bool) : text → Expand := expand Single false allowTilde quotedContext.
Definition expand_heredoc : text → Expand := expand Heredoc false false false.

(** The interior of "${ }", which appends to the field of the expansion below it. *)
Inductive brace_phase := Brace_Start | Brace_Strip (stripKind : ascii) (longest : bool) | Brace_Plus | Brace_Minus | Brace_Assign | Brace_Error.
Record ExpandBrace := BraceExpansion { content : text; bquoted : bool; bsplit : bool; bphase : brace_phase; bname : text }.

(** What a subshell puts back. *)
Record Snapshot := Snap {
  savedVars : gmap text sh_var;
  savedPositional : list text;
  savedArg0 : option text;
  savedCwd : text;
  savedLogicalCwd : option text;
  savedFlow : FlowFlags;
  savedErrexit : bool;
  savedNounset : bool;
}.

Inductive run_mode := Plain | Eval | Source.
Inductive andor_phase := AndOr_Start | AndOr_Left | AndOr_Right.
Inductive if_phase := If_Start | If_Condition | If_Tail.
Inductive while_phase := While_Start | While_Condition | While_Body.
Inductive for_phase := For_Start | For_Expanding | For_Body.
Inductive case_phase := Case_Start | Case_Subject | Case_Pattern | Case_Tail.

(** A pipeline: the two files, the stage, and the streams and flags of the stage. *)
Record ExecPipe := Pipe {
  tempA : text;
  tempB : text;
  stage : nat;
  pipe_status : Z;
  previousOutput : option text;
  stageIo : option sh_redir_saved;
  stageFlow : FlowFlags;
}.
#[export] Instance ExecPipe_settable : Settable ExecPipe :=
  constr Pipe <*> tempA <*> tempB <*> stage <*> pipe_status <*> previousOutput <*> stageIo <*> stageFlow.

(** A simple command. *)
Inductive simple_phase := Simple_Start | PureAssign | PureRedirected | Words | EmptyAssign | PrefixAssign | Simple_Redirected | Ran.
Record Binding := Bind { binding_name : text; binding_value : option text; environment : option text }.
Record ExecSimple := SimpleCommand {
  phase : simple_phase;
  index : nat;
  emptyStatus : Z;
  argv : Fields;
  redirections : option Redirections;
  bindings : list Binding;
}.
#[export] Instance ExecSimple_settable : Settable ExecSimple :=
  constr SimpleCommand <*> phase <*> index <*> emptyStatus <*> argv <*> redirections <*> bindings.

(** A constructor for each alternative of [Frame], or for each of its phases, where they
    keep different data.  [n] is the node and [exempt] whether errexit does not apply. *)
Inductive Frame :=
  | RunProgram (source : text) (m : run_mode) (positional : option Fields)
  | RunProgram_Started (m : run_mode) (root : option addr) (swapped : option (list text))
  | ExecNode (n : option addr) (exempt : bool)
  | ExecNode_Redirected (n : addr) (exempt : bool) (r : Redirections)
  | ExecNode_Body (n : addr) (exempt : bool) (r : option Redirections)
  | ExecList (n : addr) (exempt : bool) (index : nat) (status : Z) (started : bool)
  | ExecAndOr (n : addr) (exempt : bool) (ph : andor_phase)
  | ExecIf (n : addr) (exempt : bool) (clause : nat) (ph : if_phase)
  | ExecWhile (n : addr) (exempt : bool) (status : Z) (ph : while_phase)
  | ExecFor (n : addr) (exempt : bool) (items : Fields) (word item : nat) (status : Z) (ph : for_phase)
  | ExecCase (n : addr) (exempt : bool) (subject : text) (clause pattern : nat) (ph : case_phase)
  | ExecGroup (n : addr) (exempt : bool)
  | ExecGroup_Started (n : addr) (exempt : bool) (saved : option Snapshot)
  | ExecPipe_ (n : addr) (exempt : bool) (p : option ExecPipe)
  | ExecPipe_Single (n : addr) (exempt : bool)
  | ExecSimple_ (n : addr) (exempt : bool) (c : ExecSimple)
  | CallFunction (name : text) (body : option addr) (args : Fields) (exempt : bool)
  | CallFunction_Entered (callerPositional : list text) (previousReturning : bool)
  | ApplyRedirects (n : addr) (index : nat) (waiting : bool) (items : list sh_redir_rt)
  | CommandSubst (command : text)
  | CommandSubst_Started (tempFile : text) (io : option sh_redir_saved) (saved : FlowFlags)
  | Expand_ (e : Expand)
  | ExpandBrace_ (b : ExpandBrace).

(** What a step answers: a child frame to run first, or the result.  The frame comes back
    as the step left it.  [Unfinished] is for a loop inside the step that used its fuel. *)
Inductive Step := Call (self callee : Frame) | Return (self : Frame) (r : Result) | Unfinished.
End frames.

(** [Machine::done] *)
Definition status_result (n : Z) : Result := Res n [] [].
Definition text_result (s : text) : Result := Res 0 s [].
Definition fields_result (l : Fields) : Result := Res 0 [] l.
