(* ===== verification/ShellExpand.v ===== *)
(** Word expansion, sh_expand.cpp: parameters, arithmetic and command substitution, quote
    removal, field splitting and pathnames. *)

From S2P Require Import Prelude Text ShellGlob Arith ShellLex ShellParse ShellState ShellFrames.

(** * Characters *)

Definition is_ifs (ifs : text) (c : ascii) : bool := bool_decide (c ∈ ifs).
Definition is_ifs_ws (c : ascii) : bool := bool_decide (c ∈ [" "%char; tab; newline]).

(** Whether a word has a metacharacter that is not quoted. *)
Inductive quoting := Unquoted | SingleQuoted | DoubleQuoted.
Fixpoint scan_glob (q : quoting) (s : text) : bool :=
  match s with
  | [] => false
  | c :: s' =>
      match q with
      | SingleQuoted => scan_glob (if decide (c = quote) then Unquoted else SingleQuoted) s'
      | DoubleQuoted =>
          if decide (c = backslash) then match s' with _ :: s'' => scan_glob DoubleQuoted s'' | [] => false end
          else scan_glob (if decide (c = dquote) then Unquoted else DoubleQuoted) s'
      | Unquoted =>
          if decide (c = quote) then scan_glob SingleQuoted s'
          else if decide (c = dquote) then scan_glob DoubleQuoted s'
          else if decide (c = backslash) then match s' with _ :: s'' => scan_glob Unquoted s'' | [] => false end
          else if bool_decide (c ∈ $"*?[") then true
          else scan_glob Unquoted s'
      end
  end.
Definition raw_has_glob (s : text) : bool := scan_glob Unquoted s.

(** * Field splitting *)

Definition skip_ifs_ws (ifs q : text) : text := drop (span (λ c, is_ifs ifs c && is_ifs_ws c)%bool q) q.

(** After the first character of a delimiter run: what follows the delimiter. *)
Definition skip_delimiter (ifs q : text) : text :=
  let q := skip_ifs_ws ifs q in
  match q with
  | c :: r => if (is_ifs ifs c && negb (is_ifs_ws c))%bool then skip_ifs_ws ifs r else q
  | [] => []
  end.

Fixpoint split_loop (fuel : nat) (ifs q : text) (b : FieldBuilder) (out : Fields) : FieldBuilder * Fields :=
  match fuel with
  | O => (b, out)
  | S f =>
      let n := span (λ c, negb (is_ifs ifs c)) q in
      let b := puts (take n q) b in
      match drop n q with
      | [] => (b, out)
      | q' =>
          let out := emitForced b out in
          match skip_delimiter ifs q' with
          | [] => (empty_field, out)
          | q'' => split_loop f ifs q'' empty_field out
          end
      end
  end.

(** A value for the field; every turn of the loop takes a character. *)
Definition append_val (b : FieldBuilder) (out : Fields) (v : text) (split : bool) (ifs : text) : FieldBuilder * Fields :=
  if split then
    let q := if fstarted b then v else skip_ifs_ws ifs v in
    split_loop (S (length q)) ifs q b out
  else (puts v b, out).

(** * Parameters *)

Definition is_var_name (name : text) : bool :=
  match name with
  | c :: q => ((isalpha c || bool_decide (c = "_"%char)) && forallb (λ d, isalnum d || bool_decide (d = "_"%char)) q)%bool
  | [] => false
  end.

Definition param_name_max : nat := 127.

(** What "@" and "*" do to the field and the fields before it. *)
Definition at_sep (ifs : option text) : option ascii :=
  match ifs with Some [] => None | Some (c :: _) => Some c | None => Some " "%char end.
Fixpoint join (sep : option ascii) (l : list text) : text :=
  match l with [] => [] | [s] => s | s :: l' => s ++ option_list sep ++ join sep l' end.
(** The parameters, a field each; [first] is [i == 0]. *)
Fixpoint at_loop (first quoted split : bool) (ifs : text) (l : list text) (b : FieldBuilder) (out : Fields) : FieldBuilder * Fields :=
  match l with
  | [] => (b, out)
  | s :: l' =>
      let '(b, out) := if first then (b, out) else (empty_field, emit b out) in
      let '(b, out) := if quoted then (Builder (ftext b ++ s) true, out) else append_val b out s split ifs in
      at_loop false quoted split ifs l' b out
  end.
Definition at_star (l : list text) (ifsv : option text) (star quoted : bool) (b : FieldBuilder) (out : Fields)
    (split : bool) (ifs : text) : FieldBuilder * Fields :=
  if (star && quoted)%bool then append_val b out (join (at_sep ifsv) l) false ifs
  else
    match l with
    | [] => (if (quoted && negb star && bool_decide (ftext b = []))%bool then b <| fstarted := false |> else b, out)
    | _ => at_loop true quoted split ifs l b out
    end.

Section expand.
Context `{Platform} `{Long}.
Implicit Types (e : Expand).

Definition get_ifs : M shell text := v ← sh_get ($"IFS"); mret (default [" "%char; tab; newline] v).

(** The value of a parameter; none if it is not set. *)
Definition param_raw (name : text) : M shell (option text) :=
  s ← gets st;
  let npos := Z.of_nat (length (pos s)) in
  let zero := Some (default [] (arg0 s)) in
  match name with
  | [] => mret None
  | [c] =>
      if decide (c = "?"%char) then mret (Some (print_long (last_status s)))
      else if decide (c = "#"%char) then mret (Some (print_long npos))
      else if decide (c = "$"%char) then mret (Some ($"1"))
      else if decide (c = "!"%char) then mret (Some [])
      else if decide (c = "-"%char) then mret (Some [])
      else if decide (c = "0"%char) then mret zero
      else if isdigit c then mret (pos s !! Z.to_nat (code c - code "1"))
      else sh_get name
  | _ =>
      if forallb isdigit name then
        let idx := (strtol 32 name).1.1 in
        if decide (idx = 0) then mret zero
        else if ((1 <=? idx) && (idx <=? npos))%bool then mret (pos s !! Z.to_nat (idx - 1))
        else mret None
      else sh_get name
  end.

(** The shell has to stop, with status 2. *)
Definition fatal : M shell unit :=
  set_flow (λ f, f <| exiting := true |> <| exit_code := 2 |>);; setst (λ s, s <| last_status := 2 |>).

Definition nounset_fire (name : text) (val : option text) : M shell bool :=
  opt ← getst opt_nounset;
  if (is_some val || negb opt)%bool then mret false
  else complain [name; $": parameter not set"; [newline]];; fatal;; mret true.

Definition expand_at_star (star quoted : bool) (b : FieldBuilder) (out : Fields) (split : bool) (ifs : text) : M shell (FieldBuilder * Fields) :=
  l ← getst pos; v ← sh_get ($"IFS"); mret (at_star l v star quoted b out split ifs).

(** A value for the field of an expansion. *)
Definition append (v : text) (split : bool) (e : Expand) : M shell Expand :=
  ifs ← get_ifs;
  let '(b, o) := append_val (field e) (out e) v split ifs in mret (e <| field := b |> <| out := o |>).

(** The variables after an evaluation, which assigns them with [sh_set]. *)
Definition assign_all (m : gmap text text) : M shell unit :=
  v ← getst vars;
  for_list (λ '(n, x), if bool_decide (value <$> v !! n = Some x) then mret tt else sh_set n x) (map_to_list m).

(** The value of a parameter for the field, unless it has to be set and is not. *)
Definition append_param (name : text) (split : bool) (e : Expand) : M shell Expand :=
  val ← param_raw name; b ← nounset_fire name val;
  if b : bool then mret e else append (default [] val) split e.

(** * Scanning an expansion *)

(** The expression of "$(( ))", after its parentheses: the text before the parenthesis that
    closes them, and the text from there on. *)
Fixpoint arith_span (depth : nat) (s : text) : text * text :=
  match s with
  | [] => ([], [])
  | c :: s' =>
      let depth := if decide (c = "("%char) then S depth else if decide (c = ")"%char) then pred depth else depth in
      if decide (depth = O) then ([], s) else let '(a, r) := arith_span depth s' in (c :: a, r)
  end.
Definition skip_char (c : ascii) (s : text) : text := if at_char c s then tail s else s.

(** Inside quotes: up to the closing quote, with it if it is there. *)
Fixpoint skip_dquoted (s : text) : text * text :=
  match s with
  | [] => ([], [])
  | c :: s' =>
      if decide (c = dquote) then ([c], s')
      else if decide (c = backslash) then
        match s' with d :: s'' => let '(a, r) := skip_dquoted s'' in (c :: d :: a, r) | [] => ([c], []) end
      else let '(a, r) := skip_dquoted s' in (c :: a, r)
  end.

Definition before_pair (a : text) (x : text * text) : text * text := (a ++ x.1, x.2).

(** The command of "$( )". *)
Fixpoint command_span (fuel depth : nat) (s : text) : text * text :=
  match fuel with
  | O => ([], s)
  | S f =>
      match s with
      | [] => ([], [])
      | d :: s' =>
          if decide (d = quote) then let '(a, r) := copy_quoted quote s' in before_pair (d :: a) (command_span f depth r)
          else if decide (d = dquote) then let '(a, r) := skip_dquoted s' in before_pair (d :: a) (command_span f depth r)
          else if (bool_decide (d = backslash) && negb (bool_decide (s' = [])))%bool then
            before_pair (d :: take 1 s') (command_span f depth (tail s'))
          else if decide (d = "("%char) then before_pair [d] (command_span f (S depth) s')
          else if decide (d = ")"%char) then
            if decide (depth = 1%nat) then ([], s) else before_pair [d] (command_span f (pred depth) s')
          else before_pair [d] (command_span f depth s')
      end
  end.

(** A command substitution inside "${ }": to its closing parenthesis, quotes or not. *)
Fixpoint paren_span (pd : nat) (s : text) : text * text :=
  match s with
  | [] => ([], [])
  | c :: s' =>
      if decide (c = ")"%char) then
        if decide (pd = 1%nat) then ([c], s') else before_pair [c] (paren_span (pred pd) s')
      else before_pair [c] (paren_span (if decide (c = "("%char) then S pd else pd) s')
  end.

(** The interior of "${ }". *)
Fixpoint brace_span (fuel depth : nat) (s : text) : text * text :=
  match fuel with
  | O => ([], s)
  | S f =>
      match s with
      | [] => ([], [])
      | d :: s' =>
          if (bool_decide (d = backslash) && negb (bool_decide (s' = [])))%bool then
            before_pair (d :: take 1 s') (brace_span f depth (tail s'))
          else if decide (d = quote) then let '(a, r) := copy_quoted quote s' in before_pair (d :: a) (brace_span f depth r)
          else if decide (d = dquote) then let '(a, r) := skip_dquoted s' in before_pair (d :: a) (brace_span f depth r)
          else if (bool_decide (d = "$"%char) && at_char "{" s')%bool then before_pair [d; "{"%char] (brace_span f (S depth) (tail s'))
          else if (bool_decide (d = "$"%char) && at_char "(" s')%bool then
            let '(a, r) := paren_span 1 (tail s') in before_pair (d :: "("%char :: a) (brace_span f depth r)
          else if decide (d = "{"%char) then before_pair [d] (brace_span f (S depth) s')
          else if decide (d = "}"%char) then
            if decide (depth = 1%nat) then ([], s) else before_pair [d] (brace_span f (pred depth) s')
          else before_pair [d] (brace_span f depth s')
      end
  end.

(** The text of a backtick substitution, with its escapes. *)
Fixpoint backtick_span (s : text) : text * text :=
  match s with
  | [] => ([], [])
  | c :: s' =>
      if decide (c = "`"%char) then ([], s')
      else if (bool_decide (c = backslash) && (at_char "`" s' || at_char backslash s' || at_char "$" s'))%bool then
        match s' with d :: s'' => before_pair [d] (backtick_span s'') | [] => ([], []) end
      else before_pair [c] (backtick_span s')
  end.

Definition name_span (s : text) : nat := Nat.min param_name_max (span (λ c, isalnum c || bool_decide (c = "_"%char))%bool s).

(** The expansion after a dollar: a frame to wait for, or the value appended. *)
Definition dollar (split quoted : bool) (e : Expand) : M shell (option Frame * Expand) :=
  let s := tail (todo e) in
  let scalar (n : nat) := e ← append_param (take n s) split e; mret (None, e <| todo := drop n s |>) in
  if bool_decide (take 2 s = $"((") then
    let '(inner, r) := arith_span 1 (drop 2 s) in
    mret (Some (Expand_ (expand_heredoc inner)),
          e <| todo := skip_char ")" (skip_char ")" r) |> <| pending := Arithmetic split |>)
  else if at_char "(" s then
    let '(inner, r) := command_span (length s) 1 (tail s) in
    mret (Some (CommandSubst inner),
          e <| todo := skip_char ")" r |> <| pending := CommandSubstitution (if quoted then false else split) |>)
  else if at_char "{" s then
    let '(inner, r) := brace_span (length s) 1 (tail s) in
    mret (Some (ExpandBrace_ (BraceExpansion inner quoted split Brace_Start [])),
          e <| todo := skip_char "}" r |> <| pending := Brace |>)
  else if (at_char "@" s || at_char "*" s)%bool then
    ifs ← get_ifs;
    '(b, o) ← expand_at_star (at_char "*" s) quoted (field e) (out e) split ifs;
    mret (None, e <| field := b |> <| out := o |> <| todo := tail s |>)
  else
    match s with
    | c :: _ =>
        if bool_decide (c ∈ $"?#$!-") then scalar 1%nat
        else if isdigit c then scalar 1%nat
        else if (isalpha c || bool_decide (c = "_"%char))%bool then scalar (name_span s)
        else mret (None, e <| field := put (field e) "$" |> <| todo := s |>)
    | [] => mret (None, e <| field := put (field e) "$" |> <| todo := s |>)
    end.

(** The loop of [scanWord]; a frame to wait for, or none at the end of the word.  Every
    turn takes a character of the word or leaves the double quotes. *)
Fixpoint scanWord (fuel : nat) (e : Expand) : M shell (option Frame * Expand) :=
  match fuel with
  | O => undef
  | S f =>
      let take_char c r := scanWord f (e <| field := put (field e) c |> <| todo := r |>) in
      let value quoted :=
        '(call, e') ← dollar (if quoted : bool then false else allowSplit e) quoted e;
        match call with Some c => mret (Some c, e') | None => scanWord f e' end in
      if inDoubleQuote e then
        match todo e with
        | [] => scanWord f (e <| inDoubleQuote := false |>)
        | c :: r =>
            if decide (c = dquote) then scanWord f (e <| todo := r |> <| inDoubleQuote := false |>)
            else if (bool_decide (c = backslash) && (at_char "$" r || at_char dquote r || at_char backslash r || at_char "`" r))%bool
            then take_char (default NUL (head r)) (tail r)
            else if decide (c = "$"%char) then value true
            else take_char c r
        end
      else
        match todo e with
        | [] => mret (None, e)
        | c :: r =>
            if decide (c = quote) then
              let n := span (λ d, negb (bool_decide (d = quote))) r in
              scanWord f (e <| field := puts (take n r) (field e <| fstarted := true |>) |> <| todo := skip_char quote (drop n r) |>)
            else if decide (c = dquote) then
              scanWord f (e <| field := field e <| fstarted := true |> |> <| todo := r |> <| inDoubleQuote := true |>)
            else if decide (c = backslash) then
              if quotedContext e then
                if (at_char "$" r || at_char dquote r || at_char "`" r || at_char backslash r)%bool
                then take_char (default NUL (head r)) (tail r)
                else take_char backslash r
              else match r with d :: r' => take_char d r' | [] => scanWord f (e <| todo := [] |>) end
            else if decide (c = "$"%char) then value false
            else take_char c r
        end
  end.

(** The loop of [scanHeredoc]. *)
Fixpoint scanHeredoc (fuel : nat) (e : Expand) : M shell (option Frame * Expand) :=
  match fuel with
  | O => undef
  | S f =>
      match todo e with
      | [] => mret (None, e)
      | c :: r =>
          if (bool_decide (c = backslash) && (at_char "$" r || at_char "`" r || at_char backslash r || at_char newline r))%bool then
            scanHeredoc f ((if at_char newline r then e else e <| field := put (field e) (default NUL (head r)) |>) <| todo := tail r |>)
          else if decide (c = "$"%char) then
            '(call, e') ← dollar false true e;
            match call with Some c => mret (Some c, e') | None => scanHeredoc f e' end
          else if decide (c = "`"%char) then
            let '(command, r') := backtick_span r in
            mret (Some (CommandSubst command), e <| todo := r' |> <| pending := Backtick |>)
          else scanHeredoc f (e <| field := put (field e) c |> <| todo := r |>)
      end
  end.

(** * The frame of an expansion *)

(** Tilde expansion, at the first step. *)
Definition begin (e : Expand) : M shell Expand :=
  let e := e <| started := true |> in
  match mode e with
  | Heredoc => mret (e <| field := field e <| fstarted := true |> |>)
  | _ =>
      let r := tail (todo e) in
      if (at_char "~" (todo e) && allowTilde e && (bool_decide (r = []) || at_char "/" r))%bool then
        home ← sh_get ($"HOME");
        match home with
        | Some h => mret (e <| field := puts h (field e) <| fstarted := true |> |> <| todo := r |>)
        | None => mret e
        end
      else mret e
  end.

(** The value of the child that the scan waited for; none if the evaluator needs more fuel. *)
Definition resume (fuel : nat) (r : Result) (e : Expand) : M shell (option Expand) :=
  let e' := e <| pending := No_pending |> in
  match pending e with
  | Arithmetic split =>
      v ← getst vars;
      match sh_arith_eval fuel (value <$> v) (rtext r) with
      | Done (Value n m) => assign_all m;; e' ← append (print_long n) split e'; mret (Some e')
      | Done (Error msg m) => assign_all m;; complain [$"sh: arithmetic: "; msg; [newline]];; fatal;; mret (Some e')
      | Done Running => mret None
      | _ => undef
      end
  | CommandSubstitution split => e' ← append (rtext r) split e'; mret (Some e')
  | Backtick => mret (Some (e' <| field := puts (rtext r) (field e') |>))
  | Brace | No_pending => mret (Some e')
  end.

(** Fields that are patterns become the names that match, if there are any. *)
Definition glob_fields (w : world) (l : Fields) : Fields :=
  concat ((λ s, match @sh_glob_pathnames (directories w) s with [] => [s] | names => names end) <$> l).

Definition expand_result (e : Expand) : M shell Result :=
  match mode e with
  | Heredoc => mret (text_result (ftext (field e)))
  | Single => mret (text_result (join (Some " "%char) (emit (field e) (out e))))
  | Word =>
      let l := emit (field e) (out e) in
      if raw_has_glob (raw e) then w ← gets files; mret (fields_result (glob_fields w l)) else mret (fields_result l)
  end.

Definition expand_step (fuel : nat) (r : Result) (e : Expand) : M shell Step :=
  o ← resume fuel r e;
  match o with
  | None => mret Unfinished
  | Some e =>
      e ← (if started e then mret e else begin e);
      let turns := (2 * length (todo e) + 2)%nat in
      '(call, e) ← (match mode e with Heredoc => scanHeredoc turns e | _ => scanWord turns e end);
      match call with
      | Some c => mret (Call (Expand_ e) c)
      | None => res ← expand_result e; mret (Return (Expand_ e) res)
      end
  end.

(** * The interior of "${ }" *)

(** The name before an operator. *)
Definition brace_name (c : text) : text :=
  match c with
  | d :: _ =>
      if bool_decide (d ∈ $"@*?!$-#") then [d]
      else if isdigit d then take (Nat.min param_name_max (span isdigit c)) c
      else if (isalpha d || bool_decide (d = "_"%char))%bool then take (name_span c) c
      else []
  | [] => []
  end.

(** The length form "${#name}". *)
Definition is_length_form (c : text) : bool :=
  match c with
  | "#"%char :: d :: r => (isalnum d || bool_decide (d ∈ $"_@*") || (bool_decide (d = "#"%char) && bool_decide (r = [])))%bool
  | _ => false
  end.

(** The frame, the result or the child, and the expansion below. *)
Definition brace_done (b : ExpandBrace) (e : Expand) : M shell (Step * Expand) :=
  mret (Return (ExpandBrace_ b) (status_result 0), e).
Definition brace_call (b : ExpandBrace) (ph : brace_phase) (name : text) (callee : Expand) (e : Expand) : M shell (Step * Expand) :=
  mret (Call (ExpandBrace_ (BraceExpansion (content b) (bquoted b) (bsplit b) ph name)) (Expand_ callee), e).

Definition brace_start (b : ExpandBrace) (e : Expand) : M shell (Step * Expand) :=
  let c := content b in
  let split := bsplit b in
  let value_split := if bquoted b then false else split in
  if is_length_form c then
    let nm := tail c in
    if (bool_decide (nm = $"@") || bool_decide (nm = $"*"))%bool then
      n ← getst (λ s, Z.of_nat (length (pos s))); e ← append (print_long n) split e; brace_done b e
    else
      v ← param_raw nm; f ← nounset_fire nm v;
      if f : bool then brace_done b e
      else e ← append (print_long (Z.of_nat (length (default [] v)))) split e; brace_done b e
  else
    let name := brace_name c in
    let r := drop (length name) c in
    match r with
    | [] =>
        if (bool_decide (name = $"@") || bool_decide (name = $"*"))%bool then
          ifs ← get_ifs;
          '(f, o) ← expand_at_star (at_char "*" name) (bquoted b) (field e) (out e) split ifs;
          brace_done b (e <| field := f |> <| out := o |>)
        else e ← append_param name split e; brace_done b e
    | k :: r' =>
        if (bool_decide (k = "#"%char) || bool_decide (k = "%"%char))%bool then
          let longest := at_char k r' in
          brace_call b (Brace_Strip k longest) name (expand_single true false (if longest then tail r' else r')) e
        else
          let colon := (bool_decide (k = ":"%char) && (at_char "-" r' || at_char "+" r' || at_char "=" r' || at_char "?" r'))%bool in
          let r := if colon then r' else r in
          val ← param_raw name;
          match r with
          | o :: word =>
              if bool_decide (o ∈ $"-+=?") then
                let active := if colon then bool_decide (default [] val = []) else negb (is_some val) in
                let wait ph := brace_call b ph name (expand_single (negb (bquoted b)) (bquoted b) word) e in
                if decide (o = "+"%char) then if active then brace_done b e else wait Brace_Plus
                else if active then wait (if decide (o = "-"%char) then Brace_Minus else if decide (o = "="%char) then Brace_Assign else Brace_Error)
                else e ← append (default [] val) value_split e; brace_done b e
              else e ← append (default [] val) split e; brace_done b e
          | [] => e ← append (default [] val) split e; brace_done b e
          end
    end.

Definition brace_step (r : Result) (b : ExpandBrace) (e : Expand) : M shell (Step * Expand) :=
  let value_split := if bquoted b then false else bsplit b in
  match bphase b with
  | Brace_Start => brace_start b e
  | Brace_Strip k longest =>
      v ← param_raw (bname b);
      let subject := default [] v in
      let stripped := (if decide (k = "#"%char) then sh_strip_prefix else sh_strip_suffix) subject (rtext r) longest in
      e ← append stripped (bsplit b) e; brace_done b e
  | Brace_Plus | Brace_Minus => e ← append (rtext r) value_split e; brace_done b e
  | Brace_Assign =>
      (if is_var_name (bname b) then sh_set (bname b) (rtext r)
       else complain [bname b; $": cannot assign in this way"; [newline]]);;
      e ← append (rtext r) value_split e; brace_done b e
  | Brace_Error =>
      complain [bname b; $": "; (match rtext r with [] => $"parameter not set" | m => m end); [newline]];;
      fatal;; brace_done b e
  end.
End expand.
