(* ===== verification/ShellFields.v ===== *)
(** Field splitting of sh_expand.cpp, against the definition of the shell language: a
    value is its fields with a delimiter after each of them but, possibly, the last. *)

From S2P Require Import Prelude Text ShellGlob Arith ShellLex ShellParse ShellState ShellFrames ShellExpand.

Section fields.
Variable ifs : text.
Implicit Types (v w f d : text) (fs : Fields).

(** * The language of fields *)

Definition separator (c : ascii) : Prop := is_ifs ifs c = true.
Definition ifs_blank (c : ascii) : Prop := is_ifs ifs c = true ∧ is_ifs_ws c = true.
Definition begins (p : ascii → Prop) v : Prop := match v with c :: _ => p c | [] => False end.

(** A run of blanks, or one other separator with the blanks around it. *)
Inductive delimiter : bool → text → Prop :=
  | Blanks d : d ≠ [] → Forall ifs_blank d → delimiter true d
  | Around d c w : Forall ifs_blank d → separator c → is_ifs_ws c = false → Forall ifs_blank w → delimiter false (d ++ c :: w).

(** The fields of a value.  A delimiter is as long as it can be.  With [started], the first
    field goes on with characters from before the value; otherwise blanks in front of it
    separate nothing, and are none here. *)
Inductive split (started : bool) : text → Fields → Prop :=
  | Split_last f : Forall (λ c, ¬ separator c) f → split started f (if (started || negb (bool_decide (f = [])))%bool then [f] else [])
  | Split_more f blanks d v fs :
      Forall (λ c, ¬ separator c) f → delimiter blanks d → (if blanks then ¬ begins separator v else ¬ begins ifs_blank v) →
      (f = [] → started = false → ¬ begins ifs_blank d) →
      split false v fs → split started (f ++ d ++ v) (f :: fs).
Inductive fields (started : bool) : text → Fields → Prop :=
  Value w v fs : Forall ifs_blank w → (started = true → w = []) → (started = false → ¬ begins ifs_blank v) →
    split started v fs → fields started (w ++ v) fs.

(** * The loop finds them *)

Lemma separator_dec c : Decision (separator c).
Proof. unfold separator. apply _. Defined.
Lemma ifs_blank_separator c : ifs_blank c → separator c.
Proof. by intros []. Qed.

Definition non_blank_start v := ¬ begins ifs_blank v.
Lemma skip_blanks w v : Forall ifs_blank w → ¬ begins ifs_blank v → skip_ifs_ws ifs (w ++ v) = v.
Proof.
  intros Hw Hv. unfold skip_ifs_ws. induction Hw as [|c w [Hc1 Hc2] Hw IH]; cbn [app span].
  - destruct v as [|c v]; cbn [span]; [done|]. case_match; [|done]. by apply andb_prop in H.
  - by rewrite Hc1, Hc2.
Qed.

Lemma span_field f v : Forall (λ c, ¬ separator c) f → (v = [] ∨ begins separator v) → span (λ c, negb (is_ifs ifs c)) (f ++ v) = length f.
Proof.
  intros Hf Hv. induction Hf as [|c f Hc Hf IH]; simpl.
  - destruct Hv as [-> |Hv]; [done|]. destruct v as [|c v]; [done|]. simpl in *. unfold separator in Hv. by rewrite Hv.
  - apply not_true_is_false in Hc. by rewrite Hc, IH.
Qed.

Lemma delimiter_begins b d : delimiter b d → begins separator d.
Proof. intros [d' Hd Hb|d' c w Hd Hc Hn Hw]; [destruct Hb as [|? ? []]|destruct Hd as [|? ? []]]; done. Qed.
Lemma begins_app (p : ascii → Prop) d v : begins p d → begins p (d ++ v).
Proof. by destruct d. Qed.

Lemma skip_delimiter_spec b d v :
  delimiter b d → (if b then ¬ begins separator v else ¬ begins ifs_blank v) → skip_delimiter ifs (d ++ v) = v.
Proof.
  intros [d' Hd Hb|d' c w Hd Hc Hn Hw] Hv; unfold skip_delimiter.
  - rewrite skip_blanks; [|done|by intros Hx; apply Hv; destruct v; [|apply ifs_blank_separator]].
    destruct v as [|c v]; [done|]. unfold separator in Hv. simpl in Hv. by rewrite (not_true_is_false _ Hv).
  - rewrite <-app_assoc. rewrite skip_blanks by (done || (intros []; congruence)). cbn [app].
    unfold separator in Hc. rewrite Hc, Hn. by apply skip_blanks.
Qed.

(** What the fields of a value add to a field and the fields before it. *)
Definition after (b : FieldBuilder) (o : Fields) fs : Fields :=
  o ++ match fs with f :: fs => (ftext b ++ f) :: fs | [] => [] end.
Definition well_formed (b : FieldBuilder) : Prop := fstarted b = false → ftext b = [].

Lemma puts_eq f b : puts f b = Builder (ftext b ++ f) (fstarted b || negb (bool_decide (f = []))).
Proof.
  revert b. induction f as [|c f IH]; intros b; simpl; [rewrite app_nil_r, orb_false_r; by destruct b|].
  unfold puts in *. simpl. rewrite IH. simpl. by rewrite <-app_assoc, orb_true_r.
Qed.

Lemma split_loop_split n v b o fs : well_formed b → (length v < n)%nat → split (fstarted b) v fs →
  let '(b', o') := split_loop n ifs v b o in emit b' o' = after b o fs ∧ well_formed b'.
Proof.
  revert v b o fs. induction n as [|n IH]; intros v b o fs Hb Hn; [lia|]. intros Hs. cbn [split_loop].
  destruct Hs as [f Hf|f blanks d v fs Hf Hd Hv Hd0 Hs].
  - assert (span (λ c, negb (is_ifs ifs c)) f = length f) as -> by (pose proof (span_field f [] Hf) as E; rewrite app_nil_r in E; auto).
    rewrite drop_all, firstn_all.
    rewrite puts_eq. unfold emit, after. simpl. destruct (fstarted b || negb (bool_decide (f = [])))%bool eqn:E.
    + done.
    + apply orb_false_elim in E as [E1 E2]. apply negb_false_iff, bool_decide_eq_true in E2 as ->.
      rewrite app_nil_r. split; [done|]. unfold well_formed. simpl. rewrite app_nil_r. auto.
  - rewrite span_field by (done || (right; by eapply begins_app, delimiter_begins)).
    rewrite take_app_length, drop_app_length. pose proof (delimiter_begins _ _ Hd) as Hd1.
    destruct (d ++ v) as [|x q] eqn:E; [by destruct d|]. rewrite <-E in Hn |- *. rewrite (skip_delimiter_spec blanks) by done.
    rewrite puts_eq. unfold emitForced. simpl. destruct v as [|c v].
    + inversion Hs as [f' Hf' E1|f' b' d' v' fs' _ Hd' _ _ _ E1]; [|by destruct f', d'; apply delimiter_begins in Hd'].
      by subst.
    + specialize (IH (c :: v) empty_field (o ++ [ftext b ++ f]) fs). destruct (split_loop _ _ _ _ _) as [b' o'].
      destruct IH as [-> ?]; [done| |done|].
      { rewrite !length_app in Hn. destruct d; [done|]. simpl in *. lia. }
      split; [|done]. unfold after. simpl. rewrite <-app_assoc. simpl. by destruct fs.
Qed.

(** * Every value has fields *)

Lemma blank_dec c : Decision (ifs_blank c).
Proof. unfold ifs_blank. apply _. Defined.
#[local] Existing Instance blank_dec.
#[local] Existing Instance separator_dec.

(** The longest prefix of characters with a property. *)
Lemma longest (p : ascii → Prop) `{∀ c, Decision (p c)} v : ∃ w r, v = w ++ r ∧ Forall p w ∧ ¬ begins p r.
Proof.
  induction v as [|c v (w & r & -> & Hw & Hr)]; [exists [], []; split_and!; [done|constructor|by intros []]|].
  destruct (decide (p c)).
  - exists (c :: w), r. split_and!; [done|by constructor|done].
  - exists [], (c :: w ++ r). split_and!; [done|constructor|done].
Qed.

Lemma delimiter_of v : begins separator v → ∃ b d r, v = d ++ r ∧ delimiter b d ∧ (if b then ¬ begins separator r else ¬ begins ifs_blank r).
Proof.
  intros Hv. destruct (longest ifs_blank v) as (w & r & -> & Hw & Hr). destruct r as [|c r].
  { exists true, w, []. split_and!; [done| |by intros []]. constructor; [by intros ->|done]. }
  destruct (decide (separator c)) as [Hc|Hc].
  - destruct (longest ifs_blank r) as (w' & r' & -> & Hw' & Hr'). exists false, (w ++ c :: w'), r'. split_and!; [by rewrite <-app_assoc| |done].
    constructor; try done. destruct (is_ifs_ws c) eqn:E; [|done]. by destruct Hr.
  - exists true, w, (c :: r). split_and!; [done| |done]. constructor; [|done]. by intros ->.
Qed.

Lemma split_total n started v : (length v < n)%nat → (started = false → ¬ begins ifs_blank v) → ∃ fs, split started v fs.
Proof.
  revert started v. induction n as [|n IH]; intros started v Hn Hv; [lia|].
  destruct (longest (λ c, ¬ separator c) v) as (f & r & -> & Hf & Hr). destruct r as [|c r].
  { rewrite app_nil_r. eexists. by constructor. }
  destruct (delimiter_of (c :: r)) as (b & d & r' & E & Hd & Hr'); [simpl; destruct (decide (separator c)); [done|by destruct Hr]|].
  rewrite E in Hv |- *. pose proof (delimiter_begins _ _ Hd) as Hd1. assert (d ≠ []) as Hd0 by (by intros ->).
  destruct (IH false r') as [fs Hs].
  - rewrite E, !length_app in Hn. destruct d; [done|]. simpl in Hn. lia.
  - intros _. destruct b; [|done]. intros Hx. apply Hr'. destruct r'; [done|by apply ifs_blank_separator].
  - exists (f :: fs). econstructor; try done. intros -> Hst Hx. apply (Hv Hst). cbn [app]. by apply begins_app.
Qed.

Lemma fields_total started v : ∃ fs, fields started v fs.
Proof.
  destruct started.
  - destruct (split_total (S (length v)) true v) as [fs Hs]; [lia|done|]. exists fs. apply (Value true [] v fs); done.
  - destruct (longest ifs_blank v) as (w & r & -> & Hw & Hr).
    destruct (split_total (S (length r)) false r) as [fs Hs]; [lia|done|]. exists fs. by constructor.
Qed.

Lemma append_val_fields b o v fs : well_formed b → fields (fstarted b) v fs →
  let '(b', o') := append_val b o v true ifs in emit b' o' = after b o fs ∧ well_formed b'.
Proof.
  intros Hb Hv. inversion Hv as [w v' fs' Hw Hst Hns Hs E1 E2]. subst. unfold append_val. destruct (fstarted b) eqn:E.
  - rewrite Hst by done. cbn [app]. apply split_loop_split; [done|lia|by rewrite E].
  - rewrite skip_blanks by auto. apply split_loop_split; [done|lia|by rewrite E].
Qed.

(** C23: Appending a value that is to be split adds exactly the fields of the value, as the
    shell language defines them, to the fields before: blanks among the separators join, at
    the ends they separate nothing, any other separator ends a field even if it is empty,
    but one at the end starts none, and the first field goes on with the text before. *)
Theorem append_val_splits b o v fs : well_formed b →
  fields (fstarted b) v fs ↔ (let '(b', o') := append_val b o v true ifs in emit b' o') = after b o fs.
Proof.
  intros Hb. split.
  - intros Hv. pose proof (append_val_fields b o v fs Hb Hv) as E. destruct (append_val _ _ _ _ _). apply E.
  - intros E. destruct (fields_total (fstarted b) v) as [fs' Hv]. pose proof (append_val_fields b o v fs' Hb Hv) as E'.
    destruct (append_val _ _ _ _ _) as [b' o']. destruct E' as [E' _]. rewrite E in E'. unfold after in E'. simplify_list_eq.
    destruct fs as [|f fs], fs' as [|f' fs']; try done. by simplify_list_eq.
Qed.
End fields.

Lemma append_val_splits_witness :
  let ifs := $" ," in
  fields ifs false ($" a  ,b,, c ,") [$"a"; $"b"; []; $"c"] ↔
  (let '(b', o') := append_val empty_field [$"x"] ($" a  ,b,, c ,") true ifs in emit b' o') = [$"x"; $"a"; $"b"; []; $"c"].
Proof. apply (append_val_splits ($" ,") empty_field [$"x"]). done. Defined.
