(* ===== verification/ShellBuiltins.v ===== *)
(** The commands that the shell runs itself, sh_builtins.c. *)

From stdpp Require Import sorting.
From S2P Require Import Prelude Text ShellGlob ShellLex ShellParse ShellState ShellFrames ShellExpand.

(** * Numbers and names *)

(** The number, if all of the text is one. *)
Definition is_int (s : text) : option Z :=
  match s with
  | [] => None
  | _ => let '(v, n, _) := strtol 32 s in if decide (n = length s) then Some v else None
  end.

(** * test *)

Definition t_is_unop (s : text) : bool :=
  match s with [d; c] => (bool_decide (d = "-"%char) && bool_decide (c ∈ $"znefdsrwxthL"))%bool | _ => false end.
Definition t_is_binop (s : text) : bool :=
  bool_decide (s ∈ [$"="; $"!="; $"<"; $">"; $"-eq"; $"-ne"; $"-lt"; $"-le"; $"-gt"; $"-ge"]).

(** The result and whether there was an error. *)
Definition t_binop (a o b : text) : bool * bool :=
  let num (f : Z → Z → bool) :=
    match is_int a, is_int b with Some x, Some y => (f x y, false) | _, _ => (false, true) end in
  if decide (o = $"=") then (bool_decide (a = b), false)
  else if decide (o = $"!=") then (negb (bool_decide (a = b)), false)
  else if decide (o = $"<") then (bool_decide (text_le a b ∧ a ≠ b), false)
  else if decide (o = $">") then (bool_decide (text_le b a ∧ a ≠ b), false)
  else if decide (o = $"-eq") then num Z.eqb
  else if decide (o = $"-ne") then num (λ x y, negb (x =? y))
  else if decide (o = $"-lt") then num Z.ltb
  else if decide (o = $"-le") then num Z.leb
  else if decide (o = $"-gt") then num (λ x y, y <? x)
  else if decide (o = $"-ge") then num (λ x y, y <=? x)
  else (false, true).

Section test.
(** The result of a unary operator on its operand; files are asked for theirs. *)
Variable file_test : ascii → text → bool.

Definition t_unop (o : ascii) (arg : text) : bool :=
  if decide (o = "z"%char) then bool_decide (arg = [])
  else if decide (o = "n"%char) then negb (bool_decide (arg = []))
  else file_test o arg.

(** The operators and the values that wait, with the top first, in arrays of [cap] cells.  A push
    beyond the array ([None]) is no more checked by the code than a pop of an empty stack. *)
Inductive t_op := TNot | TParen | TAnd | TOr.
#[export] Instance t_op_eq_dec : EqDecision t_op.
Proof. solve_decision. Defined.
Record tstack := TStack { t_cap : nat; tops : list t_op; tvals : list bool }.

Definition t_push_op (o : t_op) (t : tstack) : option tstack :=
  if decide (length (tops t) < t_cap t)%nat then Some (TStack (t_cap t) (o :: tops t) (tvals t)) else None.
Definition t_push_val (t : tstack) (v : bool) : option tstack :=
  if decide (length (tvals t) < t_cap t)%nat then Some (TStack (t_cap t) (tops t) (v :: tvals t)) else None.

(** The operator on top; an empty stack is read out of range. *)
Definition t_reduce (t : tstack) : option tstack :=
  match tops t, tvals t with
  | o :: os, rhs :: lhs :: vs =>
      t_push_val (TStack (t_cap t) os vs) (match o with TAnd => rhs && lhs | _ => rhs || lhs end)%bool
  | _, _ => None
  end.

Fixpoint push_negated (os : list t_op) (v : bool) : list t_op * bool :=
  match os with TNot :: os' => push_negated os' (negb v) | _ => (os, v) end.
Definition t_push_operand (t : tstack) (v : bool) : option tstack :=
  let '(os, v) := push_negated (tops t) v in t_push_val (TStack (t_cap t) os (tvals t)) v.

(** Reductions while a test on the operator holds. *)
Fixpoint t_reduce_while (fuel : nat) (test : t_op → bool) (t : tstack) : option tstack :=
  match fuel with
  | O => None
  | S f =>
      match tops t with
      | o :: _ => if test o then t' ← t_reduce t; t_reduce_while f test t' else Some t
      | [] => Some t
      end
  end.

(** The state of [t_evaluate]: stacks, the arguments left, what is expected, and [*err]. *)
Record t_state := TState { t_stack : tstack; t_args : list text; expect_operand : bool; t_err : bool }.

Definition t_operand (x : t_state) (v : bool) (rest : list text) (err : bool) : option t_state :=
  t ← t_push_operand (t_stack x) v; Some (TState t rest false (t_err x || err)).
(** An operator, after which an operand is expected. *)
Definition t_operator (o : t_op) (t : tstack) (rest : list text) (err : bool) : option (t_state + t_state) :=
  t' ← t_push_op o t; Some (inl (TState t' rest true err)).

(** One turn: the next state, or [inr] the state at the end of the loop. *)
Definition t_step (x : t_state) : option (t_state + t_state) :=
  let t := t_stack x in
  if expect_operand x then
    match t_args x with
    | [] => inr <$> t_operand x false [] false
    | s :: rest =>
        if decide (s = $"!") then t_operator TNot t rest (t_err x)
        else if decide (s = $"(") then t_operator TParen t rest (t_err x)
        else
          match rest with
          | a :: rest' =>
              if t_is_unop s then inl <$> t_operand x (t_unop (default NUL (s !! 1%nat)) a) rest' false
              else if t_is_binop a then
                match rest' with
                | b :: rest'' => let '(v, e) := t_binop s a b in inl <$> t_operand x v rest'' e
                | [] => inl <$> t_operand x false [] true
                end
              else inl <$> t_operand x (negb (bool_decide (s = []))) rest false
          | [] => inl <$> t_operand x (negb (bool_decide (s = []))) rest false
          end
    end
  else
    match t_args x with
    | s :: rest =>
        if bool_decide (s = $"-a" ∨ s = $"-o") then
          let or := bool_decide (s = $"-o") in
          t' ← t_reduce_while (S (length (tops t))) (λ o, (negb (bool_decide (o = TParen)) && (or || bool_decide (o = TAnd)))%bool) t;
          t_operator (if or then TOr else TAnd) t' rest (t_err x)
        else if decide (s = $")") then
          t' ← t_reduce_while (S (length (tops t))) (λ o, negb (bool_decide (o = TParen))) t;
          match tops t', tvals t' with
          | [], _ => Some (inr (TState t' (t_args x) false (t_err x)))
          | _ :: os, v :: vs => t'' ← t_push_operand (TStack (t_cap t') os vs) v; Some (inl (TState t'' rest false (t_err x)))
          | _ :: _, [] => None
          end
        else Some (inr x)
    | [] => Some (inr x)
    end.

Fixpoint t_loop (fuel : nat) (x : t_state) : option t_state :=
  match fuel with
  | O => None
  | S f => r ← t_step x; match r with inl x' => t_loop f x' | inr x' => Some x' end
  end.

(** What is left on the stack at the end; a parenthesis there is not closed. *)
Fixpoint t_finish (fuel : nat) (t : tstack) (err : bool) : option (tstack * bool) :=
  match fuel with
  | O => None
  | S f =>
      match tops t with
      | [] => Some (t, err)
      | TParen :: os => t_finish f (TStack (t_cap t) os (tvals t)) true
      | TNot :: os => t_finish f (TStack (t_cap t) os (tvals t)) err
      | _ => t' ← t_reduce t; t_finish f t' err
      end
  end.

(** The result, the error flag and the arguments that are left. *)
Definition t_evaluate (a : list text) : option (bool * bool * list text) :=
  x ← t_loop (S (S (length a))) (TState (TStack (length a + 1) [] []) a true false);
  '(t, err) ← t_finish (S (length (tops (t_stack x)))) (t_stack x) (t_err x);
  Some (default false (head (tvals t)), err, t_args x).

(** 0 for true, 1 for false, 2 for an error. *)
Definition eval_test (args : list text) : option Z :=
  let answer (r : bool) := if r then 0 else 1 in
  let general :=
    '(r, err, more) ← t_evaluate args;
    Some (if (err || negb (bool_decide (more = [])))%bool then 2 else answer r) in
  match args with
  | [] => Some 1
  | [s] => Some (answer (negb (bool_decide (s = []))))
  | [a; o; b] => if t_is_binop o then let '(r, err) := t_binop a o b in Some (if err : bool then 2 else answer r) else general
  | _ => general
  end.
End test.

Section builtins.
Context `{Platform}.

Definition file_test (w : world) (o : ascii) (path : text) : bool :=
  if decide (o = "t"%char) then
    match is_int path with Some fd => ((0 <=? fd) && (fd <=? 1000000) && isatty fd w)%bool | None => false end
  else
    let path := default path (shell_bridge_resolve path REDIR_PATH_SIZE w) in
    if bool_decide (o ∈ $"rwx") then access path o w
    else
      match stat path w with
      | None => false
      | Some i =>
          if decide (o = "e"%char) then true
          else if decide (o = "f"%char) then is_reg i
          else if decide (o = "d"%char) then is_dir i
          else if decide (o = "s"%char) then 0 <? st_size i
          else if bool_decide (o ∈ $"hL") then is_link i
          else false
      end.

Definition builtin_test (args : list text) (bracket : bool) : M shell Z :=
  let bad := complain [$"test: bad expression"; [newline]];; mret 2 in
  w ← gets files;
  if (bracket && negb (bool_decide (last args = Some ($"]"))))%bool then mret 2
  else
    match eval_test (file_test w) (if bracket then removelast args else args) with
    | None => undef
    | Some r => if decide (r = 2) then bad else mret r
    end.

(** * echo *)

(** The escapes of an argument: the output, and whether it goes on after it. *)
Fixpoint octal (k : nat) (v : Z) (s : text) : Z * text :=
  match k, s with
  | S k', c :: s' => if between "0" "7" c then octal k' (v * 8 + (code c - code "0")) s' else (v, s)
  | _, _ => (v, s)
  end.
Fixpoint echo_escapes (fuel : nat) (s : text) : text * bool :=
  match fuel with
  | O => ([], true)
  | S f =>
      let go (o r : text) := let '(t, b) := echo_escapes f r in (o ++ t, b) in
      match s with
      | "\"%char :: c :: r =>
          if decide (c = "a"%char) then go ["007"%char] r
          else if decide (c = "b"%char) then go ["008"%char] r
          else if decide (c = "c"%char) then ([], false)
          else if decide (c = "f"%char) then go ["012"%char] r
          else if decide (c = "n"%char) then go ["010"%char] r
          else if decide (c = "r"%char) then go ["013"%char] r
          else if decide (c = "t"%char) then go ["009"%char] r
          else if decide (c = "v"%char) then go ["011"%char] r
          else if decide (c = "\"%char) then go ["\"%char] r
          else if decide (c = "0"%char) then
            let '(v, r') := octal 3 0 r in go [ascii_of_nat (Z.to_nat (v mod 256))] r'
          else go ["\"%char; c] r
      | c :: r => go [c] r
      | [] => ([], true)
      end
  end.
Fixpoint echo_args (l : list text) : text * bool :=
  match l with
  | [] => ([], true)
  | s :: l' =>
      match echo_escapes (S (length s)) s with
      | (t, false) => (t, false)
      | (t, true) => let '(t', b) := echo_args l' in (t ++ (match l' with [] => [] | _ => [" "%char] end) ++ t', b)
      end
  end.
Definition builtin_echo (args : list text) : M shell Z :=
  let '(nl, l) := match args with a :: l => if decide (a = $"-n") then (false, l) else (true, args) | [] => (true, []) end in
  let '(t, b) := echo_args l in
  print stdout [t; if (nl && b)%bool then [newline] else []];; mret 0.

(** * read *)

(** An option's characters from the second on: the flag, and whether the next argument
    belongs to it; or the character that is no option. *)
Fixpoint read_option (s : text) (rflag : bool) : (bool * bool) + ascii :=
  match s with
  | [] => inl (rflag, false)
  | c :: s' =>
      if decide (c = "r"%char) then read_option s' true
      else if decide (c = "p"%char) then inl (rflag, bool_decide (s' = []))
      else inr c
  end.
(** The options: the flag and the names after them. *)
Fixpoint read_options (l : list text) (rflag : bool) : (bool * list text) + ascii :=
  match l with
  | [] => inl (rflag, [])
  | a :: l' =>
      match a with
      | "-"%char :: c :: s =>
          match read_option (c :: s) rflag with
          | inr c => inr c
          | inl (f, true) => match l' with [] => inl (f, []) | _ :: l'' => read_options l'' f end
          | inl (f, false) => read_options l' f
          end
      | _ => inl (rflag, l)
      end
  end.

(** The bytes of a logical line, each with its flag [esc]; the status; none when the line
    goes on. *)
Fixpoint read_line (fuel : nat) (rflag : bool) (buf : list (ascii * bool)) : M shell (option (list (ascii * bool) * Z)) :=
  match fuel with
  | O => mret None
  | S f =>
      i ← gets stdin; c ← platform (fgetc i);
      match c with
      | None => mret (Some (buf, 1))
      | Some c =>
          if decide (c = newline) then mret (Some (buf, 0))
          else if decide (c = NUL) then read_line f rflag buf
          else if (negb rflag && bool_decide (c = backslash))%bool then
            nx ← platform (fgetc i);
            match nx with
            | None => mret (Some (buf, 1))
            | Some d => if decide (d = newline) then read_line f rflag buf else read_line f rflag (buf ++ [(d, true)])
            end
          else read_line f rflag (buf ++ [(c, false)])
      end
  end.

(** The state of the loop of [read_split_assign]; [r] is where the characters to drop start,
    and [bounds] are [fs] and [fe]. *)
Record breakup := Breakup { maxargs : nat; start : nat; ifsspc : bool; r : option nat; bounds : list (nat * nat) }.
Definition MAX_READ_NAMES : nat := 64.

Definition break_char (ifs : text) (i : nat) (x : ascii * bool) (b : breakup) : breakup :=
  let '(c, esc) := x in
  let isifs := (negb esc && is_ifs ifs c)%bool in
  let isdefifs := (isifs && is_ifs_ws c)%bool in
  match maxargs b with
  | O =>
      if isdefifs then Breakup 0 (start b) (ifsspc b) (match r b with None => Some i | o => o end) (bounds b)
      else Breakup 0 (start b) false (if (isifs && ifsspc b)%bool then r b else None) (bounds b)
  | S m =>
      let q := if (ifsspc b && isifs)%bool then S i else i in
      let from := if ifsspc b then q else start b in
      if (ifsspc b && isdefifs)%bool then Breakup (maxargs b) from true (r b) (bounds b)
      else
        let isifs := (isifs && negb (ifsspc b))%bool in
        if isifs then
          if (isdefifs && bool_decide (q = from))%bool then Breakup (maxargs b) (S i) false (r b) (bounds b)
          else
            match m with
            | O => Breakup 0 from isdefifs (Some q) (bounds b)
            | _ =>
                Breakup m (S i) isdefifs (r b)
                  (if (length (bounds b) <? MAX_READ_NAMES)%nat then bounds b ++ [(from, q)] else bounds b)
            end
        else Breakup (maxargs b) from false (r b) (bounds b)
  end.
Fixpoint break_line (ifs : text) (i : nat) (l : list (ascii * bool)) (b : breakup) : breakup :=
  match l with [] => b | x :: l' => break_line ifs (S i) l' (break_char ifs i x b) end.

(** The fields that are found, at most as many as names. *)
Definition read_fields (ifs : text) (nv : nat) (l : list (ascii * bool)) : list text :=
  let b := break_line ifs 0 l (Breakup nv 0 false None []) in
  let stop := default (length l) (r b) in
  let bs := if ((start b <? stop)%nat && (length (bounds b) <? MAX_READ_NAMES)%nat)%bool then bounds b ++ [(start b, stop)] else bounds b in
  (λ '(x, y), c_string (take (y - x) (drop x (l.*1)))) <$> bs.

Fixpoint assign_fields (names fs : list text) : M shell unit :=
  match names with
  | [] => mret tt
  | n :: names' => sh_set n (default [] (head fs));; assign_fields names' (tail fs)
  end.

Definition builtin_read (fuel : nat) (args : list text) : M shell (option Z) :=
  match read_options args false with
  | inr c => complain [$"read: illegal option -- "; [c]; [newline]];; mret (Some 2)
  | inl (_, []) => complain [$"read: arg count"; [newline]];; mret (Some 2)
  | inl (rflag, names) =>
      o ← read_line fuel rflag [];
      match o with
      | None => mret None
      | Some (l, status) =>
          ifs ← get_ifs;
          let nv := Nat.min (length names) MAX_READ_NAMES in
          assign_fields (take nv names) (read_fields ifs nv l);;
          mret (Some status)
      end
  end.

(** * The others *)

(** A name, and the value after an equals sign. *)
Definition split_binding (s : text) : text * option text :=
  match split_char "=" s with Some (n, v) => (n, Some v) | None => (s, None) end.

(** The status from the argument or the last one; none if it is not a number. *)
Definition status_arg (args : list text) : M shell (option Z) :=
  v ← getst last_status;
  mret match args with [] => Some v | a :: _ => match is_int a with Some v => if v <? 0 then None else Some v | None => None end end.

Definition builtin_exit (args : list text) : M shell Z :=
  o ← status_arg args;
  (match o with None => complain [$"exit: Illegal number: "; default [] (head args); [newline]] | Some _ => mret tt end);;
  let v := default 2 o in
  set_flow (λ f, f <| exiting := true |> <| exit_code := v |>);; mret v.

Definition builtin_return (args : list text) : M shell Z :=
  o ← status_arg args;
  match o with
  | None =>
      complain [$"return: Illegal number: "; default [] (head args); [newline]];;
      set_flow (λ f, f <| exiting := true |> <| exit_code := 2 |>);; mret 2
  | Some v => set_flow (λ f, f <| returning := true |> <| return_code := v |>);; mret v
  end.

Fixpoint builtin_export (args : list text) (rc : Z) : M shell Z :=
  match args with
  | [] => mret rc
  | a :: l =>
      let '(n, v) := split_binding a in
      if valid_name n then
        (match v with Some v => sh_set n v | None => mret tt end);; sh_export n;; builtin_export l rc
      else complain [$"export: "; a; $": bad variable name"; [newline]];; builtin_export l 2
  end.

Fixpoint local_args (args : list text) (ok : bool) : M shell bool :=
  match args with
  | [] => mret ok
  | a :: l =>
      let '(n, v) := split_binding a in
      if valid_name n then b ← sh_local n v; local_args l (ok && b)
      else complain [$"local: "; a; $": bad variable name"; [newline]];; local_args l false
  end.
Definition builtin_local (args : list text) : M shell Z :=
  ok ← local_args args true;
  if ok : bool then mret 0 else complain [$"local: not in a function"; [newline]];; mret 2.

(** The loops are left, or their bodies, if there are any. *)
Definition leave (isbreak inside : bool) (n : Z) : M shell Z :=
  let n := Z.max 1 n in
  (if inside then set_flow (λ f, if isbreak then f <| brk := n |> else f <| cont := n |>) else mret tt);; mret 0.
Definition builtin_break (cmd : text) (isbreak : bool) (args : list text) : M shell Z :=
  inside ← getst (λ s, 0 <? loop_depth s);
  match args with
  | a :: _ =>
      match is_int a with
      | None =>
          complain [cmd; $": Illegal number: "; a; [newline]];;
          (if inside : bool then set_flow (λ f, f <| brk := 1 |>) else mret tt);; mret 2
      | Some n => leave isbreak inside n
      end
  | [] => leave isbreak inside 1
  end.

(** The listing of [set]: quotes in values are closed, escaped and opened again. *)
Definition quote_value (v : text) : text :=
  concat ((λ c, if decide (c = quote) then [quote; backslash; quote; quote] else [c]) <$> v).
Definition set_line (n v : text) : text := n ++ "="%char :: quote :: quote_value v ++ [quote; newline].
Definition name_order (x y : text * sh_var) : Prop := text_le x.1 y.1.
#[export] Instance name_order_dec x y : Decision (name_order x y) := text_le_dec _ _.

(** The options of [set]: the operands that remain, and whether they are to replace the
    parameters even if there are none. *)
Fixpoint set_flags (on : bool) (s : text) : M shell unit :=
  match s with
  | [] => mret tt
  | c :: s' =>
      (if decide (c = "e"%char) then setst (λ t, t <| opt_errexit := on |>)
       else if decide (c = "u"%char) then setst (λ t, t <| opt_nounset := on |>) else mret tt);;
      set_flags on s'
  end.
Definition set_option (on : bool) (name : text) : M shell unit :=
  if decide (name = $"errexit") then setst (λ t, t <| opt_errexit := on |>)
  else if decide (name = $"nounset") then setst (λ t, t <| opt_nounset := on |>)
  else mret tt.
Fixpoint set_options (args : list text) : M shell (list text * bool) :=
  match args with
  | [] => mret ([], false)
  | a :: l =>
      match a with
      | c :: s =>
          if decide (a = $"--") then mret (l, true)
          else if negb (bool_decide (c ∈ $"-+")) then mret (args, false)
          else
            let on := bool_decide (c = "-"%char) in
            match s with
            | [] => if on then mret (l, false) else set_options l
            | "o"%char :: [] => match l with n :: l' => set_option on n;; set_options l' | [] => mret ([], false) end
            | _ => set_flags on s;; set_options l
            end
      | [] => mret (args, false)
      end
  end.
Definition builtin_set (args : list text) : M shell Z :=
  match args with
  | [] =>
      v ← getst vars;
      print stdout ((λ '(n, x), set_line n (value x)) <$> merge_sort name_order (map_to_list v));; mret 0
  | _ =>
      '(l, replace) ← set_options args;
      (if (replace || negb (bool_decide (l = [])))%bool then sh_set_positional None l else mret tt);; mret 0
  end.

Definition builtin_shift (args : list text) : M shell Z :=
  ok ← sh_shift_positional (match args with a :: _ => default 1 (is_int a) | [] => 1 end);
  if ok : bool then mret 0 else complain [$"shift: can't shift that many"; [newline]];; mret 2.

Fixpoint unset_options (args : list text) (fs vs : bool) : bool * bool * list text :=
  match args with
  | a :: l => if decide (a = $"-f") then unset_options l true vs else if decide (a = $"-v") then unset_options l fs true else (fs, vs, args)
  | [] => (fs, vs, [])
  end.
Fixpoint unset_names (fs vs : bool) (l : list text) : M shell Z :=
  match l with
  | [] => mret 0
  | n :: l' =>
      if fs then sh_func_unset n;; unset_names fs vs l'
      else if is_var_name n then
        v ← sh_get n; f ← sh_func_find n;
        (if (negb vs && negb (is_some v) && is_some f)%bool then sh_func_unset n else sh_unset n);; unset_names fs vs l'
      else
        complain [$"unset: "; n; $": bad variable name"; [newline]];;
        set_flow (λ f, f <| exiting := true |> <| exit_code := 2 |>);; mret 2
  end.
Definition builtin_unset (args : list text) : M shell Z :=
  let '(fs, vs, l) := unset_options args false false in unset_names fs vs l.

(** The directory to go to, and whether to print it; or what is not set. *)
Definition cd_target (args : list text) : M shell ((text * bool) + text) :=
  match args with
  | [] => v ← sh_get ($"HOME"); mret match v with Some d => inl (d, false) | None => inr ($"HOME") end
  | a :: _ =>
      if decide (a = $"-") then v ← sh_get ($"OLDPWD"); mret match v with Some d => inl (d, true) | None => inr ($"OLDPWD") end
      else mret (inl (a, false))
  end.
Definition builtin_cd (args : list text) : M shell Z :=
  t ← cd_target args;
  match t with
  | inr n => complain [$"cd: "; n; $" not set"; [newline]];; mret 1
  | inl (target, prints) =>
      ok ← sh_port_chdir target;
      if ok : bool then
        buf ← sh_port_getcwd;
        old ← getst cwd;
        setst (λ s, s <| cwd := Some buf |>);;
        sh_set ($"OLDPWD") (default [] old);;
        sh_set ($"PWD") buf;;
        (if prints : bool then print stdout [buf; [newline]] else mret tt);; mret 0
      else complain [$"cd: "; target; $": cannot change directory"; [newline]];; mret 2
  end.

Definition builtin_pwd (args : list text) : M shell Z :=
  let physical := foldl (λ b a, if decide (a = $"-P") then true else if decide (a = $"-L") then false else b) false args in
  c ← getst cwd;
  d ← (match c with Some d => if physical then sh_port_getcwd else mret d | None => sh_port_getcwd end);
  print stdout [d; [newline]];; mret 0.

(** * sh_run_builtin *)

Inductive builtin_result := NotBuiltin | Ended (status : Z) | Reading.

Definition sh_run_builtin (fuel : nat) (argv : list text) : M shell builtin_result :=
  let ended (m : M shell Z) := v ← m; mret (Ended v) in
  match argv with
  | [] => mret NotBuiltin
  | cmd :: args =>
      if bool_decide (cmd = $":" ∨ cmd = $"true") then mret (Ended 0)
      else if decide (cmd = $"false") then mret (Ended 1)
      else if decide (cmd = $"echo") then ended (builtin_echo args)
      else if decide (cmd = $"test") then ended (builtin_test args false)
      else if decide (cmd = $"[") then ended (builtin_test args true)
      else if decide (cmd = $"exit") then ended (builtin_exit args)
      else if decide (cmd = $"export") then ended (builtin_export args 0)
      else if decide (cmd = $"return") then ended (builtin_return args)
      else if decide (cmd = $"local") then ended (builtin_local args)
      else if decide (cmd = $"read") then
        o ← builtin_read fuel args; mret match o with Some v => Ended v | None => Reading end
      else if decide (cmd = $"break") then ended (builtin_break cmd true args)
      else if decide (cmd = $"continue") then ended (builtin_break cmd false args)
      else if decide (cmd = $"set") then ended (builtin_set args)
      else if decide (cmd = $"shift") then ended (builtin_shift args)
      else if decide (cmd = $"unset") then ended (builtin_unset args)
      else if decide (cmd = $"cd") then ended (builtin_cd args)
      else if decide (cmd = $"pwd") then ended (builtin_pwd args)
      else mret NotBuiltin
  end.
End builtins.
