(* ===== verification/ShellTest.v ===== *)
(** The evaluation of test expressions, sh_builtins.c: it stays inside the arrays of its
    stacks, and it agrees with the grammar that the source states. *)

From S2P Require Import Prelude Text ShellGlob Arith ShellLex ShellParse ShellState ShellFrames ShellExpand ShellBuiltins.

Section test.
Variable file_test : ascii → text → bool.
Abbreviation t_step := (ShellBuiltins.t_step file_test).
Abbreviation t_loop := (ShellBuiltins.t_loop file_test).
Abbreviation t_evaluate := (ShellBuiltins.t_evaluate file_test).
Abbreviation eval_test := (ShellBuiltins.eval_test file_test).
Implicit Types (os : list t_op) (vs : list bool) (a rest : list text) (err : bool).

(** * The stacks *)

(** A stack of operators can be reduced with one value more than it has binary ones; a
    negation waits right above a parenthesis or another one, or for the next operand. *)
Definition binary (o : t_op) : bool := match o with TAnd | TOr => true | _ => false end.
Definition operands os : nat := length (List.filter binary os).
Fixpoint negations_ok (here : bool) os : Prop :=
  match os with
  | [] => True
  | TNot :: os => here = true ∧ negations_ok true os
  | TParen :: os => negations_ok true os
  | _ :: os => negations_ok false os
  end.
Definition balanced (t : tstack) (expect : bool) : Prop :=
  length (tvals t) = (if expect then operands (tops t) else S (operands (tops t))) ∧ negations_ok expect (tops t).

(** The arrays have a cell for every argument that is left, and one more. *)
Definition room cap os vs rest : Prop := (length os + length rest < cap)%nat ∧ (length vs + length rest < cap)%nat.

Lemma push_op_room cap o os vs : (length os < cap)%nat → t_push_op o (TStack cap os vs) = Some (TStack cap (o :: os) vs).
Proof. intros Ho. unfold t_push_op. by rewrite decide_True. Qed.
Lemma push_val_room cap os vs v : (length vs < cap)%nat → t_push_val (TStack cap os vs) v = Some (TStack cap os (v :: vs)).
Proof. intros Hv. unfold t_push_val. by rewrite decide_True. Qed.
Lemma push_operand_room cap os vs v : (length vs < cap)%nat →
  t_push_operand (TStack cap os vs) v = Some (let '(os', w) := push_negated os v in TStack cap os' (w :: vs)).
Proof. intros Hv. unfold t_push_operand. cbn [tops tvals t_cap]. destruct (push_negated os v). by apply push_val_room. Qed.
Lemma operand_room cap os vs args err v rest e : (length vs < cap)%nat →
  t_operand (TState (TStack cap os vs) args true err) v rest e =
    Some (let '(os', w) := push_negated os v in TState (TStack cap os' (w :: vs)) rest false (err || e)).
Proof. intros Hv. unfold t_operand. cbn [t_stack t_err]. rewrite push_operand_room by done. cbn. by destruct (push_negated os v). Qed.

Lemma reduce_balanced cap o os vs : (length vs ≤ cap)%nat → o ≠ TParen → balanced (TStack cap (o :: os) vs) false →
  ∃ vs', t_reduce (TStack cap (o :: os) vs) = Some (TStack cap os vs') ∧ (length vs' ≤ length vs)%nat ∧ balanced (TStack cap os vs') false.
Proof.
  unfold balanced, operands. intros Hc Ho [Hl Hn]. destruct o; try done; [by destruct Hn| |];
    (destruct vs as [|rhs [|lhs vs]]; try done; unfold t_reduce; cbn [tops tvals t_cap]; simpl in *;
     rewrite push_val_room by lia; eexists; split; [done|]; simpl in *; split_and!; [lia..|done]).
Qed.

Lemma push_negated_length os v : (length (push_negated os v).1 ≤ length os)%nat.
Proof. revert v. induction os as [|[] os IH]; intros v; simpl; try lia. specialize (IH (negb v)). lia. Qed.
Lemma push_negated_balanced os v : negations_ok true os →
  operands (push_negated os v).1 = operands os ∧ negations_ok false (push_negated os v).1.
Proof. revert v. induction os as [|[] os IH]; intros v Hos; simpl; [done|by apply IH, Hos|done..]. Qed.
Lemma push_operand_balanced cap os vs v : (length vs < cap)%nat → balanced (TStack cap os vs) true →
  ∃ os' w, t_push_operand (TStack cap os vs) v = Some (TStack cap os' (w :: vs)) ∧ (length os' ≤ length os)%nat ∧
    balanced (TStack cap os' (w :: vs)) false.
Proof.
  unfold balanced. intros Hc [E Hn]. rewrite push_operand_room by done. pose proof (push_negated_balanced os v Hn) as [Hp Hp'].
  pose proof (push_negated_length os v). destruct (push_negated _ _) as [os' w]. simpl in *. eexists _, _. split_and!; [done..|lia|done].
Qed.

Lemma reduce_while_balanced cap n test os vs : (length vs ≤ cap)%nat → (length os < n)%nat → test TParen = false → balanced (TStack cap os vs) false →
  ∃ os' vs', t_reduce_while n test (TStack cap os vs) = Some (TStack cap os' vs') ∧ (length os' ≤ length os)%nat ∧ (length vs' ≤ length vs)%nat ∧
    balanced (TStack cap os' vs') false ∧ match os' with o :: _ => test o = false | [] => True end.
Proof.
  intros Hc Hn Ht. revert os vs Hc Hn. induction n as [|n IH]; intros [|o os] vs Hc Hn Hb; cbn [t_reduce_while tops length] in *; try lia;
    [by eexists _, _|].
  destruct (test o) eqn:E; [|by eexists _, _]. destruct (reduce_balanced cap o os vs) as (vs' & -> & Hl & Hb'); [done|by intros ->; congruence|done|].
  destruct (IH os vs') as (os' & vs'' & E' & ? & ? & ? & ?); [lia..|done|]. exists os', vs''. cbn. split_and!; [done|lia..|done|done].
Qed.

(** * It always ends *)

Definition state_ok (x : t_state) : Prop :=
  balanced (t_stack x) (expect_operand x) ∧ room (t_cap (t_stack x)) (tops (t_stack x)) (tvals (t_stack x)) (t_args x).
Definition end_ok (x : t_state) : Prop :=
  balanced (t_stack x) false ∧ (length (tvals (t_stack x)) ≤ t_cap (t_stack x))%nat.
Lemma state_end_ok x : state_ok x → expect_operand x = false → end_ok x.
Proof. intros [Hb [_ Hv]] E. rewrite E in Hb. split; [done|lia]. Qed.

(** An operand takes at least one word. *)
Lemma operand_ok x v rest err : state_ok x → expect_operand x = true → (length rest < length (t_args x))%nat →
  ∃ x', inl <$> t_operand x v rest err = Some (inl x' : t_state + t_state) ∧ state_ok x' ∧ (length (t_args x') < length (t_args x))%nat.
Proof.
  destruct x as [[cap os vs] args ex er]. intros [Hb [Ho Hv]] E Hl. cbn in *. subst ex. unfold t_operand. cbn [t_stack t_err].
  destruct (push_operand_balanced cap os vs v) as (os' & w & -> & ? & ?); [lia|done|]. eexists. split; [done|]. split; [|done].
  split; [done|]. split; simpl; lia.
Qed.
Lemma operator_ok cap o os vs rest err x : t_args x ≠ [] → length (t_args x) = S (length rest) →
  (length os + S (length rest) < cap)%nat → (length vs + length rest < cap)%nat → balanced (TStack cap (o :: os) vs) true →
  ∃ x', t_operator o (TStack cap os vs) rest err = Some (inl x') ∧ state_ok x' ∧ (length (t_args x') < length (t_args x))%nat.
Proof.
  intros Hx El Ho Hv Hb. unfold t_operator. rewrite push_op_room by lia. eexists. split; [done|]. split; [|simpl; lia]. split; [done|]. split; simpl; lia.
Qed.

Lemma step_total x : state_ok x →
  (∃ x', t_step x = Some (inl x') ∧ state_ok x' ∧ (length (t_args x') < length (t_args x))%nat) ∨
  (∃ x', t_step x = Some (inr x') ∧ end_ok x').
Proof.
  intros Hx. pose proof Hx as Hx'. destruct x as [[cap os vs] args ex er]. destruct Hx' as [Hb [Ho Hv]]. unfold ShellBuiltins.t_step. cbn [expect_operand t_args t_stack t_err tops tvals t_cap] in *. destruct ex.
  - destruct args as [|s rest].
    { right. unfold t_operand. cbn [t_stack t_err]. destruct (push_operand_balanced cap os vs false) as (os' & w & -> & ? & ?); [simpl in *; lia|done|].
      eexists. split; [done|]. split; [done|]. simpl in *. lia. }
    left. assert (∀ o, binary o = false → balanced (TStack cap (o :: os) vs) true) as Hpush.
    { intros o Hob. unfold balanced, operands in *. destruct Hb as [Hl Hn]. simpl. rewrite Hob. by destruct o. }
    repeat case_decide; [eapply (operator_ok _ _ _ _ _ _ (TState (TStack cap os vs) (s :: rest) true er)); [done|done|simpl in *; lia..|by apply Hpush]..|].
    repeat case_match; subst; apply (operand_ok (TState _ _ _ _)); try done; simpl; lia.
  - destruct args as [|s rest]; [right; eexists; split; [done|]; by apply state_end_ok|].
    case_match; [|destruct (decide (s = $")")); [|right; eexists; split; [done|]; by apply state_end_ok]].
    + left. edestruct (reduce_while_balanced cap (S (length os))) as (os' & vs' & -> & ? & ? & [Hl Hn] & Hos); [simpl in *; lia|lia| |exact Hb|]; [done|].
      cbn [mbind option_bind]. apply (operator_ok _ _ _ _ _ _ (TState (TStack cap os vs) (s :: rest) false er)); [done|done|simpl in *; lia..|].
      clear H Hos. unfold balanced, operands in *. generalize (bool_decide (s = $"-o")). intros []; by cbn in *.
    + edestruct (reduce_while_balanced cap (S (length os)) (λ o, negb (bool_decide (o = TParen)))) as (os' & vs' & -> & ? & ? & [Hl Hn] & Hos); [simpl in *; lia|lia| |exact Hb|]; [done|].
      cbn [mbind option_bind tops tvals t_cap]. destruct os' as [|o os'].
      { right. eexists. split; [done|]. split; [by split|]. simpl in *. lia. }
      left. destruct o; try done. destruct vs' as [|v vs']; [done|]. unfold operands in *. simpl in *.
      destruct (push_operand_balanced cap os' vs' v) as (os'' & w & -> & ? & ?); [lia|split; simpl; [unfold operands; lia|done]|].
      eexists. split; [done|]. split; [|simpl; lia]. split; [done|]. split; simpl; lia.
Qed.

Lemma step_keeps_room x y : state_ok x → t_step x = Some (inl y) → state_ok y.
Proof. intros Hx E. destruct (step_total x Hx) as [(x' & E' & Hx' & _)|(x' & E' & _)]; congruence. Qed.

Lemma loop_total n x : state_ok x → (length (t_args x) < n)%nat → ∃ x', t_loop n x = Some x' ∧ end_ok x'.
Proof.
  revert x. induction n as [|n IH]; intros x Hx Hn; [lia|]. cbn [ShellBuiltins.t_loop].
  destruct (step_total x Hx) as [(x' & -> & Hx' & Hl)|(x' & -> & Hx')]; cbn; [|by exists x'].
  apply IH; [done|lia].
Qed.

Lemma finish_total cap n os vs e : (length os < n)%nat → (length vs ≤ cap)%nat → length vs = S (operands os) → is_Some (t_finish n (TStack cap os vs) e).
Proof.
  revert os vs e. induction n as [|n IH]; intros os vs e Hn Hc Hl; [lia|]. unfold operands in *. destruct os as [|[] os]; cbn in *; [done|apply IH; lia..| |];
    (destruct vs as [|rhs [|lhs vs]]; try done; unfold t_reduce; cbn [tops tvals t_cap]; simpl in *; rewrite push_val_room by lia; apply IH; simpl in *; lia).
Qed.

Lemma start_ok a : state_ok (TState (TStack (length a + 1) [] []) a true false).
Proof. split; [done|]. split; simpl; lia. Qed.

Lemma evaluate_total a : is_Some (t_evaluate a).
Proof.
  unfold ShellBuiltins.t_evaluate. destruct (loop_total (S (S (length a))) _ (start_ok a)) as (x & -> & [[Hl Hn] Hc]); [simpl; lia|].
  cbn [mbind option_bind]. destruct (t_stack x) as [cap os vs]. cbn [tops]. destruct (finish_total cap (S (length os)) os vs (t_err x)) as [[t e] ->]; [lia|done..|]. done.
Qed.

Lemma eval_test_total a : is_Some (eval_test a).
Proof.
  unfold ShellBuiltins.eval_test. destruct (evaluate_total a) as [[[r e] more] ->].
  destruct a as [|a1 [|a2 [|a3 [|a4 a]]]]; try done. case_match; [|done]. by case_match.
Qed.

(** * The grammar *)

(** oexpr := aexpr [ -o aexpr ], aexpr := nexpr [ -a nexpr ], nexpr := ! nexpr | primary,
    primary := ( oexpr ) | unop arg | arg binop arg | arg; the brackets may repeat. *)
Inductive expr :=
  | Nonempty (s : text)
  | Unary (c : ascii) (arg : text)
  | Binary (a o b : text)
  | Not (e : expr)
  | Group (e : expr)
  | And (l r : expr)
  | Or (l r : expr).

Fixpoint print (e : expr) : list text :=
  match e with
  | Nonempty s => [s]
  | Unary c arg => [["-"%char; c]; arg]
  | Binary a o b => [a; o; b]
  | Not e => $"!" :: print e
  | Group e => $"(" :: print e ++ [$")"]
  | And l r => print l ++ $"-a" :: print r
  | Or l r => print l ++ $"-o" :: print r
  end.

(** Both sides of -a and -o are always evaluated; an operand that is no number is an error. *)
Fixpoint truth (e : expr) : bool :=
  match e with
  | Nonempty s => negb (bool_decide (s = []))
  | Unary c arg => t_unop file_test c arg
  | Binary a o b => (t_binop a o b).1
  | Not e => negb (truth e)
  | Group e => truth e
  | And l r => truth l && truth r
  | Or l r => truth l || truth r
  end.
Fixpoint wrong (e : expr) : bool :=
  match e with
  | Nonempty _ | Unary _ _ => false
  | Binary a o b => (t_binop a o b).2
  | Not e | Group e => wrong e
  | And l r | Or l r => wrong l || wrong r
  end.

(** The rule that an expression is derived from: 0 for nexpr, 1 for aexpr, 2 for oexpr. *)
Definition level (e : expr) : nat := match e with Or _ _ => 2 | And _ _ => 1 | _ => 0 end.
(** A word that starts a primary and is no operator itself. *)
Definition operand (s : text) : Prop := s ≠ $"!" ∧ s ≠ $"(" ∧ t_is_unop s = false.
Fixpoint derived (e : expr) : Prop :=
  match e with
  | Nonempty s => operand s
  | Unary c arg => t_is_unop ["-"%char; c] = true
  | Binary a o b => operand a ∧ t_is_binop o = true
  | Not e => level e = O ∧ derived e
  | Group e => derived e
  | And l r => (level l ≤ 1)%nat ∧ level r = O ∧ derived l ∧ derived r
  | Or l r => (level r ≤ 1)%nat ∧ derived l ∧ derived r
  end.

(** * Evaluating the words of an expression *)

Inductive turns : nat → t_state → t_state → Prop :=
  | Turns_done x : turns 0 x x
  | Turns_step n x y z : t_step x = Some (inl y) → turns n y z → turns (S n) x z.

Lemma turns_trans n m x y z : turns n x y → turns m y z → turns (n + m) x z.
Proof. induction 1; [done|]. intros. eapply Turns_step; eauto. Qed.
Lemma turns_one x y : t_step x = Some (inl y) → turns 1 x y.
Proof. intros. eapply Turns_step; [done|constructor]. Qed.
Lemma turns_ok n x y : turns n x y → state_ok x → state_ok y.
Proof. induction 1; [done|]. eauto using step_keeps_room. Qed.
Lemma loop_turns n k x y z : turns n x y → t_step y = Some (inr z) → t_loop (n + S k) x = Some z.
Proof. induction 1 as [x|n x y w E Ht IH]; intros Ez; cbn [plus ShellBuiltins.t_loop]; [by rewrite Ez|]. rewrite E. by apply IH. Qed.

(** Operators that wait above [os] with their values, and what they reduce to. *)
Fixpoint waiting (ops : list t_op) (vs : list bool) : option bool :=
  match ops, vs with
  | [], [v] => Some v
  | o :: ops, r :: l :: vs => waiting ops ((match o with TAnd => r && l | _ => r || l end)%bool :: vs)
  | _, _ => None
  end.

(** The operators of a rule; where an expression of the rule may stand. *)
Definition ops_of (n : nat) (o : t_op) : Prop := match n with O => False | 1%nat => o = TAnd | _ => o = TAnd ∨ o = TOr end.
Definition stands (n : nat) os : Prop :=
  match os with o :: _ => match n with O => True | 1%nat => o = TOr ∨ o = TParen | _ => o = TParen end | [] => True end.

Lemma reduce_while_waiting cap n test ops os vs vals v :
  (length (vs ++ vals) ≤ cap)%nat → (length ops < n)%nat → waiting ops vs = Some v → Forall (λ o, test o = true) ops →
  match os with o :: _ => test o = false | [] => True end →
  t_reduce_while n test (TStack cap (ops ++ os) (vs ++ vals)) = Some (TStack cap os (v :: vals)).
Proof.
  revert n vs. induction ops as [|o ops IH]; intros n vs Hc Hn Hw Ht Hos.
  - destruct vs as [|w [|? ?]]; try done. injection Hw as ->. destruct n; [simpl in Hn; lia|]. simpl. destruct os; [done|]. by rewrite Hos.
  - destruct vs as [|r [|l vs]]; try done. destruct n; [simpl in Hn; lia|]. inversion Ht; subst. cbn. rewrite H1. cbn.
    unfold t_reduce. cbn [tops tvals t_cap]. simpl in *. rewrite push_val_room by (simpl; lia). cbn.
    apply (IH n ((match o with TAnd => r && l | _ => r || l end)%bool :: vs)); try done; simpl in *; lia.
Qed.

Section capacity.
Variable cap : nat.
Definition at_operand os vals rest err : t_state := TState (TStack cap os vals) rest true err.
Definition at_operator os vals rest err : t_state := TState (TStack cap os vals) rest false err.

(** An operator after an expression. *)
Lemma step_operator (or : bool) ops os vs vals v rest err n :
  state_ok (at_operator (ops ++ os) (vs ++ vals) ((if or then $"-o" else $"-a") :: rest) err) → n = (if or then 2 else 1)%nat → waiting ops vs = Some v → Forall (ops_of n) ops → stands n os →
  t_step (at_operator (ops ++ os) (vs ++ vals) ((if or then $"-o" else $"-a") :: rest) err) =
    Some (inl (at_operand ((if or then TOr else TAnd) :: os) (v :: vals) rest err)).
Proof.
  intros [_ [Ho Hv]] -> Hw Hops Hos. unfold ShellBuiltins.t_step, at_operator in *. cbn [expect_operand t_args t_stack tops tvals t_cap t_err] in *.
  rewrite length_app in Ho. assert (∀ o, t_push_op o (TStack cap os (v :: vals)) = Some (TStack cap (o :: os) (v :: vals))) as Hpush
    by (intros; apply push_op_room; simpl in *; lia).
  destruct or.
  - rewrite bool_decide_eq_true_2 by auto. rewrite (reduce_while_waiting _ _ _ _ _ _ _ v); [unfold t_operator; cbn; by rewrite Hpush|lia|rewrite length_app; lia|done| |].
    + eapply Forall_impl; [done|]. intros o [-> | ->]; done.
    + destruct os; [done|]. by simpl in Hos; subst.
  - rewrite bool_decide_eq_true_2 by auto. rewrite (reduce_while_waiting _ _ _ _ _ _ _ v); [unfold t_operator; cbn; by rewrite Hpush|lia|rewrite length_app; lia|done| |].
    + eapply Forall_impl; [done|]. intros o ->; done.
    + destruct os; [done|]. simpl in Hos. by destruct Hos as [-> | ->].
Qed.

(** A primary is pushed with the negations in front of it. *)
Lemma step_word e os vals rest err :
  state_ok (at_operand os vals (print e ++ rest) err) →
  match e with Nonempty _ | Unary _ _ | Binary _ _ _ => True | _ => False end → derived e →
  match rest with a :: _ => t_is_binop a = false | [] => True end →
  t_step (at_operand os vals (print e ++ rest) err) =
    Some (inl (let '(os', v) := push_negated os (truth e) in at_operator os' (v :: vals) rest (err || wrong e))).
Proof.
  intros [_ [_ Hv]] He Hd Hr. unfold ShellBuiltins.t_step, at_operand in *. cbn [expect_operand t_args t_stack t_err tvals t_cap] in *.
  assert (length vals < cap)%nat as Hv' by lia. destruct e as [s|c arg|a o b| | | |]; try done.
  - destruct Hd as (H1 & H2 & H3). cbn [print app]. rewrite decide_False by done. rewrite decide_False by done.
    destruct rest as [|a rest]; [|rewrite H3, Hr]; rewrite operand_room by done; cbn [truth]; cbn; by destruct (push_negated _ _).
  - change (t_is_unop ["-"%char; c] = true) in Hd. cbn [print app]. rewrite !decide_False by done. rewrite Hd, operand_room by done. cbn. by destruct (push_negated _ _).
  - destruct Hd as ((H1 & H2 & H3) & Hd). cbn [print app]. rewrite decide_False by done. rewrite decide_False by done. rewrite H3, Hd. cbn [truth wrong].
    destruct (t_binop a o b) as [v e]. rewrite operand_room by done. cbn. by destruct (push_negated _ _).
Qed.

(** What may follow an expression. *)
Definition follows rest : Prop := match rest with a :: _ => a ∈ [$"-a"; $"-o"; $")"] | [] => True end.
Lemma follows_no_binop rest : follows rest → match rest with a :: _ => t_is_binop a = false | [] => True end.
Proof. destruct rest as [|a rest]; [done|]. intros Ha. repeat (apply elem_of_cons in Ha as [-> |Ha]; [done|]). by apply elem_of_nil in Ha. Qed.

(** The states after an expression: all its operators above [os] wait, or for a negated
    expression none does. *)
Definition evaluated (e : expr) os vals rest err (x : t_state) : Prop :=
  match level e with
  | O => x = (let '(os', v) := push_negated os (truth e) in at_operator os' (v :: vals) rest (err || wrong e))
  | n => ∃ ops vs, x = at_operator (ops ++ os) (vs ++ vals) rest (err || wrong e) ∧ waiting ops vs = Some (truth e) ∧ Forall (ops_of n) ops
  end.

Lemma push_negated_stands n os v : (0 < n)%nat → stands n os → push_negated os v = (os, v).
Proof. intros Hn Hos. destruct os as [|o os]; [done|]. destruct n as [|[|n]]; [lia| |]; cbn in Hos; [by destruct Hos as [-> | ->]|by subst]. Qed.

(** Whatever the level is, the operators that wait reduce to the value. *)
Lemma evaluated_waiting e n os vals rest err x :
  (0 < n)%nat → (level e ≤ n)%nat → stands n os → evaluated e os vals rest err x →
  ∃ ops vs, x = at_operator (ops ++ os) (vs ++ vals) rest (err || wrong e) ∧ waiting ops vs = Some (truth e) ∧ Forall (ops_of n) ops.
Proof.
  intros Hn Hl Hos. unfold evaluated. destruct (level e) as [|k] eqn:E.
  - rewrite (push_negated_stands n) by done. intros ->. exists [], [truth e]. by repeat constructor.
  - intros (ops & vs & -> & Hw & Hf). exists ops, vs. split_and!; [done..|]. eapply Forall_impl; [done|].
    intros o. destruct n as [|[|n]]; [lia| |]; destruct k as [|k]; cbn; try done; [lia|auto].
Qed.

Lemma stands_le n m os : (m ≤ n ≤ 2)%nat → stands n os → stands m os.
Proof. destruct os; [done|]. destruct n as [|[|[|n]]], m as [|[|[|m]]]; try lia; cbn; try done. auto. Qed.

Lemma waiting_app ops vs v o l :
  waiting ops vs = Some v → waiting (ops ++ [o]) (vs ++ [l]) = Some (match o with TAnd => v && l | _ => v || l end)%bool.
Proof.
  revert vs. induction ops as [|o' ops IH]; intros vs Hw; [destruct vs as [|w [|? ?]]; try done; by injection Hw as ->|].
  destruct vs as [|r [|l' vs]]; try done. cbn in *. by apply (IH (_ :: vs)).
Qed.

Lemma step_close ops os vs vals v rest err :
  state_ok (at_operator (ops ++ TParen :: os) (vs ++ vals) ($")" :: rest) err) →
  waiting ops vs = Some v → Forall (ops_of 2) ops →
  t_step (at_operator (ops ++ TParen :: os) (vs ++ vals) ($")" :: rest) err) =
    Some (inl (let '(os', w) := push_negated os v in at_operator os' (w :: vals) rest err)).
Proof.
  intros [_ [_ Hv]] Hw Hops. unfold ShellBuiltins.t_step, at_operator in *. cbn [expect_operand t_args t_stack tops tvals t_cap t_err] in *.
  rewrite bool_decide_eq_false_2 by (intros [[=]|[=]]). rewrite decide_True by done.
  rewrite (reduce_while_waiting _ _ _ _ _ _ _ v); [|lia|rewrite length_app; lia|done| |done].
  - cbn [mbind option_bind tops tvals t_cap]. rewrite push_operand_room by (rewrite length_app in Hv; lia). cbn. by destruct (push_negated os v).
  - eapply Forall_impl; [done|]. by intros o [-> | ->].
Qed.

Lemma turns_one_ok x y : state_ok x → t_step x = Some (inl y) → turns 1 x y ∧ state_ok y.
Proof. eauto using turns_one, step_keeps_room. Qed.

Lemma turns_expr e : derived e → ∀ os vals rest err, state_ok (at_operand os vals (print e ++ rest) err) → stands (level e) os → follows rest →
  ∃ n x, turns n (at_operand os vals (print e ++ rest) err) x ∧ (n ≤ length (print e))%nat ∧ evaluated e os vals rest err x.
Proof.
  induction e as [s|c arg|a o b|e IH|e IH|l IHl r IHr|l IHl r IHr]; intros Hd os vals rest err Hok Hos Hr.
  1, 2, 3: eexists _, _; split; [by apply turns_one, step_word; [done|done|done|apply follows_no_binop]|]; split; [simpl; lia|done].
  - destruct Hd as [Hl Hd].
    assert (t_step (at_operand os vals (print (Not e) ++ rest) err) = Some (inl (at_operand (TNot :: os) vals (print e ++ rest) err))) as E.
    { destruct Hok as [_ [Ho _]]. unfold ShellBuiltins.t_step, t_operator. cbn in *. rewrite push_op_room by lia. done. }
    destruct (IH Hd (TNot :: os) vals rest err) as (n & x & Ht & Hn & Hx); [by eapply step_keeps_room|by rewrite Hl|done|].
    exists (S n), x. split_and!; [by eapply Turns_step|simpl; lia|]. unfold evaluated in *. rewrite Hl in Hx. exact Hx.
  - assert (t_step (at_operand os vals (print (Group e) ++ rest) err) = Some (inl (at_operand (TParen :: os) vals (print e ++ $")" :: rest) err))) as E.
    { destruct Hok as [_ [Ho _]]. unfold ShellBuiltins.t_step, t_operator. cbn in *. rewrite decide_False, decide_True by done. rewrite push_op_room by lia. cbn. by rewrite <-app_assoc. }
    pose proof (step_keeps_room _ _ Hok E) as Hok'.
    destruct (IH Hd (TParen :: os) vals ($")" :: rest) err) as (n & x & Ht & Hn & Hx); [done| | |].
    { destruct (level e) as [|[|k]]; cbn; auto. }
    { cbn. set_solver. }
    pose proof (turns_ok _ _ _ Ht Hok') as Hx'.
    apply (evaluated_waiting e 2) in Hx as (ops & vs & -> & Hw & Hf); [|lia|destruct e; cbn; lia|done].
    eexists (S (n + 1)), _. split_and!.
    + eapply Turns_step; [exact E|]. eapply turns_trans; [exact Ht|]. by apply turns_one, step_close.
    + simpl. rewrite length_app. simpl. lia.
    + done.
  - destruct Hd as (Hl & Hlr & Hdl & Hdr). cbn [print] in *. rewrite <-app_assoc in *. cbn [app] in *.
    destruct (IHl Hdl os vals ($"-a" :: print r ++ rest) err) as (n & x & Ht & Hn & Hx); [done|by eapply (stands_le 1); [lia|]|cbn; set_solver|].
    pose proof (turns_ok _ _ _ Ht Hok) as Hx'.
    apply (evaluated_waiting l 1) in Hx as (ops & vs & -> & Hw & Hf); [|lia|done|done].
    pose proof (step_operator false ops os vs vals (truth l) _ _ 1 Hx' eq_refl Hw Hf Hos) as E.
    destruct (IHr Hdr (TAnd :: os) (truth l :: vals) rest (err || wrong l)) as (m & y & Ht' & Hm & Hy); [by eapply step_keeps_room|by rewrite Hlr|done|].
    unfold evaluated in Hy. rewrite Hlr in Hy. cbn in Hy. subst y. eexists (n + S m)%nat, _. split_and!.
    + eapply turns_trans; [exact Ht|]. eapply Turns_step; [exact E|exact Ht'].
    + rewrite length_app. simpl. lia.
    + exists [TAnd], [truth r; truth l]. cbn. rewrite orb_assoc, andb_comm. by repeat constructor.
  - destruct Hd as (Hl & Hdl & Hdr). cbn [print] in *. rewrite <-app_assoc in *. cbn [app] in *.
    assert (level l ≤ 2)%nat by (destruct l; cbn; lia).
    destruct (IHl Hdl os vals ($"-o" :: print r ++ rest) err) as (n & x & Ht & Hn & Hx); [done|by eapply (stands_le 2); [lia|]|cbn; set_solver|].
    pose proof (turns_ok _ _ _ Ht Hok) as Hx'.
    apply (evaluated_waiting l 2) in Hx as (ops & vs & -> & Hw & Hf); [|lia|done|done].
    pose proof (step_operator true ops os vs vals (truth l) _ _ 2 Hx' eq_refl Hw Hf Hos) as E.
    destruct (IHr Hdr (TOr :: os) (truth l :: vals) rest (err || wrong l)) as (m & y & Ht' & Hm & Hy); [by eapply step_keeps_room| |done|].
    { apply (stands_le 1); [lia|]. cbn. auto. }
    apply (evaluated_waiting r 1) in Hy as (ops' & vs' & -> & Hw' & Hf'); [|lia|done|cbn; auto].
    eexists (n + S m)%nat, _. split_and!.
    + eapply turns_trans; [exact Ht|]. eapply Turns_step; [exact E|exact Ht'].
    + rewrite length_app. simpl. lia.
    + exists (ops' ++ [TOr]), (vs' ++ [truth l]). rewrite <-!app_assoc, <-orb_assoc. split_and!; [done| |].
      * rewrite (waiting_app _ _ _ _ _ Hw'). cbn. by rewrite orb_comm.
      * apply Forall_app. split; [|by repeat constructor; auto]. eapply Forall_impl; [done|]. cbn. auto.
Qed.
End capacity.

Lemma finish_waiting cap ops vs v err n : (length vs ≤ cap)%nat → waiting ops vs = Some v → Forall (ops_of 2) ops → (length ops < n)%nat →
  t_finish n (TStack cap ops vs) err = Some (TStack cap [] [v], err).
Proof.
  revert vs n. induction ops as [|o ops IH]; intros vs n Hc Hw Hf Hn; (destruct n; [simpl in Hn; lia|]).
  - destruct vs as [|w [|? ?]]; try done. by injection Hw as ->.
  - inversion Hf as [|? ? Ho Hf']; subst. destruct vs as [|r [|l vs]]; try done. simpl in Hn, Hc.
    destruct Ho as [-> | ->]; cbn; unfold t_reduce; cbn [tops tvals t_cap]; (rewrite push_val_room by (simpl; lia)); cbn;
      (apply (IH (_ :: vs)); [simpl; lia|done|done|lia]).
Qed.

Lemma evaluate_expr e : derived e → t_evaluate (print e) = Some (truth e, wrong e, []).
Proof.
  intros Hd. pose proof (start_ok (print e)) as Hok. set (cap := (length (print e) + 1)%nat) in *.
  destruct (turns_expr cap e Hd [] [] [] false) as (n & x & Ht & Hn & Hx); [by rewrite app_nil_r|by destruct (level e)|done|].
  rewrite app_nil_r in Ht. pose proof (turns_ok _ _ _ Ht Hok) as [_ [_ Hv]].
  apply (evaluated_waiting cap e 2) in Hx as (ops & vs & -> & Hw & Hf); [|lia|destruct e; cbn; lia|done].
  rewrite !app_nil_r in Ht, Hv. unfold ShellBuiltins.t_evaluate. fold cap.
  replace (S (S (length (print e)))) with (n + S (S (length (print e)) - n))%nat by lia.
  change (TState (TStack cap [] []) (print e) true false) with (at_operand cap [] [] (print e) false).
  rewrite (loop_turns _ _ _ _ _ Ht eq_refl). cbn [mbind option_bind t_stack at_operator tops]. cbn in Hv.
  assert (length vs ≤ cap)%nat as Hc by (clearbody cap; simpl in Hv; lia). rewrite (finish_waiting cap _ _ _ _ _ Hc Hw Hf) by lia. done.
Qed.

(** * The special forms of few words *)

Lemma print_nonempty e : print e ≠ [].
Proof. induction e; simpl; try done; by destruct (print _). Qed.
Lemma print_length e : (1 ≤ length (print e))%nat.
Proof. pose proof (print_nonempty e). destruct (print e); [done|simpl; lia]. Qed.
Lemma print_one e s : print e = [s] → e = Nonempty s.
Proof.
  intros E. pose proof (f_equal length E) as El. destruct e as [| | |e|e|l r|l r]; cbn in *; try (by simplify_eq); exfalso; revert El;
    [pose proof (print_length e)|rewrite length_app; pose proof (print_length e)
    |(rewrite length_app; pose proof (print_length l); pose proof (print_length r))..]; simpl; lia.
Qed.
Lemma print_two e (a b : text) : print e = [a; b] → (∃ c, a = ["-"%char; c] ∧ e = Unary c b) ∨ a = $"!".
Proof.
  intros E. pose proof (f_equal length E) as El. destruct e as [| | |e|e|l r|l r]; cbn in *; try (by simplify_eq); [left; simplify_eq; eauto|right; by simplify_eq|..];
    exfalso; revert El; [rewrite length_app; pose proof (print_length e)
    |(rewrite length_app; pose proof (print_length l); pose proof (print_length r))..]; simpl; lia.
Qed.
Lemma split_three (x y : list text) (a o b m : text) : (1 ≤ length x)%nat → (1 ≤ length y)%nat → x ++ m :: y = [a; o; b] → o = m.
Proof.
  intros Hx Hy E. pose proof (f_equal length E) as El. rewrite length_app in El. destruct x as [|? [|? x]], y as [|? [|? y]]; simpl in *; try lia. by injection E.
Qed.

Lemma unop_no_binop c : t_is_unop ["-"%char; c] = true → t_is_binop ["-"%char; c] = false.
Proof.
  intros E. cbn in E. apply bool_decide_eq_true in E. repeat (apply elem_of_cons in E as [-> |E]; [done|]). by apply elem_of_nil in E.
Qed.

(** A parenthesis around a word that is a binary operator reads as a comparison of parentheses. *)
Definition compares_parentheses (e : expr) : Prop := match e with Group (Nonempty s) => t_is_binop s = true | _ => False end.

Lemma print_three e (a o b : text) : derived e → ¬ compares_parentheses e → print e = [a; o; b] → t_is_binop o = true → e = Binary a o b.
Proof.
  intros Hd Hc E Ho. destruct e as [| | |e|e|l r|l r]; cbn [print] in E; try (by simplify_eq).
  - injection E as _ E. apply print_two in E as [(c & -> & ->)| ->]; [|done]. destruct Hd as [_ Hd].
    rewrite (unop_no_binop c) in Ho; [done|exact Hd].
  - injection E as _ E. pose proof (f_equal length E) as El. rewrite length_app in El. destruct (print e) as [|x [|? ?]] eqn:Ee; simpl in *; try lia.
    injection E as -> _. apply print_one in Ee as ->. done.
  - by rewrite (split_three _ _ _ _ _ _ (print_length l) (print_length r) E) in Ho.
  - by rewrite (split_three _ _ _ _ _ _ (print_length l) (print_length r) E) in Ho.
Qed.

(** C24: test stops on every list of [n] arguments without taking a value or an operator from
    an empty stack and without pushing one beyond the [n + 1] cells that its two arrays have;
    and the words of an expression of its grammar - with the brackets, negations and
    precedences of the grammar, both sides of -a and -o evaluated - answer the truth of the
    expression: 0, 1, or 2 when an operand is no number.  The one exception are parentheses
    around a single word that reads as a binary operator: they are compared with it. *)
Theorem eval_test_correct : (∀ a, is_Some (eval_test a)) ∧
  (∀ e, derived e → ¬ compares_parentheses e →
    eval_test (print e) = Some (if wrong e then 2 else if truth e then 0 else 1)) ∧
  ∀ s, compares_parentheses (Group (Nonempty s)) →
    let e := Binary ($"(") s ($")") in eval_test (print (Group (Nonempty s))) = Some (if wrong e then 2 else if truth e then 0 else 1).
Proof.
  split; [apply eval_test_total|]. split; [|by intros s Hs; unfold ShellBuiltins.eval_test; cbn in *; rewrite Hs; destruct (t_binop _ _ _)].
  intros e Hd Hc. pose proof (evaluate_expr e Hd) as E.
  unfold ShellBuiltins.eval_test. cbv zeta. rewrite E. cbn [mbind option_bind].
  assert (Some (if (wrong e || negb (bool_decide (([] : list text) = [])))%bool then 2 else if truth e then 0 else 1) =
    Some (if wrong e then 2 else if truth e then 0 else 1)) as Hg by (by destruct (wrong e)).
  destruct (print e) as [|a [|o [|b [|? ?]]]] eqn:Ep; [by apply print_nonempty in Ep|by apply print_one in Ep as ->|exact Hg| |exact Hg].
  destruct (t_is_binop o) eqn:Eo; [|exact Hg]. rewrite (print_three e a o b Hd Hc Ep Eo). cbn [truth wrong]. by destruct (t_binop a o b).
Qed.
End test.

Lemma eval_test_correct_witness :
  let e := Or (And (Not (Group (Binary ($"1") ($"-eq") ($"01")))) (Nonempty ($"x"))) (Unary "z" []) in
  print e = [$"!"; $"("; $"1"; $"-eq"; $"01"; $")"; $"-a"; $"x"; $"-o"; $"-z"; []] ∧ derived e ∧
  ShellBuiltins.eval_test (λ _ _, false) (print e) = Some 0.
Proof.
  split; [reflexivity|]. assert (derived (Or (And (Not (Group (Binary ($"1") ($"-eq") ($"01")))) (Nonempty ($"x"))) (Unary "z" []))) as Hd.
  { cbn [derived level]. unfold operand. split_and!; (lia || reflexivity || discriminate). }
  split; [exact Hd|]. exact (proj1 (proj2 (eval_test_correct (λ _ _, false))) _ Hd (λ H, H)).
Defined.
