(* ===== verification/ShellExec.v ===== *)
(** Execution, sh_exec.cpp: the machine that steps the frame on top of the stack, and the
    frames of programs, commands and control flow.  What a frame changed for its duration
    is undone by its destructor, [destroy]. *)

From S2P Require Import Prelude Text ShellGlob Arith ShellLex ShellParse ShellState ShellFrames ShellExpand ShellBuiltins.

(** Constants of sh_exec.cpp and sh_machine.h. *)
Definition MAX_PREFIX_ASSIGNMENTS : nat := 32.
Definition MAX_REDIRECTIONS : nat := 16.
Definition SH_MAX_FRAMES : nat := 1024.

(** The name and the raw value of an assignment word. *)
Definition assignment_name (raw : text) : text := take param_name_max (default raw (fst <$> split_char "=" raw)).
Definition assignment_value (raw : text) : text := default [] (snd <$> split_char "=" raw).

(** The next pattern to try: its clause, its number and its text. *)
Fixpoint next_pattern (l : list (list text * addr)) (clause pattern : nat) : option (nat * nat * text) :=
  match l with
  | [] => None
  | (ps, _) :: l' =>
      match ps !! pattern with
      | Some p => Some (clause, pattern, p)
      | None => next_pattern l' (S clause) 0
      end
  end.

(** Trailing newlines go. *)
Definition drop_newlines (s : text) : text := reverse (let r := reverse s in drop (span (λ c, bool_decide (c = newline)) r) r).

Section exec.
Context `{Platform} `{Long}.
(** For loops inside a step that depend on a file or on an expression. *)
Variable fuel : nat.

Definition finished (self : Frame) (n : Z) : M shell Step := mret (Return self (status_result n)).
Definition call (self callee : Frame) : M shell Step := mret (Call self callee).
Definition exec (n : addr) (exempt : bool) : Frame := ExecNode (Some n) exempt.

Definition put_flow (f : FlowFlags) : M shell unit := set_flow (λ _, f).
(** [st.exiting || st.returning] *)
Definition leaving : M shell bool := get_flow (λ f, exiting f || returning f)%bool.
Definition stopping : M shell bool :=
  get_flow (λ f, exiting f || returning f || negb (bool_decide (brk f = 0)) || negb (bool_decide (cont f = 0)))%bool.

(** Whether the loop stops after its body. *)
Definition loop_control : M shell bool :=
  f ← get_flow id;
  if (exiting f || returning f)%bool then mret true
  else if negb (bool_decide (brk f = 0)) then put_flow (f <| brk := brk f - 1 |>);; mret true
  else if negb (bool_decide (cont f = 0)) then put_flow (f <| cont := cont f - 1 |>);; mret (negb (bool_decide (cont f - 1 = 0)))
  else mret false.
Definition add_loop_depth (d : Z) : M shell unit := setst (λ s, s <| loop_depth := loop_depth s + d |>).

(** * Redirections *)

Definition restore_io (r : Redirections) : M shell Redirections :=
  (match io r with Some saved => sh_redir_restore saved | None => mret tt end);; mret (Redirs None (tempFiles r)).
Definition destroy_redirections (r : Redirections) : M shell unit :=
  r ← restore_io r; for_list remove_file (tempFiles r).
Definition restore_optional (r : option Redirections) : M shell (option Redirections) :=
  match r with Some r => r ← restore_io r; mret (Some r) | None => mret None end.
Definition destroy_optional (r : option Redirections) : M shell unit :=
  match r with Some r => destroy_redirections r | None => mret tt end.

(** The item for a here-document's file, which is one of the files to remove. *)
Definition writeHeredoc (body : text) (target : Redirections) : M shell (sh_redir_rt * Redirections) :=
  path ← sh_port_tmpfile;
  f ← platform (fopen path Write);
  (match f with inl f => platform (λ w, (tt, fclose f (fputs body f w))) | inr _ => mret tt end);;
  mret (RedirRt 0 SH_RD_IN (Some path) 0, Redirs (io target) (tempFiles target ++ [path])).

(** The loop of [ApplyRedirects::step] over the redirections from [index] on. *)
Fixpoint redirects_loop (n : addr) (l : list sh_redir) (index : nat) (items : list sh_redir_rt) (target : Redirections)
    : M shell (Step * Redirections) :=
  let apply :=
    o ← sh_redir_apply items;
    let self := ApplyRedirects n index false items in
    match o with
    | Some saved => mret (Return self (status_result 0), Redirs (Some saved) (tempFiles target))
    | None => for_list remove_file (tempFiles target);; mret (Return self (status_result 1), Redirs (io target) [])
    end in
  match l with
  | [] => apply
  | x :: l' =>
      if (length items <? MAX_REDIRECTIONS)%nat then
        let wait e := mret (Call (ApplyRedirects n index true items) (Expand_ e), target) in
        let word := default [] (redir_word x) in
        match kind x with
        | R_HEREDOC =>
            if heredoc_quoted x then
              '(it, target) ← writeHeredoc word target; redirects_loop n l' (S index) (items ++ [it]) target
            else wait (expand_heredoc word)
        | R_DUP => redirects_loop n l' (S index) (items ++ [RedirRt (fd x) SH_RD_DUP None (dupfd x)]) target
        | R_CLOSE => redirects_loop n l' (S index) (items ++ [RedirRt (fd x) SH_RD_CLOSE None 0]) target
        | _ => wait (expand_single true false word)
        end
      else apply
  end.

Definition redirects_step (r : Result) (n : addr) (index : nat) (waiting : bool) (items : list sh_redir_rt) (target : Redirections)
    : M shell (Step * Redirections) :=
  c ← cell_at n;
  if waiting then
    x ← Prelude.deref (λ _, redirs c !! index);
    '(it, target) ← (match kind x with
      | R_HEREDOC => writeHeredoc (rtext r) target
      | k => mret (RedirRt (fd x) (match k with R_IN => SH_RD_IN | R_APPEND => SH_RD_APPEND | _ => SH_RD_OUT end) (Some (rtext r)) 0, target)
      end);
    redirects_loop n (drop (S index) (redirs c)) (S index) (items ++ [it]) target
  else redirects_loop n (drop index (redirs c)) index items target.

(** * Programs *)

Definition restore_positional (swapped : option (list text)) : M shell unit :=
  match swapped with Some l => setst (λ s, s <| pos := l |>) | None => mret tt end.

Definition program_finish (m : run_mode) (swapped : option (list text)) (n : Z) : M shell Step :=
  '(swapped, n) ← (match m with
    | Source =>
        restore_positional swapped;;
        f ← get_flow id;
        if returning f then put_flow (f <| returning := false |>);; mret (None, return_code f) else mret (None, n)
    | _ => mret (swapped, n)
    end);
  bad ← getst parse_error;
  (match m with
   | Plain => mret tt
   | _ => if bad : bool then set_flow (λ f, f <| exiting := true |> <| exit_code := 2 |>) else mret tt
   end);;
  finished (RunProgram_Started m None swapped) n.

Definition syntax_error (m : run_mode) (swapped : option (list text)) (message : list text) : M shell Step :=
  complain ($"sh: syntax error" :: message ++ [[newline]]);;
  setst (λ s, s <| parse_error := true |> <| last_status := 2 |>);;
  program_finish m swapped 2.

Definition program_start (source : text) (m : run_mode) (positional : option Fields) : M shell Step :=
  swapped ← (match positional with
    | Some l => old ← getst pos; sh_set_positional None l;; mret (Some old)
    | None => mret None
    end);
  setst (λ s, s <| parse_error := false |>);;
  match sh_lex (c_string source) with
  | Some None => syntax_error m swapped [$" (unterminated quote)"]
  | Some (Some toks) =>
      match sh_parse toks (10 * length toks + 9) with
      | Done (inr e) => syntax_error m swapped [$": "; e]
      | Done (inl tree) => root ← load tree; call (RunProgram_Started m (Some root) swapped) (exec root false)
      | _ => undef
      end
  | None => undef
  end.

Definition program_end (r : Result) (m : run_mode) (root : option addr) (swapped : option (list text)) : M shell Step :=
  sh_free_node root;;
  f ← get_flow id;
  program_finish m swapped (if exiting f then exit_code f else status r).

(** * Nodes *)

Definition is_simple (k : cell_kind) : bool := match k with C_SIMPLE _ _ => true | _ => false end.
Definition structural (k : cell_kind) : bool :=
  match k with C_LIST _ | C_ANDOR _ _ _ => true | C_GROUP subshell _ => negb subshell | _ => false end.

Definition node_finish (n : addr) (exempt : bool) (r : option Redirections) (v : Z) : M shell Step :=
  c ← cell_at n;
  let v := if negated c then (if decide (v = 0) then 1 else 0) else v in
  setst (λ s, s <| last_status := v |>);;
  errexit ← getst opt_errexit; stop ← stopping;
  (if (errexit && negb exempt && negb (negated c) && negb (bool_decide (v = 0)) && negb (structural (cell_of c)) && negb stop)%bool
   then set_flow (λ f, f <| exiting := true |> <| exit_code := v |>) else mret tt);;
  finished (ExecNode_Body n exempt r) v.

Definition new_simple : ExecSimple := SimpleCommand Simple_Start 0 0 [] None [].

Definition node_body (n : addr) (exempt : bool) (r : option Redirections) : M shell Step :=
  c ← cell_at n;
  let inner := (exempt || negated c)%bool in
  let go callee := call (ExecNode_Body n exempt r) callee in
  match cell_of c with
  | C_LIST _ => go (ExecList n inner 0 0 false)
  | C_ANDOR _ _ _ => go (ExecAndOr n inner AndOr_Start)
  | C_PIPE _ => go (ExecPipe_ n inner None)
  | C_SIMPLE _ _ => go (ExecSimple_ n inner new_simple)
  | C_IF _ _ => go (ExecIf n inner 0 If_Start)
  | C_WHILE _ _ _ => go (ExecWhile n inner 0 While_Start)
  | C_FOR _ _ _ _ => go (ExecFor n inner [] 0 0 0 For_Start)
  | C_CASE _ _ => go (ExecCase n inner [] 0 0 Case_Start)
  | C_GROUP _ _ => go (ExecGroup n inner)
  | C_FUNCDEF name body =>
      sh_func_define name body;;
      c ← cell_at n;
      put_cell n (Cell (negated c) (redirs c) (C_FUNCDEF name None));;
      node_finish n exempt r 0
  end.

Definition node_start (n : option addr) (exempt : bool) : M shell Step :=
  n ← Prelude.deref (λ _, n);
  c ← cell_at n;
  if (negb (is_simple (cell_of c)) && negb (bool_decide (redirs c = [])))%bool
  then call (ExecNode_Redirected n exempt no_redirections) (ApplyRedirects n 0 false [])
  else node_body n exempt None.

Definition node_redirected (r : Result) (n : addr) (exempt : bool) (rd : Redirections) : M shell Step :=
  if decide (status r = 0) then node_body n exempt (Some rd)
  else setst (λ s, s <| last_status := 1 |>);; finished (ExecNode_Redirected n exempt rd) 1.

Definition node_end (r : Result) (n : addr) (exempt : bool) (rd : option Redirections) : M shell Step :=
  rd ← restore_optional rd; node_finish n exempt rd (status r).

(** * Lists, and-or, if *)

Definition list_next (n : addr) (exempt : bool) (index : nat) (v : Z) : M shell Step :=
  c ← cell_at n;
  match cell_of c with
  | C_LIST l =>
      let self := ExecList n exempt index v true in
      match l !! index with Some child => call self (exec child exempt) | None => finished self v end
  | _ => undef
  end.
Definition list_step (r : Result) (n : addr) (exempt : bool) (index : nat) (v : Z) (started : bool) : M shell Step :=
  if started then
    stop ← stopping;
    if stop : bool then finished (ExecList n exempt index (status r) true) (status r) else list_next n exempt (S index) (status r)
  else list_next n exempt index v.

Definition andor_step (r : Result) (n : addr) (exempt : bool) (ph : andor_phase) : M shell Step :=
  c ← cell_at n;
  match cell_of c with
  | C_ANDOR l rt o =>
      match ph with
      | AndOr_Start => call (ExecAndOr n exempt AndOr_Left) (exec l true)
      | AndOr_Left =>
          stop ← leaving;
          let self := ExecAndOr n exempt AndOr_Left in
          let ok := bool_decide (status r = 0) in
          if stop : bool then finished self (status r)
          else if (if decide (o = T_AMPAMP) then ok else negb ok) then call (ExecAndOr n exempt AndOr_Right) (exec rt exempt)
          else finished self (status r)
      | AndOr_Right => finished (ExecAndOr n exempt AndOr_Right) (status r)
      end
  | _ => undef
  end.

Definition if_next (n : addr) (exempt : bool) (clause : nat) (l : list (addr * addr)) (els : option addr) : M shell Step :=
  match l !! clause with
  | Some (cond, _) => call (ExecIf n exempt clause If_Condition) (exec cond true)
  | None =>
      match els with
      | Some b => call (ExecIf n exempt clause If_Tail) (exec b exempt)
      | None => finished (ExecIf n exempt clause If_Start) 0
      end
  end.
Definition if_step (r : Result) (n : addr) (exempt : bool) (clause : nat) (ph : if_phase) : M shell Step :=
  c ← cell_at n;
  match cell_of c with
  | C_IF l els =>
      match ph with
      | If_Start => if_next n exempt clause l els
      | If_Condition =>
          stop ← leaving;
          if stop : bool then finished (ExecIf n exempt clause ph) (status r)
          else if decide (status r = 0) then
            b ← Prelude.deref (λ _, snd <$> l !! clause); call (ExecIf n exempt clause If_Tail) (exec b exempt)
          else if_next n exempt (S clause) l els
      | If_Tail => finished (ExecIf n exempt clause ph) (status r)
      end
  | _ => undef
  end.

(** * Loops *)

(** A loop that is entered counts until its frame is destroyed. *)
Definition while_test (n : addr) (exempt : bool) (v : Z) (cond : addr) : M shell Step :=
  f ← get_flow id;
  if exiting f then finished (ExecWhile n exempt v While_Body) v
  else call (ExecWhile n exempt v While_Condition) (exec cond true).
Definition while_step (r : Result) (n : addr) (exempt : bool) (v : Z) (ph : while_phase) : M shell Step :=
  c ← cell_at n;
  match cell_of c with
  | C_WHILE cond until body =>
      match ph with
      | While_Start => add_loop_depth 1;; while_test n exempt v cond
      | While_Condition =>
          let self := ExecWhile n exempt v While_Condition in
          f ← get_flow id;
          if (negb (bool_decide (brk f = 0)) || negb (bool_decide (cont f = 0)))%bool then _ ← loop_control; finished self v
          else
            let c := if until then (if decide (status r = 0) then 1 else 0) else status r in
            if (exiting f || returning f || negb (bool_decide (c = 0)))%bool then finished self v
            else call (ExecWhile n exempt v While_Body) (exec body exempt)
      | While_Body =>
          stop ← loop_control;
          if stop : bool then finished (ExecWhile n exempt (status r) While_Body) (status r) else while_test n exempt (status r) cond
      end
  | _ => undef
  end.

Definition for_next (n : addr) (exempt : bool) (items : Fields) (w item : nat) (v : Z) (name : text) (body : addr) : M shell Step :=
  f ← get_flow id;
  let self := ExecFor n exempt items w item v For_Body in
  match items !! item with
  | Some x => if exiting f then finished self v else sh_set name x;; call self (exec body exempt)
  | None => finished self v
  end.
Definition for_step (r : Result) (n : addr) (exempt : bool) (items : Fields) (w item : nat) (v : Z) (ph : for_phase) : M shell Step :=
  c ← cell_at n;
  match cell_of c with
  | C_FOR name words implicit body =>
      let enter items w := add_loop_depth 1;; for_next n exempt items w item v name body in
      let expand_next items w :=
        match words !! w with
        | Some raw => call (ExecFor n exempt items w item v For_Expanding) (Expand_ (expand_word raw))
        | None => enter items w
        end in
      match ph with
      | For_Start => if implicit then l ← getst pos; enter l w else expand_next items w
      | For_Expanding => expand_next (items ++ rfields r) (S w)
      | For_Body =>
          stop ← loop_control;
          if stop : bool then finished (ExecFor n exempt items w item (status r) For_Body) (status r)
          else for_next n exempt items w (S item) (status r) name body
      end
  | _ => undef
  end.

(** * case *)

Definition case_next (n : addr) (exempt : bool) (subject : text) (clause pattern : nat) (l : list (list text * addr)) : M shell Step :=
  match next_pattern (drop clause l) clause pattern with
  | Some (clause, pattern, p) =>
      call (ExecCase n exempt subject clause pattern Case_Pattern) (Expand_ (expand_single true false p))
  | None => finished (ExecCase n exempt subject clause pattern Case_Tail) 0
  end.
Definition case_step (r : Result) (n : addr) (exempt : bool) (subject : text) (clause pattern : nat) (ph : case_phase) : M shell Step :=
  c ← cell_at n;
  match cell_of c with
  | C_CASE word l =>
      match ph with
      | Case_Start => call (ExecCase n exempt subject clause pattern Case_Subject) (Expand_ (expand_single true false word))
      | Case_Subject => case_next n exempt (rtext r) clause pattern l
      | Case_Pattern =>
          if pattern_match (rtext r) subject then
            b ← Prelude.deref (λ _, snd <$> l !! clause);
            call (ExecCase n exempt subject clause pattern Case_Tail) (exec b exempt)
          else case_next n exempt subject clause (S pattern) l
      | Case_Tail => finished (ExecCase n exempt subject clause pattern Case_Tail) (status r)
      end
  | _ => undef
  end.

(** * Groups and subshells *)

Definition take_snapshot : M shell Snapshot :=
  cwd_ ← sh_port_getcwd;
  getst (λ s, Snap (vars s) (pos s) (arg0 s) cwd_ (cwd s) (flow s) (opt_errexit s) (opt_nounset s)).
Definition restore_snapshot (x : Snapshot) : M shell unit :=
  setst (λ s, s <| vars := savedVars x |> <| pos := savedPositional x |> <| arg0 := savedArg0 x |> <| cwd := savedLogicalCwd x |>);;
  _ ← sh_port_chdir (savedCwd x);
  put_flow (savedFlow x);;
  setst (λ s, s <| opt_errexit := savedErrexit x |> <| opt_nounset := savedNounset x |>).

Definition group_start (n : addr) (exempt : bool) : M shell Step :=
  c ← cell_at n;
  match cell_of c with
  | C_GROUP false body => call (ExecGroup_Started n exempt None) (exec body exempt)
  | C_GROUP true body => x ← take_snapshot; call (ExecGroup_Started n exempt (Some x)) (exec body exempt)
  | _ => undef
  end.

(** * Pipelines *)

(** The file that a stage writes, if there is a stage after it. *)
Definition stage_output (p : ExecPipe) (stages : nat) : option text :=
  if (stage p <? stages - 1)%nat then Some (if Nat.odd (stage p) then tempA p else tempB p) else None.

Definition start_stage (n : addr) (exempt : bool) (l : list addr) (p : ExecPipe) : M shell Step :=
  match l !! stage p with
  | None => finished (ExecPipe_ n exempt (Some p)) (pipe_status p)
  | Some child =>
      let file fd o path := RedirRt fd o (Some path) 0 in
      saved ← sh_redir_apply
        (option_list (file 0 SH_RD_IN <$> previousOutput p) ++ option_list (file 1 SH_RD_OUT <$> stage_output p (length l)));
      match saved with
      | None => finished (ExecPipe_ n exempt (Some p)) 1
      | Some saved =>
          f ← get_flow id;
          call (ExecPipe_ n exempt (Some (p <| stageIo := Some saved |> <| stageFlow := f |>))) (exec child exempt)
      end
  end.

Definition pipe_step (r : Result) (n : addr) (exempt : bool) (o : option ExecPipe) : M shell Step :=
  c ← cell_at n;
  match cell_of c with
  | C_PIPE l =>
      match o with
      | None =>
          match l with
          | [child] => call (ExecPipe_Single n exempt) (exec child exempt)
          | _ =>
              a ← sh_port_tmpfile; b ← sh_port_tmpfile;
              start_stage n exempt l (Pipe a b 0 0 None None (Flow false 0 0 0 false 0))
          end
      | Some p =>
          put_flow (stageFlow p);;
          (match stageIo p with Some saved => sh_redir_restore saved | None => mret tt end);;
          start_stage n exempt l
            (p <| pipe_status := status r |> <| stageIo := None |> <| previousOutput := stage_output p (length l) |>
               <| stage := S (stage p) |>)
      end
  | _ => undef
  end.

(** * Simple commands *)

Definition restore_binding (b : Binding) : M shell unit :=
  (match binding_value b with Some v => sh_set (binding_name b) v | None => sh_unset (binding_name b) end);;
  (match environment b with Some v => setenv (binding_name b) v | None => unsetenv (binding_name b) end).
Definition restore_bindings (c : ExecSimple) : M shell ExecSimple :=
  for_list restore_binding (bindings c);; mret (c <| bindings := [] |>).

Definition simple_finish (n : addr) (exempt : bool) (c : ExecSimple) (v : Z) : M shell Step :=
  rd ← restore_optional (redirections c);
  c ← restore_bindings (c <| redirections := rd |>);
  finished (ExecSimple_ n exempt c) v.

(** The status of a command without words. *)
Definition substituted_status : M shell Z :=
  getst (λ s, if cmdsub_ran s then cmdsub_status s else 0).

Definition apply_assignment (raw v : text) : M shell unit :=
  if bool_decide ("="%char ∈ raw) then sh_set (assignment_name raw) v else mret tt.

Definition simple_call (n : addr) (exempt : bool) (c : ExecSimple) (callee : Frame) : M shell Step :=
  call (ExecSimple_ n exempt c) callee.
Definition simple_redirect (n : addr) (exempt : bool) (c : ExecSimple) (ph : simple_phase) : M shell Step :=
  simple_call n exempt (c <| phase := ph |> <| redirections := Some no_redirections |>) (ApplyRedirects n 0 false []).
Definition expand_assignment (n : addr) (exempt : bool) (c : ExecSimple) (raw : text) : M shell Step :=
  simple_call n exempt c (Expand_ (expand_single true false (assignment_value raw))).

(** The expanded command: a function, a builtin or a command of the system. *)
Definition simple_run (n : addr) (exempt : bool) (c : ExecSimple) : M shell Step :=
  let c := c <| phase := Ran |> in
  match argv c with
  | [] => undef
  | command :: args =>
      fn ← sh_func_find command;
      match fn with
      | Some body => simple_call n exempt c (CallFunction command body (argv c) exempt)
      | None =>
          if decide (command = $"eval") then
            match args with
            | [] => simple_finish n exempt c 0
            | _ => simple_call n exempt c (RunProgram (join (Some " "%char) args) Eval None)
            end
          else if bool_decide (command = $"." ∨ command = $"source") then
            match args with
            | [] => complain [command; $": filename argument required"; [newline]];; simple_finish n exempt c 2
            | path :: params =>
                w ← gets files;
                match shell_bridge_read_file path w with
                | None => complain [command; $": "; path; $": cannot open"; [newline]];; simple_finish n exempt c 1
                | Some source => simple_call n exempt c (RunProgram source Source (match params with [] => None | _ => Some params end))
                end
            end
          else
            b ← sh_run_builtin fuel (argv c);
            match b with
            | Ended v => simple_finish n exempt c v
            | Reading => mret Unfinished
            | NotBuiltin =>
                '(v, found) ← sh_port_run_external (argv c);
                if found : bool then simple_finish n exempt c v
                else
                  complain [["027"%char]; $"[91m"; command; $": not found"; ["027"%char]; $"[0m"; [newline]];;
                  simple_finish n exempt c 127
            end
      end
  end.

(** The second [switch] of [ExecSimple::step]. *)
Definition pure_assign (n : addr) (exempt : bool) (c : ExecSimple) (assigns : list text) (redirected : bool) : M shell Step :=
  match assigns !! index c with
  | Some raw => expand_assignment n exempt c raw
  | None =>
      f ← get_flow id;
      if exiting f then finished (ExecSimple_ n exempt c) (exit_code f)
      else if redirected then simple_redirect n exempt c PureRedirected
      else v ← substituted_status; finished (ExecSimple_ n exempt c) v
  end.
Definition empty_assign (n : addr) (exempt : bool) (c : ExecSimple) (assigns : list text) : M shell Step :=
  match assigns !! index c with
  | Some raw => expand_assignment n exempt c raw
  | None => finished (ExecSimple_ n exempt c) (emptyStatus c)
  end.
Definition prefix_assign (n : addr) (exempt : bool) (c : ExecSimple) (assigns : list text) (redirected : bool) : M shell Step :=
  match take MAX_PREFIX_ASSIGNMENTS assigns !! index c with
  | Some raw =>
      let name := assignment_name raw in
      v ← sh_get name; e ← getenv name;
      expand_assignment n exempt (c <| bindings := bindings c ++ [Bind name v e] |>) raw
  | None =>
      f ← get_flow id;
      if exiting f then finished (ExecSimple_ n exempt (c <| bindings := [] |>)) (exit_code f)
      else if redirected then simple_redirect n exempt c Simple_Redirected
      else simple_run n exempt c
  end.

(** After the words. *)
Definition words_done (n : addr) (exempt : bool) (c : ExecSimple) (assigns : list text) (redirected : bool) : M shell Step :=
  f ← get_flow id;
  if exiting f then finished (ExecSimple_ n exempt c) (exit_code f)
  else
    let c := c <| index := O |> in
    match argv c with
    | [] => v ← substituted_status; empty_assign n exempt (c <| emptyStatus := v |> <| phase := EmptyAssign |>) assigns
    | _ => prefix_assign n exempt (c <| phase := PrefixAssign |>) assigns redirected
    end.

Definition simple_step (r : Result) (n : addr) (exempt : bool) (c : ExecSimple) : M shell Step :=
  x ← cell_at n;
  match cell_of x with
  | C_SIMPLE assigns words =>
      let redirected := negb (bool_decide (redirs x = [])) in
      let assigned := apply_assignment (default [] (assigns !! index c)) (rtext r) in
      let more := c <| index := S (index c) |> in
      match phase c with
      | Simple_Start =>
          setst (λ s, s <| cmdsub_ran := false |>);;
          match words with
          | [] => pure_assign n exempt (c <| index := O |> <| phase := PureAssign |>) assigns redirected
          | w :: _ => simple_call n exempt (c <| index := O |> <| phase := Words |>) (Expand_ (expand_word w))
          end
      | PureAssign => assigned;; pure_assign n exempt more assigns redirected
      | EmptyAssign => assigned;; empty_assign n exempt more assigns
      | PureRedirected =>
          if decide (status r = 0) then
            rd ← restore_optional (redirections c);
            v ← substituted_status;
            finished (ExecSimple_ n exempt (c <| redirections := rd |>)) v
          else finished (ExecSimple_ n exempt c) 2
      | Words =>
          let c := more <| argv := argv c ++ rfields r |> in
          match words !! index c with
          | Some w => simple_call n exempt c (Expand_ (expand_word w))
          | None => words_done n exempt c assigns redirected
          end
      | PrefixAssign =>
          assigned;;
          b ← Prelude.deref (λ _, last (bindings c));
          v ← sh_get (binding_name b);
          setenv (binding_name b) (default [] v);;
          prefix_assign n exempt more assigns redirected
      | Simple_Redirected =>
          if decide (status r = 0) then simple_run n exempt c
          else
            complain [default [] (head (argv c)); $": redirection failed"; [newline]];;
            simple_finish n exempt c 2
      | Ran => simple_finish n exempt c (status r)
      end
  | _ => undef
  end.

(** * Functions *)

Definition function_enter (name : text) (body : option addr) (args : Fields) (exempt : bool) : M shell Step :=
  depth ← getst call_depth;
  if (SH_MAX_CALL_DEPTH <=? depth)%nat then
    complain [name; $": recursion too deep"; [newline]];; finished (CallFunction name body args exempt) 1
  else
    old ← getst pos;
    sh_set_positional None (tail args);;
    sh_scope_push;;
    setst (λ s, s <| call_depth := S depth |>);;
    f ← get_flow id;
    put_flow (f <| returning := false |>);;
    call (CallFunction_Entered old (returning f)) (ExecNode body exempt).
Definition function_end (self : Frame) : M shell Step :=
  f ← get_flow id; v ← getst last_status;
  finished self (if returning f then return_code f else v).
Definition function_leave (old : list text) (previous : bool) : M shell unit :=
  set_flow (λ f, f <| returning := previous |>);;
  setst (λ s, s <| call_depth := pred (call_depth s) |>);;
  sh_scope_pop;;
  setst (λ s, s <| pos := old |>).

(** * Command substitution *)

(** All bytes of a file but NUL. *)
Fixpoint read_all (turns : nat) (f : FILE) (buf : text) : M shell (option text) :=
  match turns with
  | O => mret None
  | S t =>
      c ← platform (fgetc f);
      match c with
      | None => mret (Some buf)
      | Some c => read_all t f (if decide (c = NUL) then buf else buf ++ [c])
      end
  end.

Definition subst_finish (self : Frame) (saved : FlowFlags) (output : text) : M shell Step :=
  setst (λ s, s <| cmdsub_ran := true |> <| cmdsub_status := last_status s |>);;
  put_flow saved;;
  mret (Return self (text_result (drop_newlines output))).

Definition subst_start (command : text) : M shell Step :=
  temp ← sh_port_tmpfile;
  saved ← get_flow id;
  o ← sh_redir_apply [RedirRt 1 SH_RD_OUT (Some temp) 0];
  match o with
  | None => subst_finish (CommandSubst_Started [] None saved) saved []
  | Some x => call (CommandSubst_Started temp (Some x) saved) (RunProgram command Plain None)
  end.

Definition subst_end (temp : text) (o : option sh_redir_saved) (saved : FlowFlags) : M shell Step :=
  (match o with Some x => sh_redir_restore x | None => mret tt end);;
  f ← platform (fopen temp Read);
  output ← (match f with
    | inl f => t ← read_all fuel f []; platform (λ w, (tt, fclose f w));; mret t
    | inr _ => mret (Some [])
    end);
  remove_file temp;;
  match output with
  | Some t => subst_finish (CommandSubst_Started [] None saved) saved t
  | None => mret Unfinished
  end.

(** * The machine *)

(** The destructors. *)
Definition destroy (f : Frame) : M shell unit :=
  let restore o := match o with Some x => sh_redir_restore x | None => mret tt end in
  let remove_temp (path : text) := if decide (path = []) then mret tt else remove_file path in
  match f with
  | RunProgram_Started _ root swapped => sh_free_node root;; restore_positional swapped
  | ExecNode_Redirected _ _ r => destroy_redirections r
  | ExecNode_Body _ _ r => destroy_optional r
  | ExecWhile _ _ _ (While_Condition | While_Body) => add_loop_depth (-1)
  | ExecFor _ _ _ _ _ _ For_Body => add_loop_depth (-1)
  | ExecGroup_Started _ _ (Some x) => restore_snapshot x
  | ExecPipe_ _ _ (Some p) => restore (stageIo p);; remove_temp (tempA p);; remove_temp (tempB p)
  | ExecSimple_ _ _ c => c ← restore_bindings c; destroy_optional (redirections c)
  | CallFunction_Entered old previous => function_leave old previous
  | CommandSubst_Started temp o _ => restore o;; remove_temp temp
  | _ => mret tt
  end.

(** The redirections and the expansion that the frame below keeps. *)
Definition with_target (f : Frame) (step : Redirections → M shell (Step * Redirections)) : M shell (Step * Frame) :=
  match f with
  | ExecNode_Redirected n exempt r => '(s, r) ← step r; mret (s, ExecNode_Redirected n exempt r)
  | ExecSimple_ n exempt c =>
      r ← Prelude.deref (λ _, redirections c); '(s, r) ← step r; mret (s, ExecSimple_ n exempt (c <| redirections := Some r |>))
  | _ => undef
  end.
Definition with_expansion (f : Frame) (step : Expand → M shell (Step * Expand)) : M shell (Step * Frame) :=
  match f with Expand_ e => '(s, e) ← step e; mret (s, Expand_ e) | _ => undef end.

(** A step that leaves the frame below alone. *)
Definition own_step (r : Result) (f : Frame) : M shell Step :=
  match f with
  | RunProgram source m positional => program_start source m positional
  | RunProgram_Started m root swapped => program_end r m root swapped
  | ExecNode n exempt => node_start n exempt
  | ExecNode_Redirected n exempt rd => node_redirected r n exempt rd
  | ExecNode_Body n exempt rd => node_end r n exempt rd
  | ExecList n exempt index v started => list_step r n exempt index v started
  | ExecAndOr n exempt ph => andor_step r n exempt ph
  | ExecIf n exempt clause ph => if_step r n exempt clause ph
  | ExecWhile n exempt v ph => while_step r n exempt v ph
  | ExecFor n exempt items w item v ph => for_step r n exempt items w item v ph
  | ExecCase n exempt subject clause pattern ph => case_step r n exempt subject clause pattern ph
  | ExecGroup n exempt => group_start n exempt
  | ExecGroup_Started n exempt saved => finished f (status r)
  | ExecPipe_ n exempt p => pipe_step r n exempt p
  | ExecPipe_Single n exempt => finished f (status r)
  | ExecSimple_ n exempt c => simple_step r n exempt c
  | CallFunction name body args exempt => function_enter name body args exempt
  | CallFunction_Entered _ _ => function_end f
  | CommandSubst command => subst_start command
  | CommandSubst_Started temp o saved => subst_end temp o saved
  | Expand_ e => expand_step fuel r e
  | ApplyRedirects _ _ _ _ | ExpandBrace_ _ => undef
  end.

(** The step of the frame on top, and the frames below after it. *)
Definition step (r : Result) (f : Frame) (below : list Frame) : M shell (Step * list Frame) :=
  match f, below with
  | ApplyRedirects n index waiting items, g :: fs =>
      '(s, g) ← with_target g (redirects_step r n index waiting items); mret (s, g :: fs)
  | ExpandBrace_ b, g :: fs => '(s, g) ← with_expansion g (brace_step r b); mret (s, g :: fs)
  | _, _ => s ← own_step r f; mret (s, below)
  end.

(** [Machine::run]: the status; none when the steps are used up. *)
Fixpoint run (steps : nat) (frames : list Frame) (r : Result) : M shell (option Z) :=
  match frames with
  | [] => mret (Some (status r))
  | f :: fs =>
      match steps with
      | O => mret None
      | S n =>
          '(s, fs) ← step r f fs;
          match s with
          | Return self r => destroy self;; run n fs r
          | Call self callee =>
              if (length frames <? SH_MAX_FRAMES)%nat then run n (callee :: self :: fs) r
              else
                complain [$"sh: nesting too deep"; [newline]];;
                for_list destroy (self :: fs);;
                set_flow (λ f, f <| brk := 0 |> <| cont := 0 |> <| returning := false |>);;
                setst (λ s, s <| last_status := 2 |>);;
                mret (Some 2)
          | Unfinished => mret None
          end
      end
  end.

Definition sh_run_string (steps : nat) (src : text) : M shell (option Z) := run steps [RunProgram src Plain None] (status_result 0).

Definition sh_run_string_args (steps : nat) (src : text) (args : option (list text)) : M shell (option Z) :=
  (match args with Some l => sh_set_positional (head l) (tail l) | None => mret tt end);;
  sh_run_string steps src.
End exec.
