(* ===== verification/ShellDemo.v ===== *)
(** A platform in memory, to run the shell on: files are texts, a stream is a path with a
    position, and the terminal is the file with the empty name. *)

From S2P Require Import Prelude Text ShellGlob Arith ShellLex ShellParse ShellState ShellFrames ShellExpand ShellBuiltins ShellExec.

Record memory := Memory { contents : gmap text text; positions : list (text * nat); directory : text }.

Definition append_file (p s : text) (m : memory) : memory :=
  Memory (<[p := default [] (contents m !! p) ++ s]> (contents m)) (positions m) (directory m).
Definition open_file (p : text) (c : gmap text text) (m : memory) : (nat + Z) * memory :=
  (inl (length (positions m)), Memory c (positions m ++ [(p, O)]) (directory m)).
Definition absolute (p : text) (m : memory) : text :=
  if at_char "/" p then p else if decide (p = $".") then directory m else directory m ++ "/"%char :: p.

#[export] Instance memory_platform : Platform := {|
  world := memory;
  FILE := nat;
  fopen := λ p mode m,
    match mode with
    | Read => match contents m !! p with Some _ => open_file p (contents m) m | None => (inr 2, m) end
    | Write => open_file p (<[p := []]> (contents m)) m
    | Append => open_file p (<[p := default [] (contents m !! p)]> (contents m)) m
    end;
  fclose := λ _ m, m;
  fputs := λ s f m, match positions m !! f with Some (p, _) => append_file p s m | None => m end;
  fgetc := λ f m,
    match positions m !! f with
    | Some (p, i) =>
        match default [] (contents m !! p) !! i with
        | Some c => (Some c, Memory (contents m) (<[f := (p, S i)]> (positions m)) (directory m))
        | None => (None, m)
        end
    | None => (None, m)
    end;
  remove := λ p m, Memory (delete p (contents m)) (positions m) (directory m);
  strerror := λ _, $"No such file or directory";
  opendir := λ d m, Some (omap (λ p, if decide (take (S (length d)) p = d ++ $"/") then Some (drop (S (length d)) p) else None) (map_to_list (contents m)).*1);
  stat := λ p m, (λ s, FileInfo true false false (Z.of_nat (length s)) 1 1) <$> contents m !! p;
  access := λ p _ m, is_some (contents m !! p);
  isatty := λ n _, bool_decide (n = 0);
  shell_bridge_resolve := λ p _ m, Some (absolute p m);
  shell_bridge_temp_path := λ i _ _, $"/tmp/" ++ print_long i;
  shell_bridge_chdir := λ p m, (true, Memory (contents m) (positions m) (absolute p m));
  shell_bridge_getcwd := λ _ m, directory m;
  shell_bridge_read_file := λ p m, contents m !! absolute p m;
  shell_bridge_run_command := λ argv _ out _ m,
    match argv with
    | a :: _ =>
        if decide (a = $"who") then
          ((0, true), match positions m !! out with Some (p, _) => append_file p ($"root" ++ [newline]) m | None => m end)
        else ((127, false), m)
    | [] => ((127, false), m)
    end;
|}.

Definition boot_state : sh_state := ShState ∅ 0 false false (Flow false 0 0 0 false 0) 0 [] None ∅ 0 [] false false 0 None.
(** The three streams are the terminal's. *)
Definition terminal : shell :=
  Shell boot_state ∅ 0%nat 1%nat 2%nat (Memory (<[$"/d/b.c" := $"x"]> (<[$"/d/a.c" := $"y"]> ∅)) [($"tty", O); ($"tty", O); ($"tty", O)] ($"/d")) ∅ O 0.

(** What a script prints, and its status. *)
Definition script (lines : list string) : text := concat ((λ l, $l ++ [newline]) <$> lines).
Definition shown (o : outcome (option Z * shell)) : option (string * option Z) :=
  match o with
  | Done (v, s) => Some (string_of_list_ascii (default [] (contents (files s) !! $"tty")), v)
  | _ => None
  end.
Definition run_script (lines : list string) : outcome (option Z * shell) :=
  @sh_run_string _ wrapping_long 1000 1000 (script lines) terminal.

(** A run that ends with a status, as a test. *)
Definition ended {S} (o : outcome (option Z * S)) (v : Z) : bool :=
  match o with Done (Some n, _) => bool_decide (n = v) | _ => false end.
Lemma ended_done {S} (o : outcome (option Z * S)) v : ended o v = true → ∃ s, o = Done (Some v, s).
Proof. destruct o as [[[n|] s]| |]; try done. simpl. intros ->%bool_decide_eq_true. by exists s. Qed.
