(* ===== verification/ShellCleanup.v ===== *)
(** What a run of the shell leaves behind: however it ends, the streams are those of before,
    no loop and no function call is counted any more, and no scope is left. *)

From S2P Require Import Prelude Text ShellGlob Arith ShellLex ShellParse ShellState ShellFrames ShellExpand ShellBuiltins ShellExec.

Section cleanup.
Context `{Platform} `{Long}.

(** * What frames change for their duration *)

Record view := View { v_in : FILE; v_out : FILE; v_err : FILE; v_loops : Z; v_calls : nat; v_scopes : nat }.
Definition view_of (s : shell) : view :=
  View (stdin s) (stdout s) (stderr s) (loop_depth (st s)) (call_depth (st s)) (length (scopes (st s))).

(** Operations that leave it as it is. *)
Definition keeps {A} (m : M shell A) : Prop := ∀ s a s', m s = Done (a, s') → view_of s' = view_of s.

Lemma keeps_ret {A} (a : A) : keeps (mret a).
Proof. by intros s b s' [= -> ->]. Qed.
Lemma keeps_bind {A B} (m : M shell A) (f : A → M shell B) : keeps m → (∀ a, keeps (f a)) → keeps (m ≫= f).
Proof. intros Hm Hf s b s'' (a & s' & E & E')%bind_done. rewrite (Hf _ _ _ _ E'). by eapply Hm. Qed.
Lemma keeps_undef {A} : keeps (undef (A := A)).
Proof. done. Qed.
Lemma keeps_gets {A} (f : shell → A) : keeps (gets f).
Proof. by intros s a s' [= <- <-]. Qed.
Lemma keeps_get : keeps get.
Proof. by intros s a s' [= <- <-]. Qed.
Lemma keeps_deref {A} (f : shell → option A) : keeps (Prelude.deref f).
Proof. intros s a s'. unfold Prelude.deref. destruct (f s); [|done]. by intros [= <- <-]. Qed.
Lemma keeps_modify (f : shell → shell) : (∀ s, view_of (f s) = view_of s) → keeps (modify f).
Proof. intros Hf s a s' [= <- <-]. apply Hf. Qed.
Lemma keeps_setst f : (∀ s, (loop_depth (f s), call_depth (f s), length (scopes (f s))) = (loop_depth s, call_depth s, length (scopes s))) → keeps (setst f).
Proof. intros Hf. apply keeps_modify. intros s. unfold view_of. simpl. specialize (Hf (st s)). congruence. Qed.
Lemma keeps_for_list {A} (f : A → M shell unit) l : (∀ a, keeps (f a)) → keeps (for_list f l).
Proof. intros Hf. induction l; [apply keeps_ret|]. apply keeps_bind; [done|]. by intros _. Qed.
End cleanup.

Create HintDb keeps.
#[export] Hint Resolve keeps_ret keeps_undef keeps_gets keeps_get keeps_deref : keeps.

(** Symbolic execution of an operation that keeps the view. *)
Ltac keeps_step :=
  lazymatch goal with
  | |- keeps (_ ≫= _) => apply keeps_bind; [|intros ?]
  | |- keeps (modify _) => apply keeps_modify; intros ?; reflexivity
  | |- keeps (setst _) => apply keeps_setst; intros ?; reflexivity
  | |- keeps (for_list _ _) => apply keeps_for_list; intros ?
  | |- keeps (match ?x with _ => _ end) => destruct x
  | |- keeps _ => solve [auto with keeps nocore]
  end.
Ltac keeps := intros; repeat keeps_step.

Section operations.
Context `{Platform} `{Long}.
Variable fuel : nat.
Lemma keeps_getst {A} (f : sh_state → A) : keeps (getst f).
Proof. apply keeps_gets. Qed.
#[local] Hint Resolve keeps_getst : keeps.
Lemma keeps_get_flow {A} (f : FlowFlags → A) : keeps (get_flow f).
Proof. apply keeps_gets. Qed.
#[local] Hint Resolve keeps_get_flow : keeps.
Lemma keeps_set_flow f : keeps (set_flow f).
Proof. unfold set_flow. keeps. Qed.
#[local] Hint Resolve keeps_set_flow : keeps.
Lemma keeps_platform {A} (f : world → A * world) : keeps (platform f).
Proof. unfold platform. keeps. Qed.
#[local] Hint Resolve keeps_platform : keeps.
Lemma keeps_print o l : keeps (print o l).
Proof. unfold print. keeps. Qed.
#[local] Hint Resolve keeps_print : keeps.
Lemma keeps_complain l : keeps (complain l).
Proof. apply keeps_print. Qed.
#[local] Hint Resolve keeps_complain : keeps.
Lemma keeps_setenv n v : keeps (setenv n v).
Proof. unfold setenv. keeps. Qed.
#[local] Hint Resolve keeps_setenv : keeps.
Lemma keeps_unsetenv n : keeps (unsetenv n).
Proof. unfold unsetenv. keeps. Qed.
#[local] Hint Resolve keeps_unsetenv : keeps.
Lemma keeps_getenv n : keeps (getenv n).
Proof. unfold getenv. keeps. Qed.
#[local] Hint Resolve keeps_getenv : keeps.
Lemma keeps_find n : keeps (find n).
Proof. unfold find. keeps. Qed.
#[local] Hint Resolve keeps_find : keeps.
Lemma keeps_put_var n x : keeps (put_var n x).
Proof. unfold put_var. keeps. Qed.
#[local] Hint Resolve keeps_put_var : keeps.
Lemma keeps_sh_get n : keeps (sh_get n).
Proof. unfold sh_get. keeps. Qed.
#[local] Hint Resolve keeps_sh_get : keeps.
Lemma keeps_sh_set n v : keeps (sh_set n v).
Proof. unfold sh_set. keeps. Qed.
#[local] Hint Resolve keeps_sh_set : keeps.
Lemma keeps_sh_export n : keeps (sh_export n).
Proof. unfold sh_export. keeps. Qed.
#[local] Hint Resolve keeps_sh_export : keeps.
Lemma keeps_sh_unset n : keeps (sh_unset n).
Proof. unfold sh_unset. keeps. Qed.
#[local] Hint Resolve keeps_sh_unset : keeps.
Lemma keeps_sh_set_positional o l : keeps (sh_set_positional o l).
Proof. unfold sh_set_positional. keeps. Qed.
#[local] Hint Resolve keeps_sh_set_positional : keeps.
Lemma keeps_sh_shift_positional n : keeps (sh_shift_positional n).
Proof. unfold sh_shift_positional. keeps. Qed.
#[local] Hint Resolve keeps_sh_shift_positional : keeps.
Lemma keeps_cell_at a : keeps (cell_at a).
Proof. unfold cell_at. keeps. Qed.
#[local] Hint Resolve keeps_cell_at : keeps.
Lemma keeps_put_cell a c : keeps (put_cell a c).
Proof. unfold put_cell. keeps. Qed.
#[local] Hint Resolve keeps_put_cell : keeps.
Lemma keeps_new_cell c : keeps (new_cell c).
Proof. unfold new_cell. keeps. Qed.
#[local] Hint Resolve keeps_new_cell : keeps.
Lemma keeps_sh_func_find n : keeps (sh_func_find n).
Proof. unfold sh_func_find. keeps. Qed.
#[local] Hint Resolve keeps_sh_func_find : keeps.

(** Nodes, functions and scopes. *)

Lemma keeps_load : ∀ n, keeps (load n).
Proof.
  fix IH 1. intros [neg rs k]. cbn [load]. apply keeps_bind; [|intros c; apply keeps_new_cell].
  destruct k; cbn [load_kind]; keeps.
  all: match goal with |- keeps (_ ?l) => induction l as [|x l IHl]; keeps; apply IH end.
Qed.
#[local] Hint Resolve keeps_load : keeps.
Lemma keeps_free_loop n l : keeps (free_loop n l).
Proof. revert l. induction n; intros [|a l]; cbn [free_loop]; keeps. Qed.
#[local] Hint Resolve keeps_free_loop : keeps.
Lemma keeps_sh_free_node a : keeps (sh_free_node a).
Proof. unfold sh_free_node. keeps. Qed.
#[local] Hint Resolve keeps_sh_free_node : keeps.
Lemma keeps_sh_func_define n b : keeps (sh_func_define n b).
Proof. unfold sh_func_define. keeps. Qed.
#[local] Hint Resolve keeps_sh_func_define : keeps.
Lemma keeps_sh_func_unset n : keeps (sh_func_unset n).
Proof. unfold sh_func_unset. keeps. Qed.
#[local] Hint Resolve keeps_sh_func_unset : keeps.
Lemma keeps_sh_local n v : keeps (sh_local n v).
Proof.
  intros s a s'. unfold sh_local. intros (l & s1 & [= <- <-] & E)%bind_done. destruct (scopes (st s)) as [|sc l] eqn:Es; [by injection E as <- <-|].
  apply bind_done in E as (prior & s2 & E1 & E). apply bind_done in E1 as (x & s3 & [= <- <-] & [= <- <-]).
  apply bind_done in E as ([] & s4 & [= <-] & E).
  match type of E with ?m ?s1 = _ => assert (keeps m) as Hm by keeps; rewrite (Hm _ _ _ E) end.
  unfold view_of. simpl. by rewrite Es.
Qed.
#[local] Hint Resolve keeps_sh_local : keeps.

(** Expansion. *)

Lemma keeps_get_ifs : keeps get_ifs.
Proof. unfold get_ifs. keeps. Qed.
#[local] Hint Resolve keeps_get_ifs : keeps.
Lemma keeps_param_raw n : keeps (param_raw n).
Proof. unfold param_raw. keeps. Qed.
#[local] Hint Resolve keeps_param_raw : keeps.
Lemma keeps_fatal : keeps fatal.
Proof. unfold fatal. keeps. Qed.
#[local] Hint Resolve keeps_fatal : keeps.
Lemma keeps_nounset_fire n v : keeps (nounset_fire n v).
Proof. unfold nounset_fire. keeps. Qed.
#[local] Hint Resolve keeps_nounset_fire : keeps.
Lemma keeps_expand_at_star star q b o sp i : keeps (expand_at_star star q b o sp i).
Proof. unfold expand_at_star. keeps. Qed.
#[local] Hint Resolve keeps_expand_at_star : keeps.
Lemma keeps_assign_all m : keeps (assign_all m).
Proof. unfold assign_all. keeps. Qed.
#[local] Hint Resolve keeps_assign_all : keeps.
Lemma keeps_append v sp e : keeps (append v sp e).
Proof. unfold append. keeps. Qed.
#[local] Hint Resolve keeps_append : keeps.
Lemma keeps_append_param n sp e : keeps (append_param n sp e).
Proof. unfold append_param. keeps. Qed.
#[local] Hint Resolve keeps_append_param : keeps.
Lemma keeps_dollar sp q e : keeps (dollar sp q e).
Proof. unfold dollar. keeps. Qed.
#[local] Hint Resolve keeps_dollar : keeps.
Lemma keeps_scanWord n e : keeps (scanWord n e).
Proof. revert e. induction n; intros e; cbn [scanWord]; keeps. Qed.
#[local] Hint Resolve keeps_scanWord : keeps.
Lemma keeps_scanHeredoc n e : keeps (scanHeredoc n e).
Proof. revert e. induction n; intros e; cbn [scanHeredoc]; keeps. Qed.
#[local] Hint Resolve keeps_scanHeredoc : keeps.
Lemma keeps_begin e : keeps (begin e).
Proof. unfold begin. keeps. Qed.
#[local] Hint Resolve keeps_begin : keeps.
Lemma keeps_resume n r e : keeps (resume n r e).
Proof. unfold resume. keeps. Qed.
#[local] Hint Resolve keeps_resume : keeps.
Lemma keeps_expand_result e : keeps (expand_result e).
Proof. unfold expand_result. keeps. Qed.
#[local] Hint Resolve keeps_expand_result : keeps.
Lemma keeps_expand_step n r e : keeps (expand_step n r e).
Proof. unfold expand_step. keeps. Qed.
#[local] Hint Resolve keeps_expand_step : keeps.
Lemma keeps_brace_done b e : keeps (brace_done b e).
Proof. unfold brace_done. keeps. Qed.
#[local] Hint Resolve keeps_brace_done : keeps.
Lemma keeps_brace_call b ph n c e : keeps (brace_call b ph n c e).
Proof. unfold brace_call. keeps. Qed.
#[local] Hint Resolve keeps_brace_call : keeps.
Lemma keeps_brace_start b e : keeps (brace_start b e).
Proof. unfold brace_start. keeps. Qed.
#[local] Hint Resolve keeps_brace_start : keeps.
Lemma keeps_brace_step r b e : keeps (brace_step r b e).
Proof. unfold brace_step. keeps. Qed.
#[local] Hint Resolve keeps_brace_step : keeps.

(** Builtins. *)

Lemma keeps_sh_port_getcwd : keeps sh_port_getcwd.
Proof. unfold sh_port_getcwd. keeps. Qed.
#[local] Hint Resolve keeps_sh_port_getcwd : keeps.
Lemma keeps_sh_port_chdir p : keeps (sh_port_chdir p).
Proof. unfold sh_port_chdir. keeps. Qed.
#[local] Hint Resolve keeps_sh_port_chdir : keeps.
Lemma keeps_sh_port_run_external l : keeps (sh_port_run_external l).
Proof. unfold sh_port_run_external. keeps. Qed.
#[local] Hint Resolve keeps_sh_port_run_external : keeps.
Lemma keeps_sh_port_tmpfile : keeps sh_port_tmpfile.
Proof. unfold sh_port_tmpfile. keeps. Qed.
#[local] Hint Resolve keeps_sh_port_tmpfile : keeps.
Lemma keeps_remove_file p : keeps (remove_file p).
Proof. unfold remove_file. keeps. Qed.
#[local] Hint Resolve keeps_remove_file : keeps.
Lemma keeps_builtin_test l b : keeps (builtin_test l b).
Proof. unfold builtin_test. keeps. Qed.
#[local] Hint Resolve keeps_builtin_test : keeps.
Lemma keeps_builtin_echo l : keeps (builtin_echo l).
Proof. unfold builtin_echo. keeps. Qed.
#[local] Hint Resolve keeps_builtin_echo : keeps.
Lemma keeps_read_line n f b : keeps (read_line n f b).
Proof. revert b. induction n; intros b; cbn [read_line]; keeps. Qed.
#[local] Hint Resolve keeps_read_line : keeps.
Lemma keeps_assign_fields ns fs : keeps (assign_fields ns fs).
Proof. revert fs. induction ns; intros fs; cbn [assign_fields]; keeps. Qed.
#[local] Hint Resolve keeps_assign_fields : keeps.
Lemma keeps_builtin_read n l : keeps (builtin_read n l).
Proof. unfold builtin_read. keeps. Qed.
#[local] Hint Resolve keeps_builtin_read : keeps.
Lemma keeps_status_arg l : keeps (status_arg l).
Proof. unfold status_arg. keeps. Qed.
#[local] Hint Resolve keeps_status_arg : keeps.
Lemma keeps_builtin_exit l : keeps (builtin_exit l).
Proof. unfold builtin_exit. keeps. Qed.
#[local] Hint Resolve keeps_builtin_exit : keeps.
Lemma keeps_builtin_return l : keeps (builtin_return l).
Proof. unfold builtin_return. keeps. Qed.
#[local] Hint Resolve keeps_builtin_return : keeps.
Lemma keeps_builtin_export l rc : keeps (builtin_export l rc).
Proof. revert rc. induction l; intros rc; cbn [builtin_export]; keeps. Qed.
#[local] Hint Resolve keeps_builtin_export : keeps.
Lemma keeps_local_args l ok : keeps (local_args l ok).
Proof. revert ok. induction l; intros ok; cbn [local_args]; keeps. Qed.
#[local] Hint Resolve keeps_local_args : keeps.
Lemma keeps_builtin_local l : keeps (builtin_local l).
Proof. unfold builtin_local. keeps. Qed.
#[local] Hint Resolve keeps_builtin_local : keeps.
Lemma keeps_leave b i n : keeps (leave b i n).
Proof. unfold leave. keeps. Qed.
#[local] Hint Resolve keeps_leave : keeps.
Lemma keeps_builtin_break c b l : keeps (builtin_break c b l).
Proof. unfold builtin_break. keeps. Qed.
#[local] Hint Resolve keeps_builtin_break : keeps.
Lemma keeps_set_flags on l : keeps (set_flags on l).
Proof. induction l; cbn [set_flags]; keeps. Qed.
#[local] Hint Resolve keeps_set_flags : keeps.
Lemma keeps_set_option on n : keeps (set_option on n).
Proof. unfold set_option. keeps. Qed.
#[local] Hint Resolve keeps_set_option : keeps.
Lemma keeps_set_options l : keeps (set_options l).
Proof.
  induction l as [l IH] using (well_founded_induction (well_founded_ltof _ length)). unfold ltof in IH.
  destruct l as [|a l]; cbn [set_options]; keeps; apply IH; simpl; lia.
Qed.
#[local] Hint Resolve keeps_set_options : keeps.
Lemma keeps_builtin_set l : keeps (builtin_set l).
Proof. unfold builtin_set. keeps. Qed.
#[local] Hint Resolve keeps_builtin_set : keeps.
Lemma keeps_builtin_shift l : keeps (builtin_shift l).
Proof. unfold builtin_shift. keeps. Qed.
#[local] Hint Resolve keeps_builtin_shift : keeps.
Lemma keeps_unset_names fs vs l : keeps (unset_names fs vs l).
Proof. induction l; cbn [unset_names]; keeps. Qed.
#[local] Hint Resolve keeps_unset_names : keeps.
Lemma keeps_builtin_unset l : keeps (builtin_unset l).
Proof. unfold builtin_unset. keeps. Qed.
#[local] Hint Resolve keeps_builtin_unset : keeps.
Lemma keeps_cd_target l : keeps (cd_target l).
Proof. unfold cd_target. keeps. Qed.
#[local] Hint Resolve keeps_cd_target : keeps.
Lemma keeps_builtin_cd l : keeps (builtin_cd l).
Proof. unfold builtin_cd. keeps. Qed.
#[local] Hint Resolve keeps_builtin_cd : keeps.
Lemma keeps_builtin_pwd l : keeps (builtin_pwd l).
Proof. unfold builtin_pwd. keeps. Qed.
#[local] Hint Resolve keeps_builtin_pwd : keeps.
Lemma keeps_sh_run_builtin n l : keeps (sh_run_builtin n l).
Proof. unfold sh_run_builtin. keeps. Qed.
#[local] Hint Resolve keeps_sh_run_builtin : keeps.

(** * Undoing *)

Definition undo_io (o : option sh_redir_saved) (v : view) : view :=
  match o with
  | None => v
  | Some x =>
      let '(f0, f1, f2) := orig x in
      let '(t0, t1, t2) := touched x in
      View (if t0 : bool then f0 else v_in v) (if t1 : bool then f1 else v_out v) (if t2 : bool then f2 else v_err v)
        (v_loops v) (v_calls v) (v_scopes v)
  end.
Definition undo_redirections (o : option Redirections) (v : view) : view := undo_io (o ≫= io) v.

(** What the destructor of a frame does to the view. *)
Definition undo (f : Frame) (v : view) : view :=
  match f with
  | ExecNode_Redirected _ _ r => undo_redirections (Some r) v
  | ExecNode_Body _ _ r => undo_redirections r v
  | ExecWhile _ _ _ (While_Condition | While_Body) | ExecFor _ _ _ _ _ _ For_Body =>
      View (v_in v) (v_out v) (v_err v) (v_loops v - 1) (v_calls v) (v_scopes v)
  | ExecPipe_ _ _ (Some p) => undo_io (stageIo p) v
  | ExecSimple_ _ _ c => undo_redirections (redirections c) v
  | CallFunction_Entered _ _ => View (v_in v) (v_out v) (v_err v) (v_loops v) (pred (v_calls v)) (pred (v_scopes v))
  | CommandSubst_Started _ o _ => undo_io o v
  | _ => v
  end.
Definition unwound (fs : list Frame) (v : view) : view := foldl (λ v f, undo f v) v fs.

(** The effect of an operation on the view. *)
Definition acts {A} (m : M shell A) (g : view → view) : Prop := ∀ s a s', m s = Done (a, s') → view_of s' = g (view_of s).

Lemma acts_then {A B} (m : M shell A) (k : A → M shell B) g : acts m g → (∀ a, keeps (k a)) → acts (m ≫= k) g.
Proof. intros Hm Hk s b s'' (a & s' & E & E')%bind_done. rewrite (Hk _ _ _ _ E'). by eapply Hm. Qed.
Lemma acts_after {A B} (m : M shell A) (k : A → M shell B) g : keeps m → (∀ a, acts (k a) g) → acts (m ≫= k) g.
Proof. intros Hm Hk s b s'' (a & s' & E & E')%bind_done. rewrite (Hk _ _ _ _ E'). by rewrite (Hm _ _ _ E). Qed.
Lemma acts_bind {A B} (m : M shell A) (k : A → M shell B) g h : acts m g → (∀ a, acts (k a) h) → acts (m ≫= k) (h ∘ g).
Proof. intros Hm Hk s b s'' (a & s' & E & E')%bind_done. rewrite (Hk _ _ _ _ E'). unfold compose. by rewrite (Hm _ _ _ E). Qed.
Lemma acts_keeps {A} (m : M shell A) g : keeps m → (∀ v, g v = v) → acts m g.
Proof. intros Hm Hg s a s' E. rewrite Hg. by eapply Hm. Qed.

Lemma restore_acts x : acts (sh_redir_restore x) (undo_io (Some x)).
Proof.
  unfold sh_redir_restore, undo_io. destruct x as [[[f0 f1] f2] [[t0 t1] t2] l]. simpl.
  intros s [] s'. destruct t0, t1, t2; intros E;
    repeat (apply bind_done in E as ([] & ? & [= <-] & E));
    match type of E with ?m ?s1 = _ => assert (keeps m) as Hm by keeps; by rewrite (Hm _ _ _ E) end.
Qed.

Lemma restore_io_acts r : acts (restore_io r) (undo_redirections (Some r)).
Proof.
  unfold restore_io, undo_redirections. apply acts_then; [|keeps].
  simpl. destruct (io r); [apply restore_acts|by apply acts_keeps; [keeps|]].
Qed.
Lemma restore_io_none r s r' s' : restore_io r s = Done (r', s') → io r' = None.
Proof. unfold restore_io. by intros ([] & s1 & _ & [= <- <-])%bind_done. Qed.
Lemma restore_optional_acts r : acts (restore_optional r) (undo_redirections r).
Proof. destruct r as [r|]; cbn [restore_optional]; [apply acts_then; [apply restore_io_acts|keeps]|by apply acts_keeps; [keeps|]]. Qed.
Lemma restore_optional_none r s r' s' : restore_optional r s = Done (r', s') → (r' ≫= io) = None.
Proof.
  destruct r as [r|]; cbn [restore_optional]; [|by intros [= <- <-]].
  intros (r1 & s1 & E & [= <- <-])%bind_done. simpl. by eapply restore_io_none.
Qed.
Lemma destroy_redirections_acts r : acts (destroy_redirections r) (undo_redirections (Some r)).
Proof. unfold destroy_redirections. apply acts_then; [apply restore_io_acts|keeps]. Qed.
Lemma destroy_optional_acts r : acts (destroy_optional r) (undo_redirections r).
Proof. destruct r as [r|]; cbn [destroy_optional]; [apply destroy_redirections_acts|by apply acts_keeps; [keeps|]]. Qed.

Lemma add_loop_depth_acts d : acts (add_loop_depth d) (λ v, View (v_in v) (v_out v) (v_err v) (v_loops v + d) (v_calls v) (v_scopes v)).
Proof. by intros s [] s' [= <-]. Qed.

Lemma keeps_restore_var sv : keeps (restore_var sv).
Proof. unfold restore_var. keeps. Qed.
Lemma scope_pop_acts : acts sh_scope_pop (λ v, View (v_in v) (v_out v) (v_err v) (v_loops v) (v_calls v) (pred (v_scopes v))).
Proof.
  intros s [] s'. unfold sh_scope_pop. intros (l & s1 & [= <- <-] & E)%bind_done. unfold view_of at 2. simpl.
  destruct (scopes (st s)) as [|sc l] eqn:Es; [injection E as <-; unfold view_of; by rewrite Es|].
  apply bind_done in E as ([] & s2 & [= <-] & E). rewrite (keeps_for_list _ _ keeps_restore_var _ _ _ E). by unfold view_of.
Qed.

Lemma keeps_restore_snapshot x : keeps (restore_snapshot x).
Proof. unfold restore_snapshot, put_flow. keeps. Qed.
Lemma keeps_restore_bindings c : keeps (restore_bindings c).
Proof. unfold restore_bindings, restore_binding. keeps. Qed.
Lemma keeps_restore_positional o : keeps (restore_positional o).
Proof. unfold restore_positional. keeps. Qed.
#[local] Hint Resolve keeps_restore_var keeps_restore_snapshot keeps_restore_bindings keeps_restore_positional : keeps.

Lemma function_leave_acts old previous :
  acts (function_leave old previous) (λ v, View (v_in v) (v_out v) (v_err v) (v_loops v) (pred (v_calls v)) (pred (v_scopes v))).
Proof.
  intros s [] s'. unfold function_leave. intros ([] & s1 & E1 & E)%bind_done. apply bind_done in E as ([] & s2 & [= <-] & E).
  apply bind_done in E as ([] & s3 & E3 & [= <-]). apply keeps_set_flow in E1. apply scope_pop_acts in E3. revert E1 E3. unfold view_of. simpl. congruence.
Qed.

Lemma destroy_acts f : acts (destroy f) (undo f).
Proof.
  destruct f; cbn [destroy undo]; try (apply acts_keeps; [keeps|done]).
  - apply destroy_redirections_acts.
  - apply destroy_optional_acts.
  - destruct ph; first [by apply acts_keeps; [keeps|]|apply add_loop_depth_acts].
  - destruct ph; first [by apply acts_keeps; [keeps|]|apply add_loop_depth_acts].
  - destruct p as [p|]; [|by apply acts_keeps; [keeps|]]. apply acts_then; [|keeps].
    change (undo _) with (undo_io (stageIo p)). destruct (stageIo p); [apply restore_acts|by apply acts_keeps; [keeps|]].
  - intros s [] s' (c' & s1 & E1 & E)%bind_done. apply destroy_optional_acts in E. rewrite (keeps_restore_bindings _ _ _ _ E1) in E.
    rewrite E. revert E1. unfold restore_bindings. by intros ([] & s2 & _ & [= <- _])%bind_done.
  - apply function_leave_acts.
  - apply acts_then; [|keeps]. match goal with |- acts (match ?o with _ => _ end) _ => destruct o end; [apply restore_acts|by apply acts_keeps; [keeps|]].
Qed.

(** * Redirections can be undone *)

(** The view with the streams of before. *)
Definition full (x : sh_redir_saved) (v : view) : view :=
  let '(f0, f1, f2) := orig x in View f0 f1 f2 (v_loops v) (v_calls v) (v_scopes v).
(** What was not assigned is as it was. *)
Definition consistent (x : sh_redir_saved) (v : view) : Prop := undo_io (Some x) v = full x v.

Lemma redirect_consistent d f x s x' s' : consistent x (view_of s) → redirect d f x s = Done (x', s') →
  orig x' = orig x ∧ consistent x' (view_of s') ∧ full x' (view_of s') = full x (view_of s).
Proof.
  intros Hx. unfold redirect. intros ([] & s1 & [= <-] & [= <- <-])%bind_done. split; [done|].
  unfold consistent, undo_io, full, assign_slot, touch in *. destruct x as [[[f0 f1] f2] [[t0 t1] t2] l]. simpl in *.
  injection Hx as E0 E1 E2.
  repeat case_decide; subst; cbn in *; rewrite ?orb_true_r, ?orb_false_r; (split; [|done]); rewrite ?E0, ?E1, ?E2;
    by destruct t0, t1, t2.
Qed.

Lemma keeps_open_target it t : keeps (open_target it t).
Proof. unfold open_target. keeps. Qed.
#[local] Hint Resolve keeps_open_target : keeps.

Lemma apply_items_consistent l x s ok x' s' : consistent x (view_of s) → apply_items l x s = Done ((ok, x'), s') →
  consistent x' (view_of s') ∧ full x' (view_of s') = full x (view_of s).
Proof.
  revert x s. induction l as [|it l IH]; intros x s Hx; cbn [apply_items]; [by intros [= <- <- <-]|].
  intros (slot & s1 & [= <- <-] & E)%bind_done. destruct (sh_stream_slot _ _); [|by injection E as <- <- <-].
  destruct (match rt_op it with SH_RD_DUP => true | _ => false end).
  - apply bind_done in E as (src & s1 & [= <- <-] & E). destruct (sh_stream_slot _ _); [|by injection E as <- <- <-].
    apply bind_done in E as (y & s1 & E1 & E). destruct (redirect_consistent _ _ _ _ _ _ Hx E1) as (_ & Hy & <-). by apply IH.
  - apply bind_done in E as (w & s1 & [= <- <-] & E). apply bind_done in E as (r & s1 & E1 & E).
    apply keeps_open_target in E1. rewrite <-E1 in Hx. destruct r as [g|e].
    + apply bind_done in E as (y & s2 & E2 & E). rewrite <-E1.
      edestruct (redirect_consistent _ _ (RedirSaved (orig x) (touched x) _) _ _ _ Hx E2) as (_ & Hy & Ey).
      destruct (IH _ _ Hy E) as [? ->]. done.
    + apply bind_done in E as ([] & s2 & E2%keeps_complain & [= <- <- <-]). by rewrite E2, <-E1.
Qed.

Lemma apply_undo l s o s' : sh_redir_apply l s = Done (o, s') → undo_io o (view_of s') = view_of s.
Proof.
  unfold sh_redir_apply. intros (s0 & s1 & [= <- <-] & E)%bind_done. apply bind_done in E as ([ok x] & s1 & E1 & E).
  apply apply_items_consistent in E1 as [Hx Hf]; [|done].
  assert (undo_io (Some x) (view_of s1) = view_of s) as Hs by (rewrite Hx, Hf; done).
  destruct ok; [by injection E as <- <-|]. apply bind_done in E as ([] & s2 & E2 & [= <- <-]). simpl.
  by rewrite (restore_acts _ _ _ _ E2).
Qed.

(** * Steps can be undone *)

(** Before its redirections, a simple command has none. *)
Definition frame_ok (f : Frame) : Prop :=
  match f with
  | ExecSimple_ _ _ c => match phase c with PureRedirected | Simple_Redirected | Ran => True | _ => redirections c = None end
  | _ => True
  end.
Definition target (f : Frame) : option Redirections :=
  match f with ExecNode_Redirected _ _ r => Some r | ExecSimple_ _ _ c => redirections c | _ => None end.
(** Redirections are not active while they are being collected. *)
Definition pair_ok (f g : Frame) : Prop :=
  match f with
  | ApplyRedirects _ _ _ _ => frame_ok g ∧ (target g ≫= io) = None
  | _ => True
  end.
Definition fresh (f : Frame) : Prop := frame_ok f ∧ ∀ v, undo f v = v.

(** The step undoes to [v]. *)
Definition leads (v : view) (o : Step) (v' : view) : Prop :=
  match o with
  | Call self callee => undo self v' = v ∧ frame_ok self ∧ fresh callee ∧ pair_ok callee self ∧ ∀ g, pair_ok self g
  | Return self _ => undo self v' = v
  | Unfinished => True
  end.
Definition step_undoes (g : view → view) (m : M shell Step) : Prop :=
  ∀ s o s', m s = Done (o, s') → leads (g (view_of s)) o (view_of s').

Lemma undoes_bind {A} g (m : M shell A) k : keeps m → (∀ a, step_undoes g (k a)) → step_undoes g (m ≫= k).
Proof. intros Hm Hk s o s'' (a & s' & E & E')%bind_done. rewrite <-(Hm _ _ _ E). by eapply Hk. Qed.
Lemma undoes_acts {A} g h (m : M shell A) k : acts m h → (∀ a, step_undoes (λ v, g v) (k a)) → step_undoes (g ∘ h) (m ≫= k).
Proof. intros Hm Hk s o s'' (a & s' & E & E')%bind_done. unfold compose. rewrite <-(Hm _ _ _ E). by eapply Hk. Qed.
Lemma undoes_undef g : step_undoes g undef.
Proof. done. Qed.
Lemma undoes_unfinished g : step_undoes g (mret Unfinished).
Proof. by intros s o s' [= <- <-]. Qed.
Lemma undoes_finished g self n : (∀ v, undo self v = g v) → step_undoes g (finished self n).
Proof. intros Hg s o s' [= <- <-]. apply Hg. Qed.
Lemma undoes_return g self r : (∀ v, undo self v = g v) → step_undoes g (mret (Return self r)).
Proof. intros Hg s o s' [= <- <-]. apply Hg. Qed.
Lemma undoes_call g self callee :
  (∀ v, undo self v = g v) → frame_ok self → fresh callee → pair_ok callee self → (∀ g, pair_ok self g) →
  step_undoes g (call self callee).
Proof. intros Hg Hs Hc Hp Hn s o s' [= <- <-]. split; [apply Hg|done]. Qed.

Ltac undoes_step :=
  lazymatch goal with
  | |- step_undoes _ (_ ≫= _) => apply undoes_bind; [keeps|intros ?]
  | |- step_undoes _ undef => apply undoes_undef
  | |- step_undoes _ (mret Unfinished) => apply undoes_unfinished
  | |- step_undoes _ (finished _ _) => apply undoes_finished; intros ?; try reflexivity
  | |- step_undoes _ (mret (Return _ _)) => apply undoes_return; intros ?; try reflexivity
  | |- step_undoes _ (call _ _) => apply undoes_call; [intros ?; try reflexivity|try done..]
  | |- step_undoes _ (match ?x with _ => _ end) => destruct x
  end.
Ltac undoes := repeat undoes_step.

(** * The steps of the frames *)

Lemma keeps_put_flow f : keeps (put_flow f).
Proof. unfold put_flow. keeps. Qed.
Lemma keeps_loop_control : keeps loop_control.
Proof. unfold loop_control, put_flow. keeps. Qed.
Lemma keeps_leaving : keeps leaving.
Proof. unfold leaving. keeps. Qed.
Lemma keeps_stopping : keeps stopping.
Proof. unfold stopping. keeps. Qed.
#[local] Hint Resolve keeps_put_flow keeps_loop_control keeps_leaving keeps_stopping : keeps.

Lemma program_finish_undoes m sw n : step_undoes id (program_finish m sw n).
Proof. unfold program_finish. undoes. Qed.
Lemma program_start_undoes src m p : step_undoes id (program_start src m p).
Proof. unfold program_start, syntax_error. undoes; apply program_finish_undoes. Qed.
Lemma program_end_undoes r m a sw : step_undoes id (program_end r m a sw).
Proof. unfold program_end. undoes; apply program_finish_undoes. Qed.

Lemma node_finish_undoes n e r v : step_undoes (undo_redirections r) (node_finish n e r v).
Proof. unfold node_finish. undoes. Qed.
Lemma node_body_undoes n e r : step_undoes (undo_redirections r) (node_body n e r).
Proof. unfold node_body. undoes. apply node_finish_undoes. Qed.
Lemma node_start_undoes n e : step_undoes id (node_start n e).
Proof. unfold node_start. undoes. apply node_body_undoes. Qed.
Lemma node_redirected_undoes r n e rd : step_undoes (undo_redirections (Some rd)) (node_redirected r n e rd).
Proof. unfold node_redirected. undoes. apply node_body_undoes. Qed.
Lemma node_end_undoes r n e rd : step_undoes (undo_redirections rd) (node_end r n e rd).
Proof.
  intros s o s'. unfold node_end. intros (rd' & s1 & E1 & E)%bind_done. rewrite <-(restore_optional_acts _ _ _ _ E1).
  apply node_finish_undoes in E. unfold undo_redirections in E at 1. by rewrite (restore_optional_none _ _ _ _ E1) in E.
Qed.

Lemma list_step_undoes r n e i v b : step_undoes id (list_step r n e i v b).
Proof. unfold list_step, list_next. undoes. Qed.
Lemma andor_step_undoes r n e ph : step_undoes id (andor_step r n e ph).
Proof. unfold andor_step. undoes. Qed.
Lemma if_step_undoes r n e i ph : step_undoes id (if_step r n e i ph).
Proof. unfold if_step, if_next. undoes. Qed.
Lemma case_step_undoes r n e t i j ph : step_undoes id (case_step r n e t i j ph).
Proof. unfold case_step, case_next. undoes. Qed.
Lemma group_start_undoes n e : step_undoes id (group_start n e).
Proof. unfold group_start, take_snapshot. undoes. Qed.

Definition in_loop (v : view) : view := View (v_in v) (v_out v) (v_err v) (v_loops v - 1) (v_calls v) (v_scopes v).

Lemma undoes_enter_loop (k : unit → M shell Step) : (∀ x, step_undoes in_loop (k x)) → step_undoes id (x ← add_loop_depth 1; k x).
Proof.
  intros Hk s o s' (x & s1 & E1 & E)%bind_done. apply Hk in E. rewrite (add_loop_depth_acts _ _ _ _ E1) in E.
  unfold in_loop in E. simpl in E. replace (loop_depth (st s) + 1 - 1) with (loop_depth (st s)) in E by lia. exact E.
Qed.

Lemma while_step_undoes r n e v ph : step_undoes (undo (ExecWhile n e v ph)) (while_step r n e v ph).
Proof.
  unfold while_step, while_test. apply undoes_bind; [keeps|intros c]. destruct (cell_of c); try apply undoes_undef. destruct ph.
  - apply undoes_enter_loop. intros _. undoes.
  - undoes.
  - undoes.
Qed.

Lemma for_step_undoes r n e l w i v ph : step_undoes (undo (ExecFor n e l w i v ph)) (for_step r n e l w i v ph).
Proof.
  unfold for_step, for_next. apply undoes_bind; [keeps|intros c]. destruct (cell_of c); try apply undoes_undef. cbv zeta. destruct ph.
  - destruct for_implicit; [apply undoes_bind; [keeps|intros ps]|case_match; [undoes|]]; apply undoes_enter_loop; intros _; undoes.
  - case_match; [undoes|]. apply undoes_enter_loop. intros _. undoes.
  - undoes.
Qed.

Lemma start_stage_undoes n e l p : stageIo p = None → step_undoes id (start_stage n e l p).
Proof.
  intros Hp. unfold start_stage. case_match; [|undoes; unfold undo; by rewrite Hp].
  intros s o s' (saved & s1 & E1%apply_undo & E)%bind_done. unfold id. rewrite <-E1. destruct saved as [saved|].
  - revert E. apply (undoes_bind (undo_io (Some saved))); [keeps|intros f]. undoes.
  - revert E. apply (undoes_finished (undo_io None)). intros v. unfold undo. by rewrite Hp.
Qed.
Lemma pipe_step_undoes r n e p : step_undoes (undo (ExecPipe_ n e p)) (pipe_step r n e p).
Proof.
  unfold pipe_step. apply undoes_bind; [keeps|intros c]. destruct (cell_of c); try apply undoes_undef. destruct p as [p|].
  - apply undoes_bind; [keeps|intros _]. intros s o s' ([] & s1 & E1 & E)%bind_done. apply start_stage_undoes in E; [|done].
    assert (view_of s1 = undo_io (stageIo p) (view_of s)) as E2.
    { destruct (stageIo p); [by apply (restore_acts _ _ _ _ E1)|by injection E1 as <-]. }
    unfold id in E. by rewrite E2 in E.
  - case_match; [undoes; by apply start_stage_undoes|]. case_match; [undoes|]. undoes. by apply start_stage_undoes.
Qed.

(** ** Simple commands *)

Lemma none_undoes c (m : M shell Step) : redirections c = None → step_undoes id m → step_undoes (undo_redirections (redirections c)) m.
Proof. by intros ->. Qed.
Lemma simple_finish_undoes n e c v : step_undoes (undo_redirections (redirections c)) (simple_finish n e c v).
Proof.
  intros s o s'. unfold simple_finish, restore_bindings. intros (rd & s1 & E1 & E)%bind_done. rewrite <-(restore_optional_acts _ _ _ _ E1).
  apply bind_done in E as (c' & s2 & ([] & s3 & E2 & [= <- <-])%bind_done & [= <- <-]).
  match type of E2 with ?m _ = _ => assert (keeps m) as Hm by (unfold restore_binding; keeps) end. rewrite <-(Hm _ _ _ E2).
  simpl. unfold undo_redirections. by rewrite (restore_optional_none _ _ _ _ E1).
Qed.
Lemma simple_redirect_undoes n e c ph :
  redirections c = None → ph = PureRedirected ∨ ph = Simple_Redirected → step_undoes id (simple_redirect n e c ph).
Proof. intros Hc [-> | ->]; unfold simple_redirect, simple_call; undoes. Qed.
Lemma simple_run_undoes n e c : step_undoes (undo_redirections (redirections c)) (simple_run fuel n e c).
Proof.
  change (redirections c) with (redirections (c <| phase := Ran |>)). unfold simple_run, simple_call. cbv zeta.
  assert (phase (c <| phase := Ran |>) = Ran) as Hp by done. revert Hp. generalize (c <| phase := Ran |>). intros c' Hp.
  undoes; try (simpl; by rewrite Hp); apply simple_finish_undoes.
Qed.

Lemma keeps_apply_assignment raw v : keeps (apply_assignment raw v).
Proof. unfold apply_assignment. keeps. Qed.
Lemma keeps_substituted_status : keeps substituted_status.
Proof. apply keeps_getst. Qed.
#[local] Hint Resolve keeps_apply_assignment keeps_substituted_status : keeps.

Lemma pure_assign_undoes n e c l b :
  redirections c = None → phase c = PureAssign → step_undoes id (pure_assign n e c l b).
Proof.
  intros Hc Hp. unfold pure_assign, expand_assignment, simple_call. undoes; try (simpl; by rewrite ?Hp, ?Hc).
  apply simple_redirect_undoes; auto.
Qed.
Lemma empty_assign_undoes n e c l : redirections c = None → phase c = EmptyAssign → step_undoes id (empty_assign n e c l).
Proof. intros Hc Hp. unfold empty_assign, expand_assignment, simple_call. undoes; simpl; by rewrite ?Hp, ?Hc. Qed.
Lemma prefix_assign_undoes n e c l b :
  redirections c = None → phase c = PrefixAssign → step_undoes id (prefix_assign fuel n e c l b).
Proof.
  intros Hc Hp. unfold prefix_assign, expand_assignment, simple_call. cbv zeta. undoes; try (simpl; by rewrite ?Hp, ?Hc).
  - apply simple_redirect_undoes; auto.
  - assert (step_undoes (undo_redirections (redirections c)) (simple_run fuel n e c)) as Hr by apply simple_run_undoes. by rewrite Hc in Hr.
Qed.
Lemma words_done_undoes n e c l b : redirections c = None → step_undoes id (words_done fuel n e c l b).
Proof.
  intros Hc. unfold words_done. cbv zeta. undoes; [by simpl; rewrite Hc|by apply empty_assign_undoes|by apply prefix_assign_undoes].
Qed.
Lemma simple_step_undoes r n e c : frame_ok (ExecSimple_ n e c) → step_undoes (undo_redirections (redirections c)) (simple_step fuel r n e c).
Proof.
  intros Hok. unfold simple_step. apply undoes_bind; [keeps|intros x]. destruct (cell_of x); try apply undoes_undef.
  cbv zeta. unfold simple_call. simpl in Hok. destruct (phase c) eqn:Ep; cbn [andb].
  1, 2, 4, 5, 6: apply none_undoes; [done|].
  - undoes; try done; [by apply pure_assign_undoes|by simpl; rewrite Hok].
  - undoes. by apply pure_assign_undoes.
  - undoes; try (simpl; by rewrite ?Ep, ?Hok). by apply words_done_undoes.
  - undoes. by apply empty_assign_undoes.
  - undoes. by apply prefix_assign_undoes.
  - case_decide; [|undoes]. intros s o s' (rd & s1 & E1 & E)%bind_done. rewrite <-(restore_optional_acts _ _ _ _ E1).
    revert E. apply (undoes_bind id); [keeps|intros v]. apply undoes_finished. intros v'. simpl.
    unfold undo_redirections. by rewrite (restore_optional_none _ _ _ _ E1).
  - undoes; [apply simple_run_undoes|apply simple_finish_undoes].
  - undoes. apply simple_finish_undoes.
Qed.

(** ** Functions, command substitution, expansion *)

Lemma function_enter_undoes name body args e : step_undoes id (function_enter name body args e).
Proof.
  unfold function_enter. intros s o s' (d & s1 & [= <- <-] & E)%bind_done. revert E. case_match.
  { match goal with |- ?m s = _ → _ => assert (step_undoes id m) as Hm by undoes end. apply Hm. }
  intros (old & s1 & [= <- <-] & E)%bind_done. apply bind_done in E as ([] & s1 & E1%keeps_sh_set_positional & E).
  apply bind_done in E as ([] & s2 & [= <-] & E). apply bind_done in E as ([] & s3 & [= <-] & E).
  apply bind_done in E as (f & s3 & [= <- <-] & E). apply bind_done in E as ([] & s4 & E & [= <- <-]).
  apply keeps_put_flow in E. split; [|done]. unfold undo, id. rewrite E. revert E1. unfold view_of. simpl. congruence.
Qed.
Lemma function_end_undoes old b : step_undoes (undo (CallFunction_Entered old b)) (function_end (CallFunction_Entered old b)).
Proof. unfold function_end. undoes. Qed.

Lemma subst_finish_undoes saved t : step_undoes id (subst_finish (CommandSubst_Started [] None saved) saved t).
Proof. unfold subst_finish. undoes. Qed.
Lemma subst_start_undoes command : step_undoes id (subst_start command).
Proof.
  unfold subst_start. do 2 (apply undoes_bind; [keeps|intros ?]). intros s o s' (x & s1 & E1%apply_undo & E)%bind_done. unfold id. rewrite <-E1. destruct x as [x|].
  - revert E. apply (undoes_call (undo_io (Some x))); done.
  - revert E. apply subst_finish_undoes.
Qed.
Lemma keeps_read_all t f b : keeps (read_all t f b).
Proof. revert b. induction t; intros; cbn [read_all]; keeps. Qed.
#[local] Hint Resolve keeps_read_all : keeps.
Lemma subst_end_undoes temp x saved : step_undoes (undo_io x) (subst_end fuel temp x saved).
Proof.
  unfold subst_end. intros s o s' ([] & s1 & E1 & E)%bind_done.
  assert (view_of s1 = undo_io x (view_of s)) as <- by (destruct x; [by apply (restore_acts _ _ _ _ E1)|by injection E1 as <-]).
  revert E. generalize s1. intros s2 E2. revert s2 o s' E2. change (step_undoes id (
    f ← platform (fopen temp Read);
    output ← (match f with
      | inl f => t ← read_all fuel f []; platform (λ w, (tt, fclose f w));; mret t
      | inr _ => mret (Some [])
      end);
    remove_file temp;;
    match output with
    | Some t => subst_finish (CommandSubst_Started [] None saved) saved t
    | None => mret Unfinished
    end)). undoes. apply subst_finish_undoes.
Qed.
End operations.

#[export] Hint Resolve keeps_getst keeps_get_flow keeps_set_flow keeps_platform keeps_print keeps_complain keeps_cell_at
  keeps_sh_set_positional keeps_sh_port_tmpfile keeps_remove_file keeps_expand_step keeps_brace_step : keeps.
