(* ===== verification/ShellMachine.v ===== *)
(** The machine of the shell as a whole: every step, of every frame, can be undone by the
    destructors of the frames on the stack; so a run that ends leaves the streams, the loop
    depth, the call depth and the scopes as they were. *)

From S2P Require Import Prelude Text ShellGlob Arith ShellLex ShellParse ShellState ShellFrames ShellExpand ShellBuiltins ShellExec ShellDemo ShellCleanup.

Section machine.
Context `{Platform} `{Long}.
Variable fuel : nat.

(** * What the scans of a word call *)

Definition yields {S A} (Q : A → Prop) (m : M S A) : Prop := ∀ s a s', m s = Done (a, s') → Q a.
Lemma yields_ret {S A} (Q : A → Prop) (a : A) : Q a → yields Q (mret a : M S A).
Proof. by intros HQ s b s' [= <- _]. Qed.
Lemma yields_bind {S A B} (R : A → Prop) (Q : B → Prop) (m : M S A) k :
  yields R m → (∀ a, R a → yields Q (k a)) → yields Q (m ≫= k).
Proof. intros Hm Hk s b s' (a & s1 & E1 & E)%bind_done. by eapply Hk; [eapply Hm|]. Qed.
Lemma yields_any {S A B} (Q : B → Prop) (m : M S A) k : (∀ a, yields Q (k a)) → yields Q (m ≫= k).
Proof. intros Hk. by apply (yields_bind (λ _, True)). Qed.

(** Frames that an expansion calls. *)
Definition child (f : Frame) : Prop :=
  match f with CommandSubst _ | Expand_ _ | ExpandBrace_ _ => True | _ => False end.
Definition calls_child {A} (p : option Frame * A) : Prop := match p.1 with Some f => child f | None => True end.

Lemma child_fresh f g : child f → fresh f ∧ pair_ok f g.
Proof. by destruct f. Qed.

Lemma dollar_calls sp q e : yields calls_child (dollar sp q e).
Proof.
  unfold dollar. repeat (first [apply yields_any; intros ?|apply yields_ret; exact I|case_match]).
Qed.
Lemma scanWord_calls n e : yields calls_child (scanWord n e).
Proof.
  revert e. induction n as [|n IH]; intros e; cbn [scanWord]; [done|].
  repeat (first [apply IH|apply yields_ret; (exact I || assumption)|case_match; try done
    |eapply yields_bind; [apply dollar_calls|intros [? ?] ?]]).
Qed.
Lemma scanHeredoc_calls n e : yields calls_child (scanHeredoc n e).
Proof.
  revert e. induction n as [|n IH]; intros e; cbn [scanHeredoc]; [done|].
  repeat (first [apply IH|apply yields_ret; (exact I || assumption)|case_match; try done
    |eapply yields_bind; [apply dollar_calls|intros [? ?] ?]]).
Qed.

Definition expands (o : Step) : Prop :=
  match o with
  | Call (Expand_ _) c => child c
  | Return (Expand_ _) _ | Unfinished => True
  | _ => False
  end.
Lemma expand_step_expands r e : yields expands (expand_step fuel r e).
Proof.
  unfold expand_step. apply yields_any. intros [e1|]; [|by apply yields_ret]. apply yields_any. intros e2. cbv zeta.
  eapply (yields_bind calls_child); [destruct (mode e2); auto using scanWord_calls, scanHeredoc_calls|].
  intros [[c|] e3] Hc; [by apply yields_ret|]. apply yields_any. intros res. by apply yields_ret.
Qed.

Definition braces (p : Step * Expand) : Prop :=
  match p.1 with
  | Call (ExpandBrace_ _) (Expand_ _) | Return (ExpandBrace_ _) _ | Unfinished => True
  | _ => False
  end.
Lemma brace_done_braces b e : yields braces (brace_done b e).
Proof. by apply yields_ret. Qed.
Lemma brace_call_braces b ph n c e : yields braces (brace_call b ph n c e).
Proof. by apply yields_ret. Qed.
Lemma brace_start_braces b e : yields braces (brace_start b e).
Proof.
  unfold brace_start. cbv zeta.
  repeat (first [apply brace_done_braces|apply brace_call_braces|apply yields_any; intros ?|case_match]).
Qed.
Lemma brace_step_braces r b e : yields braces (brace_step r b e).
Proof.
  unfold brace_step. cbv zeta.
  repeat (first [apply brace_done_braces|apply brace_start_braces|apply yields_any; intros ?|case_match]).
Qed.

Lemma expand_step_undoes r e : step_undoes id (expand_step fuel r e).
Proof.
  intros s o s' E. apply expand_step_expands in E as Ho. apply keeps_expand_step in E. unfold leads, id. rewrite <-E.
  destruct o as [self c|self r'|]; [|by destruct self|done]. destruct self; try done. split_and!; try done; by apply child_fresh.
Qed.

(** * Redirections *)

Lemma keeps_writeHeredoc body t : keeps (writeHeredoc body t).
Proof. unfold writeHeredoc. keeps. Qed.
Lemma writeHeredoc_io body t s it t' s' : writeHeredoc body t s = Done ((it, t'), s') → io t' = io t.
Proof.
  unfold writeHeredoc. intros (p & s1 & _ & E)%bind_done. apply bind_done in E as (f & s2 & _ & E).
  by apply bind_done in E as ([] & s3 & _ & [= <- <- <-]).
Qed.

(** A step of [ApplyRedirects]: the redirections are not active before, and those of
    after are the ones it made. *)
Definition redirected (v : view) (o : Step) (t : Redirections) (v' : view) : Prop :=
  match o with
  | Call (ApplyRedirects _ _ _ _) (Expand_ _) => io t = None ∧ v' = v
  | Return (ApplyRedirects _ _ _ _) _ => undo_redirections (Some t) v' = v
  | Unfinished => True
  | _ => False
  end.

Lemma redirects_apply_redirected n index items t s o t' s' : io t = None →
  (o ← sh_redir_apply items;
   match o with
   | Some saved => mret (Return (ApplyRedirects n index false items) (status_result 0), Redirs (Some saved) (tempFiles t))
   | None => for_list remove_file (tempFiles t);; mret (Return (ApplyRedirects n index false items) (status_result 1), Redirs (io t) [])
   end) s = Done ((o, t'), s') → redirected (view_of s) o t' (view_of s').
Proof.
  intros Ht (x & s1 & E1%apply_undo & E)%bind_done. rewrite <-E1. destruct x as [x|]; [by injection E as <- <- <-|].
  apply bind_done in E as ([] & s2 & E2 & [= <- <- <-]). simpl. rewrite Ht. unfold undo_redirections. simpl.
  apply (keeps_for_list _ _ keeps_remove_file) in E2. exact E2.
Qed.

Lemma redirects_loop_redirected n l index items t s o t' s' : io t = None →
  redirects_loop n l index items t s = Done ((o, t'), s') → redirected (view_of s) o t' (view_of s').
Proof.
  revert index items t s. induction l as [|x l IH]; intros index items t s Ht; cbn [redirects_loop]; [by apply redirects_apply_redirected|].
  case_match; [|by apply redirects_apply_redirected]. cbv zeta. destruct (kind x).
  all: try (by intros [= <- <- <-]). all: try (by apply IH).
  destruct (heredoc_quoted x); [|by intros [= <- <- <-]].
  intros ([it t1] & s1 & E1 & E)%bind_done. rewrite <-(keeps_writeHeredoc _ _ _ _ _ E1). apply IH in E; [done|].
  by rewrite (writeHeredoc_io _ _ _ _ _ _ E1).
Qed.
Lemma redirects_step_redirected r n index waiting items t s o t' s' : io t = None →
  redirects_step r n index waiting items t s = Done ((o, t'), s') → redirected (view_of s) o t' (view_of s').
Proof.
  intros Ht. unfold redirects_step. intros (c & s1 & E1%keeps_cell_at & E)%bind_done. rewrite <-E1. destruct waiting; [|by eapply redirects_loop_redirected].
  apply bind_done in E as (x & s2 & E2%keeps_deref & E). rewrite <-E2. apply bind_done in E as ([it t1] & s3 & E3 & E).
  assert (view_of s3 = view_of s2 ∧ io t1 = None) as [<- Ht1]; [|by eapply redirects_loop_redirected].
  destruct (kind x); try (by injection E3 as <- <- <-).
  split; [by eapply keeps_writeHeredoc|]. by rewrite (writeHeredoc_io _ _ _ _ _ _ E3).
Qed.

(** * The machine *)

Lemma own_step_undoes r f : frame_ok f → step_undoes (undo f) (own_step fuel r f).
Proof.
  intros Hf. destruct f; cbn [own_step].
  - apply program_start_undoes.
  - apply program_end_undoes.
  - apply node_start_undoes.
  - apply node_redirected_undoes.
  - apply node_end_undoes.
  - apply list_step_undoes.
  - apply andor_step_undoes.
  - apply if_step_undoes.
  - apply while_step_undoes.
  - apply for_step_undoes.
  - apply case_step_undoes.
  - apply group_start_undoes.
  - by apply undoes_finished.
  - apply pipe_step_undoes.
  - by apply undoes_finished.
  - by apply simple_step_undoes.
  - apply function_enter_undoes.
  - apply function_end_undoes.
  - apply undoes_undef.
  - apply subst_start_undoes.
  - apply subst_end_undoes.
  - apply expand_step_undoes.
  - apply undoes_undef.
Qed.

Fixpoint stack_ok (fs : list Frame) : Prop :=
  match fs with
  | [] => True
  | f :: fs => frame_ok f ∧ (match fs with g :: _ => pair_ok f g | [] => True end) ∧ stack_ok fs
  end.

Lemma below_ok f g g' fs : (∀ h, pair_ok g' h) → frame_ok g' → stack_ok (f :: g :: fs) → stack_ok (g' :: fs).
Proof. intros Hp Hf (_ & _ & _ & _ & Hs). split_and!; [done| |done]. by destruct fs. Qed.

(** What a step does to the stack. *)
Definition steps (fs : list Frame) (v : view) (o : Step) (below : list Frame) (v' : view) : Prop :=
  match o with
  | Call self callee => unwound (self :: below) v' = unwound fs v ∧ stack_ok (callee :: self :: below) ∧ fresh callee
  | Return self _ => unwound (self :: below) v' = unwound fs v ∧ stack_ok below
  | Unfinished => True
  end.

Lemma own_step_steps r f fs s o s' : stack_ok (f :: fs) → own_step fuel r f s = Done (o, s') → steps (f :: fs) (view_of s) o fs (view_of s').
Proof.
  intros (Hf & _ & Hs) E. apply own_step_undoes in E; [|done]. destruct o as [self callee|self r'|]; cbn in *.
  - destruct E as (E & Hself & Hc & Hp & Hn). split_and!; try done; [by rewrite E|by destruct Hc|by destruct fs].
  - by rewrite E.
  - done.
Qed.

Lemma brace_step_steps r b e fs s o e' s' : stack_ok (ExpandBrace_ b :: Expand_ e :: fs) →
  brace_step r b e s = Done ((o, e'), s') → steps (ExpandBrace_ b :: Expand_ e :: fs) (view_of s) o (Expand_ e' :: fs) (view_of s').
Proof.
  intros Hs E. apply brace_step_braces in E as Ho. apply keeps_brace_step in E. apply (below_ok _ _ (Expand_ e')) in Hs; [|done..].
  unfold braces in Ho. simpl in Ho. destruct o as [self c|self r'|]; [destruct self, c| destruct self|]; try done; cbn; rewrite E; done.
Qed.

Lemma redirects_step_steps r n index waiting items g fs s o g' s' :
  stack_ok (ApplyRedirects n index waiting items :: g :: fs) →
  with_target g (redirects_step r n index waiting items) s = Done ((o, g'), s') →
  steps (ApplyRedirects n index waiting items :: g :: fs) (view_of s) o (g' :: fs) (view_of s').
Proof.
  intros Hs. assert (pair_ok (ApplyRedirects n index waiting items) g) as [Hg Hio] by apply Hs.
  assert (∀ t t' o s s' (frame : Redirections → Frame), io t = None → (∀ t v, undo (frame t) v = undo_redirections (Some t) v) →
    (∀ t, frame_ok (frame t) ∧ target (frame t) = Some t ∧ ∀ h, pair_ok (frame t) h) → g = frame t →
    redirects_step r n index waiting items t s = Done ((o, t'), s') →
    steps (ApplyRedirects n index waiting items :: g :: fs) (view_of s) o (frame t' :: fs) (view_of s')) as Hstep.
  { intros t t' o1 s1 s2 frame Ht Hu Hok -> E%redirects_step_redirected; [|done].
    destruct (Hok t') as (Hf & Htarget & Hp). apply (below_ok _ _ (frame t')) in Hs; [|done..].
    assert (∀ v, undo (frame t) v = v) as Hid by (intros v; rewrite Hu; unfold undo_redirections; simpl; by rewrite Ht).
    destruct o1 as [self c|self r'|]; [| |done]; (destruct self; try done); cbn [redirected] in E.
    - destruct c; try done. destruct E as [Ht' ->]. cbn. rewrite Hu, Hid. unfold undo_redirections. simpl. rewrite Ht', Htarget. done.
    - cbn. by rewrite Hu, Hid, E. }
  destruct g as [| | |m e t| | | | | | | | | | | |m e c| | | | | | |]; try done; cbn [with_target].
  - intros ([o' t'] & s1 & E & [= <- <- <-])%bind_done. by apply (Hstep t t' o' s s1 (ExecNode_Redirected m e)).
  - intros (t & s0 & E0 & E)%bind_done. apply bind_done in E as ([o' t'] & s1 & E & [= <- <- <-]).
    assert (redirections c = Some t ∧ s0 = s) as [Hc ->].
    { unfold Prelude.deref in E0. destruct (redirections c); [|done]. by injection E0 as -> ->. }
    simpl in Hio. rewrite Hc in Hio.
    apply (Hstep t t' o' s s1 (λ t, ExecSimple_ m e (c <| redirections := Some t |>))); try done.
    + intros t1. split; [|done]. simpl in *. rewrite Hc in Hg. by destruct (phase c).
    + f_equal. destruct c. simpl in *. by subst.
Qed.

Lemma step_steps r f fs s o fs' s' : stack_ok (f :: fs) → step fuel r f fs s = Done ((o, fs'), s') → steps (f :: fs) (view_of s) o fs' (view_of s').
Proof.
  intros Hs. assert (∀ o s', own_step fuel r f s = Done (o, s') → steps (f :: fs) (view_of s) o fs (view_of s')) as Hown.
  { intros o1 s1. by apply own_step_steps. }
  assert ((o1 ← own_step fuel r f; mret (o1, fs)) s = Done ((o, fs'), s') → steps (f :: fs) (view_of s) o fs' (view_of s')) as Hown'.
  { intros (o1 & s1 & E & [= <- <- <-])%bind_done. by apply Hown. }
  unfold step. destruct f; try apply Hown'; (destruct fs as [|g fs]; [apply Hown'|]).
  - intros ([o1 g'] & s1 & E & [= <- <- <-])%bind_done. by eapply redirects_step_steps.
  - intros ([o1 g'] & s1 & E & [= <- <- <-])%bind_done. destruct g; try done. revert E. cbn [with_expansion].
    intros ([o2 e'] & s2 & E & [= <- <- <-])%bind_done. by eapply brace_step_steps.
Qed.

Lemma unwind_acts fs : acts (for_list destroy fs) (unwound fs).
Proof.
  induction fs as [|f fs IH]; [by intros s [] s' [= <-]|]. intros s [] s' ([] & s1 & E1%destroy_acts & E%IH)%bind_done.
  by rewrite E, E1.
Qed.

Lemma run_unwinds n fs r s v s' : stack_ok fs → run fuel n fs r s = Done (Some v, s') → view_of s' = unwound fs (view_of s).
Proof.
  revert fs r s. induction n as [|n IH]; intros [|f fs] r s Hs; cbn [run]; try (by intros [= <- <-]).
  intros ([o fs'] & s1 & E1 & E)%bind_done. apply step_steps in E1; [|done]. destruct o as [self callee|self r'|].
  - destruct E1 as (E1 & Hs1 & Hc). case_match.
    + apply IH in E; [|done]. rewrite E, <-E1. cbn. by rewrite (proj2 Hc).
    + apply bind_done in E as ([] & s2 & E2%keeps_complain & E). apply bind_done in E as ([] & s3 & E3%unwind_acts & E).
      apply bind_done in E as ([] & s4 & E4%keeps_set_flow & E). apply bind_done in E as ([] & s5 & [= <-] & [= <- <-]).
      rewrite <-E1, <-E2, <-E3, <-E4. done.
  - destruct E1 as [E1 Hs1]. apply bind_done in E as ([] & s2 & E2%destroy_acts & E). apply IH in E; [|done]. rewrite E, E2, <-E1. done.
  - done.
Qed.

(** C6: However a script ends - by its last command, by exit or errexit or a syntax error in the
    middle of loops, functions, pipelines and redirections, or because frames are nested
    too deep - the three streams are those of before it, no loop and no function call is
    counted any more, and the scopes of local variables are gone. *)
Theorem sh_run_string_restores n src s v s' : sh_run_string fuel n src s = Done (Some v, s') →
  stdin s' = stdin s ∧ stdout s' = stdout s ∧ stderr s' = stderr s ∧
  loop_depth (st s') = loop_depth (st s) ∧ call_depth (st s') = call_depth (st s) ∧
  length (scopes (st s')) = length (scopes (st s)).
Proof.
  intros E. apply run_unwinds in E; [|done]. cbn in E. unfold view_of in E. by injection E as -> -> -> -> -> ->.
Qed.
End machine.

(** The script ends in the middle of a redirected group in a loop in a function. *)
Definition interrupted : text :=
  script ["f() { local x=1; for i in a b; do { read y; echo got $y; exit 3; } <<E"; "text"; "E"; "done; }"; "true | f | true"; "f"].
Lemma sh_run_string_restores_witness : ∃ s',
  @sh_run_string _ wrapping_long 1000 1000 interrupted terminal = Done (Some 3, s') ∧
  stdin s' = 0%nat ∧ loop_depth (st s') = 0 ∧ call_depth (st s') = O.
Proof.
  destruct (ended_done (@sh_run_string _ wrapping_long 1000 1000 interrupted terminal) 3) as [s' E]; [by vm_compute|].
  exists s'. split; [exact E|]. apply sh_run_string_restores in E as (R1 & _ & _ & R2 & R3 & _). split_and!; assumption.
Defined.
