(* ===== verification/ShellListing.v ===== *)
(** The listing of "set" is a script that sets the same variables: through the tokenizer,
    the parser, the machine and the expansion of words. *)

From stdpp Require Import sorting.
From S2P Require Import Prelude Text ShellGlob Arith ShellLex ShellLexSpecs ShellParse ShellParseSpecs ShellState ShellFrames ShellExpand ShellFields ShellBuiltins ShellExec ShellDemo.

(** * Quoted values *)

Section quoting.
Implicit Types (a n v w t : text).

Definition quoted v : text := quote :: quote_value v ++ [quote].
(** The word of a line of the listing. *)
Definition binding n v : text := n ++ "="%char :: quoted v.

Lemma quote_value_plain a : quote ∉ a → quote_value a = a.
Proof.
  unfold quote_value. induction a as [|c a IH]; [done|]. intros [Hc Ha]%not_elem_of_cons. cbn [fmap list_fmap concat].
  rewrite decide_False by done. cbn [app]. f_equal. by apply IH.
Qed.
Lemma quote_value_app a v : quote_value (a ++ v) = quote_value a ++ quote_value v.
Proof. unfold quote_value. by rewrite fmap_app, concat_app. Qed.

(** A value is pieces without quotes, with a quote between two of them. *)
Lemma pieces v (P : text → Prop) :
  (∀ a, quote ∉ a → P a) → (∀ a v', quote ∉ a → P v' → P (a ++ quote :: v')) → P v.
Proof.
  intros H1 H2. remember (length v) as k eqn:Ek. revert v Ek. induction (lt_wf k) as [k _ IH]. intros v ->.
  destruct (decide (quote ∈ v)) as [Hq|Hq]; [|by apply H1].
  apply list_elem_of_split_l in Hq as (a & v' & -> & Ha). apply H2; [done|]. eapply IH; [|reflexivity]. rewrite length_app. simpl. lia.
Qed.
Lemma quoted_plain a : quote ∉ a → quoted a = quote :: a ++ [quote].
Proof. intros Ha. unfold quoted. by rewrite quote_value_plain. Qed.
Lemma quoted_more a v : quote ∉ a → quoted (a ++ quote :: v) = quote :: a ++ quote :: backslash :: quote :: quoted v.
Proof.
  intros Ha. unfold quoted. rewrite quote_value_app, quote_value_plain by done.
  change (quote_value (quote :: v)) with (([quote; backslash; quote; quote] : text) ++ quote_value v). by rewrite <-!app_assoc.
Qed.

Lemma quoted_word v : word_text (quoted v).
Proof.
  induction v as [a Ha|a v Ha IH] using pieces; [rewrite quoted_plain by done; by apply word_quote; [|constructor]|].
  rewrite quoted_more by done. apply word_quote; [done|]. by apply word_escape.
Qed.

Lemma name_char_plain c : name_char c = true → ends_word c = false ∧ c ∉ [quote; dquote; backslash; "`"%char] ∧ c ≠ "$"%char ∧ c ≠ "="%char ∧ c ≠ NUL.
Proof. by destruct c as [[] [] [] [] [] [] [] []]; intros [=]; (split; [done|]; split; [chars|]). Qed.
Lemma name_start_plain c : name_start c = true → name_char c = true ∧ c ≠ "#"%char ∧ isdigit c = false.
Proof. by destruct c as [[] [] [] [] [] [] [] []]; intros [=]. Qed.
Lemma valid_name_chars n : valid_name n = true → n ≠ [] ∧ Forall (λ c, name_char c = true) n.
Proof.
  destruct n as [|c n]; [done|]. cbn. intros [Hc Hn]%andb_prop. split; [done|]. constructor; [by apply name_start_plain|].
  apply List.Forall_forall. by apply forallb_forall.
Qed.

Lemma binding_word n v : valid_name n = true → word_text (binding n v).
Proof.
  intros [_ Hn]%valid_name_chars. unfold binding. induction Hn as [|c n Hc Hn IH]; cbn [app].
  - apply word_char; [done|chars|done|apply quoted_word].
  - destruct (name_char_plain c Hc) as (H1 & H2 & H3 & _). by apply word_char.
Qed.

(** * The tokens and the tree of the listing *)

Definition listing (l : list (text * text)) : text := concat ((λ '(n, v), set_line n v) <$> l).
Lemma set_line_binding n v t : set_line n v ++ t = binding n v ++ newline :: t.
Proof. unfold set_line, binding, quoted. by simplify_list_eq. Qed.

Fixpoint listing_prog (l : list (text * text)) : prog :=
  match l with [] => LNil | (n, v) :: l => LCons (AOnly false (PEnd (CSimple [binding n v] [] []))) true (listing_prog l) end.

Lemma lex_line f n v t x : valid_name n = true → pend x = [] → (length (set_line n v ++ t) < f)%nat →
  ∃ c r, set_line n v ++ t = c :: r ∧ lex_step f c r x = Some (Some (add (word (binding n v)) (newline :: t) x)).
Proof.
  intros Hn Hp. rewrite set_line_binding. pose proof (binding_word n v Hn) as Hw.
  destruct n as [|c n]; [done|]. exists c, (n ++ "="%char :: quoted v ++ newline :: t). unfold binding in *. split; [by rewrite <-app_assoc|].
  destruct (valid_name_chars _ Hn) as [_ Hns]. inversion Hns as [|? ? Hc Hcs]; subst.
  assert (name_start c = true) as Hstart by (cbn in Hn; by apply andb_prop in Hn as []).
  destruct (name_char_plain c Hc) as (H1 & H2 & H3 & _). destruct (name_start_plain c Hstart) as (_ & H4 & H5).
  rewrite lex_step_word; [|done|rewrite bool_decide_false; [done|set_solver]|done|by rewrite H5].
  change (c :: n ++ "="%char :: quoted v ++ newline :: t) with ((c :: n) ++ "="%char :: quoted v ++ newline :: t).
  assert ((c :: n) ++ "="%char :: quoted v ++ newline :: t = ((c :: n) ++ "="%char :: quoted v) ++ newline :: t) as -> by by rewrite <-app_assoc.
  by rewrite scan_word_app.
Qed.

Lemma lex_listing l k f x :
  Forall (λ '(n, _), valid_name n = true) l → pend x = [] → src x = listing l → (length (src x) < k ≤ f)%nat →
  lex_loop k f x = Some (Some (toks x ++ prog_toks (listing_prog l) ++ [op T_EOF])).
Proof.
  intros Hl. revert k x. induction Hl as [|[n v] l Hn Hl IH]; intros k x Hp Hs Hk.
  - destruct k as [|k]; [lia|]. cbn [lex_loop]. by rewrite Hs.
  - assert (src x = set_line n v ++ listing l) as E by (rewrite Hs; done).
    destruct (lex_line f n v (listing l) x Hn Hp) as (c & r & E' & Hstep); [rewrite <-E; lia|].
    destruct k as [|k]; [lia|]. cbn [lex_loop]. rewrite E, E', Hstep. cbn [mbind option_bind].
    rewrite E, length_app in Hk. assert (2 ≤ length (set_line n v))%nat by (unfold set_line; rewrite length_app; simpl; rewrite length_app; simpl; lia).
    destruct k as [|k]; [lia|]. cbn [lex_loop src add]. unfold lex_step. cbv zeta. repeat test.
    unfold add. cbn [toks pend src]. rewrite Hp. cbn [collect_pending mbind option_bind src toks].
    rewrite IH; [|done|done|simpl; lia]. cbn [toks]. by rewrite <-!app_assoc.
Qed.

Lemma span_name n t : Forall (λ c, name_char c = true) n → drop (span name_char (n ++ "="%char :: t)) (n ++ "="%char :: t) = "="%char :: t.
Proof. induction 1 as [|c n Hc Hn IH]; [done|]. cbn [app span]. rewrite Hc. exact IH. Qed.
Lemma binding_assign n v : valid_name n = true → looks_like_assign (binding n v) = true.
Proof.
  intros Hn. destruct (valid_name_chars _ Hn) as [_ Hns]. destruct n as [|c n]; [done|]. inversion Hns as [|? ? Hc Hcs]; subst.
  cbn in Hn |- *. apply andb_prop in Hn as [-> _]. cbn [andb]. by rewrite span_name.
Qed.

Lemma listing_wf l : Forall (λ '(n, _), valid_name n = true) l → prog_wf (listing_prog l) ∧ (prog_depth (listing_prog l) ≤ 4)%nat.
Proof.
  induction 1 as [|[n v] l Hn Hl [IH1 IH2]]; [by split; [|simpl; lia]|]. cbn [listing_prog prog_wf prog_depth andor_wf andor_depth pipe_wf pipe_depth cmd_wf cmd_depth].
  split; [|lia]. split; [|done]. repeat split; auto. constructor; [by apply binding_assign|constructor].
Qed.

Definition line_node (x : text * text) : node := let '(n, v) := x in new_node (N_SIMPLE [binding n v] []).
Lemma listing_nodes l : prog_nodes (listing_prog l) = line_node <$> l.
Proof. induction l as [|[n v] l IH]; [done|]. cbn. by rewrite IH. Qed.

Lemma listing_parsed l : Forall (λ '(n, _), valid_name n = true) l →
  ∃ toks, sh_lex (listing l) = Some (Some toks) ∧ sh_parse toks (10 * length toks + 9) = Done (inl (new_node (N_LIST (line_node <$> l)))).
Proof.
  intros Hl. destruct (listing_wf l Hl) as [Hwf Hd]. exists (prog_toks (listing_prog l) ++ [op T_EOF]). split.
  - unfold sh_lex. by rewrite (lex_listing l) by (done || (simpl; lia)).
  - rewrite parse_tree; [|done| |done]; [unfold list_node, list_of; by rewrite listing_nodes|]. unfold SH_MAX_PARSE_FRAMES. lia.
Qed.
End quoting.

(** Evaluation of the operations of a monadic program. *)
Ltac monad :=
  repeat (unfold mbind, M_bind, mret, M_ret, gets, getst, modify, setst, put_var, set_flow, get_flow, setenv, Prelude.deref, find, sh_set; cbn).

(** The result of the first operation is known. *)
Ltac known E := etrans; [apply (bind_eq _ _ _ _ _ E)|]; cbv beta.

Section machine.
Context `{Platform} `{Long}.
Variable fuel : nat.
Implicit Types (n v : text) (s : shell) (e : Expand).

(** * The value of a quoted word *)

Lemma span_to_quote a t : quote ∉ a → span (λ d, negb (bool_decide (d = quote))) (a ++ quote :: t) = length a.
Proof.
  induction a as [|c a IH]; cbn [app span]; intros Ha; [by rewrite bool_decide_true|].
  apply not_elem_of_cons in Ha as [Hc Ha]. rewrite bool_decide_false by done. cbn. by rewrite IH.
Qed.

Lemma scan_piece a t f e s : quote ∉ a → todo e = quote :: a ++ quote :: t → inDoubleQuote e = false →
  scanWord (S f) e s = scanWord f (e <| field := Builder (ftext (field e) ++ a) true |> <| todo := t |>) s.
Proof.
  intros Ha Ht Hq. cbn [scanWord]. rewrite Hq, Ht. rewrite decide_True by done. cbv zeta. rewrite span_to_quote by done.
  rewrite take_app_length, drop_app_length. rewrite puts_eq. done.
Qed.

Lemma scan_quoted v f e s :
  todo e = quoted v → inDoubleQuote e = false → quotedContext e = false → (length (quoted v) < f)%nat →
  scanWord f e s = Done ((None, e <| field := Builder (ftext (field e) ++ v) true |> <| todo := [] |>), s).
Proof.
  revert f e. induction v as [a Ha|a v Ha IH] using pieces; intros f e Ht Hq Hc Hf.
  - rewrite quoted_plain in Ht, Hf by done. destruct f as [|[|f]]; [simpl in Hf; lia..|].
    rewrite (scan_piece a []) by done. cbn [scanWord]. simpl. by rewrite Hq.
  - rewrite quoted_more in Ht, Hf by done. simpl in Hf. rewrite length_app in Hf. simpl in Hf. destruct f as [|[|f]]; [lia..|].
    rewrite (scan_piece a _ (S f) e) by done. cbn [scanWord]. simpl. rewrite Hq, Hc. cbn.
    rewrite IH; [|done..|unfold quoted; simpl; lia]. cbn. by rewrite <-!app_assoc.
Qed.

Lemma expand_quoted r v s : ∃ e, expand_step fuel r (expand_single true false (quoted v)) s = Done (Return (Expand_ e) (text_result v), s).
Proof.
  set (e0 := expand_single true false (quoted v)). set (e1 := e0 <| started := true |>).
  set (e2 := e1 <| field := Builder v true |> <| todo := [] |>). exists e2. unfold expand_step.
  assert (resume fuel r e0 s = Done (Some e0, s)) as E0 by done. rewrite (bind_eq _ _ _ _ _ E0).
  assert ((if started e0 then mret e0 else begin e0) s = Done (e1, s)) as E1 by done. rewrite (bind_eq _ _ _ _ _ E1).
  assert (scanWord (2 * length (todo e1) + 2) e1 s = Done ((None, e2), s)) as E2.
  { rewrite (scan_quoted v) by (done || (simpl; lia)). done. }
  change (mode e1) with Single. cbv zeta iota. by rewrite (bind_eq _ _ _ _ _ E2).
Qed.

(** * Steps of the machine *)

Lemma run_call (n : nat) f fs r s self callee s' :
  own_step fuel r f s = Done (Call self callee, s') → (length fs < 1000)%nat →
  match f with ApplyRedirects _ _ _ _ | ExpandBrace_ _ => False | _ => True end →
  run fuel (S n) (f :: fs) r s = run fuel n (callee :: self :: fs) r s'.
Proof.
  intros E Hl Hf. cbn [run]. assert (step fuel r f fs s = Done ((Call self callee, fs), s')) as Es.
  { unfold step. destruct f; try done; by rewrite (bind_eq _ _ _ _ _ E). }
  rewrite (bind_eq _ _ _ _ _ Es). cbv beta iota.
  by assert ((length (f :: fs) <? SH_MAX_FRAMES)%nat = true) as -> by (apply Nat.ltb_lt; unfold SH_MAX_FRAMES; simpl; lia).
Qed.
Lemma run_return (n : nat) f fs r s self r' s' s'' :
  own_step fuel r f s = Done (Return self r', s') → destroy self s' = Done (tt, s'') →
  match f with ApplyRedirects _ _ _ _ | ExpandBrace_ _ => False | _ => True end →
  run fuel (S n) (f :: fs) r s = run fuel n fs r' s''.
Proof.
  intros E Ed Hf. cbn [run]. assert (step fuel r f fs s = Done ((Return self r', fs), s')) as Es.
  { unfold step. destruct f; try done; by rewrite (bind_eq _ _ _ _ _ E). }
  rewrite (bind_eq _ _ _ _ _ Es). by rewrite (bind_eq _ _ _ _ _ Ed).
Qed.

Lemma cell_at_eq a c s : nodes s !! a = Some c → cell_at a s = Done (c, s).
Proof. intros Hc. unfold cell_at, Prelude.deref. by rewrite Hc. Qed.

(** * One line *)

Definition line_cell (x : text * text) : cell := Cell false [] (C_SIMPLE [binding x.1 x.2] []).
Definition going (f : FlowFlags) : Prop := exiting f = false ∧ returning f = false ∧ brk f = 0 ∧ cont f = 0.
Definition values s : gmap text text := value <$> vars (st s).
(** Variables change, nodes and flags do not. *)
Definition only_sets (s s' : shell) : Prop := nodes s' = nodes s ∧ flow (st s') = flow (st s).

Lemma binding_name n v : valid_name n = true → (length n ≤ param_name_max)%nat →
  assignment_name (binding n v) = n ∧ assignment_value (binding n v) = quoted v ∧ bool_decide ("="%char ∈ binding n v) = true.
Proof.
  intros [_ Hn]%valid_name_chars Hl. assert ("="%char ∉ n) as Hnot.
  { intros Hin. rewrite Forall_forall in Hn. by apply Hn, name_char_plain in Hin as (_ & _ & _ & ? & _). }
  unfold assignment_name, assignment_value, binding. rewrite split_char_app by done. cbn. split_and!; [by apply take_ge|done|].
  apply bool_decide_eq_true. set_solver.
Qed.

Lemma set_values n v s : ∃ s', sh_set n v s = Done (tt, s') ∧ only_sets s s' ∧ values s' = <[n := v]> (values s) ∧ cmdsub_ran (st s') = cmdsub_ran (st s).
Proof.
  destruct (vars (st s) !! n) as [x|] eqn:Ex; [destruct (exported x) eqn:Ee|]; (eexists; split; [monad; rewrite Ex; monad; rewrite ?Ee; reflexivity|]);
    (split; [done|]); (split; [|done]); unfold values; cbn; by rewrite fmap_insert.
Qed.

Lemma line_runs c n v s : nodes s !! c = Some (line_cell (n, v)) → going (flow (st s)) → valid_name n = true → (length n ≤ param_name_max)%nat →
  ∃ s', (∀ k fs r, (length fs < 900)%nat → run fuel (5 + k) (exec c false :: fs) r s = run fuel k fs (status_result 0) s') ∧
    only_sets s s' ∧ values s' = <[n := v]> (values s).
Proof.
  intros Hc (G1 & G2 & G3 & G4) Hn Hl. destruct (binding_name n v Hn Hl) as (E1 & E2 & E3).
  set (s1 := s <| st := st s <| cmdsub_ran := false |> |>).
  destruct (set_values n v s1) as (s2 & Eset & [On Of] & Ev & Er).
  set (s3 := s2 <| st := st s2 <| last_status := 0 |> |>). exists s3.
  assert (nodes s1 !! c = Some (line_cell (n, v))) as Hc1 by done.
  assert (nodes s2 !! c = Some (line_cell (n, v))) as Hc2 by by rewrite On.
  split; [|split; [split; [exact On|exact Of]|exact Ev]]. intros k fs r Hfs. cbn [plus].
  rewrite (run_call _ _ _ _ _ (ExecNode_Body c false None) (ExecSimple_ c false new_simple) s); [|..|lia|done].
  2: { cbn [own_step exec]. unfold node_start. known (eq_refl : Prelude.deref (λ _, Some c) s = Done (c, s)). known (cell_at_eq _ _ _ Hc).
    cbn [line_cell cell_of is_simple negb andb]. unfold node_body. by known (cell_at_eq _ _ _ Hc). }
  rewrite (run_call _ _ _ _ _ (ExecSimple_ c false (new_simple <| phase := PureAssign |>)) (Expand_ (expand_single true false (quoted v))) s1); [|..|simpl; lia|done].
  2: { cbn [own_step]. unfold simple_step. known (cell_at_eq _ _ _ Hc). cbn [line_cell cell_of]. cbv zeta. cbn [phase new_simple].
    known (eq_refl : setst (λ x, x <| cmdsub_ran := false |>) s = Done (tt, s1)). by rewrite <-E2. }
  destruct (expand_quoted r v s1) as [e Ee]. rewrite (run_return _ _ _ _ _ (Expand_ e) (text_result v) s1 s1) by done.
  rewrite (run_return _ _ _ _ _ (ExecSimple_ c false (new_simple <| phase := PureAssign |> <| index := 1%nat |>)) (status_result 0) s2 s2); [|..|done|done].
  2: { cbn [own_step]. unfold simple_step. known (cell_at_eq _ _ _ Hc1). cbn [line_cell cell_of redirs]. cbv zeta. cbn [phase fst snd].
    assert (apply_assignment (binding n v) v s1 = Done (tt, s2)) as Ea by (unfold apply_assignment; by rewrite E3, E1).
    known Ea. unfold pure_assign. cbn.
    known (eq_refl : get_flow id s2 = Done (flow (st s2), s2)). rewrite Of. cbn. rewrite G1.
    known (eq_refl : substituted_status s2 = Done (if cmdsub_ran (st s2) then cmdsub_status (st s2) else 0, s2)). by rewrite Er. }
  rewrite (run_return _ _ _ _ _ (ExecNode_Body c false None) (status_result 0) s3 s3); [done|..|done|done].
  cbn [own_step]. unfold node_end. known (eq_refl : restore_optional None s2 = Done (None, s2)). unfold node_finish. known (cell_at_eq _ _ _ Hc2).
  cbn [line_cell negated]. known (eq_refl : setst (λ x, x <| last_status := 0 |>) s2 = Done (tt, s3)).
  known (eq_refl : getst opt_errexit s3 = Done (opt_errexit (st s3), s3)). known (eq_refl : stopping s3 = Done (_, s3)).
  cbn [status status_result negb andb]. rewrite bool_decide_true by done. rewrite !andb_false_r. done.
Qed.

(** * The tree in memory *)

(** The nodes of the lines are at [a] and the addresses after it. *)
Definition lines_at (a : nat) (l : list (text * text)) (m : gmap addr cell) : Prop :=
  ∀ i x, l !! i = Some x → m !! (a + i)%nat = Some (line_cell x).

Lemma new_cell_eq c s : new_cell c s = Done (next_addr s, s <| nodes := <[next_addr s := c]> (nodes s) |> <| next_addr := S (next_addr s) |>).
Proof. done. Qed.

Lemma load_listing l s : ∃ s', load (new_node (N_LIST (line_node <$> l))) s = Done ((next_addr s + length l)%nat, s') ∧ st s' = st s ∧
  nodes s' !! (next_addr s + length l)%nat = Some (Cell false [] (C_LIST (seq (next_addr s) (length l)))) ∧ lines_at (next_addr s) l (nodes s').
Proof.
  cbn [load new_node load_kind]. 
  match goal with |- context [(?F : list node → M shell (list addr)) (line_node <$> l)] =>
    assert (∀ l s, ∃ s', F (line_node <$> l) s = Done (seq (next_addr s) (length l), s') ∧ st s' = st s ∧ next_addr s' = (next_addr s + length l)%nat ∧
      (∀ a, (a < next_addr s)%nat → nodes s' !! a = nodes s !! a) ∧ lines_at (next_addr s) l (nodes s')) as Hloads end.
  { clear l s. induction l as [|[n v] l IH]; intros s; [exists s; split_and!; (done || lia)|].
    set (s1 := s <| nodes := <[next_addr s := line_cell (n, v)]> (nodes s) |> <| next_addr := S (next_addr s) |>).
    destruct (IH s1) as (s' & E & Est & En & Eold & El). exists s'. split; [|split; [by rewrite Est|split; [rewrite En; simpl; lia|split]]].
    - cbn [fmap list_fmap line_node].
      assert (load (new_node (N_SIMPLE [binding n v] [])) s = Done (next_addr s, s1)) as E1 by done. known E1. known E. done.
    - intros a Ha. rewrite Eold by (simpl; lia). simpl. by rewrite lookup_insert_ne by lia.
    - intros [|i] x Hx; simpl in Hx.
      + injection Hx as <-. rewrite Nat.add_0_r, Eold by (simpl; lia). simpl. by rewrite lookup_insert_eq.
      + apply El in Hx. by rewrite <-Nat.add_succ_comm. }
  destruct (Hloads l s) as (s1 & E & Est & En & _ & El).
  eexists. split.
  - match goal with |- (?m ≫= ?k) s = _ => assert (m s = Done (C_LIST (seq (next_addr s) (length l)), s1)) as E2 by (known E; done) end.
    known E2. rewrite new_cell_eq, En. reflexivity.
  - split_and!; [done|by simpl; rewrite lookup_insert_eq|].
    intros i x Hx. simpl. rewrite lookup_insert_ne by (apply lookup_lt_Some in Hx; lia). by apply El.
Qed.

Lemma free_leaves (as_ : list addr) k s : NoDup as_ → (length as_ ≤ k)%nat → (∀ a, a ∈ as_ → ∃ x, nodes s !! a = Some (line_cell x)) →
  ∃ s', free_loop k as_ s = Done (tt, s') ∧ st s' = st s.
Proof.
  revert k s. induction as_ as [|a as_ IH]; intros k s Hnd Hk Hc; [exists s; by destruct k|]. destruct k as [|k]; [simpl in Hk; lia|].
  apply NoDup_cons in Hnd as [Ha Hnd]. destruct (Hc a) as [x Hx]; [set_solver|].
  destruct (IH k (s <| nodes := delete a (nodes s) |>)) as (s' & E & Est); [done|simpl in Hk; lia| |].
  - intros b Hb. simpl. rewrite lookup_delete_ne by (intros ->; done). apply Hc. set_solver.
  - exists s'. split; [|done]. cbn [free_loop]. known (cell_at_eq _ _ _ Hx). exact E.
Qed.

Lemma size_addrs (as_ : list addr) (m : gmap addr cell) : NoDup as_ → (∀ a, a ∈ as_ → is_Some (m !! a)) → (length as_ ≤ size m)%nat.
Proof.
  intros Hnd Hm. rewrite <-size_dom, <-(size_list_to_set (C := gset addr) as_) by done. apply subseteq_size. intros a Ha%elem_of_list_to_set.
  by apply elem_of_dom, Hm.
Qed.

Lemma free_listing a l s : nodes s !! (a + length l)%nat = Some (Cell false [] (C_LIST (seq a (length l)))) → lines_at a l (nodes s) →
  ∃ s', sh_free_node (Some (a + length l)%nat) s = Done (tt, s') ∧ st s' = st s.
Proof.
  intros Hroot Hl. assert (∀ b, b ∈ seq a (length l) → ∃ x, nodes s !! b = Some (line_cell x)) as Hleaf.
  { intros b [Hb1 Hb2]%elem_of_seq. destruct (lookup_lt_is_Some_2 l (b - a)) as [x Hx]; [lia|]. exists x.
    rewrite <-(Hl _ _ Hx). f_equal. lia. }
  assert (a + length l ∉ seq a (length l))%nat as Hnot by (rewrite elem_of_seq; lia).
  assert (S (length l) ≤ size (nodes s))%nat as Hsize.
  { pose proof (size_addrs ((a + length l)%nat :: seq a (length l)) (nodes s)) as Hs. cbn [length] in Hs. rewrite length_seq in Hs. apply Hs.
    - apply NoDup_cons. split; [done|apply NoDup_seq].
    - intros b [-> |Hb]%elem_of_cons; [by rewrite Hroot|]. by destruct (Hleaf b Hb) as [x ->]. }
  set (s1 := s <| nodes := delete (a + length l)%nat (nodes s) |>). destruct (size (nodes s)) as [|k] eqn:Ek; [lia|].
  destruct (free_leaves (reverse (seq a (length l))) k s1) as (s' & E & Est).
  - rewrite reverse_Permutation. apply NoDup_seq.
  - rewrite length_reverse, length_seq. lia.
  - intros b Hb. rewrite elem_of_reverse in Hb. simpl. rewrite lookup_delete_ne by (by intros <-; apply Hnot). by apply Hleaf.
  - exists s'. split; [|done]. unfold sh_free_node. known (eq_refl : gets (λ s, size (nodes s)) s = Done (size (nodes s), s)). rewrite Ek.
    cbn [option_list free_loop]. known (cell_at_eq _ _ _ Hroot). cbn [children cell_of]. rewrite app_nil_r. exact E.
Qed.

(** * The whole listing *)

Definition listed (x : text * text) : Prop := valid_name x.1 = true ∧ (length x.1 ≤ param_name_max)%nat ∧ NUL ∉ x.2.

Lemma quoted_no_nul v : NUL ∉ v → NUL ∉ quoted v.
Proof.
  induction v as [a Ha|a v Ha IH] using pieces; intros Hv; [rewrite quoted_plain by done|rewrite quoted_more by done].
  - rewrite !elem_of_cons, elem_of_app, list_elem_of_singleton. by intros [?|[?|?]].
  - rewrite elem_of_app, elem_of_cons in Hv. rewrite !elem_of_cons, elem_of_app, !elem_of_cons.
    intros [?|[?|[?|[?|[?|?]]]]]; try done; [naive_solver|]. apply IH; naive_solver.
Qed.
Lemma listing_no_nul l : Forall listed l → NUL ∉ listing l.
Proof.
  induction 1 as [|[n v] l (Hn & _ & Hv) Hl IH]; [by apply not_elem_of_nil|]. change (listing ((n, v) :: l)) with (set_line n v ++ listing l).
  rewrite set_line_binding. unfold binding. simpl in *. apply quoted_no_nul in Hv. apply valid_name_chars in Hn as [_ Hn].
  rewrite !elem_of_app, !elem_of_cons. intros [[H1|[?|?]]|[?|?]]; try done.
  rewrite Forall_forall in Hn. apply Hn, name_char_plain in H1. naive_solver.
Qed.
Lemma c_string_id (t : text) : NUL ∉ t → c_string t = t.
Proof.
  intros Ht. unfold c_string. rewrite span_all; [by rewrite firstn_all|]. apply Forall_forall. intros c Hc.
  rewrite bool_decide_false; [done|]. by intros ->.
Qed.

(** The values after the assignments of a listing, one after the other. *)
Definition assigned (l : list (text * text)) (m : gmap text text) : gmap text text := foldl (λ m x, <[x.1 := x.2]> m) m l.

Lemma list_next_runs a l i x root fs s :
  (length fs < 800)%nat → Forall listed l → going (flow (st s)) →
  nodes s !! root = Some (Cell false [] (C_LIST (seq a (length l)))) → lines_at a l (nodes s) → l !! i = Some x →
  ∀ f (v : Z) r, own_step fuel r f s = list_next root false i v s → match f with ApplyRedirects _ _ _ _ | ExpandBrace_ _ => False | _ => True end →
  ∃ s', (∀ k, run fuel (6 + k) (f :: fs) r s = run fuel k (ExecList root false i v true :: fs) (status_result 0) s') ∧
    only_sets s s' ∧ values s' = <[x.1 := x.2]> (values s).
Proof.
  intros Hfs Hok Hg Hroot Hl Hx f v r Ef Hf. pose proof (Hl _ _ Hx) as Hc. destruct x as [n w].
  assert (listed (n, w)) as (Hn & Hlen & _) by (rewrite Forall_lookup in Hok; by eapply Hok).
  destruct (line_runs (a + i) n w s Hc Hg Hn Hlen) as (s' & Hrun & Hs & Hv). exists s'. split; [|done]. intros k. cbn [plus].
  rewrite (run_call _ _ _ _ _ (ExecList root false i v true) (exec (a + i)%nat false) s); [|..|lia|done].
  - apply (Hrun k (ExecList root false i v true :: fs)). simpl. lia.
  - rewrite Ef. unfold list_next. known (cell_at_eq _ _ _ Hroot). cbn [cell_of].
    assert (seq a (length l) !! i = Some (a + i)%nat) as -> by (apply lookup_seq; split; [done|by apply lookup_lt_Some in Hx]). done.
Qed.

Lemma list_rest_runs a l root fs : (length fs < 800)%nat → Forall listed l → ∀ rest i (v : Z) s,
  drop (S i) l = rest → going (flow (st s)) →
  nodes s !! root = Some (Cell false [] (C_LIST (seq a (length l)))) → lines_at a l (nodes s) →
  ∃ s', (∀ k, run fuel (6 * length rest + S k) (ExecList root false i v true :: fs) (status_result 0) s = run fuel k fs (status_result 0) s') ∧
    only_sets s s' ∧ values s' = assigned rest (values s).
Proof.
  intros Hfs Hok. induction rest as [|x rest IH]; intros i v s Hd Hg Hroot Hl.
  all: assert (∀ v : Z, own_step fuel (status_result 0) (ExecList root false i v true) s = list_next root false (S i) 0 s) as Hown
    by (intros v'; destruct Hg as (G1 & G2 & G3 & G4); cbn [own_step list_step]; known (eq_refl : stopping s = Done (_, s));
      rewrite G1, G2, G3, G4; done).
  - exists s. split; [|done]. intros k. cbn [length Nat.mul plus].
    apply (run_return _ _ _ _ _ (ExecList root false (S i) 0 true) (status_result 0) s s); [|done|done].
    rewrite Hown. unfold list_next. known (cell_at_eq _ _ _ Hroot). cbn [cell_of].
    rewrite (lookup_ge_None_2 (seq a (length l)) (S i)); [done|]. rewrite length_seq.
    apply (f_equal length) in Hd. rewrite length_drop in Hd. simpl in Hd. lia.
  - assert (l !! S i = Some x) as Hx by (rewrite <-(Nat.add_0_r (S i)), <-lookup_drop, Hd; done).
    destruct (list_next_runs a l (S i) x root fs s Hfs Hok Hg Hroot Hl Hx _ 0 (status_result 0) (Hown v) I) as (s1 & Hrun & [On Of] & Hv).
    destruct (IH (S i) 0 s1) as (s2 & Hrun' & [On' Of'] & Hv').
    + by rewrite (drop_S l x (S i)) in Hd by done; injection Hd.
    + by rewrite Of.
    + by rewrite On.
    + by rewrite On.
    + exists s2. split; [|split; [split; congruence|by rewrite Hv', Hv]]. intros k. cbn [length].
      replace (6 * S (length rest) + S k)%nat with (6 + (6 * length rest + S k))%nat by lia. by rewrite Hrun.
Qed.

Lemma list_body_runs a l root fs r s : (length fs < 800)%nat → Forall listed l → going (flow (st s)) →
  nodes s !! root = Some (Cell false [] (C_LIST (seq a (length l)))) → lines_at a l (nodes s) →
  ∃ s', (∀ k, run fuel (6 * length l + S k) (ExecList root false 0 0 false :: fs) r s = run fuel k fs (status_result 0) s') ∧
    only_sets s s' ∧ values s' = assigned l (values s).
Proof.
  intros Hfs Hok Hg Hroot Hl. destruct l as [|x l].
  - exists s. split; [|done]. intros k. cbn [length Nat.mul plus].
    apply (run_return _ _ _ _ _ (ExecList root false 0 0 true) (status_result 0) s s); [|done|done].
    cbn [own_step list_step]. unfold list_next. by known (cell_at_eq _ _ _ Hroot).
  - destruct (list_next_runs a (x :: l) 0 x root fs s Hfs Hok Hg Hroot Hl eq_refl (ExecList root false 0 0 false) 0 r eq_refl I) as (s1 & Hrun & [On Of] & Hv).
    destruct (list_rest_runs a (x :: l) root fs Hfs Hok l 0 0 s1) as (s2 & Hrun' & [On' Of'] & Hv'); [done|by rewrite Of|by rewrite On|by rewrite On|].
    exists s2. split; [|split; [split; congruence|by rewrite Hv', Hv]]. intros k. cbn [length].
    replace (6 * S (length l) + S k)%nat with (6 + (6 * length l + S k))%nat by lia. by rewrite Hrun.
Qed.

Lemma listing_runs l s (n : nat) : Forall listed l → going (flow (st s)) → (6 * length l + 5 ≤ n)%nat →
  ∃ s', sh_run_string fuel n (listing l) s = Done (Some 0, s') ∧ values s' = assigned l (values s).
Proof.
  intros Hok Hg Hn. destruct (listing_parsed l) as (toks & Elex & Eparse).
  { eapply Forall_impl; [done|]. by intros [m v] (Hm & _). }
  set (s1 := s <| st := st s <| parse_error := false |> |>).
  destruct (load_listing l s1) as (s2 & Eload & Est & Hroot & Hlines). set (root := (next_addr s1 + length l)%nat) in *.
  assert (going (flow (st s2))) as Hg2 by by rewrite Est.
  set (frames := [ExecNode_Body root false None; RunProgram_Started Plain (Some root) None]).
  destruct (list_body_runs (next_addr s1) l root frames (status_result 0) s2) as (s3 & Hrun & [On Of] & Hv); [simpl; lia|done..|].
  set (s4 := s3 <| st := st s3 <| last_status := 0 |> |>).
  destruct (free_listing (next_addr s1) l s4) as (s5 & Efree & Est5); [simpl; by rewrite On|simpl; by rewrite On|].
  assert (exiting (flow (st s5)) = false) as Hex by (rewrite Est5; simpl; rewrite Of; apply Hg2).
  exists s5. split; [|unfold values in *; rewrite Est5; simpl; by rewrite Hv, Est].
  unfold sh_run_string. destruct n as [|[|n]]; [lia..|].
  rewrite (run_call _ _ _ _ _ (RunProgram_Started Plain (Some root) None) (exec root false) s2); [|..|simpl; lia|done].
  2: { cbn [own_step]. unfold program_start. known (eq_refl : (mret None : M shell (option (list text))) s = Done (None, s)).
    known (eq_refl : setst (λ x, x <| parse_error := false |>) s = Done (tt, s1)).
    rewrite c_string_id by by apply listing_no_nul. rewrite Elex, Eparse. known Eload. done. }
  rewrite (run_call _ _ _ _ _ (ExecNode_Body root false None) (ExecList root false 0 0 false) s2); [|..|simpl; lia|done].
  2: { cbn [own_step exec]. unfold node_start. known (eq_refl : Prelude.deref (λ _, Some root) s2 = Done (root, s2)). known (cell_at_eq _ _ _ Hroot).
    cbn [redirs cell_of is_simple negb andb]. rewrite bool_decide_true by done. cbn [negb]. unfold node_body. by known (cell_at_eq _ _ _ Hroot). }
  replace n with (6 * length l + S (S (S (n - 6 * length l - 3))))%nat by lia.
  fold frames. rewrite Hrun. unfold frames.
  rewrite (run_return _ _ _ _ _ (ExecNode_Body root false None) (status_result 0) s4 s4); [|..|done|done].
  2: { assert (nodes s3 !! root = Some (Cell false [] (C_LIST (seq (next_addr s1) (length l))))) as Hroot3 by by rewrite On.
    cbn [own_step]. unfold node_end. known (eq_refl : restore_optional None s3 = Done (None, s3)). unfold node_finish. known (cell_at_eq _ _ _ Hroot3).
    cbn [negated]. known (eq_refl : setst (λ x, x <| last_status := 0 |>) s3 = Done (tt, s4)).
    known (eq_refl : getst opt_errexit s4 = Done (opt_errexit (st s4), s4)). known (eq_refl : stopping s4 = Done (_, s4)).
    cbn [status status_result negb andb]. rewrite bool_decide_true by done. rewrite !andb_false_r. done. }
  rewrite (run_return _ _ _ _ _ (RunProgram_Started Plain None None) (status_result 0) s5 s5); [|..|done].
  - by destruct (n - 6 * length l - 3)%nat.
  - cbn [own_step]. unfold program_end. known Efree. known (eq_refl : get_flow id s5 = Done (flow (st s5), s5)). rewrite Hex. done.
  - assert (sh_free_node None s5 = Done (tt, s5)) as Enull.
    { unfold sh_free_node. known (eq_refl : gets (λ s, size (nodes s)) s5 = Done (size (nodes s5), s5)). by destruct (size (nodes s5)). }
    cbn [destroy]. by known Enull.
Qed.

(** * Two interpreters *)

Lemma assigned_list_to_map l m : NoDup l.*1 → assigned l m = list_to_map l ∪ m.
Proof.
  revert m. induction l as [|[n v] l IH]; intros m Hnd; [unfold assigned; cbn; by rewrite map_empty_union|]. inversion Hnd as [|? ? Hn Hnd']; subst. simpl in *.
  rewrite IH by done. unfold assigned. cbn [foldl]. rewrite <-insert_union_r by by apply not_elem_of_list_to_map_1.
  by rewrite <-insert_union_l.
Qed.

Definition sorted_variables s : list (text * sh_var) := merge_sort name_order (map_to_list (vars (st s))).
Definition listing_of s : text := concat ((λ '(n, x), set_line n (value x)) <$> sorted_variables s).

Lemma listing_of_values s : ∃ l, listing_of s = listing l ∧ NoDup l.*1 ∧ list_to_map l = values s ∧ (∀ x, x ∈ l ↔ values s !! x.1 = Some x.2).
Proof.
  set (l := prod_map id value <$> sorted_variables s). exists l.
  assert (l ≡ₚ map_to_list (values s)) as Hp.
  { unfold l, values, sorted_variables. rewrite merge_sort_Permutation, map_to_list_fmap. done. }
  assert (NoDup l.*1) as Hnd by (rewrite Hp; apply NoDup_fst_map_to_list).
  split_and!; [|done| |].
  - unfold listing_of, listing, l. rewrite <-list_fmap_compose. f_equal. apply list_fmap_ext. by intros ? [n x] _.
  - apply map_eq. intros n. apply option_eq. intros v. rewrite <-elem_of_list_to_map by done. rewrite Hp. apply elem_of_map_to_list.
  - intros [n v]. rewrite Hp. apply elem_of_map_to_list.
Qed.

(** C13: "set" without arguments prints a script.  When the name of every variable is one
    that an assignment can have - letters, digits and underscores, no digit first, and not
    over the 127 bytes that assignments keep - that script, run by any interpreter that is
    not about to leave, ends with status 0 and sets every variable of the first interpreter
    to the value it had there - whatever quotes, separators, newlines and pattern
    characters are in it; a C string has no NUL - and no other; so it is tokenized, parsed,
    executed and expanded to what it was printed from.  The condition on names is needed,
    since read sets a variable of any name ([read_name_not_listed]). *)
Theorem set_listing_reads_back s t (n : nat) :
  (∀ m x, vars (st s) !! m = Some x → listed (m, value x)) → going (flow (st t)) → (6 * size (vars (st s)) + 5 ≤ n)%nat →
  builtin_set [] s = (print stdout [listing_of s];; mret 0) s ∧
  ∃ t', sh_run_string fuel n (listing_of s) t = Done (Some 0, t') ∧ values t' = values s ∪ values t.
Proof.
  intros Hs Ht Hn. split.
  - unfold builtin_set, print. known (eq_refl : getst vars s = Done (vars (st s), s)). 
    replace (concat [listing_of s]) with (listing_of s) by (simpl; by rewrite app_nil_r). done.
  - destruct (listing_of_values s) as (l & -> & Hnd & Hmap & Hin). destruct (listing_runs l t n) as (t' & Hrun & Hv); [|done| |].
    + apply Forall_forall. intros [m v] Hm%Hin. unfold values in Hm. rewrite lookup_fmap in Hm. simpl in Hm.
      destruct (vars (st s) !! m) as [x|] eqn:Ex; [|done]. injection Hm as <-. by apply Hs.
    + assert (length l = size (vars (st s))) as ->; [|done]. assert (size (values s) = size (vars (st s))) as <- by (unfold values; apply map_size_fmap).
      rewrite <-Hmap, <-length_map_to_list. by rewrite map_to_list_to_map.
    + exists t'. split; [done|]. by rewrite Hv, assigned_list_to_map, Hmap.
Qed.
End machine.

(** A variable with quotes, a newline and pattern characters. *)
Definition awkward : text := $"it's " ++ newline :: $"'*$x;'".
Definition with_variable : shell := terminal <| st := boot_state <| vars := {[ $"x_1" := Var awkward true ]} |> |>.
Lemma set_listing_reads_back_witness :
  builtin_set [] with_variable = (print stdout [listing_of with_variable];; mret 0) with_variable ∧
  ∃ t', @sh_run_string _ wrapping_long 0 20 (listing_of with_variable) terminal = Done (Some 0, t') ∧
    values t' = values with_variable ∪ values terminal.
Proof.
  apply set_listing_reads_back.
  - intros m x. cbn. intros [<- <-]%lookup_singleton_Some. split; [reflexivity|]. split; [|by apply (bool_decide_unpack _)].
    apply Nat.leb_le. reflexivity.
  - by repeat split.
  - apply Nat.leb_le. vm_compute. reflexivity.
Defined.

(** "read a-b" sets a variable of that name, and its line in the listing is the name of a
    command that there is not. *)
Definition typing (line : text) : shell := terminal <| files := append_file ($"tty") (line ++ [newline]) (files terminal) |>.
Example read_name_not_listed :
  match @sh_run_string _ wrapping_long 1000 1000 (script ["read a-b"]) (typing ($"v")) with
  | Done (Some 0, s) =>
      values s = {[ $"a-b" := $"v" ]} ∧ listing_of s = script ["a-b='v'"] ∧
      match @sh_run_string _ wrapping_long 1000 1000 (listing_of s) terminal with
      | Done (Some v, t) => v = 127 ∧ values t = ∅
      | _ => False
      end
  | _ => False
  end.
Proof. vm_compute. split_and!; reflexivity. Qed.
