(* ===== verification/ShellSubshell.v ===== *)
(** Subshells: what a list in parentheses changes, and what it does not. *)

From S2P Require Import Prelude Text ShellGlob Arith ShellLex ShellParse ShellState ShellFrames ShellExpand ShellBuiltins ShellExec ShellDemo.

Section subshell.
Context `{Platform} `{Long}.
Variable fuel : nat.
Implicit Types (s : shell) (x : Snapshot).

(** The parts of the state that a snapshot keeps. *)
Definition is_snapshot x s : Prop :=
  vars (st s) = savedVars x ∧ pos (st s) = savedPositional x ∧ arg0 (st s) = savedArg0 x ∧ cwd (st s) = savedLogicalCwd x ∧
  opt_errexit (st s) = savedErrexit x ∧ opt_nounset (st s) = savedNounset x.
(** The flags too; or the machine gave up, which stops loops and functions. *)
Definition restored x s (v : Z) : Prop :=
  is_snapshot x s ∧ (flow (st s) = savedFlow x ∨ (v = 2 ∧ flow (st s) = savedFlow x <| brk := 0 |> <| cont := 0 |> <| returning := false |>)).

Lemma restore_snapshot_restores x s s' : restore_snapshot x s = Done (tt, s') → is_snapshot x s' ∧ flow (st s') = savedFlow x.
Proof.
  unfold restore_snapshot. intros ([] & s1 & [= <-] & E)%bind_done. apply bind_done in E as (b & s2 & E2 & E).
  unfold sh_port_chdir, platform in E2. apply bind_done in E2 as (w & s3 & [= <- <-] & E2). destruct (shell_bridge_chdir _ _) as [r w'].
  apply bind_done in E2 as ([] & s3 & [= <-] & [= <- <-]).
  apply bind_done in E as ([] & s4 & [= <-] & [= <-]). done.
Qed.

Abbreviation group n e x := (ExecGroup_Started n e (Some x)).

(** A step above a group leaves it at the bottom. *)
Lemma step_above r f fs n e x s o fs' s' : step fuel r f (fs ++ [group n e x]) s = Done ((o, fs'), s') → ∃ fs1, fs' = fs1 ++ [group n e x].
Proof.
  assert (∀ a, (s ← own_step fuel r f; mret (s, a : list Frame)) s = Done ((o, fs'), s') → fs' = a) as Hown.
  { intros a (o1 & s1 & _ & E)%bind_done. by injection E. }
  assert (∀ h hs, fs ++ [group n e x] = h :: hs → (fs = [] ∧ h = group n e x) ∨ ∃ hs', hs = hs' ++ [group n e x]) as Hsplit.
  { intros h hs E. destruct fs as [|g fs]; [left; by injection E|right]. injection E as -> <-. by exists fs. }
  unfold step. destruct f; try (intros E; apply Hown in E as ->; by exists fs);
    (destruct (fs ++ [group n e x]) as [|h hs] eqn:Efs; [by destruct fs|]); destruct (Hsplit h hs eq_refl) as [[-> ->]|[hs' ->]];
    (intros ([o1 g] & s1 & E & E')%bind_done); try done; injection E' as <- <- <-; by exists (g :: hs').
Qed.

Lemma group_runs k fs n e x r s v s' : run fuel k (fs ++ [group n e x]) r s = Done (Some v, s') → restored x s' v.
Proof.
  revert fs r s. induction k as [|k IH]; intros fs r s E; [by destruct fs|]. destruct fs as [|f fs].
  - cbn [app run] in E. apply bind_done in E as ([o fs'] & s1 & E1 & E). apply bind_done in E1 as (o1 & s2 & [= <- <-] & [= <- <- <-]).
    apply bind_done in E as ([] & s3 & E3%restore_snapshot_restores & E). assert (s3 = s' ) as <- by (by destruct k; injection E).
    by destruct E3 as [? ?]; split; [|left].
  - cbn [app run] in E. apply bind_done in E as ([o fs'] & s1 & E1 & E). apply step_above in E1 as [fs1 ->].
    destruct o as [self callee|self r'|]; [|by apply bind_done in E as ([] & s2 & _ & E); apply (IH fs1) in E|done].
    case_match; [by apply (IH (callee :: self :: fs1)) in E|].
    apply bind_done in E as ([] & s2 & _ & E). apply bind_done in E as ([] & s3 & E3 & E).
    apply bind_done in E as ([] & s4 & [= <-] & E). apply bind_done in E as ([] & s5 & [= <-] & [= <- <-]).
    assert (is_snapshot x s3 ∧ flow (st s3) = savedFlow x) as [Hs Hf].
    { clear -E3. change (self :: fs1 ++ [group n e x]) with ((self :: fs1) ++ [group n e x]) in E3. revert s2 E3. 
      induction (self :: fs1) as [|g gs IH]; intros s2 (u & s5 & E1 & E)%bind_done; [|by eapply IH].
      destruct u. injection E as <-. by apply restore_snapshot_restores in E1. }
    split; [done|right]. split; [done|]. cbn. by rewrite Hf.
Qed.

(** C31: Whatever the list in parentheses does and however it ends - a command that exits, a
    syntax error, break, errexit - variables, parameters, options, the logical directory and
    the flags of control flow are those of before it; only where the machine gives up,
    nested too deep, pending breaks and returns are dropped. *)
Theorem subshell_isolates n e neg rs body k r s v s' :
  nodes s !! n = Some (Cell neg rs (C_GROUP true body)) → run fuel k [ExecGroup n e] r s = Done (Some v, s') →
  vars (st s') = vars (st s) ∧ pos (st s') = pos (st s) ∧ arg0 (st s') = arg0 (st s) ∧ cwd (st s') = cwd (st s) ∧
  opt_errexit (st s') = opt_errexit (st s) ∧ opt_nounset (st s') = opt_nounset (st s) ∧
  (flow (st s') = flow (st s) ∨ (v = 2 ∧ flow (st s') = flow (st s) <| brk := 0 |> <| cont := 0 |> <| returning := false |>)).
Proof.
  intros Hn E. destruct k as [|k]; [done|]. cbn [run] in E. apply bind_done in E as ([o fs'] & s1 & E1 & E).
  apply bind_done in E1 as (o1 & s2 & E1 & [= <- <- <-]). cbn [own_step] in E1. unfold group_start in E1.
  assert (cell_at n s = Done (Cell neg rs (C_GROUP true body), s)) as Ec by (unfold cell_at, Prelude.deref; by rewrite Hn).
  rewrite (bind_eq _ _ _ _ _ Ec) in E1. cbn [cell_of] in E1. apply bind_done in E1 as (x & s3 & E3 & [= <- <-]).
  apply bind_done in E3 as (d & s4 & [= <- <-] & [= <- <-]). cbn in E. apply (group_runs k [exec body e]) in E as [(H1 & H2 & H3 & H4 & H5 & H6) H7].
  done.
Qed.
End subshell.

(** [(a=1; exit 3)], in memory. *)
Definition in_parentheses : node :=
  new_node (N_GROUP true (new_node (N_LIST [new_node (N_SIMPLE [$"a=1"] []); new_node (N_SIMPLE [] [$"exit"; $"3"])]))).
Definition loaded : addr * shell := match load in_parentheses terminal with Done p => p | _ => (O, terminal) end.
Lemma subshell_isolates_witness : ∃ s',
  @run _ wrapping_long 100 100 [ExecGroup loaded.1 false] (status_result 0) loaded.2 = Done (Some 3, s') ∧
  vars (st s') = vars (st loaded.2) ∧ flow (st s') = flow (st loaded.2).
Proof.
  destruct (ended_done (@run _ wrapping_long 100 100 [ExecGroup loaded.1 false] (status_result 0) loaded.2) 3) as [s' E]; [by vm_compute|].
  exists s'. split; [exact E|].
  pose proof (subshell_isolates 100 loaded.1 false false [] 2%nat 100 (status_result 0) loaded.2 3 s' eq_refl E) as (H1 & _ & _ & _ & _ & _ & [H2|[H2 _]]); [|discriminate].
  split; assumption.
Defined.

Definition undefined {A} (o : outcome A) : bool := match o with Undef => true | _ => false end.

(** A definition that is executed twice loses its function: the node gives its body away
    the first time, and the second time the old body is released and nothing takes its
    place, so the next call dereferences a null pointer.  A function that defines itself
    anew releases the body that is being executed.  Defined and called once, it runs. *)
Theorem function_definition_loses_body :
  shown (run_script ["for i in 1; do f() { echo hi; }; done; f"]) = Some (String.append "hi" (string_of_list_ascii [newline]), Some 0) ∧
  undefined (run_script ["for i in 1 2; do f() { echo hi; }; done; f"]) = true ∧
  undefined (run_script ["f() { f() { echo two; }; echo one; }; f"]) = true.
Proof. split_and!; by vm_compute. Qed.
