(* ===== verification/Bytes.v ===== *)
(** Bytes and machine words of the radio protocols: truncating casts, and the
    little-endian order in which words go on the air. *)

From S2P Require Import Prelude.

(** * Words *)

(** The casts [(uint8_t)] and [(uint32_t)], [(uint64_t)]. *)
Definition u8 (z : Z) : Z := z mod 2^8.
Definition u16 (z : Z) : Z := z mod 2^16.
Definition u32 (z : Z) : Z := z mod 2^32.
Definition u64 (z : Z) : Z := z mod 2^64.

(** A value of a [w]-bit unsigned type. *)
Definition unsigned (w z : Z) : Prop := 0 ≤ z < 2^w.
Abbreviation is_byte := (unsigned 8).
Abbreviation all_bytes := (Forall is_byte).

#[export] Instance unsigned_dec w z : Decision (unsigned w z).
Proof. unfold unsigned. apply _. Defined.

Create HintDb words.

Lemma unsigned_mod w z : 0 ≤ w → unsigned w (z mod 2^w).
Proof. intros Hw. apply Z.mod_pos_bound. lia. Qed.
Lemma mod_unsigned w z : unsigned w z → z mod 2^w = z.
Proof. apply Z.mod_small. Qed.

Lemma u8_byte z : is_byte (u8 z).
Proof. by apply unsigned_mod. Qed.
Lemma u8_id z : is_byte z → u8 z = z.
Proof. apply mod_unsigned. Qed.
Lemma u32_id z : unsigned 32 z → u32 z = z.
Proof. apply mod_unsigned. Qed.
#[export] Hint Resolve u8_byte unsigned_mod : words.

(** A fact about small numbers, by evaluation. *)
Lemma byte_cases (n : nat) (P : Z → bool) :
  forallb P (map Z.of_nat (seq 0 n)) = true → ∀ z, 0 ≤ z < Z.of_nat n → P z = true.
Proof.
  intros Hall z Hz. rewrite forallb_forall in Hall. apply Hall.
  apply in_map_iff. exists (Z.to_nat z). split; [lia|]. apply in_seq. lia.
Qed.

(** * Bits *)

Section bits.
Implicit Types a b n w : Z.

Lemma testbit_high w a n : 0 ≤ w → unsigned w a → w ≤ n → Z.testbit a n = false.
Proof. intros Hw Ha Hn. rewrite <-(mod_unsigned w a) by done. apply Z.mod_pow2_bits_high. lia. Qed.

(** A word below another one. *)
Lemma lor_shiftl w a b : 0 ≤ w → unsigned w a → 0 ≤ b → Z.lor a (Z.shiftl b w) = a + b * 2^w.
Proof.
  intros Hw Ha Hb. rewrite <-Z.shiftl_mul_pow2 by done.
  assert (Z.land a (Z.shiftl b w) = 0) as Hl.
  { apply Z.bits_inj'. intros n Hn. rewrite Z.bits_0, Z.land_spec, Z.shiftl_spec by done.
    destruct (Z.lt_ge_cases n w); [rewrite (Z.testbit_neg_r b) by lia; by rewrite andb_false_r|].
    by rewrite (testbit_high w a n). }
  pose proof (Z.add_lor_land a (Z.shiftl b w)) as E. lia.
Qed.

Lemma land_ones_mod w a : 0 ≤ w → Z.land a (2^w - 1) = a mod 2^w.
Proof. intros Hw. replace (2^w - 1) with (Z.ones w) by (rewrite Z.ones_equiv; lia). by apply Z.land_ones. Qed.

Lemma unsigned_lor w a b : 0 ≤ w → unsigned w a → unsigned w b → unsigned w (Z.lor a b).
Proof.
  intros Hw Ha Hb. split; [apply Z.lor_nonneg; split; [apply Ha|apply Hb]|].
  destruct (Z.eq_dec (Z.lor a b) 0) as [->|Hne]; [lia|].
  assert (0 ≤ Z.lor a b) by (apply Z.lor_nonneg; split; [apply Ha|apply Hb]).
  apply Z.log2_lt_pow2; [lia|]. rewrite Z.log2_lor by (apply Ha || apply Hb).
  assert (∀ c, unsigned w c → Z.log2 c < w ∨ w = 0) as Hlog.
  { intros c [Hc1 Hc2]. destruct (Z.eq_dec c 0) as [->|Hc]; [simpl; lia|]. left. apply Z.log2_lt_pow2; lia. }
  destruct (Hlog a Ha) as [?|Hz]; [destruct (Hlog b Hb) as [?|Hz]; [lia|]|];
    subst w; unfold unsigned in *; simpl in *; assert (a = 0) by lia; assert (b = 0) by lia; by subst.
Qed.
End bits.

(** * Little-endian words *)

(** [n] bytes of [value], the lowest first. *)
Definition le_bytes (n : nat) (value : Z) : list Z := map (λ i, u8 (Z.shiftr value (8 * Z.of_nat i))) (seq 0 n).

(** The word that bytes denote. *)
Fixpoint le_value (l : list Z) : Z :=
  match l with [] => 0 | b :: l' => b + 2^8 * le_value l' end.

(** [data[0] | (data[1] << 8) | (data[2] << 16) | ((uint32_t)data[3] << 24)]. *)
Definition word32 (a b c d : Z) : Z := Z.lor (Z.lor (Z.lor a (Z.shiftl b 8)) (Z.shiftl c 16)) (Z.shiftl d 24).
Definition word16 (a b : Z) : Z := Z.lor a (Z.shiftl b 8).

Section le.
Implicit Types (a b c d z : Z) (l : list Z).

Lemma le_bytes_S n z : le_bytes (S n) z = u8 z :: le_bytes n (z / 2^8).
Proof.
  unfold le_bytes. simpl. rewrite Z.shiftr_0_r. f_equal. rewrite <-(seq_shift n 0), map_map. apply map_ext_in.
  intros i _. rewrite <-Z.shiftr_div_pow2, Z.shiftr_shiftr by lia. do 2 f_equal. lia.
Qed.

Lemma length_le_bytes n z : length (le_bytes n z) = n.
Proof. unfold le_bytes. by rewrite length_map, length_seq. Qed.

Lemma all_bytes_le n z : all_bytes (le_bytes n z).
Proof. apply Forall_forall. intros b (i & -> & _)%list_elem_of_fmap. apply u8_byte. Qed.

Lemma le_value_bytes n z : le_value (le_bytes n z) = z mod 2^(8 * Z.of_nat n).
Proof.
  revert z. induction n as [|n IH]; intros z; [by rewrite Z.mod_1_r|].
  rewrite le_bytes_S. simpl. rewrite IH. unfold u8.
  replace (8 * Z.of_nat (S n)) with (8 + 8 * Z.of_nat n) by lia.
  rewrite Z.pow_add_r, Z.rem_mul_r by lia. lia.
Qed.

Lemma le_bytes_value l : all_bytes l → le_bytes (length l) (le_value l) = l.
Proof.
  induction 1 as [|b l Hb Hl IH]; [done|]. cbn [length le_value]. rewrite le_bytes_S. unfold u8.
  replace (b + 2^8 * le_value l) with (b + le_value l * 2^8) by lia.
  rewrite Z.mod_add, Z.div_add, Z.div_small, Z.add_0_l, IH by (done || lia). f_equal. by apply u8_id.
Qed.

Lemma unsigned_le_value l : all_bytes l → unsigned (8 * Z.of_nat (length l)) (le_value l).
Proof.
  induction 1 as [|b l Hb Hl IH]; [done|]. cbn [length le_value]. unfold unsigned in *.
  replace (8 * Z.of_nat (S (length l))) with (8 + 8 * Z.of_nat (length l)) by lia.
  rewrite Z.pow_add_r by lia. nia.
Qed.

Lemma word16_le a b : all_bytes [a; b] → word16 a b = le_value [a; b].
Proof.
  rewrite !Forall_cons. intros (Ha & Hb & _). unfold word16. unfold unsigned in Hb.
  rewrite lor_shiftl by (done || lia). simpl. lia.
Qed.

Lemma word32_le a b c d : all_bytes [a; b; c; d] → word32 a b c d = le_value [a; b; c; d].
Proof.
  rewrite !Forall_cons. intros (Ha & Hb & Hc & Hd & _). unfold word32. unfold unsigned in *.
  rewrite (lor_shiftl 8), (lor_shiftl 16), (lor_shiftl 24) by (unfold unsigned; lia). simpl. lia.
Qed.
End le.

#[export] Hint Resolve all_bytes_le : words.
