(* ===== verification/Meshtastic.v ===== *)
(** The Meshtastic protocol of Modules/mesh-meshtastic-module (meshtastic_protocol.cpp):
    the over-the-air header, the protobuf messages inside packets, channel keys, hashes
    and frequencies. *)

From S2P Require Import Prelude Bytes.

(** * Constants and data *)

Definition WIRE_VARINT : Z := 0.
Definition WIRE_FIXED64 : Z := 1.
Definition WIRE_LENGTH_DELIMITED : Z := 2.
Definition WIRE_FIXED32 : Z := 5.
Definition MESHTASTIC_BROADCAST : Z := 0xFFFFFFFF.
Definition MESHTASTIC_HEADER_SIZE : nat := 16.
Definition MESHTASTIC_DEFAULT_HOP_LIMIT : Z := 3.
Definition MESHTASTIC_DEFAULT_KEY : list Z :=
  [0xd4; 0xf1; 0xbb; 0x3a; 0x20; 0x29; 0x07; 0x59; 0xf0; 0xbc; 0xff; 0xab; 0xcf; 0x4e; 0x69; 0x01].

(** [MeshtasticPort] is an enumeration over [uint32_t]: any word can be received. *)
Definition TextMessage : Z := 1.
Definition Position : Z := 3.
Definition NodeInfo : Z := 4.
Definition Routing : Z := 5.

Record MeshtasticHeader := {
  to : Z; from : Z; id : Z;
  hopLimit : Z; wantAck : bool; viaMqtt : bool; hopStart : Z;
  channelHash : Z; nextHop : Z; relayNode : Z;
}.

Record MeshtasticData := { port : Z; payload : list Z; wantResponse : bool; requestId : Z }.
Record MeshtasticUser := { userId : list Z; longName : list Z; shortName : list Z }.
Record MeshtasticChannelKey := { bytes : list Z; keyLength : Z }.

(** [*data = {}] and [*user = {}]. *)
Definition default_data : MeshtasticData := {| port := TextMessage; payload := []; wantResponse := false; requestId := 0 |}.
Definition default_user : MeshtasticUser := {| userId := []; longName := []; shortName := [] |}.

(** * Writing protobuf *)

(** The bytes of a varint: seven bits each, the top bit on all but the last one. A
    64-bit value has at most ten. *)
Fixpoint varint (fuel : nat) (value : Z) : list Z :=
  match fuel with
  | O => []
  | S f =>
      let byte := Z.land value 0x7F in
      let value := Z.shiftr value 7 in
      if value =? 0 then [byte] else Z.lor byte 0x80 :: varint f value
  end.

Definition writeVarint (out : list Z) (value : Z) : list Z := out ++ varint 10 value.
Definition writeTag (out : list Z) (field wireType : Z) : list Z :=
  writeVarint out (Z.lor (Z.shiftl field 3) wireType).
Definition writeBytes (out : list Z) (field : Z) (b : list Z) : list Z :=
  writeVarint (writeTag out field WIRE_LENGTH_DELIMITED) (Z.of_nat (length b)) ++ b.
Definition writeString (out : list Z) (field : Z) (value : list Z) : list Z := writeBytes out field value.
Definition writeFixed32 (out : list Z) (field value : Z) : list Z :=
  writeTag out field WIRE_FIXED32 ++ le_bytes 4 value.

(** * Reading protobuf *)

Record ProtobufReader := { data : list Z; position : nat }.

Definition atEnd (r : ProtobufReader) : bool := (length (data r) <=? position r)%nat.
Definition move (n : nat) (r : ProtobufReader) : ProtobufReader := {| data := data r; position := position r + n |}.

(** [data[position++]]: reading past the end is undefined behaviour. *)
Definition next : M ProtobufReader Z :=
  b ← deref (λ r, data r !! position r); modify (move 1);; mret b.

Fixpoint readVarint_from (fuel : nat) (shift value : Z) : M ProtobufReader (option Z) :=
  match fuel with
  | O => mret None
  | S f =>
      e ← gets atEnd;
      if e : bool then mret None
      else
        byte ← next;
        let value := Z.lor value (u64 (Z.shiftl (Z.land byte 0x7F) shift)) in
        if Z.land byte 0x80 =? 0 then mret (Some value) else readVarint_from f (shift + 7) value
  end.

(** The shifts 0, 7, ..., 63. *)
Definition readVarint : M ProtobufReader (option Z) := readVarint_from 10 0 0.

Definition readField : M ProtobufReader (option (Z * Z)) :=
  t ← readVarint;
  mret (match t with
        | Some tag => if Z.shiftr tag 3 =? 0 then None else Some (u32 (Z.shiftr tag 3), Z.land tag 0x07)
        | None => None
        end).

Definition readBytes : M ProtobufReader (option (list Z)) :=
  t ← readVarint;
  r ← get;
  match t with
  | Some size =>
      if Z.of_nat (length (data r)) - Z.of_nat (position r) <? size then mret None
      else
        let n := Z.to_nat size in
        put (move n r);; mret (Some (take n (drop (position r) (data r))))
  | None => mret None
  end.

Definition remaining (n : nat) : M ProtobufReader bool := gets (λ r, (position r + n <=? length (data r))%nat).

Definition readFixed32 : M ProtobufReader (option Z) :=
  ok ← remaining 4;
  if ok : bool then a ← next; b ← next; c ← next; d ← next; mret (Some (word32 a b c d))
  else mret None.

Definition skip_bytes (n : nat) : M ProtobufReader bool :=
  ok ← remaining n; if ok : bool then modify (move n);; mret true else mret false.

Definition skip (wireType : Z) : M ProtobufReader bool :=
  if wireType =? WIRE_VARINT then v ← readVarint; mret (is_some v)
  else if wireType =? WIRE_FIXED64 then skip_bytes 8
  else if wireType =? WIRE_LENGTH_DELIMITED then b ← readBytes; mret (is_some b)
  else if wireType =? WIRE_FIXED32 then skip_bytes 4
  else mret false.

(** * The Data and User messages *)

Definition meshtastic_encode_data (d : MeshtasticData) : list Z :=
  let out := writeTag [] 1 WIRE_VARINT in
  let out := writeVarint out (port d) in
  let out := writeBytes out 2 (payload d) in
  let out := if wantResponse d then writeVarint (writeTag out 3 WIRE_VARINT) 1 else out in
  if requestId d =? 0 then out else writeFixed32 out 6 (requestId d).

(** One field of a Data message: whether it could be read, and the data and [hasPort]
    after it. *)
Definition data_field (field wireType : Z) (d : MeshtasticData) (hasPort : bool) :
    M ProtobufReader (bool * MeshtasticData * bool) :=
  if (field =? 1) && (wireType =? WIRE_VARINT) then
    v ← readVarint;
    mret (match v with
          | Some v => (true, {| port := u32 v; payload := payload d; wantResponse := wantResponse d; requestId := requestId d |}, true)
          | None => (false, d, hasPort)
          end)
  else if (field =? 2) && (wireType =? WIRE_LENGTH_DELIMITED) then
    b ← readBytes;
    mret (match b with
          | Some b => (true, {| port := port d; payload := b; wantResponse := wantResponse d; requestId := requestId d |}, hasPort)
          | None => (false, d, hasPort)
          end)
  else if (field =? 3) && (wireType =? WIRE_VARINT) then
    v ← readVarint;
    mret (match v with
          | Some v => (true, {| port := port d; payload := payload d; wantResponse := negb (v =? 0); requestId := requestId d |}, hasPort)
          | None => (false, d, hasPort)
          end)
  else if (field =? 6) && (wireType =? WIRE_FIXED32) then
    v ← readFixed32;
    mret (match v with
          | Some v => (true, {| port := port d; payload := payload d; wantResponse := wantResponse d; requestId := v |}, hasPort)
          | None => (false, d, hasPort)
          end)
  else ok ← skip wireType; mret (ok, d, hasPort).

(** [while (!reader.atEnd())]. *)
Fixpoint decode_data_loop (fuel : nat) (d : MeshtasticData) (hasPort : bool) : M ProtobufReader (bool * MeshtasticData) :=
  match fuel with
  | O => undef
  | S f =>
      e ← gets atEnd;
      if e : bool then mret (hasPort, d)
      else
        t ← readField;
        match t with
        | None => mret (false, d)
        | Some (field, wireType) =>
            '(ok, d, hasPort) ← data_field field wireType d hasPort;
            if ok : bool then decode_data_loop f d hasPort else mret (false, d)
        end
  end.

(** The result and the contents of [*data]. Every field is at least one byte, so the
    length of the input bounds the iterations. *)
Definition meshtastic_decode_data (b : list Z) : outcome (bool * MeshtasticData) :=
  match decode_data_loop (S (length b)) default_data false {| data := b; position := 0 |} with
  | Done (r, _) => Done r
  | Panic => Panic
  | Undef => Undef
  end.

Definition meshtastic_encode_user (u : MeshtasticUser) : list Z :=
  let out := writeString [] 1 (userId u) in
  let out := writeString out 2 (longName u) in
  let out := writeString out 3 (shortName u) in
  writeVarint (writeTag out 5 WIRE_VARINT) 255.

Definition user_field (field wireType : Z) (u : MeshtasticUser) : M ProtobufReader (bool * MeshtasticUser) :=
  if (1 <=? field) && (field <=? 3) && (wireType =? WIRE_LENGTH_DELIMITED) then
    b ← readBytes;
    mret (match b with
          | Some value =>
              (true, if field =? 1 then {| userId := value; longName := longName u; shortName := shortName u |}
                     else if field =? 2 then {| userId := userId u; longName := value; shortName := shortName u |}
                     else {| userId := userId u; longName := longName u; shortName := value |})
          | None => (false, u)
          end)
  else ok ← skip wireType; mret (ok, u).

Fixpoint decode_user_loop (fuel : nat) (u : MeshtasticUser) : M ProtobufReader (bool * MeshtasticUser) :=
  match fuel with
  | O => undef
  | S f =>
      e ← gets atEnd;
      if e : bool then mret (true, u)
      else
        t ← readField;
        match t with
        | None => mret (false, u)
        | Some (field, wireType) =>
            '(ok, u) ← user_field field wireType u;
            if ok : bool then decode_user_loop f u else mret (false, u)
        end
  end.

Definition meshtastic_decode_user (b : list Z) : outcome (bool * MeshtasticUser) :=
  match decode_user_loop (S (length b)) default_user {| data := b; position := 0 |} with
  | Done (r, _) => Done r
  | Panic => Panic
  | Undef => Undef
  end.

Definition meshtastic_encode_routing_ack : list Z := writeVarint (writeTag [] 3 WIRE_VARINT) 0.

(** * The packet header *)

Definition meshtastic_write_header (h : MeshtasticHeader) : list Z :=
  le_bytes 4 (to h) ++ le_bytes 4 (from h) ++ le_bytes 4 (id h) ++
  [u8 (Z.lor (Z.lor (Z.lor (Z.land (hopLimit h) 0x07) (if wantAck h then 0x08 else 0)) (if viaMqtt h then 0x10 else 0))
         (Z.shiftl (Z.land (hopStart h) 0x07) 5));
   channelHash h; nextHop h; relayNode h].

Definition read_u32 (b : list Z) (offset : nat) : option Z :=
  b0 ← b !! offset; b1 ← b !! (offset + 1)%nat; b2 ← b !! (offset + 2)%nat; b3 ← b !! (offset + 3)%nat;
  Some (word32 b0 b1 b2 b3).

(** [None] is [false]: the header is left as it was. *)
Definition meshtastic_read_header (b : list Z) : option MeshtasticHeader :=
  if bool_decide (length b < MESHTASTIC_HEADER_SIZE)%nat then None
  else
    t ← read_u32 b 0; f ← read_u32 b 4; i ← read_u32 b 8;
    flags ← b !! 12%nat; ch ← b !! 13%nat; nh ← b !! 14%nat; rn ← b !! 15%nat;
    Some {| to := t; from := f; id := i;
            hopLimit := Z.land flags 0x07;
            wantAck := negb (Z.land flags 0x08 =? 0);
            viaMqtt := negb (Z.land flags 0x10 =? 0);
            hopStart := Z.land (Z.shiftr flags 5) 0x07;
            channelHash := ch; nextHop := nh; relayNode := rn |}.

(** * Channels *)

(** Replaces byte 15, as in [key->bytes[15] = ...]. *)
Definition meshtastic_expand_psk (psk : list Z) (key : MeshtasticChannelKey) : bool * MeshtasticChannelKey :=
  match psk with
  | [b] =>
      if (b =? 0) || (10 <? b) then (false, key)
      else
        let k := MESHTASTIC_DEFAULT_KEY in
        (true, {| bytes := <[15%nat := u8 (default 0 (k !! 15%nat) + b - 1)]> k ++ drop 16 (bytes key); keyLength := 16 |})
  | _ =>
      if (Nat.eqb (length psk) 16 || Nat.eqb (length psk) 32)%bool
      then (true, {| bytes := psk ++ drop (length psk) (bytes key); keyLength := Z.of_nat (length psk) |})
      else (false, key)
  end.

Definition meshtastic_channel_hash (name : list Z) (key : MeshtasticChannelKey) : Z :=
  foldl Z.lxor (foldl Z.lxor 0 name) (take (Z.to_nat (keyLength key)) (bytes key)).

(** djb2 over [uint32_t]. *)
Definition djb2 (name : list Z) : Z := foldl (λ hash c, u32 (u32 (u32 (Z.shiftl hash 5) + hash) + c)) 5381 name.

(** Signed 32-bit arithmetic: overflow is undefined behaviour. *)
Definition i32 (z : Z) : option Z := if (- 2^31 <=? z) && (z <? 2^31) then Some z else None.

Definition meshtastic_channel_frequency (name : list Z) (bandStart bandEnd bandwidth : Z) : option Z :=
  band ← i32 (bandEnd - bandStart);
  if bandwidth =? 0 then None
  else
    channelCount ← i32 (Z.quot band bandwidth);
    let slot := if 0 <? channelCount then djb2 name mod channelCount else 0 in
    middle ← i32 (bandStart + Z.quot bandwidth 2);
    offset ← i32 (slot * bandwidth);
    i32 (middle + offset).

(** * Encryption *)

(** The AES-CTR nonce of a packet: the packet id as a 64-bit and the sender as a 32-bit
    little-endian word, and a zero block counter. *)
Definition nonce (packetId from : Z) : list Z := le_bytes 4 packetId ++ replicate 4 0 ++ le_bytes 4 from ++ replicate 4 0.

(** [psa] is the cipher of the PSA crypto library: key, initial vector and input; it
    fails or returns what it wrote. *)
Definition meshtastic_crypt (psa : list Z → list Z → list Z → option (list Z)) (key : MeshtasticChannelKey)
    (packetId from : Z) (input : list Z) : option (list Z) :=
  output ← psa (take (Z.to_nat (keyLength key)) (bytes key)) (nonce packetId from) input;
  if Nat.eqb (length output) (length input) then Some output else None.

(** "!%08x". *)
Definition hex_char (d : Z) : Z := if d <? 10 then 48 + d else 87 + d.
Definition meshtastic_node_id (nodeNum : Z) : list Z :=
  33 :: map (λ i, hex_char (Z.land (Z.shiftr nodeNum (28 - 4 * Z.of_nat i)) 0xF)) (seq 0 8).

Example encode_example : meshtastic_encode_data {| port := 1; payload := [104; 105]; wantResponse := true; requestId := 258 |}
  = [8; 1; 18; 2; 104; 105; 24; 1; 53; 2; 1; 0; 0].
Proof. reflexivity. Qed.
