(* ===== verification/MeshtasticSpecs.v ===== *)
(** The Meshtastic codec: messages as sequences of protobuf fields, what the decoders
    make of any of them, round trips, and bounds. *)

From S2P Require Import Prelude Bytes Meshtastic.

(** * Facts about single bytes, by evaluation *)

Lemma more_byte m : 0 ≤ m < 128 →
  Z.land (Z.lor m 0x80) 0x7F = m ∧ (Z.land (Z.lor m 0x80) 0x80 =? 0) = false.
Proof.
  intros Hm. pose proof (byte_cases 128 (λ m, (Z.land (Z.lor m 0x80) 0x7F =? m) && negb (Z.land (Z.lor m 0x80) 0x80 =? 0))%bool
    eq_refl m Hm) as H. cbv beta in H. bsimpl. lia.
Qed.

Lemma last_byte m : 0 ≤ m < 128 → Z.land m 0x7F = m ∧ (Z.land m 0x80 =? 0) = true.
Proof.
  intros Hm. pose proof (byte_cases 128 (λ m, (Z.land m 0x7F =? m) && (Z.land m 0x80 =? 0))%bool eq_refl m Hm) as H.
  cbv beta in H. bsimpl. lia.
Qed.

(** * Readers *)

Section readers.
Implicit Types (r : ProtobufReader) (b t : list Z) (v n w : Z).

(** The bytes not yet read. *)
Definition left r : list Z := drop (position r) (data r).

Lemma left_move b t r : left r = b ++ t → left (move (length b) r) = t.
Proof. unfold left, move. simpl. rewrite <-drop_drop. intros ->. apply drop_app_length. Qed.

Lemma left_cons x t r : left r = x :: t → data r !! position r = Some x ∧ atEnd r = false.
Proof.
  unfold left, atEnd. intros E. assert (data r !! position r = Some x) as Hx.
  { rewrite <-(Nat.add_0_r (position r)), <-lookup_drop, E. done. }
  split; [done|]. apply Nat.leb_gt. by apply lookup_lt_Some in Hx.
Qed.

Lemma left_nil r : left r = [] → atEnd r = true.
Proof. unfold left, atEnd. intros E. apply Nat.leb_le. pose proof (length_drop (data r) (position r)) as Hl. rewrite E in Hl. simpl in Hl. lia. Qed.

Lemma left_length b t r : left r = b ++ t → (length b <= length (data r) - position r)%nat.
Proof. unfold left. intros E. rewrite <-length_drop, E, length_app. lia. Qed.

Lemma left_remaining (n : nat) b t r :
  left r = b ++ t → length b = n → b ≠ [] → (position r + n <=? length (data r))%nat = true.
Proof.
  intros E <- Hb. apply Nat.leb_le. pose proof (left_length _ _ _ E). destruct b; [done|]. simpl in *. lia.
Qed.

Lemma next_eq x t r : left r = x :: t → next r = Done (x, move 1 r).
Proof. intros [E _]%left_cons. unfold next, deref, mbind, M_bind, modify. by rewrite E. Qed.

Lemma move_move (i j : nat) r : move i (move j r) = move (j + i) r.
Proof. unfold move. simpl. by rewrite Nat.add_assoc. Qed.

(** Reads exactly the bytes [b] and returns [a]. *)
Definition reads {A} (m : M ProtobufReader A) b (a : A) : Prop :=
  ∀ r t, left r = b ++ t → m r = Done (a, move (length b) r).

Lemma reads_bind {A B} (m : M ProtobufReader A) (f : A → M ProtobufReader B) b b' a a' :
  reads m b a → reads (f a) b' a' → reads (m ≫= f) (b ++ b') a'.
Proof.
  intros Hm Hf r t E. rewrite <-app_assoc in E. rewrite (bind_eq _ _ _ _ _ (Hm r _ E)).
  rewrite (Hf _ t) by by eapply left_move. by rewrite move_move, length_app.
Qed.

Lemma reads_ret {A} (a : A) : reads (mret a) [] a.
Proof. intros r t _. unfold move. rewrite Nat.add_0_r. by destruct r. Qed.

(** A result computed from what was read. *)
Lemma reads_map {A B} (m : M ProtobufReader A) (f : A → B) b a : reads m b a → reads (x ← m; mret (f x)) b (f a).
Proof. intros Hm. rewrite <-(app_nil_r b). eapply reads_bind; [exact Hm|apply reads_ret]. Qed.

Lemma reads_map_eq {A B} (m : M ProtobufReader A) (f : A → B) b a c :
  reads m b a → f a = c → reads (x ← m; mret (f x)) b c.
Proof. intros Hm <-. by apply reads_map. Qed.

Lemma reads_varint_from f shift acc v :
  (0 < f)%nat → 0 ≤ shift → unsigned shift acc → 0 ≤ v < 2^(7 * Z.of_nat f) → v * 2^shift < 2^64 →
  reads (readVarint_from f shift acc) (varint f v) (Some (acc + v * 2^shift)).
Proof.
  revert shift acc v. induction f as [|f IH]; intros shift acc v Hf Hs Ha Hv Hmax r t E; [lia|].
  cbn [varint readVarint_from] in *.
  assert (0 ≤ v mod 2^7 < 128) as Hm by (apply Z.mod_pos_bound; lia).
  assert (Z.land v 0x7F = v mod 2^7) as Hland by by apply (land_ones_mod 7).
  rewrite Hland in *. rewrite Z.shiftr_div_pow2 in * by lia.
  assert (v = 2^7 * (v / 2^7) + v mod 2^7) as Hdiv by by apply Z.div_mod.
  assert (∀ m, 0 ≤ m ≤ v → Z.lor acc (u64 (Z.shiftl m shift)) = acc + m * 2^shift) as Hlor.
  { intros m Hmv. unfold u64. rewrite Z.mod_small by (rewrite Z.shiftl_mul_pow2 by done; nia).
    apply lor_shiftl; [done|done|lia]. }
  destruct (v / 2^7 =? 0) eqn:Hz.
  - apply Z.eqb_eq in Hz. simpl app in E. destruct (left_cons _ _ _ E) as [_ He].
    rewrite (bind_eq _ _ r false r) by (unfold gets; by rewrite He). rewrite (bind_eq _ _ _ _ _ (next_eq _ _ _ E)).
    destruct (last_byte _ Hm) as [-> ->]. rewrite Hlor by lia. unfold mret, M_ret. do 3 f_equal.
    rewrite Hdiv at 2. rewrite Hz. lia.
  - apply Z.eqb_neq in Hz. cbn [app] in E. destruct (left_cons _ _ _ E) as [_ He].
    rewrite (bind_eq _ _ r false r) by (unfold gets; by rewrite He). rewrite (bind_eq _ _ _ _ _ (next_eq _ _ _ E)).
    destruct (more_byte _ Hm) as [-> ->]. rewrite Hlor by lia.
    assert (0 ≤ v / 2^7) by (apply Z.div_pos; lia).
    assert (f ≠ 0%nat) by (intros ->; change (2 ^ (7 * Z.of_nat 1)) with 128 in Hv; apply Hz, Z.div_small; lia).
    rewrite (IH (shift + 7) _ (v / 2^7)) with (t := t).
    + rewrite move_move. cbn [length]. do 3 f_equal. rewrite Z.pow_add_r by lia. rewrite Hdiv at 3. lia.
    + lia.
    + lia.
    + unfold unsigned in *. rewrite Z.pow_add_r by lia. nia.
    + split; [done|]. apply Z.div_lt_upper_bound; [lia|]. rewrite <-Z.pow_add_r by lia.
      replace (7 + 7 * Z.of_nat f) with (7 * Z.of_nat (S f)) by lia. lia.
    + rewrite Z.pow_add_r by lia. nia.
    + change (Z.lor (v mod 2^7) 128 :: varint f (v / 2^7) ++ t) with ([Z.lor (v mod 2^7) 128] ++ (varint f (v / 2^7) ++ t)) in E.
      apply left_move in E. done.
Qed.

Lemma reads_varint v : unsigned 64 v → reads readVarint (varint 10 v) (Some v).
Proof.
  intros Hv. replace (Some v) with (Some (0 + v * 2^0)) by (f_equal; lia).
  unfold unsigned in Hv. apply reads_varint_from; unfold unsigned; simpl; lia.
Qed.

Lemma varint_nonempty f v : varint (S f) v ≠ [].
Proof. simpl. by destruct (_ =? 0). Qed.

(** The tag of field [n] with wire type [w]. *)
Definition tag n w : list Z := varint 10 (Z.lor (Z.shiftl n 3) w).

Lemma tag_value n w : 0 ≤ n → unsigned 3 w → Z.lor (Z.shiftl n 3) w = w + n * 2^3.
Proof. intros Hn Hw. rewrite Z.lor_comm. by apply lor_shiftl. Qed.

Lemma reads_field n w : 1 ≤ n < 2^32 → unsigned 3 w → reads readField (tag n w) (Some (n, w)).
Proof.
  intros Hn Hw. unfold unsigned in Hw. simpl in Hw.
  set (k := λ o, match o with
    | Some v => if Z.shiftr v 3 =? 0 then None else Some (u32 (Z.shiftr v 3), Z.land v 0x07)
    | None => None end).
  replace (Some (n, w)) with (k (Some (w + n * 2^3))).
  - unfold tag. rewrite tag_value by (unfold unsigned; lia). apply (reads_map readVarint k), reads_varint.
    unfold unsigned. lia.
  - unfold k. rewrite Z.shiftr_div_pow2, Z.div_add, Z.div_small by lia. rewrite Z.add_0_l.
    rewrite (proj2 (Z.eqb_neq n 0)) by lia. rewrite u32_id by (unfold unsigned; lia).
    rewrite (land_ones_mod 3) by lia. rewrite Z.mod_add, Z.mod_small by lia. done.
Qed.

Lemma reads_bytes b : Z.of_nat (length b) < 2^64 →
  reads readBytes (varint 10 (Z.of_nat (length b)) ++ b) (Some b).
Proof.
  intros Hb r t E. rewrite <-app_assoc in E. unfold readBytes.
  rewrite (bind_eq _ _ _ _ _ (reads_varint _ (conj (Zle_0_nat _) Hb) r _ E)).
  apply left_move in E as E'. set (r' := move _ r) in *.
  rewrite (bind_eq _ _ r' r' r' eq_refl).
  assert ((Z.of_nat (length (data r')) - Z.of_nat (position r') <? Z.of_nat (length b)) = false) as ->.
  { apply Z.ltb_ge. pose proof (left_length b t r' E') as Hl. pose proof (left_length _ _ r E) as Hl2.
    assert (position r' <= length (data r'))%nat; [|lia].
    cbn [position data move].
    pose proof (varint_nonempty 9 (Z.of_nat (length b))) as Hne.
    assert (length (varint 10 (Z.of_nat (length b))) ≠ 0%nat) by (intros ?%nil_length_inv; done).
    unfold r', move. cbn [position data]. lia. }
  rewrite Nat2Z.id. fold (left r'). rewrite E', take_app_length.
  unfold put, mbind, M_bind, mret, M_ret. unfold r'. by rewrite move_move, <-length_app.
Qed.

Lemma reads_fixed32 b : all_bytes b → length b = 4%nat → reads readFixed32 b (Some (le_value b)).
Proof.
  intros Hb Hl. destruct b as [|b0 [|b1 [|b2 [|b3 []]]]]; try done. intros r t E.
  unfold readFixed32, remaining.
  rewrite (bind_eq _ _ r true r) by (unfold gets; by rewrite (left_remaining 4 _ _ _ E)).
  cbn [app] in E. rewrite (bind_eq _ _ _ _ _ (next_eq _ _ _ E)).
  apply (left_move [b0]) in E. rewrite (bind_eq _ _ _ _ _ (next_eq _ _ _ E)).
  apply (left_move [b1]) in E. rewrite (bind_eq _ _ _ _ _ (next_eq _ _ _ E)).
  apply (left_move [b2]) in E. rewrite (bind_eq _ _ _ _ _ (next_eq _ _ _ E)).
  rewrite !move_move. by rewrite word32_le.
Qed.

Lemma reads_skip_bytes b (n : nat) : length b = n → b ≠ [] → reads (skip_bytes n) b true.
Proof.
  intros Hl Hb r t E. unfold skip_bytes, remaining. subst n.
  by rewrite (bind_eq _ _ r true r) by (unfold gets; by rewrite (left_remaining _ _ _ _ E)).
Qed.
End readers.

(** * Messages as sequences of fields *)

Inductive wire :=
  | Varint (v : Z)
  | Fixed64 (b : list Z)
  | Bytes (b : list Z)
  | Fixed32 (b : list Z).

Definition wire_type (x : wire) : Z :=
  match x with Varint _ => WIRE_VARINT | Fixed64 _ => WIRE_FIXED64 | Bytes _ => WIRE_LENGTH_DELIMITED | Fixed32 _ => WIRE_FIXED32 end.

Definition wire_bytes (x : wire) : list Z :=
  match x with
  | Varint v => varint 10 v
  | Fixed64 b | Fixed32 b => b
  | Bytes b => varint 10 (Z.of_nat (length b)) ++ b
  end.

(** What can be sent in a field. *)
Definition wire_ok (x : wire) : Prop :=
  match x with
  | Varint v => unsigned 64 v
  | Fixed64 b => length b = 8%nat
  | Bytes b => Z.of_nat (length b) < 2^64
  | Fixed32 b => length b = 4%nat ∧ all_bytes b
  end.

Definition field : Type := Z * wire.
Definition field_ok (f : field) : Prop := 1 ≤ f.1 < 2^32 ∧ wire_ok f.2.
Definition field_bytes (f : field) : list Z := tag f.1 (wire_type f.2) ++ wire_bytes f.2.
Definition message (fs : list field) : list Z := flat_map field_bytes fs.

(** The effect of a field on a Data message; the last one of a number wins, others are
    ignored. *)
Definition apply_data (f : field) (d : MeshtasticData) : MeshtasticData :=
  let '(n, x) := f in
  match x with
  | Varint v =>
      if n =? 1 then {| port := u32 v; payload := payload d; wantResponse := wantResponse d; requestId := requestId d |}
      else if n =? 3 then {| port := port d; payload := payload d; wantResponse := negb (v =? 0); requestId := requestId d |}
      else d
  | Bytes b =>
      if n =? 2 then {| port := port d; payload := b; wantResponse := wantResponse d; requestId := requestId d |} else d
  | Fixed32 b =>
      if n =? 6 then {| port := port d; payload := payload d; wantResponse := wantResponse d; requestId := le_value b |}
      else d
  | Fixed64 _ => d
  end.
Definition is_port (f : field) : bool := match f with (n, Varint _) => n =? 1 | _ => false end.

Definition apply_user (f : field) (u : MeshtasticUser) : MeshtasticUser :=
  match f with
  | (n, Bytes b) =>
      if n =? 1 then {| userId := b; longName := longName u; shortName := shortName u |}
      else if n =? 2 then {| userId := userId u; longName := b; shortName := shortName u |}
      else if n =? 3 then {| userId := userId u; longName := longName u; shortName := b |}
      else u
  | _ => u
  end.

Section messages.
Implicit Types (f : field) (fs : list field) (d : MeshtasticData) (u : MeshtasticUser) (x : wire).

Lemma wire_type_ok x : unsigned 3 (wire_type x).
Proof. by destruct x. Qed.

Lemma reads_skip x : wire_ok x → reads (skip (wire_type x)) (wire_bytes x) true.
Proof.
  destruct x as [v|b|b|b]; intros Hx.
  - apply (reads_map readVarint is_some _ (Some v)). by apply reads_varint.
  - apply (reads_skip_bytes b 8); [exact Hx|by destruct b].
  - apply (reads_map readBytes is_some _ (Some b)). by apply reads_bytes.
  - destruct Hx as [Hl _]. apply (reads_skip_bytes b 4); [exact Hl|by destruct b].
Qed.

Lemma reads_data_field f d h :
  field_ok f → reads (data_field f.1 (wire_type f.2) d h) (wire_bytes f.2) (true, apply_data f d, (h || is_port f)%bool).
Proof.
  destruct f as [n x]. intros [Hn Hx]. simpl in Hn, Hx. cbn [fst snd].
  assert (∀ d' h', d' = d → h' = h →
    reads (ok ← skip (wire_type x); mret (ok, d, h)) (wire_bytes x) (true, d', h')) as Hskip.
  { intros d' h' -> ->. by apply (reads_map _ (λ ok, (ok, d, h)) _ true), reads_skip. }
  unfold data_field. destruct x as [v|b|b|b]; cbn [wire_type apply_data is_port] in *;
    cbv delta [WIRE_VARINT WIRE_FIXED64 WIRE_LENGTH_DELIMITED WIRE_FIXED32] in *; cbn [Z.eqb Pos.eqb];
    rewrite ?andb_true_r, ?andb_false_r, ?orb_false_r in *; cbn iota.
  - destruct (n =? 1); [|destruct (n =? 3); [|apply Hskip; by rewrite ?orb_false_r]].
    + rewrite orb_true_r. by eapply reads_map_eq; [apply reads_varint|].
    + rewrite orb_false_r. by eapply reads_map_eq; [apply reads_varint|].
  - by apply Hskip.
  - destruct (n =? 2); [|by apply Hskip]. by eapply reads_map_eq; [apply reads_bytes|].
  - destruct (n =? 6); [|by apply Hskip]. destruct Hx.
    by eapply reads_map_eq; [apply reads_fixed32|].
Qed.

Lemma reads_user_field f u :
  field_ok f → reads (user_field f.1 (wire_type f.2) u) (wire_bytes f.2) (true, apply_user f u).
Proof.
  destruct f as [n x]. intros [Hn Hx]. simpl in Hn, Hx. cbn [fst snd].
  assert (∀ u', u' = u → reads (ok ← skip (wire_type x); mret (ok, u)) (wire_bytes x) (true, u')) as Hskip.
  { intros u' ->. by apply (reads_map _ (λ ok, (ok, u)) _ true), reads_skip. }
  unfold user_field. destruct x as [v|b|b|b]; cbn [wire_type apply_user] in *;
    cbv delta [WIRE_VARINT WIRE_FIXED64 WIRE_LENGTH_DELIMITED WIRE_FIXED32] in *; cbn [Z.eqb Pos.eqb];
    rewrite ?andb_true_r, ?andb_false_r in *; cbn iota; try by apply Hskip.
  destruct ((1 <=? n) && (n <=? 3))%bool eqn:E.
  - replace (if n =? 1 then _ else if n =? 2 then _ else if n =? 3 then _ else u)
      with (if n =? 1 then {| userId := b; longName := longName u; shortName := shortName u |}
            else if n =? 2 then {| userId := userId u; longName := b; shortName := shortName u |}
            else {| userId := userId u; longName := longName u; shortName := b |})
      by (destruct (n =? 1) eqn:E1, (n =? 2) eqn:E2, (n =? 3) eqn:E3; done || lia).
    by eapply reads_map_eq; [apply reads_bytes|].
  - apply Hskip. by destruct (n =? 1) eqn:E1, (n =? 2) eqn:E2, (n =? 3) eqn:E3; done || lia.
Qed.

Lemma field_bytes_nonempty f : field_bytes f ≠ [].
Proof. unfold field_bytes. intros [E _]%app_eq_nil. by apply varint_nonempty in E. Qed.

Lemma decode_data_fields fs fuel d h r :
  Forall field_ok fs → left r = message fs → (length fs < fuel)%nat →
  ∃ r', decode_data_loop fuel d h r = Done (((h || existsb is_port fs)%bool, foldl (λ d f, apply_data f d) d fs), r').
Proof.
  intros Hfs. revert fuel d h r. induction Hfs as [|f fs Hf Hfs IH]; intros fuel d h r E Hfuel.
  - destruct fuel as [|fuel]; [lia|]. cbn [decode_data_loop]. exists r.
    rewrite (bind_eq _ _ r true r) by (unfold gets; by rewrite left_nil). by rewrite orb_false_r.
  - destruct fuel as [|fuel]; [simpl in Hfuel; lia|]. cbn [decode_data_loop]. cbn [message flat_map] in E.
    destruct (field_bytes f) as [|x l] eqn:Ef; [by apply field_bytes_nonempty in Ef|].
    destruct (left_cons _ _ _ E) as [_ He].
    rewrite (bind_eq _ _ r false r) by (unfold gets; by rewrite He).
    rewrite <-Ef in E. unfold field_bytes in E. rewrite <-app_assoc in E.
    rewrite (bind_eq _ _ _ _ _ (reads_field f.1 (wire_type f.2) (proj1 Hf) (wire_type_ok _) r _ E)).
    apply left_move in E. rewrite (bind_eq _ _ _ _ _ (reads_data_field f d h Hf _ _ E)). apply left_move in E.
    destruct (IH fuel (apply_data f d) (h || is_port f)%bool _ E) as (r' & Hr'); [simpl in Hfuel; lia|].
    exists r'. cbn iota beta. rewrite Hr'. simpl. by rewrite orb_assoc.
Qed.

Lemma decode_user_fields fs fuel u r :
  Forall field_ok fs → left r = message fs → (length fs < fuel)%nat →
  ∃ r', decode_user_loop fuel u r = Done ((true, foldl (λ u f, apply_user f u) u fs), r').
Proof.
  intros Hfs. revert fuel u r. induction Hfs as [|f fs Hf Hfs IH]; intros fuel u r E Hfuel.
  - destruct fuel as [|fuel]; [lia|]. cbn [decode_user_loop]. exists r.
    by rewrite (bind_eq _ _ r true r) by (unfold gets; by rewrite left_nil).
  - destruct fuel as [|fuel]; [simpl in Hfuel; lia|]. cbn [decode_user_loop]. cbn [message flat_map] in E.
    destruct (field_bytes f) as [|x l] eqn:Ef; [by apply field_bytes_nonempty in Ef|].
    destruct (left_cons _ _ _ E) as [_ He].
    rewrite (bind_eq _ _ r false r) by (unfold gets; by rewrite He).
    rewrite <-Ef in E. unfold field_bytes in E. rewrite <-app_assoc in E.
    rewrite (bind_eq _ _ _ _ _ (reads_field f.1 (wire_type f.2) (proj1 Hf) (wire_type_ok _) r _ E)).
    apply left_move in E. rewrite (bind_eq _ _ _ _ _ (reads_user_field f u Hf _ _ E)). apply left_move in E.
    destruct (IH fuel (apply_user f u) _ E) as (r' & Hr'); [simpl in Hfuel; lia|].
    exists r'. by cbn iota beta.
Qed.

Lemma length_message fs : (length fs <= length (message fs))%nat.
Proof.
  induction fs as [|f fs IH]; [done|]. cbn [message flat_map length]. rewrite length_app.
  destruct (field_bytes f) eqn:Ef; [by apply field_bytes_nonempty in Ef|]. simpl. fold (message fs). lia.
Qed.

Lemma decode_data_message fs :
  Forall field_ok fs →
  meshtastic_decode_data (message fs) = Done (existsb is_port fs, foldl (λ d f, apply_data f d) default_data fs).
Proof.
  intros Hfs. unfold meshtastic_decode_data. pose proof (length_message fs).
  destruct (decode_data_fields fs (S (length (message fs))) default_data false {| data := message fs; position := 0 |})
    as (r' & ->); [done|done|lia|done].
Qed.

Lemma decode_user_message fs :
  Forall field_ok fs →
  meshtastic_decode_user (message fs) = Done (true, foldl (λ u f, apply_user f u) default_user fs).
Proof.
  intros Hfs. unfold meshtastic_decode_user. pose proof (length_message fs).
  destruct (decode_user_fields fs (S (length (message fs))) default_user {| data := message fs; position := 0 |})
    as (r' & ->); [done|done|lia|done].
Qed.

(** The encoders write fields. *)
Definition data_message d : list field :=
  [(1, Varint (port d)); (2, Bytes (payload d))] ++
  (if wantResponse d then [(3, Varint 1)] else []) ++
  (if requestId d =? 0 then [] else [(6, Fixed32 (le_bytes 4 (requestId d)))]).
Definition user_message u : list field :=
  [(1, Bytes (userId u)); (2, Bytes (longName u)); (3, Bytes (shortName u)); (5, Varint 255)].

Lemma encode_data_message d : meshtastic_encode_data d = message (data_message d).
Proof.
  unfold meshtastic_encode_data, data_message, message, writeFixed32, writeBytes, writeTag, writeVarint.
  destruct (wantResponse d), (requestId d =? 0); cbn [app flat_map]; unfold field_bytes; cbn [fst snd wire_type wire_bytes];
    unfold tag; rewrite <-?app_assoc, ?app_nil_r; cbn [app]; by rewrite ?app_nil_r.
Qed.

Lemma encode_user_message u : meshtastic_encode_user u = message (user_message u).
Proof.
  unfold meshtastic_encode_user, user_message, message, writeString, writeBytes, writeTag, writeVarint.
  cbn [app flat_map]. unfold field_bytes. cbn [fst snd wire_type wire_bytes].
  unfold tag. rewrite <-?app_assoc, ?app_nil_r. by rewrite <-?app_assoc, ?app_nil_r.
Qed.
End messages.

(** * Arbitrary input *)

Section arbitrary.
Implicit Types (r : ProtobufReader).

Definition extends r r' : Prop :=
  data r' = data r ∧ (position r <= position r' <= length (data r))%nat.
Definition inside r : Prop := (position r <= length (data r))%nat.

(** Never reads past the end, and only moves forward. *)
Definition advances {A} (m : M ProtobufReader A) : Prop := ∀ r, inside r → wp m (λ _ r', extends r r') r.

Lemma extends_trans r1 r2 r3 : extends r1 r2 → extends r2 r3 → extends r1 r3.
Proof. intros [E1 ?] [E2 ?]. rewrite E1 in *. split; [done|lia]. Qed.
Lemma extends_inside r r' : extends r r' → inside r'.
Proof. intros [E ?]. unfold inside. rewrite E. lia. Qed.

Lemma wp_advances {A} (m : M ProtobufReader A) (Q : A → ProtobufReader → Prop) r :
  advances m → inside r → (∀ a r', extends r r' → inside r' → Q a r') → wp m Q r.
Proof.
  intros Hm Hr HQ. eapply wp_mono; [by apply Hm|]. intros a r' H'. cbv beta in H'.
  apply HQ; [done|by eapply extends_inside].
Qed.

Lemma advances_ret {A} (a : A) : advances (mret a).
Proof. intros r Hr. apply wp_ret. split; [done|]. unfold inside in Hr. lia. Qed.

Lemma advances_bind {A B} (m : M ProtobufReader A) (f : A → M ProtobufReader B) :
  advances m → (∀ a, advances (f a)) → advances (m ≫= f).
Proof.
  intros Hm Hf r Hr. apply wp_bind. apply wp_advances; [done..|]. intros a r1 H1 Hr1.
  apply wp_advances; [done..|]. intros b r2 H2 _. by eapply extends_trans.
Qed.

Lemma wp_next r : atEnd r = false → wp next (λ _ r', extends r r' ∧ (position r < position r')%nat) r.
Proof.
  unfold atEnd. intros He%Nat.leb_gt. destruct (lookup_lt_is_Some_2 _ _ He) as [b Hb].
  unfold next. apply wp_bind. eapply wp_deref; [exact Hb|]. apply wp_bind, wp_modify, wp_ret.
  unfold extends, move. simpl. split; [split; [done|lia]|lia].
Qed.

Lemma advances_varint_from f shift v : advances (readVarint_from f shift v).
Proof.
  revert shift v. induction f as [|f IH]; intros shift v; [apply advances_ret|].
  cbn [readVarint_from]. intros r Hr. apply wp_bind, wp_gets. apply wp_if; intros He; [by apply advances_ret|].
  apply wp_bind. eapply wp_mono; [by apply wp_next|]. intros b r1 [H1 _].
  pose proof (extends_inside _ _ H1).
  cbv zeta. apply wp_if; intros _; (apply wp_advances; [apply advances_ret || apply IH|done|]);
    intros ? r2 H2 _; by eapply extends_trans.
Qed.

Lemma readVarint_from_S f shift value :
  readVarint_from (S f) shift value =
    (e ← gets atEnd;
     if e : bool then mret None
     else
       byte ← next;
       let value := Z.lor value (u64 (Z.shiftl (Z.land byte 0x7F) shift)) in
       if Z.land byte 0x80 =? 0 then mret (Some value) else readVarint_from f (shift + 7) value).
Proof. done. Qed.

Lemma wp_readField r : inside r → atEnd r = false →
  wp readField (λ _ r', extends r r' ∧ (position r < position r')%nat) r.
Proof.
  intros Hr He. apply wp_bind. unfold readVarint. rewrite readVarint_from_S.
  apply wp_bind, wp_gets. rewrite He. apply wp_bind. eapply wp_mono; [by apply wp_next|].
  intros b r1 [H1 Hlt]. cbv zeta.
  assert (∀ m : M ProtobufReader (option Z), advances m →
    wp m (λ t r2, wp (mret (match t with
      | Some tag => if Z.shiftr tag 3 =? 0 then None else Some (u32 (Z.shiftr tag 3), Z.land tag 0x07)
      | None => None end)) (λ _ r', extends r r' ∧ (position r < position r')%nat) r2) r1) as Hk.
  { intros m Hm. apply wp_advances; [done|by eapply extends_inside|]. intros t r2 H2 _. apply wp_ret.
    split; [by eapply extends_trans|]. destruct H2 as [_ H2]. lia. }
  apply wp_if; intros _; apply Hk; [apply advances_ret|apply advances_varint_from].
Qed.

Lemma advances_readBytes : advances readBytes.
Proof.
  apply advances_bind; [apply advances_varint_from|]. intros t r Hr. apply wp_bind, wp_get.
  destruct t as [size|]; [|by apply advances_ret]. apply wp_if; intros Hs; [by apply advances_ret|].
  apply Z.ltb_ge in Hs. unfold inside in Hr. apply wp_bind, wp_put, wp_ret.
  unfold extends, move. simpl. split; [done|]. lia.
Qed.

Lemma advances_skip_bytes n : advances (skip_bytes n).
Proof.
  intros r Hr. apply wp_bind, wp_gets. apply wp_if; intros Hn; [|by apply advances_ret].
  apply Nat.leb_le in Hn. apply wp_bind, wp_modify, wp_ret. unfold extends, move. simpl. split; [done|lia].
Qed.

Lemma advances_readFixed32 : advances readFixed32.
Proof.
  intros r Hr. apply wp_bind, wp_gets. apply wp_if; intros Hn; [|by apply advances_ret]. apply Nat.leb_le in Hn.
  assert (∀ (m : nat) (k : Z → M ProtobufReader (option Z)),
    (∀ b r', extends r r' → position r' = (position r + S m)%nat → wp (k b) (λ _ r2, extends r r2) r') →
    ∀ r1, extends r r1 → position r1 = (position r + m)%nat → (m < 4)%nat → wp (b ← next; k b) (λ _ r2, extends r r2) r1) as Hstep.
  { intros m k Hk r1 H1 Hp Hm. assert (atEnd r1 = false) as He by (apply Nat.leb_gt; destruct H1 as [-> _]; lia).
    apply wp_bind. unfold next. apply wp_bind. apply Nat.leb_gt in He as He'.
    destruct (lookup_lt_is_Some_2 _ _ He') as [b Hb]. eapply wp_deref; [exact Hb|]. apply wp_bind, wp_modify, wp_ret.
    assert (extends r (move 1 r1)) as Hx by (destruct H1 as [E1 H1]; unfold extends, move; simpl; rewrite E1; split; [done|lia]).
    apply Hk; [done|]. unfold move. simpl. lia. }
  apply (Hstep 0%nat); [|split; [done|]; unfold inside in Hr; lia|lia|lia].
  intros b0 r1 H1 Hp1. apply (Hstep 1%nat); [|done|done|lia].
  intros b1 r2 H2 Hp2. apply (Hstep 2%nat); [|done|done|lia].
  intros b2 r3 H3 Hp3. apply (Hstep 3%nat); [|done|done|lia].
  intros b3 r4 H4 _. by apply wp_ret.
Qed.

Lemma advances_skip w : advances (skip w).
Proof.
  unfold skip. repeat match goal with |- advances (if ?b then _ else _) => destruct b end;
    try apply advances_skip_bytes; try apply advances_ret;
    (apply advances_bind; [|intros; apply advances_ret]).
  - apply advances_varint_from.
  - apply advances_readBytes.
Qed.

Lemma advances_data_field n w d h : advances (data_field n w d h).
Proof.
  unfold data_field. repeat match goal with |- advances (if ?b then _ else _) => destruct b end;
    (apply advances_bind; [|intros; apply advances_ret]).
  - apply advances_varint_from.
  - apply advances_readBytes.
  - apply advances_varint_from.
  - apply advances_readFixed32.
  - apply advances_skip.
Qed.

Lemma advances_user_field n w u : advances (user_field n w u).
Proof.
  unfold user_field. destruct (_ && _)%bool; (apply advances_bind; [|intros; apply advances_ret]).
  - apply advances_readBytes.
  - apply advances_skip.
Qed.

Lemma decode_data_total fuel d h r :
  inside r → (length (data r) - position r < fuel)%nat → wp (decode_data_loop fuel d h) (λ _ _, True) r.
Proof.
  revert d h r. induction fuel as [|fuel IH]; intros d h r Hr Hf; [lia|]. cbn [decode_data_loop].
  apply wp_bind, wp_gets. apply wp_if; intros He; [by apply wp_ret|].
  apply wp_bind. eapply wp_mono; [by apply wp_readField|]. intros [[n w]|] r1 [H1 Hlt]; [|by apply wp_ret].
  apply wp_bind, wp_advances; [apply advances_data_field|by eapply extends_inside|].
  intros [[ok d'] h'] r2 H2 Hr2. pose proof (extends_trans _ _ _ H1 H2) as H3.
  destruct ok; [|by apply wp_ret]. apply IH; [done|].
  destruct H2 as [_ H2], H3 as [E H3]. rewrite E. lia.
Qed.

Lemma decode_user_total fuel u r :
  inside r → (length (data r) - position r < fuel)%nat → wp (decode_user_loop fuel u) (λ _ _, True) r.
Proof.
  revert u r. induction fuel as [|fuel IH]; intros u r Hr Hf; [lia|]. cbn [decode_user_loop].
  apply wp_bind, wp_gets. apply wp_if; intros He; [by apply wp_ret|].
  apply wp_bind. eapply wp_mono; [by apply wp_readField|]. intros [[n w]|] r1 [H1 Hlt]; [|by apply wp_ret].
  apply wp_bind, wp_advances; [apply advances_user_field|by eapply extends_inside|].
  intros [ok u'] r2 H2 Hr2. pose proof (extends_trans _ _ _ H1 H2) as H3.
  destruct ok; [|by apply wp_ret]. apply IH; [done|].
  destruct H2 as [_ H2], H3 as [E H3]. rewrite E. lia.
Qed.
End arbitrary.

(** * Properties of the codec *)

(** C32: the decoders read every sequence of protobuf fields as protobuf defines it: the
    fields are applied in order, so that the last one of a number counts, fields of
    other numbers or wire types are ignored, and a Data message is accepted exactly if
    it has a port. *)
Theorem meshtastic_decode_fields fs :
  Forall field_ok fs →
  meshtastic_decode_data (message fs) = Done (existsb is_port fs, foldl (λ d f, apply_data f d) default_data fs) ∧
  meshtastic_decode_user (message fs) = Done (true, foldl (λ u f, apply_user f u) default_user fs).
Proof. intros Hfs. by rewrite decode_data_message, decode_user_message. Qed.

Lemma meshtastic_decode_fields_witness :
  let fs := [(9, Bytes [1; 2]); (1, Varint 300); (7, Fixed64 [0; 1; 2; 3; 4; 5; 6; 7]); (6, Fixed32 [1; 2; 0; 0]); (1, Varint 4)] in
  meshtastic_decode_data (message fs) = Done (true, {| port := 4; payload := []; wantResponse := false; requestId := 513 |}) ∧
  meshtastic_decode_user (message fs) = Done (true, default_user).
Proof.
  intros fs. apply (meshtastic_decode_fields fs).
  repeat constructor; simpl; lia.
Defined.

(** What the senders put in messages: a word for the port and the request, bytes. *)
Definition data_ok (d : MeshtasticData) : Prop :=
  unsigned 32 (port d) ∧ unsigned 32 (requestId d) ∧ Z.of_nat (length (payload d)) < 2^64.
Definition user_ok (u : MeshtasticUser) : Prop :=
  Z.of_nat (length (userId u)) < 2^64 ∧ Z.of_nat (length (longName u)) < 2^64 ∧ Z.of_nat (length (shortName u)) < 2^64.

(** Decoding what was encoded gives the same message. *)
Theorem meshtastic_codec_round_trip d u :
  data_ok d → user_ok u →
  meshtastic_decode_data (meshtastic_encode_data d) = Done (true, d) ∧
  meshtastic_decode_user (meshtastic_encode_user u) = Done (true, u).
Proof.
  intros (Hp & Hr & Hl) (H1 & H2 & H3). rewrite encode_data_message, encode_user_message.
  rewrite decode_data_message, decode_user_message.
  - split; [|by destruct u]. unfold data_message. destruct d as [p l w r]. simpl in *.
    assert (le_value (le_bytes 4 r) = r) as Hv by (rewrite le_value_bytes; by apply mod_unsigned).
    destruct (Z.eqb_spec r 0) as [->|Er], w;
      cbn [app existsb foldl apply_data is_port Z.eqb Pos.eqb port payload wantResponse requestId default_data negb];
      by rewrite ?u32_id, ?Hv by done.
  - unfold user_message. repeat constructor; simpl; try lia; done.
  - unfold data_message, unsigned in *. apply Forall_app. split; [|apply Forall_app; split].
    + repeat constructor; simpl; unfold unsigned; lia.
    + destruct (wantResponse d); repeat constructor; simpl; lia.
    + destruct (requestId d =? 0); [constructor|]. apply Forall_singleton. split; [done|].
      split; [apply length_le_bytes|apply all_bytes_le].
Qed.

Lemma meshtastic_codec_round_trip_witness :
  meshtastic_decode_data (meshtastic_encode_data {| port := 1; payload := [104; 105]; wantResponse := true; requestId := 2^31 |})
    = Done (true, {| port := 1; payload := [104; 105]; wantResponse := true; requestId := 2^31 |}) ∧
  meshtastic_decode_user (meshtastic_encode_user {| userId := [33]; longName := [65; 66]; shortName := [] |})
    = Done (true, {| userId := [33]; longName := [65; 66]; shortName := [] |}).
Proof. apply meshtastic_codec_round_trip; repeat split; simpl; lia. Defined.

(** Whatever bytes arrive, the decoders stop within as many fields as there are
    bytes, and never read past the end of the packet. *)
Theorem meshtastic_decode_total (b : list Z) :
  (∃ r, meshtastic_decode_data b = Done r) ∧ (∃ r, meshtastic_decode_user b = Done r).
Proof.
  unfold meshtastic_decode_data, meshtastic_decode_user. set (r := {| data := b; position := 0 |}).
  assert (inside r) as Hr by (unfold inside; simpl; lia).
  assert (length (data r) - position r < S (length b))%nat as Hf by (simpl; lia).
  split.
  - destruct (wp_done _ _ _ (decode_data_total _ default_data false r Hr Hf)) as (a & r' & -> & _). by exists a.
  - destruct (wp_done _ _ _ (decode_user_total _ default_user r Hr Hf)) as (a & r' & -> & _). by exists a.
Qed.

Definition header_ok (h : MeshtasticHeader) : Prop :=
  unsigned 32 (to h) ∧ unsigned 32 (from h) ∧ unsigned 32 (id h) ∧ unsigned 3 (hopLimit h) ∧ unsigned 3 (hopStart h) ∧
  is_byte (channelHash h) ∧ is_byte (nextHop h) ∧ is_byte (relayNode h).

(** The flags byte. *)
Definition flags (limit : Z) (ack mqtt : bool) (start : Z) : Z :=
  u8 (Z.lor (Z.lor (Z.lor (Z.land limit 0x07) (if ack then 0x08 else 0)) (if mqtt then 0x10 else 0)) (Z.shiftl (Z.land start 0x07) 5)).

Lemma flags_read limit ack mqtt start :
  unsigned 3 limit → unsigned 3 start →
  Z.land (flags limit ack mqtt start) 0x07 = limit ∧ negb (Z.land (flags limit ack mqtt start) 0x08 =? 0) = ack ∧
  negb (Z.land (flags limit ack mqtt start) 0x10 =? 0) = mqtt ∧ Z.land (Z.shiftr (flags limit ack mqtt start) 5) 0x07 = start.
Proof.
  intros Hl Hs.
  assert (∀ ack mqtt, forallb (λ l, forallb (λ s, let f := flags l ack mqtt s in
    ((Z.land f 0x07 =? l) && Bool.eqb (negb (Z.land f 0x08 =? 0)) ack && Bool.eqb (negb (Z.land f 0x10 =? 0)) mqtt &&
     (Z.land (Z.shiftr f 5) 0x07 =? s))%bool) (map Z.of_nat (seq 0 8))) (map Z.of_nat (seq 0 8)) = true) as Hall
    by (intros [] []; vm_compute; reflexivity).
  pose proof (byte_cases 8 _ (Hall ack mqtt) limit Hl) as H1. cbv beta in H1.
  pose proof (byte_cases 8 _ H1 start Hs) as H2. cbv beta zeta in H2. bsimpl.
  repeat match goal with H : Bool.eqb _ _ = true |- _ => apply Bool.eqb_prop in H end.
  split_and!; first [done|lia].
Qed.

Lemma flags_write f : is_byte f →
  flags (Z.land f 0x07) (negb (Z.land f 0x08 =? 0)) (negb (Z.land f 0x10 =? 0)) (Z.land (Z.shiftr f 5) 0x07) = f.
Proof.
  intros Hf. apply Z.eqb_eq. by apply (byte_cases 256 (λ f, flags (Z.land f 0x07) (negb (Z.land f 0x08 =? 0))
    (negb (Z.land f 0x10 =? 0)) (Z.land (Z.shiftr f 5) 0x07) =? f)); [vm_compute|].
Qed.

Lemma read_u32_at b offset w :
  take 4 (drop offset b) = w → length w = 4%nat → all_bytes w → read_u32 b offset = Some (le_value w).
Proof.
  intros E Hl Hw. destruct w as [|b0 [|b1 [|b2 [|b3 []]]]]; try done.
  assert (∀ i, (i < 4)%nat → b !! (offset + i)%nat = [b0; b1; b2; b3] !! i) as Hb.
  { intros i Hi. rewrite <-lookup_drop, <-E. by rewrite lookup_take_lt. }
  unfold read_u32. pose proof (Hb 0%nat) as Hb0. rewrite Nat.add_0_r in Hb0.
  rewrite Hb0, (Hb 1%nat), (Hb 2%nat), (Hb 3%nat) by lia. simpl. by rewrite word32_le.
Qed.

Lemma read_header_eq t f i fl ch nh rn :
  length t = 4%nat → length f = 4%nat → length i = 4%nat → all_bytes t → all_bytes f → all_bytes i →
  meshtastic_read_header (t ++ f ++ i ++ [fl; ch; nh; rn]) =
    Some {| to := le_value t; from := le_value f; id := le_value i;
            hopLimit := Z.land fl 0x07; wantAck := negb (Z.land fl 0x08 =? 0); viaMqtt := negb (Z.land fl 0x10 =? 0);
            hopStart := Z.land (Z.shiftr fl 5) 0x07; channelHash := ch; nextHop := nh; relayNode := rn |}.
Proof.
  intros Lt Lf Li Ht Hf Hi. set (b := t ++ f ++ i ++ _).
  assert (length b = 16%nat) as Hlen by (unfold b; rewrite !length_app; simpl; lia).
  unfold meshtastic_read_header. rewrite bool_decide_false by (unfold MESHTASTIC_HEADER_SIZE; lia).
  rewrite (read_u32_at b 0 t), (read_u32_at b 4 f), (read_u32_at b 8 i); try done.
  - destruct t as [|? [|? [|? [|? []]]]]; try done. destruct f as [|? [|? [|? [|? []]]]]; try done.
    by destruct i as [|? [|? [|? [|? []]]]].
  - unfold b. rewrite app_assoc, drop_app_length', take_app_length' by (rewrite ?length_app; lia). done.
  - unfold b. rewrite drop_app_length', take_app_length' by lia. done.
  - unfold b. rewrite drop_0, take_app_length' by lia. done.
Qed.

(** The header on the air and the header in memory are the same information: reading
    a written header gives it back, and writing a header that was read gives back its
    sixteen bytes. *)
Theorem meshtastic_header_round_trip h b :
  header_ok h → all_bytes b → length b = MESHTASTIC_HEADER_SIZE →
  meshtastic_read_header (meshtastic_write_header h) = Some h ∧
  ∃ h', header_ok h' ∧ meshtastic_read_header b = Some h' ∧ meshtastic_write_header h' = b.
Proof.
  intros (Ht & Hf & Hi & Hl & Hs & Hch & Hnh & Hrn) Hb Hlen. split.
  - unfold meshtastic_write_header. fold (flags (hopLimit h) (wantAck h) (viaMqtt h) (hopStart h)).
    rewrite read_header_eq by (apply length_le_bytes || apply all_bytes_le). rewrite !le_value_bytes.
    destruct (flags_read (hopLimit h) (wantAck h) (viaMqtt h) (hopStart h) Hl Hs) as (-> & -> & -> & ->).
    rewrite !mod_unsigned by done. by destruct h.
  - assert (∃ t f i fl ch nh rn, b = t ++ f ++ i ++ [fl; ch; nh; rn] ∧ length t = 4%nat ∧ length f = 4%nat ∧ length i = 4%nat)
      as (t & f & i & fl & ch & nh & rn & -> & Lt & Lf & Li).
    { do 16 (destruct b as [|? b]; [done|]). destruct b; [|done].
      match goal with |- context [?a0 :: ?a1 :: ?a2 :: ?a3 :: ?a4 :: ?a5 :: ?a6 :: ?a7 :: ?a8 :: ?a9 :: ?aa :: ?ab :: ?l] =>
        exists [a0; a1; a2; a3], [a4; a5; a6; a7], [a8; a9; aa; ab] end.
      by do 4 eexists. }
    rewrite !Forall_app in Hb. destruct Hb as (Bt & Bf & Bi & Bl). rewrite !Forall_cons in Bl.
    destruct Bl as (Bfl & Bch & Bnh & Brn & _).
    eexists. split; [|split; [by apply read_header_eq|]].
    + pose proof (unsigned_le_value t Bt) as Ut. pose proof (unsigned_le_value f Bf) as Uf.
      pose proof (unsigned_le_value i Bi) as Ui. rewrite Lt in Ut. rewrite Lf in Uf. rewrite Li in Ui.
      unfold header_ok. simpl. rewrite !(land_ones_mod 3) by lia. split_and!; try done; by apply unsigned_mod.
    + unfold meshtastic_write_header. cbn [to from id hopLimit wantAck viaMqtt hopStart channelHash nextHop relayNode].
      rewrite <-Lt at 1. rewrite le_bytes_value by done. rewrite <-Lf at 1. rewrite le_bytes_value by done.
      rewrite <-Li at 1. rewrite le_bytes_value by done. do 3 f_equal.
      change (flags (Z.land fl 0x07) (negb (Z.land fl 0x08 =? 0)) (negb (Z.land fl 0x10 =? 0)) (Z.land (Z.shiftr fl 5) 0x07)
        :: [ch; nh; rn] = [fl; ch; nh; rn]). by rewrite flags_write.
Qed.

Lemma meshtastic_header_round_trip_witness :
  let h := {| to := MESHTASTIC_BROADCAST; from := 0x12345678; id := 77; hopLimit := 3; wantAck := true; viaMqtt := false;
              hopStart := 5; channelHash := 8; nextHop := 0; relayNode := 255 |} in
  let b := [255; 255; 255; 255; 120; 86; 52; 18; 77; 0; 0; 0; 171; 8; 0; 255] in
  meshtastic_read_header (meshtastic_write_header h) = Some h ∧
  ∃ h', header_ok h' ∧ meshtastic_read_header b = Some h' ∧ meshtastic_write_header h' = b.
Proof.
  intros h b. apply (meshtastic_header_round_trip h b).
  - unfold header_ok, unsigned, h, MESHTASTIC_BROADCAST. simpl. lia.
  - unfold b, unsigned. repeat constructor; lia.
  - done.
Defined.

Lemma i32_id z : - 2^31 <= z < 2^31 → i32 z = Some z.
Proof. intros Hz. unfold i32. destruct ((- 2^31 <=? z) && (z <? 2^31))%bool eqn:E; [done|lia]. Qed.

(** C40: a channel's frequency is the centre of one of the slots of its bandwidth that the
    band is divided into, so the channel lies inside the band; the computation does not
    overflow. *)
Theorem meshtastic_channel_in_band (name : list Z) (bandStart bandEnd bandwidth : Z) :
  0 ≤ bandStart → bandEnd < 2^31 → 0 < bandwidth → bandStart + bandwidth ≤ bandEnd →
  ∃ slot f, meshtastic_channel_frequency name bandStart bandEnd bandwidth = Some f ∧
    0 ≤ slot < (bandEnd - bandStart) / bandwidth ∧
    f = (bandStart + slot * bandwidth) + bandwidth / 2 ∧
    bandStart ≤ f - bandwidth / 2 ∧ f - bandwidth / 2 + bandwidth ≤ bandEnd.
Proof.
  intros Hs He Hw Hband. set (n := (bandEnd - bandStart) / bandwidth).
  assert (0 < n) as Hn by (apply Z.div_str_pos; lia).
  assert (n * bandwidth ≤ bandEnd - bandStart) as Hnb by (rewrite Z.mul_comm; apply Z.mul_div_le; lia).
  set (slot := djb2 name mod n). assert (0 ≤ slot < n) as Hslot by (apply Z.mod_pos_bound; lia).
  assert (slot * bandwidth + bandwidth ≤ n * bandwidth) as Hsb by nia.
  assert (0 ≤ slot * bandwidth) as Hsb0 by nia.
  assert (0 ≤ bandwidth / 2 ≤ bandwidth) as Hhalf by (split; [apply Z.div_pos|apply Z.div_le_upper_bound]; lia).
  assert (n ≤ bandEnd - bandStart) as Hnn by nia.
  exists slot, (bandStart + bandwidth / 2 + slot * bandwidth). split_and!; [|lia..].
  unfold meshtastic_channel_frequency. rewrite (i32_id (bandEnd - bandStart)) by (clear -Hs He Hw Hband; lia).
  cbn [mbind option_bind]. rewrite (proj2 (Z.eqb_neq bandwidth 0)) by lia.
  rewrite !Z.quot_div_nonneg by lia. fold n. rewrite (i32_id n) by lia. cbn [mbind option_bind].
  rewrite (proj2 (Z.ltb_lt 0 n)) by lia. fold slot.
  rewrite (i32_id (bandStart + bandwidth / 2)) by lia. cbn [mbind option_bind].
  rewrite (i32_id (slot * bandwidth)) by lia. cbn [mbind option_bind]. by rewrite i32_id by lia.
Qed.

Lemma meshtastic_channel_in_band_witness :
  ∃ slot f, meshtastic_channel_frequency [76; 111; 110; 103] 902000000 928000000 250000 = Some f ∧
    0 ≤ slot < (928000000 - 902000000) / 250000 ∧ f = (902000000 + slot * 250000) + 250000 / 2 ∧
    902000000 ≤ f - 250000 / 2 ∧ f - 250000 / 2 + 250000 ≤ 928000000.
Proof. apply (meshtastic_channel_in_band [76; 111; 110; 103] 902000000 928000000 250000); lia. Defined.

(** Packets of different senders or with different ids are encrypted with different
    nonces: the cipher of a channel is never started twice from the same block. *)
Theorem meshtastic_nonce_unique id1 from1 id2 from2 :
  unsigned 32 id1 → unsigned 32 from1 → unsigned 32 id2 → unsigned 32 from2 →
  nonce id1 from1 = nonce id2 from2 → id1 = id2 ∧ from1 = from2.
Proof.
  intros H1 H2 H3 H4 E. unfold nonce in E.
  apply app_inj_1 in E as [E1 E]; [|by rewrite !length_le_bytes].
  apply app_inv_head in E. apply app_inj_1 in E as [E2 _]; [|by rewrite !length_le_bytes].
  apply (f_equal le_value) in E1, E2. rewrite !le_value_bytes in E1, E2.
  rewrite !mod_unsigned in E1, E2 by done. done.
Qed.

Lemma meshtastic_nonce_unique_witness : bool_decide (nonce 7 9 = nonce 7 10) = false.
Proof.
  apply bool_decide_eq_false. intros E.
  destruct (meshtastic_nonce_unique 7 9 7 10) as [_ ?]; [unfold unsigned; lia..|exact E|done].
Defined.
