(* ===== verification/MeshCore.v ===== *)
(** The MeshCore protocol of Modules/mesh-meshcore-module: packets (meshcore_packet.cpp),
    authenticated encryption (meshcore_crypto.cpp) and the messages inside packets
    (meshcore_protocol.cpp). *)

From S2P Require Import Prelude Bytes.

(** * Packets *)

Definition MESHCORE_MAX_PATH_SIZE : nat := 64.
Definition MESHCORE_MAX_PAYLOAD_SIZE : nat := 184.
Definition MESHCORE_PUBLIC_KEY_SIZE : nat := 32.
Definition MESHCORE_SIGNATURE_SIZE : nat := 64.
Definition MESHCORE_SECRET_SIZE : nat := 32.
Definition MESHCORE_CIPHER_KEY_SIZE : nat := 16.
Definition MESHCORE_CIPHER_MAC_SIZE : nat := 2.
Definition MESHCORE_CIPHER_BLOCK_SIZE : nat := 16.

(** [MeshCoreRoute] and [MeshCorePayload] are enumerations over [uint8_t]: packets carry
    any value of two and of four bits. *)
Definition TransportFlood : Z := 0.
Definition Flood : Z := 1.
Definition Direct : Z := 2.
Definition TransportDirect : Z := 3.
Definition Payload_TextMessage : Z := 2.
Definition Payload_Ack : Z := 3.
Definition Payload_Advert : Z := 4.
Definition Payload_GroupText : Z := 5.
Definition Payload_RawCustom : Z := 15.

(** The arrays [path] and [payload] are fixed: 64 and 184 bytes. *)
Record MeshCorePacket := {
  route : Z; payloadType : Z; payloadVersion : Z;
  transportCodes : Z * Z;
  pathLength : Z; pathHashSize : Z; path : list Z;
  payloadLength : Z; payload : list Z;
}.

(** [*packet = {}]. *)
Definition empty_packet : MeshCorePacket := {|
  route := Flood; payloadType := Payload_RawCustom; payloadVersion := 0; transportCodes := (0, 0);
  pathLength := 0; pathHashSize := 1; path := replicate MESHCORE_MAX_PATH_SIZE 0;
  payloadLength := 0; payload := replicate MESHCORE_MAX_PAYLOAD_SIZE 0 |}.

Definition hasTransportCodes (p : MeshCorePacket) : bool := ((route p =? TransportFlood) || (route p =? TransportDirect))%bool.
Definition pathBytes (p : MeshCorePacket) : Z := pathLength p * pathHashSize p.

Definition set_header (r t v : Z) (p : MeshCorePacket) : MeshCorePacket :=
  {| route := r; payloadType := t; payloadVersion := v; transportCodes := transportCodes p; pathLength := pathLength p;
     pathHashSize := pathHashSize p; path := path p; payloadLength := payloadLength p; payload := payload p |}.
Definition set_codes (c : Z * Z) (p : MeshCorePacket) : MeshCorePacket :=
  {| route := route p; payloadType := payloadType p; payloadVersion := payloadVersion p; transportCodes := c; pathLength := pathLength p;
     pathHashSize := pathHashSize p; path := path p; payloadLength := payloadLength p; payload := payload p |}.
Definition set_path_size (n h : Z) (p : MeshCorePacket) : MeshCorePacket :=
  {| route := route p; payloadType := payloadType p; payloadVersion := payloadVersion p; transportCodes := transportCodes p; pathLength := n;
     pathHashSize := h; path := path p; payloadLength := payloadLength p; payload := payload p |}.
Definition set_path (l : list Z) (p : MeshCorePacket) : MeshCorePacket :=
  {| route := route p; payloadType := payloadType p; payloadVersion := payloadVersion p; transportCodes := transportCodes p;
     pathLength := pathLength p; pathHashSize := pathHashSize p; path := l; payloadLength := payloadLength p; payload := payload p |}.
Definition set_payload (n : Z) (l : list Z) (p : MeshCorePacket) : MeshCorePacket :=
  {| route := route p; payloadType := payloadType p; payloadVersion := payloadVersion p; transportCodes := transportCodes p;
     pathLength := pathLength p; pathHashSize := pathHashSize p; path := path p; payloadLength := n; payload := l |}.

(** [memcpy(array + offset, source, length)]. *)
Definition copy_at (offset : nat) (source array : list Z) : list Z :=
  take offset array ++ source ++ drop (offset + length source) array.

(** Access to a frame and to the arrays: out of bounds is undefined behaviour. *)
Definition byte_at {S} (data : list Z) (i : nat) : M S Z := deref (λ _, data !! i).
Definition slice {S} (data : list Z) (offset n : nat) : M S (list Z) :=
  if (offset + n <=? length data)%nat then mret (take n (drop offset data)) else undef.

(** The rest of [meshcore_packet_parse], from the path byte on. *)
Definition parse_path_and_payload (data : list Z) (position : nat) : M MeshCorePacket bool :=
  if (length data <=? position)%nat then mret false
  else
    pathByte ← byte_at data position;
    let position := S position in
    modify (set_path_size (Z.land pathByte 0x3F) (Z.shiftr pathByte 6 + 1));;
    n ← gets pathBytes;
    if ((Z.of_nat MESHCORE_MAX_PATH_SIZE <? n) || (Z.of_nat (length data) <? Z.of_nat position + n))%bool then mret false
    else
      hops ← slice data position (Z.to_nat n);
      modify (λ p, set_path (copy_at 0 hops (path p)) p);;
      let position := (position + Z.to_nat n)%nat in
      let payloadLength := (length data - position)%nat in
      if (MESHCORE_MAX_PAYLOAD_SIZE <? payloadLength)%nat then mret false
      else
        rest ← slice data position payloadLength;
        modify (λ p, set_payload (u8 (Z.of_nat payloadLength)) (copy_at 0 rest (payload p)) p);;
        mret true.

Definition meshcore_packet_parse (data : list Z) : M MeshCorePacket bool :=
  if (length data <? 2)%nat then mret false
  else
    header ← byte_at data 0;
    modify (set_header (Z.land header 0x03) (Z.land (Z.shiftr header 2) 0x0F) (Z.land (Z.shiftr header 6) 0x03));;
    codes ← gets hasTransportCodes;
    if codes : bool then
      if (length data <? 5)%nat then mret false
      else
        a ← byte_at data 1; b ← byte_at data 2; c ← byte_at data 3; d ← byte_at data 4;
        modify (set_codes (word16 a b, word16 c d));;
        parse_path_and_payload data 5
    else parse_path_and_payload data 1.

(** The bytes written; none stands for the result 0. *)
Definition meshcore_packet_serialize (p : MeshCorePacket) (capacity : nat) : outcome (list Z) :=
  let n := pathBytes p in
  let needed := 1 + (if hasTransportCodes p then 4 else 0) + 1 + n + payloadLength p in
  if ((Z.of_nat capacity <? needed) || (Z.of_nat MESHCORE_MAX_PATH_SIZE <? n) || (pathHashSize p =? 0) || (4 <? pathHashSize p))%bool
  then Done []
  else
    let header := u8 (Z.lor (Z.lor (Z.land (route p) 0x03) (Z.shiftl (Z.land (payloadType p) 0x0F) 2))
                        (Z.shiftl (Z.land (payloadVersion p) 0x03) 6)) in
    let codes := if hasTransportCodes p then le_bytes 2 (transportCodes p).1 ++ le_bytes 2 (transportCodes p).2 else [] in
    let pathByte := u8 (Z.lor (Z.land (pathLength p) 0x3F) (Z.shiftl (pathHashSize p - 1) 6)) in
    match (hops ← slice (path p) 0 (Z.to_nat n); rest ← slice (payload p) 0 (Z.to_nat (payloadLength p)); mret (hops ++ rest)) tt with
    | Done (body, _) => Done ([header] ++ codes ++ [pathByte] ++ body)
    | Panic => Panic
    | Undef => Undef
    end.

(** * Cryptography *)

(** The PSA crypto library and the ed25519 library. *)
Class Crypto := {
  psa_mac : list Z → list Z → option (list Z);
  psa_encrypt : list Z → list Z → option (list Z);
  psa_decrypt : list Z → list Z → option (list Z);
  psa_sha256 : list Z → list Z;
  ed25519_sign : list Z → list Z → list Z → list Z;
  ed25519_verify : list Z → list Z → list Z → bool;
  ed25519_key_exchange : list Z → list Z → list Z;
}.

Section protocol.
Context `{Crypto}.

Definition hmac (secret data : list Z) : list Z := default (replicate 32 0) (psa_mac secret data).
Definition same_length (input : list Z) (o : option (list Z)) : option (list Z) :=
  output ← o; if Nat.eqb (length output) (length input) then Some output else None.
Definition aesEcb (secret : list Z) (encrypt : bool) (input : list Z) : option (list Z) :=
  let key := take MESHCORE_CIPHER_KEY_SIZE secret in
  same_length input (if encrypt then psa_encrypt key input else psa_decrypt key input).

Definition meshcore_sha256_pair (hash_size : nat) (first second : list Z) : list Z :=
  take hash_size (psa_sha256 (first ++ second)).
Definition meshcore_sha256 (hash_size : nat) (data : list Z) : list Z := meshcore_sha256_pair hash_size data [].

(** What is written to [destination]; [None] is the result 0. *)
Definition meshcore_encrypt_then_mac (secret source : list Z) : option (list Z) :=
  let blocks := ((length source + MESHCORE_CIPHER_BLOCK_SIZE - 1) / MESHCORE_CIPHER_BLOCK_SIZE)%nat in
  let encryptedLength := (blocks * MESHCORE_CIPHER_BLOCK_SIZE)%nat in
  if (256 <? encryptedLength)%nat then None
  else
    let padded := source ++ replicate (encryptedLength - length source) 0 in
    ciphertext ← aesEcb secret true padded;
    Some (take MESHCORE_CIPHER_MAC_SIZE (hmac secret ciphertext) ++ ciphertext).

(** [source] holds at least the [length] bytes when [length] is one of a packet. *)
Definition meshcore_mac_then_decrypt (secret source : list Z) (length : Z) : option (list Z) :=
  if length <=? Z.of_nat MESHCORE_CIPHER_MAC_SIZE then None
  else
    let ciphertextLength := length - Z.of_nat MESHCORE_CIPHER_MAC_SIZE in
    if negb (ciphertextLength mod Z.of_nat MESHCORE_CIPHER_BLOCK_SIZE =? 0) then None
    else
      let ciphertext := take (Z.to_nat ciphertextLength) (drop MESHCORE_CIPHER_MAC_SIZE source) in
      if bool_decide (take MESHCORE_CIPHER_MAC_SIZE (hmac secret ciphertext) = take MESHCORE_CIPHER_MAC_SIZE source)
      then aesEcb secret false ciphertext
      else None.

(** * Messages *)

Record MeshCoreIdentity := { publicKey : list Z; privateKey : list Z }.
Record MeshCoreChannel := { channel_hash : Z; secret : list Z }.
Record MeshCoreAdvert := { advert_key : list Z; advert_time : Z; advert_type : Z; advert_name : list Z }.
Record MeshCoreText := { timestamp : Z; flags : Z; content : list Z }.

Definition Chat : Z := 1.
Definition None_type : Z := 0.
Definition ADVERT_FLAG_LATLON : Z := 0x10.
Definition ADVERT_FLAG_FEATURE_1 : Z := 0x20.
Definition ADVERT_FLAG_FEATURE_2 : Z := 0x40.
Definition ADVERT_FLAG_NAME : Z := 0x80.
Definition ADVERT_FIXED_SIZE : nat := MESHCORE_PUBLIC_KEY_SIZE + 4 + MESHCORE_SIGNATURE_SIZE.
Definition TEXT_HEADER_SIZE : nat := 5.
Definition MAX_PLAINTEXT_SIZE : nat := 160.

Definition readU32 (data : list Z) : Z :=
  match data with a :: b :: c :: d :: _ => word32 a b c d | _ => 0 end.
Definition writeU32 (value : Z) : list Z := le_bytes 4 value.

Definition ackHashOf (plaintext senderPublicKey : list Z) : Z :=
  readU32 (meshcore_sha256_pair 4 plaintext senderPublicKey).

(** Up to the first NUL. *)
Fixpoint textFromPlaintext (plaintext : list Z) : list Z :=
  match plaintext with [] => [] | c :: l => if c =? 0 then [] else c :: textFromPlaintext l end.

Definition meshcore_packet_hash (p : MeshCorePacket) : Z :=
  readU32 (meshcore_sha256_pair 4 [payloadType p] (take (Z.to_nat (payloadLength p)) (payload p))).

Definition meshcore_channel_from_key (key : list Z) : MeshCoreChannel :=
  {| channel_hash := default 0 (head (meshcore_sha256 1 key)); secret := key ++ replicate 16 0 |}.
Definition meshcore_hashtag_channel_key (name : list Z) : list Z := meshcore_sha256 16 name.

Definition meshcore_shared_secret (identity : MeshCoreIdentity) (peerPublicKey : list Z) : list Z :=
  ed25519_key_exchange peerPublicKey (privateKey identity).

(** [packet.payload + offset, packet.payloadLength - offset]: the difference is of type
    [size_t]. *)
Definition payload_from (offset : nat) (p : MeshCorePacket) : list Z := drop offset (payload p).
Definition length_from (offset : nat) (p : MeshCorePacket) : Z := u32 (payloadLength p - Z.of_nat offset).

(** A fresh packet of type [t] with [body] as its payload. *)
Definition flood_packet (t : Z) (body : list Z) : MeshCorePacket :=
  let p := empty_packet in
  set_payload (u8 (Z.of_nat (length body))) (copy_at 0 body (payload p))
    (set_header Flood t (payloadVersion p) p).

(** [None] is the result [false]. *)
Definition meshcore_build_advert (identity : MeshCoreIdentity) (time : Z) (name : list Z) : option MeshCorePacket :=
  if (MESHCORE_MAX_PAYLOAD_SIZE <? ADVERT_FIXED_SIZE + 1 + length name)%nat then None
  else
    let fixed := publicKey identity ++ writeU32 time in
    let appData := Z.lor Chat ADVERT_FLAG_NAME :: name in
    let signature := ed25519_sign (fixed ++ appData) (publicKey identity) (privateKey identity) in
    Some (flood_packet Payload_Advert (fixed ++ signature ++ appData)).

Definition advert_name_position (f : Z) : nat :=
  (1 + (if (Z.land f ADVERT_FLAG_LATLON =? 0)%Z then 0 else 8) + (if (Z.land f ADVERT_FLAG_FEATURE_1 =? 0)%Z then 0 else 2) +
   (if (Z.land f ADVERT_FLAG_FEATURE_2 =? 0)%Z then 0 else 2))%nat.

Definition meshcore_parse_advert (p : MeshCorePacket) : option MeshCoreAdvert :=
  if (negb (payloadType p =? Payload_Advert) || (payloadLength p <? Z.of_nat ADVERT_FIXED_SIZE))%bool then None
  else
    let fixed := take (MESHCORE_PUBLIC_KEY_SIZE + 4) (payload p) in
    let signature := take MESHCORE_SIGNATURE_SIZE (drop (MESHCORE_PUBLIC_KEY_SIZE + 4) (payload p)) in
    let appData := take (Z.to_nat (payloadLength p) - ADVERT_FIXED_SIZE) (drop ADVERT_FIXED_SIZE (payload p)) in
    let key := take MESHCORE_PUBLIC_KEY_SIZE (payload p) in
    if negb (ed25519_verify signature (fixed ++ appData) key) then None
    else
      let time := readU32 (drop MESHCORE_PUBLIC_KEY_SIZE (payload p)) in
      match appData with
      | [] => Some {| advert_key := key; advert_time := time; advert_type := None_type; advert_name := [] |}
      | f :: _ =>
          let position := advert_name_position f in
          let name := if (negb (Z.land f ADVERT_FLAG_NAME =? 0) && (position <? length appData)%nat)%bool
                      then textFromPlaintext (drop position appData) else [] in
          Some {| advert_key := key; advert_time := time; advert_type := Z.land f 0x0F; advert_name := name |}
      end.

(** [snprintf(..., "%s: %s", senderName, text)] has to leave room for the terminator. *)
Definition meshcore_build_group_text (channel : MeshCoreChannel) (time : Z) (senderName text : list Z) : option MeshCorePacket :=
  let line := senderName ++ [58; 32] ++ text in
  if (MAX_PLAINTEXT_SIZE - TEXT_HEADER_SIZE <=? length line)%nat then None
  else
    encrypted ← meshcore_encrypt_then_mac (secret channel) (writeU32 time ++ [0] ++ line);
    Some (flood_packet Payload_GroupText (channel_hash channel :: encrypted)).

Definition text_of (plaintext : list Z) : option MeshCoreText :=
  if (length plaintext <? TEXT_HEADER_SIZE)%nat then None
  else Some {| timestamp := readU32 plaintext; flags := default 0 (plaintext !! 4%nat);
               content := textFromPlaintext (drop TEXT_HEADER_SIZE plaintext) |}.

Definition meshcore_parse_group_text (channel : MeshCoreChannel) (p : MeshCorePacket) : option MeshCoreText :=
  if (negb (payloadType p =? Payload_GroupText) ||
      (payloadLength p <? Z.of_nat (1 + MESHCORE_CIPHER_MAC_SIZE + MESHCORE_CIPHER_BLOCK_SIZE)) ||
      negb (default 0 (head (payload p)) =? channel_hash channel))%bool then None
  else
    plaintext ← meshcore_mac_then_decrypt (secret channel) (payload_from 1 p) (length_from 1 p);
    text_of plaintext.

(** The packet and the hash the recipient acknowledges with. *)
Definition meshcore_build_text_message (identity : MeshCoreIdentity) (peerPublicKey : list Z) (time attempt : Z)
    (text : list Z) : option (MeshCorePacket * Z) :=
  if (MAX_PLAINTEXT_SIZE <? TEXT_HEADER_SIZE + length text)%nat then None
  else
    let plaintext := writeU32 time ++ [Z.land attempt 0x03] ++ text in
    let ackHash := ackHashOf plaintext (publicKey identity) in
    let secret := meshcore_shared_secret identity peerPublicKey in
    encrypted ← meshcore_encrypt_then_mac secret plaintext;
    Some (flood_packet Payload_TextMessage
            ([default 0 (head peerPublicKey); default 0 (head (publicKey identity))] ++ encrypted), ackHash).

Definition meshcore_peek_text_message (p : MeshCorePacket) : option (Z * Z) :=
  if (negb (payloadType p =? Payload_TextMessage) ||
      (payloadLength p <? Z.of_nat (2 + MESHCORE_CIPHER_MAC_SIZE + MESHCORE_CIPHER_BLOCK_SIZE)))%bool then None
  else Some (default 0 (payload p !! 0%nat), default 0 (payload p !! 1%nat)).

Definition meshcore_parse_text_message (identity : MeshCoreIdentity) (peerPublicKey : list Z) (p : MeshCorePacket) :
    option (MeshCoreText * Z) :=
  let secret := meshcore_shared_secret identity peerPublicKey in
  plaintext ← meshcore_mac_then_decrypt secret (payload_from 2 p) (length_from 2 p);
  text ← text_of plaintext;
  Some (text, ackHashOf (take (TEXT_HEADER_SIZE + length (content text)) plaintext) peerPublicKey).

Definition meshcore_build_ack (ackHash : Z) : MeshCorePacket := flood_packet Payload_Ack (writeU32 ackHash).
Definition meshcore_parse_ack (p : MeshCorePacket) : option Z :=
  if (negb (payloadType p =? Payload_Ack) || (payloadLength p <? 4))%bool then None else Some (readU32 (payload p)).
End protocol.

(** * Contact URIs *)

Section uri.
Context (uriSize : nat).

Definition append (character : Z) (uri : list Z) : option (list Z) :=
  if (uriSize <=? length uri + 1)%nat then None else Some (uri ++ [character]).
Fixpoint appendText (t : list Z) (uri : list Z) : option (list Z) :=
  match t with [] => Some uri | c :: t' => uri ← append c uri; appendText t' uri end.

Definition HEX_DIGITS (d : Z) : Z := if d <? 10 then 48 + d else 87 + d.
Definition in_range (lo hi c : Z) : bool := ((lo <=? c) && (c <=? hi))%bool.
Definition unreserved (c : Z) : bool :=
  (in_range 97 122 c || in_range 65 90 c || in_range 48 57 c ||
   (c =? 45) || (c =? 46) || (c =? 95) || (c =? 126))%bool.

Definition append_encoded (byte : Z) (uri : list Z) : option (list Z) :=
  if unreserved byte then append byte uri
  else if byte =? 32 then append 43 uri
  else uri ← append 37 uri; uri ← append (HEX_DIGITS (Z.shiftr byte 4)) uri; append (HEX_DIGITS (Z.land byte 0x0F)) uri.
Fixpoint append_name (name : list Z) (uri : list Z) : option (list Z) :=
  match name with [] => Some uri | c :: n => uri ← append_encoded c uri; append_name n uri end.
Fixpoint append_key (key : list Z) (uri : list Z) : option (list Z) :=
  match key with
  | [] => Some uri
  | b :: k => uri ← append (HEX_DIGITS (Z.shiftr b 4)) uri; uri ← append (HEX_DIGITS (Z.land b 0x0F)) uri; append_key k uri
  end.

Definition bytes_of (s : text) : list Z := map (λ c, Z.of_nat (nat_of_ascii c)) s.
(** "%u" of a byte. *)
Definition decimal (n : Z) : list Z :=
  if n <? 10 then [48 + n] else if n <? 100 then [48 + n / 10; 48 + n mod 10]
  else [48 + n / 100; 48 + n / 10 mod 10; 48 + n mod 10].

(** The characters before the terminator, or [false]. *)
Definition meshcore_build_contact_uri (name publicKey : list Z) (type : Z) : option (list Z) :=
  uri ← appendText (bytes_of ($"meshcore://contact/add?name=")) [];
  uri ← append_name name uri;
  uri ← appendText (bytes_of ($"&public_key=")) uri;
  uri ← append_key publicKey uri;
  appendText (bytes_of ($"&type=") ++ decimal type) uri.
End uri.
