(* ===== verification/MeshCoreSpecs.v ===== *)
(** MeshCore packets and messages: both directions of the packet codec, what passes
    through encryption, and what the recipient of a message reads. *)

From S2P Require Import Prelude Bytes MeshCore.

(** * Lists and slices *)

Section slices.
Context {S : Type}.
Implicit Types (l hops rest : list Z) (n i : nat).

Lemma slice_eq l i n (s : S) : (i + n <= length l)%nat → slice l i n s = Done (take n (drop i l), s).
Proof. unfold slice. by intros ->%Nat.leb_le. Qed.

Lemma wp_slice l i n (Q : list Z → S → Prop) (s : S) :
  (i + n <= length l)%nat → Q (take n (drop i l)) s → wp (slice l i n) Q s.
Proof. intros Hl HQ. unfold wp. by rewrite slice_eq. Qed.

Lemma byte_at_eq l i b (s : S) : l !! i = Some b → byte_at l i s = Done (b, s).
Proof. unfold byte_at, deref. by intros ->. Qed.

Lemma length_copy_at l m : (length m <= length l)%nat → length (copy_at 0 m l) = length l.
Proof. intros Hl. unfold copy_at. rewrite !length_app, length_take, length_drop. lia. Qed.

Lemma take_copy_at l m : take (length m) (copy_at 0 m l) = m.
Proof. unfold copy_at. simpl. apply take_app_length. Qed.

Lemma all_bytes_copy_at l m : all_bytes m → all_bytes l → all_bytes (copy_at 0 m l).
Proof. intros Hm Hl. unfold copy_at. simpl. apply Forall_app. split; [done|by apply Forall_drop]. Qed.
End slices.

(** * The packet codec *)

(** The arrays of the structure. *)
Definition arrays (p : MeshCorePacket) : Prop :=
  length (path p) = MESHCORE_MAX_PATH_SIZE ∧ length (payload p) = MESHCORE_MAX_PAYLOAD_SIZE.

(** The information in a packet: the arrays count up to their lengths, the transport
    codes only with routes that have them. *)
Definition view (p : MeshCorePacket) : Z * Z * Z * option (Z * Z) * (Z * Z * list Z) * list Z :=
  (route p, payloadType p, payloadVersion p, (if hasTransportCodes p then Some (transportCodes p) else None),
   (pathLength p, pathHashSize p, take (Z.to_nat (pathBytes p)) (path p)),
   take (Z.to_nat (payloadLength p)) (payload p)).

Record packet_ok (p : MeshCorePacket) : Prop := {
  ok_arrays : arrays p;
  ok_route : unsigned 2 (route p);
  ok_type : unsigned 4 (payloadType p);
  ok_version : unsigned 2 (payloadVersion p);
  ok_codes : unsigned 16 (transportCodes p).1 ∧ unsigned 16 (transportCodes p).2;
  ok_hops : unsigned 6 (pathLength p);
  ok_hash_size : 1 ≤ pathHashSize p ≤ 4;
  ok_path : pathBytes p ≤ Z.of_nat MESHCORE_MAX_PATH_SIZE;
  ok_payload : 0 ≤ payloadLength p ≤ Z.of_nat MESHCORE_MAX_PAYLOAD_SIZE;
}.

Definition needed (p : MeshCorePacket) : Z :=
  1 + (if hasTransportCodes p then 4 else 0) + 1 + pathBytes p + payloadLength p.

Definition header_byte (r t v : Z) : Z :=
  u8 (Z.lor (Z.lor (Z.land r 0x03) (Z.shiftl (Z.land t 0x0F) 2)) (Z.shiftl (Z.land v 0x03) 6)).
Definition path_byte (n h : Z) : Z := u8 (Z.lor (Z.land n 0x3F) (Z.shiftl (h - 1) 6)).

Lemma header_byte_read r t v : unsigned 2 r → unsigned 4 t → unsigned 2 v →
  Z.land (header_byte r t v) 0x03 = r ∧ Z.land (Z.shiftr (header_byte r t v) 2) 0x0F = t ∧
  Z.land (Z.shiftr (header_byte r t v) 6) 0x03 = v.
Proof.
  intros Hr Ht Hv. assert (forallb (λ r, forallb (λ t, forallb (λ v, let h := header_byte r t v in
    ((Z.land h 0x03 =? r) && (Z.land (Z.shiftr h 2) 0x0F =? t) && (Z.land (Z.shiftr h 6) 0x03 =? v))%bool)
    (map Z.of_nat (seq 0 4))) (map Z.of_nat (seq 0 16))) (map Z.of_nat (seq 0 4)) = true) as H by (vm_compute; reflexivity).
  pose proof (byte_cases 4 _ H r Hr) as H1. cbv beta in H1.
  pose proof (byte_cases 16 _ H1 t Ht) as H2. cbv beta in H2.
  pose proof (byte_cases 4 _ H2 v Hv) as H3. cbv beta zeta in H3. bsimpl. lia.
Qed.

Lemma header_byte_write h : is_byte h →
  header_byte (Z.land h 0x03) (Z.land (Z.shiftr h 2) 0x0F) (Z.land (Z.shiftr h 6) 0x03) = h.
Proof.
  intros Hh. apply Z.eqb_eq. by apply (byte_cases 256 (λ h,
    header_byte (Z.land h 0x03) (Z.land (Z.shiftr h 2) 0x0F) (Z.land (Z.shiftr h 6) 0x03) =? h)); [vm_compute|].
Qed.

Lemma path_byte_read n h : unsigned 6 n → 1 ≤ h ≤ 4 →
  Z.land (path_byte n h) 0x3F = n ∧ Z.shiftr (path_byte n h) 6 + 1 = h.
Proof.
  intros Hn Hh. assert (forallb (λ n, forallb (λ k, let b := path_byte n (k + 1) in
    ((Z.land b 0x3F =? n) && (Z.shiftr b 6 =? k))%bool) (map Z.of_nat (seq 0 4))) (map Z.of_nat (seq 0 64)) = true) as H
    by (vm_compute; reflexivity).
  pose proof (byte_cases 64 _ H n Hn) as H1. cbv beta in H1.
  pose proof (byte_cases 4 _ H1 (h - 1) ltac:(lia)) as H2. cbv beta zeta in H2.
  replace (h - 1 + 1) with h in H2 by lia. bsimpl. lia.
Qed.

Lemma path_byte_write b : is_byte b → path_byte (Z.land b 0x3F) (Z.shiftr b 6 + 1) = b ∧ 1 ≤ Z.shiftr b 6 + 1 ≤ 4.
Proof.
  intros Hb. pose proof (byte_cases 256 (λ b, ((path_byte (Z.land b 0x3F) (Z.shiftr b 6 + 1) =? b) &&
    (1 <=? Z.shiftr b 6 + 1) && (Z.shiftr b 6 + 1 <=? 4))%bool) eq_refl b Hb) as H. cbv beta in H. bsimpl. lia.
Qed.

(** The packet after its path byte, hops and payload were read. *)
Definition with_body (b : Z) (hops rest : list Z) (p : MeshCorePacket) : MeshCorePacket :=
  set_payload (Z.of_nat (length rest)) (copy_at 0 rest (payload p))
    (set_path (copy_at 0 hops (path p)) (set_path_size (Z.land b 0x3F) (Z.shiftr b 6 + 1) p)).

Lemma parse_path_eq pre b hops rest p :
  Z.of_nat (length hops) = Z.land b 0x3F * (Z.shiftr b 6 + 1) →
  (length hops <= MESHCORE_MAX_PATH_SIZE)%nat → (length rest <= MESHCORE_MAX_PAYLOAD_SIZE)%nat →
  parse_path_and_payload (pre ++ b :: hops ++ rest) (length pre) p = Done (true, with_body b hops rest p).
Proof.
  intros Hh Hl Hr. unfold parse_path_and_payload. set (data := pre ++ b :: hops ++ rest).
  assert (length data = length pre + 1 + length hops + length rest)%nat as Hd
    by (unfold data; rewrite length_app; simpl; rewrite length_app; lia).
  rewrite (proj2 (Nat.leb_gt _ _)) by lia.
  rewrite (bind_eq _ _ _ b p) by (apply byte_at_eq; unfold data; by apply list_lookup_middle).
  rewrite (bind_eq _ _ p tt (set_path_size (Z.land b 0x3F) (Z.shiftr b 6 + 1) p) eq_refl).
  set (p1 := set_path_size _ _ p). assert (pathBytes p1 = Z.of_nat (length hops)) as Hn by (unfold pathBytes; simpl; lia).
  rewrite (bind_eq _ _ p1 (Z.of_nat (length hops)) p1) by (unfold gets; by rewrite Hn).
  rewrite (proj2 (Z.ltb_ge _ _)), (proj2 (Z.ltb_ge _ _)) by lia. cbn [orb]. rewrite Nat2Z.id.
  assert (take (length hops) (drop (S (length pre)) data) = hops) as Hhops.
  { unfold data. rewrite cons_middle, app_assoc, drop_app_length' by (rewrite length_app; simpl; lia). apply take_app_length. }
  assert (drop (S (length pre) + length hops) data = rest) as Hrest.
  { unfold data. rewrite cons_middle, !app_assoc, drop_app_length'; [done|]. rewrite !length_app. simpl. lia. }
  rewrite (bind_eq _ _ _ hops p1) by (rewrite slice_eq by lia; by rewrite Hhops).
  rewrite (bind_eq _ _ p1 tt (set_path (copy_at 0 hops (path p1)) p1) eq_refl). cbv zeta.
  rewrite (proj2 (Nat.ltb_ge _ _)) by lia.
  replace (length data - (S (length pre) + length hops))%nat with (length rest) by lia.
  rewrite (bind_eq _ _ _ rest (set_path (copy_at 0 hops (path p1)) p1)).
  - unfold modify, mbind, M_bind, mret, M_ret, with_body. rewrite u8_id; [done|].
    unfold unsigned, MESHCORE_MAX_PAYLOAD_SIZE in *. lia.
  - rewrite slice_eq by lia. by rewrite Hrest, firstn_all.
Qed.

(** The other direction, with the bounds: from any position of any frame. *)
Lemma wp_parse_path data position p :
  all_bytes data → arrays p →
  wp (parse_path_and_payload data position) (λ ok q, arrays q ∧
    (ok = true → ∃ b hops rest, drop position data = b :: hops ++ rest ∧ is_byte b ∧
       Z.of_nat (length hops) = Z.land b 0x3F * (Z.shiftr b 6 + 1) ∧ (length hops <= MESHCORE_MAX_PATH_SIZE)%nat ∧
       (length rest <= MESHCORE_MAX_PAYLOAD_SIZE)%nat ∧ q = with_body b hops rest p)) p.
Proof.
  intros Hb [Hp1 Hp2]. unfold parse_path_and_payload. apply wp_if; intros Hpos; [by apply wp_ret|].
  apply Nat.leb_gt in Hpos. destruct (lookup_lt_is_Some_2 _ _ Hpos) as [b Eb].
  assert (is_byte b) as Bb by (by eapply Forall_lookup_1).
  apply wp_bind. eapply wp_deref; [exact Eb|]. apply wp_bind, wp_modify. apply wp_bind, wp_gets.
  set (p1 := set_path_size _ _ p).
  apply wp_if; intros Hn; [by apply wp_ret|]. apply orb_false_iff in Hn as [Hn1%Z.ltb_ge Hn2%Z.ltb_ge].
  assert (0 ≤ pathBytes p1) as Hn0.
  { unfold pathBytes, p1. simpl. pose proof (path_byte_write b Bb) as [_ ?].
    apply Z.mul_nonneg_nonneg; [|lia]. apply Z.land_nonneg. right. lia. }
  apply wp_bind, wp_slice; [lia|].
  set (hops := take _ _). assert (length hops = Z.to_nat (pathBytes p1)) as Hl.
  { unfold hops. rewrite length_take, length_drop. lia. }
  apply wp_bind, wp_modify. set (p2 := set_path _ p1).
  assert (arrays p2) as Ha2.
  { split; [|done]. unfold p2. simpl. rewrite length_copy_at; [done|]. rewrite Hl, Hp1. lia. }
  apply wp_if; intros Hr; [by apply wp_ret|]. apply Nat.ltb_ge in Hr.
  set (n := (length data - _)%nat) in *. apply wp_bind, wp_slice; [lia|].
  rewrite take_ge by (rewrite length_drop; unfold n; lia). set (rest := drop _ data).
  assert (length rest = n) as Hrl by (unfold rest; rewrite length_drop; unfold n; lia).
  apply wp_bind, wp_modify, wp_ret. split.
  - destruct Ha2 as [Ha2 Ha3]. split; [done|]. simpl. rewrite length_copy_at; [done|]. rewrite Hrl, Hp2. lia.
  - intros _. exists b, hops, rest. split_and!; [|done| |lia|lia|].
    + apply drop_S in Eb as ->. f_equal. unfold hops, rest. rewrite <-drop_drop. symmetry. apply take_drop.
    + rewrite Hl. unfold pathBytes, p1 in Hn0 |- *. simpl in Hn0 |- *. lia.
    + unfold with_body. rewrite <-Hrl, u8_id; [done|]. unfold unsigned, MESHCORE_MAX_PAYLOAD_SIZE in *. lia.
Qed.

Definition codes_bytes (p : MeshCorePacket) : list Z :=
  if hasTransportCodes p then le_bytes 2 (transportCodes p).1 ++ le_bytes 2 (transportCodes p).2 else [].
Definition hops_of (p : MeshCorePacket) : list Z := take (Z.to_nat (pathBytes p)) (path p).
Definition rest_of (p : MeshCorePacket) : list Z := take (Z.to_nat (payloadLength p)) (payload p).
Definition frame (p : MeshCorePacket) : list Z :=
  header_byte (route p) (payloadType p) (payloadVersion p) :: codes_bytes p ++
  path_byte (pathLength p) (pathHashSize p) :: hops_of p ++ rest_of p.

Lemma pathBytes_pos p : packet_ok p → 0 ≤ pathBytes p.
Proof. intros Hp. destruct (ok_hops p Hp), (ok_hash_size p Hp). unfold pathBytes. nia. Qed.

Lemma length_hops p : packet_ok p → Z.of_nat (length (hops_of p)) = pathBytes p.
Proof.
  intros Hp. pose proof (pathBytes_pos p Hp). pose proof (ok_path p Hp). destruct (ok_arrays p Hp) as [Ha _].
  unfold hops_of. rewrite length_take, Ha. lia.
Qed.
Lemma length_rest p : packet_ok p → Z.of_nat (length (rest_of p)) = payloadLength p.
Proof.
  intros Hp. pose proof (ok_payload p Hp). destruct (ok_arrays p Hp) as [_ Ha].
  unfold rest_of. rewrite length_take, Ha. lia.
Qed.

Lemma length_frame p : packet_ok p → Z.of_nat (length (frame p)) = needed p.
Proof.
  intros Hp. pose proof (length_hops p Hp). pose proof (length_rest p Hp). unfold frame, needed, codes_bytes.
  destruct (hasTransportCodes p); cbn [length app]; rewrite !length_app; cbn [length]; rewrite ?length_app, ?length_le_bytes; lia.
Qed.

Lemma serialize_eq p capacity :
  packet_ok p → needed p ≤ Z.of_nat capacity → meshcore_packet_serialize p capacity = Done (frame p).
Proof.
  intros Hp Hc. pose proof (pathBytes_pos p Hp). pose proof (ok_path p Hp). pose proof (ok_hash_size p Hp).
  pose proof (ok_payload p Hp). destruct (ok_arrays p Hp) as [Ha Hb].
  unfold meshcore_packet_serialize. fold (needed p).
  rewrite (proj2 (Z.ltb_ge _ _)), (proj2 (Z.ltb_ge _ _)), (proj2 (Z.eqb_neq _ _)), (proj2 (Z.ltb_ge _ _)) by lia.
  cbn [orb]. rewrite (bind_eq _ _ tt (hops_of p) tt) by (apply slice_eq; lia).
  by rewrite (bind_eq _ _ tt (rest_of p) tt) by (apply slice_eq; lia).
Qed.

(** A packet survives the air: serialized into a buffer that is large enough it takes
    exactly the bytes its fields need, and parsing those bytes, into whatever packet
    structure, yields the same route, type, version, transport codes, path and payload. *)
Theorem meshcore_packet_round_trip p capacity p0 :
  packet_ok p → needed p ≤ Z.of_nat capacity → arrays p0 →
  ∃ data p', meshcore_packet_serialize p capacity = Done data ∧ Z.of_nat (length data) = needed p ∧
    meshcore_packet_parse data p0 = Done (true, p') ∧ view p' = view p.
Proof.
  intros Hp Hc [Ha0 Hb0]. pose proof (length_hops p Hp) as Hh. pose proof (length_rest p Hp) as Hr.
  pose proof (pathBytes_pos p Hp). pose proof (ok_path p Hp). pose proof (ok_payload p Hp).
  destruct (header_byte_read _ _ _ (ok_route p Hp) (ok_type p Hp) (ok_version p Hp)) as (R1 & R2 & R3).
  destruct (path_byte_read _ _ (ok_hops p Hp) (ok_hash_size p Hp)) as [R4 R5].
  set (hd := header_byte _ _ _) in *. set (pb := path_byte _ _) in *.
  assert (Z.of_nat (length (hops_of p)) = Z.land pb 0x3F * (Z.shiftr pb 6 + 1)) as Hhops by (rewrite R4, R5; done).
  set (p1 := set_header (route p) (payloadType p) (payloadVersion p) p0).
  assert (hasTransportCodes p1 = hasTransportCodes p) as Ht by done.
  assert (∀ q, route q = route p → payloadType q = payloadType p → payloadVersion q = payloadVersion p →
    (hasTransportCodes p = true → transportCodes q = transportCodes p) →
    view (with_body pb (hops_of p) (rest_of p) q) = view p) as Hview.
  { intros q Q1 Q2 Q3 Q4. unfold view, with_body, hasTransportCodes, pathBytes. simpl. rewrite R4, R5, Q1, Q2, Q3.
    fold (pathBytes p). fold (hasTransportCodes p). fold (hops_of p) (rest_of p).
    rewrite Nat2Z.id, take_copy_at. rewrite <-Hh, Nat2Z.id, take_copy_at.
    destruct (hasTransportCodes p) eqn:E; [by rewrite Q4|done]. }
  exists (frame p). unfold frame. fold hd pb. destruct (hasTransportCodes p) eqn:Htc.
  - set (c := transportCodes p) in *. destruct (ok_codes p Hp) as [Hc1 Hc2]. fold c in Hc1, Hc2.
    exists (with_body pb (hops_of p) (rest_of p) (set_codes c p1)). split; [by apply serialize_eq|].
    split; [by apply length_frame|]. split; [|by apply Hview].
    unfold codes_bytes. rewrite Htc. fold c.
    assert (∀ z, le_bytes 2 z = [u8 z; u8 (z / 2^8)]) as Hle by (intros z; by rewrite !le_bytes_S).
    assert (∀ z, unsigned 16 z → word16 (u8 z) (u8 (z / 2^8)) = z) as Hw.
    { intros z Hz. rewrite word16_le, <-Hle by (repeat constructor; apply u8_byte). rewrite le_value_bytes. by apply mod_unsigned. }
    rewrite !Hle. cbn [app]. set (body := hops_of p ++ rest_of p).
    unfold meshcore_packet_parse. rewrite (proj2 (Nat.ltb_ge _ _)) by (simpl; lia).
    rewrite (bind_eq _ _ _ hd p0) by done. rewrite R1, R2, R3. rewrite (bind_eq (modify (set_header _ _ _)) _ p0 tt p1) by done.
    rewrite (bind_eq _ _ p1 true p1) by (unfold gets; by rewrite Ht).
    rewrite (proj2 (Nat.ltb_ge _ _)) by (simpl; lia).
    do 4 (erewrite bind_eq by by apply byte_at_eq). rewrite !Hw by done.
    rewrite (bind_eq (modify (set_codes _)) _ p1 tt (set_codes (c.1, c.2) p1)) by done. rewrite <-surjective_pairing.
    apply (parse_path_eq [hd; u8 c.1; u8 (c.1 / 2^8); u8 c.2; u8 (c.2 / 2^8)]); lia.
  - exists (with_body pb (hops_of p) (rest_of p) p1). split; [by apply serialize_eq|].
    split; [by apply length_frame|]. split; [|by apply Hview].
    unfold codes_bytes. rewrite Htc. cbn [app].
    unfold meshcore_packet_parse. rewrite (proj2 (Nat.ltb_ge _ _)) by (simpl; lia).
    rewrite (bind_eq _ _ _ hd p0) by done. rewrite R1, R2, R3. rewrite (bind_eq (modify (set_header _ _ _)) _ p0 tt p1) by done.
    rewrite (bind_eq _ _ p1 false p1) by (unfold gets; by rewrite Ht).
    apply (parse_path_eq [hd]); lia.
Qed.

Lemma meshcore_packet_round_trip_witness :
  let p := set_payload 3 (copy_at 0 [1; 2; 3] (payload empty_packet)) (set_path (copy_at 0 [9; 8; 7; 6] (path empty_packet))
    (set_path_size 2 2 (set_codes (0x1234, 0xABCD) (set_header TransportDirect Payload_Ack 1 empty_packet)))) in
  ∃ data p', meshcore_packet_serialize p 255 = Done data ∧ Z.of_nat (length data) = needed p ∧
    meshcore_packet_parse data empty_packet = Done (true, p') ∧ view p' = view p.
Proof.
  intros p. apply (meshcore_packet_round_trip p 255 empty_packet); [|done|done].
  split; try done; unfold unsigned; vm_compute; repeat split; congruence.
Defined.

Lemma frame_with_body b hops rest q :
  is_byte b → Z.of_nat (length hops) = Z.land b 0x3F * (Z.shiftr b 6 + 1) →
  frame (with_body b hops rest q) =
    header_byte (route q) (payloadType q) (payloadVersion q) :: codes_bytes q ++ b :: hops ++ rest.
Proof.
  intros Hb Hh. unfold frame. destruct (path_byte_write b Hb) as [Hw _]. f_equal.
  assert (codes_bytes (with_body b hops rest q) = codes_bytes q) as -> by done. f_equal. f_equal; [exact Hw|].
  f_equal.
  - unfold hops_of. assert (pathBytes (with_body b hops rest q) = Z.of_nat (length hops)) as -> by (unfold pathBytes; simpl; lia).
    rewrite Nat2Z.id. apply take_copy_at.
  - unfold rest_of, with_body. simpl. rewrite Nat2Z.id. apply take_copy_at.
Qed.

Lemma packet_ok_with_body b hops rest q :
  arrays q → unsigned 2 (route q) → unsigned 4 (payloadType q) → unsigned 2 (payloadVersion q) →
  unsigned 16 (transportCodes q).1 ∧ unsigned 16 (transportCodes q).2 →
  is_byte b → Z.of_nat (length hops) = Z.land b 0x3F * (Z.shiftr b 6 + 1) →
  (length hops <= MESHCORE_MAX_PATH_SIZE)%nat → (length rest <= MESHCORE_MAX_PAYLOAD_SIZE)%nat →
  packet_ok (with_body b hops rest q).
Proof.
  intros [Ha1 Ha2] Hr Ht Hv Hc Hb Hh Hl1 Hl2. destruct (path_byte_write b Hb) as [_ Hs].
  split; try done; try (unfold pathBytes; simpl; lia).
  - split; simpl; rewrite length_copy_at; lia.
  - simpl. rewrite (land_ones_mod 6) by lia. by apply unsigned_mod.
Qed.

(** A structure whose members are values of their types. *)
Definition struct_ok (p : MeshCorePacket) : Prop :=
  arrays p ∧ unsigned 16 (transportCodes p).1 ∧ unsigned 16 (transportCodes p).2.

Lemma header_fields h : unsigned 2 (Z.land h 0x03) ∧ unsigned 4 (Z.land (Z.shiftr h 2) 0x0F) ∧ unsigned 2 (Z.land (Z.shiftr h 6) 0x03).
Proof. rewrite !(land_ones_mod 2), (land_ones_mod 4) by lia. split_and!; by apply unsigned_mod. Qed.

(** What is left after the header and the transport codes. *)
Lemma wp_parse_tail pre data p :
  all_bytes data → struct_ok p → unsigned 2 (route p) → unsigned 4 (payloadType p) → unsigned 2 (payloadVersion p) →
  take (length pre) data = pre → pre = header_byte (route p) (payloadType p) (payloadVersion p) :: codes_bytes p →
  wp (parse_path_and_payload data (length pre)) (λ ok q, ok = true → packet_ok q ∧ frame q = data) p.
Proof.
  intros Hb [Ha Hc] Hr Ht Hv Hpre Ep. eapply wp_mono; [by apply wp_parse_path|].
  intros ok q [_ Hq] Hok. destruct (Hq Hok) as (b & hops & rest & Ed & Bb & Hh & Hl1 & Hl2 & ->).
  split; [by apply packet_ok_with_body|]. rewrite frame_with_body by done.
  rewrite <-(take_drop (length pre) data), Hpre, Ed, Ep. done.
Qed.

Lemma all_bytes_2 x y : is_byte x → is_byte y → all_bytes [x; y].
Proof. intros Hx Hy. by apply Forall_cons; split; [|apply Forall_singleton]. Qed.

Lemma take_lookup_S (l pre : list Z) n x : take n l = pre → l !! n = Some x → take (S n) l = pre ++ [x].
Proof. intros <- Hx. by apply take_S_r. Qed.

(** C30: parsing is defined on every frame of bytes: it never reads outside the frame and
    never overruns the packet's arrays. What it accepts it has read completely: the packet
    is well formed, and relaying it sends exactly the bytes that were received. *)
Theorem meshcore_relay_same_bytes (data : list Z) (p0 : MeshCorePacket) :
  all_bytes data → struct_ok p0 →
  ∃ ok p, meshcore_packet_parse data p0 = Done (ok, p) ∧
    (ok = true → packet_ok p ∧ meshcore_packet_serialize p (length data) = Done data).
Proof.
  intros Hb [[Ha1 Ha2] Hc].
  assert (wp (meshcore_packet_parse data) (λ ok q, ok = true → packet_ok q ∧ frame q = data) p0) as Hwp.
  { unfold meshcore_packet_parse. apply wp_if; intros Hl; [by apply wp_ret|]. apply Nat.ltb_ge in Hl.
    destruct (lookup_lt_is_Some_2 data 0 ltac:(lia)) as [h Eh]. assert (is_byte h) as Bh by by eapply Forall_lookup_1.
    destruct (header_fields h) as (Hr & Ht & Hv).
    apply wp_bind. eapply wp_deref; [exact Eh|]. apply wp_bind, wp_modify. apply wp_bind, wp_gets.
    set (p1 := set_header _ _ _ p0).
    pose proof (take_lookup_S data [] 0 h eq_refl Eh) as E1. cbn [app] in E1.
    pose proof (header_byte_write h Bh) as Hw.
    apply wp_if; intros Htc.
    - apply wp_if; intros Hl5; [by apply wp_ret|]. apply Nat.ltb_ge in Hl5.
      destruct (lookup_lt_is_Some_2 data 1 ltac:(lia)) as [a Ea], (lookup_lt_is_Some_2 data 2 ltac:(lia)) as [b Eb],
        (lookup_lt_is_Some_2 data 3 ltac:(lia)) as [c Ec], (lookup_lt_is_Some_2 data 4 ltac:(lia)) as [d Ed].
      assert (is_byte a ∧ is_byte b ∧ is_byte c ∧ is_byte d) as (Ba & Bb & Bc & Bd)
        by (split_and!; by eapply (Forall_lookup_1 is_byte data)).
      pose proof (take_lookup_S _ _ _ _ E1 Ea) as E2. pose proof (take_lookup_S _ _ _ _ E2 Eb) as E3.
      pose proof (take_lookup_S _ _ _ _ E3 Ec) as E4. pose proof (take_lookup_S _ _ _ _ E4 Ed) as E5. cbn [app] in E5.
      do 4 (apply wp_bind; eapply wp_deref; [eassumption|]). apply wp_bind, wp_modify.
      rewrite !word16_le by by apply all_bytes_2.
      assert (∀ x y, is_byte x → is_byte y → unsigned 16 (le_value [x; y]) ∧ le_bytes 2 (le_value [x; y]) = [x; y]) as Hle.
      { intros x y Hx Hy. pose proof (all_bytes_2 x y Hx Hy) as Hxy.
        split; [by apply (unsigned_le_value [x; y])|by apply (le_bytes_value [x; y])]. }
      destruct (Hle a b Ba Bb) as [U1 L1], (Hle c d Bc Bd) as [U2 L2].
      apply (wp_parse_tail [h; a; b; c; d]); try done.
      unfold codes_bytes. set (cs := (le_value [a; b], le_value [c; d])).
      change (hasTransportCodes (set_codes cs p1)) with (hasTransportCodes p1). rewrite Htc.
      change (transportCodes (set_codes cs p1)) with cs. unfold cs. cbn [fst snd]. rewrite L1, L2. cbn [app]. f_equal. symmetry. exact Hw.
    - apply (wp_parse_tail [h]); try done. unfold codes_bytes. rewrite Htc. f_equal. symmetry. exact Hw. }
  apply wp_done in Hwp as (ok & p & Hp & Hok). exists ok, p. split; [done|]. intros Ht. destruct (Hok Ht) as [Hpk Hf].
  split; [done|]. rewrite <-Hf at 2. apply serialize_eq; [done|]. rewrite <-length_frame by done. by rewrite Hf.
Qed.

Lemma meshcore_relay_same_bytes_witness :
  ∃ ok p, meshcore_packet_parse [0x15; 0x42; 1; 2; 3; 4; 99] empty_packet = Done (ok, p) ∧
    (ok = true → packet_ok p ∧ meshcore_packet_serialize p 7 = Done [0x15; 0x42; 1; 2; 3; 4; 99]).
Proof.
  apply (meshcore_relay_same_bytes [0x15; 0x42; 1; 2; 3; 4; 99] empty_packet).
  - unfold unsigned. repeat constructor; lia.
  - split; [done|]. unfold unsigned. simpl. lia.
Defined.

(** The serializer accepts a path of 64 hops of one byte, but keeps six bits of its
    length: the packet arrives with an empty path and the hops in front of its payload. *)
Example path_length_masked :
  let p := set_path_size 64 1 (set_path (replicate 64 7) empty_packet) in
  ∃ data p', meshcore_packet_serialize p 255 = Done data ∧ meshcore_packet_parse data empty_packet = Done (true, p') ∧
    pathLength p' = 0 ∧ payloadLength p' = 64.
Proof. eexists _, _. split; [vm_compute; reflexivity|]. split; [vm_compute; reflexivity|]. done. Qed.
