(* ===== verification/MeshCoreMessages.v ===== *)
(** MeshCore messages from sender to recipient: what the cipher libraries promise, the
    authenticated encryption built on them, and the texts, acknowledgements, adverts and
    contact links that arrive. *)

From S2P Require Import Prelude Bytes MeshCore MeshCoreSpecs.

(** * What the libraries promise *)

(** [keypair] holds for identities made by [ed25519_create_keypair]. *)
Class CryptoLaws `{Crypto} (keypair : MeshCoreIdentity → Prop) : Prop := {
  mac_length k d m : psa_mac k d = Some m → length m = 32%nat ∧ all_bytes m;
  aes_inverse k l : length k = 16%nat → (length l mod 16 = 0)%nat → all_bytes l →
    ∃ c, psa_encrypt k l = Some c ∧ length c = length l ∧ all_bytes c ∧ psa_decrypt k c = Some l;
  key_bytes a : keypair a → length (publicKey a) = 32%nat ∧ all_bytes (publicKey a);
  exchange_symmetric a b : keypair a → keypair b →
    ed25519_key_exchange (publicKey b) (privateKey a) = ed25519_key_exchange (publicKey a) (privateKey b) ∧
    length (ed25519_key_exchange (publicKey b) (privateKey a)) = 32%nat;
  signature_valid a m : keypair a →
    length (ed25519_sign m (publicKey a) (privateKey a)) = 64%nat ∧
    all_bytes (ed25519_sign m (publicKey a) (privateKey a)) ∧
    ed25519_verify (ed25519_sign m (publicKey a) (privateKey a)) m (publicKey a) = true;
}.

(** A C string: bytes without a terminator in them. *)
Definition c_string (t : list Z) : Prop := Forall (λ c, is_byte c ∧ c ≠ 0) t.

Section messages.
Context `{CryptoLaws}.
Implicit Types (l body rest source : list Z) (p : MeshCorePacket).

(** * Encryption *)

Lemma hmac_length k l : length (hmac k l) = 32%nat ∧ all_bytes (hmac k l).
Proof.
  unfold hmac. destruct (psa_mac k l) as [m|] eqn:Hm; simpl; [by eapply mac_length|].
  split; [done|]. by repeat constructor.
Qed.

(** The zeros that fill the last block. *)
Definition padding source : list Z :=
  replicate ((length source + 15) / 16 * 16 - length source)%nat 0.

Lemma blocks_bounds (n : nat) : (n <= (n + 15) / 16 * 16 <= n + 15)%nat.
Proof. pose proof (Nat.div_mod (n + 15) 16 ltac:(lia)). pose proof (Nat.mod_upper_bound (n + 15) 16 ltac:(lia)). lia. Qed.

Lemma padded_length source : (length (source ++ padding source) mod 16 = 0)%nat ∧
  (length source <= length (source ++ padding source) <= length source + 15)%nat.
Proof.
  unfold padding. rewrite length_app, length_replicate.
  pose proof (blocks_bounds (length source)).
  replace (length source + _)%nat with ((length source + 15) / 16 * 16)%nat by lia.
  split; [by apply Nat.Div0.mod_mul|lia].
Qed.

(** What was encrypted is decrypted by whoever has the secret, up to the padding. *)
Lemma encrypt_decrypt s source rest :
  (16 <= length s)%nat → all_bytes source → (0 < length source <= 241)%nat →
  ∃ c, meshcore_encrypt_then_mac s source = Some c ∧ all_bytes c ∧
    length c = (2 + length (source ++ padding source))%nat ∧
    meshcore_mac_then_decrypt s (c ++ rest) (Z.of_nat (length c)) = Some (source ++ padding source).
Proof.
  intros Hs Hb Hl. destruct (padded_length source) as [Hm Hp]. set (padded := source ++ padding source) in *.
  set (key := take MESHCORE_CIPHER_KEY_SIZE s).
  assert (length key = 16%nat) as Hk by (unfold key, MESHCORE_CIPHER_KEY_SIZE; rewrite length_take; lia).
  assert (all_bytes padded) as Hbp by (apply Forall_app; split; [done|by apply Forall_replicate]).
  destruct (aes_inverse key padded Hk Hm Hbp) as (c & Hc & Hcl & Hcb & Hd).
  destruct (hmac_length s c) as [Hml Hmb].
  assert (meshcore_encrypt_then_mac s source = Some (take 2 (hmac s c) ++ c)) as Henc.
  { unfold meshcore_encrypt_then_mac. change (MESHCORE_CIPHER_BLOCK_SIZE) with 16%nat.
    replace (length source + 16 - 1)%nat with (length source + 15)%nat by lia.
    assert ((length source + 15) / 16 * 16 = length padded)%nat as Hblocks.
    { unfold padded, padding. rewrite length_app, length_replicate. pose proof (blocks_bounds (length source)). lia. }
    rewrite Hblocks. rewrite (proj2 (Nat.ltb_ge _ _)) by lia.
    assert (source ++ replicate (length padded - length source) 0 = padded) as ->
      by (unfold padded at 2, padding; by rewrite Hblocks).
    unfold aesEcb, same_length. fold key. rewrite Hc. simpl. by rewrite (proj2 (Nat.eqb_eq _ _) Hcl). }
  exists (take 2 (hmac s c) ++ c). split; [done|]. split; [apply Forall_app; split; [by apply Forall_take|done]|].
  assert (length (take 2 (hmac s c)) = 2%nat) as H2 by (rewrite length_take; lia).
  rewrite length_app, H2. split; [by rewrite Hcl|].
  unfold meshcore_mac_then_decrypt. change (Z.of_nat MESHCORE_CIPHER_MAC_SIZE) with 2.
  change (Z.of_nat MESHCORE_CIPHER_BLOCK_SIZE) with 16. change MESHCORE_CIPHER_MAC_SIZE with 2%nat.
  rewrite (proj2 (Z.leb_gt _ _)) by lia.
  replace (Z.of_nat (2 + length c) - 2) with (Z.of_nat (length c)) by lia.
  assert (Z.of_nat (length c) mod 16 = 0) as Hmod by (rewrite Hcl; apply (f_equal Z.of_nat) in Hm; rewrite Nat2Z.inj_mod in Hm; done).
  rewrite Hmod. cbn [Z.eqb negb]. rewrite Nat2Z.id, <-app_assoc.
  rewrite drop_app_length', take_app_length, take_app_length' by done.
  rewrite bool_decide_true by done. unfold aesEcb, same_length. fold key. rewrite Hd. simpl.
  by rewrite (proj2 (Nat.eqb_eq _ _)) by done.
Qed.

(** * Packets *)

(** A packet that carries the information of another one, for example after the air. *)
Definition arrives p p' : Prop := packet_ok p' ∧ view p' = view p.

Lemma flood_packet_ok t body :
  unsigned 4 t → (length body <= MESHCORE_MAX_PAYLOAD_SIZE)%nat → packet_ok (flood_packet t body).
Proof.
  intros Ht Hl. unfold MESHCORE_MAX_PAYLOAD_SIZE in Hl.
  assert (u8 (Z.of_nat (length body)) = Z.of_nat (length body)) as E by (apply u8_id; unfold unsigned; lia).
  split; try done.
  - split; [done|]. simpl. rewrite length_copy_at; [done|]. simpl. lia.
  - simpl. rewrite E. unfold MESHCORE_MAX_PAYLOAD_SIZE. lia.
Qed.

(** What a recipient finds in such a packet. *)
Lemma arrives_payload t body p :
  (length body <= MESHCORE_MAX_PAYLOAD_SIZE)%nat → arrives (flood_packet t body) p →
  payloadType p = t ∧ payloadLength p = Z.of_nat (length body) ∧ ∃ rest, payload p = body ++ rest.
Proof.
  intros Hl [Hok Hv]. unfold view in Hv. injection Hv as _ Ht _ _ _ _ _ Hp.
  assert (u8 (Z.of_nat (length body)) = Z.of_nat (length body)) as E
    by (apply u8_id; unfold unsigned, MESHCORE_MAX_PAYLOAD_SIZE in *; lia).
  split; [done|]. simpl in Hp. rewrite E, Nat2Z.id, take_copy_at in Hp.
  pose proof (length_rest p Hok) as Hr. unfold rest_of in Hr. rewrite Hp in Hr. split; [done|].
  exists (drop (Z.to_nat (payloadLength p)) (payload p)). rewrite <-Hp at 1. by rewrite take_drop.
Qed.

Lemma textFromPlaintext_eq t n : c_string t → textFromPlaintext (t ++ replicate n 0) = t.
Proof.
  induction 1 as [|c t [_ Hc] Ht IH]; simpl; [by destruct n|].
  apply Z.eqb_neq in Hc. by rewrite Hc, IH.
Qed.

Lemma readU32_write z l : unsigned 32 z → readU32 (writeU32 z ++ l) = z.
Proof.
  intros Hz. unfold writeU32. rewrite !le_bytes_S. cbn [app readU32].
  rewrite word32_le by (repeat (apply Forall_cons; split; [apply u8_byte|]); by apply Forall_nil).
  replace [_; _; _; _] with (le_bytes 4 z) by by rewrite !le_bytes_S.
  rewrite le_value_bytes. by apply mod_unsigned.
Qed.

Lemma c_string_bytes t : c_string t → all_bytes t.
Proof. intros Ht. eapply Forall_impl; [exact Ht|]. by intros c [? _]. Qed.

Lemma text_of_eq time f t n :
  unsigned 32 time → c_string t →
  text_of (writeU32 time ++ [f] ++ t ++ replicate n 0) = Some {| timestamp := time; flags := f; content := t |}.
Proof.
  intros Ht Hc. unfold text_of. assert (length (writeU32 time) = 4%nat) as Hl by apply length_le_bytes.
  rewrite (proj2 (Nat.ltb_ge _ _)) by (unfold TEXT_HEADER_SIZE; rewrite !length_app, Hl; simpl; lia).
  assert ((writeU32 time ++ [f] ++ t ++ replicate n 0) !! 4%nat = Some f) as ->.
  { rewrite lookup_app_r by lia. by rewrite Hl. }
  assert (drop TEXT_HEADER_SIZE (writeU32 time ++ [f] ++ t ++ replicate n 0) = t ++ replicate n 0) as ->.
  { rewrite app_assoc. apply drop_app_length'. by rewrite length_app, Hl. }
  by rewrite readU32_write, textFromPlaintext_eq.
Qed.

Lemma head_key a : keypair a → ∃ k, publicKey a = default 0 (head (publicKey a)) :: k.
Proof. intros Ha. destruct (key_bytes a Ha) as [Hl _]. destruct (publicKey a) as [|x k]; [done|]. by exists k. Qed.

Lemma length_from_eq (n : nat) l p :
  payloadLength p = Z.of_nat (n + length l) → Z.of_nat (n + length l) < 2^32 → length_from n p = Z.of_nat (length l).
Proof. intros Hp Hl. unfold length_from. rewrite Hp, u32_id; unfold unsigned; lia. Qed.

(** The text and its acknowledgement hash, decrypted by the recipient. *)
Lemma parse_text_eq a b time f t p body rest :
  keypair a → keypair b → unsigned 32 time → is_byte f → c_string t → (length t <= 155)%nat →
  meshcore_encrypt_then_mac (meshcore_shared_secret a (publicKey b)) (writeU32 time ++ [f] ++ t) = Some body →
  payload p = [default 0 (head (publicKey b)); default 0 (head (publicKey a))] ++ body ++ rest →
  payloadLength p = Z.of_nat (2 + length body) →
  (length body <= 178)%nat ∧
  meshcore_parse_text_message b (publicKey a) p =
    Some ({| timestamp := time; flags := f; content := t |}, ackHashOf (writeU32 time ++ [f] ++ t) (publicKey a)).
Proof.
  intros Ha Hb Ht Hf Hc Hl Henc Hp Hpl. set (plain := writeU32 time ++ [f] ++ t) in *.
  destruct (exchange_symmetric a b Ha Hb) as [Hx Hxl].
  assert (length (writeU32 time) = 4%nat) as H4 by apply length_le_bytes.
  assert (length plain = (5 + length t)%nat) as Hlp by (unfold plain; rewrite !length_app, H4; simpl; lia).
  assert (all_bytes plain) as Hbp.
  { unfold plain. apply Forall_app. split; [apply all_bytes_le|]. apply Forall_cons. split; [done|by apply c_string_bytes]. }
  destruct (encrypt_decrypt (meshcore_shared_secret a (publicKey b)) plain rest) as (c & Hc' & Hcb & Hcl & Hdec);
    [unfold meshcore_shared_secret; lia|done|lia|].
  rewrite Henc in Hc'. injection Hc' as <-. destruct (padded_length plain) as [_ Hpad].
  split; [lia|].
  unfold meshcore_parse_text_message. rewrite (length_from_eq 2 body) by (done || lia).
  assert (payload_from 2 p = body ++ rest) as -> by (unfold payload_from; by rewrite Hp).
  assert (meshcore_shared_secret b (publicKey a) = meshcore_shared_secret a (publicKey b)) as -> by done.
  rewrite Hdec. cbn [mbind option_bind].
  assert (text_of (plain ++ padding plain) = Some {| timestamp := time; flags := f; content := t |}) as ->.
  { unfold plain at 1. rewrite <-!app_assoc. by apply text_of_eq. }
  cbn [mbind option_bind content]. rewrite take_app_length' by done. done.
Qed.
End messages.

(** C29: a text message reaches its recipient: it can be built for every text of up to 155
    bytes, and from any packet carrying it the recipient reads the hashes that address
    it, the time, the attempt and the text that were sent, and computes the
    acknowledgement that the sender waits for. *)
Theorem meshcore_text_message_arrives `{CryptoLaws} (a b : MeshCoreIdentity) (time attempt : Z) (t : list Z) :
  keypair a → keypair b → unsigned 32 time → c_string t → (length t <= 155)%nat →
  ∃ p ack, meshcore_build_text_message a (publicKey b) time attempt t = Some (p, ack) ∧ packet_ok p ∧
    ∀ p', arrives p p' →
      meshcore_peek_text_message p' = Some (default 0 (head (publicKey b)), default 0 (head (publicKey a))) ∧
      meshcore_parse_text_message b (publicKey a) p' =
        Some ({| timestamp := time; flags := attempt mod 4; content := t |}, ack).
Proof.
  intros Ha Hb Ht Hc Hl. unfold meshcore_build_text_message. change MAX_PLAINTEXT_SIZE with 160%nat. change TEXT_HEADER_SIZE with 5%nat.
  rewrite (proj2 (Nat.ltb_ge _ _)) by lia. cbv zeta.
  assert (Z.land attempt 3 = attempt mod 4) as -> by by apply (land_ones_mod 2).
  assert (is_byte (attempt mod 4)) as Hf by (pose proof (Z.mod_pos_bound attempt 4 ltac:(lia)); unfold unsigned; lia).
  set (plain := writeU32 time ++ [attempt mod 4] ++ t).
  assert (length plain = (5 + length t)%nat) as Hlp by (unfold plain, writeU32; rewrite !length_app, length_le_bytes; simpl; lia).
  destruct (exchange_symmetric a b Ha Hb) as [_ Hxl].
  destruct (encrypt_decrypt (meshcore_shared_secret a (publicKey b)) plain []) as (body & Henc & _ & Hbl & _);
    [unfold meshcore_shared_secret; lia| |lia|].
  { unfold plain. apply Forall_app. split; [apply all_bytes_le|]. apply Forall_cons. split; [done|by apply c_string_bytes]. }
  destruct (padded_length plain) as [_ Hpad].
  rewrite Henc. cbn [mbind option_bind]. do 2 eexists. split; [done|].
  set (full := [default 0 (head (publicKey b)); default 0 (head (publicKey a))] ++ body).
  assert (length full = (2 + length body)%nat) as Hfl by done.
  assert (length full <= MESHCORE_MAX_PAYLOAD_SIZE)%nat as Hfm by (unfold MESHCORE_MAX_PAYLOAD_SIZE; lia).
  split; [by apply flood_packet_ok|]. intros p' Hp'.
  destruct (arrives_payload _ _ _ Hfm Hp') as (Hty & Hpl & rest & Hpay).
  split.
  - unfold meshcore_peek_text_message. rewrite Hty, Hpl, Hpay. rewrite (proj2 (Z.ltb_ge _ _)); [done|].
    unfold MESHCORE_CIPHER_MAC_SIZE, MESHCORE_CIPHER_BLOCK_SIZE. rewrite Hfl, Hbl, length_app. unfold padding.
    rewrite length_replicate. pose proof (Nat.div_mod (length plain + 15) 16 ltac:(lia)).
    pose proof (Nat.mod_upper_bound (length plain + 15) 16 ltac:(lia)). lia.
  - rewrite Hfl in Hpl. by apply (parse_text_eq a b time (attempt mod 4) t p' body rest).
Qed.

(** A text on a channel reaches everyone who has the channel's key: the line
    "sender: text" that was sent, with its time, whenever it leaves room for the
    terminator in the 155 bytes of the buffer; and only then can it be sent. *)
Theorem meshcore_group_text_arrives `{CryptoLaws} (key : list Z) (time : Z) (sender t : list Z) :
  length key = 16%nat → unsigned 32 time → c_string sender → c_string t →
  let channel := meshcore_channel_from_key key in
  if decide (length sender + 2 + length t < 155)%nat
  then ∃ p, meshcore_build_group_text channel time sender t = Some p ∧ packet_ok p ∧
    ∀ p', arrives p p' →
      meshcore_parse_group_text channel p' = Some {| timestamp := time; flags := 0; content := sender ++ [58; 32] ++ t |}
  else meshcore_build_group_text channel time sender t = None.
Proof.
  intros Hk Ht Hs Hc channel. unfold meshcore_build_group_text. change (MAX_PLAINTEXT_SIZE - TEXT_HEADER_SIZE)%nat with 155%nat.
  set (line := sender ++ [58; 32] ++ t).
  assert (length line = length sender + 2 + length t)%nat as Hll by (unfold line; rewrite !length_app; simpl; lia).
  rewrite Hll. case_decide as Hl; [|by rewrite (proj2 (Nat.leb_le _ _)) by lia].
  rewrite (proj2 (Nat.leb_gt _ _)) by lia.
  assert (c_string line) as Hcl.
  { unfold line, c_string, unsigned. rewrite !Forall_app. split; [done|]. split; [|done]. repeat constructor; lia. }
  set (plain := writeU32 time ++ [0] ++ line).
  assert (length (writeU32 time) = 4%nat) as H4 by apply length_le_bytes.
  assert (length plain = (5 + length line)%nat) as Hlp by (unfold plain; rewrite !length_app, H4; simpl; lia).
  assert (length (secret channel) = 32%nat) as Hsec by (simpl; rewrite length_app, Hk; done).
  assert (all_bytes plain) as Hbp.
  { unfold plain. apply Forall_app. split; [apply all_bytes_le|]. apply Forall_cons. split; [done|by apply c_string_bytes]. }
  destruct (encrypt_decrypt (secret channel) plain []) as (body & Henc & _ & Hbl & _); [lia|done|lia|].
  destruct (padded_length plain) as [Hm Hpad]. rewrite Henc. cbn [mbind option_bind]. eexists. split; [done|].
  set (full := channel_hash channel :: body).
  assert (length full = (1 + length body)%nat) as Hfl by done.
  assert (length full <= MESHCORE_MAX_PAYLOAD_SIZE)%nat as Hfm by (unfold MESHCORE_MAX_PAYLOAD_SIZE; lia).
  split; [by apply flood_packet_ok|]. intros p' Hp'.
  destruct (arrives_payload _ _ _ Hfm Hp') as (Hty & Hpl & rest & Hpay). rewrite Hfl in Hpl.
  destruct (encrypt_decrypt (secret channel) plain rest) as (c & Hc' & _ & _ & Hdec); [lia|done|lia|].
  rewrite Henc in Hc'. injection Hc' as <-.
  unfold meshcore_parse_group_text. rewrite Hty, Hpay. cbn [full head app default from_option id].
  rewrite !Z.eqb_refl. rewrite (proj2 (Z.ltb_ge _ _)).
  2:{ rewrite Hpl. change (1 + MESHCORE_CIPHER_MAC_SIZE + MESHCORE_CIPHER_BLOCK_SIZE)%nat with 19%nat.
      pose proof (Nat.div_mod (length (plain ++ padding plain)) 16 ltac:(lia)). lia. }
  cbn [negb orb]. rewrite (length_from_eq 1 body) by (done || lia).
  assert (payload_from 1 p' = body ++ rest) as -> by (unfold payload_from; by rewrite Hpay).
  rewrite Hdec. cbn [mbind option_bind]. unfold plain at 1. rewrite <-!app_assoc. by apply text_of_eq.
Qed.

(** An advert introduces its sender: it can be built for names of up to 83 bytes, and
    whoever receives it accepts its signature and reads the sender's key, the time, that
    it is a chat node, and its name. *)
Theorem meshcore_advert_arrives `{CryptoLaws} (a : MeshCoreIdentity) (time : Z) (name : list Z) :
  keypair a → unsigned 32 time → c_string name →
  if decide (length name <= 83)%nat
  then ∃ p, meshcore_build_advert a time name = Some p ∧ packet_ok p ∧
    ∀ p', arrives p p' →
      meshcore_parse_advert p' =
        Some {| advert_key := publicKey a; advert_time := time; advert_type := Chat; advert_name := name |}
  else meshcore_build_advert a time name = None.
Proof.
  intros Ha Ht Hc. unfold meshcore_build_advert.
  change ADVERT_FIXED_SIZE with 100%nat. change MESHCORE_MAX_PAYLOAD_SIZE with 184%nat.
  case_decide as Hl; [|by rewrite (proj2 (Nat.ltb_lt _ _)) by lia]. rewrite (proj2 (Nat.ltb_ge _ _)) by lia.
  destruct (key_bytes a Ha) as [Hkl Hkb]. set (fixed := publicKey a ++ writeU32 time).
  set (appData := Z.lor Chat ADVERT_FLAG_NAME :: name).
  destruct (signature_valid a (fixed ++ appData) Ha) as (Hsl & Hsb & Hver). set (sg := ed25519_sign _ _ _) in *.
  assert (length fixed = 36%nat) as Hfl by (unfold fixed, writeU32; rewrite length_app, Hkl, length_le_bytes; done).
  set (full := fixed ++ sg ++ appData).
  assert (length full = (101 + length name)%nat) as Hlen by (unfold full; rewrite !length_app; simpl; lia).
  assert (length full <= MESHCORE_MAX_PAYLOAD_SIZE)%nat as Hfm by (unfold MESHCORE_MAX_PAYLOAD_SIZE; lia).
  eexists. split; [done|]. split; [by apply flood_packet_ok|]. intros p' Hp'.
  destruct (arrives_payload _ _ _ Hfm Hp') as (Hty & Hpl & rest & Hpay).
  assert (payload p' = publicKey a ++ writeU32 time ++ sg ++ appData ++ rest) as Hp
    by (rewrite Hpay; unfold full, fixed; by rewrite <-!app_assoc).
  assert (take 36 (payload p') = fixed) as E1 by (rewrite Hp, app_assoc; by apply take_app_length').
  assert (take 64 (drop 36 (payload p')) = sg) as E2
    by (rewrite Hp, app_assoc, drop_app_length' by done; by apply take_app_length').
  assert (take 32 (payload p') = publicKey a) as E3 by (rewrite Hp; by apply take_app_length').
  assert (drop 32 (payload p') = writeU32 time ++ sg ++ appData ++ rest) as E4 by (rewrite Hp; by apply drop_app_length').
  assert (take (Z.to_nat (payloadLength p') - 100) (drop 100 (payload p')) = appData) as E5.
  { rewrite Hpl, Hlen, Nat2Z.id. rewrite Hp, !app_assoc, <-(app_assoc _ appData rest).
    rewrite drop_app_length' by (rewrite !length_app in *; fold fixed; unfold fixed in Hfl; rewrite length_app in Hfl; lia).
    apply take_app_length'. simpl. lia. }
  unfold meshcore_parse_advert. change ADVERT_FIXED_SIZE with 100%nat. change (MESHCORE_PUBLIC_KEY_SIZE + 4)%nat with 36%nat.
  change MESHCORE_SIGNATURE_SIZE with 64%nat. change MESHCORE_PUBLIC_KEY_SIZE with 32%nat.
  rewrite E1, E2, E3, E4, E5, Hty, Z.eqb_refl, (proj2 (Z.ltb_ge _ _)) by (rewrite Hpl, Hlen; lia).
  cbn [negb orb]. rewrite Hver. cbn [negb]. rewrite readU32_write by done.
  unfold appData. cbv zeta. change (advert_name_position (Z.lor Chat ADVERT_FLAG_NAME)) with 1%nat.
  change (negb (Z.land (Z.lor Chat ADVERT_FLAG_NAME) ADVERT_FLAG_NAME =? 0)) with true. cbn [andb].
  change (Z.land (Z.lor Chat ADVERT_FLAG_NAME) 15) with Chat.
  assert ((if (1 <? length (Z.lor Chat ADVERT_FLAG_NAME :: name))%nat
    then textFromPlaintext (drop 1 (Z.lor Chat ADVERT_FLAG_NAME :: name)) else []) = name) as ->; [|done].
  destruct name as [|c name']; [done|]. cbn [length drop]. rewrite (proj2 (Nat.ltb_lt _ _)) by (simpl; lia).
  pose proof (textFromPlaintext_eq _ 0 Hc) as E. by rewrite app_nil_r in E.
Qed.

(** * A concrete cipher library *)

(** Checksums for hashes and complements for ciphers, in which the promises can be
    checked. *)
Definition checksum (l : list Z) : list Z := replicate 32 (u8 (foldr Z.add 0 l)).
Definition complement (l : list Z) : list Z := map (λ b, u8 (255 - b)) l.

Definition demo_crypto : Crypto := {|
  psa_mac := λ k d, Some (checksum (k ++ d));
  psa_encrypt := λ k l, Some (complement l);
  psa_decrypt := λ k l, Some (complement l);
  psa_sha256 := checksum;
  ed25519_sign := λ m pub priv, pub ++ checksum m;
  ed25519_verify := λ sig m pub, bool_decide (sig = pub ++ checksum m);
  ed25519_key_exchange := λ pub priv, zip_with (λ x y, u8 (x + y)) pub (take 32 priv);
|}.
Definition demo_keypair (a : MeshCoreIdentity) : Prop :=
  length (publicKey a) = 32%nat ∧ all_bytes (publicKey a) ∧ privateKey a = publicKey a ++ publicKey a.

Lemma all_bytes_checksum l : all_bytes (checksum l).
Proof. apply Forall_replicate, u8_byte. Qed.

Lemma complement_involutive l : all_bytes l → complement (complement l) = l.
Proof.
  induction 1 as [|b l Hb Hl IH]; [done|]. cbn [complement map]. fold (complement l). fold (complement (complement l)). rewrite IH. f_equal.
  unfold unsigned in Hb. rewrite (u8_id (255 - b)), u8_id; unfold unsigned; lia.
Qed.

#[local] Instance demo_laws : CryptoLaws (H := demo_crypto) demo_keypair.
Proof.
  split.
  - intros k d m [= <-]. split; [done|apply all_bytes_checksum].
  - intros k l _ _ Hl. exists (complement l). split_and!; [done|by apply length_map| |simpl; by rewrite complement_involutive].
    apply Forall_forall. intros b (x & -> & _)%list_elem_of_fmap. apply u8_byte.
  - intros a (Hl & Hb & _). done.
  - intros a b (Hla & Hba & Hpa) (Hlb & Hbb & Hpb). simpl. rewrite Hpa, Hpb, !take_app_length' by done. split.
    + clear -Hla Hlb. revert Hla Hlb. generalize 32%nat (publicKey a) (publicKey b).
      induction n as [|n IH]; intros [|x l] [|y k] Hl Hk; try done. simpl. rewrite (Z.add_comm y x). f_equal.
      apply IH; simpl in *; lia.
    + rewrite length_zip_with. lia.
  - intros a m (Hl & Hb & _). simpl. split_and!; [|apply Forall_app; split; [done|apply all_bytes_checksum]|by apply bool_decide_true].
    by rewrite length_app, Hl.
Qed.

Definition alice : MeshCoreIdentity := {| publicKey := replicate 32 17; privateKey := replicate 32 17 ++ replicate 32 17 |}.
Definition bob : MeshCoreIdentity := {| publicKey := replicate 32 34; privateKey := replicate 32 34 ++ replicate 32 34 |}.

Lemma demo_keys : demo_keypair alice ∧ demo_keypair bob.
Proof. split; (split; [done|]; split; [|done]); apply Forall_replicate; unfold unsigned; lia. Qed.

Lemma demo_string : c_string [104; 101; 108; 108; 111].
Proof. unfold c_string, unsigned. repeat constructor; lia. Qed.

Lemma meshcore_text_message_arrives_witness :
  ∃ p ack, meshcore_build_text_message (H := demo_crypto) alice (publicKey bob) 1700000000 6 [104; 101; 108; 108; 111] = Some (p, ack) ∧
    packet_ok p ∧ ∀ p', arrives p p' →
      meshcore_peek_text_message p' = Some (default 0 (head (publicKey bob)), default 0 (head (publicKey alice))) ∧
      meshcore_parse_text_message (H := demo_crypto) bob (publicKey alice) p' =
        Some ({| timestamp := 1700000000; flags := 6 mod 4; content := [104; 101; 108; 108; 111] |}, ack).
Proof.
  apply (meshcore_text_message_arrives (H := demo_crypto) (keypair := demo_keypair) alice bob);
    [apply demo_keys|apply demo_keys|unfold unsigned; lia|apply demo_string|simpl; lia].
Defined.

Lemma meshcore_group_text_arrives_witness :
  let channel := meshcore_channel_from_key (H := demo_crypto) (replicate 16 7) in
  if decide (length [104; 101; 108; 108; 111] + 2 + length [104; 101; 108; 108; 111] < 155)%nat
  then ∃ p, meshcore_build_group_text (H := demo_crypto) channel 5 [104; 101; 108; 108; 111] [104; 101; 108; 108; 111] = Some p ∧
    packet_ok p ∧ ∀ p', arrives p p' →
      meshcore_parse_group_text (H := demo_crypto) channel p' =
        Some {| timestamp := 5; flags := 0; content := [104; 101; 108; 108; 111] ++ [58; 32] ++ [104; 101; 108; 108; 111] |}
  else meshcore_build_group_text (H := demo_crypto) channel 5 [104; 101; 108; 108; 111] [104; 101; 108; 108; 111] = None.
Proof.
  apply (meshcore_group_text_arrives (H := demo_crypto) (keypair := demo_keypair) (replicate 16 7) 5
    [104; 101; 108; 108; 111] [104; 101; 108; 108; 111]);
    [done|unfold unsigned; lia|apply demo_string|apply demo_string].
Defined.

Lemma meshcore_advert_arrives_witness :
  if decide (length [104; 101; 108; 108; 111] <= 83)%nat
  then ∃ p, meshcore_build_advert (H := demo_crypto) alice 9 [104; 101; 108; 108; 111] = Some p ∧ packet_ok p ∧
    ∀ p', arrives p p' →
      meshcore_parse_advert (H := demo_crypto) p' =
        Some {| advert_key := publicKey alice; advert_time := 9; advert_type := Chat; advert_name := [104; 101; 108; 108; 111] |}
  else meshcore_build_advert (H := demo_crypto) alice 9 [104; 101; 108; 108; 111] = None.
Proof.
  apply (meshcore_advert_arrives (H := demo_crypto) (keypair := demo_keypair) alice 9 [104; 101; 108; 108; 111]);
    [apply demo_keys|unfold unsigned; lia|apply demo_string].
Defined.

(** * Contact links *)

Section uris.
Context (uriSize : nat).
Implicit Types (s t uri : list Z).

(** Appends [s], or fails when the terminator would not fit any more. *)
Definition writes (k : list Z → option (list Z)) s : Prop :=
  ∀ uri, (length uri < uriSize)%nat →
    k uri = if (length uri + length s <? uriSize)%nat then Some (uri ++ s) else None.

Lemma writes_append c : writes (append uriSize c) [c].
Proof.
  intros uri Hu. unfold append. simpl. destruct (Nat.leb_spec uriSize (length uri + 1));
    destruct (Nat.ltb_spec (length uri + 1) uriSize); done || lia.
Qed.

Lemma writes_nil : writes Some [].
Proof. intros uri Hu. rewrite (proj2 (Nat.ltb_lt _ _)) by (simpl; lia). by rewrite app_nil_r. Qed.

Lemma writes_bind k k' s s' : writes k s → writes k' s' → writes (λ uri, uri ← k uri; k' uri) (s ++ s').
Proof.
  intros Hk Hk' uri Hu. rewrite Hk by done. rewrite length_app.
  destruct (Nat.ltb_spec (length uri + length s) uriSize) as [Hl|Hl]; simpl.
  - rewrite Hk' by (rewrite length_app; lia). rewrite length_app, app_assoc. by rewrite Nat.add_assoc.
  - by rewrite (proj2 (Nat.ltb_ge _ _)) by lia.
Qed.

Lemma writes_text t : writes (appendText uriSize t) t.
Proof.
  induction t as [|c t IH]; [apply writes_nil|]. apply (writes_bind _ _ [c] t); [apply writes_append|done].
Qed.

(** The percent encoding of a name, and the digits of a key. *)
Definition hex_of (b : Z) : list Z := [HEX_DIGITS (Z.shiftr b 4); HEX_DIGITS (Z.land b 0x0F)].
Definition encoded (b : Z) : list Z :=
  if unreserved b then [b] else if b =? 32 then [43] else 37 :: hex_of b.

Lemma writes_encoded b : writes (append_encoded uriSize b) (encoded b).
Proof.
  unfold append_encoded, encoded. destruct (unreserved b); [apply writes_append|].
  destruct (b =? 32); [apply writes_append|]. unfold hex_of.
  apply (writes_bind _ _ [37] [_; _]); [apply writes_append|].
  apply (writes_bind _ _ [_] [_]); apply writes_append.
Qed.

Lemma writes_name name : writes (append_name uriSize name) (flat_map encoded name).
Proof.
  induction name as [|c name IH]; [apply writes_nil|]. apply writes_bind; [apply writes_encoded|done].
Qed.

Lemma writes_key key : writes (append_key uriSize key) (flat_map hex_of key).
Proof.
  induction key as [|b key IH]; [apply writes_nil|]. cbn [append_key flat_map]. unfold hex_of at 1. cbn [app].
  apply (writes_bind _ _ [_] (_ :: _)); [apply writes_append|].
  apply (writes_bind _ _ [_] _); [apply writes_append|done].
Qed.
End uris.

Definition contact_uri (name key : list Z) (type : Z) : list Z :=
  bytes_of ($"meshcore://contact/add?name=") ++ flat_map encoded name ++ bytes_of ($"&public_key=") ++
  flat_map hex_of key ++ bytes_of ($"&type=") ++ decimal type.

(** How a reader of such a link decodes a parameter: up to the next ampersand. *)
Definition unhex (d : Z) : Z := if d <? 58 then d - 48 else d - 87.
Fixpoint decode_parameter (fuel : nat) (s : list Z) : list Z :=
  match fuel with
  | O => []
  | S f =>
      match s with
      | [] => []
      | c :: s' =>
          if c =? 38 then []
          else if c =? 43 then 32 :: decode_parameter f s'
          else if c =? 37 then
            match s' with a :: b :: s' => (16 * unhex a + unhex b) :: decode_parameter f s' | _ => [] end
          else c :: decode_parameter f s'
      end
  end.

Lemma encoded_cases b : is_byte b →
  (unreserved b = true ∧ b ≠ 38 ∧ b ≠ 43 ∧ b ≠ 37) ∨ (unreserved b = false ∧ b = 32) ∨
  (unreserved b = false ∧ b ≠ 32 ∧ 16 * unhex (HEX_DIGITS (Z.shiftr b 4)) + unhex (HEX_DIGITS (Z.land b 0x0F)) = b).
Proof.
  intros Hb. pose proof (byte_cases 256 (λ b, if unreserved b then negb (b =? 38) && negb (b =? 43) && negb (b =? 37)
    else (16 * unhex (HEX_DIGITS (Z.shiftr b 4)) + unhex (HEX_DIGITS (Z.land b 0x0F)) =? b))%bool eq_refl b Hb) as H.
  cbv beta in H. destruct (unreserved b); bsimpl; [left; lia|]. right. destruct (Z.eqb_spec b 32); [by left|].
  right. split_and!; [done|done|lia].
Qed.

Lemma decode_name name rest : all_bytes name → ∀ fuel, (length name < fuel)%nat →
  decode_parameter fuel (flat_map encoded name ++ 38 :: rest) = name.
Proof.
  induction 1 as [|b name Hb Hname IH]; intros [|fuel] Hf; cbn [length] in Hf; try lia; [done|].
  cbn [flat_map]. rewrite <-app_assoc. unfold encoded at 1.
  destruct (encoded_cases b Hb) as [(-> & H1 & H2 & H3)|[(-> & ->)|(-> & H1 & H2)]].
  - cbn [app decode_parameter]. rewrite !(proj2 (Z.eqb_neq b _)) by done. by rewrite IH by lia.
  - cbn [app decode_parameter Z.eqb Pos.eqb]. by rewrite IH by lia.
  - rewrite (proj2 (Z.eqb_neq b 32)) by done. unfold hex_of. cbn [app decode_parameter Z.eqb Pos.eqb].
    by rewrite H2, IH by lia.
Qed.

(** A contact link is the scheme, the percent-encoded name, the key in hexadecimal and
    the type, exactly when it fits with its terminator; whoever decodes the name in it
    gets the name back, ampersands and percent signs in it included. *)
Theorem meshcore_contact_uri_decodes (name key : list Z) (type : Z) (uriSize : nat) :
  all_bytes name →
  meshcore_build_contact_uri uriSize name key type =
    (if (length (contact_uri name key type) <? uriSize)%nat then Some (contact_uri name key type) else None) ∧
  decode_parameter (S (length name)) (drop 28 (contact_uri name key type)) = name.
Proof.
  intros Hn. split.
  - unfold meshcore_build_contact_uri, contact_uri. destruct uriSize as [|n]; [done|].
    set (size := S n). assert (0 < size)%nat as Hs by (unfold size; lia).
    pose proof (writes_bind size _ _ _ _ (writes_key size key) (writes_text size (bytes_of ($"&type=") ++ decimal type))) as W3.
    pose proof (writes_bind size _ _ _ _ (writes_text size (bytes_of ($"&public_key="))) W3) as W2.
    pose proof (writes_bind size _ _ _ _ (writes_name size name) W2) as W1.
    pose proof (writes_bind size _ _ _ _ (writes_text size (bytes_of ($"meshcore://contact/add?name="))) W1 [] Hs) as W0.
    exact W0.
  - unfold contact_uri. rewrite drop_app_length' by done.
    apply (decode_name name); [done|lia].
Qed.

(** R&D with a space and a byte outside ASCII. *)
Definition demo_name : list Z := [82; 38; 68; 32; 255].
Definition demo_key : list Z := replicate 32 171.

Lemma meshcore_contact_uri_decodes_witness :
  meshcore_build_contact_uri 200 demo_name demo_key 1 =
    (if (length (contact_uri demo_name demo_key 1%Z) <? 200)%nat
     then Some (contact_uri demo_name demo_key 1) else None) ∧
  decode_parameter 6 (drop 28 (contact_uri demo_name demo_key 1)) = demo_name.
Proof.
  apply (meshcore_contact_uri_decodes demo_name). unfold demo_name, unsigned. repeat constructor; lia.
Defined.
