(* ===== verification/PropertiesFile.v ===== *)
(** Properties files, TactilityKernel/source/properties_file.cpp: key-value entries kept
    in memory, read from text lines when a file is opened and written back when it is
    closed, over a store of files whose operations can fail. *)

From S2P Require Import Prelude Text.

(** * Data *)

(** [entries] is the unordered map of the source. *)
Record PropertiesFile := { file_path : text; entries : gmap text text }.

Definition newline : ascii := "010"%char.
(** The characters of " \t\r\n" and of " \t". *)
Definition line_blank (c : ascii) : bool :=
  (bool_decide (c = " "%char) || bool_decide (c = "009"%char) || bool_decide (c = "013"%char) || bool_decide (c = newline))%bool.
Definition blank (c : ascii) : bool := (bool_decide (c = " "%char) || bool_decide (c = "009"%char))%bool.

Definition split_key_value (line : text) : option (text * text) := split_char "=" line.

(** * Loading *)

(** [key_prefix] and the entries read so far. *)
Definition loader : Type := text * gmap text text.

Definition flush_line (raw_line : text) (l : loader) : loader :=
  let '(key_prefix, m) := l in
  let trimmed_line := trim line_blank raw_line in
  match trimmed_line with
  | [] => l
  | c :: _ =>
      if decide (c = "#"%char) then l
      else if decide (c = "["%char) then (trimmed_line, m)
      else
        match split_key_value trimmed_line with
        | None => l
        | Some (key, value) => (key_prefix, <[key_prefix ++ trim blank key := trim blank value]> m)
        end
  end.

(** The loop over the characters, with the line read so far, and the last line. *)
Fixpoint load_chars (s raw_line : text) (l : loader) : loader :=
  match s with
  | [] => flush_line raw_line l
  | c :: s' => if decide (c = newline) then load_chars s' [] (flush_line raw_line l) else load_chars s' (raw_line ++ [c]) l
  end.

Definition load_content (s : text) : gmap text text := (load_chars s [] ([], ∅)).2.

(** * The files *)

Abbreviation disk := (gmap text text).

(** The calls of the C library that the file makes; any of them may fail. *)
Inductive file_call :=
  | Open_read (path : text) | Read (path : text)
  | Open_write (path : text) | Write (path : text) | Flush (path : text) | Close (path : text)
  | Remove (path : text) | Rename (from to : text).

(** A file system: which calls fail, how much of the text that is written to a stream reaches
    the disk before it is flushed, and whether [rename] replaces a file, which it does not on
    FAT. *)
Record file_system := { fails : file_call → bool; buffered_from : nat; replaces : bool }.
Definition no_faults : file_system := {| fails := λ _, false; buffered_from := 0; replaces := false |}.

(** The disk, and the disks that it has been, from the first. *)
Record files := Files { now : disk; before : list disk }.
Definition become (d : disk) : M files unit := modify (λ s, Files d (before s ++ [now s])).

Section calls.
Variable fs : file_system.

Definition fopen_write (path : text) : M files bool :=
  if fails fs (Open_write path) then mret false
  else d ← gets now; become (<[path := []]> d);; mret true.

(** The text passes through a buffer; [ferror] is clear. *)
Definition fprintf (path content : text) : M files bool :=
  for_list (λ n, d ← gets now; become (<[path := take n content]> d)) (seq 1 (buffered_from fs));;
  mret (negb (fails fs (Write path))).
Definition fflush (path content : text) (write_ok : bool) : M files bool :=
  if fails fs (Flush path) then mret false
  else (if write_ok then d ← gets now; become (<[path := content]> d) else mret tt);; mret true.
Definition fclose (path : text) : M files bool := mret (negb (fails fs (Close path))).

Definition remove (path : text) : M files bool :=
  d ← gets now;
  if (fails fs (Remove path) || negb (is_some (d !! path)))%bool then mret false
  else become (delete path d);; mret true.
Definition rename (from to : text) : M files bool :=
  d ← gets now;
  match d !! from with
  | None => mret false
  | Some content =>
      if (fails fs (Rename from to) || (negb (replaces fs) && is_some (d !! to)))%bool then mret false
      else become (<[to := content]> (delete from d));; mret true
  end.

(** What was loaded, or [None] when the file could not be opened or read. A missing file
    ([ENOENT]) is empty. *)
Definition load_from_file (d : disk) (path : text) : option (gmap text text) :=
  if fails fs (Open_read path) then None
  else
    match d !! path with
    | None => Some ∅
    | Some content => if fails fs (Read path) then None else Some (load_content content)
    end.

Definition properties_file_open (d : disk) (path : text) : option PropertiesFile :=
  m ← load_from_file d path; Some {| file_path := path; entries := m |}.

(** [fprintf(handle, "%s=%s\n", ...)] for the entries in the order of the map. *)
Definition line_of (e : text * text) : text := e.1 ++ "="%char :: e.2 ++ [newline].
Definition print_entries (order : list (text * text)) : text := flat_map line_of order.

Definition temp_path (path : text) : text := path ++ $".tmp".

Definition save_to_file (path : text) (order : list (text * text)) : M files bool :=
  let temp := temp_path path in
  let content := print_entries order in
  opened ← fopen_write temp;
  if negb opened then mret false
  else
    write_ok ← fprintf temp content;
    flush_ok ← fflush temp content write_ok;
    close_ok ← fclose temp;
    if (negb write_ok || negb flush_ok || negb close_ok)%bool
    then remove temp;; mret false
    else
      remove path;;
      renamed ← rename temp path;
      if negb renamed then remove temp;; mret false else mret true.

(** [order] is the order in which the unordered map is iterated. *)
Definition is_order (order : list (text * text)) (m : gmap text text) : Prop := order ≡ₚ map_to_list m.

Definition properties_file_close (file : PropertiesFile) (order : list (text * text)) : M files error_t :=
  saved ← save_to_file (file_path file) order;
  mret (if saved : bool then ERROR_NONE else ERROR_RESOURCE).
End calls.

(** * Entries *)

Definition properties_file_has (file : PropertiesFile) (key : text) : bool :=
  match entries file !! key with Some _ => true | None => false end.

(** The result and what was copied to the buffer. *)
Definition properties_file_get (file : PropertiesFile) (key : text) (out_value_size : nat) : error_t * option text :=
  match entries file !! key with
  | None => (ERROR_NOT_FOUND, None)
  | Some value =>
      if (out_value_size <? length value + 1)%nat then (ERROR_BUFFER_OVERFLOW, None) else (ERROR_NONE, Some value)
  end.

Definition properties_file_set (file : PropertiesFile) (key value : text) : PropertiesFile :=
  {| file_path := file_path file; entries := <[key := value]> (entries file) |}.

Definition properties_file_for_each {S} (file : PropertiesFile) (order : list (text * text)) (visitor : text → text → M S unit) : M S unit :=
  for_list (λ e, visitor e.1 e.2) order.

Example load_example :
  map_to_list (load_content ($"# c" ++ [newline] ++ $"[net]" ++ [newline] ++ $" ssid = my = net " ++ [newline] ++ $"broken"))
    = [($"[net]ssid", $"my = net")].
Proof. vm_compute. reflexivity. Qed.

(** * Properties: what is on the disk *)

Section lines.
Implicit Types (k v s t : text) (m : gmap text text) (order : list (text * text)).

(** Keys and values that a line keeps apart and whose ends are not blank. *)
Definition key_ok k : Prop :=
  newline ∉ k ∧ "="%char ∉ k ∧ trimmed blank k ∧
  match k with [] => True | c :: _ => line_blank c = false ∧ c ≠ "#"%char ∧ c ≠ "["%char end.
Definition value_ok v : Prop :=
  newline ∉ v ∧ trimmed blank v ∧ match reverse v with [] => True | c :: _ => line_blank c = false end.
Definition entries_ok m : Prop := map_Forall (λ k v, key_ok k ∧ value_ok v) m.

Lemma load_chars_line s t raw l :
  newline ∉ s → load_chars (s ++ newline :: t) raw l = load_chars t [] (flush_line (raw ++ s) l).
Proof.
  revert raw. induction s as [|c s IH]; intros raw Hs; cbn [app load_chars].
  - by rewrite decide_True, app_nil_r.
  - apply not_elem_of_cons in Hs as [Hc Hs]. rewrite decide_False by done. by rewrite IH, <-app_assoc.
Qed.

Lemma line_trimmed k v : key_ok k → value_ok v → trimmed line_blank (k ++ "="%char :: v).
Proof.
  intros (_ & _ & _ & Hk) (_ & _ & Hv). split.
  - destruct k as [|c k]; [done|]. apply Hk.
  - rewrite reverse_app, reverse_cons. by destruct (reverse v).
Qed.

Lemma flush_entry k v m : key_ok k → value_ok v → flush_line (k ++ "="%char :: v) ([], m) = ([], <[k := v]> m).
Proof.
  intros Hk Hv. unfold flush_line. rewrite trim_id by by apply line_trimmed.
  destruct Hk as (_ & Heq & Htk & Hk), Hv as (_ & Htv & _).
  unfold split_key_value. rewrite split_char_app by done. rewrite !trim_id by done.
  destruct k as [|c k]; cbn [app]; [by rewrite !decide_False|].
  destruct Hk as (_ & H1 & H2). by rewrite !decide_False.
Qed.

Definition insert_entry m (e : text * text) : gmap text text := <[e.1 := e.2]> m.

Lemma load_entries order m :
  Forall (λ e, key_ok e.1 ∧ value_ok e.2) order →
  (load_chars (print_entries order) [] ([], m)).2 = foldl insert_entry m order.
Proof.
  intros Ho. revert m. induction Ho as [|[k v] order [Hk Hv] Ho IH]; intros m; [done|].
  cbn [print_entries flat_map foldl].
  assert (line_of (k, v) ++ flat_map line_of order = (k ++ "="%char :: v) ++ newline :: print_entries order) as ->
    by (unfold line_of at 1; cbn [fst snd]; rewrite <-!app_assoc; cbn [app]; by rewrite <-app_assoc).
  rewrite load_chars_line.
  - cbn [app]. rewrite flush_entry by done. apply IH.
  - apply not_elem_of_app. split; [apply Hk|]. apply not_elem_of_cons. split; [done|apply Hv].
Qed.

Lemma foldl_insert order m : NoDup order.*1 → foldl insert_entry m order = list_to_map order ∪ m.
Proof.
  revert m. induction order as [|[k v] order IH]; intros m; cbn [foldl].
  - intros _. by rewrite list_to_map_nil, (left_id_L ∅ (∪)).
  - rewrite fmap_cons. intros [Hk Hn]%NoDup_cons. rewrite IH by done. unfold insert_entry. cbn [fst snd].
    rewrite <-insert_union_r by by apply not_elem_of_list_to_map_1. by rewrite list_to_map_cons, insert_union_l.
Qed.

(** Whatever the order, the lines give the entries back. *)
Lemma load_print order m : is_order order m → entries_ok m → load_content (print_entries order) = m.
Proof.
  unfold is_order. intros Hp Hm. unfold load_content.
  assert (NoDup order.*1) as Hn by (rewrite Hp; apply NoDup_fst_map_to_list).
  rewrite load_entries.
  - rewrite foldl_insert by done. rewrite (right_id_L ∅ (∪)).
    rewrite (list_to_map_proper order (map_to_list m)) by done. apply list_to_map_to_list.
  - rewrite Hp. apply Forall_forall. intros [k v] He%elem_of_map_to_list. by apply (map_Forall_lookup_1 _ _ _ _ Hm He).
Qed.

Lemma temp_path_ne path : temp_path path ≠ path.
Proof. unfold temp_path. intros E. apply (f_equal length) in E. rewrite length_app in E. simpl in E. lia. Qed.
End lines.

(** * Properties: saving *)

Section saving.
Variables (fs : file_system) (file : PropertiesFile) (order : list (text * text)) (d : disk).
Let path := file_path file.
Let temp := temp_path path.
Let content := print_entries order.

(** Making the temporary file fails; putting it in the place of the old one does, because the
    call fails or because the old one could not be removed and is not replaced. *)
Definition writing_fails : bool :=
  fails fs (Open_write temp) || fails fs (Write temp) || fails fs (Flush temp) || fails fs (Close temp).
Definition old_stays : bool := fails fs (Remove path) || negb (is_some (d !! path)).
Definition renaming_fails : bool :=
  fails fs (Rename temp path) || (negb (replaces fs) && fails fs (Remove path) && is_some (d !! path)).
(** A reset finds the old text in its place, or all of the new text. *)
Definition nothing_lost (x : disk) : Prop :=
  x !! path = d !! path ∨ x !! path = Some content ∨ x !! temp = Some content.
Definition others_kept (x : disk) : Prop := ∀ q, q ≠ path → q ≠ temp → x !! q = d !! q.
Definition kept (x : disk) : Prop := x !! path = d !! path ∧ others_kept x.

Lemma kept_nothing_lost x : kept x → nothing_lost x ∧ others_kept x.
Proof. intros [H1 H2]. split; [by left|done]. Qed.
Lemma kept_temp x c : kept x → kept (<[temp := c]> x).
Proof.
  pose proof (temp_path_ne path). intros [H1 H2]. split; [by rewrite lookup_insert_ne|].
  intros q Hp Hq. rewrite lookup_insert_ne by done. by apply H2.
Qed.
Lemma kept_delete_temp x : kept x → kept (delete temp x).
Proof.
  pose proof (temp_path_ne path). intros [H1 H2]. split; [by rewrite lookup_delete_ne|].
  intros q Hp Hq. rewrite lookup_delete_ne by done. by apply H2.
Qed.

(** All disks so far have kept the old text, or lost nothing. *)
Definition fine (s : files) : Prop := Forall (λ x, nothing_lost x ∧ others_kept x) (before s).

Lemma wp_become x (Q : unit → files → Prop) s :
  (nothing_lost (now s) ∧ others_kept (now s)) → fine s → (∀ s', now s' = x → fine s' → Q tt s') → wp (become x) Q s.
Proof. intros Hn Hs HQ. apply wp_modify, HQ; [done|]. unfold fine. cbn. apply Forall_app. split; [done|by apply Forall_singleton]. Qed.

Lemma wp_fprintf s (Q : bool → files → Prop) : kept (now s) → is_Some (now s !! temp) → fine s →
  (∀ s', kept (now s') → is_Some (now s' !! temp) → fine s' → Q (negb (fails fs (Write temp))) s') → wp (fprintf fs temp content) Q s.
Proof.
  intros Hk Ht Hf HQ. unfold fprintf. apply wp_bind. revert s Hk Ht Hf. generalize (seq 1 (buffered_from fs)) as l.
  induction l as [|n l IH]; intros s Hk Ht Hf; [by apply wp_ret, wp_ret, HQ|]. cbn [for_list].
  apply wp_bind, wp_bind, wp_gets, wp_become; [by apply kept_nothing_lost|done|]. intros s' E Hf'. apply IH; rewrite ?E; [by apply kept_temp| |done].
  rewrite lookup_insert_eq. eauto.
Qed.

(** Removing the temporary file after a failure. *)
Lemma wp_remove_temp s (Q : bool → files → Prop) : nothing_lost (now s) → others_kept (now s) → fine s →
  (∀ b s', fine s' → now s' = (if fails fs (Remove temp) then now s else delete temp (now s)) → Q b s') → wp (remove fs temp) Q s.
Proof.
  intros Hn Ho Hf HQ. unfold remove. apply wp_bind, wp_gets. destruct (fails fs (Remove temp)); cbn [orb]; [by apply wp_ret, HQ|].
  destruct (now s !! temp) eqn:E; cbn [is_some negb].
  - apply wp_bind, wp_become; [done..|]. intros s' E' Hf'. by apply wp_ret, HQ.
  - apply wp_ret, HQ; [done|]. by rewrite delete_id.
Qed.

Definition after (e : error_t) (x : disk) : Prop :=
  e = (if writing_fails || renaming_fails then ERROR_RESOURCE else ERROR_NONE)%bool ∧
  others_kept x ∧
  x !! path = (if writing_fails then d !! path else if renaming_fails then if old_stays then d !! path else None else Some content) ∧
  (fails fs (Open_write temp) = false → (writing_fails || renaming_fails)%bool = false ∨ fails fs (Remove temp) = false → x !! temp = None).

Lemma close_outcome : wp (properties_file_close fs file order) (λ e s, fine s ∧ after e (now s)) (Files d []).
Proof.
  pose proof (temp_path_ne path) as Hne. fold temp in Hne.
  unfold properties_file_close, save_to_file, fopen_write, after, writing_fails. fold path temp content. cbv zeta.
  assert (kept d) as Hd by done. assert (fine (Files d [])) as H0 by constructor.
  apply wp_bind, wp_bind, wp_if; intros Eo; rewrite Eo; cbn [orb].
  { apply wp_ret. cbn. by apply wp_ret. }
  apply wp_bind, wp_gets, wp_bind, wp_become; [by apply kept_nothing_lost|done|]. intros s1 E1 H1. apply wp_ret. cbn [negb].
  apply wp_bind, wp_fprintf; [rewrite E1; by apply kept_temp|rewrite E1, lookup_insert_eq; eauto|done|]. intros s2 K2 T2 H2.
  apply wp_bind. unfold fflush.
  assert (∀ s, kept (now s) → fine s → wp (remove fs temp ≫= λ _, mret false : M files bool)
    (λ b s, wp (mret (if b : bool then ERROR_NONE else ERROR_RESOURCE)) (λ e s, fine s ∧ e = ERROR_RESOURCE ∧ others_kept (now s) ∧
       now s !! path = d !! path ∧ (false = false → true = false ∨ fails fs (Remove temp) = false → now s !! temp = None)) s) s) as Hfail.
  { intros s Hk Hf. apply wp_bind, wp_remove_temp; [by apply kept_nothing_lost..|done|]. intros b s' Hf' E. apply wp_ret, wp_ret.
    split; [done|]. split; [done|]. rewrite E. destruct (fails fs (Remove temp)).
    - split_and!; [apply (proj2 Hk)|apply (proj1 Hk)|]. intros _ [E'|E']; discriminate E'.
    - apply kept_delete_temp in Hk. split_and!; [apply (proj2 Hk)|apply (proj1 Hk)|]. intros _ _. apply lookup_delete_eq. }
  destruct (fails fs (Flush temp)) eqn:Ef.
  { apply wp_ret, wp_bind, wp_ret. rewrite !orb_true_r. cbn [orb]. by apply Hfail. }
  rewrite orb_false_r. apply wp_bind. destruct (fails fs (Write temp)) eqn:Ew; cbn [negb orb].
  { apply wp_ret, wp_ret, wp_bind, wp_ret. cbn [orb]. by apply Hfail. }
  apply wp_bind, wp_gets, wp_become; [by apply kept_nothing_lost|done|]. intros s3 E3 H3. apply wp_ret, wp_bind, wp_ret. cbn [orb negb].
  assert (kept (now s3)) as K3 by (rewrite E3; by apply kept_temp).
  rewrite negb_involutive. destruct (fails fs (Close temp)) eqn:Ec; [by apply Hfail|]. clear Hfail.
  assert (now s3 !! temp = Some content) as T3 by by rewrite E3, lookup_insert_eq.
  apply wp_bind. unfold remove at 1. apply wp_bind, wp_gets. rewrite (proj1 K3). fold old_stays.
  assert (∀ s, now s !! temp = Some content → others_kept (now s) → fine s → now s !! path = (if old_stays then d !! path else None) →
    wp (rename fs temp path ≫= λ renamed, if negb renamed then remove fs temp;; mret false else mret true) 
      (λ saved s, wp (mret (if saved : bool then ERROR_NONE else ERROR_RESOURCE)) (λ e s, fine s ∧ e = (if renaming_fails then ERROR_RESOURCE else ERROR_NONE) ∧ others_kept (now s) ∧
       now s !! path = (if renaming_fails then if old_stays then d !! path else None else Some content) ∧
       (false = false → renaming_fails = false ∨ fails fs (Remove temp) = false → now s !! temp = None)) s) s) as Hrename.
  { intros s Ht Ho Hf Hp. apply wp_bind. unfold rename. apply wp_bind, wp_gets. rewrite Ht.
    assert ((fails fs (Rename temp path) || (negb (replaces fs) && is_some (now s !! path)))%bool = renaming_fails) as ->.
    { rewrite Hp. unfold renaming_fails, old_stays. destruct (fails fs (Remove path)), (d !! path), (replaces fs); done. }
    destruct renaming_fails eqn:Er.
    - apply wp_ret. cbn [negb]. apply wp_bind, wp_remove_temp; [by right; right|done|done|]. intros b s' Hf' E. apply wp_ret, wp_ret.
      split; [done|]. split; [done|]. rewrite E. destruct (fails fs (Remove temp)).
      + split_and!; [done..|]. intros _ [E''|E'']; discriminate E''.
      + split_and!; [|by rewrite lookup_delete_ne|intros _ _; apply lookup_delete_eq]. intros q H4 H5. rewrite lookup_delete_ne by done. by apply Ho.
    - apply wp_bind, wp_become; [split; [by right; right|done]|done|]. intros s' E Hf'. apply wp_ret, wp_ret, wp_ret. rewrite E.
      split_and!; [done..| |by rewrite lookup_insert_eq|intros _ _; by rewrite lookup_insert_ne, lookup_delete_eq].
      intros q H4 H5. rewrite lookup_insert_ne, lookup_delete_ne by done. by apply Ho. }
  destruct old_stays eqn:Es.
  - apply wp_ret. apply (Hrename s3); [done|apply (proj2 K3)|done|apply (proj1 K3)].
  - apply wp_bind, wp_become; [by apply kept_nothing_lost|done|]. intros s4 E4 H4. apply wp_ret.
    apply (Hrename s4); rewrite ?E4; [by rewrite lookup_delete_ne| |done|apply lookup_delete_eq].
    intros q H5 H6. rewrite lookup_delete_ne by done. by apply (proj2 K3).
Qed.
End saving.

(** Without failures the file is saved, and what is read back are its entries. *)
Lemma close_open_no_faults (d : disk) (file : PropertiesFile) (order : list (text * text)) :
  entries_ok (entries file) → is_order order (entries file) →
  wp (properties_file_close no_faults file order) (λ e s, e = ERROR_NONE ∧ properties_file_open no_faults (now s) (file_path file) = Some file) (Files d []).
Proof.
  intros Hm Ho. eapply wp_mono; [apply close_outcome|]. intros e s (_ & He & _ & Hp & _). unfold writing_fails, renaming_fails in *. cbn in He, Hp.
  split; [done|]. unfold properties_file_open, load_from_file. cbn [fails no_faults]. rewrite Hp. cbn [mbind option_bind].
  rewrite (load_print order (entries file)) by done. by destruct file.
Qed.

(** C39: whatever calls of the C library fail, closing a properties file returns, and it
    succeeds exactly if the temporary file could be made, written, flushed and closed and
    could be put in the place of the old one - which needs the old one to be removed only
    where [rename] does not replace files.
    Then the file has the new text, and entries that fit the format are read back from it
    when it is opened again.  After a failure the old text is in its place, except when the
    rename failed after the old file had been removed: then the file is gone.  No other
    file changes, and no temporary file is left unless it could not be removed.  A reset at
    any moment before that finds the old text or the complete new one, in the file or in the
    temporary one. *)
Theorem properties_file_close_outcomes (fs : file_system) (d : disk) (file : PropertiesFile) (order : list (text * text)) :
  is_order order (entries file) →
  let path := file_path file in
  let temp := temp_path path in
  let content := print_entries order in
  let writing_fails := (fails fs (Open_write temp) || fails fs (Write temp) || fails fs (Flush temp) || fails fs (Close temp))%bool in
  let renaming_fails := (fails fs (Rename temp path) || (negb (replaces fs) && fails fs (Remove path) && is_some (d !! path)))%bool in
  ∃ e d' moments, properties_file_close fs file order (Files d []) = Done (e, Files d' moments) ∧
    (e = ERROR_NONE ∧ writing_fails = false ∧ renaming_fails = false ∧ d' !! path = Some content ∧ d' !! temp = None ∧
       (entries_ok (entries file) → properties_file_open no_faults d' path = Some file) ∨
     e = ERROR_RESOURCE ∧ (writing_fails || renaming_fails)%bool = true ∧
       d' !! path = (if (writing_fails || fails fs (Remove path))%bool then d !! path else None) ∧
       (fails fs (Open_write temp) = false → fails fs (Remove temp) = false → d' !! temp = None)) ∧
    (∀ q, q ≠ path → q ≠ temp → Forall (λ x, x !! q = d !! q) (moments ++ [d'])) ∧
    Forall (λ x, x !! path = d !! path ∨ x !! path = Some content ∨ x !! temp = Some content) moments.
Proof.
  intros Ho path temp content wf rf.
  destruct (wp_done _ _ _ (close_outcome fs file order d)) as (e & [d' moments] & E & Hf & He & Hq & Hp & Ht). exists e, d', moments. cbn [now before] in *.
  change (writing_fails fs file) with wf in *. change (renaming_fails fs file d) with rf in *. unfold old_stays in Hp. fold path temp content in Hp, Ht |- *.
  split; [done|]. split; [|split].
  - destruct (wf || rf)%bool eqn:Ew.
    + right. split_and!; [done..| |].
      * rewrite Hp. destruct wf; [done|]. cbn [orb] in *. rewrite Ew. destruct (fails fs (Remove path)); [done|]. by destruct (d !! path).
      * intros H1 H2. by apply Ht; [|right].
    + left. apply orb_false_iff in Ew as [Ew Er]. rewrite Ew, Er in Hp. split_and!; [done..| |].
      * apply Ht; [|by left]. unfold wf in Ew. by destruct (fails fs (Open_write temp)).
      * intros Hm. unfold properties_file_open, load_from_file. cbn [fails no_faults]. rewrite Hp. cbn [mbind option_bind].
        unfold content. rewrite (load_print order (entries file)) by done. by destruct file.
  - intros q H1 H2. apply Forall_app. split; [|by apply Forall_singleton, Hq]. eapply Forall_impl; [exact Hf|]. intros x [_ Hx]. by apply Hx.
  - eapply Forall_impl; [exact Hf|]. by intros x [Hx _].
Qed.

Definition demo_entries : gmap text text := list_to_map [($"ssid", $"my = net"); ($"port", $"80")].

Lemma demo_entries_ok : entries_ok demo_entries.
Proof.
  unfold entries_ok, demo_entries. cbn [list_to_map foldr uncurry fst snd].
  apply map_Forall_insert_2; [|apply map_Forall_insert_2; [|apply map_Forall_empty]];
    unfold key_ok, value_ok, trimmed; split_and!; try done; apply (bool_decide_unpack _); vm_compute; exact I.
Qed.

(** The old file cannot be removed and is not replaced: it stays. *)
Lemma properties_file_close_outcomes_witness :
  let file := {| file_path := $"/data/a"; entries := demo_entries |} in
  let fs := {| fails := λ c, match c with Remove p => bool_decide (p = $"/data/a") | _ => false end; buffered_from := 3; replaces := false |} in
  ∃ d' moments, properties_file_close fs file (map_to_list demo_entries) (Files {[ $"/data/a" := $"x=1" ]} []) = Done (ERROR_RESOURCE, Files d' moments) ∧
    d' !! ($"/data/a") = Some ($"x=1") ∧ d' !! ($"/data/a.tmp") = None.
Proof.
  intros file fs. destruct (properties_file_close_outcomes fs {[ $"/data/a" := $"x=1" ]} file (map_to_list demo_entries))
    as (e & d' & moments & E & [(_ & _ & H & _)|(-> & _ & Hp & Ht)] & _); [unfold is_order; reflexivity|exfalso; revert H; vm_compute; discriminate|].
  exists d', moments. split; [exact E|]. split; [exact Hp|exact (Ht eq_refl eq_refl)].
Defined.

(** And entries that are read back. *)
Lemma demo_entries_read_back :
  match properties_file_close no_faults {| file_path := $"/data/a"; entries := demo_entries |} (map_to_list demo_entries) (Files {[ $"/data/a" := $"x=1" ]} []) with
  | Done (e, s) => e = ERROR_NONE ∧ properties_file_open no_faults (now s) ($"/data/a") = Some {| file_path := $"/data/a"; entries := demo_entries |}
  | _ => False
  end.
Proof. vm_compute. split; reflexivity. Qed.

(** A key read in a section starts with a bracket; written back it is a section line, and
    the entry is lost. *)
Example section_entry_lost :
  let m := load_content ($"[net]" ++ [newline] ++ $"ssid=home") in
  map_to_list m = [($"[net]ssid", $"home")] ∧ map_to_list (load_content (print_entries (map_to_list m))) = [].
Proof. vm_compute. split; reflexivity. Qed.
