(* ===== verification/Preferences.v ===== *)
(** Preferences, TactilityKernel/source/preferences.cpp: typed values stored as tagged
    strings in a properties file. *)

From S2P Require Import Prelude Text PropertiesFile.

(** * Tagged values *)

Definition backslash : ascii := "092".

Fixpoint escape (value : text) : text :=
  match value with
  | [] => []
  | c :: v =>
      (if decide (c = backslash) then [backslash; backslash]
       else if decide (c = newline) then [backslash; "n"%char]
       else [c]) ++ escape v
  end.

Fixpoint unescape (value : text) : text :=
  match value with
  | [] => []
  | c :: v =>
      if decide (c = backslash) then
        match v with
        | [] => [c]
        | d :: v' => (if decide (d = "n"%char) then newline else d) :: unescape v'
        end
      else c :: unescape v
  end.

Definition split_tag (tagged_value : text) : option (text * text) := split_char ":" tagged_value.

Definition parse_bool (raw_value : text) : option bool :=
  if decide (raw_value = $"0") then Some false else if decide (raw_value = $"1") then Some true else None.

(** [parse_int32] and [parse_int64] on top of [strtol] with [long_bits] and [strtoll]. *)
Definition parse_int (c_bits w : Z) (raw_value : text) : option Z :=
  match raw_value with
  | [] => None
  | _ =>
      let '(parsed, end_, range) := strtol c_bits raw_value in
      if (range || negb (Nat.eqb end_ (length raw_value)))%bool then None
      else if ((parsed <? - 2^(w - 1)) || (2^(w - 1) - 1 <? parsed))%bool then None
      else Some parsed
  end.

Section preferences.
(** The width of [long]: 32 bits on the device, 64 in the simulator. *)
Context (long_bits : Z).

Definition parse_int32 (raw_value : text) : option Z := parse_int long_bits 32 raw_value.
Definition parse_int64 (raw_value : text) : option Z := parse_int 64 64 raw_value.

(** Preferences are the properties file they were opened with. *)
Record Preferences := { file : PropertiesFile }.

(** The loop of growing buffers; [None] when the fuel runs out. *)
Fixpoint grow_and_get (fuel : nat) (f : PropertiesFile) (key : text) (size : nat) : option (option (text * text)) :=
  match fuel with
  | O => None
  | S n =>
      let '(error, value) := properties_file_get f key size in
      if error =? ERROR_NONE then Some (split_tag (c_str (default [] value)))
      else if error =? ERROR_NOT_FOUND then Some None
      else grow_and_get n f key (size * 2)
  end.

(** Doubling from 32 passes the length of the value before that many steps. *)
Definition try_get_tagged (f : PropertiesFile) (key : text) : option (text * text) :=
  default None (grow_and_get (S (length (default [] (entries f !! key)))) f key 32).

(** The payload, if the value has the tag. *)
Definition tagged (p : Preferences) (key tag : text) : option text :=
  match try_get_tagged (file p) key with
  | Some (t, raw_value) => if decide (t = tag) then Some raw_value else None
  | None => None
  end.

Definition preferences_has_bool (p : Preferences) (key : text) : bool := is_some (tagged p key ($"b") ≫= parse_bool).
Definition preferences_has_int32 (p : Preferences) (key : text) : bool := is_some (tagged p key ($"i32") ≫= parse_int32).
Definition preferences_has_int64 (p : Preferences) (key : text) : bool := is_some (tagged p key ($"i64") ≫= parse_int64).
Definition preferences_has_string (p : Preferences) (key : text) : bool := is_some (tagged p key ($"s")).

(** What is stored in [*out_value]; [None] is [false]. *)
Definition preferences_opt_bool (p : Preferences) (key : text) : option bool := tagged p key ($"b") ≫= parse_bool.
Definition preferences_opt_int32 (p : Preferences) (key : text) : option Z := tagged p key ($"i32") ≫= parse_int32.
Definition preferences_opt_int64 (p : Preferences) (key : text) : option Z := tagged p key ($"i64") ≫= parse_int64.

(** The C string copied to the buffer. *)
Definition preferences_opt_string (p : Preferences) (key : text) (out_value_size : nat) : error_t * option text :=
  match tagged p key ($"s") with
  | None => (ERROR_NOT_FOUND, None)
  | Some raw_value =>
      let value := unescape raw_value in
      if (out_value_size <? length value + 1)%nat then (ERROR_BUFFER_OVERFLOW, None) else (ERROR_NONE, Some value)
  end.

Definition put (p : Preferences) (key value : text) : Preferences := {| file := properties_file_set (file p) key value |}.
Definition preferences_put_bool (p : Preferences) (key : text) (value : bool) : Preferences :=
  put p key (if value then $"b:1" else $"b:0").
Definition preferences_put_int32 (p : Preferences) (key : text) (value : Z) : Preferences :=
  put p key ($"i32:" ++ print_long value).
Definition preferences_put_int64 (p : Preferences) (key : text) (value : Z) : Preferences :=
  put p key ($"i64:" ++ print_long value).
Definition preferences_put_string (p : Preferences) (key value : text) : Preferences :=
  put p key ($"s:" ++ escape value).

(** Opening after the directory was made, and closing; failures are not reported. *)
Definition preferences_open (fs : file_system) (d : disk) (path : text) : option Preferences :=
  x ← properties_file_open fs d path; Some {| file := x |}.
Definition preferences_close (fs : file_system) (p : Preferences) (order : list (text * text)) : M files unit :=
  properties_file_close fs (file p) order;; mret tt.

(** * Lemmas *)

Implicit Types (k v s : text) (p : Preferences).

Lemma unescape_escape s : unescape (escape s) = s.
Proof.
  induction s as [|c s IH]; [done|]. cbn [escape]. destruct (decide (c = backslash)) as [->|Hb].
  - cbn [app unescape]. rewrite decide_True, decide_False by done. by rewrite IH.
  - destruct (decide (c = newline)) as [->|Hn]; cbn [app unescape].
    + rewrite !decide_True by done. by rewrite IH.
    + rewrite decide_False by done. by rewrite IH.
Qed.

Lemma grow_S n f k size :
  grow_and_get (S n) f k size =
    (let '(error, value) := properties_file_get f k size in
     if error =? ERROR_NONE then Some (split_tag (c_str (default [] value)))
     else if error =? ERROR_NOT_FOUND then Some None
     else grow_and_get n f k (size * 2)).
Proof. done. Qed.

(** The loop finds the value, however long it is. *)
Lemma grow_get fuel f k v size :
  entries f !! k = Some v → (0 < size)%nat → (length v < size * 2^fuel)%nat →
  grow_and_get (S fuel) f k size = Some (split_tag (c_str v)).
Proof.
  intros Hv. revert size. induction fuel as [|fuel IH]; intros size Hs Hl; rewrite grow_S;
    unfold properties_file_get; rewrite Hv.
  - rewrite (proj2 (Nat.ltb_ge _ _)) by (simpl in Hl; lia). done.
  - destruct (Nat.ltb_spec size (length v + 1)) as [Hlt|Hge]; [|done].
    change (ERROR_BUFFER_OVERFLOW =? ERROR_NONE) with false. change (ERROR_BUFFER_OVERFLOW =? ERROR_NOT_FOUND) with false.
    cbn iota. apply IH; [lia|]. rewrite Nat.pow_succ_r' in Hl. lia.
Qed.

Lemma try_get_eq f k v : entries f !! k = Some v → NUL ∉ v → try_get_tagged f k = split_tag v.
Proof.
  intros Hv Hn. unfold try_get_tagged. rewrite Hv. cbn [default from_option id].
  rewrite (grow_get (length v) f k v 32); [by rewrite c_str_id|done|lia|].
  pose proof (Nat.pow_gt_lin_r 2 (length v) ltac:(lia)). lia.
Qed.

Lemma try_get_other p k k' v : k' ≠ k → try_get_tagged (file (put p k v)) k' = try_get_tagged (file p) k'.
Proof.
  intros Hk. assert (entries (file (put p k v)) !! k' = entries (file p) !! k') as E by (simpl; by apply lookup_insert_ne).
  unfold try_get_tagged. rewrite E. f_equal. generalize 32%nat.
  generalize (S (length (default [] (entries (file p) !! k')))). induction n as [|n IH]; intros size; [done|].
  rewrite !grow_S. unfold properties_file_get. rewrite E. by rewrite IH.
Qed.

Lemma tagged_put p k tag raw : ":"%char ∉ tag → NUL ∉ (tag ++ ":"%char :: raw) → ∀ tag',
  tagged (put p k (tag ++ ":"%char :: raw)) k tag' = if decide (tag = tag') then Some raw else None.
Proof.
  intros Ht Hn tag'. unfold tagged. rewrite (try_get_eq _ k (tag ++ ":"%char :: raw)); [|simpl; by apply lookup_insert_eq|done].
  unfold split_tag. by rewrite split_char_app.
Qed.

Lemma tagged_other p k k' v tag : k' ≠ k → tagged (put p k v) k' tag = tagged p k' tag.
Proof. intros Hk. unfold tagged. by rewrite try_get_other. Qed.

Lemma print_long_chars z : Forall (λ c, c = "-"%char ∨ isdigit c = true) (print_long z) ∨ ¬ (- 2^63 ≤ z < 2^63).
Proof.
  destruct (decide (- 2^63 ≤ z < 2^63)) as [Hz|Hz]; [left|by right]. unfold print_long.
  assert (∀ n, 0 ≤ n ≤ 2^63 → Forall (λ c, c = "-"%char ∨ isdigit c = true) (print_digits 20 n [])) as Hd.
  { intros n Hn. destruct (print_digits_spec 20 n []) as (d & -> & _ & Hd & _); [lia|lia|]. rewrite app_nil_r.
    eapply Forall_impl; [exact Hd|]. by right. }
  destruct (Z.ltb_spec z 0); [constructor; [by left|]|]; apply Hd; lia.
Qed.

Lemma print_long_no z c : - 2^63 ≤ z < 2^63 → c ≠ "-"%char → isdigit c = false → c ∉ print_long z.
Proof.
  intros Hz Hm Hd Hc. destruct (print_long_chars z) as [Hall|?]; [|done].
  destruct (proj1 (Forall_forall _ _) Hall c Hc) as [->|?]; [done|congruence].
Qed.

Lemma parse_print c_bits w z :
  0 < w → w ≤ c_bits ≤ 64 → - 2^(w - 1) ≤ z < 2^(w - 1) → parse_int c_bits w (print_long z) = Some z.
Proof.
  intros Hw Hc Hz. assert (2^(w - 1) ≤ 2^(c_bits - 1)) as Hp by (apply Z.pow_le_mono_r; lia).
  unfold parse_int. rewrite strtol_print by lia. rewrite Nat.eqb_refl. cbn [orb negb].
  rewrite (proj2 (Z.ltb_ge _ _)), (proj2 (Z.ltb_ge _ _)) by lia. cbn [orb].
  pose proof (print_long_nonempty z). by destruct (print_long z).
Qed.
End preferences.

(** * Properties *)

(** A value of one of the four types, as it is put. *)
Inductive value :=
  | PBool (b : bool)
  | PInt32 (z : Z)
  | PInt64 (z : Z)
  | PString (s : text).

Definition value_in_range (v : value) : Prop :=
  match v with
  | PBool _ => True
  | PInt32 z => - 2^31 ≤ z < 2^31
  | PInt64 z => - 2^63 ≤ z < 2^63
  | PString s => NUL ∉ s
  end.

Definition put_value (p : Preferences) (k : text) (v : value) : Preferences :=
  match v with
  | PBool b => preferences_put_bool p k b
  | PInt32 z => preferences_put_int32 p k z
  | PInt64 z => preferences_put_int64 p k z
  | PString s => preferences_put_string p k s
  end.

(** Everything that can be read under a key. *)
Definition readings (long_bits : Z) (p : Preferences) (k : text) (size : nat) :
    option bool * option Z * option Z * (error_t * option text) :=
  (preferences_opt_bool p k, preferences_opt_int32 long_bits p k, preferences_opt_int64 p k, preferences_opt_string p k size).
Definition presence (long_bits : Z) (p : Preferences) (k : text) : bool * bool * bool * bool :=
  (preferences_has_bool p k, preferences_has_int32 long_bits p k, preferences_has_int64 p k, preferences_has_string p k).

(** What a value of a type gives: itself when it is read with its type, nothing with the
    others. *)
Definition reads_as (v : value) (size : nat) : option bool * option Z * option Z * (error_t * option text) :=
  (match v with PBool b => Some b | _ => None end,
   match v with PInt32 z => Some z | _ => None end,
   match v with PInt64 z => Some z | _ => None end,
   match v with
   | PString s => if (size <? length s + 1)%nat then (ERROR_BUFFER_OVERFLOW, None) else (ERROR_NONE, Some s)
   | _ => (ERROR_NOT_FOUND, None)
   end).
Definition present_as (v : value) : bool * bool * bool * bool :=
  match v with
  | PBool _ => (true, false, false, false)
  | PInt32 _ => (false, true, false, false)
  | PInt64 _ => (false, false, true, false)
  | PString _ => (false, false, false, true)
  end.

(** The tag and the payload of a value. *)
Definition tag_of (v : value) : text :=
  match v with PBool _ => $"b" | PInt32 _ => $"i32" | PInt64 _ => $"i64" | PString _ => $"s" end.
Definition payload_of (v : value) : text :=
  match v with
  | PBool b => if b then $"1" else $"0"
  | PInt32 z | PInt64 z => print_long z
  | PString s => escape s
  end.

Lemma put_value_eq p k v : put_value p k v = put p k (tag_of v ++ ":"%char :: payload_of v).
Proof. by destruct v as [[]| | |]. Qed.

Lemma escape_chars s c : c ∈ escape s → c ∈ s ∨ c = backslash ∨ c = "n"%char.
Proof.
  induction s as [|d s IH]; cbn [escape]; [by intros ?%not_elem_of_nil|]. intros [Hc|Hc]%elem_of_app; [|set_solver].
  destruct (decide (d = backslash)); [|destruct (decide (d = newline))]; set_solver.
Qed.

Lemma value_no_nul v : value_in_range v → NUL ∉ tag_of v ++ ":"%char :: payload_of v.
Proof.
  intros Hv. apply not_elem_of_app. split; [by destruct v; apply (bool_decide_unpack _); vm_compute|].
  apply not_elem_of_cons. split; [done|]. destruct v as [b|z|z|s]; simpl in Hv |- *.
  - destruct b; apply (bool_decide_unpack _); by vm_compute.
  - apply print_long_no; [lia|done|done].
  - by apply print_long_no.
  - intros [?|[?|?]]%escape_chars; done.
Qed.

Lemma tagged_put_value p k v tag' :
  value_in_range v → tagged (put_value p k v) k tag' = if decide (tag_of v = tag') then Some (payload_of v) else None.
Proof.
  intros Hv. rewrite put_value_eq. apply tagged_put; [|by apply value_no_nul].
  destruct v; apply (bool_decide_unpack _); by vm_compute.
Qed.

(** C33: preferences are a map from keys to typed values: a value that was put is read back
    with its type, and found by it alone, whatever was under the key before and however
    long it is; the other keys read as before. *)
Theorem preferences_typed_map (long_bits : Z) (p : Preferences) (k : text) (v : value) (size : nat) :
  32 ≤ long_bits ≤ 64 → value_in_range v →
  readings long_bits (put_value p k v) k size = reads_as v size ∧
  presence long_bits (put_value p k v) k = present_as v ∧
  ∀ k', k' ≠ k → readings long_bits (put_value p k v) k' size = readings long_bits p k' size ∧
                 presence long_bits (put_value p k v) k' = presence long_bits p k'.
Proof.
  intros Hb Hv.
  assert (match v with PInt32 z => parse_int32 long_bits (print_long z) = Some z
          | PInt64 z => parse_int64 (print_long z) = Some z | _ => True end) as Hp.
  { destruct v as [b|z|z|s]; try exact I; simpl in Hv; apply parse_print; lia. }
  unfold readings, presence, preferences_opt_bool, preferences_opt_int32, preferences_opt_int64, preferences_opt_string,
    preferences_has_bool, preferences_has_int32, preferences_has_int64, preferences_has_string.
  split_and!.
  - rewrite !tagged_put_value by done. destruct v as [[]|z|z|s]; try done; simpl.
    + by rewrite Hp.
    + by rewrite Hp.
    + by rewrite unescape_escape.
  - rewrite !tagged_put_value by done. destruct v as [[]|z|z|s]; try done; simpl; by rewrite Hp.
  - intros k' Hk. rewrite put_value_eq, !tagged_other by done. done.
Qed.

Lemma preferences_typed_map_witness :
  let p := {| file := {| file_path := $"/data/p"; entries := ∅ |} |} in
  let v := PString ($"a\b" ++ [newline]) in
  readings 32 (put_value p ($"name") v) ($"name") 100 = reads_as v 100 ∧
  presence 32 (put_value p ($"name") v) ($"name") = present_as v ∧
  ∀ k', k' ≠ $"name" → readings 32 (put_value p ($"name") v) k' 100 = readings 32 p k' 100 ∧
                       presence 32 (put_value p ($"name") v) k' = presence 32 p k'.
Proof.
  intros p v. apply (preferences_typed_map 32 p ($"name") v 100); [lia|].
  apply (bool_decide_unpack _). vm_compute. exact I.
Defined.

(** What a line of the file keeps of a value: a string must not end in a blank that the
    line's trimming removes. *)
Definition value_persists (v : value) : Prop :=
  value_in_range v ∧
  match v with
  | PString s => match reverse s with [] => True | c :: _ => c = newline ∨ line_blank c = false end
  | _ => True
  end.

Lemma not_blank_digit c : c = "-"%char ∨ isdigit c = true → line_blank c = false ∧ c ≠ newline.
Proof.
  intros [->|Hc]; [done|]. split; [|by intros ->].
  unfold line_blank. rewrite !bool_decide_false by (intros ->; done). done.
Qed.

Lemma last_escape s c s' : reverse s = c :: s' → c = newline ∨ line_blank c = false →
  ∃ x t, reverse (escape s) = x :: t ∧ line_blank x = false.
Proof.
  assert (∀ a b, escape (a ++ b) = escape a ++ escape b) as Happ.
  { induction a as [|d a IH]; intros b; [done|]. cbn [app escape]. by rewrite IH, app_assoc. }
  intros E Hc. assert (s = reverse s' ++ [c]) as -> by (rewrite <-(reverse_involutive s), E; apply reverse_cons).
  rewrite Happ, reverse_app. cbn [escape]. rewrite app_nil_r.
  destruct (decide (c = backslash)); [by do 2 eexists|]. destruct (decide (c = newline)); [by do 2 eexists|].
  destruct Hc as [?|Hc]; [done|]. by do 2 eexists.
Qed.

Lemma tagged_value_ok v : value_persists v → value_ok (tag_of v ++ ":"%char :: payload_of v).
Proof.
  intros [Hr Hv].
  assert (∃ c t, reverse (tag_of v ++ ":"%char :: payload_of v) = c :: t ∧ line_blank c = false) as (c & t & E & Hc).
  { rewrite reverse_app, reverse_cons.
    destruct v as [b|z|z|s]; cbn [payload_of].
    - destruct b; by do 2 eexists.
    - destruct (print_long_chars z) as [Hall|?]; [|simpl in Hr; lia]. apply Forall_reverse in Hall.
      destruct (reverse (print_long z)); [by do 2 eexists|]. apply Forall_cons in Hall as [Hc _].
      apply not_blank_digit in Hc as [? _]. by do 2 eexists.
    - destruct (print_long_chars z) as [Hall|?]; [|simpl in Hr; lia]. apply Forall_reverse in Hall.
      destruct (reverse (print_long z)); [by do 2 eexists|]. apply Forall_cons in Hall as [Hc _].
      apply not_blank_digit in Hc as [? _]. by do 2 eexists.
    - destruct (reverse s) as [|c s'] eqn:E.
      + assert (s = []) as -> by (rewrite <-(reverse_involutive s), E; done). by do 2 eexists.
      + destruct (last_escape s c s' E Hv) as (x & t & -> & Hx). by do 2 eexists. }
  assert (blank c = false) as Hb.
  { unfold blank. unfold line_blank in Hc. apply orb_false_iff in Hc as [Hc _]. by apply orb_false_iff in Hc as [Hc _]. }
  split; [|split].
  - apply not_elem_of_app. split; [by destruct v; apply (bool_decide_unpack _); vm_compute|].
    apply not_elem_of_cons. split; [done|]. destruct v as [b|z|z|s]; simpl in Hr |- *.
    + destruct b; apply (bool_decide_unpack _); by vm_compute.
    + apply print_long_no; [lia|done|done].
    + by apply print_long_no.
    + clear. induction s as [|d s IH]; cbn [escape]; [by intros ?%not_elem_of_nil|]. apply not_elem_of_app. split; [|done].
      destruct (decide (d = backslash)); [|destruct (decide (d = newline))];
        [apply (bool_decide_unpack _); by vm_compute..|]. by intros ?%list_elem_of_singleton.
  - split; [by destruct v|]. by rewrite E.
  - by rewrite E.
Qed.

(** Preferences survive a restart: after a value is put and the preferences are closed,
    opening them again gives the preferences that were closed, with every value of every
    key. *)
Theorem preferences_persist (d : disk) (p : Preferences) (k : text) (v : value) (order : list (text * text)) :
  entries_ok (entries (file p)) → key_ok k → value_persists v → is_order order (entries (file (put_value p k v))) →
  wp (preferences_close no_faults (put_value p k v) order)
    (λ _ s, preferences_open no_faults (now s) (file_path (file p)) = Some (put_value p k v)) (Files d []).
Proof.
  intros Hm Hk Hv Ho. set (q := put_value p k v) in *.
  assert (file_path (file q) = file_path (file p)) as Hpath by (unfold q; by rewrite put_value_eq).
  assert (entries_ok (entries (file q))) as Hq.
  { unfold q. rewrite put_value_eq. simpl. apply map_Forall_insert_2; [|done]. split; [done|by apply tagged_value_ok]. }
  unfold preferences_open, preferences_close. rewrite <-Hpath. apply wp_bind. eapply wp_mono; [by apply close_open_no_faults|].
  intros e s [_ E]. apply wp_ret. rewrite E. by destruct q.
Qed.

Lemma preferences_persist_witness :
  let p := {| file := {| file_path := $"/data/p"; entries := ∅ |} |} in
  let v := PString ($" two lines" ++ [newline]) in
  wp (preferences_close no_faults (put_value p ($"name") v) [($"name", $"s: two lines\n")])
    (λ _ s, preferences_open no_faults (now s) ($"/data/p") = Some (put_value p ($"name") v)) (Files ∅ []).
Proof.
  intros p v. apply (preferences_persist ∅ p ($"name") v [($"name", $"s: two lines\n")]).
  - apply map_Forall_empty.
  - unfold key_ok, trimmed. split_and!; try done; apply (bool_decide_unpack _); vm_compute; exact I.
  - split; [apply (bool_decide_unpack _); vm_compute; exact I|by left].
  - unfold is_order. vm_compute. reflexivity.
Defined.

(** A string that ends in a space comes back without it. *)
Example trailing_space_lost :
  let p := preferences_put_string {| file := {| file_path := $"/data/p"; entries := ∅ |} |} ($"name") ($"a ") in
  let order := map_to_list (entries (file p)) in
  match '(_, s) ← match preferences_close no_faults p order (Files ∅ []) with Done r => Some r | _ => None end;
      preferences_open no_faults (now s) ($"/data/p") with
  | Some q => preferences_opt_string q ($"name") 10 = (ERROR_NONE, Some ($"a"))
  | None => False
  end.
Proof. vm_compute. reflexivity. Qed.
