(* ===== verification/Vterm.v ===== *)
(** The virtual terminal manager (app/terminal/vterm/vterm.c): the character grid, the
    escape sequence interpreter, and the operations on the set of terminals.

    A character cell is a [cell]; a [screen] holds the fields of [vterm_t] that a write
    reads and changes.  While a write runs, [cells] is the buffer the terminal's pointer
    refers to; [lost] collects the lines handed to the scroll callback and [sent] the bytes
    of status reports, in their order.  An index outside the grid and a number outside the
    range of [int] are [Undef].  [Panic] stands for a task that never comes back: the loop
    over the parameters of a colour sequence does not advance over a byte that is neither
    a digit nor a semicolon (see [sgr_loop]). *)

From S2P Require Import Prelude Text.

(** * Configuration and data (vterm.h) *)

(** Kconfig and memory capabilities choose the number of terminals and the grid. *)
Class Config := { VTERM_COUNT : Z; VTERM_ROWS : Z; VTERM_COLS : Z }.
Definition spiram_config : Config := {| VTERM_COUNT := 4; VTERM_ROWS := 37; VTERM_COLS := 128 |}.
Definition single_config : Config := {| VTERM_COUNT := 1; VTERM_ROWS := 37; VTERM_COLS := 128 |}.

Definition VTERM_BLACK : Z := 0.
Definition VTERM_WHITE : Z := 7.
Definition VTERM_BRIGHT : Z := 8.

(** An attribute is a byte: the background in the upper half, the foreground in the lower. *)
Definition VTERM_ATTR (fg bg : Z) : Z := Z.lor (Z.shiftl bg 4) (Z.land fg 15) mod 256.
Definition VTERM_ATTR_FG (attr : Z) : Z := Z.land attr 15.
Definition VTERM_ATTR_BG (attr : Z) : Z := Z.land (Z.shiftr attr 4) 15.
Definition VTERM_DEFAULT_ATTR : Z := VTERM_ATTR VTERM_WHITE VTERM_BLACK.

Record cell := Cell { ch : ascii; attr : Z }.
#[export] Instance cell_eq_dec : EqDecision cell. Proof. solve_decision. Defined.
Definition blank : cell := Cell " " VTERM_DEFAULT_ATTR.

Record screen := Screen {
  cells : list cell;
  cursor_x : Z;
  cursor_y : Z;
  cursor_visible : bool;
  current_attr : Z;
  (** 0: text, 1: after ESC, 2: inside ESC [ *)
  escape_state : Z;
  (** the [escape_len] bytes stored so far *)
  escape_buf : text;
  pending_wrap : bool;
  scroll_top : Z;
  scroll_bottom : Z;
  lost : list (list cell);
  sent : text;
}.
#[export] Instance screen_settable : Settable screen :=
  constr Screen <*> cells <*> cursor_x <*> cursor_y <*> cursor_visible <*> current_attr <*> escape_state <*> escape_buf
    <*> pending_wrap <*> scroll_top <*> scroll_bottom <*> lost <*> sent.

Definition ESCAPE_BUF_SIZE : nat := 32.

(** What the calling task sees: the size of its screen, and whether a line that leaves the
    grid is handed to the scroll callback. *)
Class Drawable := { effective_rows : Z; effective_cols : Z; scroll_hook : bool }.

(** A result of [int] arithmetic. *)
Definition int {S} (z : Z) : M S Z := if ((- 2^31 <=? z) && (z <? 2^31))%bool then mret z else undef.

(** [atoi]; undefined for a number that is no [int]. *)
Definition atoi {S} (s : text) : M S Z :=
  let '(v, _, out_of_range) := strtol 32 s in if (out_of_range : bool) then undef else mret v.

(** [sscanf(s, "%d;%d", &row, &col)]. *)
Definition scan_pair {S} (s : text) (row col : Z) : M S (Z * Z) :=
  let '(row', n, out_of_range) := strtol 32 s in
  if (n =? 0)%nat then mret (row, col)
  else if (out_of_range : bool) then undef
  else match drop n s with
       | ";"%char :: rest =>
           let '(col', n', out_of_range') := strtol 32 rest in
           if (n' =? 0)%nat then mret (row', col) else if (out_of_range' : bool) then undef else mret (row', col')
       | _ => mret (row', col)
       end.

Section write.
Context `{Config} `{Drawable}.

(** * Cells *)

Definition set_cell (i : Z) (c : cell) : M screen unit := λ s,
  if ((0 <=? i) && (i <? Z.of_nat (length (cells s))))%bool
  then Done (tt, s <| cells := <[Z.to_nat i := c]> (cells s) |>) else Undef.

(** [for (i = start; i < end; i++) cells[i] = c], as the number of steps and the start. *)
Fixpoint fill (n : nat) (i : Z) (c : cell) : M screen unit :=
  match n with O => mret tt | S n => set_cell i c;; fill n (i + 1) c end.
Definition fill_range (start stop : Z) (c : cell) : M screen unit := fill (Z.to_nat (stop - start)) start c.

(** [memmove] of cells, which may overlap. *)
Definition memmove (dst src n : Z) : M screen unit := λ s,
  let len := Z.of_nat (length (cells s)) in
  if ((0 <=? n) && (0 <=? src) && (src + n <=? len) && (0 <=? dst) && (dst + n <=? len))%bool
  then
    let moved := take (Z.to_nat n) (drop (Z.to_nat src) (cells s)) in
    Done (tt, s <| cells := take (Z.to_nat dst) (cells s) ++ moved ++ drop (Z.to_nat (dst + n)) (cells s) |>)
  else Undef.

(** A cell in the current attribute. *)
Definition erased (s : screen) : cell := Cell " " (current_attr s).

(** * Scrolling *)

Definition vterm_scroll : M screen unit :=
  (if scroll_hook then modify (λ s, s <| lost := lost s ++ [take (Z.to_nat VTERM_COLS) (cells s)] |>) else mret tt);;
  let rows := effective_rows in
  memmove 0 VTERM_COLS ((rows - 1) * VTERM_COLS);;
  fill_range ((rows - 1) * VTERM_COLS) (rows * VTERM_COLS) blank;;
  modify (λ s, s <| cursor_y := rows - 1 |>).

Definition region_bottom (s : screen) : Z :=
  let rows := effective_rows in
  if ((0 <? scroll_bottom s) && (scroll_bottom s <? rows))%bool then scroll_bottom s else rows.

Definition clear_rows (from to : Z) : M screen unit := fill_range (from * VTERM_COLS) (to * VTERM_COLS) blank.

Definition vterm_scroll_region_up : M screen unit :=
  top ← gets scroll_top;
  bottom ← gets region_bottom;
  if ((top =? 0) && (bottom =? effective_rows))%bool then vterm_scroll
  else
    (if 1 <? bottom - top then memmove (top * VTERM_COLS) ((top + 1) * VTERM_COLS) ((bottom - top - 1) * VTERM_COLS)
     else mret tt);;
    clear_rows (bottom - 1) bottom.

Definition vterm_scroll_region_down : M screen unit :=
  top ← gets scroll_top;
  bottom ← gets region_bottom;
  (if 1 <? bottom - top then memmove ((top + 1) * VTERM_COLS) (top * VTERM_COLS) ((bottom - top - 1) * VTERM_COLS)
   else mret tt);;
  clear_rows top (top + 1).

Definition vterm_line_feed : M screen unit :=
  s ← get;
  if cursor_y s =? region_bottom s - 1 then vterm_scroll_region_up
  else if cursor_y s <? effective_rows - 1 then put (s <| cursor_y := cursor_y s + 1 |>)
  else mret tt.

(** * Characters *)

(** The [do ... while] loop of a tab: a cell is erased, then the cursor moves on, up to a
    multiple of eight or the last column.  Eight steps reach one of them. *)
Fixpoint tab_loop (fuel : nat) (p : Z) : M screen unit :=
  match fuel with
  | O => mret tt
  | S fuel =>
      s ← get;
      set_cell p (erased s);;
      modify (λ s, s <| cursor_x := cursor_x s + 1 |>);;
      x ← gets cursor_x;
      if ((x <? effective_cols) && negb (x mod 8 =? 0))%bool then tab_loop fuel (p + 1) else mret tt
  end.

Definition vterm_putchar_internal (c : ascii) : M screen unit :=
  s ← get;
  (if (pending_wrap s && isprint c)%bool then put (s <| pending_wrap := false |> <| cursor_x := 0 |>);; vterm_line_feed
   else mret tt);;
  s ← get;
  let cell := cursor_y s * VTERM_COLS + cursor_x s in
  match c with
  | "010"%char => put (s <| pending_wrap := false |> <| cursor_x := 0 |>);; vterm_line_feed
  | "013"%char => put (s <| pending_wrap := false |> <| cursor_x := 0 |>)
  | "008"%char =>
      put (s <| pending_wrap := false |>);;
      if 0 <? cursor_x s then
        modify (λ s, s <| cursor_x := cursor_x s - 1 |>);; set_cell (cell - 1) (erased s)
      else mret tt
  | "009"%char =>
      put (s <| pending_wrap := false |>);;
      tab_loop 8 cell;;
      x ← gets cursor_x;
      if effective_cols <=? x then modify (λ s, s <| cursor_x := effective_cols - 1 |> <| pending_wrap := true |>) else mret tt
  | _ =>
      if isprint c then
        set_cell cell (Cell c (current_attr s));;
        if effective_cols <=? cursor_x s + 1 then modify (λ s, s <| pending_wrap := true |>)
        else modify (λ s, s <| cursor_x := cursor_x s + 1 |>)
      else mret tt
  end.

(** Cells are stored in pairs, one 32-bit word at a time, as long as the word starts before
    the end: with an odd number of cells the last store would leave the buffer. *)
Fixpoint fill_pairs (n : nat) (i : Z) : M screen unit :=
  match n with O => mret tt | S n => set_cell i blank;; set_cell (i + 1) blank;; fill_pairs n (i + 2) end.

Definition vterm_clear_internal : M screen unit :=
  fill_pairs (Z.to_nat ((VTERM_ROWS * VTERM_COLS + 1) / 2)) 0;;
  modify (λ s, s <| cursor_x := 0 |> <| cursor_y := 0 |> <| cursor_visible := true |>
    <| current_attr := VTERM_DEFAULT_ATTR |> <| pending_wrap := false |>).

(** * Colours (Select Graphic Rendition) *)

(** The number at the start of the parameters, and what follows it and its semicolon. *)
Fixpoint sgr_digits (num : Z) (p : text) : M screen (Z * text) :=
  match p with
  | c :: p' => if isdigit c then num ← int (num * 10); num ← int (num + (code c - 48)); sgr_digits num p' else mret (num, p)
  | [] => mret (num, p)
  end.
Definition sgr_parse_num (p : text) : M screen (Z * text) :=
  '(num, p) ← sgr_digits 0 p;
  mret (num, match p with ";"%char :: p' => p' | _ => p end).

Definition set_attr (f : Z → Z) : M screen unit := modify (λ s, s <| current_attr := f (current_attr s) |>).

(** Extended colours (38;5;N and 38;2;R;G;B) are skipped. *)
Definition sgr_skip_extended (p : text) : M screen text :=
  '(mode, p) ← sgr_parse_num p;
  if mode =? 5 then '(_, p) ← sgr_parse_num p; mret p
  else if mode =? 2 then
    '(_, p) ← sgr_parse_num p; '(_, p) ← sgr_parse_num p; '(_, p) ← sgr_parse_num p; mret p
  else mret p.

(** One number: [bright] and the parameters left after it. *)
Definition sgr_code (num bright : Z) (p : text) : M screen (Z * text) :=
  if ((90 <=? num) && (num <=? 97))%bool then
    set_attr (λ a, VTERM_ATTR (Z.lor (num - 90) VTERM_BRIGHT) (VTERM_ATTR_BG a));; mret (bright, p)
  else if ((30 <=? num) && (num <=? 37))%bool then
    set_attr (λ a, VTERM_ATTR (Z.lor (num - 30) bright) (VTERM_ATTR_BG a));; mret (bright, p)
  else if num =? 0 then set_attr (λ _, VTERM_DEFAULT_ATTR);; mret (0, p)
  else if num =? 1 then
    set_attr (λ a, VTERM_ATTR (Z.lor (VTERM_ATTR_FG a) VTERM_BRIGHT) (VTERM_ATTR_BG a));; mret (VTERM_BRIGHT, p)
  else if num =? 22 then
    set_attr (λ a, VTERM_ATTR (Z.land (VTERM_ATTR_FG a) 7) (VTERM_ATTR_BG a));; mret (0, p)
  else if num =? 38 then p ← sgr_skip_extended p; mret (bright, p)
  else if num =? 39 then set_attr (λ a, VTERM_ATTR VTERM_WHITE (VTERM_ATTR_BG a));; mret (bright, p)
  else if ((40 <=? num) && (num <=? 47))%bool then
    set_attr (λ a, VTERM_ATTR (VTERM_ATTR_FG a) (num - 40));; mret (bright, p)
  else if num =? 48 then p ← sgr_skip_extended p; mret (bright, p)
  else if num =? 49 then set_attr (λ a, VTERM_ATTR (VTERM_ATTR_FG a) VTERM_BLACK);; mret (bright, p)
  else if ((100 <=? num) && (num <=? 107))%bool then
    set_attr (λ a, VTERM_ATTR (VTERM_ATTR_FG a) (Z.lor (num - 100) VTERM_BRIGHT));; mret (bright, p)
  else mret (bright, p).

(** The task that never comes back. *)
Definition never_returns {A} : M screen A := λ _, Panic.

(** [while ( *p)]: a byte that is neither a digit nor a semicolon is not consumed, so the
    loop goes round for ever; each other round consumes one byte or more. *)
Fixpoint sgr_loop (fuel : nat) (bright : Z) (p : text) : M screen unit :=
  match p with
  | [] => mret tt
  | _ =>
      match fuel with
      | O => never_returns
      | S fuel =>
          '(num, p) ← sgr_parse_num p;
          '(bright, p) ← sgr_code num bright p;
          sgr_loop fuel bright p
      end
  end.

(** What the first test skips: a single zero and its semicolon. *)
Definition sgr_start (p : text) : option text :=
  match p with
  | [] => Some []
  | ["0"%char] => Some []
  | "0"%char :: ";"%char :: p' => Some p'
  | _ => None
  end.

Definition vterm_apply_sgr (params : text) : M screen unit :=
  p ← match sgr_start params with
      | Some p => set_attr (λ _, VTERM_DEFAULT_ATTR);; mret p
      | None => mret params
      end;
  sgr_loop (length p) 0 p.

(** * Control sequences *)

(** The parameter of a sequence that takes a number: [none] when there is no parameter. *)
Definition param (buf : text) (none : Z) : M screen Z := match buf with [] => mret none | _ => atoi buf end.
(** Most sequences take at least one. *)
Definition count_param (buf : text) : M screen Z := n ← param buf 1; mret (Z.max n 1).

Definition csi_erase_display (buf : text) : M screen unit :=
  mode ← param buf 0;
  if mode =? 2 then vterm_clear_internal
  else
    s ← get;
    let cursor := cursor_y s * VTERM_COLS + cursor_x s in
    if mode =? 0 then fill_range cursor (VTERM_ROWS * VTERM_COLS) (erased s)
    else if mode =? 1 then fill_range 0 (cursor + 1) (erased s)
    else mret tt.

Definition csi_position (buf : text) : M screen unit :=
  if (bool_decide (buf = []) || bool_decide (buf = $"1;1"))%bool
  then modify (λ s, s <| cursor_x := 0 |> <| cursor_y := 0 |>)
  else
    '(row, col) ← scan_pair buf 1 1;
    let y := if 0 <? row then row - 1 else 0 in
    let x := if 0 <? col then col - 1 else 0 in
    modify (λ s, s
      <| cursor_y := if effective_rows <=? y then effective_rows - 1 else y |>
      <| cursor_x := if effective_cols <=? x then effective_cols - 1 else x |>).

Definition csi_up (buf : text) : M screen unit :=
  n ← count_param buf; y0 ← gets cursor_y; y ← int (y0 - n);
  modify (λ s, s <| cursor_y := if y <? 0 then 0 else y |>).
Definition csi_down (buf : text) : M screen unit :=
  n ← count_param buf; y0 ← gets cursor_y; y ← int (y0 + n);
  modify (λ s, s <| cursor_y := if VTERM_ROWS <=? y then VTERM_ROWS - 1 else y |>).
Definition csi_right (buf : text) : M screen unit :=
  n ← count_param buf; x0 ← gets cursor_x; x ← int (x0 + n);
  modify (λ s, s <| cursor_x := if VTERM_COLS <=? x then VTERM_COLS - 1 else x |>).
Definition csi_left (buf : text) : M screen unit :=
  n ← count_param buf; x0 ← gets cursor_x; x ← int (x0 - n);
  modify (λ s, s <| cursor_x := if x <? 0 then 0 else x |>).

Definition csi_erase_line (buf : text) : M screen unit :=
  mode ← param buf 0;
  s ← get;
  let row := cursor_y s * VTERM_COLS in
  let start := if mode =? 0 then cursor_x s else 0 in
  let stop := if mode =? 0 then VTERM_COLS else if mode =? 1 then cursor_x s + 1 else VTERM_COLS in
  fill_range (row + start) (row + stop) (erased s).

Definition csi_erase_chars (buf : text) : M screen unit :=
  n ← count_param buf;
  s ← get;
  stop ← int (cursor_x s + n);
  let stop := if VTERM_COLS <? stop then VTERM_COLS else stop in
  let row := cursor_y s * VTERM_COLS in
  fill_range (row + cursor_x s) (row + stop) (erased s).

Definition csi_insert_lines (buf : text) : M screen unit :=
  s ← get;
  let bottom := region_bottom s in
  let y := cursor_y s in
  if ((y <? scroll_top s) || (bottom <=? y))%bool then mret tt
  else
    n ← count_param buf;
    let n := if bottom - y <? n then bottom - y else n in
    let lines_to_move := bottom - y - n in
    (if 0 <? lines_to_move then memmove ((y + n) * VTERM_COLS) (y * VTERM_COLS) (lines_to_move * VTERM_COLS) else mret tt);;
    clear_rows y (y + n).

Definition csi_delete_lines (buf : text) : M screen unit :=
  s ← get;
  let bottom := region_bottom s in
  let y := cursor_y s in
  if ((y <? scroll_top s) || (bottom <=? y))%bool then mret tt
  else
    n ← count_param buf;
    let n := if bottom - y <? n then bottom - y else n in
    let lines_to_move := bottom - y - n in
    (if 0 <? lines_to_move then memmove (y * VTERM_COLS) ((y + n) * VTERM_COLS) (lines_to_move * VTERM_COLS) else mret tt);;
    clear_rows (bottom - n) bottom.

Definition csi_scroll_region (buf : text) : M screen unit :=
  let rows := effective_rows in
  top ← match buf with [] | ";"%char :: _ => mret 1 | _ => atoi buf end;
  bottom ← match split_char ";" buf with Some (_, (_ :: _) as after) => atoi after | _ => mret rows end;
  let top := if top <? 1 then 1 else top in
  let bottom := if ((rows <? bottom) || (bottom <? 1))%bool then rows else bottom in
  modify (λ s,
    (if top <? bottom then s <| scroll_top := top - 1 |> <| scroll_bottom := if bottom =? rows then 0 else bottom |> else s)
    <| cursor_x := 0 |> <| cursor_y := 0 |>).

Definition csi_column (buf : text) : M screen unit :=
  n ← count_param buf;
  modify (λ s, s <| cursor_x := if effective_cols <=? n - 1 then effective_cols - 1 else n - 1 |>).

(** Device Status Report: the cursor position goes to the input queue of the active terminal. *)
Definition csi_report (buf : text) : M screen unit :=
  if bool_decide (buf = $"6") then
    modify (λ s, s <| sent := sent s ++
      "027"%char :: "["%char :: print_long (cursor_y s + 1) ++ ";"%char :: print_long (cursor_x s + 1) ++ $"R" |>)
  else mret tt.

(** The [switch] on the final byte of a sequence. *)
Definition csi_dispatch (c : ascii) (buf : text) : M screen unit :=
  match c with
  | "m"%char => vterm_apply_sgr buf
  | "J"%char => csi_erase_display buf
  | "H"%char | "f"%char => csi_position buf
  | "A"%char => csi_up buf
  | "B"%char => csi_down buf
  | "C"%char => csi_right buf
  | "D"%char => csi_left buf
  | "K"%char => csi_erase_line buf
  | "X"%char => csi_erase_chars buf
  | "L"%char => csi_insert_lines buf
  | "M"%char => csi_delete_lines buf
  | "r"%char => csi_scroll_region buf
  | "G"%char => csi_column buf
  | "n"%char => csi_report buf
  | _ => mret tt
  end.

Definition end_escape (s : screen) : screen := s <| escape_state := 0 |>.

(** The parameters once the final byte has been taken off again. *)
Definition escape_params (buf : text) : text := c_str (take (length buf - 1) buf).

Definition vterm_private_mode (c : ascii) (buf : text) (s : screen) : screen :=
  if (bool_decide (c = "h"%char) && bool_decide (buf = $"?25"))%bool then s <| cursor_visible := true |>
  else if (bool_decide (c = "l"%char) && bool_decide (buf = $"?25"))%bool then s <| cursor_visible := false |>
  else s.

(** Inside ESC [: the byte is stored while there is room, and a letter ends the sequence. *)
Definition vterm_csi (c : ascii) : M screen unit :=
  modify (λ s, if (length (escape_buf s) <? ESCAPE_BUF_SIZE - 1)%nat then s <| escape_buf := escape_buf s ++ [c] |> else s);;
  if isalpha c then
    buf ← gets (λ s, escape_params (escape_buf s));
    match buf with
    | "?"%char :: _ => modify (vterm_private_mode c buf)
    | _ => modify (λ s, s <| pending_wrap := false |>);; csi_dispatch c buf
    end;;
    modify (λ s, s <| escape_state := 0 |> <| escape_buf := [] |>)
  else mret tt.

(** After ESC: true if the byte is part of the sequence. *)
Definition vterm_escape_letter (c : ascii) : M screen bool :=
  match c with
  | "["%char => modify (λ s, s <| escape_state := 2 |>);; mret true
  | "D"%char => vterm_line_feed;; modify end_escape;; mret true
  | "M"%char =>
      s ← get;
      (if cursor_y s =? scroll_top s then vterm_scroll_region_down
       else if 0 <? cursor_y s then put (s <| cursor_y := cursor_y s - 1 |>) else mret tt);;
      modify end_escape;; mret true
  | "E"%char => modify (λ s, s <| cursor_x := 0 |>);; vterm_line_feed;; modify end_escape;; mret true
  | _ => modify end_escape;; mret false
  end.

(** True if the byte was taken as part of an escape sequence. *)
Definition vterm_handle_escape (c : ascii) : M screen bool :=
  state ← gets escape_state;
  if state =? 0 then
    if bool_decide (c = "027"%char) then modify (λ s, s <| escape_state := 1 |> <| escape_buf := [] |>);; mret true
    else mret false
  else if state =? 1 then vterm_escape_letter c
  else vterm_csi c;; mret true.

(** * Writing *)

(** The local variables of [vterm_write]: copies of the fields, and the two pointers into
    the row. *)
Record cache := Cache { cx : Z; cy : Z; cattr : Z; mode : Z; wrap : bool; cursor_ptr : Z; row_end : Z }.

Definition row_at (x y : Z) : Z * Z := (y * VTERM_COLS + x, y * VTERM_COLS + effective_cols).
Definition read_cache (s : screen) : cache :=
  let '(p, e) := row_at (cursor_x s) (cursor_y s) in
  Cache (cursor_x s) (cursor_y s) (current_attr s) (escape_state s) (pending_wrap s) p e.
Definition flush_cache (k : cache) (s : screen) : screen :=
  s <| cursor_x := cx k |> <| cursor_y := cy k |> <| current_attr := cattr k |> <| escape_state := mode k |>
    <| pending_wrap := wrap k |>.

(** A printable character outside an escape sequence. *)
Definition write_fast (c : ascii) (k : cache) : M screen cache :=
  k ← (if wrap k then
         modify (λ s, s <| cursor_x := 0 |> <| cursor_y := cy k |>);;
         vterm_line_feed;;
         y ← gets cursor_y;
         let '(p, e) := row_at 0 y in
         mret (Cache 0 y (cattr k) (mode k) false p e)
       else mret k);
  set_cell (cursor_ptr k) (Cell c (cattr k));;
  if row_end k <=? cursor_ptr k + 1
  then mret (Cache (cx k) (cy k) (cattr k) (mode k) true (cursor_ptr k) (row_end k))
  else mret (Cache (cx k + 1) (cy k) (cattr k) (mode k) (wrap k) (cursor_ptr k + 1) (row_end k)).

(** Any other byte: the fields are written back, and read again afterwards. *)
Definition write_slow (c : ascii) (k : cache) : M screen cache :=
  modify (flush_cache k);;
  taken ← vterm_handle_escape c;
  (if (taken : bool) then mret tt else vterm_putchar_internal c);;
  s ← get;
  let k' := Cache (cx k) (cy k) (current_attr s) (escape_state s) (pending_wrap s) (cursor_ptr k) (row_end k) in
  if (negb (cursor_x s =? cx k) || negb (cursor_y s =? cy k))%bool then
    let '(p, e) := row_at (cursor_x s) (cursor_y s) in
    mret (Cache (cursor_x s) (cursor_y s) (cattr k') (mode k') (wrap k') p e)
  else mret k'.

Fixpoint write_loop (data : text) (k : cache) : M screen cache :=
  match data with
  | [] => mret k
  | c :: data =>
      k ← (if ((mode k =? 0) && isprint c)%bool then write_fast c k else write_slow c k);
      write_loop data k
  end.

(** [vterm_write] on the screen of one terminal. *)
Definition screen_write (data : text) : M screen unit :=
  k ← gets read_cache;
  k ← write_loop data k;
  modify (flush_cache k).
End write.

(** * Writes, character after character *)

(** * One character at a time

    What a write means, without the copies of the fields and the pointers that
    [vterm_write] keeps: each character goes to the escape parser, and is printed if that
    does not take it. *)

(** Two continuations that agree on every result. *)
Lemma bind_ext {S A B} (m : M S A) (f g : A → M S B) s :
  (∀ a s', f a s' = g a s') → (m ≫= f) s = (m ≫= g) s.
Proof. intros Hfg. unfold mbind, M_bind. by destruct (m s) as [[a s']| |]. Qed.
Lemma bind_bind {S A B C} (m : M S A) (f : A → M S B) (g : B → M S C) s :
  ((m ≫= f) ≫= g) s = (m ≫= (λ a, f a ≫= g)) s.
Proof. unfold mbind, M_bind. by destruct (m s) as [[a s']| |]. Qed.

Section reference.
Context `{Config} `{Drawable}.

Definition put_char (c : ascii) : M screen unit :=
  taken ← vterm_handle_escape c;
  if (taken : bool) then mret tt else vterm_putchar_internal c.
Definition put_chars (data : text) : M screen unit := for_list put_char data.

(** * Updates that an operation does not look at *)

(** The outcome with a function applied to its state. *)
Definition map_state {A} (g : screen → screen) (o : outcome (A * screen)) : outcome (A * screen) :=
  match o with Done (a, s) => Done (a, g s) | Panic => Panic | Undef => Undef end.
Definition ignores {A} (g : screen → screen) (m : M screen A) : Prop := ∀ s, m (g s) = map_state g (m s).

Lemma ignores_ret {A} g (a : A) : ignores g (mret a).
Proof. by intros s. Qed.
Lemma ignores_bind {A B} g (m : M screen A) (f : A → M screen B) :
  ignores g m → (∀ a, ignores g (f a)) → ignores g (m ≫= f).
Proof.
  intros Hm Hf s. unfold mbind, M_bind. rewrite Hm. destruct (m s) as [[a s']| |]; simpl; [|done..]. apply Hf.
Qed.
Lemma ignores_gets {A} g (f : screen → A) : (∀ s, f (g s) = f s) → ignores g (gets f).
Proof. intros Hf s. unfold gets, map_state. by rewrite Hf. Qed.
Lemma ignores_modify g (f : screen → screen) : (∀ s, f (g s) = g (f s)) → ignores g (modify f).
Proof. intros Hf s. unfold modify, map_state. by rewrite Hf. Qed.
(** Reading the whole state is fine if only unaffected fields of it are used. *)
Lemma ignores_get {A} g (f : screen → M screen A) :
  (∀ s, f (g s) = f s) → (∀ s, ignores g (f s)) → ignores g (get ≫= f).
Proof. intros Hf Hi s. unfold mbind, M_bind, get. rewrite Hf. apply Hi. Qed.

(** The fields that a line feed does not use. *)
Definition set_pen (x a m : Z) (w : bool) (s : screen) : screen :=
  s <| cursor_x := x |> <| current_attr := a |> <| escape_state := m |> <| pending_wrap := w |>.

Lemma set_cell_ignores_pen x a m w i c : ignores (set_pen x a m w) (set_cell i c).
Proof. intros s. unfold set_cell, set_pen. simpl. by destruct (_ && _)%bool. Qed.
Lemma fill_ignores_pen x a m w n i c : ignores (set_pen x a m w) (fill n i c).
Proof.
  revert i. induction n as [|n IH]; intros i; [apply ignores_ret|]. apply ignores_bind; [apply set_cell_ignores_pen|]. intros _. apply IH.
Qed.
Lemma memmove_ignores_pen x a m w dst src n : ignores (set_pen x a m w) (memmove dst src n).
Proof. intros s. unfold memmove, set_pen. simpl. by destruct (_ && _)%bool. Qed.

Lemma line_feed_ignores_pen x a m w : ignores (set_pen x a m w) vterm_line_feed.
Proof.
  assert (Hscroll : ignores (set_pen x a m w) vterm_scroll).
  { apply ignores_bind; [destruct scroll_hook; [by apply ignores_modify|apply ignores_ret]|]. intros _.
    apply ignores_bind; [apply memmove_ignores_pen|]. intros _.
    apply ignores_bind; [apply fill_ignores_pen|]. intros _. by apply ignores_modify. }
  assert (Hup : ignores (set_pen x a m w) vterm_scroll_region_up).
  { apply ignores_bind; [by apply ignores_gets|]. intros top. apply ignores_bind; [by apply ignores_gets|]. intros bottom.
    destruct (_ && _)%bool; [done|].
    apply ignores_bind; [destruct (1 <? _); [apply memmove_ignores_pen|apply ignores_ret]|]. intros _. apply fill_ignores_pen. }
  intros s. unfold vterm_line_feed, mbind, M_bind, get.
  change (region_bottom (set_pen x a m w s)) with (region_bottom s).
  change (cursor_y (set_pen x a m w s)) with (cursor_y s).
  destruct (cursor_y s =? _); [apply Hup|]. by destruct (cursor_y s <? _).
Qed.

(** * The cached writer *)

(** The pointers agree with the position. *)
Definition coherent (k : cache) : Prop := (cursor_ptr k, row_end k) = row_at (cx k) (cy k).

Lemma flush_read s : flush_cache (read_cache s) s = s.
Proof. by destruct s. Qed.
Lemma read_coherent s : coherent (read_cache s).
Proof. done. Qed.

(** Running with the copies, then writing them back. *)
Definition flushed (m : M screen cache) : M screen unit := k ← m; modify (flush_cache k).

Lemma printable_not_control c : isprint c = true → c ≠ "010"%char ∧ c ≠ "013"%char ∧ c ≠ "008"%char ∧ c ≠ "009"%char ∧ c ≠ "027"%char.
Proof. intros Hc. repeat split; intros ->; discriminate Hc. Qed.

(** What a printable character does outside an escape sequence. *)
Definition put_printable (c : ascii) : M screen unit :=
  s ← get;
  (if pending_wrap s then put (s <| pending_wrap := false |> <| cursor_x := 0 |>);; vterm_line_feed else mret tt);;
  s ← get;
  set_cell (cursor_y s * VTERM_COLS + cursor_x s) (Cell c (current_attr s));;
  if effective_cols <=? cursor_x s + 1 then modify (λ s, s <| pending_wrap := true |>)
  else modify (λ s, s <| cursor_x := cursor_x s + 1 |>).

Lemma put_char_printable c s : isprint c = true → escape_state s = 0 → put_char c s = put_printable c s.
Proof.
  intros Hc Hs. pose proof (printable_not_control c Hc) as (H1 & H2 & H3 & H4 & H5).
  unfold put_char. rewrite (bind_eq _ _ s false s).
  2:{ unfold vterm_handle_escape. rewrite (bind_eq _ _ s 0 s) by (unfold gets; by rewrite Hs). simpl.
      by rewrite bool_decide_eq_false_2. }
  unfold vterm_putchar_internal, put_printable. rewrite !(bind_eq get _ s s s) by done. rewrite Hc, andb_true_r.
  apply bind_ext. intros [] s'. rewrite !(bind_eq get _ s' s' s') by done.
  revert Hc H1 H2 H3 H4. destruct c as [b0 b1 b2 b3 b4 b5 b6 b7].
  destruct b0, b1, b2, b3, b4, b5, b6, b7; intros Hc H1 H2 H3 H4; first [discriminate Hc|congruence|done].
Qed.

(** The cached run and the run without a cache end alike. *)
Definition agree (o : outcome (cache * screen)) (o' : outcome (unit * screen)) : Prop :=
  match o with
  | Done (k, s) => coherent k ∧ o' = Done (tt, flush_cache k s)
  | Panic => o' = Panic
  | Undef => o' = Undef
  end.

Lemma agree_bind (m : M screen cache) (n : M screen unit) (f : cache → M screen cache) (g : M screen unit) s s' :
  agree (m s) (n s') → (∀ k t, coherent k → agree (f k t) (g (flush_cache k t))) →
  agree ((m ≫= f) s) ((n;; g) s').
Proof.
  unfold mbind, M_bind. destruct (m s) as [[k t]| |]; simpl; [intros [Hk ->] Hf; by apply Hf|by intros ->..].
Qed.

Lemma write_fast_agrees c k s :
  isprint c = true → mode k = 0 → coherent k → agree (write_fast c k s) (put_char c (flush_cache k s)).
Proof.
  intros Hc Hm Hk. rewrite put_char_printable by done. unfold write_fast, put_printable. rewrite (bind_eq get _ _ _ _ eq_refl).
  change (pending_wrap (flush_cache k s)) with (wrap k).
  apply agree_bind.
  - destruct (wrap k) eqn:Hw; [|by split].
    rewrite !(bind_eq (modify _) _ _ _ _ eq_refl), (bind_eq (put _) _ _ _ _ eq_refl).
    set (t := s <| cursor_y := cy k |>).
    change (s <| cursor_x := 0 |> <| cursor_y := cy k |>)
      with (set_pen 0 (current_attr s) (escape_state s) (pending_wrap s) t).
    change (flush_cache k s <| pending_wrap := false |> <| cursor_x := 0 |>) with (set_pen 0 (cattr k) (mode k) false t).
    unfold mbind, M_bind. rewrite !line_feed_ignores_pen. by destruct (vterm_line_feed t) as [[[] t']| |].
  - clear k Hm Hk. intros k t Hk. unfold coherent, row_at in Hk. injection Hk as Hp Hr.
    rewrite (bind_eq get _ _ _ _ eq_refl). simpl. rewrite <- Hp. unfold mbind, M_bind, set_cell. simpl.
    destruct (_ && _)%bool; [|done]. rewrite Hr.
    replace (cy k * VTERM_COLS + effective_cols <=? cursor_ptr k + 1) with (effective_cols <=? cx k + 1)
      by lia.
    destruct (effective_cols <=? cx k + 1); (split; [|done]); unfold coherent, row_at; simpl; [congruence|f_equal; lia].
Qed.

Lemma write_slow_agrees c k s : coherent k → agree (write_slow c k s) (put_char c (flush_cache k s)).
Proof.
  intros Hk. unfold write_slow, put_char. rewrite (bind_eq (modify _) _ _ _ _ eq_refl).
  unfold mbind, M_bind, get. destruct (vterm_handle_escape c _) as [[taken t]| |]; [|done..].
  set (rest := if taken then _ else _).
  destruct (rest t) as [[[] t']| |]; [|done..].
  destruct (negb _ || negb _)%bool eqn:Hmoved; (split; [done || by destruct k|]); [by destruct t'|].
  apply orb_false_iff in Hmoved as [Hx Hy]. bsimpl. apply Z.eqb_eq in Hx, Hy. destruct t'; simpl in *. by subst.
Qed.

Lemma write_loop_agrees data k s : coherent k → agree (write_loop data k s) (put_chars data (flush_cache k s)).
Proof.
  revert k s. induction data as [|c data IH]; intros k s Hk; [done|]. apply agree_bind; [|done].
  destruct (_ && _)%bool eqn:Hfast; [|by apply write_slow_agrees].
  bsimpl. apply write_fast_agrees; [done|by apply Z.eqb_eq|done].
Qed.

(** A write, character after character. *)
Lemma screen_write_chars data s : screen_write data s = put_chars data s.
Proof.
  pose proof (write_loop_agrees data (read_cache s) s (read_coherent s)) as Hagree.
  rewrite flush_read in Hagree. unfold screen_write. rewrite (bind_eq (gets _) _ _ _ _ eq_refl).
  unfold mbind, M_bind. destruct (write_loop _ _ s) as [[k t]| |]; [by destruct Hagree as [_ ->]|done..].
Qed.
End reference.

(** A write of two texts is the write of the first, then of the second. *)
Lemma put_chars_app `{Config} `{Drawable} a b s : put_chars (a ++ b) s = (put_chars a;; put_chars b) s.
Proof.
  revert s. induction a as [|c a IH]; intros s; [done|]. unfold put_chars in *. cbn [app for_list]. rewrite bind_bind.
  apply bind_ext. intros _ t. apply IH.
Qed.
Lemma screen_write_app `{Config} `{Drawable} a b s : screen_write (a ++ b) s = (screen_write a;; screen_write b) s.
Proof.
  rewrite screen_write_chars, put_chars_app. unfold mbind, M_bind. rewrite screen_write_chars.
  destruct (put_chars a s) as [[[] t]| |]; [|done..]. by rewrite screen_write_chars.
Qed.

(** A write in several parts. *)
Lemma write_in_parts `{Config} `{Drawable} chunks s : for_list screen_write chunks s = screen_write (concat chunks) s.
Proof.
  revert s. induction chunks as [|t chunks IH]; intros s; [by rewrite screen_write_chars|]. cbn [for_list concat].
  rewrite screen_write_app. unfold mbind, M_bind. destruct (screen_write t s) as [[[] s1]| |]; [apply IH|done..].
Qed.

(** C19: Writes behave as their characters one after another through the escape parser and
    the printing of single characters, wherever the text is cut into writes: the cached
    position, attribute, parser state and row pointers of [vterm_write] and its path for
    plain text make no difference, to the screen, to the lines handed to the scroll
    callback, to the status reports, and to whether a write leaves the grid or never
    returns. *)
Theorem vterm_write_is_characterwise `{Config} `{Drawable} chunks s :
  for_list screen_write chunks s = put_chars (concat chunks) s.
Proof. rewrite write_in_parts. apply screen_write_chars. Qed.

(** * Bounds *)

Class ConfigOk `{Config} : Prop := {
  config_rows : 0 < VTERM_ROWS;
  config_cols : 0 < VTERM_COLS;
  (** cells are cleared in pairs *)
  config_even : (VTERM_ROWS * VTERM_COLS) mod 2 = 0;
  config_size : VTERM_ROWS * VTERM_COLS < 2^30;
}.
Class DrawableOk `{Config} `{Drawable} : Prop := {
  rows_range : 1 <= effective_rows <= VTERM_ROWS;
  cols_range : 1 <= effective_cols <= VTERM_COLS;
}.
#[export] Instance spiram_config_ok : @ConfigOk spiram_config. Proof. by split. Qed.
#[export] Instance single_config_ok : @ConfigOk single_config. Proof. by split. Qed.
(** A display of 30 rows and 53 columns with a scrollback. *)
Definition panel : Drawable := {| effective_rows := 30; effective_cols := 53; scroll_hook := true |}.
#[export] Instance panel_ok : @DrawableOk spiram_config panel. Proof. by split. Qed.

(** A list with the elements from [start] to [stop] set. *)
Definition filled {A} (start stop : Z) (c : A) (l : list A) : list A :=
  take (Z.to_nat start) l ++ replicate (Z.to_nat (stop - start)) c ++ drop (Z.to_nat stop) l.

Lemma length_filled {A} start stop (c : A) l :
  0 <= start <= stop → stop <= Z.of_nat (length l) → length (filled start stop c l) = length l.
Proof. intros. unfold filled. rewrite !length_app, length_take, length_replicate, length_drop. lia. Qed.

Lemma lookup_filled {A} start stop (c : A) l i :
  0 <= start <= stop → stop <= Z.of_nat (length l) →
  filled start stop c l !! i = if decide (start <= Z.of_nat i < stop) then Some c else l !! i.
Proof.
  intros. unfold filled.
  destruct (decide (Z.of_nat i < start)) as [Hi|Hi].
  { rewrite lookup_app_l by (rewrite length_take; lia). rewrite lookup_take_lt by lia.
    by rewrite decide_False by lia. }
  rewrite lookup_app_r by (rewrite length_take; lia). rewrite length_take.
  destruct (decide (start <= Z.of_nat i < stop)).
  - rewrite lookup_app_l by (rewrite length_replicate; lia). apply lookup_replicate. split; [done|lia].
  - rewrite lookup_app_r by (rewrite length_replicate; lia). rewrite length_replicate, lookup_drop. f_equal. lia.
Qed.

(** A list after [memmove]. *)
Definition moved_cells {A} (dst src n : Z) (l : list A) : list A :=
  take (Z.to_nat dst) l ++ take (Z.to_nat n) (drop (Z.to_nat src) l) ++ drop (Z.to_nat (dst + n)) l.

Lemma lookup_moved {A} dst src n (l : list A) i :
  0 <= n → 0 <= src → src + n <= Z.of_nat (length l) → 0 <= dst → dst + n <= Z.of_nat (length l) →
  moved_cells dst src n l !! i =
    if decide (dst <= Z.of_nat i < dst + n) then l !! Z.to_nat (src + (Z.of_nat i - dst)) else l !! i.
Proof.
  intros. unfold moved_cells. destruct (decide (Z.of_nat i < dst)) as [Hi|Hi].
  { rewrite lookup_app_l by (rewrite length_take; lia). rewrite lookup_take_lt by lia. by rewrite decide_False by lia. }
  rewrite lookup_app_r by (rewrite length_take; lia). rewrite length_take.
  destruct (decide (dst <= Z.of_nat i < dst + n)).
  - rewrite lookup_app_l by (rewrite length_take, length_drop; lia). rewrite lookup_take_lt by lia. rewrite lookup_drop. f_equal. lia.
  - rewrite lookup_app_r by (rewrite length_take, length_drop; lia). rewrite length_take, length_drop, lookup_drop. f_equal. lia.
Qed.
Lemma length_moved {A} dst src n (l : list A) :
  0 <= n → 0 <= src → src + n <= Z.of_nat (length l) → 0 <= dst → dst + n <= Z.of_nat (length l) →
  length (moved_cells dst src n l) = length l.
Proof. intros. unfold moved_cells. rewrite !length_app, !length_take, !length_drop. lia. Qed.

Section cells.
Context `{Config}.

Lemma set_cell_eq i c s :
  0 <= i < Z.of_nat (length (cells s)) → set_cell i c s = Done (tt, s <| cells := filled i (i + 1) c (cells s) |>).
Proof.
  intros Hi. unfold set_cell. replace (_ && _)%bool with true by lia.
  enough (E : <[Z.to_nat i := c]> (cells s) = filled i (i + 1) c (cells s)) by by rewrite E.
  apply list_eq. intros j. rewrite lookup_filled by lia. destruct (decide (j = Z.to_nat i)) as [->|Hj].
  - rewrite list_lookup_insert_eq by lia. by rewrite decide_True by lia.
  - rewrite list_lookup_insert_ne by done. by rewrite decide_False by lia.
Qed.

Lemma fill_eq n i c s :
  0 <= i → i + Z.of_nat n <= Z.of_nat (length (cells s)) →
  fill n i c s = Done (tt, s <| cells := filled i (i + Z.of_nat n) c (cells s) |>).
Proof.
  revert i s. induction n as [|n IH]; intros i s Hi Hn.
  - simpl. unfold mret, M_ret. do 2 f_equal. destruct s. unfold set_field. simpl. f_equal.
    unfold filled. rewrite Z.add_0_r, Z.sub_diag. simpl. by rewrite take_drop.
  - cbn [fill]. rewrite (bind_eq _ _ _ _ _ (set_cell_eq i c s ltac:(lia))).
    rewrite IH by (try (simpl; rewrite length_filled); simpl; lia). simpl. do 2 f_equal. destruct s. unfold set_field. simpl. f_equal.
    apply list_eq. intros j. simpl in *. rewrite !lookup_filled by (try rewrite length_filled; lia).
    repeat case_decide; try done; exfalso; lia.
Qed.

Lemma fill_range_eq start stop c s :
  0 <= start <= stop → stop <= Z.of_nat (length (cells s)) →
  fill_range start stop c s = Done (tt, s <| cells := filled start stop c (cells s) |>).
Proof. intros. unfold fill_range. rewrite fill_eq by lia. by replace (start + Z.of_nat _) with stop by lia. Qed.

Lemma memmove_eq dst src n s :
  0 <= n → 0 <= src → src + n <= Z.of_nat (length (cells s)) → 0 <= dst → dst + n <= Z.of_nat (length (cells s)) →
  memmove dst src n s = Done (tt, s <| cells := moved_cells dst src n (cells s) |>).
Proof. intros. unfold memmove. by replace (_ && _)%bool with true by lia. Qed.
End cells.
