(* ===== verification/VtermSafety.v ===== *)
(** The safety of the virtual terminal's writer: on every text whose control sequences have
    tame parameters a write completes, inside the grid, and keeps the screen well-formed. *)

From S2P Require Import Prelude Text Vterm.

(** * The switches on characters *)

Lemma switch_control {T} c (nl cr bs tab other : T) :
  match c with "010"%char => nl | "013"%char => cr | "008"%char => bs | "009"%char => tab | _ => other end =
  if decide (c = "010"%char) then nl else if decide (c = "013"%char) then cr
  else if decide (c = "008"%char) then bs else if decide (c = "009"%char) then tab else other.
Proof. by destruct c as [[] [] [] [] [] [] [] []]. Qed.

Lemma switch_letter {T} c (open ind ri nel other : T) :
  match c with "["%char => open | "D"%char => ind | "M"%char => ri | "E"%char => nel | _ => other end =
  if decide (c = "["%char) then open else if decide (c = "D"%char) then ind
  else if decide (c = "M"%char) then ri else if decide (c = "E"%char) then nel else other.
Proof. by destruct c as [[] [] [] [] [] [] [] []]. Qed.

(** * Numbers of at most nine digits *)

(** No run of digits is longer than nine, and the first no longer than [room]. *)
Fixpoint short_runs (room : nat) (s : text) : bool :=
  match s with
  | [] => true
  | c :: s => if isdigit c then match room with O => false | S room => short_runs room s end else short_runs 9 s
  end.

Lemma short_runs_mono r r' s : (r ≤ r')%nat → short_runs r s = true → short_runs r' s = true.
Proof.
  revert r r'. induction s as [|c s IH]; intros r r' Hr; [done|]. simpl. destruct (isdigit c); [|done].
  destruct r as [|r]; [done|]. destruct r' as [|r']; [lia|]. apply IH. lia.
Qed.
Lemma short_runs_drop n r s : (r ≤ 9)%nat → short_runs r s = true → short_runs 9 (drop n s) = true.
Proof.
  revert r s. induction n as [|n IH]; intros r s Hr Hs; [by eapply short_runs_mono|]. destruct s as [|c s]; [done|]. simpl in *.
  destruct (isdigit c); [|by apply (IH 9%nat)]. destruct r as [|r]; [done|]. apply (IH r); [lia|done].
Qed.
Lemma short_runs_span r s : (r ≤ 9)%nat → short_runs r s = true → (span isdigit s ≤ r)%nat.
Proof.
  revert r. induction s as [|c s IH]; intros r Hr Hs; [simpl; lia|]. simpl in *. destruct (isdigit c); [|lia].
  destruct r as [|r]; [done|]. specialize (IH r ltac:(lia) Hs). lia.
Qed.

Lemma decimal_value_bound s a b :
  0 <= a < b → Forall (λ c, isdigit c = true) s →
  0 <= foldl (λ a c, a * 10 + (code c - code "0")) a s < b * 10 ^ Z.of_nat (length s).
Proof.
  intros Ha Hs. revert a b Ha. induction Hs as [|c s Hc Hs IH]; intros a b Ha; simpl foldl; [simpl length; lia|].
  assert (0 <= code c - code "0" <= 9).
  { unfold isdigit, between in Hc. bsimpl. change (code "9") with 57 in *. change (code "0") with 48 in *. lia. }
  specialize (IH (a * 10 + (code c - code "0")) (b * 10) ltac:(lia)). simpl length. rewrite Nat2Z.inj_succ, Z.pow_succ_r by lia. lia.
Qed.

Lemma strtol_short s : short_runs 9 s = true → ∃ v n, strtol 32 s = (v, n, false) ∧ - 10^9 < v < 10^9.
Proof.
  intros Hs. unfold strtol. set (s1 := drop _ s). assert (H1 : short_runs 9 s1 = true) by (by apply (short_runs_drop _ 9)).
  destruct (match s1 with "-"%char :: _ => _ | _ => _ end) as [sign signs] eqn:Hsign.
  assert (Hone : sign = 1 ∨ sign = -1).
  { clear - Hsign. destruct s1 as [|[[] [] [] [] [] [] [] []] ?]; injection Hsign; lia. }
  set (s2 := drop signs s1). assert (H2 : short_runs 9 s2 = true) by (by apply (short_runs_drop _ 9)).
  pose proof (short_runs_span 9 s2 ltac:(lia) H2) as Hn. destruct (span isdigit s2) as [|n] eqn:Hspan; [by eexists _, _|].
  assert (Hall : Forall (λ c, isdigit c = true) (take (S n) s2)) by (rewrite <- Hspan; apply span_forall).
  pose proof (decimal_value_bound (take (S n) s2) 0 1 ltac:(lia) Hall) as Hv. rewrite length_take in Hv.
  assert (10 ^ Z.of_nat (S n `min` length s2) <= 10 ^ 9) by (apply Z.pow_le_mono_r; lia).
  unfold decimal_value. set (v := foldl _ 0 _) in *.
  assert (Hbound : - 10^9 < sign * v < 10^9) by (destruct Hone; subst sign; lia).
  change (2 ^ (32 - 1)) with 2147483648.
  eexists _, _. rewrite (proj2 (Z.ltb_ge _ _)), (proj2 (Z.ltb_ge _ _)) by lia. done.
Qed.

Lemma atoi_short {S} s (σ : S) : short_runs 9 s = true → ∃ v, atoi s σ = Done (v, σ) ∧ - 10^9 < v < 10^9.
Proof. intros (v & n & Hv & Hb)%strtol_short. exists v. unfold atoi. by rewrite Hv. Qed.

Lemma wp_atoi {S} s (Q : Z → S → Prop) σ :
  short_runs 9 s = true → (∀ v, - 10^9 < v < 10^9 → Q v σ) → wp (atoi s) Q σ.
Proof. intros Hs HQ. destruct (atoi_short s σ Hs) as (v & Hv & Hb). unfold wp. rewrite Hv. by apply HQ. Qed.

Lemma wp_int {S} z (Q : Z → S → Prop) σ : - 2^31 <= z < 2^31 → Q z σ → wp (int z) Q σ.
Proof. intros Hz HQ. unfold int. by replace (_ && _)%bool with true by lia. Qed.

Lemma wp_scan_pair {S} s row col (Q : Z * Z → S → Prop) σ :
  short_runs 9 s = true → - 10^9 < row < 10^9 → - 10^9 < col < 10^9 →
  (∀ r c, - 10^9 < r < 10^9 → - 10^9 < c < 10^9 → Q (r, c) σ) → wp (scan_pair s row col) Q σ.
Proof.
  intros Hs Hr Hc HQ. unfold scan_pair. destruct (strtol_short s Hs) as (v & n & -> & Hv).
  destruct (n =? 0)%nat; [by apply HQ|].
  destruct (drop n s) as [|d rest] eqn:Hd; [by apply HQ|].
  assert (Hrest : short_runs 9 rest = true).
  { pose proof (short_runs_drop 1 9 _ ltac:(lia) (short_runs_drop n 9 s ltac:(lia) Hs)) as H. by rewrite Hd in H. }
  destruct (strtol_short rest Hrest) as (v' & n' & Heq & Hv').
  destruct d as [[] [] [] [] [] [] [] []]; try by apply HQ. rewrite Heq. by destruct (n' =? 0)%nat; apply HQ.
Qed.

Section safety.
Context `{HC : Config} {Hconfig : ConfigOk} `{HD : Drawable} {Hdrawable : DrawableOk}.

(** * Well-formed screens *)

Record screen_ok (s : screen) : Prop := {
  ok_cells : Z.of_nat (length (cells s)) = VTERM_ROWS * VTERM_COLS;
  ok_x : 0 <= cursor_x s < VTERM_COLS;
  ok_y : 0 <= cursor_y s < VTERM_ROWS;
  ok_attr : 0 <= current_attr s < 256;
  ok_state : escape_state s = 0 ∨ escape_state s = 1 ∨ escape_state s = 2;
  ok_buf : (length (escape_buf s) < ESCAPE_BUF_SIZE)%nat;
  ok_top : 0 <= scroll_top s < VTERM_ROWS;
  ok_bottom : 0 <= scroll_bottom s <= VTERM_ROWS;
}.

(** Well-formed, with the escape parser where it was. *)
Definition quiet (s0 s : screen) : Prop :=
  screen_ok s ∧ escape_state s = escape_state s0 ∧ escape_buf s = escape_buf s0.
Definition keeps_screen {A} (m : M screen A) : Prop := ∀ s0 s, quiet s0 s → wp m (λ _, quiet s0) s.

Ltac quiet_fields :=
  match goal with H : quiet _ _ |- _ => destruct H as ([] & ? & ?) | _ => idtac end;

  split; [constructor|split]; simpl in *; first [assumption|done|lia|tauto].

Lemma quiet_ok s0 s : quiet s0 s → screen_ok s.
Proof. by intros []. Qed.

Lemma screen_ret {A} (a : A) : keeps_screen (mret a).
Proof. intros s0 s Hs. by apply wp_ret. Qed.
Lemma screen_bind {A B} (m : M screen A) (f : A → M screen B) : keeps_screen m → (∀ a, keeps_screen (f a)) → keeps_screen (m ≫= f).
Proof. intros Hm Hf s0 s Hs. apply wp_bind. eapply wp_mono; [by apply Hm|]. intros a s' Hs'. by apply Hf. Qed.
Lemma screen_get {A} (f : screen → M screen A) :
  (∀ s0 s, quiet s0 s → wp (f s) (λ _, quiet s0) s) → keeps_screen (get ≫= f).
Proof. intros Hf s0 s Hs. apply wp_bind, wp_get. by apply Hf. Qed.
Lemma screen_gets {A B} (g : screen → A) (f : A → M screen B) :
  (∀ s0 s, quiet s0 s → wp (f (g s)) (λ _, quiet s0) s) → keeps_screen (gets g ≫= f).
Proof. intros Hf s0 s Hs. apply wp_bind, wp_gets. by apply Hf. Qed.
Lemma screen_modify f : (∀ s0 s, quiet s0 s → quiet s0 (f s)) → keeps_screen (modify f).
Proof. intros Hf s0 s Hs. by apply wp_modify, Hf. Qed.
Lemma screen_put s0 s s' : quiet s0 s' → wp (put s') (λ _, quiet s0) s.
Proof. intros. by apply wp_put. Qed.

Lemma wp_bind_eq {A B} (m : M screen A) (f : A → M screen B) s a s' Q : m s = Done (a, s') → wp (f a) Q s' → wp (m ≫= f) Q s.
Proof. intros Hm Hf. apply wp_bind. unfold wp at 1. by rewrite Hm. Qed.
Lemma quiet_bind {A B} (m : M screen A) (f : A → M screen B) s0 s Q :
  wp m (λ _, quiet s0) s → (∀ a s', quiet s0 s' → wp (f a) Q s') → wp (m ≫= f) Q s.
Proof. intros Hm Hf. apply wp_bind. eapply wp_mono; [exact Hm|]. intros a s' Hs'. by apply Hf. Qed.

(** Changes of single fields. *)
Lemma quiet_position s0 s x y w :
  quiet s0 s → 0 <= x < VTERM_COLS → 0 <= y < VTERM_ROWS →
  quiet s0 (s <| cursor_x := x |> <| cursor_y := y |> <| pending_wrap := w |>).
Proof. intros Hs ??. quiet_fields. Qed.
Lemma quiet_cells s0 s l :
  quiet s0 s → length l = length (cells s) → quiet s0 (s <| cells := l |>).
Proof. intros Hs Hl. quiet_fields. Qed.

Lemma row_bounds y x : 0 <= y < VTERM_ROWS → 0 <= x <= VTERM_COLS → 0 <= y * VTERM_COLS ∧ y * VTERM_COLS + x <= VTERM_ROWS * VTERM_COLS.
Proof. intros. destruct Hconfig. nia. Qed.
Lemma row_bounds_full y : 0 <= y < VTERM_ROWS → 0 <= y * VTERM_COLS ∧ y * VTERM_COLS + VTERM_COLS <= VTERM_ROWS * VTERM_COLS.
Proof. intros. destruct Hconfig. nia. Qed.
Lemma rows_bounds y z : 0 <= y <= z → z <= VTERM_ROWS → 0 <= y * VTERM_COLS <= z * VTERM_COLS ∧ z * VTERM_COLS <= VTERM_ROWS * VTERM_COLS.
Proof. intros. destruct Hconfig. nia. Qed.

Lemma screen_set_cell i c s0 s :
  quiet s0 s → 0 <= i < VTERM_ROWS * VTERM_COLS → wp (set_cell i c) (λ _, quiet s0) s.
Proof.
  intros Hs Hi. pose proof (ok_cells _ (quiet_ok _ _ Hs)). unfold wp. rewrite set_cell_eq by lia.
  apply quiet_cells; [done|]. rewrite length_filled; lia.
Qed.
Lemma screen_fill_range start stop c s0 s :
  quiet s0 s → 0 <= start <= stop → stop <= VTERM_ROWS * VTERM_COLS → wp (fill_range start stop c) (λ _, quiet s0) s.
Proof.
  intros Hs ??. pose proof (ok_cells _ (quiet_ok _ _ Hs)). unfold wp. rewrite fill_range_eq by lia.
  apply quiet_cells; [done|]. rewrite length_filled; lia.
Qed.
Lemma screen_memmove dst src n s0 s :
  quiet s0 s → 0 <= n → 0 <= src → src + n <= VTERM_ROWS * VTERM_COLS → 0 <= dst → dst + n <= VTERM_ROWS * VTERM_COLS →
  wp (memmove dst src n) (λ _, quiet s0) s.
Proof.
  intros Hs ?????. pose proof (ok_cells _ (quiet_ok _ _ Hs)). unfold wp. rewrite memmove_eq by lia.
  apply quiet_cells; [done|]. rewrite length_moved; lia.
Qed.

(** Moving and clearing whole rows. *)
Lemma screen_move_rows dst src n s0 s :
  quiet s0 s → 0 <= n → 0 <= src → src + n <= VTERM_ROWS → 0 <= dst → dst + n <= VTERM_ROWS →
  wp (memmove (dst * VTERM_COLS) (src * VTERM_COLS) (n * VTERM_COLS)) (λ _, quiet s0) s.
Proof.
  intros Hs ?????. pose proof (rows_bounds src (src + n) ltac:(lia) ltac:(lia)). pose proof (rows_bounds dst (dst + n) ltac:(lia) ltac:(lia)).
  pose proof (rows_bounds 0 n ltac:(lia) ltac:(lia)). apply screen_memmove; [done|lia..].
Qed.
Lemma screen_clear_rows from to s0 s :
  quiet s0 s → 0 <= from <= to → to <= VTERM_ROWS → wp (clear_rows from to) (λ _, quiet s0) s.
Proof. intros Hs ??. pose proof (rows_bounds from to ltac:(lia) ltac:(lia)). apply screen_fill_range; [done|lia..]. Qed.

Lemma region_bottom_range s : 1 <= region_bottom s <= effective_rows.
Proof. destruct Hdrawable. unfold region_bottom. destruct (_ && _)%bool eqn:?; bsimpl; lia. Qed.

(** * Scrolling and printing *)

Lemma screen_scroll : keeps_screen vterm_scroll.
Proof.
  destruct Hdrawable. unfold vterm_scroll. apply screen_bind; [|intros _].
  { destruct scroll_hook; [|apply screen_ret]. apply screen_modify. intros s0 s Hs. quiet_fields. }
  intros s0 s Hs. apply (quiet_bind _ _ s0).
  { pose proof (screen_move_rows 0 1 (effective_rows - 1) s0 s Hs) as Hm. rewrite Z.mul_0_l, Z.mul_1_l in Hm. apply Hm; lia. }
  intros _ s1 Hs1. apply (quiet_bind _ _ s0); [apply screen_clear_rows; [done|lia..]|].
  intros _ s2 Hs2. apply wp_modify. quiet_fields.
Qed.

Lemma screen_region_up : keeps_screen vterm_scroll_region_up.
Proof.
  destruct Hdrawable. intros s0 s Hs. apply wp_bind, wp_gets, wp_bind, wp_gets.
  pose proof (region_bottom_range s). pose proof (ok_top _ (quiet_ok _ _ Hs)). set (bottom := region_bottom s) in *.
  destruct (_ && _)%bool; [by apply screen_scroll|].
  apply (quiet_bind _ _ s0); [|intros _ s1 Hs1; apply screen_clear_rows; [done|lia..]].
  destruct (1 <? _) eqn:?; [|by apply wp_ret]. apply screen_move_rows; [done|lia..].
Qed.

Lemma screen_region_down : keeps_screen vterm_scroll_region_down.
Proof.
  destruct Hdrawable. intros s0 s Hs. apply wp_bind, wp_gets, wp_bind, wp_gets.
  pose proof (region_bottom_range s). pose proof (ok_top _ (quiet_ok _ _ Hs)). set (bottom := region_bottom s) in *.
  apply (quiet_bind _ _ s0); [|intros _ s1 Hs1; apply screen_clear_rows; [done|lia..]].
  destruct (1 <? _) eqn:?; [|by apply wp_ret]. apply screen_move_rows; [done|lia..].
Qed.

Lemma screen_line_feed : keeps_screen vterm_line_feed.
Proof.
  apply screen_get. intros s0 s Hs. destruct (_ =? _); [by apply screen_region_up|].
  destruct (_ <? _) eqn:?; [|by apply wp_ret]. apply screen_put. destruct Hdrawable. quiet_fields.
Qed.

(** The loop of a tab moves the cursor by one cell or more, at most to the column after
    the last. *)
Lemma screen_tab_loop fuel p s0 s :
  quiet s0 s → p = cursor_y s * VTERM_COLS + cursor_x s →
  wp (tab_loop fuel p) (λ _ s', cursor_x s' <= VTERM_COLS ∧ ∀ x w, 0 <= x < VTERM_COLS →
    quiet s0 (s' <| cursor_x := x |> <| pending_wrap := w |>) ∧ (cursor_x s' < effective_cols → quiet s0 s')) s.
Proof.
  destruct Hdrawable. revert p s. induction fuel as [|fuel IH]; intros p s Hs ->.
  { apply wp_ret. split; [pose proof (ok_x _ (quiet_ok _ _ Hs)); lia|]. intros x w Hx. split; [quiet_fields|done]. }
  cbn [tab_loop]. apply wp_bind, wp_get, wp_bind. pose proof (quiet_ok _ _ Hs) as Hok.
  pose proof (row_bounds (cursor_y s) (cursor_x s + 1) (ok_y _ Hok) ltac:(pose proof (ok_x _ Hok); lia)).
  unfold wp at 1. rewrite set_cell_eq by (pose proof (ok_cells _ Hok); pose proof (ok_x _ Hok); lia).
  set (s1 := s <| cells := _ |>).
  assert (Hs1 : quiet s0 s1). { apply quiet_cells; [done|]. apply length_filled; pose proof (ok_cells _ Hok); pose proof (ok_x _ Hok); lia. }
  apply wp_bind, wp_modify, wp_bind, wp_gets. simpl cursor_x.
  pose proof (ok_x _ Hok). destruct ((cursor_x s + 1 <? effective_cols) && _)%bool eqn:Hmore.
  - apply andb_true_iff in Hmore as [Hlt%Z.ltb_lt _]. apply IH; [quiet_fields|simpl; lia].
  - apply wp_ret. simpl. split; [lia|]. intros x w Hx. split; [|intros Hlt]; quiet_fields.
Qed.

Lemma screen_putchar c : keeps_screen (vterm_putchar_internal c).
Proof.
  destruct Hdrawable. unfold vterm_putchar_internal. apply screen_get. intros s0 s Hs. apply (quiet_bind _ _ s0).
  { destruct (_ && _)%bool; [|by apply wp_ret]. apply wp_bind, wp_put, screen_line_feed.
    quiet_fields. }
  clear s Hs. intros _ s Hs. apply wp_bind, wp_get. cbv zeta. pose proof (quiet_ok _ _ Hs) as Hok.
  pose proof (row_bounds (cursor_y s) (cursor_x s + 1) (ok_y _ Hok) ltac:(pose proof (ok_x _ Hok); lia)) as Hrow.
  pose proof (ok_x _ Hok) as Hx. pose proof (ok_y _ Hok) as Hy.
  rewrite switch_control. repeat case_decide.
  - apply wp_bind, wp_put, screen_line_feed. quiet_fields.
  - apply wp_put. quiet_fields.
  - apply wp_bind, wp_put. destruct (0 <? _) eqn:?; [|apply wp_ret; quiet_fields].
    apply wp_bind, wp_modify, screen_set_cell; [quiet_fields|]. simpl. lia.
  - apply wp_bind, wp_put, wp_bind.
    eapply wp_mono; [apply (screen_tab_loop 8 _ s0); [quiet_fields|done]|]. intros _ s1 [Hx1 Hs1].
    apply wp_bind, wp_gets. destruct (_ <=? _) eqn:?.
    + apply wp_modify. apply (Hs1 (effective_cols - 1) true). lia.
    + apply wp_ret. apply (Hs1 0 true); lia.
  - destruct (isprint c); [|by apply wp_ret]. pose proof (ok_cells _ Hok).
    eapply wp_bind_eq; [apply set_cell_eq; lia|].
    assert (length (filled (cursor_y s * VTERM_COLS + cursor_x s) (cursor_y s * VTERM_COLS + cursor_x s + 1)
      (Cell c (current_attr s)) (cells s)) = length (cells s)) by (apply length_filled; lia).
    destruct (_ <=? _) eqn:?; apply wp_modify; quiet_fields.
Qed.

Lemma fill_pairs_eq n i s :
  0 <= i → i + 2 * Z.of_nat n <= Z.of_nat (length (cells s)) →
  fill_pairs n i s = Done (tt, s <| cells := filled i (i + 2 * Z.of_nat n) blank (cells s) |>).
Proof.
  revert i s. induction n as [|n IH]; intros i s Hi Hn.
  - apply (fill_eq 0 i blank s); lia.
  - cbn [fill_pairs]. rewrite (bind_eq _ _ _ _ _ (set_cell_eq i blank s ltac:(lia))).
    set (s1 := s <| cells := _ |>). assert (Hs1 : length (cells s1) = length (cells s)) by (apply length_filled; lia).
    rewrite (bind_eq _ _ _ _ _ (set_cell_eq (i + 1) blank s1 ltac:(lia))).
    set (s2 := s1 <| cells := _ |>). assert (Hs2 : length (cells s2) = length (cells s)) by (rewrite <- Hs1; apply length_filled; lia).
    rewrite IH by lia.
    assert (E : filled (i + 2) (i + 2 + 2 * Z.of_nat n) blank (cells s2) = filled i (i + 2 * Z.of_nat (S n)) blank (cells s)); [|by rewrite E].
    apply list_eq. intros j. rewrite !lookup_filled by lia.
    change (cells s2) with (filled (i + 1) (i + 1 + 1) blank (cells s1)). rewrite lookup_filled by lia.
    change (cells s1) with (filled i (i + 1) blank (cells s)). rewrite lookup_filled by lia.
    repeat case_decide; try done; exfalso; lia.
Qed.

(** The whole grid, cleared. *)
Definition blank_grid : list cell := replicate (Z.to_nat (VTERM_ROWS * VTERM_COLS)) blank.
Lemma clear_eq s :
  Z.of_nat (length (cells s)) = VTERM_ROWS * VTERM_COLS →
  vterm_clear_internal s = Done (tt, s <| cells := blank_grid |> <| cursor_x := 0 |> <| cursor_y := 0 |> <| cursor_visible := true |>
    <| current_attr := VTERM_DEFAULT_ATTR |> <| pending_wrap := false |>).
Proof.
  destruct Hconfig. intros Hl. unfold vterm_clear_internal.
  assert (Hn : 2 * Z.of_nat (Z.to_nat ((VTERM_ROWS * VTERM_COLS + 1) / 2)) = VTERM_ROWS * VTERM_COLS).
  { pose proof (Z.div_mod (VTERM_ROWS * VTERM_COLS) 2 ltac:(lia)). rewrite Z2Nat.id by (apply Z.div_pos; nia).
    replace (VTERM_ROWS * VTERM_COLS + 1) with (1 + VTERM_ROWS * VTERM_COLS / 2 * 2) at 1 by lia.
    rewrite Z.div_add by lia. change (1 / 2) with 0. lia. }
  set (n := Z.to_nat ((VTERM_ROWS * VTERM_COLS + 1) / 2)) in *.
  assert (Hfill : fill_pairs n 0 s = Done (tt, s <| cells := filled 0 (0 + 2 * Z.of_nat n) blank (cells s) |>)) by (apply fill_pairs_eq; nia).
  rewrite (bind_eq _ _ _ _ _ Hfill). unfold modify. do 2 f_equal.
  assert (E : filled 0 (0 + 2 * Z.of_nat n) blank (cells s) = blank_grid); [|by rewrite E].
  rewrite Hn. unfold filled, blank_grid. rewrite (drop_ge (cells s)) by nia. simpl. rewrite app_nil_r. f_equal. lia.
Qed.

Lemma default_attr_range : 0 <= VTERM_DEFAULT_ATTR < 256.
Proof. done. Qed.

Lemma screen_clear : keeps_screen vterm_clear_internal.
Proof.
  intros s0 s Hs. unfold wp. rewrite clear_eq by apply (ok_cells _ (quiet_ok _ _ Hs)).
  assert (length blank_grid = length (cells s)).
  { unfold blank_grid. rewrite length_replicate. pose proof (ok_cells _ (quiet_ok _ _ Hs)). lia. }
  pose proof default_attr_range. destruct Hconfig. quiet_fields.
Qed.

(** * Colours *)

Lemma ATTR_range fg bg : 0 <= VTERM_ATTR fg bg < 256.
Proof. apply Z.mod_pos_bound. lia. Qed.

Lemma screen_set_attr f : (∀ a, 0 <= f a < 256) → keeps_screen (set_attr f).
Proof. intros Hf. apply screen_modify. intros s0 s Hs. pose proof (Hf (current_attr s)). quiet_fields. Qed.

(** Parameters of a colour sequence that are consumed. *)
Definition sgr_byte (c : ascii) : bool := (isdigit c || bool_decide (c = ";"%char))%bool.

Lemma sgr_digits_eq r num p (s : screen) :
  (r ≤ 9)%nat → short_runs r p = true → 0 <= num → (num + 1) * 10 ^ Z.of_nat r <= 10 ^ 9 →
  ∃ num', sgr_digits num p s = Done ((num', drop (span isdigit p) p), s).
Proof.
  revert r num. induction p as [|c p IH]; intros r num Hr Hp Hnum Hb; [by exists num|]. cbn [sgr_digits short_runs span] in *.
  destruct (isdigit c) eqn:Hc; [|by exists num]. destruct r as [|r]; [done|].
  assert (0 <= code c - 48 <= 9).
  { unfold isdigit, between in Hc. bsimpl. change (code "9") with 57 in *. change (code "0") with 48 in *. lia. }
  rewrite Nat2Z.inj_succ, Z.pow_succ_r in Hb by lia.
  assert (Hpos : 1 <= 10 ^ Z.of_nat r) by (apply (Z.pow_le_mono_r 10 0); lia).
  assert (Hmore : num * 10 + (code c - 48) + 1 <= (num + 1) * 10) by lia.
  assert (Hbig : (num * 10 + (code c - 48) + 1) * 10 ^ Z.of_nat r <= 10 ^ 9) by nia.
  assert (num * 10 + (code c - 48) + 1 <= 10 ^ 9) by nia.
  rewrite (bind_eq _ _ s (num * 10) s) by (unfold int; by replace (_ && _)%bool with true by lia).
  rewrite (bind_eq _ _ s (num * 10 + (code c - 48)) s) by (unfold int; by replace (_ && _)%bool with true by lia).
  apply (IH r); [lia|done|lia|done].
Qed.

(** A number and its semicolon: at least one byte goes, unless there is none. *)
Definition sgr_rest (p : text) : text := let q := drop (span isdigit p) p in match q with ";"%char :: p' => p' | _ => q end.

Lemma sgr_parse_num_eq p s : short_runs 9 p = true → ∃ num, sgr_parse_num p s = Done ((num, sgr_rest p), s).
Proof.
  intros Hp. destruct (sgr_digits_eq 9 0 p s) as [num Hnum]; [done..|]. exists num.
  unfold sgr_parse_num. by rewrite (bind_eq _ _ _ _ _ Hnum).
Qed.

Lemma sgr_rest_drop p : ∃ n, sgr_rest p = drop n p.
Proof.
  unfold sgr_rest. set (n := span isdigit p). cbv zeta. destruct (drop n p) as [|c p'] eqn:Hp; [by exists n|].
  assert (Hnext : p' = drop (S n) p) by (rewrite <- Nat.add_1_r, <- drop_drop, Hp; done).
  destruct c as [[] [] [] [] [] [] [] []]; solve [by exists n|by exists (S n)].
Qed.

(** The parameters of a colour sequence: short numbers and semicolons. *)
Definition sgr_params (p : text) : Prop := short_runs 9 p = true ∧ Forall (λ c, sgr_byte c = true) p.

Lemma sgr_params_rest p : sgr_params p → sgr_params (sgr_rest p).
Proof.
  intros [Hp Hall]. destruct (sgr_rest_drop p) as [n ->]. split; [by apply (short_runs_drop _ 9)|by apply Forall_drop].
Qed.
Lemma sgr_rest_shorter p : sgr_params p → p ≠ [] → (length (sgr_rest p) < length p)%nat.
Proof.
  intros [_ Hall] Hne. destruct p as [|c p]; [done|]. unfold sgr_rest. cbn [span].
  destruct (isdigit c) eqn:Hc.
  - change (drop (S ?n) (c :: p)) with (drop n p). simpl length. pose proof (length_drop p (span isdigit p)) as Hl.
    destruct (drop _ p) as [|[[] [] [] [] [] [] [] []] ?]; simpl in *; lia.
  - apply Forall_cons in Hall as [Hb _]. unfold sgr_byte in Hb. rewrite Hc in Hb. simpl in Hb. bsimpl. subst c. simpl. lia.
Qed.

(** What is left is a suffix of the parameters. *)
Definition suffix_params (p p' : text) : Prop := sgr_params p' ∧ (length p' ≤ length p)%nat.

Lemma suffix_rest p p' : suffix_params p p' → suffix_params p (sgr_rest p').
Proof.
  intros [Hp Hl]. split; [by apply sgr_params_rest|]. destruct (sgr_rest_drop p') as [n ->]. rewrite length_drop. lia.
Qed.

(** A property that does not depend on the attribute survives every colour sequence. *)
Section colours.
Variable P : screen → Prop.
Hypothesis P_attr : ∀ s a, 0 <= a < 256 → P s → P (s <| current_attr := a |>).

Lemma wp_set_attr f (Q : unit → screen → Prop) s : P s → (∀ a, 0 <= f a < 256) → (∀ s', P s' → Q tt s') → wp (set_attr f) Q s.
Proof. intros Hs Hf HQ. apply wp_modify, HQ. by apply P_attr. Qed.

Lemma wp_sgr_parse_num p s :
  P s → sgr_params p → wp (sgr_parse_num p) (λ '(_, p') s', P s' ∧ p' = sgr_rest p) s.
Proof. intros Hs [Hp _]. destruct (sgr_parse_num_eq p s Hp) as [num Hnum]. unfold wp. by rewrite Hnum. Qed.

Lemma wp_parse_bind {A} p p' (f : Z * text → M screen A) Q s :
  P s → suffix_params p p' →
  (∀ num s', P s' → suffix_params p (sgr_rest p') → wp (f (num, sgr_rest p')) Q s') →
  wp (sgr_parse_num p' ≫= f) Q s.
Proof.
  intros Hs Hp Hf. apply wp_bind. eapply wp_mono; [by eapply wp_sgr_parse_num; [exact Hs|apply Hp]|].
  intros [num p''] s' [Hs' ->]. apply Hf; [done|by apply suffix_rest].
Qed.

Lemma wp_skip_extended p p' s :
  P s → suffix_params p p' → wp (sgr_skip_extended p') (λ p'' s', P s' ∧ suffix_params p p'') s.
Proof.
  intros Hs Hp. unfold sgr_skip_extended. eapply wp_parse_bind; [done..|]. clear s Hs. intros mode s Hs Hp1.
  destruct (mode =? 5).
  { eapply wp_parse_bind; [done..|]. intros n s' Hs' Hp'. by apply wp_ret. }
  destruct (mode =? 2); [|by apply wp_ret].
  do 3 (eapply wp_parse_bind; [done..|]; clear s Hs; intros ? s Hs ?). by apply wp_ret.
Qed.

Lemma wp_sgr_code num bright p p' s :
  P s → suffix_params p p' → wp (sgr_code num bright p') (λ '(_, p'') s', P s' ∧ suffix_params p p'') s.
Proof.
  intros Hs Hp. unfold sgr_code.
  repeat (match goal with |- wp (if ?b then _ else _) _ _ => destruct b end;
    [first [ eapply wp_bind, wp_mono; [by apply wp_skip_extended|]; intros p'' s' [Hs' Hp']; by apply wp_ret
           | apply wp_bind, wp_set_attr; [done|intros a; first [done|apply ATTR_range]|];
             intros s' Hs'; by apply wp_ret ]|]).
  by apply wp_ret.
Qed.

Lemma wp_sgr_loop fuel bright p s :
  P s → sgr_params p → (length p ≤ fuel)%nat → wp (sgr_loop fuel bright p) (λ _, P) s.
Proof.
  revert bright p s. induction fuel as [|fuel IH]; intros bright p s Hs Hp Hl.
  { destruct p; [by apply wp_ret|simpl in Hl; lia]. }
  destruct p as [|c p]; [by apply wp_ret|]. cbn [sgr_loop].
  eapply (wp_parse_bind (c :: p)); [done|by split|]. clear s Hs. intros num s Hs _.
  pose proof (sgr_rest_shorter (c :: p) Hp ltac:(done)) as Hshort.
  apply wp_bind. eapply wp_mono; [apply (wp_sgr_code num bright (sgr_rest (c :: p))); [done|]|].
  { split; [by apply sgr_params_rest|done]. }
  intros [bright' p''] s' [Hs' [Hp' Hl']]. apply IH; [done..|simpl in *; lia].
Qed.

Lemma wp_apply_sgr p s : P s → sgr_params p → wp (vterm_apply_sgr p) (λ _, P) s.
Proof.
  intros Hs Hp. unfold vterm_apply_sgr. apply wp_bind.
  assert (Hstart : ∀ p', sgr_start p = Some p' → sgr_params p').
  { assert (Hdrop : ∀ n, sgr_params (drop n p)).
    { destruct Hp as [Hs1 Hall]. intros n. split; [by apply (short_runs_drop _ 9)|by apply Forall_drop]. }
    destruct p as [|c [|c' p2]].
    - by intros p' [= <-].
    - unfold sgr_start. intros p'. pose proof (Hdrop 1%nat) as H1. destruct c as [[] [] [] [] [] [] [] []]; by intros [= <-].
    - unfold sgr_start. intros p'. pose proof (Hdrop 2%nat) as H2.
      destruct c as [[] [] [] [] [] [] [] []]; try done. destruct c' as [[] [] [] [] [] [] [] []]; by intros [= <-]. }
  destruct (sgr_start p) as [p'|] eqn:He.
  - apply wp_bind, wp_set_attr; [done|done|]. intros s' Hs'. apply wp_ret. apply wp_sgr_loop; [done|by apply Hstart|done].
  - apply wp_ret. by apply wp_sgr_loop.
Qed.
End colours.

Lemma screen_apply_sgr p s0 s : quiet s0 s → sgr_params p → wp (vterm_apply_sgr p) (λ _, quiet s0) s.
Proof. intros Hs Hp. apply wp_apply_sgr; [|done..]. clear. intros s a Ha Hs. quiet_fields. Qed.

(** * Control sequences *)

Lemma wp_param buf none (Q : Z → screen → Prop) s :
  short_runs 9 buf = true → - 10^9 < none < 10^9 → (∀ v, - 10^9 < v < 10^9 → Q v s) → wp (param buf none) Q s.
Proof. intros Hb Hn HQ. unfold param. destruct buf; [by apply wp_ret, HQ|by apply wp_atoi]. Qed.
Lemma wp_count_param buf (Q : Z → screen → Prop) s :
  short_runs 9 buf = true → (∀ v, 1 <= v < 10^9 → Q v s) → wp (count_param buf) Q s.
Proof. intros Hb HQ. apply wp_bind, wp_param; [done|lia|]. intros v Hv. apply wp_ret, HQ. lia. Qed.

(** The rows and columns are far below the range of [int]. *)
Lemma grid_small : VTERM_ROWS < 2^30 ∧ VTERM_COLS < 2^30.
Proof. destruct Hconfig. nia. Qed.

Lemma screen_csi_erase_display buf : short_runs 9 buf = true → keeps_screen (csi_erase_display buf).
Proof.
  intros Hb s0 s Hs. apply wp_bind, wp_param; [done|lia|]. intros mode _. destruct (_ =? 2); [by apply screen_clear|].
  apply wp_bind, wp_get. pose proof (quiet_ok _ _ Hs) as Hok. pose proof (ok_x _ Hok).
  pose proof (row_bounds (cursor_y s) (cursor_x s + 1) (ok_y _ Hok) ltac:(lia)).
  cbv zeta. destruct (_ =? 0); [apply screen_fill_range; [done|lia..]|].
  destruct (_ =? 1); [apply screen_fill_range; [done|lia..]|by apply wp_ret].
Qed.

Lemma screen_csi_position buf : short_runs 9 buf = true → keeps_screen (csi_position buf).
Proof.
  destruct Hdrawable. intros Hb s0 s Hs. unfold csi_position. destruct (_ || _)%bool; [apply wp_modify; quiet_fields|].
  apply wp_bind, wp_scan_pair; [done|lia..|]. intros row col _ _. apply wp_modify.
  destruct (0 <? row) eqn:?, (0 <? col) eqn:?; repeat (match goal with |- context [if ?b then _ else _] => destruct b eqn:? end); quiet_fields.
Qed.

Lemma screen_csi_move buf : short_runs 9 buf = true →
  keeps_screen (csi_up buf) ∧ keeps_screen (csi_down buf) ∧ keeps_screen (csi_right buf) ∧ keeps_screen (csi_left buf).
Proof.
  pose proof grid_small. intros Hb.
  repeat split; intros s0 s Hs; apply wp_bind, wp_count_param; try done; intros n Hn; apply wp_bind, wp_gets, wp_bind;
    pose proof (ok_x _ (quiet_ok _ _ Hs)); pose proof (ok_y _ (quiet_ok _ _ Hs));
    (apply wp_int; [lia|]); apply wp_modify;
    match goal with |- context [if ?b then _ else _] => destruct b eqn:? end; quiet_fields.
Qed.

Lemma screen_csi_erase_line buf : short_runs 9 buf = true → keeps_screen (csi_erase_line buf).
Proof.
  intros Hb s0 s Hs. apply wp_bind, wp_param; [done|lia|]. intros mode _. apply wp_bind, wp_get. cbv zeta.
  pose proof (quiet_ok _ _ Hs) as Hok. pose proof (ok_x _ Hok).
  pose proof (row_bounds_full (cursor_y s) (ok_y _ Hok)).
  apply screen_fill_range; [done|..]; destruct (mode =? 0), (mode =? 1); lia.
Qed.

Lemma screen_csi_erase_chars buf : short_runs 9 buf = true → keeps_screen (csi_erase_chars buf).
Proof.
  pose proof grid_small. intros Hb s0 s Hs. apply wp_bind, wp_count_param; [done|]. intros n Hn. apply wp_bind, wp_get, wp_bind.
  pose proof (quiet_ok _ _ Hs) as Hok. pose proof (ok_x _ Hok).
  pose proof (row_bounds_full (cursor_y s) (ok_y _ Hok)).
  apply wp_int; [lia|]. cbv zeta. destruct (_ <? _) eqn:?; (apply screen_fill_range; [done|lia..]).
Qed.

Lemma screen_csi_insert_lines buf : short_runs 9 buf = true → keeps_screen (csi_insert_lines buf).
Proof.
  destruct Hdrawable. intros Hb s0 s Hs. apply wp_bind, wp_get. cbv zeta. pose proof (region_bottom_range s).
  set (bottom := region_bottom s) in *. pose proof (ok_y _ (quiet_ok _ _ Hs)).
  destruct (_ || _)%bool eqn:Hin; [by apply wp_ret|]. apply wp_bind, wp_count_param; [done|]. intros n Hn.
  set (m := if _ <? n then _ else n). assert (1 <= m <= bottom - cursor_y s) by (unfold m; destruct (_ <? n) eqn:?; lia).
  clearbody m. apply (quiet_bind _ _ s0); [|intros _ s1 Hs1; apply screen_clear_rows; [done|lia..]].
  destruct (0 <? _) eqn:?; [|by apply wp_ret]. apply screen_move_rows; [done|lia..].
Qed.

Lemma screen_csi_delete_lines buf : short_runs 9 buf = true → keeps_screen (csi_delete_lines buf).
Proof.
  destruct Hdrawable. intros Hb s0 s Hs. apply wp_bind, wp_get. cbv zeta. pose proof (region_bottom_range s).
  set (bottom := region_bottom s) in *. pose proof (ok_y _ (quiet_ok _ _ Hs)).
  destruct (_ || _)%bool eqn:Hin; [by apply wp_ret|]. apply wp_bind, wp_count_param; [done|]. intros n Hn.
  set (m := if _ <? n then _ else n). assert (1 <= m <= bottom - cursor_y s) by (unfold m; destruct (_ <? n) eqn:?; lia).
  clearbody m. apply (quiet_bind _ _ s0); [|intros _ s1 Hs1; apply screen_clear_rows; [done|lia..]].
  destruct (0 <? _) eqn:?; [|by apply wp_ret]. apply screen_move_rows; [done|lia..].
Qed.

Lemma split_char_drop d s a b : split_char d s = Some (a, b) → ∃ n, b = drop n s.
Proof.
  revert a. induction s as [|c s IH]; intros a; [done|]. simpl. case_decide; [intros [= <- <-]; by exists 1%nat|].
  destruct (split_char d s) as [[a' b']|]; [|done]. intros [= _ <-]. destruct (IH a' eq_refl) as [n ->]. by exists (S n).
Qed.

Lemma screen_csi_scroll_region buf : short_runs 9 buf = true → keeps_screen (csi_scroll_region buf).
Proof.
  destruct Hdrawable. pose proof grid_small. intros Hb s0 s Hs. unfold csi_scroll_region. apply wp_bind.
  assert (Htop : ∀ Q, (∀ v, - 2^30 < v < 2^30 → Q v s) → wp (match buf with [] | ";"%char :: _ => mret 1 | _ => atoi buf end) Q s).
  { intros Q HQ. assert (Hatoi : wp (atoi buf) Q s) by (apply wp_atoi; [done|]; intros; apply HQ; lia).
    destruct buf as [|[[] [] [] [] [] [] [] []] buf']; solve [done|by apply wp_ret, HQ]. }
  apply Htop. intros top _. apply wp_bind.
  assert (Hbottom : ∀ Q : Z → screen → Prop, (∀ v, - 2^30 < v < 2^30 → Q v s) →
    wp (match split_char ";" buf with Some (_, (_ :: _) as after) => atoi after | _ => mret effective_rows end) Q s).
  { intros Q HQ. destruct (split_char ";" buf) as [[a [|c b]]|] eqn:Hsplit; [apply wp_ret, HQ; lia| |apply wp_ret, HQ; lia].
    destruct (split_char_drop _ _ _ _ Hsplit) as [n Hn]. apply wp_atoi; [|intros; apply HQ; lia].
    rewrite Hn. by apply (short_runs_drop _ 9). }
  apply Hbottom. intros bottom _. cbv zeta.
  set (t := if top <? 1 then 1 else top). set (b := if (_ || _)%bool then _ else bottom).
  assert (1 <= t) by (unfold t; destruct (top <? 1) eqn:?; lia).
  assert (1 <= b <= effective_rows) by (unfold b; destruct (_ || _)%bool eqn:?; lia). clearbody t b.
  apply wp_modify. destruct (t <? b) eqn:?; [|quiet_fields]. destruct (b =? _); quiet_fields.
Qed.

Lemma screen_csi_column buf : short_runs 9 buf = true → keeps_screen (csi_column buf).
Proof.
  destruct Hdrawable. intros Hb s0 s Hs. apply wp_bind, wp_count_param; [done|]. intros n Hn. apply wp_modify.
  destruct (_ <=? _) eqn:?; quiet_fields.
Qed.

Lemma screen_csi_report buf : keeps_screen (csi_report buf).
Proof. intros s0 s Hs. unfold csi_report. destruct (bool_decide _); [apply wp_modify; quiet_fields|by apply wp_ret]. Qed.

(** Parameters that no sequence objects to. *)
Definition tame_params (c : ascii) (buf : text) : bool :=
  (short_runs 9 buf && (negb (bool_decide (c = "m"%char)) || forallb sgr_byte buf))%bool.

Lemma screen_csi_dispatch c buf : tame_params c buf = true → keeps_screen (csi_dispatch c buf).
Proof.
  unfold tame_params. intros [Hb Hm]%andb_true_iff.
  assert (Hsgr : c = "m"%char → keeps_screen (vterm_apply_sgr buf)).
  { intros -> s0 s Hs. apply screen_apply_sgr; [done|]. split; [done|]. simpl in Hm.
    apply Forall_forall. intros d Hd%list_elem_of_In. by eapply forallb_forall in Hm. }
  destruct (screen_csi_move buf Hb) as (? & ? & ? & ?).
  destruct c as [[] [] [] [] [] [] [] []]; first
    [ exact (screen_ret tt) | by apply Hsgr | done
    | by apply screen_csi_erase_display | by apply screen_csi_position | by apply screen_csi_erase_line
    | by apply screen_csi_erase_chars | by apply screen_csi_insert_lines | by apply screen_csi_delete_lines
    | by apply screen_csi_scroll_region | by apply screen_csi_column | by apply screen_csi_report ].
Qed.

(** * Texts whose sequences are tame *)

(** The escape parser on its own: its state and the bytes it has stored. *)
Definition stored (buf : text) (c : ascii) : text := if (length buf <? ESCAPE_BUF_SIZE - 1)%nat then buf ++ [c] else buf.
Definition parser_next (state : Z) (buf : text) (c : ascii) : Z * text :=
  if state =? 0 then if bool_decide (c = "027"%char) then (1, []) else (0, buf)
  else if state =? 1 then (if bool_decide (c = "["%char) then 2 else 0, buf)
  else if isalpha c then (0, []) else (state, stored buf c).
(** A letter inside ESC [ comes with tame parameters. *)
Definition parser_tame (state : Z) (buf : text) (c : ascii) : bool :=
  (negb ((state =? 2) && isalpha c) || tame_params c (escape_params (stored buf c)))%bool.
Fixpoint tame (state : Z) (buf data : text) : bool :=
  match data with
  | [] => true
  | c :: data => let '(state', buf') := parser_next state buf c in (parser_tame state buf c && tame state' buf' data)%bool
  end.

(** One character leaves a well-formed screen, and the parser where its own function says. *)
Definition after_char (s : screen) (c : ascii) (s' : screen) : Prop :=
  screen_ok s' ∧ (escape_state s', escape_buf s') = parser_next (escape_state s) (escape_buf s) c.

Lemma length_stored buf c : (length buf < ESCAPE_BUF_SIZE)%nat → (length (stored buf c) < ESCAPE_BUF_SIZE)%nat.
Proof. unfold stored, ESCAPE_BUF_SIZE. intros Hb. destruct (_ <? _)%nat eqn:Hl; [|done]. apply Nat.ltb_lt in Hl. rewrite length_app. simpl in *. lia. Qed.

Lemma private_mode_quiet c buf s0 s : quiet s0 s → quiet s0 (vterm_private_mode c buf s).
Proof. intros Hs. unfold vterm_private_mode. destruct (_ && _)%bool; [quiet_fields|]. destruct (_ && _)%bool; [quiet_fields|done]. Qed.

Lemma wp_csi c s :
  screen_ok s → escape_state s = 2 → parser_tame 2 (escape_buf s) c = true → wp (vterm_csi c) (λ _, after_char s c) s.
Proof.
  intros Hs Hst Htame. unfold after_char, parser_next. rewrite Hst. simpl.
  set (s1 := s <| escape_buf := stored (escape_buf s) c |>).
  apply wp_bind, wp_modify. assert (Hs1 : quiet s1 (if (length (escape_buf s) <? ESCAPE_BUF_SIZE - 1)%nat
    then s <| escape_buf := escape_buf s ++ [c] |> else s)).
  { destruct Hs. pose proof (length_stored (escape_buf s) c ok_buf0) as Hl. unfold s1, stored in *.
    destruct (_ <? _)%nat; (split; [constructor|split]); simpl in *; done. }
  match type of Hs1 with quiet _ ?t => set (s2 := t) in * end. clearbody s2.
  destruct (isalpha c) eqn:Hc; [|apply wp_ret; destruct Hs1 as (? & He & Hb); split; [done|]; rewrite He, Hb; simpl; by rewrite Hst].
  apply wp_bind, wp_gets.
  assert (Hbuf : escape_params (escape_buf s2) = escape_params (stored (escape_buf s) c)) by (destruct Hs1 as (_ & _ & ->); done).
  rewrite Hbuf. unfold parser_tame in Htame. rewrite Hc in Htame. simpl in Htame. set (buf := escape_params _) in *.
  assert (Hend : ∀ (a : unit) t, quiet s1 t → wp (modify (λ s, s <| escape_state := 0 |> <| escape_buf := [] |>))
    (λ _ s', screen_ok s' ∧ (escape_state s', escape_buf s') = (0, [])) t).
  { intros _ t ([] & _ & _). apply wp_modify. split; [|done]. split; simpl; auto. unfold ESCAPE_BUF_SIZE. lia. }
  assert (Hother : wp (modify (λ s, s <| pending_wrap := false |>);; csi_dispatch c buf) (λ _, quiet s1) s2).
  { apply wp_bind, wp_modify. apply screen_csi_dispatch; [done|]. quiet_fields. }
  assert (Hprivate : wp (modify (vterm_private_mode c buf)) (λ _, quiet s1) s2).
  { apply wp_modify. by apply private_mode_quiet. }
  apply (quiet_bind _ _ s1); [|done]. clearbody buf.
  destruct buf as [|[[] [] [] [] [] [] [] []] buf']; first [exact Hother|exact Hprivate].
Qed.

Lemma wp_put_char c s :
  screen_ok s → parser_tame (escape_state s) (escape_buf s) c = true → wp (put_char c) (λ _, after_char s c) s.
Proof.
  intros Hs Htame. assert (Hq : quiet s s) by done.
  assert (Hprint : ∀ t, escape_state t = 0 → escape_buf t = escape_buf s → screen_ok t →
    wp (vterm_putchar_internal c) (λ _ s', screen_ok s' ∧ (escape_state s', escape_buf s') = (0, escape_buf s)) t).
  { intros t Ht Hb Hok. eapply wp_mono; [by apply (screen_putchar c t)|]. intros _ s' (Hok' & -> & ->). by rewrite Ht, Hb. }
  unfold put_char, vterm_handle_escape. apply wp_bind, wp_bind, wp_gets.
  destruct (ok_state _ Hs) as [Hst|[Hst|Hst]]; rewrite Hst; simpl.
  - unfold after_char, parser_next. rewrite Hst. simpl. destruct (bool_decide (c = _)) eqn:He.
    + apply wp_bind, wp_modify, wp_ret, wp_ret. destruct Hs. repeat split; simpl; auto; unfold ESCAPE_BUF_SIZE; lia.
    + apply wp_ret. by apply Hprint.
  - unfold after_char, parser_next. rewrite Hst. simpl. unfold vterm_escape_letter. rewrite switch_letter.
    assert (Hend : ∀ (m : M screen unit) t, wp m (λ _, quiet s) t →
      wp (m;; modify end_escape;; mret true) (λ a, wp (if a then mret tt else vterm_putchar_internal c)
        (λ _ s', screen_ok s' ∧ (escape_state s', escape_buf s') = (0, escape_buf s))) t).
    { intros m t0 Hm. apply (quiet_bind _ _ s); [done|]. intros _ t Ht. apply wp_bind, wp_modify, wp_ret, wp_ret.
      destruct Ht as ([] & ? & Hb). split; [split; simpl; auto|]. simpl. by rewrite Hb. }
    destruct (decide (c = "["%char)) as [->|Hne].
    { apply wp_bind, wp_modify, wp_ret, wp_ret. destruct Hs. split; [split; simpl; auto|done]. }
    rewrite bool_decide_eq_false_2 by done. repeat case_decide.
    + by apply Hend, screen_line_feed.
    + apply wp_bind, wp_get, Hend. destruct (_ =? _); [by apply screen_region_down|].
      destruct (0 <? _) eqn:?; [|by apply wp_ret]. apply wp_put. quiet_fields.
    + apply wp_bind, wp_modify, Hend, screen_line_feed. destruct Hconfig. quiet_fields.
    + apply wp_bind, wp_modify, wp_ret. apply Hprint; [done|done|]. destruct Hs. split; simpl; auto.
  - apply wp_bind. eapply wp_mono; [apply wp_csi; [done|done|by rewrite Hst in Htame]|]. intros [] t Ht. by apply wp_ret, wp_ret.
Qed.

(** A parameter byte that is neither a digit nor a semicolon, as in ESC [ > 4 m: however
    long the loop over the parameters runs, it is never past that byte. *)
Lemma colour_loop_hangs fuel bright c p s :
  isdigit c = false → c ≠ ";"%char → sgr_loop fuel bright (c :: p) s = Panic.
Proof.
  intros Hd Hc. revert bright s. induction fuel as [|fuel IH]; intros bright s; [done|]. cbn [sgr_loop].
  assert (Hparse : sgr_parse_num (c :: p) s = Done ((0, c :: p), s)).
  { unfold sgr_parse_num. cbn [sgr_digits]. rewrite Hd. rewrite (bind_eq (mret _) _ _ _ _ eq_refl).
    destruct c as [[] [] [] [] [] [] [] []]; done. }
  rewrite (bind_eq _ _ _ _ _ Hparse). apply IH.
Qed.

(** C18: On a well-formed screen, a write of any text whose control sequences have tame
    parameters (numbers of at most nine digits, and only numbers and semicolons in a colour
    sequence) completes, whatever else the text holds, however it is cut into writes and
    wherever a sequence begins: every access stays inside the grid and no arithmetic
    overflows; the screen is well-formed again, with the cursor inside the grid, the
    attribute in a byte and the escape buffer within its 32 bytes. *)
Theorem vterm_write_stays_inside data s :
  screen_ok s → tame (escape_state s) (escape_buf s) data = true →
  ∃ s', screen_write data s = Done (tt, s') ∧ screen_ok s'.
Proof.
  rewrite screen_write_chars. unfold put_chars. revert s. induction data as [|c data IH]; intros s Hs Htame; [by exists s|].
  cbn [tame for_list] in *. destruct (parser_next _ _ c) as [st' buf'] eqn:Hnext. apply andb_true_iff in Htame as [Hc Hrest].
  destruct (wp_done _ _ _ (wp_put_char c s Hs Hc)) as ([] & s1 & Hrun & Hs1 & Hpar).
  rewrite (bind_eq _ _ _ _ _ Hrun). rewrite Hnext in Hpar. injection Hpar as <- <-. by apply IH.
Qed.
End safety.

Definition blank_start : screen :=
  Screen (@blank_grid spiram_config) 0 0 true VTERM_DEFAULT_ATTR 0 [] false 0 0 [] [].
Lemma blank_start_ok : @screen_ok spiram_config blank_start.
Proof.
  constructor; simpl; try lia; [done|unfold ESCAPE_BUF_SIZE; lia].
Qed.

Lemma vterm_write_stays_inside_witness :
  @screen_ok spiram_config blank_start ∧
  ∃ s', @screen_write spiram_config panel ($"colours " ++ "027"%char :: $"[1;33m" ++ "027"%char :: $"[200Cedge") blank_start = Done (tt, s') ∧
    @screen_ok spiram_config s'.
Proof.
  split; [exact blank_start_ok|].
  apply (@vterm_write_stays_inside spiram_config spiram_config_ok panel panel_ok); [exact blank_start_ok|vm_compute; reflexivity].
Defined.
