(* ===== verification/Terminals.v ===== *)
(** The set of virtual terminals (app/terminal/vterm/vterm.c): allocation, switching with
    the shared internal buffer, writing, input queues, the size override, the hotkeys, the
    palette and the graphics mode.

    [machine] is the module's global state.  A terminal's [vscreen] holds its fields, with
    the backing store as its [cells]; [hot] says that its cell pointer is the shared buffer
    instead.  Callbacks are present or not, and their calls are recorded: [captured] the
    top line at each call of the scroll callback, [switched] the arguments of the switch
    callback, [notified] the calls of the input callback. *)

From S2P Require Import Prelude Text Vterm VtermSafety.

Definition INPUT_QUEUE_SIZE : nat := 64.

Record vterm_t := VTerm { vscreen : screen; hot : bool; input_queue : text }.
#[export] Instance vterm_settable : Settable vterm_t := constr VTerm <*> vscreen <*> hot <*> input_queue.

Record machine := Machine {
  s_iram_buffer : option (list cell);
  s_vterms : option (list vterm_t);
  s_active_vt : Z;
  s_dirty : bool;
  s_scroll_callback : bool;
  s_on_switch_cb : bool;
  s_on_input_cb : bool;
  captured : list (list cell);
  switched : list Z;
  notified : nat;
  (** the task, its rows and its columns *)
  s_size_override : option (nat * Z * Z);
  s_esc_buf : text;
  s_esc_start : Z;
  s_palette : list Z;
  s_graphics_mode_active : bool;
  s_saved_active_vt : Z;
}.
#[export] Instance machine_settable : Settable machine :=
  constr Machine <*> s_iram_buffer <*> s_vterms <*> s_active_vt <*> s_dirty <*> s_scroll_callback <*> s_on_switch_cb
    <*> s_on_input_cb <*> captured <*> switched <*> notified <*> s_size_override <*> s_esc_buf <*> s_esc_start
    <*> s_palette <*> s_graphics_mode_active <*> s_saved_active_vt.

(** A zeroed cell, and the zeroed fields of a terminal. *)
Definition zero_cell : cell := Cell NUL 0.
Definition zero_screen (store : list cell) : screen := Screen store 0 0 false 0 0 [] false 0 0 [] [].

Definition default_palette : list Z :=
  [0x0000; 0xA000; 0x0540; 0xA540; 0x0015; 0xA015; 0x0555; 0xAD55;
   0x52AA; 0xF800; 0x07E0; 0xFFE0; 0x001F; 0xF81F; 0x07FF; 0xFFFF].

(** The module before the first [vterm_init]. *)
Definition unused : machine := Machine None None 0 true false false false [] [] 0 None [] 0 default_palette false (-1).

Section terminals.
Context `{Config}.

Definition valid_id (vt_id : Z) : bool := ((0 <=? vt_id) && (vt_id <? VTERM_COUNT))%bool.
Definition buffer_cells : nat := Z.to_nat (VTERM_ROWS * VTERM_COLS).

(** * Size *)

Definition vterm_get_size (task : nat) (m : machine) : Z * Z :=
  match s_size_override m with
  | Some (t, rows, cols) => if (t =? task)%nat then (rows, cols) else (VTERM_ROWS, VTERM_COLS)
  | None => (VTERM_ROWS, VTERM_COLS)
  end.
Definition vterm_set_size_override (task : nat) (rows cols : Z) : M machine unit :=
  modify (λ m, m <| s_size_override :=
    Some (task, if VTERM_ROWS <? rows then VTERM_ROWS else rows, if VTERM_COLS <? cols then VTERM_COLS else cols) |>).
Definition vterm_clear_size_override : M machine unit := modify (λ m, m <| s_size_override := None |>).

(** * Access to one terminal *)

Definition get_vt (i : Z) : M machine vterm_t :=
  deref (λ m, vts ← s_vterms m; if 0 <=? i then vts !! Z.to_nat i else None).
Definition set_vt (i : Z) (f : vterm_t → vterm_t) : M machine unit :=
  modify (λ m, m <| s_vterms := alter f (Z.to_nat i) <$> s_vterms m |>).

Definition drawable (task : nat) (m : machine) (v : vterm_t) : Drawable :=
  let '(rows, cols) := vterm_get_size task m in
  {| effective_rows := rows; effective_cols := cols; scroll_hook := (hot v && s_scroll_callback m)%bool |}.

(** What the cell pointer refers to, and storing through it. *)
Definition resolve (m : machine) (v : vterm_t) : option screen :=
  if hot v then (λ buf, vscreen v <| cells := buf |>) <$> s_iram_buffer m else Some (vscreen v).
Definition store_screen (i : Z) (v : vterm_t) (s : screen) (m : machine) : machine :=
  let v' := v <| vscreen := s <| cells := if hot v then cells (vscreen v) else cells s |> <| lost := [] |> <| sent := [] |> |> in
  m <| s_iram_buffer := if hot v then Some (cells s) else s_iram_buffer m |>
    <| s_vterms := alter (λ _, v') (Z.to_nat i) <$> s_vterms m |>
    <| captured := captured m ++ lost s |>.

(** * Input queues *)

Definition vterm_send_input (vt_id : Z) (c : ascii) : M machine unit :=
  if negb (valid_id vt_id) then mret tt
  else
    _ ← get_vt vt_id;
    set_vt vt_id (λ v, v <| input_queue :=
      if (length (input_queue v) <? INPUT_QUEUE_SIZE)%nat then input_queue v ++ [c] else input_queue v |>);;
    modify (λ m, m <| notified := if s_on_input_cb m then S (notified m) else notified m |>).

(** The next byte, when the queue is not empty before the time is over. *)
Definition vterm_getchar (vt_id : Z) : M machine Z :=
  if negb (valid_id vt_id) then mret (-1)
  else
    v ← get_vt vt_id;
    match input_queue v with
    | [] => mret (-1)
    | c :: q => set_vt vt_id (λ v, v <| input_queue := q |>);; mret (code c)
    end.

Definition vterm_input_flush (vt_id : Z) : M machine unit :=
  if negb (valid_id vt_id) then mret tt else _ ← get_vt vt_id; set_vt vt_id (λ v, v <| input_queue := [] |>).

(** * Writing *)

Definition run_screen (task : nat) (vt_id : Z) (f : Drawable → M screen unit) : M machine unit :=
  v ← get_vt vt_id;
  m ← get;
  s ← deref (λ m, resolve m v);
  match f (drawable task m v) s with
  | Done (_, s') =>
      modify (store_screen vt_id v s');;
      for_list (vterm_send_input (s_active_vt m)) (sent s')
  | Panic => λ _, Panic
  | Undef => λ _, Undef
  end.

Definition vterm_write (task : nat) (vt_id : Z) (data : text) : M machine unit :=
  if negb (valid_id vt_id) then mret tt
  else
    run_screen task vt_id (λ d, screen_write data);;
    v ← get_vt vt_id;
    if (negb (bool_decide (data = [])) && hot v)%bool then modify (λ m, m <| s_dirty := true |>) else mret tt.

(** The loop over the bytes: [pending] is the data from [start] up to the current byte,
    and [data] what follows. *)
Fixpoint translate_loop (task : nat) (pending data : text) : M machine unit :=
  match data with
  | [] => match pending with [] => mret tt | _ => active ← gets s_active_vt; vterm_write task active pending end
  | c :: data =>
      if bool_decide (c = "010"%char) then
        if bool_decide (last pending = Some "013"%char) then translate_loop task (pending ++ [c]) data
        else
          (match pending with [] => mret tt | _ => active ← gets s_active_vt; vterm_write task active pending end);;
          active ← gets s_active_vt;
          vterm_write task active ["013"; "010"]%char;;
          translate_loop task [] data
      else translate_loop task (pending ++ [c]) data
  end.
Definition vterm_write_translated (task : nat) (data : text) : M machine unit := translate_loop task [] data.

(** * Allocation *)

(** Allocates [n] more terminals; [memory i] says whether allocation number [i] succeeds. *)
Fixpoint init_vts (memory : nat → bool) (n i : nat) : M machine error_t :=
  match n with
  | O => mret ERROR_NONE
  | S n =>
      if 1 <? VTERM_COUNT then
        if memory i then
          set_vt (Z.of_nat i) (λ v, v <| vscreen := zero_screen (replicate buffer_cells zero_cell) |> <| hot := false |>);;
          run_screen 0 (Z.of_nat i) (λ d, vterm_clear_internal);;
          init_vts memory n (S i)
        else mret ERROR_OUT_OF_MEMORY
      else
        set_vt (Z.of_nat i) (λ v, v <| hot := true |>);;
        run_screen 0 (Z.of_nat i) (λ d, vterm_clear_internal);;
        init_vts memory n (S i)
  end.

(** [iram] and [vts] say whether the first two allocations succeed. *)
Definition vterm_init (iram vts : bool) (memory : nat → bool) : M machine error_t :=
  if negb iram then modify (λ m, m <| s_iram_buffer := None |>);; mret ERROR_OUT_OF_MEMORY
  else
    modify (λ m, m <| s_iram_buffer := Some (replicate buffer_cells zero_cell) |>);;
    if negb vts then modify (λ m, m <| s_vterms := None |>);; mret ERROR_OUT_OF_MEMORY
    else
      modify (λ m, m <| s_vterms := Some (replicate (Z.to_nat VTERM_COUNT) (VTerm (zero_screen []) false [])) |>);;
      error ← init_vts memory (Z.to_nat VTERM_COUNT) 0;
      if negb (error =? ERROR_NONE) then mret error
      else
        modify (λ m, m <| s_active_vt := 0 |> <| s_dirty := true |>);;
        (if 1 <? VTERM_COUNT then
           v ← get_vt 0;
           modify (λ m, m <| s_iram_buffer := Some (cells (vscreen v)) |>);;
           set_vt 0 (λ v, v <| hot := true |>)
         else mret tt);;
        mret ERROR_NONE.

Definition vterm_deinit : M machine unit :=
  modify (λ m, m <| s_vterms := None |> <| s_iram_buffer := None |> <| s_active_vt := 0 |> <| s_dirty := true |>
    <| s_scroll_callback := false |> <| s_on_switch_cb := false |> <| s_on_input_cb := false |>);;
  vterm_clear_size_override.

(** * Switching *)

Definition vterm_switch (vt_id : Z) : M machine unit :=
  m ← get;
  if (negb (1 <? VTERM_COUNT) || negb (valid_id vt_id) || (vt_id =? s_active_vt m))%bool then mret tt
  else
    iram ← deref s_iram_buffer;
    old ← get_vt (s_active_vt m);
    set_vt (s_active_vt m) (λ v, v <| vscreen := vscreen v <| cells := iram |> |> <| hot := false |>);;
    new ← get_vt vt_id;
    modify (λ m, m <| s_iram_buffer := Some (cells (vscreen new)) |>);;
    set_vt vt_id (λ v, v <| hot := true |>);;
    modify (λ m, m <| s_active_vt := vt_id |> <| s_dirty := true |>);;
    modify (λ m, if s_on_switch_cb m then m <| switched := switched m ++ [vt_id] |> else m).

(** * Small operations *)

Definition vterm_get_direct_buffer (m : machine) : option (list cell) := s_iram_buffer m.
Definition vterm_get_active (m : machine) : Z := s_active_vt m.
Definition vterm_set_scroll_callback (cb : bool) : M machine unit := modify (λ m, m <| s_scroll_callback := cb |>).
Definition vterm_set_switch_callback (cb : bool) : M machine unit := modify (λ m, m <| s_on_switch_cb := cb |>).
Definition vterm_set_input_callback (cb : bool) : M machine unit := modify (λ m, m <| s_on_input_cb := cb |>).

(** Column, row and visibility; nothing for another id. *)
Definition vterm_get_cursor (vt_id : Z) : M machine (option (Z * Z * bool)) :=
  if valid_id vt_id then
    v ← get_vt vt_id; mret (Some (cursor_x (vscreen v), cursor_y (vscreen v), cursor_visible (vscreen v)))
  else mret None.
Definition vterm_take_dirty : M machine bool := m ← get; put (m <| s_dirty := false |>);; mret (s_dirty m).

Definition vterm_set_palette (palette : list Z) : M machine unit :=
  if (length palette <? 16)%nat then undef else modify (λ m, m <| s_palette := take 16 palette |>).
Definition vterm_get_palette (m : machine) : list Z := s_palette m.

(** * Hotkeys *)

Definition flush_input_buffer : M machine unit :=
  m ← get;
  for_list (vterm_send_input (s_active_vt m)) (s_esc_buf m);;
  modify (λ m, m <| s_esc_buf := [] |>).

(** P, Q, R and S: the terminal to switch to. *)
Definition hotkey_letter (c : ascii) : Z :=
  match c with "P"%char => 0 | "Q"%char => 1 | "R"%char => 2 | "S"%char => 3 | _ => -1 end.

(** The decimal number at the start of a text, and what follows it. *)
Definition number (p : text) : Z * text := let n := span isdigit p in (decimal_value (take n p), drop n p).

Definition match_vt_hotkey (buf : text) : Z :=
  match buf with
  | "027"%char :: "O"%char :: c :: rest =>
      if 0 <=? hotkey_letter c then hotkey_letter c
      else match c, rest with "5"%char, d :: _ => hotkey_letter d | _, _ => -1 end
  | "027"%char :: "["%char :: (_ :: _) as params =>
      match params with
      | ["1"; ";"; "5"; c]%char => hotkey_letter c
      | _ =>
          let '(num, rest) := number params in
          if bool_decide (last params = Some "~"%char) then
            if ((11 <=? num) && (num <=? 14))%bool then num - 11 else -1
          else if bool_decide (last params = Some "u"%char) then
            let '(modifier, _) := match rest with ";"%char :: rest => number rest | _ => (0, rest) end in
            if ((modifier =? 5) && (49 <=? num) && (num <=? 52))%bool then num - 49 else -1
          else -1
      end
  | _ => -1
  end.

(** The bytes that end a sequence after ESC O or ESC [. *)
Definition ends_sequence (c : ascii) : bool := (bool_decide (c = "~"%char) || bool_decide (c = "u"%char) || isupper c)%bool.

Definition could_be_hotkey (buf : text) : bool :=
  match buf with
  | ["027"%char] => true
  | "027"%char :: c :: rest =>
      if (bool_decide (c = "O"%char) || bool_decide (c = "["%char))%bool then
        if (10 <? length buf)%nat then false
        else match last rest with Some e => negb (ends_sequence e) | None => true end
      else false
  | _ => false
  end.

(** [now] is the tick count; 20 ms are [timeout] ticks. *)
Definition vterm_input_feed (now timeout : Z) (c : ascii) : M machine bool :=
  m ← get;
  (if (negb (bool_decide (s_esc_buf m = [])) && (timeout <? (now - s_esc_start m) mod 2^32))%bool
   then flush_input_buffer else mret tt);;
  m ← get;
  match s_esc_buf m with
  | [] =>
      if bool_decide (c = "027"%char) then put (m <| s_esc_buf := [c] |> <| s_esc_start := now |>);; mret false
      else vterm_send_input (s_active_vt m) c;; mret false
  | buf =>
      let buf := if (length buf <? 15)%nat then buf ++ [c] else buf in
      put (m <| s_esc_buf := buf |>);;
      let vt := match_vt_hotkey buf in
      if 0 <=? vt then modify (λ m, m <| s_esc_buf := [] |>);; vterm_switch vt;; mret true
      else if could_be_hotkey buf then mret false
      else flush_input_buffer;; mret false
  end.

(** * Graphics mode *)

Definition vterm_enter_graphics_mode : M machine Z :=
  m ← get;
  if s_graphics_mode_active m then mret 0
  else
    modify (λ m, m <| s_saved_active_vt := s_active_vt m |>);;
    (if 1 <? VTERM_COUNT then
       iram ← deref s_iram_buffer;
       _ ← get_vt (s_active_vt m);
       set_vt (s_active_vt m) (λ v, v <| vscreen := vscreen v <| cells := iram |> |>)
     else mret tt);;
    modify (λ m, m <| s_graphics_mode_active := true |>);;
    mret 0.

Definition vterm_exit_graphics_mode : M machine Z :=
  m ← get;
  if negb (s_graphics_mode_active m) then mret 0
  else
    (if ((1 <? VTERM_COUNT) && valid_id (s_saved_active_vt m))%bool then
       v ← get_vt (s_saved_active_vt m);
       modify (λ m, m <| s_iram_buffer := Some (cells (vscreen v)) |>);;
       set_vt (s_saved_active_vt m) (λ v, v <| hot := true |>);;
       modify (λ m, m <| s_active_vt := s_saved_active_vt m |>)
     else mret tt);;
    modify (λ m, m <| s_graphics_mode_active := false |> <| s_saved_active_vt := -1 |>);;
    mret 0.
End terminals.

(** * Independent screens: the desk *)

(** * The desk: what the module promises *)

Record desk := Desk {
  d_screens : list screen;
  d_queues : list text;
  d_active : Z;
  d_dirty : bool;
  d_override : option (nat * Z * Z);
  d_scroll_callback : bool;
  d_captured : list (list cell);
}.
#[export] Instance desk_settable : Settable desk :=
  constr Desk <*> d_screens <*> d_queues <*> d_active <*> d_dirty <*> d_override <*> d_scroll_callback <*> d_captured.

(** The operations of the module's users. *)
Inductive request :=
  | Write (task : nat) (vt_id : Z) (data : text)
  | Switch (vt_id : Z)
  | SendInput (vt_id : Z) (c : ascii)
  | GetChar (vt_id : Z)
  | Flush (vt_id : Z)
  | SetSize (task : nat) (rows cols : Z)
  | ClearSize
  | SetScrollCallback (cb : bool)
  | TakeDirty.

Section desk.
Context `{Config}.

Definition perform (r : request) : M machine Z :=
  match r with
  | Write task vt_id data => vterm_write task vt_id data;; mret 0
  | Switch vt_id => vterm_switch vt_id;; mret 0
  | SendInput vt_id c => vterm_send_input vt_id c;; mret 0
  | GetChar vt_id => vterm_getchar vt_id
  | Flush vt_id => vterm_input_flush vt_id;; mret 0
  | SetSize task rows cols => vterm_set_size_override task rows cols;; mret 0
  | ClearSize => vterm_clear_size_override;; mret 0
  | SetScrollCallback cb => vterm_set_scroll_callback cb;; mret 0
  | TakeDirty => dirty ← vterm_take_dirty; mret (if (dirty : bool) then 1 else 0)
  end.

Definition desk_enqueue (c : ascii) (q : text) : text := if (length q <? INPUT_QUEUE_SIZE)%nat then q ++ [c] else q.
Definition desk_send (vt_id : Z) (c : ascii) (d : desk) : desk :=
  if valid_id vt_id then d <| d_queues := alter (desk_enqueue c) (Z.to_nat vt_id) (d_queues d) |> else d.

Definition desk_size (task : nat) (d : desk) : Z * Z :=
  match d_override d with
  | Some (t, rows, cols) => if (t =? task)%nat then (rows, cols) else (VTERM_ROWS, VTERM_COLS)
  | None => (VTERM_ROWS, VTERM_COLS)
  end.
(** Only the active terminal's lines reach the scroll callback. *)
Definition desk_drawable (task : nat) (vt_id : Z) (d : desk) : Drawable :=
  let '(rows, cols) := desk_size task d in
  {| effective_rows := rows; effective_cols := cols; scroll_hook := (bool_decide (vt_id = d_active d) && d_scroll_callback d)%bool |}.

Definition settled (s : screen) : screen := s <| lost := [] |> <| sent := [] |>.

Definition desk_write (task : nat) (vt_id : Z) (data : text) (d : desk) : outcome (Z * desk) :=
  if negb (valid_id vt_id) then Done (0, d)
  else
    match d_screens d !! Z.to_nat vt_id with
    | None => Undef
    | Some s =>
        match @screen_write _ (desk_drawable task vt_id d) data s with
        | Done (_, s') =>
            let d1 := d <| d_screens := <[Z.to_nat vt_id := settled s']> (d_screens d) |> <| d_captured := d_captured d ++ lost s' |> in
            let d2 := foldl (λ d c, desk_send (d_active d) c d) d1 (sent s') in
            Done (0, if (negb (bool_decide (data = [])) && bool_decide (vt_id = d_active d))%bool then d2 <| d_dirty := true |> else d2)
        | Panic => Panic
        | Undef => Undef
        end
    end.

Definition desk_switch (i : Z) (d : desk) : desk :=
  if ((1 <? VTERM_COUNT) && valid_id i && negb (i =? d_active d))%bool then d <| d_active := i |> <| d_dirty := true |> else d.

(** Each request changes only the screen or the queue it names. *)
Definition desk_step (r : request) : M desk Z := λ d,
  match r with
  | Write task vt_id data => desk_write task vt_id data d
  | Switch vt_id => Done (0, desk_switch vt_id d)
  | SendInput vt_id c => Done (0, desk_send vt_id c d)
  | GetChar vt_id =>
      if valid_id vt_id then
        match d_queues d !! Z.to_nat vt_id with
        | Some (c :: q) => Done (code c, d <| d_queues := <[Z.to_nat vt_id := q]> (d_queues d) |>)
        | _ => Done (-1, d)
        end
      else Done (-1, d)
  | Flush vt_id => Done (0, if valid_id vt_id then d <| d_queues := alter (λ _, []) (Z.to_nat vt_id) (d_queues d) |> else d)
  | SetSize task rows cols => Done (0, d <| d_override := Some (task, Z.min rows VTERM_ROWS, Z.min cols VTERM_COLS) |>)
  | ClearSize => Done (0, d <| d_override := None |>)
  | SetScrollCallback cb => Done (0, d <| d_scroll_callback := cb |>)
  | TakeDirty => Done (if d_dirty d then 1 else 0, d <| d_dirty := false |>)
  end.

(** * The machine as a desk *)

(** The screen a terminal shows or keeps, given the shared buffer. *)
Definition content (iram : list cell) (v : vterm_t) : screen := vscreen v <| cells := if hot v then iram else cells (vscreen v) |>.

(** Exactly the active terminal points to the shared buffer. *)
Definition represents (m : machine) (d : desk) : Prop :=
  ∃ iram vts,
    s_iram_buffer m = Some iram ∧ s_vterms m = Some vts ∧
    Z.of_nat (length vts) = VTERM_COUNT ∧ valid_id (s_active_vt m) = true ∧
    (∀ i v, vts !! i = Some v → hot v = bool_decide (Z.of_nat i = s_active_vt m)) ∧
    d = Desk (content iram <$> vts) (input_queue <$> vts) (s_active_vt m) (s_dirty m) (s_size_override m)
          (s_scroll_callback m) (captured m).

(** One request, on the machine and on the desk. *)
Definition simulates (o : outcome (Z * machine)) (o' : outcome (Z * desk)) : Prop :=
  match o' with
  | Done (r, d) => ∃ m, o = Done (r, m) ∧ represents m d
  | Panic => o = Panic
  | Undef => o = Undef
  end.

Lemma valid_range i : valid_id i = true ↔ 0 <= i < VTERM_COUNT.
Proof. unfold valid_id. rewrite andb_true_iff, Z.leb_le, Z.ltb_lt. lia. Qed.

(** Reading a terminal that is there. *)
Lemma get_vt_eq i m vts :
  s_vterms m = Some vts → Z.of_nat (length vts) = VTERM_COUNT → valid_id i = true →
  ∃ v, vts !! Z.to_nat i = Some v ∧ get_vt i m = Done (v, m).
Proof.
  intros Hvts Hlen Hi%valid_range. destruct (lookup_lt_is_Some_2 vts (Z.to_nat i) ltac:(lia)) as [v Hv]. exists v.
  split; [done|]. unfold get_vt, deref. rewrite Hvts. simpl. replace (0 <=? i) with true by lia. by rewrite Hv.
Qed.

Lemma fmap_alter {A B} (g : A → B) (f : A → A) (h : B → B) i (l : list A) :
  (∀ x, l !! i = Some x → g (f x) = h (g x)) → g <$> alter f i l = alter h i (g <$> l).
Proof.
  intros Hgh. apply list_eq. intros j. rewrite list_lookup_fmap.
  destruct (decide (i = j)) as [<-|Hne].
  - rewrite !list_lookup_alter_eq, list_lookup_fmap. destruct (l !! i) as [x|] eqn:Hx; simpl; [by rewrite Hgh|done].
  - rewrite !list_lookup_alter_ne, list_lookup_fmap by done. done.
Qed.
Lemma fmap_alter_id {A B} (g : A → B) (f : A → A) i (l : list A) :
  (∀ x, l !! i = Some x → g (f x) = g x) → g <$> alter f i l = g <$> l.
Proof. intros Hg. rewrite (fmap_alter g f (λ x, x)) by done. apply list_eq. intros j. destruct (decide (i = j)) as [<-|?].
  - rewrite list_lookup_alter_eq. by destruct ((g <$> l) !! i).
  - by rewrite list_lookup_alter_ne.
Qed.

(** An update of one terminal that keeps [hot]. *)
Lemma alter_hot (vts : list vterm_t) f i active :
  (∀ i v, vts !! i = Some v → hot v = bool_decide (Z.of_nat i = active)) → (∀ v, hot (f v) = hot v) →
  ∀ j v, alter f i vts !! j = Some v → hot v = bool_decide (Z.of_nat j = active).
Proof.
  intros Hhot Hf j v. destruct (decide (i = j)) as [<-|Hne].
  - rewrite list_lookup_alter_eq. destruct (vts !! i) as [w|] eqn:Hw; [|done]. intros [= <-]. rewrite Hf. by apply Hhot.
  - rewrite list_lookup_alter_ne by done. apply Hhot.
Qed.

(** ** Input queues *)

Lemma send_represents vt_id c m d :
  represents m d → ∃ m', vterm_send_input vt_id c m = Done (tt, m') ∧ represents m' (desk_send vt_id c d) ∧ s_active_vt m' = s_active_vt m.
Proof.
  intros (iram & vts & Hiram & Hvts & Hlen & Hact & Hhot & ->). unfold vterm_send_input, desk_send.
  destruct (valid_id vt_id) eqn:Hid; simpl; [|by exists m; split_and!; [|exists iram, vts|]].
  destruct (get_vt_eq vt_id m vts Hvts Hlen Hid) as (v & Hv & Hget).
  rewrite (bind_eq _ _ _ _ _ Hget). eexists. split; [reflexivity|]. split; [|done].
  exists iram, (alter (λ v, v <| input_queue := desk_enqueue c (input_queue v) |>) (Z.to_nat vt_id) vts).
  split_and!; simpl; [done|by rewrite Hvts|by rewrite length_alter|done|by apply alter_hot|].
  rewrite fmap_alter_id by done. by rewrite (fmap_alter input_queue _ (desk_enqueue c)).
Qed.

Lemma sends_represent cs a m d :
  represents m d → s_active_vt m = a →
  ∃ m', for_list (vterm_send_input a) cs m = Done (tt, m') ∧ represents m' (foldl (λ d c, desk_send (d_active d) c d) d cs) ∧
    s_active_vt m' = a.
Proof.
  revert m d. induction cs as [|c cs IH]; intros m d Hm Ha; [by exists m|]. cbn [for_list foldl].
  destruct (send_represents a c m d Hm) as (m1 & Hrun & Hm1 & Ha1). rewrite (bind_eq _ _ _ _ _ Hrun).
  assert (Hd : d_active d = a) by (destruct Hm as (? & ? & _ & _ & _ & _ & _ & ->); done). rewrite Hd.
  apply IH; [done|congruence].
Qed.

(** ** Writing *)

Lemma resolve_content m iram v : s_iram_buffer m = Some iram → resolve m v = Some (content iram v).
Proof. intros Hm. unfold resolve, content. rewrite Hm. destruct v as [s [] q]; simpl; [done|]. by destruct s. Qed.

Lemma id_nat i : valid_id i = true → Z.of_nat (Z.to_nat i) = i.
Proof. intros Hi%valid_range. lia. Qed.

Lemma drawable_desk task i m d v vts :
  represents m d → s_vterms m = Some vts → vts !! Z.to_nat i = Some v → valid_id i = true →
  drawable task m v = desk_drawable task i d.
Proof.
  intros (iram & vts' & _ & Hvts & _ & _ & Hhot & ->) Hm Hv Hi. assert (vts' = vts) as -> by congruence.
  unfold drawable, desk_drawable, vterm_get_size, desk_size. simpl. rewrite (Hhot _ _ Hv), id_nat by done. done.
Qed.

Lemma store_represents i v s m d vts :
  represents m d → s_vterms m = Some vts → vts !! Z.to_nat i = Some v → valid_id i = true →
  represents (store_screen i v s m)
    (d <| d_screens := <[Z.to_nat i := settled s]> (d_screens d) |> <| d_captured := d_captured d ++ lost s |>).
Proof.
  intros (iram & vts' & Hiram & Hvts & Hlen & Hact & Hhot & ->) Hm Hv Hi. assert (vts' = vts) as -> by congruence. clear Hm.
  pose proof (lookup_lt_Some _ _ _ Hv) as Hlt.
  eexists (if hot v then cells s else iram), _. unfold store_screen. split_and!; simpl.
  - by destruct (hot v).
  - by rewrite Hvts.
  - by rewrite length_alter.
  - done.
  - intros j w. destruct (decide (Z.to_nat i = j)) as [<-|Hne].
    + rewrite list_lookup_alter_eq, Hv. intros [= <-]. simpl. by apply Hhot.
    + rewrite list_lookup_alter_ne by done. apply Hhot.
  - unfold set_field. simpl. f_equal.
    + apply list_eq. intros j. rewrite list_lookup_fmap. destruct (decide (Z.to_nat i = j)) as [<-|Hne].
      * rewrite list_lookup_insert_eq by (by rewrite length_fmap). rewrite list_lookup_alter_eq, Hv. simpl.
        unfold content, settled. simpl. by destruct (hot v), s.
      * rewrite list_lookup_insert_ne, list_lookup_alter_ne, list_lookup_fmap by done.
        destruct (vts !! j) as [w|] eqn:Hw; [|done]. simpl. f_equal. unfold content.
        destruct (hot v) eqn:Hhv; [|done].
        assert (hot w = false) as ->; [|done]. rewrite (Hhot _ _ Hw). rewrite (Hhot _ _ Hv) in Hhv.
        apply bool_decide_eq_true in Hhv. apply bool_decide_eq_false. lia.
    + apply list_eq. intros j. rewrite !list_lookup_fmap. destruct (decide (Z.to_nat i = j)) as [<-|Hne].
      * by rewrite list_lookup_alter_eq, Hv.
      * by rewrite list_lookup_alter_ne.
Qed.

Lemma write_simulates task i data m d :
  represents m d → simulates ((vterm_write task i data;; mret 0) m) (desk_write task i data d).
Proof.
  intros Hm. unfold desk_write, vterm_write. destruct (valid_id i) eqn:Hi; simpl; [|by exists m].
  pose proof Hm as (iram & vts & Hiram & Hvts & Hlen & Hact & Hhot & Hd).
  destruct (get_vt_eq i m vts Hvts Hlen Hi) as (v & Hv & Hget).
  assert (d_screens d !! Z.to_nat i = Some (content iram v)) as -> by (rewrite Hd; simpl; by rewrite list_lookup_fmap, Hv).
  rewrite !bind_bind. unfold run_screen. rewrite bind_bind, (bind_eq _ _ _ _ _ Hget), bind_bind, (bind_eq get _ _ _ _ eq_refl).
  rewrite bind_bind, (bind_eq _ _ _ (content iram v) m) by (unfold deref; by rewrite (resolve_content _ _ _ Hiram)).
  rewrite (drawable_desk task i m d v vts) by done.
  unfold mbind at 1, M_bind at 1. destruct (screen_write data (content iram v)) as [[[] s']| |]; [|done..].
  rewrite (bind_eq (modify _) _ _ _ _ eq_refl).
  destruct (sends_represent (sent s') (s_active_vt m) (store_screen i v s' m) _ (store_represents i v s' m d vts Hm Hvts Hv Hi) eq_refl)
    as (m2 & Hrun & Hm2 & Ha2). rewrite Hrun.
  match type of Hm2 with represents _ ?x => set (d2 := x) in * end. clearbody d2.
  pose proof Hm2 as (iram2 & vts2 & Hi2 & Hvts2 & Hlen2 & Hact2 & Hhot2 & Hd2).
  destruct (get_vt_eq i m2 vts2 Hvts2 Hlen2 Hi) as (v2 & Hv2 & Hget2). rewrite bind_bind, (bind_eq _ _ _ _ _ Hget2).
  rewrite (Hhot2 _ _ Hv2), id_nat, Ha2 by done. assert (s_active_vt m = d_active d) as -> by by rewrite Hd.
  destruct (_ && _)%bool; [|by exists m2].
  eexists. split; [reflexivity|]. rewrite Hd2. by exists iram2, vts2.
Qed.

(** ** Switching *)

Lemma switch_represents i m d :
  represents m d → ∃ m', vterm_switch i m = Done (tt, m') ∧ represents m' (desk_switch i d).
Proof.
  intros Hm. pose proof Hm as (iram & vts & Hiram & Hvts & Hlen & Hact & Hhot & Hd). unfold vterm_switch, desk_switch.
  assert (d_active d = s_active_vt m) as -> by by rewrite Hd.
  rewrite (bind_eq get _ _ _ _ eq_refl).
  destruct (1 <? VTERM_COUNT) eqn:Hmany, (valid_id i) eqn:Hi, (i =? s_active_vt m) eqn:Hia; simpl; try by exists m.
  apply Z.eqb_neq in Hia. set (a := s_active_vt m) in *.
  rewrite (bind_eq _ _ _ iram m) by (unfold deref; by rewrite Hiram).
  destruct (get_vt_eq a m vts Hvts Hlen Hact) as (va & Hva & Hgeta). rewrite (bind_eq _ _ _ _ _ Hgeta).
  assert (Hai : Z.to_nat a ≠ Z.to_nat i) by (apply valid_range in Hi, Hact; lia).
  set (park := λ v : vterm_t, v <| vscreen := vscreen v <| cells := iram |> |> <| hot := false |>).
  unfold set_vt. rewrite (bind_eq (modify _) _ _ _ _ eq_refl). set (m1 := m <| s_vterms := _ |>).
  assert (Hvts1 : s_vterms m1 = Some (alter park (Z.to_nat a) vts)) by (unfold m1; simpl; by rewrite Hvts).
  destruct (get_vt_eq i m1 _ Hvts1 ltac:(by rewrite length_alter) Hi) as (vi & Hvi & Hgeti).
  rewrite (bind_eq _ _ _ _ _ Hgeti). rewrite list_lookup_alter_ne in Hvi by done.
  rewrite !(bind_eq (modify _) _ _ _ _ eq_refl).
  assert (Hhi : hot vi = false) by (rewrite (Hhot _ _ Hvi); apply bool_decide_eq_false; by rewrite id_nat).
  assert (Hha : hot va = true) by (rewrite (Hhot _ _ Hva); apply bool_decide_eq_true; by rewrite id_nat).
  eexists. split; [reflexivity|].
  match goal with |- represents (if _ then ?x else ?y) _ => assert (Hgoal : represents y (d <| d_active := i |> <| d_dirty := true |>)) end.
  2:{ destruct (s_on_switch_cb _); [|done]. destruct Hgoal as (? & ? & ? & ? & ? & ? & ? & ->). by eexists _, _. }
  eexists (cells (vscreen vi)), (alter (λ v, v <| hot := true |>) (Z.to_nat i) (alter park (Z.to_nat a) vts)).
  split_and!; simpl; [done|by rewrite Hvts|by rewrite !length_alter|done| |].
  - intros j w. destruct (decide (Z.to_nat i = j)) as [<-|Hji].
    { rewrite list_lookup_alter_eq, list_lookup_alter_ne, Hvi by done. intros [= <-]. simpl. symmetry. apply bool_decide_eq_true. by apply id_nat. }
    rewrite list_lookup_alter_ne by done. intros Hw. transitivity false; [|symmetry; apply bool_decide_eq_false; lia].
    revert Hw. destruct (decide (Z.to_nat a = j)) as [<-|Hja].
    { rewrite list_lookup_alter_eq, Hva. by intros [= <-]. }
    rewrite list_lookup_alter_ne by done. intros Hw. rewrite (Hhot _ _ Hw). apply bool_decide_eq_false.
    intros Hj. apply Hja. unfold a. lia.
  - rewrite Hd. unfold set_field. simpl. f_equal.
    + apply list_eq. intros j. rewrite !list_lookup_fmap. destruct (decide (Z.to_nat i = j)) as [<-|Hji].
      { rewrite list_lookup_alter_eq, list_lookup_alter_ne, Hvi by done. simpl. f_equal. unfold content. simpl. by rewrite Hhi. }
      rewrite list_lookup_alter_ne by done. destruct (decide (Z.to_nat a = j)) as [<-|Hja].
      { rewrite list_lookup_alter_eq, Hva. simpl. f_equal. unfold content. simpl. by rewrite Hha. }
      rewrite list_lookup_alter_ne by done. destruct (vts !! j) as [w|] eqn:Hw; [|done]. simpl. f_equal. unfold content.
      assert (hot w = false) as ->; [|done]. rewrite (Hhot _ _ Hw). apply bool_decide_eq_false. intros Hj. apply Hja. unfold a. lia.
    + apply list_eq. intros j. rewrite !list_lookup_fmap. destruct (decide (Z.to_nat i = j)) as [<-|Hji].
      { by rewrite list_lookup_alter_eq, list_lookup_alter_ne, Hvi. }
      rewrite list_lookup_alter_ne by done. destruct (decide (Z.to_nat a = j)) as [<-|Hja].
      { by rewrite list_lookup_alter_eq, Hva. }
      by rewrite list_lookup_alter_ne.
Qed.

(** ** All requests *)

Lemma simulates_unit (m : M machine unit) s d :
  (∃ s', m s = Done (tt, s') ∧ represents s' d) → simulates ((m;; mret 0) s) (Done (0, d)).
Proof. intros (s' & Hm & Hd). exists s'. by rewrite (bind_eq _ _ _ _ _ Hm). Qed.

Lemma getchar_simulates i m d : represents m d → simulates (vterm_getchar i m) (desk_step (GetChar i) d).
Proof.
  intros Hm. pose proof Hm as (iram & vts & Hiram & Hvts & Hlen & Hact & Hhot & Hd).
  unfold vterm_getchar, desk_step. destruct (valid_id i) eqn:Hi; simpl; [|by exists m].
  destruct (get_vt_eq i m vts Hvts Hlen Hi) as (v & Hv & Hget). rewrite (bind_eq _ _ _ _ _ Hget).
  assert (d_queues d !! Z.to_nat i = Some (input_queue v)) as -> by (rewrite Hd; simpl; by rewrite list_lookup_fmap, Hv).
  destruct (input_queue v) as [|c q]; [by exists m|]. eexists. split; [reflexivity|].
  exists iram, (alter (λ v, v <| input_queue := q |>) (Z.to_nat i) vts).
  split_and!; simpl; [done|by rewrite Hvts|by rewrite length_alter|done|by apply alter_hot|].
  rewrite fmap_alter_id by done. rewrite (fmap_alter input_queue _ (λ _, q)) by done. rewrite Hd. unfold set_field. simpl. f_equal.
  apply list_eq. intros j. pose proof (lookup_lt_Some _ _ _ Hv). destruct (decide (Z.to_nat i = j)) as [<-|Hne].
  - rewrite list_lookup_insert_eq by (by rewrite length_fmap). by rewrite list_lookup_alter_eq, list_lookup_fmap, Hv.
  - by rewrite list_lookup_insert_ne, list_lookup_alter_ne.
Qed.

Lemma flush_represents i m d :
  represents m d → ∃ m', vterm_input_flush i m = Done (tt, m') ∧
    represents m' (if valid_id i then d <| d_queues := alter (λ _, []) (Z.to_nat i) (d_queues d) |> else d).
Proof.
  intros Hm. pose proof Hm as (iram & vts & Hiram & Hvts & Hlen & Hact & Hhot & Hd).
  unfold vterm_input_flush. destruct (valid_id i) eqn:Hi; simpl; [|by exists m].
  destruct (get_vt_eq i m vts Hvts Hlen Hi) as (v & Hv & Hget). rewrite (bind_eq _ _ _ _ _ Hget).
  eexists. split; [reflexivity|]. exists iram, (alter (λ v, v <| input_queue := [] |>) (Z.to_nat i) vts).
  split_and!; simpl; [done|by rewrite Hvts|by rewrite length_alter|done|by apply alter_hot|].
  rewrite fmap_alter_id by done. rewrite (fmap_alter input_queue _ (λ _, [])) by done. by rewrite Hd.
Qed.

Lemma perform_simulates r m d : represents m d → simulates (perform r m) (desk_step r d).
Proof.
  intros Hm. destruct r as [task i data|i|i c|i|i|task rows cols| |cb|]; cbn [perform desk_step].
  - by apply write_simulates.
  - by apply simulates_unit, switch_represents.
  - apply simulates_unit. destruct (send_represents i c m d Hm) as (m' & ? & ? & _). by exists m'.
  - by apply getchar_simulates.
  - by apply simulates_unit, flush_represents.
  - apply simulates_unit. eexists. split; [reflexivity|]. destruct Hm as (iram & vts & ? & ? & ? & ? & ? & ->). exists iram, vts.
    split_and!; try done. unfold set_field. simpl. repeat f_equal; destruct (_ <? _) eqn:?; lia.
  - apply simulates_unit. eexists. split; [reflexivity|]. destruct Hm as (iram & vts & ? & ? & ? & ? & ? & ->). by exists iram, vts.
  - apply simulates_unit. eexists. split; [reflexivity|]. destruct Hm as (iram & vts & ? & ? & ? & ? & ? & ->). by exists iram, vts.
  - destruct Hm as (iram & vts & ? & ? & ? & ? & ? & ->). eexists. split; [reflexivity|]. by exists iram, vts.
Qed.

Fixpoint perform_all (rs : list request) : M machine (list Z) :=
  match rs with [] => mret [] | r :: rs => z ← perform r; zs ← perform_all rs; mret (z :: zs) end.
Fixpoint desk_all (rs : list request) : M desk (list Z) :=
  match rs with [] => mret [] | r :: rs => z ← desk_step r; zs ← desk_all rs; mret (z :: zs) end.

Definition simulates_all (o : outcome (list Z * machine)) (o' : outcome (list Z * desk)) : Prop :=
  match o' with
  | Done (zs, d) => ∃ m, o = Done (zs, m) ∧ represents m d
  | Panic => o = Panic
  | Undef => o = Undef
  end.

Lemma perform_all_simulates rs m d : represents m d → simulates_all (perform_all rs m) (desk_all rs d).
Proof.
  revert m d. induction rs as [|r rs IH]; intros m d Hm; [by exists m|]. cbn [perform_all desk_all]. unfold mbind, M_bind.
  pose proof (perform_simulates r m d Hm) as Hr. destruct (desk_step r d) as [[z d']| |]; simpl in Hr; [|by rewrite Hr..].
  destruct Hr as (m' & -> & Hm'). specialize (IH m' d' Hm'). destruct (desk_all rs d') as [[zs d'']| |]; simpl in *; [|by rewrite IH..].
  destruct IH as (m'' & -> & Hm''). by exists m''.
Qed.

(** ** Allocation *)

Context {Hconfig : ConfigOk}.

Definition blank_screen (store : list cell) : screen := Screen store 0 0 true VTERM_DEFAULT_ATTR 0 [] false 0 0 [] [].
Definition fresh_desk (m : machine) : desk :=
  Desk (replicate (Z.to_nat VTERM_COUNT) (blank_screen blank_grid)) (replicate (Z.to_nat VTERM_COUNT) []) 0 true
    (s_size_override m) (s_scroll_callback m) (captured m).

(** One terminal cleared, when its pointer refers to a whole grid. *)
Lemma run_clear i v m vts (f : Drawable → M screen unit) :
  f = (λ d, vterm_clear_internal) →
  s_vterms m = Some vts → 0 <= i → vts !! Z.to_nat i = Some v →
  (if hot v then ∃ b, s_iram_buffer m = Some b ∧ length b = buffer_cells else length (cells (vscreen v)) = buffer_cells) →
  vscreen v = zero_screen (cells (vscreen v)) →
  run_screen 0 i f m = Done (tt, store_screen i v (blank_screen blank_grid) m).
Proof.
  intros -> Hvts Hi Hv Hbuf Hzero. unfold run_screen.
  rewrite (bind_eq _ _ _ v m) by (unfold get_vt, deref; rewrite Hvts; simpl; replace (0 <=? i) with true by lia; by rewrite Hv).
  rewrite (bind_eq get _ _ _ _ eq_refl).
  assert (Hs : ∃ s, resolve m v = Some s ∧ length (cells s) = buffer_cells ∧ s = zero_screen (cells s)).
  { unfold resolve. destruct (hot v).
    - destruct Hbuf as (b & -> & Hb). eexists. split; [reflexivity|]. split; [done|]. rewrite Hzero. done.
    - eexists. split; [reflexivity|]. done. }
  destruct Hs as (s & Hres & Hl & Hs). rewrite (bind_eq _ _ _ s m) by (unfold deref; by rewrite Hres).
  rewrite clear_eq by (by rewrite Hl; unfold buffer_cells; destruct Hconfig; rewrite Z2Nat.id by nia). rewrite Hs. done.
Qed.

(** What allocation leaves: the terminals before the number [k] are cleared. *)
Definition allocated (k : nat) (m0 m : machine) : Prop :=
  (∃ iram, s_iram_buffer m = Some iram) ∧ s_scroll_callback m = s_scroll_callback m0 ∧ captured m = captured m0 ∧
  s_size_override m = s_size_override m0 ∧
  ∃ vts, s_vterms m = Some vts ∧ Z.of_nat (length vts) = VTERM_COUNT ∧
    ∀ j v, vts !! j = Some v → (j < k)%nat → v = VTerm (blank_screen blank_grid) false [].

Lemma init_vts_eq n k m0 m :
  1 < VTERM_COUNT → allocated k m0 m → Z.of_nat (k + n) = VTERM_COUNT → (∀ vts j v, s_vterms m = Some vts → vts !! j = Some v → input_queue v = []) →
  ∃ m', init_vts (λ _, true) n k m = Done (ERROR_NONE, m') ∧ allocated (k + n) m0 m'.
Proof.
  intros Hmany. revert k m. induction n as [|n IH]; intros k m Hm Hk Hq; [exists m; split; [done|by rewrite Nat.add_0_r]|].
  destruct Hm as ([iram Hiram] & Hcb & Hcap & Hov & vts & Hvts & Hlen & Hdone). cbn [init_vts].
  replace (1 <? VTERM_COUNT) with true by lia.
  destruct (lookup_lt_is_Some_2 vts k ltac:(lia)) as [v Hv].
  unfold set_vt. rewrite (bind_eq (modify _) _ _ _ _ eq_refl). set (m1 := m <| s_vterms := _ |>).
  set (v1 := v <| vscreen := zero_screen (replicate buffer_cells zero_cell) |> <| hot := false |>).
  set (vts1 := alter (λ v, v <| vscreen := zero_screen (replicate buffer_cells zero_cell) |> <| hot := false |>) k vts).
  assert (Hvts1 : s_vterms m1 = Some vts1) by (unfold m1; simpl; by rewrite Hvts, Nat2Z.id).
  assert (Hv1 : vts1 !! k = Some v1) by (unfold vts1; by rewrite list_lookup_alter_eq, Hv).
  rewrite (bind_eq _ _ _ _ _ (run_clear (Z.of_nat k) v1 m1 vts1 _ eq_refl Hvts1 ltac:(lia) ltac:(by rewrite Nat2Z.id)
    (length_replicate buffer_cells zero_cell) eq_refl)).
  replace (k + S n)%nat with (S k + n)%nat by lia. apply IH; [|lia|].
  - split_and!; simpl; [by eexists|done|by rewrite app_nil_r|done|].
    eexists. split; [by rewrite Hvts|]. split; [by rewrite !length_alter|]. rewrite !Nat2Z.id. intros j w.
    destruct (decide (k = j)) as [<-|Hne].
    + rewrite !list_lookup_alter_eq, Hv. intros [= <-] _. unfold v1. unfold set_field. simpl. f_equal. by apply (Hq vts k).
    + rewrite !list_lookup_alter_ne by done. intros Hw Hj. apply (Hdone j); [done|lia].
  - simpl. rewrite Hvts. simpl. rewrite !Nat2Z.id. intros vts' j w [= <-]. destruct (decide (k = j)) as [<-|Hne].
    + rewrite !list_lookup_alter_eq, Hv. intros [= <-]. simpl. by apply (Hq vts k).
    + rewrite !list_lookup_alter_ne by done. by apply Hq.
Qed.

Lemma fmap_all {A B} (g : A → B) b n (l : list A) :
  length l = n → (∀ i a, l !! i = Some a → g a = b) → g <$> l = replicate n b.
Proof.
  intros <- Hg. apply list_eq. intros i. rewrite list_lookup_fmap. destruct (l !! i) as [a|] eqn:Ha; simpl.
  - rewrite (Hg _ _ Ha). symmetry. apply lookup_replicate. split; [done|]. by eapply lookup_lt_Some.
  - symmetry. apply lookup_replicate_None. by apply lookup_ge_None.
Qed.

(** A machine with every terminal blank, and the first one active. *)
Lemma fresh_represents m0 m iram vts :
  s_iram_buffer m = Some iram → s_vterms m = Some vts → Z.of_nat (length vts) = VTERM_COUNT → 1 <= VTERM_COUNT →
  (∀ j v, vts !! j = Some v → hot v = bool_decide (Z.of_nat j = 0) ∧ content iram v = blank_screen blank_grid ∧ input_queue v = []) →
  s_active_vt m = 0 → s_dirty m = true → s_size_override m = s_size_override m0 → s_scroll_callback m = s_scroll_callback m0 →
  captured m = captured m0 → represents m (fresh_desk m0).
Proof.
  intros Hiram Hvts Hlen Hcount Hall Hact Hdirty Hov Hcb Hcap. exists iram, vts. split_and!; try done.
  - rewrite Hact. apply valid_range. lia.
  - intros j v Hv. rewrite Hact. by destruct (Hall _ _ Hv).
  - unfold fresh_desk. rewrite Hact, Hdirty, Hov, Hcb, Hcap. f_equal; symmetry; apply fmap_all; [lia| |lia|]; intros i v Hv; by destruct (Hall _ _ Hv) as (_ & ? & ?).
Qed.

Lemma vterm_init_represents m0 :
  1 <= VTERM_COUNT → ∃ m, vterm_init true true (λ _, true) m0 = Done (ERROR_NONE, m) ∧ represents m (fresh_desk m0).
Proof.
  intros Hcount. unfold vterm_init. cbn [negb]. rewrite !(bind_eq (modify _) _ _ _ _ eq_refl).
  set (empty := VTerm (zero_screen []) false []). set (m1 := m0 <| s_iram_buffer := _ |> <| s_vterms := _ |>).
  set (vts := replicate (Z.to_nat VTERM_COUNT) empty) in m1.
  destruct (1 <? VTERM_COUNT) eqn:Hmany.
  - apply Z.ltb_lt in Hmany.
    assert (Hm1 : allocated 0 m0 m1).
    { split_and!; [by eexists|done..|]. exists vts. split; [done|]. split; [unfold vts; rewrite length_replicate; lia|]. intros j v _ Hj. lia. }
    destruct (init_vts_eq (Z.to_nat VTERM_COUNT) 0 m0 m1 Hmany Hm1 ltac:(lia)) as (m2 & Hrun & Hm2).
    { intros vts' j v [= <-] Hv. apply lookup_replicate in Hv as [-> _]. done. }
    rewrite (bind_eq _ _ _ _ _ Hrun). cbn [negb Z.eqb ERROR_NONE]. rewrite !(bind_eq (modify _) _ _ _ _ eq_refl).
    destruct Hm2 as ([iram Hiram] & Hcb & Hcap & Hov & vts2 & Hvts2 & Hlen2 & Hdone).
    destruct (lookup_lt_is_Some_2 vts2 0 ltac:(lia)) as [v0 Hv0].
    rewrite bind_bind. set (m3 := m2 <| s_active_vt := 0 |> <| s_dirty := true |>).
    assert (Hget : get_vt 0 m3 = Done (v0, m3)) by (unfold get_vt, deref, m3; simpl; rewrite Hvts2; simpl; change (Z.to_nat 0) with 0%nat; by rewrite Hv0).
    rewrite (bind_eq _ _ _ _ _ Hget), bind_bind. unfold set_vt. rewrite !(bind_eq (modify _) _ _ _ _ eq_refl).
    eexists. split; [reflexivity|].
    eapply (fresh_represents m0 _ (cells (vscreen v0)) (alter (λ v, v <| hot := true |>) 0%nat vts2)); simpl;
      [done|by rewrite Hvts2|by rewrite length_alter|done| |done..].
    assert (Hv0' : v0 = VTerm (blank_screen blank_grid) false []) by (apply (Hdone 0%nat); [done|lia]).
    intros [|j] v.
    + rewrite list_lookup_alter_eq, Hv0, Hv0'. by intros [= <-].
    + rewrite list_lookup_alter_ne by done. intros Hv. pose proof (lookup_lt_Some _ _ _ Hv).
      rewrite (Hdone _ _ Hv) by lia. split_and!; [|done..]. symmetry. apply bool_decide_eq_false. lia.
  - apply Z.ltb_ge in Hmany. assert (HC1 : VTERM_COUNT = 1) by lia.
    assert (Hvts1 : s_vterms m1 = Some [empty]) by (unfold m1, vts; rewrite HC1; done).
    assert (Hiram1 : s_iram_buffer m1 = Some (replicate buffer_cells zero_cell)) by done.
    assert (Hsame : s_size_override m1 = s_size_override m0 ∧ s_scroll_callback m1 = s_scroll_callback m0 ∧ captured m1 = captured m0) by done.
    clearbody m1. replace (Z.to_nat VTERM_COUNT) with 1%nat by lia. cbn [init_vts]. replace (1 <? VTERM_COUNT) with false by lia.
    rewrite bind_bind. unfold set_vt. rewrite (bind_eq (modify _) _ _ _ _ eq_refl), bind_bind. set (m2 := m1 <| s_vterms := _ |>).
    set (v1 := VTerm (zero_screen []) true []). assert (Hvts2 : s_vterms m2 = Some [v1]) by (unfold m2; simpl; by rewrite Hvts1).
    assert (Hbuf : ∃ b, s_iram_buffer m2 = Some b ∧ length b = buffer_cells) by (eexists; split; [exact Hiram1|apply length_replicate]).
    rewrite (bind_eq _ _ _ _ _ (run_clear 0 v1 m2 [v1] _ eq_refl Hvts2 ltac:(lia) eq_refl Hbuf eq_refl)).
    rewrite (bind_eq (mret ERROR_NONE) _ _ _ _ eq_refl). cbn [negb Z.eqb ERROR_NONE].
    rewrite !(bind_eq (modify _) _ _ _ _ eq_refl), (bind_eq (mret tt) _ _ _ _ eq_refl).
    eexists. split; [reflexivity|]. destruct Hsame as (? & ? & ?).
    eapply (fresh_represents m0 _ blank_grid [VTerm (blank_screen []) true []]); simpl;
      [done|by rewrite Hvts1|by rewrite HC1|done| |done|done|done|done|by rewrite app_nil_r].
    intros [|j] v; [|by destruct j]. by intros [= <-].
Qed.

(** C8: After a successful start, the terminals behave as a desk of independent screens,
    each with its own cells and its own input queue: every sequence of writes, switches,
    input, flushes, size changes and polls gives on the one shared buffer, with its copying
    in and out at every switch, the results that it gives on the desk, where a switch only
    changes which screen is active.  So no switch loses or mixes up a screen, and a write
    changes no screen but the one it names; its status reports go to the active terminal,
    and only the active terminal's lines reach the scroll callback. *)
Theorem terminals_refine_a_desk m0 rs :
  1 <= VTERM_COUNT →
  ∃ m, vterm_init true true (λ _, true) m0 = Done (ERROR_NONE, m) ∧
    simulates_all (perform_all rs m) (desk_all rs (fresh_desk m0)).
Proof.
  intros Hcount. destruct (vterm_init_represents m0 Hcount) as (m & Hrun & Hm). exists m.
  split; [done|]. by apply perform_all_simulates.
Qed.
End desk.

Section demo.
#[local] Existing Instance spiram_config.

Definition cold_machine : machine :=
  Machine None None 0 false false false false [] [] 0 None [] 0 [] false 0.
Definition demo_requests : list request :=
  [Write 0 0 $"first"; Write 0 2 $"hidden"; Switch 2; SendInput 2 "x"; Write 0 2 $" shown"; Switch 0; GetChar 2].

Lemma terminals_refine_a_desk_witness :
  1 <= VTERM_COUNT ∧
  ∃ m, vterm_init true true (λ _, true) cold_machine = Done (ERROR_NONE, m) ∧
    simulates_all (perform_all demo_requests m) (desk_all demo_requests (fresh_desk cold_machine)).
Proof.
  split; [vm_compute; discriminate|].
  apply (terminals_refine_a_desk cold_machine demo_requests). vm_compute. discriminate.
Defined.
End demo.
