(* ===== verification/LineEditor.v ===== *)
(** The shell's line editor (app/shell/LineEditor.cpp): the edit buffer, the history, and
    the bytes written to the terminal for every key.

    [editor] holds the members of the class; the two arrays have their 256 bytes, and an
    access outside them is [Undef].  What goes to file descriptor 1 is collected in
    [out]. *)

From S2P Require Import Prelude Text Vterm.

Definition MAX_LINE : Z := 256.
Definition HISTORY_SIZE : Z := 16.

Inductive EscapeState := EscapeNone | EscapeEscape | EscapeBracket.

Record editor := Editor {
  prompt : text;
  promptWidth : Z;
  buffer : text;
  line_length : Z;
  cursor : Z;
  drawnRows : Z;
  drawnCursorRow : Z;
  history : list text;
  historyCount : Z;
  historyIndex : Z;
  escapeState : EscapeState;
  out : text;
}.
#[export] Instance editor_settable : Settable editor :=
  constr Editor <*> prompt <*> promptWidth <*> buffer <*> line_length <*> cursor <*> drawnRows <*> drawnCursorRow
    <*> history <*> historyCount <*> historyIndex <*> escapeState <*> out.

Definition zero_line : text := replicate (Z.to_nat MAX_LINE) NUL.
Definition new_editor : editor :=
  Editor $"$ " 2 zero_line 0 0 1 0 (replicate (Z.to_nat HISTORY_SIZE) zero_line) 0 (-1) EscapeNone [].

(** * The terminal's side *)

(** [setTerminalColumns]: what [g_terminalColumns] becomes. *)
Definition setTerminalColumns (columns : Z) : Z := if 0 <? columns then columns else 80.

(** Every byte is taken: the reader of the pipe keeps draining it. *)
Definition write (t : text) : M editor unit := modify (λ e, e <| out := out e ++ t |>).

Definition ESC : ascii := "027".
Definition CR : text := ["013"]%char.
Definition cursor_up : text := ESC :: $"[A".
Definition cursor_down : text := ESC :: $"[B".
Definition erase_line : text := ESC :: $"[K".
Definition cursor_right (n : Z) : text := ESC :: "["%char :: print_long n ++ $"C".

(** [for (int i = 0; i < n; i++) write(t)]. *)
Fixpoint write_times (n : nat) (t : text) : M editor unit :=
  match n with O => mret tt | S n => write t;; write_times n t end.

(** Bytes that end a control sequence. *)
Definition csi_final (c : ascii) : bool := between "@" "~" c.

(** The width of the text from a byte on, or of what follows the rest of a control
    sequence.  A lone ESC at the end makes the source step over the terminator. *)
Fixpoint width_from (in_csi : bool) (p : text) : option Z :=
  match p with
  | [] => Some 0
  | c :: p1 =>
      if in_csi then width_from (negb (csi_final c)) p1
      else if bool_decide (c = ESC) then
        match p1 with
        | [] => None
        | d :: p2 => width_from (bool_decide (d = "["%char)) p2
        end
      else n ← width_from false p1; Some (n + 1)
  end.
Definition printableWidth (p : text) : option Z := width_from false p.

(** * The arrays *)

Definition in_line (i : Z) : bool := ((0 <=? i) && (i <? MAX_LINE))%bool.
Definition store_byte (i : Z) (c : ascii) : M editor unit := λ e,
  if in_line i then Done (tt, e <| buffer := <[Z.to_nat i := c]> (buffer e) |>) else Undef.
(** [memmove(&buffer[dst], &buffer[src], n)]. *)
Definition move_bytes (dst src n : Z) : M editor unit := λ e,
  if ((0 <=? n) && (0 <=? src) && (src + n <=? MAX_LINE) && (0 <=? dst) && (dst + n <=? MAX_LINE))%bool then
    Done (tt, e <| buffer := take (Z.to_nat dst) (buffer e) ++ take (Z.to_nat n) (drop (Z.to_nat src) (buffer e))
      ++ drop (Z.to_nat (dst + n)) (buffer e) |>)
  else Undef.
(** [snprintf(dst, MAX_LINE, "%s", s)]. *)
Definition print_line (s dst : text) : text :=
  let t := take (Z.to_nat (MAX_LINE - 1)) s in t ++ NUL :: drop (S (length t)) dst.

(** * Drawing *)

Section editor.
(** [g_terminalColumns] *)
Context (columns : Z).
(** What [Shell::complete] answers for a line: [None] if it found nothing, or the suffix,
    whether it listed candidates, and what it printed. *)
Context (shell_complete : text → option (text * bool * text)).

Definition rows_of (total : Z) : Z := if total =? 0 then 1 else (total - 1) / columns + 1.

(** Erase a row and step down, [n] times but without the last step. *)
Fixpoint erase_rows (n : nat) : M editor unit :=
  match n with
  | O => mret tt
  | S n => write erase_line;; (match n with O => mret tt | S _ => write cursor_down end);; erase_rows n
  end.

Definition refresh : M editor unit :=
  e ← get;
  let previousRows := if 0 <? drawnRows e then drawnRows e else 1 in
  let cursorRow := if drawnCursorRow e <? previousRows then drawnCursorRow e else previousRows - 1 in
  write CR;;
  write_times (Z.to_nat cursorRow) cursor_up;;
  erase_rows (Z.to_nat previousRows);;
  write_times (Z.to_nat (previousRows - 1)) cursor_up;;
  write CR;;
  write (prompt e);;
  write (take (Z.to_nat (line_length e)) (buffer e));;
  let total := promptWidth e + line_length e in
  modify (λ e, e <| drawnRows := rows_of total |>);;
  if cursor e <? line_length e then
    let target := promptWidth e + cursor e in
    let targetRow := target / columns in
    let endRow := if total =? 0 then 0 else (total - 1) / columns in
    write_times (Z.to_nat (endRow - targetRow)) cursor_up;;
    let targetColumn := target mod columns in
    (if targetColumn =? 0 then write CR else write (CR ++ cursor_right targetColumn));;
    modify (λ e, e <| drawnCursorRow := targetRow |>)
  else modify (λ e, e <| drawnCursorRow := drawnRows e - 1 |>).

Definition begin (newPrompt : text) : M editor unit :=
  width ← deref (λ _, printableWidth newPrompt);
  modify (λ e, e <| prompt := newPrompt |> <| promptWidth := width |>);;
  store_byte 0 NUL;;
  modify (λ e, e <| line_length := 0 |> <| cursor := 0 |> <| historyIndex := -1 |> <| escapeState := EscapeNone |>
    <| drawnRows := 1 |> <| drawnCursorRow := 0 |>);;
  write newPrompt.

(** * Editing *)

Definition insert_char (c : ascii) : M editor unit :=
  e ← get;
  if MAX_LINE <=? line_length e + 1 then mret tt
  else
    move_bytes (cursor e + 1) (cursor e) (line_length e - cursor e);;
    store_byte (cursor e) c;;
    modify (λ e, e <| line_length := line_length e + 1 |> <| cursor := cursor e + 1 |>);;
    e ← get;
    store_byte (line_length e) NUL;;
    if cursor e =? line_length e then
      write [c];;
      modify (λ e, e <| drawnRows := rows_of (promptWidth e + line_length e) |>);;
      modify (λ e, e <| drawnCursorRow := drawnRows e - 1 |>)
    else refresh.

Definition backspace : M editor unit :=
  e ← get;
  if cursor e =? 0 then mret tt
  else
    move_bytes (cursor e - 1) (cursor e) (line_length e - cursor e);;
    modify (λ e, e <| line_length := line_length e - 1 |> <| cursor := cursor e - 1 |>);;
    e ← get;
    store_byte (line_length e) NUL;;
    refresh.

Definition replaceBuffer (s : text) : M editor unit :=
  modify (λ e, let b := print_line (c_str s) (buffer e) in
    e <| buffer := b |> <| line_length := Z.of_nat (length (c_str b)) |> <| cursor := Z.of_nat (length (c_str b)) |>);;
  refresh.

(** * History *)

Definition history_at (i : Z) : M editor text := deref (λ e, history e !! Z.to_nat (i mod HISTORY_SIZE)).

Definition pushHistory (line : text) : M editor unit :=
  if bool_decide (c_str line = []) then mret tt
  else
    e ← get;
    same ← (if 0 <? historyCount e then
              last ← history_at (historyCount e - 1); mret (bool_decide (c_str last = c_str line))
            else mret false);
    if (same : bool) then mret tt
    else
      slot ← history_at (historyCount e);
      n ← int (historyCount e + 1);
      modify (λ e, e
        <| history := <[Z.to_nat (historyCount e mod HISTORY_SIZE) := print_line (c_str line) slot]> (history e) |>
        <| historyCount := n |>).

Definition historyPrevious : M editor unit :=
  e ← get;
  if historyCount e =? 0 then mret tt
  else
    let available := if historyCount e <? HISTORY_SIZE then historyCount e else HISTORY_SIZE in
    if available <=? historyIndex e + 1 then mret tt
    else
      modify (λ e, e <| historyIndex := historyIndex e + 1 |>);;
      e ← get;
      line ← history_at (historyCount e - 1 - historyIndex e);
      replaceBuffer line.

Definition historyNext : M editor unit :=
  e ← get;
  if historyIndex e <? 0 then mret tt
  else
    modify (λ e, e <| historyIndex := historyIndex e - 1 |>);;
    e ← get;
    if historyIndex e <? 0 then replaceBuffer []
    else
      line ← history_at (historyCount e - 1 - historyIndex e);
      replaceBuffer line.

(** * Completion *)

(** The loop that appends the suffix while there is room. *)
Fixpoint append_suffix (suffix : text) : M editor unit :=
  match suffix with
  | [] => mret tt
  | c :: suffix =>
      e ← get;
      if line_length e + 1 <? MAX_LINE then
        store_byte (line_length e) c;;
        modify (λ e, e <| line_length := line_length e + 1 |>);;
        append_suffix suffix
      else mret tt
  end.

Definition complete : M editor unit :=
  e ← get;
  if negb (cursor e =? line_length e) then mret tt
  else
    match shell_complete (c_str (buffer e)) with
    | None => mret tt
    | Some (answer, listed, printed) =>
        let suffix := c_str answer in
        write printed;;
        append_suffix suffix;;
        e ← get;
        store_byte (line_length e) NUL;;
        modify (λ e, e <| cursor := line_length e |>);;
        if (listed || negb (bool_decide (suffix = [])))%bool then refresh else mret tt
    end.

(** * Input *)

(** The final byte of an arrow key. *)
Definition feed_arrow (c : ascii) : M editor unit :=
  match c with
  | "A"%char => historyPrevious
  | "B"%char => historyNext
  | "C"%char => e ← get; if cursor e <? line_length e then put (e <| cursor := cursor e + 1 |>);; refresh else mret tt
  | "D"%char => e ← get; if 0 <? cursor e then put (e <| cursor := cursor e - 1 |>);; refresh else mret tt
  | _ => mret tt
  end.

Definition enter : M editor text :=
  write (CR ++ ["010"%char]);;
  e ← get;
  store_byte (line_length e) NUL;;
  line ← gets buffer;
  pushHistory line;;
  mret (c_str line).

(** The line that Enter completed, if any. *)
Definition feed_key (c : ascii) : M editor (option text) :=
  match c with
  | "027"%char => modify (λ e, e <| escapeState := EscapeEscape |>);; mret None
  | "013"%char | "010"%char => line ← enter; mret (Some line)
  | "009"%char => complete;; mret None
  | "127"%char | "008"%char => backspace;; mret None
  | "001"%char => modify (λ e, e <| cursor := 0 |>);; refresh;; mret None
  | "005"%char => modify (λ e, e <| cursor := line_length e |>);; refresh;; mret None
  | "011"%char =>
      e ← get;
      modify (λ e, e <| line_length := cursor e |>);;
      store_byte (cursor e) NUL;;
      refresh;; mret None
  | "021"%char =>
      modify (λ e, e <| line_length := 0 |> <| cursor := 0 |>);;
      store_byte 0 NUL;;
      refresh;; mret None
  | "003"%char =>
      write ($"^C" ++ CR ++ ["010"%char]);;
      store_byte 0 NUL;;
      modify (λ e, e <| line_length := 0 |> <| cursor := 0 |> <| historyIndex := -1 |>);;
      e ← get;
      write (prompt e);; mret None
  | "012"%char => write (ESC :: $"[2J" ++ ESC :: $"[H");; refresh;; mret None
  | _ => (if isprint c then insert_char c else mret tt);; mret None
  end.

Definition feed (c : ascii) : M editor (option text) :=
  state ← gets escapeState;
  match state with
  | EscapeEscape =>
      modify (λ e, e <| escapeState := if bool_decide (c = "["%char) then EscapeBracket else EscapeNone |>);; mret None
  | EscapeBracket => modify (λ e, e <| escapeState := EscapeNone |>);; feed_arrow c;; mret None
  | EscapeNone => feed_key c
  end.
End editor.

(** * Refinement: an editor of plain texts *)

(** * The abstract editor *)

Record view := View {
  before : text;
  after : text;
  past : list text;
  (** 0: a new line; [n]: the [n]-th newest line of the past *)
  recall : nat;
  pending : EscapeState;
}.
#[export] Instance view_settable : Settable view := constr View <*> before <*> after <*> past <*> recall <*> pending.

Definition whole (v : view) : text := before v ++ after v.

(** A line has at most 255 characters; the past holds 16 lines. *)
Definition LINE_ROOM : nat := 255.
Definition PAST_ROOM : nat := 16.

Section view.
Context (shell_complete : text → option (text * bool * text)).

Definition v_insert (c : ascii) (v : view) : view :=
  if (LINE_ROOM <=? length (whole v))%nat then v else v <| before := before v ++ [c] |>.
Definition v_backspace (v : view) : view := v <| before := take (length (before v) - 1) (before v) |>.
Definition v_home (v : view) : view := v <| before := [] |> <| after := whole v |>.
Definition v_end (v : view) : view := v <| before := whole v |> <| after := [] |>.
Definition v_left (v : view) : view :=
  let n := (length (before v) - 1)%nat in v <| before := take n (before v) |> <| after := drop n (before v) ++ after v |>.
Definition v_right (v : view) : view := v <| before := before v ++ take 1 (after v) |> <| after := drop 1 (after v) |>.
Definition v_replace (s : text) (v : view) : view := v <| before := s |> <| after := [] |>.
(** A line is remembered unless it is empty or the newest line again. *)
Definition v_remember (s : text) (v : view) : view :=
  if (bool_decide (s = []) || bool_decide (head (past v) = Some s))%bool then v
  else v <| past := take PAST_ROOM (s :: past v) |>.
Definition v_up (v : view) : view :=
  match past v !! recall v with Some s => v_replace s (v <| recall := S (recall v) |>) | None => v end.
Definition v_down (v : view) : view :=
  match recall v with
  | O => v
  | S O => v_replace [] (v <| recall := O |>)
  | S (S n) => v_replace (default [] (past v !! n)) (v <| recall := S n |>)
  end.
Definition v_complete (v : view) : view :=
  match after v, shell_complete (before v) with
  | [], Some (answer, _, _) => v <| before := before v ++ take (LINE_ROOM - length (before v)) (c_str answer) |>
  | _, _ => v
  end.

Definition v_arrow (c : ascii) (v : view) : view :=
  match c with "A"%char => v_up v | "B"%char => v_down v | "C"%char => v_right v | "D"%char => v_left v | _ => v end.

Definition v_key (c : ascii) (v : view) : view * option text :=
  match c with
  | "027"%char => (v <| pending := EscapeEscape |>, None)
  | "013"%char | "010"%char => (v_remember (whole v) v, Some (whole v))
  | "009"%char => (v_complete v, None)
  | "127"%char | "008"%char => (v_backspace v, None)
  | "001"%char => (v_home v, None)
  | "005"%char => (v_end v, None)
  | "011"%char => (v <| after := [] |>, None)
  | "021"%char => (v <| before := [] |> <| after := [] |>, None)
  | "003"%char => (v <| before := [] |> <| after := [] |> <| recall := O |>, None)
  | _ => (if isprint c then v_insert c v else v, None)
  end.

Definition v_feed (c : ascii) (v : view) : view * option text :=
  match pending v with
  | EscapeEscape => (v <| pending := if bool_decide (c = "["%char) then EscapeBracket else EscapeNone |>, None)
  | EscapeBracket => (v_arrow c (v <| pending := EscapeNone |>), None)
  | EscapeNone => v_key c v
  end.

Definition v_begin (v : view) : view := View [] [] (past v) O EscapeNone.
End view.

(** * Drawing, as one text *)

Definition repeat_text (n : nat) (t : text) : text := concat (replicate n t).
Fixpoint erase_text (n : nat) : text :=
  match n with O => [] | S n => erase_line ++ (match n with O => [] | S _ => cursor_down end) ++ erase_text n end.

Section editor.
Context (columns : Z).
Context (shell_complete : text → option (text * bool * text)).

(** The rows that [refresh] erases, and the row it thinks the cursor is on. *)
Definition rows_before (e : editor) : Z := if 0 <? drawnRows e then drawnRows e else 1.
Definition row_before (e : editor) : Z := if drawnCursorRow e <? rows_before e then drawnCursorRow e else rows_before e - 1.

Definition clear_text (e : editor) : text :=
  CR ++ repeat_text (Z.to_nat (row_before e)) cursor_up ++ erase_text (Z.to_nat (rows_before e))
    ++ repeat_text (Z.to_nat (rows_before e - 1)) cursor_up ++ CR.
(** Where the cursor goes after the line has been printed. *)
Definition last_row (total : Z) : Z := if total =? 0 then 0 else (total - 1) / columns.
Definition place_text (total target : Z) : text :=
  repeat_text (Z.to_nat (last_row total - target / columns)) cursor_up ++
  (if target mod columns =? 0 then CR else CR ++ cursor_right (target mod columns)).
Definition refresh_text (e : editor) : text :=
  clear_text e ++ prompt e ++ take (Z.to_nat (line_length e)) (buffer e) ++
  (if cursor e <? line_length e then place_text (promptWidth e + line_length e) (promptWidth e + cursor e) else []).
Definition refreshed (e : editor) : editor :=
  e <| out := out e ++ refresh_text e |> <| drawnRows := rows_of columns (promptWidth e + line_length e) |>
    <| drawnCursorRow := if cursor e <? line_length e then (promptWidth e + cursor e) / columns
                         else rows_of columns (promptWidth e + line_length e) - 1 |>.

Definition wrote (t : text) (e : editor) : editor := e <| out := out e ++ t |>.
Lemma wrote_wrote t t' e : wrote t' (wrote t e) = wrote (t ++ t') e.
Proof. unfold wrote, set_field. simpl. by rewrite app_assoc. Qed.
Lemma wrote_nil e : wrote [] e = e.
Proof. destruct e. unfold wrote, set_field. simpl. by rewrite app_nil_r. Qed.

Ltac editor_fields :=
  cbn [prompt promptWidth buffer line_length cursor drawnRows drawnCursorRow history historyCount historyIndex escapeState out].

Lemma write_eq t e : write t e = Done (tt, wrote t e).
Proof. done. Qed.
Lemma write_times_eq n t e : write_times n t e = Done (tt, wrote (repeat_text n t) e).
Proof.
  revert e. induction n as [|n IH]; intros e; [by rewrite wrote_nil|]. cbn [write_times]. rewrite (bind_eq _ _ _ _ _ (write_eq t e)).
  by rewrite IH, wrote_wrote.
Qed.
Lemma erase_rows_eq n e : erase_rows n e = Done (tt, wrote (erase_text n) e).
Proof.
  revert e. induction n as [|n IH]; intros e; [by rewrite wrote_nil|]. cbn [erase_rows erase_text].
  rewrite (bind_eq _ _ _ _ _ (write_eq _ e)). destruct n as [|n].
  - rewrite (bind_eq (mret tt) _ _ _ _ eq_refl), IH, wrote_wrote. done.
  - rewrite (bind_eq _ _ _ _ _ (write_eq _ _)), IH, !wrote_wrote. by rewrite app_assoc.
Qed.

Lemma refresh_eq e : refresh columns e = Done (tt, refreshed e).
Proof.
  unfold refresh. rewrite (bind_eq get _ _ _ _ eq_refl). cbv zeta. fold (rows_before e). fold (row_before e).
  rewrite (bind_eq _ _ _ _ _ (write_eq _ _)), (bind_eq _ _ _ _ _ (write_times_eq _ _ _)), (bind_eq _ _ _ _ _ (erase_rows_eq _ _)),
    (bind_eq _ _ _ _ _ (write_times_eq _ _ _)), !(bind_eq _ _ _ _ _ (write_eq _ _)), (bind_eq (modify _) _ _ _ _ eq_refl).
  rewrite !wrote_wrote. unfold refreshed, refresh_text, clear_text, place_text, last_row.
  set (up := repeat_text _ cursor_up). set (erase := erase_text _). set (back := repeat_text _ cursor_up).
  destruct (cursor e <? line_length e).
  - rewrite (bind_eq _ _ _ _ _ (write_times_eq _ _ _)). set (back' := repeat_text _ cursor_up).
    destruct (_ mod columns =? 0);
      rewrite (bind_eq _ _ _ _ _ (write_eq _ _)); unfold modify, wrote, set_field; editor_fields;
      by rewrite <- ?app_assoc.
  - unfold modify, wrote, set_field. editor_fields. by rewrite <- ?app_assoc, ?app_nil_r.
Qed.

(** * The editor represents a view *)

Record edits (e : editor) (v : view) : Prop := {
  ed_buffer : ∃ rest, buffer e = whole v ++ NUL :: rest;
  ed_size : length (buffer e) = Z.to_nat MAX_LINE;
  ed_text : NUL ∉ whole v;
  ed_length : line_length e = Z.of_nat (length (whole v));
  ed_cursor : cursor e = Z.of_nat (length (before v));
  ed_slots : length (history e) = Z.to_nat HISTORY_SIZE;
  ed_slot : Forall (λ slot, length slot = Z.to_nat MAX_LINE) (history e);
  ed_count : 0 <= historyCount e;
  ed_past : Z.of_nat (length (past v)) = Z.min (historyCount e) HISTORY_SIZE;
  ed_lines : ∀ k s, past v !! k = Some s →
    (length s ≤ LINE_ROOM)%nat ∧
    ∃ slot, history e !! Z.to_nat ((historyCount e - 1 - Z.of_nat k) mod HISTORY_SIZE) = Some slot ∧ c_str slot = s;
  ed_recall : historyIndex e = Z.of_nat (recall v) - 1;
  ed_recall_past : (recall v ≤ length (past v))%nat;
  ed_pending : escapeState e = pending v;
}.

(** Drawing does not touch what is edited. *)
Lemma edits_refreshed e v : edits e v → edits (refreshed e) v.
Proof. by intros []. Qed.
Lemma edits_wrote t e v : edits e v → edits (wrote t e) v.
Proof. by intros []. Qed.
Lemma edits_drawn e v rows row : edits e v → edits (e <| drawnRows := rows |> <| drawnCursorRow := row |>) v.
Proof. by intros []. Qed.

Lemma edits_room e v : edits e v → (length (whole v) ≤ LINE_ROOM)%nat.
Proof.
  intros He. destruct (ed_buffer _ _ He) as [rest Hb]. pose proof (ed_size _ _ He) as Hs. rewrite Hb, length_app in Hs.
  change (Z.to_nat MAX_LINE) with 256%nat in Hs. unfold LINE_ROOM. simpl in Hs. lia.
Qed.

Lemma prefix_by_lookup {A} (t l : list A) : (∀ i x, t !! i = Some x → l !! i = Some x) → ∃ rest, l = t ++ rest.
Proof.
  revert l. induction t as [|x t IH]; intros l Hl; [by exists l|]. destruct l as [|y l]; [by specialize (Hl 0%nat x eq_refl)|].
  pose proof (Hl 0%nat x eq_refl) as [= ->]. destruct (IH l) as [rest ->]; [|by exists rest]. intros i z. apply (Hl (S i)).
Qed.

Lemma prefix_then {A} (t l : list A) c : (∀ i x, (t ++ [c]) !! i = Some x → l !! i = Some x) → ∃ rest, l = t ++ c :: rest.
Proof. intros [rest ->]%prefix_by_lookup. exists rest. by rewrite <- app_assoc. Qed.

Lemma lookup_whole_buffer e v i x :
  edits e v → (whole v ++ [NUL]) !! i = Some x → buffer e !! i = Some x.
Proof.
  intros He Hi. destruct (ed_buffer _ _ He) as [rest Hb]. rewrite Hb. change (NUL :: rest) with ([NUL] ++ rest). rewrite app_assoc.
  rewrite lookup_app_l; [done|]. by eapply lookup_lt_Some.
Qed.

(** One step of an operation on the arrays. *)
Ltac run_with lem := erewrite bind_eq; [|apply lem; unfold MAX_LINE, set_field; editor_fields; lia].

(** ** Bytes stored and moved *)

Lemma store_byte_eq i c e :
  0 <= i < MAX_LINE → store_byte i c e = Done (tt, e <| buffer := <[Z.to_nat i := c]> (buffer e) |>).
Proof. intros Hi. unfold store_byte, in_line. by replace (_ && _)%bool with true by lia. Qed.
Lemma move_bytes_eq dst src n e :
  0 <= n → 0 <= src → src + n <= MAX_LINE → 0 <= dst → dst + n <= MAX_LINE →
  move_bytes dst src n e = Done (tt, e <| buffer := moved_cells dst src n (buffer e) |>).
Proof. intros. unfold move_bytes. by replace (_ && _)%bool with true by lia. Qed.

(** The buffer after [insert]. *)
Lemma insert_buffer buf a b c rest :
  buf = (a ++ b) ++ NUL :: rest → (length (a ++ b) < length buf - 1)%nat →
  let n := Z.of_nat (length a) in let m := Z.of_nat (length b) in
  ∃ rest', <[Z.to_nat (n + m + 1) := NUL]> (<[Z.to_nat n := c]> (moved_cells (n + 1) n m buf)) = ((a ++ [c]) ++ b) ++ NUL :: rest'.
Proof.
  intros Hbuf Hlen n m. rewrite length_app in Hlen.
  apply prefix_then. intros i x Hi.
  assert (Hm : length (moved_cells (n + 1) n m buf) = length buf) by (apply length_moved; lia).
  destruct (decide (i = Z.to_nat (n + m + 1))) as [->|Hne].
  { rewrite list_lookup_insert_eq by (rewrite length_insert; lia). revert Hi.
    rewrite lookup_app_r by (rewrite !length_app; simpl; lia). rewrite !length_app. simpl.
    by replace (_ - _)%nat with 0%nat by lia. }
  rewrite list_lookup_insert_ne by done. apply lookup_lt_Some in Hi as Hlt. rewrite !length_app in Hlt. simpl in Hlt.
  rewrite lookup_app_l in Hi by (rewrite !length_app; simpl; lia).
  destruct (decide (i = Z.to_nat n)) as [->|Hne'].
  { rewrite list_lookup_insert_eq by lia. revert Hi. rewrite lookup_app_l by (rewrite length_app; simpl; lia).
    rewrite lookup_app_r by lia. by replace (_ - _)%nat with 0%nat by lia. }
  rewrite list_lookup_insert_ne by done. rewrite lookup_moved by lia. rewrite Hbuf.
  case_decide as Hcase.
  - rewrite lookup_app_r in Hi by (rewrite length_app; simpl; lia). rewrite length_app in Hi. simpl in Hi.
    rewrite lookup_app_l by (rewrite length_app; lia). rewrite lookup_app_r by lia. rewrite <- Hi. f_equal. lia.
  - rewrite lookup_app_l in Hi by (rewrite length_app; simpl; lia). rewrite lookup_app_l in Hi by lia.
    rewrite lookup_app_l by (rewrite length_app; lia). by rewrite lookup_app_l by lia.
Qed.

(** The buffer after [backspace]. *)
Lemma backspace_buffer buf a c b rest :
  buf = ((a ++ [c]) ++ b) ++ NUL :: rest →
  let n := Z.of_nat (length a) in let m := Z.of_nat (length b) in
  ∃ rest', <[Z.to_nat (n + m) := NUL]> (moved_cells n (n + 1) m buf) = (a ++ b) ++ NUL :: rest'.
Proof.
  intros Hbuf n m. assert (Hl : length buf = (length a + length b + 2 + length rest)%nat).
  { rewrite Hbuf, !length_app. simpl. lia. }
  apply prefix_then. intros i x Hi.
  assert (Hm : length (moved_cells n (n + 1) m buf) = length buf) by (apply length_moved; lia).
  destruct (decide (i = Z.to_nat (n + m))) as [->|Hne].
  { rewrite list_lookup_insert_eq by lia. revert Hi.
    rewrite lookup_app_r by (rewrite length_app; lia). rewrite length_app. by replace (_ - _)%nat with 0%nat by lia. }
  rewrite list_lookup_insert_ne by done. apply lookup_lt_Some in Hi as Hlt. rewrite !length_app in Hlt. simpl in Hlt.
  rewrite lookup_app_l in Hi by (rewrite length_app; lia). rewrite lookup_moved by lia. rewrite Hbuf.
  case_decide as Hcase.
  - rewrite lookup_app_r in Hi by lia. rewrite lookup_app_l by (rewrite !length_app; simpl; lia).
    rewrite lookup_app_r by (rewrite length_app; simpl; lia). rewrite length_app. rewrite <- Hi. simpl. f_equal. lia.
  - rewrite lookup_app_l in Hi by lia. rewrite lookup_app_l by (rewrite !length_app; simpl; lia).
    rewrite lookup_app_l by (rewrite length_app; simpl; lia). by rewrite lookup_app_l by lia.
Qed.

(** Cutting the line off with a terminator. *)
Lemma cut_buffer (buf s t : text) : (∃ rest, buf = (s ++ t) ++ NUL :: rest) → ∃ rest, <[length s := NUL]> buf = s ++ NUL :: rest.
Proof.
  intros [rest ->]. destruct t as [|c t].
  - rewrite app_nil_r. exists rest. by rewrite insert_app_r_alt, Nat.sub_diag by lia.
  - exists (t ++ NUL :: rest). rewrite <- app_assoc. by rewrite insert_app_r_alt, Nat.sub_diag by lia.
Qed.

(** * Operations on the editor and on the view *)

(** What the screen shows, and what the editor believes about it, is as before. *)
Definition same_screen (e e1 : editor) : Prop :=
  prompt e1 = prompt e ∧ promptWidth e1 = promptWidth e ∧ drawnRows e1 = drawnRows e ∧ drawnCursorRow e1 = drawnCursorRow e ∧
  out e1 = out e ∧ historyCount e1 = historyCount e.

(** An operation either leaves the line alone, or edits it and draws it again. *)
Definition acts (m : M editor unit) (e : editor) (v v' : view) : Prop :=
  ∃ e1, edits e1 v' ∧ same_screen e e1 ∧
    ((m e = Done (tt, e1) ∧ before v' = before v ∧ after v' = after v) ∨ m e = Done (tt, refreshed e1)).

Lemma acts_refresh f e v v' :
  edits (f e) v' → same_screen e (f e) → acts (modify f;; refresh columns) e v v'.
Proof. intros He Hs. exists (f e). split; [done|]. split; [done|]. right. by rewrite (bind_eq (modify _) _ _ _ _ eq_refl), refresh_eq. Qed.
Lemma acts_nothing e v : edits e v → acts (mret tt) e v v.
Proof. intros He. exists e. split_and!; try done. by left. Qed.

(** Moving the boundary between before and after. *)
Lemma edits_cursor e v a b : edits e v → whole v = a ++ b → edits (e <| cursor := Z.of_nat (length a) |>) (v <| before := a |> <| after := b |>).
Proof.
  intros He Hw. assert (Hw' : whole (v <| before := a |> <| after := b |>) = whole v) by (unfold whole at 1; simpl; by rewrite Hw).
  destruct He. constructor; rewrite ?Hw'; simpl; auto.
Qed.

(** A new text in the buffer, with the cursor in it. *)
Lemma edits_text e v buf a b :
  edits e v → (∃ rest, buf = (a ++ b) ++ NUL :: rest) → length buf = Z.to_nat MAX_LINE → NUL ∉ a ++ b →
  edits (e <| buffer := buf |> <| line_length := Z.of_nat (length (a ++ b)) |> <| cursor := Z.of_nat (length a) |>)
    (v <| before := a |> <| after := b |>).
Proof. intros [] Hbuf Hl Hn. constructor; simpl; auto. Qed.

Lemma whole_parts v : whole v = before v ++ after v.
Proof. done. Qed.

Lemma insert_view c v : v_insert c v = if (LINE_ROOM <=? length (whole v))%nat then v else v <| before := before v ++ [c] |> <| after := after v |>.
Proof. unfold v_insert. destruct (_ <=? _)%nat; [done|]. by destruct v. Qed.

(** The drawing after a character at the end of the line. *)
Definition typed (c : ascii) (e : editor) : editor :=
  let e := wrote [c] e in
  e <| drawnRows := rows_of columns (promptWidth e + line_length e) |>
    <| drawnCursorRow := rows_of columns (promptWidth e + line_length e) - 1 |>.

Lemma insert_acts c e v :
  edits e v → isprint c = true →
  ∃ e1, edits e1 (v_insert c v) ∧ same_screen e e1 ∧
    insert_char columns c e =
      Done (tt, if (LINE_ROOM <=? length (whole v))%nat then e1 else if bool_decide (after v = []) then typed c e1 else refreshed e1).
Proof.
  intros He Hc. rewrite insert_view. pose proof (edits_room e v He) as Hroom. unfold insert_char. rewrite (bind_eq get _ _ _ _ eq_refl).
  pose proof (ed_length _ _ He) as Hlen. pose proof (ed_cursor _ _ He) as Hcur. pose proof (whole_parts v) as Hw.
  pose proof (f_equal length Hw) as Hwl. rewrite length_app in Hwl. change MAX_LINE with 256 in *.
  destruct (LINE_ROOM <=? length (whole v))%nat eqn:Hfull; unfold LINE_ROOM in *.
  { exists e. split_and!; try done. apply Nat.leb_le in Hfull. rewrite Hlen. by replace (256 <=? _) with true by lia. }
  apply Nat.leb_gt in Hfull. replace (256 <=? line_length e + 1) with false by lia.
  destruct (ed_buffer _ _ He) as [rest Hbuf]. pose proof (ed_size _ _ He) as Hsize. change (Z.to_nat MAX_LINE) with 256%nat in Hsize.
  run_with move_bytes_eq. run_with store_byte_eq.
  rewrite (bind_eq (modify _) _ _ _ _ eq_refl), (bind_eq get _ _ _ _ eq_refl). run_with store_byte_eq.
  unfold set_field. editor_fields.
  set (buf := <[Z.to_nat (line_length e + 1) := NUL]> _).
  assert (Hnew : ∃ rest', buf = ((before v ++ [c]) ++ after v) ++ NUL :: rest').
  { destruct (insert_buffer (buffer e) (before v) (after v) c rest Hbuf ltac:(rewrite length_app; lia)) as [rest' Hr].
    exists rest'. rewrite <- Hr. unfold buf. rewrite Hlen, Hcur.
    replace (Z.of_nat (length (whole v))) with (Z.of_nat (length (before v)) + Z.of_nat (length (after v))) by lia.
    by replace (_ + _ - _) with (Z.of_nat (length (after v))) by lia. }
  assert (Hsize' : length buf = Z.to_nat MAX_LINE).
  { unfold buf. rewrite !length_insert, length_moved; [done|lia..]. }
  assert (Hnul : NUL ∉ (before v ++ [c]) ++ after v).
  { pose proof (ed_text _ _ He) as Ht. rewrite Hw in Ht. intros Hin. apply Ht. rewrite !elem_of_app, list_elem_of_singleton in Hin.
    rewrite elem_of_app. destruct Hin as [[?|<-]|?]; [by left| |by right]. discriminate Hc. }
  clearbody buf. pose proof (edits_text e v buf _ _ He Hnew Hsize' Hnul) as He1.
  eexists. split; [exact He1|]. split; [done|].
  assert (Hb : (cursor e + 1 =? line_length e + 1) = bool_decide (after v = [])).
  { destruct (after v) as [|d b]; simpl in *; lia. }
  rewrite Hb. clear Hb.
  assert (HL : line_length e + 1 = Z.of_nat (length ((before v ++ [c]) ++ after v))) by (rewrite !length_app; simpl; lia).
  assert (HC : cursor e + 1 = Z.of_nat (length (before v ++ [c]))) by (rewrite !length_app; simpl; lia).
  rewrite HL, HC. destruct (bool_decide _); [done|]. apply refresh_eq.
Qed.

Lemma backspace_acts e v : edits e v → acts (backspace columns) e v (v_backspace v).
Proof.
  intros He. pose proof (edits_room e v He) as Hroom.
  pose proof (ed_length _ _ He) as Hlen. pose proof (ed_cursor _ _ He) as Hcur. pose proof (whole_parts v) as Hw.
  pose proof (f_equal length Hw) as Hwl. rewrite length_app in Hwl. unfold LINE_ROOM in *.
  destruct (ed_buffer _ _ He) as [rest Hbuf]. pose proof (ed_size _ _ He) as Hsize. change (Z.to_nat MAX_LINE) with 256%nat in Hsize.
  unfold v_backspace. destruct (before v) as [|c a _] eqn:Hbefore using rev_ind.
  { assert (v <| before := take (length [] - 1) [] |> = v) as -> by (destruct v; simpl in *; by subst).
    exists e. split; [done|]. split; [done|]. left. split; [|done].
    unfold backspace. rewrite (bind_eq get _ _ _ _ eq_refl). by replace (cursor e =? 0) with true by (simpl in *; lia). }
  rewrite !length_app in *. simpl length in *. replace (length a + 1 - 1)%nat with (length a) by lia. rewrite take_app_length.
  assert (Hrun : ∃ buf, (∃ rest', buf = (a ++ after v) ++ NUL :: rest') ∧ length buf = Z.to_nat MAX_LINE ∧
    (if cursor e =? 0 then mret tt else
      move_bytes (cursor e - 1) (cursor e) (line_length e - cursor e);;
      modify (λ e, e <| line_length := line_length e - 1 |> <| cursor := cursor e - 1 |>);;
      e ← get; store_byte (line_length e) NUL;; refresh columns) e =
    refresh columns (e <| buffer := buf |> <| line_length := Z.of_nat (length (a ++ after v)) |> <| cursor := Z.of_nat (length a) |>)).
  { replace (cursor e =? 0) with false by lia. run_with move_bytes_eq.
    rewrite (bind_eq (modify _) _ _ _ _ eq_refl), (bind_eq get _ _ _ _ eq_refl). run_with store_byte_eq.
    assert (HL : line_length e - 1 = Z.of_nat (length (a ++ after v))) by (rewrite length_app; lia).
    assert (HC : cursor e - 1 = Z.of_nat (length a)) by lia.
    unfold set_field. editor_fields. rewrite HL, HC. eexists. split; [|split; [|reflexivity]].
    - destruct (backspace_buffer (buffer e) a c (after v) rest) as [rest' Hr]; [by rewrite Hbuf, Hw|]. exists rest'. rewrite <- Hr, Hlen, Hcur.
      rewrite length_app. replace (Z.of_nat (length a + 1)) with (Z.of_nat (length a) + 1) by lia.
      replace (_ - _) with (Z.of_nat (length (after v))) by lia. by rewrite Nat2Z.inj_add.
    - rewrite length_insert, length_moved; [done|lia..]. }
  destruct Hrun as (buf & Hnew & Hsize' & Hrun).
  assert (Hnul : NUL ∉ a ++ after v).
  { pose proof (ed_text _ _ He) as Ht. rewrite Hw in Ht. rewrite !elem_of_app in *. tauto. }
  eexists. split; [exact (edits_text e v buf a (after v) He Hnew Hsize' Hnul)|]. split; [done|]. right.
  unfold backspace. rewrite (bind_eq get _ _ _ _ eq_refl), Hrun. apply refresh_eq.
Qed.

(** ** History *)

Lemma c_str_cut s r : NUL ∉ s → c_str (s ++ NUL :: r) = s.
Proof.
  intros Hs. unfold c_str. induction s as [|c s IH]; [done|]. apply not_elem_of_cons in Hs as [Hc Hs].
  simpl. rewrite bool_decide_eq_false_2 by done. simpl. f_equal. by apply IH.
Qed.
Lemma c_str_no_nul s : NUL ∉ c_str s.
Proof.
  unfold c_str. induction s as [|c s IH]; [apply not_elem_of_nil|]. simpl. destruct (bool_decide (c = NUL)) eqn:Hc; [apply not_elem_of_nil|].
  apply not_elem_of_cons. split; [|done]. apply bool_decide_eq_false in Hc. congruence.
Qed.
Lemma c_str_twice s : c_str (c_str s) = c_str s.
Proof. apply c_str_id, c_str_no_nul. Qed.

Lemma print_line_eq s dst :
  (length s ≤ LINE_ROOM)%nat → length dst = Z.to_nat MAX_LINE →
  print_line s dst = s ++ NUL :: drop (S (length s)) dst ∧ length (print_line s dst) = Z.to_nat MAX_LINE.
Proof.
  unfold LINE_ROOM. intros Hs Hd. assert (Heq : print_line s dst = s ++ NUL :: drop (S (length s)) dst).
  { unfold print_line. change (Z.to_nat (MAX_LINE - 1)) with 255%nat. by rewrite take_ge by lia. }
  split; [done|]. rewrite Heq, length_app. cbn [length]. rewrite length_drop. change (Z.to_nat MAX_LINE) with 256%nat in *. lia.
Qed.

Lemma acts_pre f (m : M editor unit) e v v0 v' :
  same_screen e (f e) → before v0 = before v → after v0 = after v → acts m (f e) v0 v' → acts (modify f;; m) e v v'.
Proof.
  intros (? & ? & ? & ? & ? & ?) Hb Ha (e1 & He1 & (? & ? & ? & ? & ? & ?) & Hm). exists e1. split; [done|]. split; [split_and!; congruence|].
  rewrite (bind_eq (modify f) _ _ _ _ eq_refl). rewrite <- Hb, <- Ha. done.
Qed.
Lemma acts_read {A} (n : M editor A) (m : A → M editor unit) e a v v' : n e = Done (a, e) → acts (m a) e v v' → acts (n ≫= m) e v v'.
Proof. intros Hn (e1 & ? & ? & Hm). exists e1. split; [done|]. split; [done|]. by rewrite (bind_eq _ _ _ _ _ Hn). Qed.

Lemma replace_acts s e v :
  edits e v → (length (c_str s) ≤ LINE_ROOM)%nat → acts (replaceBuffer columns s) e v (v_replace (c_str s) v).
Proof.
  intros He Hl. destruct (print_line_eq (c_str s) (buffer e) Hl (ed_size _ _ He)) as [Hp Hpl].
  assert (Hcut : c_str (print_line (c_str s) (buffer e)) = c_str s) by (rewrite Hp; apply c_str_cut, c_str_no_nul).
  apply acts_refresh; [|done].
  pose proof (edits_text e v (print_line (c_str s) (buffer e)) (c_str s) [] He) as Hed. rewrite app_nil_r in Hed.
  cbv zeta. rewrite Hcut. apply Hed; [by eexists|done|apply c_str_no_nul].
Qed.

Lemma mod_slot i : 0 <= i mod HISTORY_SIZE < HISTORY_SIZE.
Proof. by apply Z.mod_pos_bound. Qed.

(** The slot of a past line. *)
Lemma history_at_past e v k s :
  edits e v → past v !! k = Some s →
  ∃ slot, history_at (historyCount e - 1 - Z.of_nat k) e = Done (slot, e) ∧ c_str slot = s ∧ (length s ≤ LINE_ROOM)%nat.
Proof.
  intros He Hk. destruct (ed_lines _ _ He k s Hk) as (Hs & slot & Hslot & Hc). exists slot. split; [|done].
  unfold history_at, deref. by rewrite Hslot.
Qed.

Lemma edits_recall e v n i :
  edits e v → i = Z.of_nat n - 1 → (n ≤ length (past v))%nat → edits (e <| historyIndex := i |>) (v <| recall := n |>).
Proof. intros [] Hi Hn. constructor; simpl; auto. Qed.

Lemma previous_acts e v : edits e v → acts (historyPrevious columns) e v (v_up v).
Proof.
  intros He. apply (acts_read _ _ _ e); [done|]. pose proof (ed_past _ _ He) as Hp. pose proof (ed_recall _ _ He) as Hr.
  pose proof (ed_count _ _ He) as Hc. unfold HISTORY_SIZE in Hp. unfold v_up. destruct (past v !! recall v) as [s|] eqn:Hk.
  - pose proof (lookup_lt_Some _ _ _ Hk) as Hlt. destruct (historyCount e =? 0) eqn:H0; [lia|]. cbv zeta. unfold HISTORY_SIZE.
    replace ((if _ <? 16 then _ else 16) <=? historyIndex e + 1) with false by (destruct (_ <? 16) eqn:?; lia).
    apply (acts_pre _ _ _ _ (v <| recall := S (recall v) |>)); [done..|].
    apply (acts_read _ _ _ (e <| historyIndex := historyIndex e + 1 |>)); [done|].
    assert (He1 : edits (e <| historyIndex := historyIndex e + 1 |>) (v <| recall := S (recall v) |>)) by (apply edits_recall; [done|lia|lia]).
    destruct (history_at_past _ _ (recall v) s He1 Hk) as (slot & Hat & Hcs & Hs). apply (acts_read _ _ _ slot).
    { rewrite <- Hat. f_equal. simpl. lia. }
    rewrite <- Hcs. apply replace_acts; [done|by rewrite Hcs].
  - apply lookup_ge_None in Hk. destruct (historyCount e =? 0) eqn:H0; [by apply acts_nothing|]. cbv zeta. unfold HISTORY_SIZE.
    replace ((if _ <? 16 then _ else 16) <=? historyIndex e + 1) with true by (destruct (_ <? 16) eqn:?; lia). by apply acts_nothing.
Qed.

Lemma next_acts e v : edits e v → acts (historyNext columns) e v (v_down v).
Proof.
  intros He. apply (acts_read _ _ _ e); [done|]. pose proof (ed_recall _ _ He) as Hr. pose proof (ed_recall_past _ _ He) as Hrp.
  unfold v_down. destruct (recall v) as [|n] eqn:Hn.
  { replace (historyIndex e <? 0) with true by lia. by apply acts_nothing. }
  replace (historyIndex e <? 0) with false by lia.
  apply (acts_pre _ _ _ _ (v <| recall := n |>)); [done..|].
  apply (acts_read _ _ _ (e <| historyIndex := historyIndex e - 1 |>)); [done|].
  assert (He1 : edits (e <| historyIndex := historyIndex e - 1 |>) (v <| recall := n |>)) by (apply edits_recall; [done|lia|lia]).
  simpl historyIndex. destruct n as [|n].
  - replace (historyIndex e - 1 <? 0) with true by lia. apply (replace_acts []); [done|unfold LINE_ROOM; simpl; lia].
  - replace (historyIndex e - 1 <? 0) with false by lia.
    destruct (lookup_lt_is_Some_2 (past v) n ltac:(lia)) as [s Hk]. rewrite Hk.
    destruct (history_at_past _ _ n s He1 Hk) as (slot & Hat & Hcs & Hs). apply (acts_read _ _ _ slot).
    { rewrite <- Hat. f_equal. simpl. lia. }
    simpl default. rewrite <- Hcs. apply (replace_acts slot); [done|by rewrite Hcs].
Qed.

Lemma c_str_buffer e v : edits e v → c_str (buffer e) = whole v.
Proof. intros He. destruct (ed_buffer _ _ He) as [rest ->]. by apply c_str_cut, (ed_text _ _ He). Qed.

(** The slot that the next line goes to is not the slot of one of the last fifteen. *)
Lemma slot_ne count k : 0 <= count → 0 <= k < HISTORY_SIZE - 1 →
  Z.to_nat ((count - 1 - k) mod HISTORY_SIZE) ≠ Z.to_nat (count mod HISTORY_SIZE).
Proof.
  intros Hc Hk. pose proof (mod_slot (count - 1 - k)). pose proof (mod_slot count). intros Heq.
  assert (Hz : (count - 1 - k) mod HISTORY_SIZE = count mod HISTORY_SIZE) by lia.
  pose proof (Z.div_mod (count - 1 - k) HISTORY_SIZE ltac:(done)). pose proof (Z.div_mod count HISTORY_SIZE ltac:(done)).
  unfold HISTORY_SIZE in *. lia.
Qed.

Lemma length_filter_slots e i slot :
  Forall (λ slot : text, length slot = Z.to_nat MAX_LINE) (history e) → length slot = Z.to_nat MAX_LINE →
  Forall (λ slot : text, length slot = Z.to_nat MAX_LINE) (<[i := slot]> (history e)).
Proof. intros Hall Hs. by apply Forall_insert. Qed.

(** The editor with a line put into the history. *)
Lemma push_edits line e v :
  edits e v → c_str line = whole v → historyCount e < 2^31 - 1 →
  ∃ e', pushHistory line e = Done (tt, e') ∧ edits e' (v_remember (whole v) v) ∧
    out e' = out e ∧ prompt e' = prompt e ∧ promptWidth e' = promptWidth e ∧ historyCount e <= historyCount e' <= historyCount e + 1.
Proof.
  intros He Hline Hcount. pose proof (ed_past _ _ He) as Hp. pose proof (ed_count _ _ He) as Hc0.
  unfold pushHistory, v_remember. rewrite Hline. destruct (bool_decide (whole v = [])) eqn:Hempty; [exists e; split_and!; try done; lia|].
  rewrite (bind_eq get _ _ _ _ eq_refl).
  assert (Hsame : (if 0 <? historyCount e then last ← history_at (historyCount e - 1); mret (bool_decide (c_str last = whole v)) else mret false) e
    = Done (bool_decide (head (past v) = Some (whole v)), e)).
  { unfold HISTORY_SIZE in Hp. destruct (past v) as [|s0 ps] eqn:Hpast.
    - replace (0 <? historyCount e) with false by (simpl in Hp; lia). done.
    - replace (0 <? historyCount e) with true by (simpl in Hp; lia).
      destruct (history_at_past e v 0 s0 He) as (slot & Hat & Hcs & _); [by rewrite Hpast|]. rewrite Z.sub_0_r in Hat.
      rewrite (bind_eq _ _ _ _ _ Hat), Hcs. unfold mret, M_ret. do 2 f_equal. simpl. apply bool_decide_ext. split; [by intros ->|by intros [= ->]]. }
  rewrite (bind_eq _ _ _ _ _ Hsame). rewrite orb_false_l. destruct (bool_decide (head _ = _)) eqn:Hhead; [exists e; split_and!; try done; lia|].
  destruct (lookup_lt_is_Some_2 (history e) (Z.to_nat (historyCount e mod HISTORY_SIZE))) as [slot Hslot].
  { rewrite (ed_slots _ _ He). pose proof (mod_slot (historyCount e)). lia. }
  rewrite (bind_eq _ _ _ slot e) by (unfold history_at, deref; by rewrite Hslot).
  rewrite (bind_eq _ _ _ (historyCount e + 1) e) by (unfold int; by replace (_ && _)%bool with true by lia).
  eexists. split; [reflexivity|]. split; [|simpl; split_and!; try done; lia].
  pose proof (edits_room e v He) as Hroom.
  assert (Hslen : length slot = Z.to_nat MAX_LINE) by exact (Forall_lookup_1 _ _ _ _ (ed_slot _ _ He) Hslot).
  destruct (print_line_eq (whole v) slot Hroom Hslen) as [Hpl Hpll].
  pose proof (ed_lines _ _ He) as Hlines. pose proof (ed_recall_past _ _ He) as Hrp.
  destruct He. constructor; simpl; auto.
  - by rewrite length_insert.
  - by apply length_filter_slots.
  - lia.
  - rewrite length_take. simpl length. unfold PAST_ROOM, HISTORY_SIZE in *. lia.
  - intros [|k] s Hk.
    + injection Hk as <-. split; [done|]. exists (print_line (whole v) slot). rewrite Z.sub_0_r, Z.add_simpl_r.
      rewrite list_lookup_insert_eq by (eapply lookup_lt_Some; exact Hslot). split; [done|]. rewrite Hpl. by apply c_str_cut.
    + change (take 15 (past v) !! k = Some s) in Hk. apply lookup_take_Some in Hk as [Hk Hk15].
      destruct (Hlines k s Hk) as (Hs & slot' & Hslot' & Hcs). split; [done|]. exists slot'. split; [|done].
      replace (historyCount e + 1 - 1 - Z.of_nat (S k)) with (historyCount e - 1 - Z.of_nat k) by lia.
      rewrite list_lookup_insert_ne; [done|]. intros Heq. symmetry in Heq. revert Heq. apply slot_ne; [done|]. unfold HISTORY_SIZE. lia.
  - rewrite length_take. simpl length. unfold PAST_ROOM, HISTORY_SIZE in *. lia.
Qed.

(** ** Completion *)

Lemma append_eq suffix s rest e :
  buffer e = s ++ rest → length (buffer e) = Z.to_nat MAX_LINE → line_length e = Z.of_nat (length s) → (length s ≤ LINE_ROOM)%nat →
  ∃ rest', append_suffix suffix e =
    Done (tt, e <| buffer := (s ++ take (LINE_ROOM - length s) suffix) ++ rest' |>
               <| line_length := Z.of_nat (length (s ++ take (LINE_ROOM - length s) suffix)) |>) ∧
    length ((s ++ take (LINE_ROOM - length s) suffix) ++ rest') = Z.to_nat MAX_LINE.
Proof.
  unfold LINE_ROOM. change (Z.to_nat MAX_LINE) with 256%nat. revert s rest e.
  induction suffix as [|c suffix IH]; intros s rest e Hb Hsize Hl Hs.
  { exists rest. rewrite take_nil, app_nil_r, <- Hb, <- Hl. split; [by destruct e|done]. }
  cbn [append_suffix]. rewrite (bind_eq get _ _ _ _ eq_refl). rewrite Hl. unfold MAX_LINE.
  destruct (decide (length s = 255%nat)) as [Hfull|Hroom].
  { replace (_ + 1 <? 256) with false by lia. replace (255 - length s)%nat with 0%nat by lia. rewrite take_0, app_nil_r.
    exists rest. rewrite <- Hb, <- Hl. split; [by destruct e|done]. }
  replace (_ + 1 <? 256) with true by lia. run_with store_byte_eq. rewrite (bind_eq (modify _) _ _ _ _ eq_refl).
  destruct rest as [|r rest]; [exfalso; rewrite Hb, length_app in Hsize; simpl in Hsize; lia|].
  replace (255 - length s)%nat with (S (255 - length (s ++ [c]))) by (rewrite length_app; simpl; lia). cbn [take].
  change (c :: ?t) with ([c] ++ t). rewrite app_assoc.
  assert (Hb1 : <[Z.to_nat (Z.of_nat (length s)) := c]> (buffer e) = (s ++ [c]) ++ rest).
  { rewrite Nat2Z.id, Hb, <- app_assoc. by rewrite insert_app_r_alt, Nat.sub_diag by lia. }
  unfold set_field. editor_fields. rewrite Hb1.
  destruct (IH (s ++ [c]) rest (e <| buffer := (s ++ [c]) ++ rest |> <| line_length := line_length e + 1 |>)) as (rest' & Hrun & Hlen);
    [done|..].
  - simpl. rewrite <- Hb1. by rewrite length_insert.
  - simpl. rewrite length_app. simpl. lia.
  - rewrite length_app. simpl. lia.
  - exists rest'. split; [|done]. unfold set_field in Hrun. revert Hrun. editor_fields. intros Hrun. exact Hrun.
Qed.

Lemma complete_edits e v :
  edits e v →
  ∃ printed e1, edits e1 (v_complete shell_complete v) ∧ same_screen (wrote printed e) e1 ∧
    (complete columns shell_complete e = Done (tt, e1) ∨ complete columns shell_complete e = Done (tt, refreshed e1)).
Proof.
  intros He. pose proof (edits_room e v He) as Hroom. pose proof (ed_length _ _ He) as Hlen. pose proof (ed_cursor _ _ He) as Hcur.
  pose proof (whole_parts v) as Hw. pose proof (f_equal length Hw) as Hwl. rewrite length_app in Hwl.
  unfold complete, v_complete. rewrite (bind_eq get _ _ _ _ eq_refl).
  destruct (after v) as [|d b] eqn:Hafter.
  2:{ exists [], e. rewrite wrote_nil. split_and!; try done. left. by replace (cursor e =? line_length e) with false by (simpl in Hwl; lia). }
  replace (cursor e =? line_length e) with true by (simpl in Hwl; lia). change (negb true) with false. cbv iota.
  rewrite app_nil_r in Hw. rewrite (c_str_buffer e v He), Hw.
  destruct (shell_complete (before v)) as [[[answer listed] printed]|]; [|exists [], e; rewrite wrote_nil; split_and!; try done; by left].
  cbv beta iota zeta. rewrite !(bind_eq _ _ _ _ _ (write_eq printed e)). set (suffix := c_str answer).
  destruct (ed_buffer _ _ He) as [rest Hbuf]. rewrite Hw in Hbuf. rewrite Hw in Hlen, Hroom.
  destruct (append_eq suffix (before v) (NUL :: rest) (wrote printed e) Hbuf (ed_size _ _ He) Hlen Hroom) as (rest' & Hrun & Hsize).
  rewrite (bind_eq _ _ _ _ _ Hrun). set (s := before v ++ take (LINE_ROOM - length (before v)) suffix) in *.
  assert (Hs : (length s ≤ LINE_ROOM)%nat) by (unfold s; rewrite length_app, length_take; lia).
  rewrite (bind_eq get _ _ _ _ eq_refl). unfold LINE_ROOM in Hs. erewrite bind_eq; [|apply store_byte_eq; simpl; unfold MAX_LINE; lia].
  rewrite (bind_eq (modify _) _ _ _ _ eq_refl). simpl line_length. rewrite Nat2Z.id.
  destruct rest' as [|r rest']; [exfalso; rewrite app_nil_r in Hsize; change (Z.to_nat MAX_LINE) with 256%nat in Hsize; lia|].
  assert (Hnul : NUL ∉ s ++ []).
  { rewrite app_nil_r. unfold s. rewrite elem_of_app. intros [Hin|Hin].
    - apply (ed_text _ _ He). by rewrite Hw.
    - apply (c_str_no_nul answer). eapply subseteq_take; exact Hin. }
  pose proof (edits_text (wrote printed e) v (s ++ NUL :: rest') s [] (edits_wrote printed e v He)) as Hed.
  rewrite app_nil_r in Hed, Hnul.
  assert (Hbuf' : <[length s := NUL]> (s ++ r :: rest') = s ++ NUL :: rest') by (by rewrite insert_app_r_alt, Nat.sub_diag by lia).
  assert (Hv : v <| before := s |> = v <| before := s |> <| after := [] |>) by (unfold set_field; simpl; by rewrite Hafter).
  rewrite Hv. simpl buffer. rewrite Hbuf'.
  eexists printed, _. split; [apply Hed|].
  - by eexists.
  - rewrite length_app in *. simpl in *. done.
  - done.
  - split; [done|]. unfold set_field. editor_fields.
    destruct (listed || _)%bool; [right; apply refresh_eq|by left].
Qed.

(** ** Keys *)

Inductive key :=
  | KEscape | KEnter | KTab | KBackspace | KHome | KEnd | KKill | KClearLine | KAbandon | KClearScreen | KChar (c : ascii) | KIgnored.
#[export] Instance key_eq_dec : EqDecision key. Proof. solve_decision. Defined.

Definition key_of (c : ascii) : key :=
  match c with
  | "027"%char => KEscape
  | "013"%char | "010"%char => KEnter
  | "009"%char => KTab
  | "127"%char | "008"%char => KBackspace
  | "001"%char => KHome
  | "005"%char => KEnd
  | "011"%char => KKill
  | "021"%char => KClearLine
  | "003"%char => KAbandon
  | "012"%char => KClearScreen
  | _ => if isprint c then KChar c else KIgnored
  end.

(** The operation of a key that neither completes a line nor touches the escape state. *)
Definition key_run (k : key) : M editor unit :=
  match k with
  | KTab => complete columns shell_complete
  | KBackspace => backspace columns
  | KHome => modify (λ e, e <| cursor := 0 |>);; refresh columns
  | KEnd => modify (λ e, e <| cursor := line_length e |>);; refresh columns
  | KKill =>
      e ← get; modify (λ e, e <| line_length := cursor e |>);; store_byte (cursor e) NUL;; refresh columns
  | KClearLine => modify (λ e, e <| line_length := 0 |> <| cursor := 0 |>);; store_byte 0 NUL;; refresh columns
  | KAbandon =>
      write ($"^C" ++ CR ++ ["010"%char]);; store_byte 0 NUL;;
      modify (λ e, e <| line_length := 0 |> <| cursor := 0 |> <| historyIndex := -1 |>);;
      e ← get; write (prompt e)
  | KClearScreen => write (ESC :: $"[2J" ++ ESC :: $"[H");; refresh columns
  | KChar c => insert_char columns c
  | _ => mret tt
  end.
Definition key_view (k : key) (v : view) : view :=
  match k with
  | KTab => v_complete shell_complete v
  | KBackspace => v_backspace v
  | KHome => v_home v
  | KEnd => v_end v
  | KKill => v <| after := [] |>
  | KClearLine => v <| before := [] |> <| after := [] |>
  | KAbandon => v <| before := [] |> <| after := [] |> <| recall := O |>
  | KChar c => v_insert c v
  | _ => v
  end.

Lemma feed_key_eq c e :
  feed_key columns shell_complete c e =
  match key_of c with
  | KEscape => Done (None, e <| escapeState := EscapeEscape |>)
  | KEnter => (line ← enter; mret (Some line)) e
  | k => (key_run k;; mret None) e
  end.
Proof.
  destruct c as [[] [] [] [] [] [] [] []]; try reflexivity;
    unfold feed_key, key_of, key_run;
    repeat first [ progress rewrite ?bind_bind | rewrite !(bind_eq get _ _ _ _ eq_refl) | rewrite !(bind_eq (modify _) _ _ _ _ eq_refl)
                 | rewrite !(bind_eq _ _ _ _ _ (write_eq _ _)) ]; unfold set_field; cbv beta; editor_fields; try done.
Qed.
Lemma v_key_eq c v :
  v_key shell_complete c v =
  match key_of c with
  | KEscape => (v <| pending := EscapeEscape |>, None)
  | KEnter => (v_remember (whole v) v, Some (whole v))
  | k => (key_view k v, None)
  end.
Proof. by destruct c as [[] [] [] [] [] [] [] []]. Qed.
Lemma key_of_char c d : key_of c = KChar d → d = c ∧ isprint c = true.
Proof. unfold key_of. by destruct c as [[] [] [] [] [] [] [] []]; intros [= <-]. Qed.

(** Cutting the line off, at the cursor or at its start. *)
Lemma cut_edits e v a b :
  edits e v → whole v = a ++ b →
  edits (e <| buffer := <[length a := NUL]> (buffer e) |> <| line_length := Z.of_nat (length a) |> <| cursor := Z.of_nat (length a) |>)
    (v <| before := a |> <| after := [] |>).
Proof.
  intros He Hw. destruct (ed_buffer _ _ He) as [rest Hbuf]. rewrite Hw in Hbuf.
  pose proof (edits_text e v (<[length a := NUL]> (buffer e)) a [] He) as Hed. rewrite app_nil_r in Hed. apply Hed.
  - apply (cut_buffer _ a b). by exists rest.
  - rewrite length_insert. apply (ed_size _ _ He).
  - intros Hin. apply (ed_text _ _ He). rewrite Hw. apply elem_of_app. by left.
Qed.

Lemma home_acts e v : edits e v → acts (key_run KHome) e v (v_home v).
Proof. intros He. apply acts_refresh; [|done]. by apply (edits_cursor e v [] (whole v)). Qed.
Lemma end_acts e v : edits e v → acts (key_run KEnd) e v (v_end v).
Proof.
  intros He. apply acts_refresh; [|done]. rewrite (ed_length _ _ He). apply (edits_cursor e v (whole v) []); [done|by rewrite app_nil_r].
Qed.
Lemma kill_acts e v : edits e v → acts (key_run KKill) e v (v <| after := [] |>).
Proof.
  intros He. pose proof (edits_room e v He) as Hroom. pose proof (f_equal length (whole_parts v)) as Hwl. rewrite length_app in Hwl. unfold LINE_ROOM in Hroom.
  apply (acts_read _ _ _ e); [done|]. pose proof (cut_edits e v (before v) (after v) He eq_refl) as Hed.
  eexists. split; [exact Hed|]. split; [done|]. right. rewrite (bind_eq (modify _) _ _ _ _ eq_refl).
  pose proof (ed_cursor _ _ He) as Hcur. run_with store_byte_eq. unfold set_field. editor_fields.
  rewrite !Hcur, Nat2Z.id. apply refresh_eq.
Qed.
Lemma clear_line_acts e v : edits e v → acts (key_run KClearLine) e v (v <| before := [] |> <| after := [] |>).
Proof.
  intros He. pose proof (cut_edits e v [] (whole v) He eq_refl) as Hed.
  eexists. split; [exact Hed|]. split; [done|]. right. cbn [key_run]. rewrite (bind_eq (modify _) _ _ _ _ eq_refl).
  run_with store_byte_eq. apply refresh_eq.
Qed.

Lemma abandon_edits e v :
  edits e v → ∃ e', key_run KAbandon e = Done (tt, e') ∧ edits e' (key_view KAbandon v) ∧ historyCount e' = historyCount e.
Proof.
  intros He. pose proof (cut_edits e v [] (whole v) He eq_refl) as Hed. cbn [key_run key_view].
  rewrite (bind_eq _ _ _ _ _ (write_eq _ _)). run_with store_byte_eq. rewrite (bind_eq (modify _) _ _ _ _ eq_refl), (bind_eq get _ _ _ _ eq_refl).
  eexists. split; [reflexivity|]. split; [|done].
  destruct Hed. constructor; simpl in *; auto; lia.
Qed.

Lemma switch_arrow {T} c (up down right left other : T) :
  match c with "A"%char => up | "B"%char => down | "C"%char => right | "D"%char => left | _ => other end =
  if decide (c = "A"%char) then up else if decide (c = "B"%char) then down
  else if decide (c = "C"%char) then right else if decide (c = "D"%char) then left else other.
Proof. by destruct c as [[] [] [] [] [] [] [] []]. Qed.

Lemma arrow_acts c e v : edits e v → acts (feed_arrow columns c) e v (v_arrow c v).
Proof.
  intros He. pose proof (f_equal length (whole_parts v)) as Hwl. rewrite length_app in Hwl.
  assert (Hright : acts (e ← get; if cursor e <? line_length e then put (e <| cursor := cursor e + 1 |>);; refresh columns else mret tt) e v (v_right v)).
  { apply (acts_read _ _ _ e); [done|]. rewrite (ed_cursor _ _ He), (ed_length _ _ He). unfold v_right.
    destruct (after v) as [|d b] eqn:Ha.
    - replace (_ <? _) with false by (simpl in Hwl; lia).
      assert (v <| before := before v ++ take 1 [] |> <| after := drop 1 [] |> = v) as ->; [|by apply acts_nothing].
      unfold set_field. simpl. rewrite app_nil_r. destruct v; simpl in *; by subst.
    - replace (_ <? _) with true by (simpl in Hwl; lia). apply (acts_refresh (λ _, _)); [|done].
      replace (Z.of_nat (length (before v)) + 1) with (Z.of_nat (length (before v ++ take 1 (d :: b)))) by (rewrite length_app; simpl; lia).
      apply edits_cursor; [done|]. unfold whole. rewrite Ha, <- app_assoc. by rewrite take_drop. }
  assert (Hleft : acts (e ← get; if 0 <? cursor e then put (e <| cursor := cursor e - 1 |>);; refresh columns else mret tt) e v (v_left v)).
  { apply (acts_read _ _ _ e); [done|]. rewrite (ed_cursor _ _ He). unfold v_left.
    destruct (before v) as [|d b] eqn:Hb.
    - replace (0 <? _) with false by done.
      assert (v <| before := take (length [] - 1) [] |> <| after := drop (length [] - 1) [] ++ after v |> = v) as ->; [|by apply acts_nothing].
      unfold set_field. simpl. destruct v; simpl in *; by subst.
    - replace (0 <? _) with true by done. apply (acts_refresh (λ _, _)); [|done].
      replace (Z.of_nat (length (d :: b)) - 1) with (Z.of_nat (length (take (length (d :: b) - 1) (d :: b)))) by (rewrite length_take; cbn [length]; lia).
      apply edits_cursor; [done|]. unfold whole. rewrite Hb, app_assoc. by rewrite take_drop. }
  unfold feed_arrow, v_arrow. rewrite !switch_arrow. repeat case_decide.
  - by apply previous_acts.
  - by apply next_acts.
  - exact Hright.
  - exact Hleft.
  - by apply acts_nothing.
Qed.

Lemma acts_done m e v v' : acts m e v v' → ∃ e', m e = Done (tt, e') ∧ edits e' v' ∧ historyCount e' = historyCount e.
Proof.
  intros (e1 & He1 & (_ & _ & _ & _ & _ & Hc) & [[Hm _]|Hm]); [by exists e1|]. exists (refreshed e1). split; [done|]. split; [by apply edits_refreshed|done].
Qed.

(** ** Every byte *)

Lemma key_edits k e v :
  edits e v → (∀ c, k = KChar c → isprint c = true) →
  ∃ e', key_run k e = Done (tt, e') ∧ edits e' (key_view k v) ∧ historyCount e' = historyCount e.
Proof.
  intros He Hk. destruct k as [| | | | | | | | | |c|]; try (by exists e).
  - destruct (complete_edits e v He) as (printed & e1 & He1 & (_ & _ & _ & _ & _ & Hc) & [Hm|Hm]); [by exists e1|].
    exists (refreshed e1). split; [done|]. split; [by apply edits_refreshed|done].
  - by apply (acts_done _ _ v), backspace_acts.
  - by apply (acts_done _ _ v), home_acts.
  - by apply (acts_done _ _ v), end_acts.
  - by apply (acts_done _ _ v), kill_acts.
  - by apply (acts_done _ _ v), clear_line_acts.
  - by apply abandon_edits.
  - cbn [key_run]. rewrite (bind_eq _ _ _ _ _ (write_eq _ _)), refresh_eq. eexists. split; [reflexivity|]. split; [|done].
    by apply edits_refreshed, edits_wrote.
  - destruct (insert_acts c e v He (Hk c eq_refl)) as (e1 & He1 & (_ & _ & _ & _ & _ & Hc) & Hm). cbn [key_run key_view]. rewrite Hm.
    eexists. split; [reflexivity|].
    destruct (_ <=? _)%nat; [done|]. destruct (bool_decide _); [split; [by apply edits_drawn, edits_wrote|done]|split; [by apply edits_refreshed|done]].
Qed.

Lemma enter_edits e v :
  edits e v → historyCount e < 2^31 - 1 →
  ∃ e', enter e = Done (whole v, e') ∧ edits e' (v_remember (whole v) v) ∧ historyCount e' <= historyCount e + 1.
Proof.
  intros He Hc. pose proof (edits_room e v He) as Hroom. unfold LINE_ROOM in Hroom.
  unfold enter. rewrite (bind_eq _ _ _ _ _ (write_eq _ _)), (bind_eq get _ _ _ _ eq_refl).
  set (e1 := wrote _ e). pose proof (edits_wrote (CR ++ ["010"%char]) e v He) as He1. fold e1 in He1. pose proof (ed_length _ _ He1) as Hlen.
  assert (Hstore : store_byte (line_length e1) NUL e1 = Done (tt, e1)).
  { rewrite store_byte_eq by (unfold MAX_LINE; lia). rewrite Hlen, Nat2Z.id. destruct (ed_buffer _ _ He1) as [rest Hbuf]. do 2 f_equal.
    assert (<[length (whole v) := NUL]> (buffer e1) = buffer e1) as ->; [|by destruct e1].
    apply list_insert_id. rewrite Hbuf, lookup_app_r, Nat.sub_diag by lia. done. }
  rewrite (bind_eq _ _ _ _ _ Hstore), (bind_eq (gets _) _ _ _ _ eq_refl).
  destruct (push_edits (buffer e1) e1 v He1 (c_str_buffer e1 v He1) Hc) as (e2 & Hrun & He2 & _ & _ & _ & Hc2).
  rewrite (bind_eq _ _ _ _ _ Hrun). exists e2. rewrite (c_str_buffer e1 v He1). split_and!; [done..|]. simpl in Hc2. lia.
Qed.

Lemma edits_pending e v st : edits e v → edits (e <| escapeState := st |>) (v <| pending := st |>).
Proof. intros []. constructor; simpl; auto. Qed.

(** One byte: the same completed line, and the same view. *)
Lemma feed_edits c e v :
  edits e v → historyCount e < 2^31 - 1 →
  ∃ e', feed columns shell_complete c e = Done (snd (v_feed shell_complete c v), e') ∧
    edits e' (fst (v_feed shell_complete c v)) ∧ historyCount e' <= historyCount e + 1.
Proof.
  intros He Hc. unfold feed. rewrite (bind_eq (gets _) _ _ _ _ eq_refl). unfold v_feed. rewrite (ed_pending _ _ He).
  destruct (pending v) eqn:Hp.
  - rewrite feed_key_eq, v_key_eq.
    assert (Hother : ∃ e', (key_run (key_of c);; mret (None : option text)) e = Done (None, e') ∧ edits e' (key_view (key_of c) v) ∧ historyCount e' <= historyCount e + 1).
    { destruct (key_edits (key_of c) e v He) as (e' & Hrun & He' & Hc'); [by intros d [-> ?]%key_of_char|].
      exists e'. rewrite (bind_eq _ _ _ _ _ Hrun). split_and!; [done..|lia]. }
    destruct (key_of c) eqn:Hk; try exact Hother.
    + eexists. split; [reflexivity|]. split; [by apply edits_pending|simpl; lia].
    + destruct (enter_edits e v He Hc) as (e' & Hrun & He' & Hc'). exists e'. by rewrite (bind_eq _ _ _ _ _ Hrun).
  - eexists. split; [reflexivity|]. split; [by apply edits_pending|simpl; lia].
  - rewrite (bind_eq (modify _) _ _ _ _ eq_refl).
    destruct (acts_done _ _ _ _ (arrow_acts c _ _ (edits_pending e v EscapeNone He))) as (e' & Hrun & He' & Hc').
    exists e'. rewrite (bind_eq _ _ _ _ _ Hrun). split_and!; [done..|]. rewrite Hc'. simpl. lia.
Qed.

Lemma begin_edits p w e v :
  edits e v → printableWidth p = Some w → ∃ e', begin p e = Done (tt, e') ∧ edits e' (v_begin v) ∧ historyCount e' = historyCount e.
Proof.
  intros He Hw. unfold begin. rewrite (bind_eq _ _ _ w e) by (unfold deref; by rewrite Hw). rewrite (bind_eq (modify _) _ _ _ _ eq_refl).
  run_with store_byte_eq. rewrite (bind_eq (modify _) _ _ _ _ eq_refl). eexists. split; [reflexivity|]. split; [|done].
  pose proof (cut_edits e v [] (whole v) He eq_refl) as []. constructor; simpl in *; auto. lia.
Qed.

(** * A session (main.cpp) *)

Section session.
Context (PROMPT : text) (width : Z) (Hwidth : printableWidth PROMPT = Some width).
(** Whether the shell wants to exit once it has executed these lines. *)
Context (shouldExit : list text → bool).

(** The loop of the shell's [main], with the bytes it reads: the lines that it executes,
    after those executed before. *)
Fixpoint session (executed : list text) (bytes : text) : M editor (list text) :=
  match bytes with
  | [] => mret executed
  | c :: bytes =>
      line ← feed columns shell_complete c;
      match line with
      | Some line =>
          let executed := executed ++ [line] in
          if shouldExit executed then mret executed else begin PROMPT;; session executed bytes
      | None => session executed bytes
      end
  end.
Fixpoint v_session (executed : list text) (bytes : text) (v : view) : list text :=
  match bytes with
  | [] => executed
  | c :: bytes =>
      let '(v, line) := v_feed shell_complete c v in
      match line with
      | Some line =>
          let executed := executed ++ [line] in
          if shouldExit executed then executed else v_session executed bytes (v_begin v)
      | None => v_session executed bytes v
      end
  end.

Lemma session_edits executed bytes e v :
  edits e v → historyCount e + Z.of_nat (length bytes) < 2^31 ->
  ∃ e', session executed bytes e = Done (v_session executed bytes v, e').
Proof.
  revert executed e v. induction bytes as [|c bytes IH]; intros executed e v He Hc; [by exists e|]. simpl length in Hc.
  cbn [session v_session]. destruct (feed_edits c e v He ltac:(lia)) as (e1 & Hrun & He1 & Hc1).
  rewrite (bind_eq _ _ _ _ _ Hrun). destruct (v_feed shell_complete c v) as [v1 [line|]]; simpl in *; [|apply IH; [done|lia]].
  destruct (shouldExit _); [by exists e1|].
  destruct (begin_edits PROMPT width e1 v1 He1 Hwidth) as (e2 & Hbegin & He2 & Hc2). rewrite (bind_eq _ _ _ _ _ Hbegin).
  apply IH; [done|lia].
Qed.

Definition new_view : view := View [] [] [] O EscapeNone.
Lemma new_edits : edits new_editor new_view.
Proof.
  constructor; try done.
  - by exists (replicate 255 NUL).
  - by apply not_elem_of_nil.
  - by apply Forall_replicate.
Qed.

(** C10: The shell's input loop executes the lines of the abstract editor.  For every
    sequence of fewer than two thousand million bytes from the terminal (text, editing
    keys, escape sequences, anything else), every completion that the shell offers, and
    whenever the shell asks to exit, the line editor with its 256-byte buffer and its ring
    of 16 lines never leaves its arrays, and hands to the shell exactly the lines that an
    editor of plain texts gives, which keeps what is before and after the cursor and the
    past lines, the newest first, without an empty line or the same line twice in a row. *)
Theorem line_editor_session bytes :
  Z.of_nat (length bytes) < 2^31 - 1 →
  ∃ e, (begin PROMPT;; session [] bytes) new_editor = Done (v_session [] bytes new_view, e).
Proof.
  intros Hb. destruct (begin_edits PROMPT width new_editor new_view new_edits Hwidth) as (e1 & Hrun & He1 & Hc1).
  rewrite (bind_eq _ _ _ _ _ Hrun). apply (session_edits [] bytes e1 new_view He1). rewrite Hc1. simpl. lia.
Qed.
End session.
End editor.

(** The prompt of main.cpp. *)
Definition PROMPT : text := ESC :: $"[96m$" ++ ESC :: $"[0m ".
(** [ls], Enter, then the arrow up and Enter, Ctrl-A. *)
Definition demo_keys : text := $"ls" ++ CR ++ ESC :: $"[A" ++ CR ++ ["001"%char].
Definition no_completion : text → option (text * bool * text) := λ _, None.

Lemma line_editor_session_witness :
  printableWidth PROMPT = Some 2 ∧
  ∃ e, (begin PROMPT;; session 53 no_completion PROMPT (λ _, false) [] demo_keys) new_editor = Done ([$"ls"; $"ls"], e).
Proof.
  split; [reflexivity|]. apply (line_editor_session 53 no_completion PROMPT 2 eq_refl (λ _, false) demo_keys). vm_compute. reflexivity.
Defined.
