(* ===== verification/VtermDisplay.v ===== *)
(** What the terminal shows: the visible grid as one text, row after row, and the effect on
    it of the sequences that the shell's line editor uses. *)

From S2P Require Import Prelude Text Vterm VtermSafety.

(** * The display *)

(** The characters of the visible rows, and the cursor; [wrapping]: the last column has
    been written and the next character goes to the next row. *)
Record display := Display { shown : text; row : Z; col : Z; wrapping : bool }.
#[export] Instance display_settable : Settable display := constr Display <*> shown <*> row <*> col <*> wrapping.

Inductive command :=
  | Print (c : ascii)
  | Return
  | UpRow
  | DownRow
  | EraseRight
  | MoveRight (n : Z)
  | Colour (params : text)
  | ClearScreen
  | Home.

Definition esc_byte : ascii := "027".
Definition sequence (params : text) (c : ascii) : text := esc_byte :: "["%char :: params ++ [c].

(** The bytes of a command. *)
Definition bytes_of (c : command) : text :=
  match c with
  | Print c => [c]
  | Return => ["013"%char]
  | UpRow => sequence [] "A"
  | DownRow => sequence [] "B"
  | EraseRight => sequence [] "K"
  | MoveRight n => sequence (print_long n) "C"
  | Colour params => sequence params "m"
  | ClearScreen => sequence $"2" "J"
  | Home => sequence [] "H"
  end.

Section display.
Context `{HC : Config} {Hconfig : ConfigOk} `{HD : Drawable} {Hdrawable : DrawableOk}.
Notation R := effective_rows.
Notation W := effective_cols.

Definition spaces (n : Z) : text := replicate (Z.to_nat n) " "%char.

(** A character that does not fit on its row goes to the next one, and the whole display
    moves up when there is none. *)
Definition next_row (d : display) : display :=
  if wrapping d then
    if row d + 1 <? R then d <| row := row d + 1 |> <| col := 0 |> <| wrapping := false |>
    else d <| shown := drop (Z.to_nat W) (shown d) ++ spaces W |> <| col := 0 |> <| wrapping := false |>
  else d.
Definition print_char (c : ascii) (d : display) : display :=
  let d := next_row d in
  let d := d <| shown := <[Z.to_nat (row d * W + col d) := c]> (shown d) |> in
  if W <=? col d + 1 then d <| wrapping := true |> else d <| col := col d + 1 |>.

Definition run (c : command) (d : display) : display :=
  match c with
  | Print c => print_char c d
  | Return => d <| col := 0 |> <| wrapping := false |>
  | UpRow => d <| row := Z.max 0 (row d - 1) |> <| wrapping := false |>
  | DownRow => d <| row := row d + 1 |> <| wrapping := false |>
  | EraseRight => d <| shown := filled (row d * W + col d) ((row d + 1) * W) " "%char (shown d) |> <| wrapping := false |>
  | MoveRight n => d <| col := col d + n |> <| wrapping := false |>
  | Colour _ => d <| wrapping := false |>
  | ClearScreen => Display (spaces (R * W)) 0 0 false
  | Home => d <| row := 0 |> <| col := 0 |> <| wrapping := false |>
  end.

(** When a command has this effect: the cursor stays on the display, and parameters are
    numbers that fit. *)
Definition legal (c : command) (d : display) : Prop :=
  match c with
  | Print c => isprint c = true
  | DownRow => row d + 1 < R
  | MoveRight n => 1 <= n ∧ col d + n < W
  | Colour params => sgr_params params ∧ (length params < ESCAPE_BUF_SIZE - 1)%nat
  | _ => True
  end.

(** * The visible part of the grid *)

(** The index of the cell of the [k]-th visible character. *)
Definition cell_at (k : nat) : nat := Z.to_nat (Z.of_nat k / W * VTERM_COLS + Z.of_nat k mod W).
Definition char_at (l : list cell) (k : nat) : ascii := match l !! cell_at k with Some c => ch c | None => NUL end.
Definition visible (l : list cell) : text := char_at l <$> seq 0 (Z.to_nat (R * W)).

(** The screen shows the display. *)
Record shows (s : screen) (d : display) : Prop := {
  sh_cells : Z.of_nat (length (cells s)) = VTERM_ROWS * VTERM_COLS;
  sh_top : scroll_top s = 0;
  sh_bottom : scroll_bottom s = 0;
  sh_shown : shown d = visible (cells s);
  sh_row : cursor_y s = row d;
  sh_col : cursor_x s = col d;
  sh_wrap : pending_wrap s = wrapping d;
  sh_row_range : 0 <= row d < R;
  sh_col_range : 0 <= col d < W;
}.
(** ... and is outside an escape sequence. *)
Definition displays (s : screen) (d : display) : Prop := shows s d ∧ escape_state s = 0.

Lemma cols_pos : 0 < W.
Proof. destruct Hdrawable. lia. Qed.
Lemma rows_pos : 0 < R.
Proof. destruct Hdrawable. lia. Qed.

Lemma cell_at_bound k : Z.of_nat k < R * W → Z.of_nat (cell_at k) < VTERM_ROWS * VTERM_COLS ∧
  Z.of_nat (cell_at k) = Z.of_nat k / W * VTERM_COLS + Z.of_nat k mod W ∧
  0 <= Z.of_nat k / W < R ∧ 0 <= Z.of_nat k mod W < W.
Proof.
  intros Hk. pose proof (Z.mod_pos_bound (Z.of_nat k) W cols_pos) as Hm. pose proof cols_pos as HW. destruct Hdrawable, Hconfig.
  assert (0 <= Z.of_nat k / W) by (apply Z.div_pos; lia).
  assert (Z.of_nat k / W < R) by (apply Z.div_lt_upper_bound; lia).
  set (q := Z.of_nat k / W) in *. set (m := Z.of_nat k mod W) in *.
  assert (Hcell : Z.of_nat (cell_at k) = q * VTERM_COLS + m) by (unfold cell_at; rewrite Z2Nat.id by nia; done).
  rewrite Hcell. split_and!; try lia. nia.
Qed.

Lemma length_visible l : length (visible l) = Z.to_nat (R * W).
Proof. unfold visible. by rewrite length_fmap, length_seq. Qed.
Lemma lookup_visible l k : Z.of_nat k < R * W → visible l !! k = Some (char_at l k).
Proof. intros Hk. unfold visible. rewrite list_lookup_fmap, lookup_seq_lt by lia. done. Qed.

(** Two texts of the size of the display are equal if their characters are. *)
Lemma display_eq (t t' : text) :
  Z.of_nat (length t) = R * W → Z.of_nat (length t') = R * W →
  (∀ k, Z.of_nat k < R * W → t !! k = t' !! k) → t = t'.
Proof.
  intros Ht Ht' Heq. apply list_eq. intros k. destruct (decide (Z.of_nat k < R * W)) as [Hk|Hk]; [by apply Heq|].
  rewrite !lookup_ge_None_2 by lia. done.
Qed.
Lemma length_visible_Z l : Z.of_nat (length (visible l)) = R * W.
Proof. rewrite length_visible. pose proof rows_pos. pose proof cols_pos. rewrite Z2Nat.id; nia. Qed.

(** A position in rows and columns. *)
Lemma position_div y x : 0 <= x < W → (y * W + x) / W = y ∧ (y * W + x) mod W = x.
Proof.
  intros Hx. split.
  - rewrite Z.div_add_l by lia. rewrite Z.div_small by lia. lia.
  - rewrite Z.add_comm, Z.mod_add by lia. by apply Z.mod_small.
Qed.
Lemma position_split k : 0 <= k → k = k / W * W + k mod W ∧ 0 <= k mod W < W.
Proof. intros Hk. pose proof cols_pos as HW. pose proof (Z.div_mod k W) as Hd. pose proof (Z.mod_pos_bound k W HW). lia. Qed.

(** Which visible characters lie in a range of cells of one row. *)
Lemma cell_at_row k y x stop :
  Z.of_nat k < R * W → 0 <= y → 0 <= x <= W → W <= stop → stop <= VTERM_COLS →
  (y * VTERM_COLS + x <= Z.of_nat (cell_at k) < y * VTERM_COLS + stop ↔ y * W + x <= Z.of_nat k < (y + 1) * W).
Proof.
  intros Hk Hy Hx Hs1 Hs2. destruct (cell_at_bound k Hk) as (Hb & Heq & Hq & Hm). rewrite Heq. destruct Hdrawable.
  destruct (position_split (Z.of_nat k) ltac:(lia)) as [Hsplit _]. set (q := Z.of_nat k / W) in *. set (m := Z.of_nat k mod W) in *.
  split; intros Hr.
  - assert (q = y) by nia. subst q. nia.
  - assert (q = y) by nia. subst q. nia.
Qed.

(** * Control sequences *)

(** Parameters as the sequences here have them. *)
Definition plain_params (p : text) : Prop :=
  Forall (λ c, isalpha c = false ∧ c ≠ NUL) p ∧ head p ≠ Some "?"%char ∧ (length p < ESCAPE_BUF_SIZE - 1)%nat.

Lemma put_csi_byte c s :
  escape_state s = 2 → isalpha c = false → (length (escape_buf s) < ESCAPE_BUF_SIZE - 1)%nat →
  put_char c s = Done (tt, s <| escape_buf := escape_buf s ++ [c] |>).
Proof.
  intros Hst Hc Hl. unfold put_char, vterm_handle_escape. rewrite bind_bind, (bind_eq (gets _) _ _ _ _ eq_refl), Hst. simpl (2 =? _). cbv iota.
  rewrite bind_bind. unfold vterm_csi. rewrite Hc, bind_bind, (bind_eq (modify _) _ _ _ _ eq_refl).
  apply Nat.ltb_lt in Hl. by rewrite Hl.
Qed.

Lemma put_csi_params p s :
  escape_state s = 2 → Forall (λ c, isalpha c = false ∧ c ≠ NUL) p → (length (escape_buf s) + length p < ESCAPE_BUF_SIZE)%nat →
  put_chars p s = Done (tt, s <| escape_buf := escape_buf s ++ p |>).
Proof.
  intros Hst Hp. revert s Hst. induction Hp as [|c p [Hc _] Hp IH]; intros s Hst Hl; simpl in Hl.
  - destruct s. unfold set_field. simpl. by rewrite app_nil_r.
  - unfold put_chars. cbn [for_list]. rewrite (bind_eq _ _ _ _ _ (put_csi_byte c s Hst Hc ltac:(unfold ESCAPE_BUF_SIZE in *; lia))).
    fold (put_chars p). rewrite IH; [|done|].
    + unfold set_field. simpl. by rewrite <- app_assoc.
    + simpl. rewrite length_app. simpl. lia.
Qed.

Definition in_sequence (p : text) (c : ascii) (s : screen) : screen :=
  s <| escape_state := 2 |> <| escape_buf := p ++ [c] |> <| pending_wrap := false |>.
Definition out_of_sequence (s : screen) : screen := s <| escape_state := 0 |> <| escape_buf := [] |>.

Lemma final_byte p c s :
  plain_params p → isalpha c = true → escape_buf s = p →
  vterm_csi c s = (csi_dispatch c p;; modify out_of_sequence) (s <| escape_buf := p ++ [c] |> <| pending_wrap := false |>).
Proof.
  intros (Hp & Hq & Hl) Hc Hbuf. unfold vterm_csi. rewrite Hc, (bind_eq (modify _) _ _ _ _ eq_refl), Hbuf.
  replace (length p <? ESCAPE_BUF_SIZE - 1)%nat with true by (symmetry; by apply Nat.ltb_lt).
  rewrite (bind_eq (gets _) _ _ _ _ eq_refl). simpl (escape_buf _).
  assert (Hparams : escape_params (p ++ [c]) = p).
  { unfold escape_params. rewrite length_app. simpl. rewrite Nat.add_sub, take_app_length. apply c_str_id.
    intros Hin. rewrite Forall_forall in Hp. by destruct (Hp _ Hin). }
  rewrite Hparams.
  assert (Hmatch : ∀ (m n : M screen unit), match p with "?"%char :: _ => m | _ => n end = n).
  { intros m n. destruct p as [|[[] [] [] [] [] [] [] []] p']; try done. }
  by rewrite Hmatch, bind_bind, (bind_eq (modify _) _ _ _ _ eq_refl).
Qed.

Lemma put_last_byte c s : escape_state s = 2 → put_char c s = vterm_csi c s.
Proof.
  intros Hst. unfold put_char, vterm_handle_escape. rewrite bind_bind, (bind_eq (gets _) _ _ _ _ eq_refl), Hst.
  change (2 =? 0) with false. change (2 =? 1) with false. cbv iota. unfold mbind, M_bind. by destruct (vterm_csi c s) as [[[] ?]| |].
Qed.

Lemma put_sequence p c s :
  escape_state s = 0 → plain_params p → isalpha c = true →
  put_chars (sequence p c) s = (csi_dispatch c p;; modify out_of_sequence) (in_sequence p c s).
Proof.
  intros Hst (Hp & Hq & Hl) Hc. unfold sequence. change (esc_byte :: "["%char :: p ++ [c]) with ([esc_byte; "["%char] ++ p ++ [c]).
  rewrite put_chars_app. set (s1 := s <| escape_state := 2 |> <| escape_buf := [] |>).
  assert (Hopen : put_chars [esc_byte; "["%char] s = Done (tt, s1)).
  { unfold put_chars. cbn [for_list].
    rewrite (bind_eq _ _ s tt (s <| escape_state := 1 |> <| escape_buf := [] |>)).
    2:{ unfold put_char, vterm_handle_escape. rewrite bind_bind, (bind_eq (gets _) _ _ _ _ eq_refl), Hst. done. }
    rewrite (bind_eq _ _ _ tt s1); [done|].
    unfold put_char, vterm_handle_escape. rewrite bind_bind, (bind_eq (gets _) _ _ _ _ eq_refl). done. }
  rewrite (bind_eq _ _ _ _ _ Hopen), put_chars_app.
  rewrite (bind_eq _ _ _ _ _ (put_csi_params p s1 eq_refl Hp ltac:(unfold ESCAPE_BUF_SIZE in *; simpl; lia))). simpl app.
  unfold put_chars. cbn [for_list]. set (s2 := s1 <| escape_buf := p |>).
  assert (Hlast : put_char c s2 = (csi_dispatch c p;; modify out_of_sequence) (in_sequence p c s)).
  { rewrite put_last_byte by done. by rewrite (final_byte p c s2). }
  unfold mbind at 1, M_bind at 1. change (s1 <| escape_buf := [] ++ p |>) with s2. rewrite Hlast.
  by destruct ((csi_dispatch c p;; modify out_of_sequence) (in_sequence p c s)) as [[[] ?]| |].
Qed.

(** * Commands *)

(** A sequence shows what its final byte does, without a pending wrap. *)
Lemma sequence_displays p c s d d' :
  displays s d → plain_params p → isalpha c = true →
  (∀ s1, shows s1 (d <| wrapping := false |>) → ∃ s2, csi_dispatch c p s1 = Done (tt, s2) ∧ shows s2 d') →
  ∃ s', put_chars (sequence p c) s = Done (tt, s') ∧ displays s' d'.
Proof.
  intros [[] Hst] Hp Hc Hrun. rewrite put_sequence by done.
  destruct (Hrun (in_sequence p c s)) as (s2 & Hdisp & []); [by constructor|].
  rewrite (bind_eq _ _ _ _ _ Hdisp). eexists. split; [reflexivity|]. split; [by constructor|done].
Qed.

Lemma plain_nil : plain_params [].
Proof. split; [done|]. split; [done|]. unfold ESCAPE_BUF_SIZE. simpl. lia. Qed.
Hint Resolve plain_nil : core.

Lemma grid_limits : R < 2^30 ∧ W < 2^30 ∧ VTERM_ROWS < 2^30 ∧ VTERM_COLS < 2^30.
Proof. destruct Hdrawable. pose proof grid_small. lia. Qed.

(** Moves that leave the cells alone. *)
Lemma shows_move s d y x :
  shows s d → 0 <= y < R → 0 <= x < W →
  shows (s <| cursor_y := y |> <| cursor_x := x |>) (d <| row := y |> <| col := x |>).
Proof. intros [] Hy Hx. by constructor. Qed.
Lemma shows_row s d y : shows s d → 0 <= y < R → shows (s <| cursor_y := y |>) (d <| row := y |>).
Proof. intros [] Hy. by constructor. Qed.
Lemma shows_col s d x : shows s d → 0 <= x < W → shows (s <| cursor_x := x |>) (d <| col := x |>).
Proof. intros [] Hx. by constructor. Qed.

Lemma up_shows s d : shows s d → ∃ s', csi_up [] s = Done (tt, s') ∧ shows s' (d <| row := Z.max 0 (row d - 1) |>).
Proof.
  intros Hs. pose proof grid_limits. pose proof (sh_row_range _ _ Hs). pose proof (sh_row _ _ Hs) as Hrow.
  unfold csi_up, count_param, param. rewrite bind_bind, (bind_eq (mret 1) _ _ _ _ eq_refl), (bind_eq (mret _) _ _ _ _ eq_refl),
    (bind_eq (gets _) _ _ _ _ eq_refl). rewrite (bind_eq _ _ _ (cursor_y s - 1) s) by (unfold int; by replace (_ && _)%bool with true by lia).
  eexists. split; [reflexivity|]. replace (if _ <? 0 then 0 else _) with (Z.max 0 (row d - 1)) by (destruct (_ <? 0) eqn:?; lia).
  apply shows_row; [done|lia].
Qed.
Lemma down_shows s d : shows s d → row d + 1 < R → ∃ s', csi_down [] s = Done (tt, s') ∧ shows s' (d <| row := row d + 1 |>).
Proof.
  intros Hs Hd. pose proof grid_limits. pose proof (sh_row_range _ _ Hs). pose proof (sh_row _ _ Hs) as Hrow. destruct Hdrawable.
  unfold csi_down, count_param, param. rewrite bind_bind, (bind_eq (mret 1) _ _ _ _ eq_refl), (bind_eq (mret _) _ _ _ _ eq_refl),
    (bind_eq (gets _) _ _ _ _ eq_refl). rewrite (bind_eq _ _ _ (cursor_y s + 1) s) by (unfold int; by replace (_ && _)%bool with true by lia).
  eexists. split; [reflexivity|]. replace (if VTERM_ROWS <=? _ then _ else _) with (row d + 1) by (destruct (_ <=? _) eqn:?; lia).
  apply shows_row; [done|lia].
Qed.

Lemma atoi_print n (s : screen) : 0 <= n < 2^30 → atoi (print_long n) s = Done (n, s).
Proof. intros Hn. unfold atoi. by rewrite strtol_print by lia. Qed.

Lemma right_shows n s d : shows s d → 1 <= n → col d + n < W →
  ∃ s', csi_right (print_long n) s = Done (tt, s') ∧ shows s' (d <| col := col d + n |>).
Proof.
  intros Hs Hn Hd. pose proof grid_limits. pose proof (sh_col_range _ _ Hs). pose proof (sh_col _ _ Hs) as Hcol. destruct Hdrawable.
  unfold csi_right, count_param, param. rewrite bind_bind.
  rewrite (bind_eq _ _ s n s).
  2:{ destruct (print_long n) eqn:Hp; [by destruct (print_long_nonempty n)|]. rewrite <- Hp. apply atoi_print. lia. }
  rewrite (bind_eq (mret _) _ _ _ _ eq_refl), (bind_eq (gets _) _ _ _ _ eq_refl). replace (Z.max n 1) with n by lia.
  rewrite (bind_eq _ _ _ (cursor_x s + n) s) by (unfold int; by replace (_ && _)%bool with true by lia).
  eexists. split; [reflexivity|]. replace (if VTERM_COLS <=? _ then _ else _) with (col d + n) by (destruct (_ <=? _) eqn:?; lia).
  apply shows_col; [done|lia].
Qed.

Lemma home_shows s d : shows s d → ∃ s', csi_position [] s = Done (tt, s') ∧ shows s' (d <| row := 0 |> <| col := 0 |>).
Proof.
  intros Hs. pose proof rows_pos. pose proof cols_pos. eexists. split; [reflexivity|]. destruct Hs. constructor; simpl; auto; lia.
Qed.

Lemma visible_lookup_cells l k c : Z.of_nat k < R * W → visible l !! k = Some c ↔ char_at l k = c.
Proof. intros Hk. rewrite lookup_visible by done. naive_solver. Qed.

(** The part of a row from a column on. *)
Lemma visible_filled l y x stop a :
  Z.of_nat (length l) = VTERM_ROWS * VTERM_COLS → 0 <= y < R → 0 <= x <= W → W <= stop <= VTERM_COLS →
  visible (filled (y * VTERM_COLS + x) (y * VTERM_COLS + stop) (Cell " " a) l) = filled (y * W + x) ((y + 1) * W) " "%char (visible l).
Proof.
  intros Hl Hy Hx Hstop. pose proof (length_visible_Z l) as Hlen. pose proof cols_pos.
  assert (Hrow : y * VTERM_COLS + stop <= VTERM_ROWS * VTERM_COLS).
  { destruct Hdrawable. assert (Hyr : 0 <= y < VTERM_ROWS) by lia. pose proof (row_bounds_full y Hyr). lia. }
  assert (Hin : (y + 1) * W <= R * W) by nia. assert (0 <= y * W) by nia. assert (0 <= y * VTERM_COLS) by nia.
  apply display_eq; [apply length_visible_Z|rewrite length_filled by lia; done|]. intros k Hk.
  rewrite lookup_visible by done. unfold char_at. rewrite lookup_filled by lia. rewrite lookup_filled by lia.
  pose proof (cell_at_row k y x stop Hk ltac:(lia) Hx ltac:(lia) ltac:(lia)) as Hiff.
  destruct (decide (y * VTERM_COLS + x <= Z.of_nat (cell_at k) < y * VTERM_COLS + stop)) as [Hc|Hc].
  - by rewrite decide_True by by apply Hiff.
  - rewrite decide_False by by rewrite <- Hiff. by rewrite lookup_visible.
Qed.

Lemma erase_shows s d : shows s d → ∃ s', csi_erase_line [] s = Done (tt, s') ∧
  shows s' (d <| shown := filled (row d * W + col d) ((row d + 1) * W) " "%char (shown d) |>).
Proof.
  intros Hs. pose proof (sh_row_range _ _ Hs). pose proof (sh_row _ _ Hs) as Hrow. pose proof (sh_col _ _ Hs) as Hcol.
  pose proof (sh_col_range _ _ Hs). pose proof (sh_cells _ _ Hs) as Hl. destruct Hdrawable.
  assert (Hyr : 0 <= row d < VTERM_ROWS) by lia. pose proof (row_bounds_full (row d) Hyr).
  unfold csi_erase_line, param. rewrite (bind_eq (mret 0) _ _ _ _ eq_refl), (bind_eq get _ _ _ _ eq_refl). cbv zeta. simpl (0 =? 0). cbv iota.
  rewrite fill_range_eq by lia. eexists. split; [reflexivity|].
  assert (Hv : visible (filled (row d * VTERM_COLS + col d) (row d * VTERM_COLS + VTERM_COLS) (Cell " " (current_attr s)) (cells s))
    = filled (row d * W + col d) ((row d + 1) * W) " "%char (visible (cells s))) by (apply visible_filled; [done|lia..]).
  destruct Hs. constructor; simpl; auto.
  - rewrite length_filled by lia. done.
  - rewrite Hrow, Hcol, sh_shown0. by rewrite <- Hv.
Qed.

Lemma clear_shows s d : shows s d → ∃ s', csi_erase_display $"2" s = Done (tt, s') ∧ shows s' (Display (spaces (R * W)) 0 0 false).
Proof.
  intros Hs. pose proof (sh_cells _ _ Hs) as Hl. unfold csi_erase_display. rewrite (bind_eq _ _ s 2 s) by done.
  simpl (2 =? 2). cbv iota. rewrite clear_eq by done. eexists. split; [reflexivity|]. pose proof rows_pos. pose proof cols_pos.
  destruct Hs. constructor; simpl; auto; try lia.
  - unfold blank_grid. rewrite length_replicate. lia.
  - apply display_eq; [unfold spaces; rewrite length_replicate; nia|apply length_visible_Z|]. intros k Hk.
    destruct (cell_at_bound k Hk) as (Hb & _). rewrite lookup_visible by done. unfold char_at, blank_grid, spaces.
    rewrite !lookup_replicate_2 by lia. done.
Qed.

Lemma colour_shows p s d : shows s d → sgr_params p → ∃ s', vterm_apply_sgr p s = Done (tt, s') ∧ shows s' d.
Proof.
  intros Hs Hp. destruct (wp_done _ _ _ (wp_apply_sgr (λ s', shows s' d) ltac:(by intros ? ? _ []) p s Hs Hp)) as ([] & s' & Hrun & Hs').
  by exists s'.
Qed.

(** * Characters *)

Lemma cell_at_position k y x :
  Z.of_nat k < R * W → 0 <= y → 0 <= x < W → (Z.of_nat (cell_at k) = y * VTERM_COLS + x ↔ Z.of_nat k = y * W + x).
Proof.
  intros Hk Hy Hx. destruct (cell_at_bound k Hk) as (_ & Heq & Hq & Hm). rewrite Heq. destruct Hdrawable.
  destruct (position_split (Z.of_nat k) ltac:(lia)) as [Hsplit _]. set (q := Z.of_nat k / W) in *. set (m := Z.of_nat k mod W) in *.
  split; intros Hr; assert (q = y) by nia; subst q; nia.
Qed.

Lemma visible_insert l y x c a :
  Z.of_nat (length l) = VTERM_ROWS * VTERM_COLS → 0 <= y < R → 0 <= x < W →
  visible (filled (y * VTERM_COLS + x) (y * VTERM_COLS + x + 1) (Cell c a) l) = <[Z.to_nat (y * W + x) := c]> (visible l).
Proof.
  intros Hl Hy Hx. pose proof (length_visible_Z l) as Hlen. pose proof cols_pos.
  assert (Hrow : y * VTERM_COLS + VTERM_COLS <= VTERM_ROWS * VTERM_COLS ∧ W <= VTERM_COLS).
  { destruct Hdrawable. assert (Hyr : 0 <= y < VTERM_ROWS) by lia. pose proof (row_bounds_full y Hyr). lia. }
  assert (Hin : y * W + x < R * W) by nia. assert (0 <= y * W) by nia. assert (0 <= y * VTERM_COLS) by nia.
  apply display_eq; [apply length_visible_Z|by rewrite length_insert|]. intros k Hk.
  rewrite lookup_visible by done. unfold char_at. rewrite lookup_filled by lia.
  assert (Hiff : Z.of_nat (cell_at k) = y * VTERM_COLS + x ↔ Z.of_nat k = y * W + x) by (apply cell_at_position; [done|lia..]).
  destruct (decide (Z.of_nat k = y * W + x)) as [Hc|Hc].
  - rewrite decide_True by (apply Hiff in Hc; lia). replace (Z.to_nat (y * W + x)) with k by lia. by rewrite list_lookup_insert_eq by lia.
  - rewrite decide_False by (intros Hd; apply Hc, Hiff; lia). rewrite list_lookup_insert_ne by lia. by rewrite lookup_visible.
Qed.

(** The grid after the whole screen has moved up. *)
Definition scrolled (l : list cell) : list cell :=
  filled ((R - 1) * VTERM_COLS) (R * VTERM_COLS) blank (moved_cells 0 VTERM_COLS ((R - 1) * VTERM_COLS) l).

Lemma rows_fit : 0 <= (R - 1) * VTERM_COLS ∧ (R - 1) * VTERM_COLS + VTERM_COLS = R * VTERM_COLS ∧
  R * VTERM_COLS <= VTERM_ROWS * VTERM_COLS ∧ 0 < VTERM_COLS.
Proof. destruct Hdrawable, Hconfig. split_and!; nia. Qed.

Lemma length_scrolled l : Z.of_nat (length l) = VTERM_ROWS * VTERM_COLS → length (scrolled l) = length l.
Proof. intros Hl. pose proof rows_fit. unfold scrolled. rewrite length_filled; rewrite ?length_moved; lia. Qed.

Lemma visible_scrolled l :
  Z.of_nat (length l) = VTERM_ROWS * VTERM_COLS → visible (scrolled l) = drop (Z.to_nat W) (visible l) ++ spaces W.
Proof.
  intros Hl. pose proof rows_fit as (Hf1 & Hf2 & Hf3 & Hf4). pose proof (length_visible_Z l) as Hlen. pose proof cols_pos. pose proof rows_pos.
  assert (Hlow : 0 <= (R - 1) * W ∧ (R - 1) * W + W = R * W) by nia.
  apply display_eq; [apply length_visible_Z|unfold spaces; rewrite length_app, length_drop, length_replicate; lia|]. intros k Hk.
  rewrite lookup_visible by done. unfold char_at, scrolled.
  destruct (cell_at_bound k Hk) as (Hb & Hcell & Hq & Hm). destruct (position_split (Z.of_nat k) ltac:(lia)) as [Hsplit _].
  rewrite lookup_filled by (rewrite ?length_moved; lia).
  destruct (decide (Z.of_nat k < (R - 1) * W)) as [Hup|Hlast].
  - assert (Hq' : Z.of_nat k / W < R - 1) by (apply Z.div_lt_upper_bound; lia).
    assert (Hup' : Z.of_nat (cell_at k) < (R - 1) * VTERM_COLS).
    { rewrite Hcell. destruct Hdrawable. set (q := Z.of_nat k / W) in *. nia. }
    rewrite decide_False by lia. rewrite lookup_moved by lia. rewrite decide_True by lia.
    rewrite lookup_app_l by (rewrite length_drop; lia). rewrite lookup_drop, lookup_visible by lia. unfold char_at. do 2 f_equal.
    + assert (Hnext : Z.of_nat (Z.to_nat W + k) < R * W) by lia.
      assert (He : Z.of_nat (cell_at (Z.to_nat W + k)) = (Z.of_nat k / W + 1) * VTERM_COLS + Z.of_nat k mod W).
      { apply cell_at_position; [done|lia|done|]. lia. }
      replace (Z.to_nat (VTERM_COLS + (Z.of_nat (cell_at k) - 0))) with (cell_at (Z.to_nat W + k)); [done|].
      apply Nat2Z.inj. rewrite He, Z2Nat.id by lia. rewrite Hcell. lia.
  - assert (Hq' : Z.of_nat k / W = R - 1) by (assert (R - 1 <= Z.of_nat k / W) by (apply Z.div_le_lower_bound; lia); lia).
    rewrite decide_True.
    2:{ rewrite Hcell, Hq'. destruct Hdrawable. lia. }
    rewrite lookup_app_r by (rewrite length_drop; lia). unfold spaces. rewrite lookup_replicate_2; [done|]. rewrite length_drop. lia.
Qed.

Lemma scroll_shows s d :
  shows s d → ∃ s', vterm_scroll s = Done (tt, s') ∧
    shows s' (d <| shown := drop (Z.to_nat W) (shown d) ++ spaces W |> <| row := R - 1 |>).
Proof.
  intros Hs. pose proof (sh_cells _ _ Hs) as Hl. pose proof rows_fit as (Hf1 & Hf2 & Hf3 & Hf4). pose proof rows_pos.
  unfold vterm_scroll.
  assert (Hhook : ∃ lost', (if scroll_hook then modify (λ s, s <| lost := lost s ++ [take (Z.to_nat VTERM_COLS) (cells s)] |>) else mret tt) s
    = Done (tt, s <| lost := lost' |>)).
  { destruct scroll_hook; [by eexists|]. exists (lost s). by destruct s. }
  destruct Hhook as [lost' Hhook]. rewrite (bind_eq _ _ _ _ _ Hhook). cbv zeta.
  rewrite (bind_eq _ _ _ _ _ (memmove_eq 0 VTERM_COLS ((R - 1) * VTERM_COLS) (s <| lost := lost' |>) ltac:(done) ltac:(lia) ltac:(simpl; lia) ltac:(done) ltac:(simpl; lia))).
  erewrite bind_eq; [|apply fill_range_eq; [lia|simpl; rewrite length_moved; lia]].
  eexists. split; [reflexivity|]. destruct Hs. constructor; simpl; auto; try lia.
  - change (Z.of_nat (length (scrolled (cells s))) = VTERM_ROWS * VTERM_COLS). by rewrite length_scrolled.
  - rewrite sh_shown0. symmetry. by apply visible_scrolled.
Qed.

Lemma line_feed_shows s d :
  shows s d → wrapping d = true →
  ∃ s', vterm_line_feed (s <| pending_wrap := false |> <| cursor_x := 0 |>) = Done (tt, s') ∧ shows s' (next_row d).
Proof.
  intros Hs Hw. pose proof (sh_row _ _ Hs) as Hrow. pose proof (sh_row_range _ _ Hs). pose proof cols_pos.
  set (s0 := s <| pending_wrap := false |> <| cursor_x := 0 |>).
  assert (Hs0 : shows s0 (d <| col := 0 |> <| wrapping := false |>)) by (destruct Hs; by constructor).
  unfold vterm_line_feed, next_row. rewrite Hw, (bind_eq get _ _ _ _ eq_refl).
  assert (Hbot : region_bottom s0 = R) by (unfold region_bottom; simpl; by rewrite (sh_bottom _ _ Hs)).
  rewrite Hbot. change (cursor_y s0) with (cursor_y s). rewrite Hrow. destruct (row d + 1 <? R) eqn:Hlast.
  - replace (row d =? R - 1) with false by lia. replace (row d <? R - 1) with true by lia. eexists. split; [reflexivity|].
    destruct Hs0. constructor; simpl in *; auto; lia.
  - replace (row d =? R - 1) with true by lia. unfold vterm_scroll_region_up.
    rewrite (bind_eq (gets _) _ _ _ _ eq_refl), (bind_eq (gets _) _ _ _ _ eq_refl), Hbot.
    replace (scroll_top s0) with 0 by (simpl; by rewrite (sh_top _ _ Hs)). rewrite !Z.eqb_refl. cbn [andb].
    destruct (scroll_shows s0 _ Hs0) as (s' & Hrun & Hs'). exists s'. split; [done|].
    destruct Hs'. constructor; simpl in *; auto; lia.
Qed.

Lemma line_feed_parser s s' :
  vterm_line_feed (s <| pending_wrap := false |> <| cursor_x := 0 |>) = Done (tt, s') → escape_state s' = escape_state s.
Proof.
  change (s <| pending_wrap := false |> <| cursor_x := 0 |>) with (set_pen 0 (current_attr s) (escape_state s) false s).
  rewrite line_feed_ignores_pen. destruct (vterm_line_feed s) as [[[] t]| |]; simpl; [|done..]. by intros [= <-].
Qed.

Lemma print_displays c s d : displays s d → isprint c = true → ∃ s', put_char c s = Done (tt, s') ∧ displays s' (print_char c d).
Proof.
  intros [Hs Hst] Hc.
  rewrite put_char_printable by done. unfold put_printable. rewrite (bind_eq get _ _ _ _ eq_refl).
  assert (Hnext : ∃ s1, (if pending_wrap s then put (s <| pending_wrap := false |> <| cursor_x := 0 |>);; vterm_line_feed else mret tt) s = Done (tt, s1)
    ∧ shows s1 (next_row d) ∧ escape_state s1 = 0).
  { rewrite (sh_wrap _ _ Hs). destruct (wrapping d) eqn:Hw.
    - rewrite (bind_eq (put _) _ _ _ _ eq_refl). destruct (line_feed_shows s d Hs Hw) as (s1 & Hrun & Hs1). exists s1.
      split; [done|]. split; [done|]. rewrite <- Hst. by apply (line_feed_parser s).
    - exists s. unfold next_row. by rewrite Hw. }
  destruct Hnext as (s1 & Hrun & Hs1 & Hw1). rewrite (bind_eq _ _ _ _ _ Hrun), (bind_eq get _ _ _ _ eq_refl).
  unfold print_char. set (d1 := next_row d) in *. clearbody d1. clear Hrun Hs.
  pose proof (sh_row _ _ Hs1) as Hrow. pose proof (sh_col _ _ Hs1) as Hcol. pose proof (sh_cells _ _ Hs1) as Hl.
  pose proof (sh_row_range _ _ Hs1) as Hrr. pose proof (sh_col_range _ _ Hs1) as Hcr. rewrite Hrow, Hcol.
  assert (Hin : 0 <= row d1 * VTERM_COLS + col d1 < VTERM_ROWS * VTERM_COLS).
  { destruct Hdrawable. assert (Hyr : 0 <= row d1 < VTERM_ROWS) by lia. pose proof (row_bounds_full _ Hyr). lia. }
  erewrite bind_eq; [|apply set_cell_eq; lia].
  set (l := filled _ _ _ (cells s1)).
  assert (Hl' : length l = length (cells s1)) by (apply length_filled; lia).
  assert (Hv : visible l = <[Z.to_nat (row d1 * W + col d1) := c]> (shown d1)).
  { rewrite (sh_shown _ _ Hs1). by apply visible_insert. }
  simpl cursor_x. simpl row. simpl col. destruct (W <=? col d1 + 1) eqn:Hedge; (eexists; split; [reflexivity|]);
    (split; [|done]); destruct Hs1; constructor; simpl in *; auto; first [by rewrite Hl'|lia].
Qed.

Lemma sgr_byte_plain c : sgr_byte c = true → isalpha c = false ∧ c ≠ NUL ∧ c ≠ "?"%char.
Proof.
  unfold sgr_byte. intros [Hd|Hd]%orb_true_iff; [|apply bool_decide_eq_true in Hd as ->; done].
  split_and!; [|by intros ->..].
  revert Hd. unfold isdigit, isalpha, isupper, islower, between.
  assert (Hcodes : code "0" = 48 ∧ code "9" = 57 ∧ code "A" = 65 ∧ code "Z" = 90 ∧ code "a" = 97 ∧ code "z" = 122) by done.
  destruct Hcodes as (-> & -> & -> & -> & -> & ->). lia.
Qed.
Lemma sgr_plain p : Forall (λ c, sgr_byte c = true) p → (length p < ESCAPE_BUF_SIZE - 1)%nat → plain_params p.
Proof.
  intros Hp Hl. split; [|split; [|done]].
  - eapply Forall_impl; [exact Hp|]. intros c Hc. by destruct (sgr_byte_plain c Hc) as (? & ? & _).
  - destruct Hp as [|c p Hc _]; [done|]. intros [= ->]. by destruct (sgr_byte_plain _ Hc) as (_ & _ & ?).
Qed.

Lemma length_print_digits f n t : (length (print_digits f n t) ≤ f + length t)%nat.
Proof.
  revert n t. induction f as [|f IH]; intros n t; [done|]. cbn [print_digits]. destruct (n <? 10); [simpl; lia|].
  specialize (IH (n / 10) (digit_char (n mod 10) :: t)). simpl in *. lia.
Qed.
Lemma print_plain n : 0 <= n < 2^30 → plain_params (print_long n).
Proof.
  intros Hn. unfold print_long. replace (n <? 0) with false by lia.
  destruct (print_digits_spec 20 n []) as (t & Ht & _ & Hd & _); [lia|lia|]. pose proof (length_print_digits 20 n []) as Hl.
  rewrite Ht, app_nil_r in *. apply sgr_plain; [|unfold ESCAPE_BUF_SIZE; simpl in *; lia].
  eapply Forall_impl; [exact Hd|]. intros c Hc. unfold sgr_byte. by rewrite Hc.
Qed.

Lemma return_displays s d : displays s d → ∃ s', put_char "013" s = Done (tt, s') ∧ displays s' (run Return d).
Proof.
  intros [Hs Hst]. pose proof cols_pos. unfold put_char, vterm_handle_escape. rewrite bind_bind, (bind_eq (gets _) _ _ _ _ eq_refl), Hst.
  change (0 =? 0) with true. cbv iota. rewrite bool_decide_eq_false_2 by done. rewrite (bind_eq (mret false) _ _ _ _ eq_refl). cbv iota.
  unfold vterm_putchar_internal. rewrite (bind_eq get _ _ _ _ eq_refl). rewrite andb_false_r.
  rewrite (bind_eq (mret tt) _ _ _ _ eq_refl), (bind_eq get _ _ _ _ eq_refl). eexists. split; [reflexivity|]. split; [|done].
  destruct Hs. constructor; simpl; auto; lia.
Qed.

Lemma put_one c s : put_chars [c] s = put_char c s.
Proof. unfold put_chars. cbn [for_list]. unfold mbind, M_bind. by destruct (put_char c s) as [[[] t]| |]. Qed.

(** Each command has its effect on the display. *)
Lemma command_displays c s d :
  displays s d → legal c d → ∃ s', put_chars (bytes_of c) s = Done (tt, s') ∧ displays s' (run c d).
Proof.
  intros Hd Hl. pose proof grid_limits. destruct c as [c| | | | |n|p| |]; cbn [bytes_of run legal] in *.
  - rewrite put_one. by apply print_displays.
  - rewrite put_one. by apply return_displays.
  - apply (sequence_displays [] "A" s d); [done..|]. intros s1 Hs1. exact (up_shows s1 _ Hs1).
  - apply (sequence_displays [] "B" s d); [done..|]. intros s1 Hs1. exact (down_shows s1 _ Hs1 Hl).
  - apply (sequence_displays [] "K" s d); [done..|]. intros s1 Hs1. exact (erase_shows s1 _ Hs1).
  - pose proof (sh_col_range _ _ (proj1 Hd)). apply (sequence_displays (print_long n) "C" s d); [done|apply print_plain; lia|done|].
    intros s1 Hs1. exact (right_shows n s1 _ Hs1 (proj1 Hl) (proj2 Hl)).
  - destruct Hl as [Hp Hl]. apply (sequence_displays p "m" s d); [done|apply sgr_plain; [apply Hp|done]|done|].
    intros s1 Hs1. by apply colour_shows.
  - apply (sequence_displays $"2" "J" s d); [done| |done|].
    { split; [by repeat constructor|]. split; [done|]. unfold ESCAPE_BUF_SIZE. simpl. lia. }
    intros s1 Hs1. exact (clear_shows s1 _ Hs1).
  - apply (sequence_displays [] "H" s d); [done..|]. intros s1 Hs1. exact (home_shows s1 _ Hs1).
Qed.

(** * Sequences of commands *)

Definition run_all (cs : list command) (d : display) : display := foldl (λ d c, run c d) d cs.
Fixpoint legal_all (cs : list command) (d : display) : Prop :=
  match cs with [] => True | c :: cs => legal c d ∧ legal_all cs (run c d) end.
Definition bytes_of_all (cs : list command) : text := concat (bytes_of <$> cs).

Lemma run_all_app cs cs' d : run_all (cs ++ cs') d = run_all cs' (run_all cs d).
Proof. apply foldl_app. Qed.
Lemma legal_all_app cs cs' d : legal_all (cs ++ cs') d ↔ legal_all cs d ∧ legal_all cs' (run_all cs d).
Proof. revert d. induction cs as [|c cs IH]; intros d; simpl; [tauto|]. rewrite IH. unfold run_all. simpl. tauto. Qed.
Lemma bytes_of_all_app cs cs' : bytes_of_all (cs ++ cs') = bytes_of_all cs ++ bytes_of_all cs'.
Proof. unfold bytes_of_all. by rewrite fmap_app, concat_app. Qed.

(** The terminal carries out every sequence of the commands that its programs use.  On
    a screen without a scroll region, outside an escape sequence, the bytes of printable
    characters, carriage returns, cursor movements that stay on the display, erasures,
    colours and clearing of the screen change the visible grid and the cursor as the
    abstract display does, where a character beyond the last column goes to the next row,
    one beyond the last row moves all rows up, and nothing outside the addressed part of
    the display changes, on every grid, however wide or high the visible part is. *)
Lemma vterm_carries_out_commands cs s d :
  displays s d → legal_all cs d → ∃ s', screen_write (bytes_of_all cs) s = Done (tt, s') ∧ displays s' (run_all cs d).
Proof.
  rewrite screen_write_chars. revert s d. induction cs as [|c cs IH]; intros s d Hd Hl; [by exists s|].
  destruct Hl as [Hc Hl]. destruct (command_displays c s d Hd Hc) as (s1 & Hrun & Hs1).
  change (bytes_of_all (c :: cs)) with (bytes_of c ++ bytes_of_all cs).
  rewrite put_chars_app, (bind_eq _ _ _ _ _ Hrun). by apply IH.
Qed.
End display.

Section demo.
#[local] Existing Instance spiram_config.
#[local] Existing Instance panel.

Definition blank_display : display := Display (replicate 1590 " "%char) 0 0 false.
Lemma blank_start_displays : displays blank_start blank_display.
Proof. split; [|done]. by constructor; vm_compute.  Qed.

End demo.
