(* ===== verification/LineOnScreen.v ===== *)
(** Editing a line on the terminal: what the line editor's redrawing does to a display, and
    that, whatever is typed at the prompt and however the line wraps and scrolls, the terminal
    shows the prompt and the edited line. *)

From S2P Require Import Prelude Text Vterm VtermSafety LineEditor VtermDisplay.

Section layout.
Context `{HC : Config} {Hconfig : ConfigOk} `{HD : Drawable} {Hdrawable : DrawableOk}.
Notation R := effective_rows.
Notation W := effective_cols.
Notation len l := (Z.of_nat (length l)).

(** * Positions *)

(** The cursor stands before the character number [pos] of the display. *)
Record at_pos (d : display) (pos : Z) : Prop := {
  at_sum : row d * W + col d + (if wrapping d then 1 else 0) = pos;
  at_wrap : wrapping d = true → col d = W - 1;
  at_row : 0 <= row d < R;
  at_col : 0 <= col d < W;
}.
(** ... just after printing the character before. *)
Definition after_print (d : display) : Prop := wrapping d = true ∨ 0 < col d.
(** A text from the top, and blanks. *)
Definition filled_with (t : text) (d : display) : Prop := shown d = t ++ spaces (R * W - len t) ∧ len t <= R * W.

Lemma area_pos : 0 < R * W ∧ W <= R * W.
Proof. pose proof rows_pos. pose proof cols_pos. nia. Qed.

Lemma insert_blank t n c : 0 < n → <[length t := c]> (t ++ spaces n) = (t ++ [c]) ++ spaces (n - 1).
Proof.
  intros Hn. unfold spaces. replace (Z.to_nat n) with (S (Z.to_nat (n - 1))) by lia. simpl.
  rewrite insert_app_r_alt, Nat.sub_diag by lia. simpl. by rewrite <- app_assoc.
Qed.

Lemma spaces_app n m : 0 <= n → 0 <= m → spaces n ++ spaces m = spaces (n + m).
Proof. intros Hn Hm. unfold spaces. by rewrite <- replicate_add, Z2Nat.inj_add by lia. Qed.

(** One character at the end of what is there. *)
Lemma print_at_end c t d :
  filled_with t d → at_pos d (len t) →
  ∃ k : nat, let t' := drop (k * Z.to_nat W) (t ++ [c]) in
    filled_with t' (print_char c d) ∧ at_pos (print_char c d) (len t') ∧ after_print (print_char c d) ∧
    (k = 0%nat ∨ (R - 1) * W < len t') ∧ (k * Z.to_nat W ≤ length t)%nat.
Proof.
  intros [Hshown Hlen] [Hsum Hwrap Hrow Hcol]. pose proof rows_pos. pose proof cols_pos.
  destruct (decide (len t < R * W)) as [Hroom|Hfull].
  - exists 0%nat. rewrite drop_0. cbv zeta.
    assert (Hnext : row (next_row d) * W + col (next_row d) = len t ∧ wrapping (next_row d) = false ∧ shown (next_row d) = shown d ∧
      0 <= row (next_row d) < R ∧ 0 <= col (next_row d) < W).
    { unfold next_row. destruct (wrapping d) eqn:Hw; [|split_and!; simpl; done || lia].
      specialize (Hwrap eq_refl). destruct (row d + 1 <? R) eqn:Hlast; simpl; [split_and!; done || nia|].
      exfalso. assert (row d = R - 1) by lia. nia. }
    destruct Hnext as (Hpos & Hnw & Hns & Hnr & Hnc). unfold print_char. set (d1 := next_row d) in *.
    assert (Hsh : <[Z.to_nat (row d1 * W + col d1) := c]> (shown d1) = (t ++ [c]) ++ spaces (R * W - len (t ++ [c]))).
    { rewrite Hpos, Nat2Z.id, Hns, Hshown. rewrite insert_blank by lia. do 2 f_equal. rewrite length_app. simpl. lia. }
    assert (Hl1 : len (t ++ [c]) = len t + 1) by (rewrite length_app; simpl; lia).
    simpl col. simpl row. destruct (W <=? col d1 + 1) eqn:Hedge.
    + split_and!; [by split; simpl; [|lia]|split; simpl; lia|by left|by left|lia].
    + split_and!; [by split; simpl; [|lia]|split; simpl; rewrite ?Hnw; try done; lia|right; simpl; lia|by left|lia].
  - assert (Hfull' : len t = R * W) by lia. exists 1%nat. rewrite Nat.mul_1_l. cbv zeta.
    assert (Hw : wrapping d = true ∧ row d = R - 1 ∧ col d = W - 1).
    { destruct (wrapping d) eqn:Hw; [specialize (Hwrap eq_refl)|]; split_and!; try done; nia. }
    destruct Hw as (Hw & Hr & Hc). unfold print_char, next_row. rewrite Hw. replace (row d + 1 <? R) with false by lia. simpl row. simpl col. simpl shown.
    assert (Htl : (Z.to_nat W ≤ length t)%nat) by nia.
    assert (Hdrop : drop (Z.to_nat W) (t ++ [c]) = drop (Z.to_nat W) t ++ [c]) by (by rewrite drop_app_le).
    assert (Hdl : len (drop (Z.to_nat W) t) = R * W - W) by (rewrite length_drop; lia).
    assert (Hl1 : len (drop (Z.to_nat W) (t ++ [c])) = R * W - W + 1) by (rewrite Hdrop, length_app; simpl; lia).
    assert (Hsh : <[Z.to_nat (row d * W + 0) := c]> (drop (Z.to_nat W) (shown d) ++ spaces W)
      = drop (Z.to_nat W) (t ++ [c]) ++ spaces (R * W - len (drop (Z.to_nat W) (t ++ [c])))).
    { rewrite Hshown, Hfull', Z.sub_diag. unfold spaces at 1. simpl replicate. rewrite app_nil_r.
      replace (Z.to_nat (row d * W + 0)) with (length (drop (Z.to_nat W) t)) by nia.
      rewrite insert_blank by lia. rewrite Hdrop. do 2 f_equal. rewrite length_app. simpl. lia. }
    assert (HRW : (R - 1) * W = R * W - W) by lia.
    destruct (W <=? 0 + 1) eqn:Hedge.
    + split_and!; [by split; simpl; [|lia]|split; simpl; nia|by left|right; lia|done].
    + split_and!; [by split; simpl; [|lia]|split; simpl; try done; nia|right; simpl; lia|right; lia|done].
Qed.

(** A text at the end of what is there. *)
Lemma print_text_at_end u t d :
  filled_with t d → at_pos d (len t) → Forall (λ c, isprint c = true) u →
  ∃ k : nat, let t' := drop (k * Z.to_nat W) (t ++ u) in let d' := run_all (Print <$> u) d in
    filled_with t' d' ∧ at_pos d' (len t') ∧ (u ≠ [] → after_print d') ∧ legal_all (Print <$> u) d ∧
    (k = 0%nat ∨ (R - 1) * W < len t') ∧ (k * Z.to_nat W ≤ length (t ++ u))%nat.
Proof.
  intros Hf Hp Hu. revert t d Hf Hp. induction Hu as [|c u Hc Hu IH]; intros t d Hf Hp.
  { exists 0%nat. rewrite app_nil_r, drop_0. cbv zeta. split_and!; try done; [by left|lia]. }
  destruct (print_at_end c t d Hf Hp) as (k1 & Hf1 & Hp1 & Ha1 & Hk1 & Hle1). cbv zeta in *.
  destruct (IH _ _ Hf1 Hp1) as (k2 & Hf2 & Hp2 & Ha2 & Hl2 & Hk2 & Hle2). cbv zeta in *.
  exists (k1 + k2)%nat. cbv zeta.
  assert (Hdrop : drop (k2 * Z.to_nat W) (drop (k1 * Z.to_nat W) (t ++ [c]) ++ u) = drop ((k1 + k2) * Z.to_nat W) (t ++ c :: u)).
  { replace (t ++ c :: u) with ((t ++ [c]) ++ u) by (by rewrite <- app_assoc).
    rewrite <- (drop_app_le (t ++ [c]) u (k1 * Z.to_nat W)) by (rewrite length_app; lia).
    rewrite drop_drop. f_equal. lia. }
  rewrite Hdrop in Hf2, Hp2, Hk2. split_and!; try done.
  - intros _. destruct u as [|c' u]; [|by apply Ha2]. exact Ha1.
  - destruct Hk2 as [->|Hk2]; [|by right]. destruct Hk1 as [->|Hk1]; [by left|right].
    rewrite Nat.add_0_r. rewrite <- Hdrop in Hp2. simpl Nat.mul in Hp2.
    destruct Hp2. revert Hk1.
    replace (t ++ c :: u) with ((t ++ [c]) ++ u) by (by rewrite <- app_assoc).
    rewrite (drop_app_le (t ++ [c]) u) by (rewrite length_app; lia). rewrite length_app. lia.
  - rewrite !length_app, length_drop, length_app in *. simpl in *. lia.
Qed.

(** * Clearing the rows of the line *)

Definition times (n : nat) (cs : list command) : list command := concat (replicate n cs).
Fixpoint erase_commands (n : nat) : list command :=
  match n with O => [] | S n => EraseRight :: (match n with O => [] | S _ => [DownRow] end) ++ erase_commands n end.

(** Going up from a row that is there, without a pending wrap. *)
Lemma run_up_eq n d :
  wrapping d = false → 0 <= row d →
  run_all (times n [UpRow]) d = d <| row := Z.max 0 (row d - Z.of_nat n) |> ∧ legal_all (times n [UpRow]) d.
Proof.
  intros Hw. revert d Hw. induction n as [|n IH]; intros d Hw Hr.
  - split; [|done]. destruct d; unfold set_field; simpl in *. f_equal. lia.
  - change (times (S n) [UpRow]) with (UpRow :: times n [UpRow]). cbn [legal_all]. unfold run_all. cbn [foldl]. fold (run_all (times n [UpRow]) (run UpRow d)).
    destruct (IH (run UpRow d)) as [Hrun Hl]; [done|simpl; lia|]. split; [|by split]. rewrite Hrun.
    destruct d; unfold set_field; simpl in *. subst. f_equal. lia.
Qed.

Lemma filled_row (A u : text) y :
  len A = y * W → W <= len u →
  filled (y * W + 0) ((y + 1) * W) " "%char (A ++ u) = (A ++ spaces W) ++ drop (Z.to_nat W) u.
Proof.
  intros HA Hu. pose proof cols_pos. unfold filled, spaces. rewrite Z.add_0_r.
  replace (Z.to_nat (y * W)) with (length A) by lia. rewrite take_app_length.
  replace (Z.to_nat ((y + 1) * W - y * W)) with (Z.to_nat W) by lia.
  rewrite drop_app_ge by nia. replace (Z.to_nat ((y + 1) * W) - length A)%nat with (Z.to_nat W) by nia. by rewrite <- app_assoc.
Qed.

Lemma run_erase n A u d y :
  shown d = A ++ u → len A = y * W → len A + len u = R * W → row d = y → col d = 0 → wrapping d = false → 0 <= y →
  y + Z.of_nat (S n) <= R →
  run_all (erase_commands (S n)) d =
    d <| shown := (A ++ spaces (Z.of_nat (S n) * W)) ++ drop (S n * Z.to_nat W) u |> <| row := y + Z.of_nat n |> ∧
  legal_all (erase_commands (S n)) d.
Proof.
  pose proof cols_pos as HW. revert A u d y. induction n as [|n IH]; intros A u d y Hs HA Hlen Hr Hc Hw Hy Hle.
  - assert (W <= len u) by nia. split; [|done]. unfold run_all. cbn [erase_commands app foldl run]. rewrite Hs, Hr, Hc, filled_row by lia.
    destruct d; unfold set_field; simpl in *. subst. rewrite Z.mul_1_l, Nat.add_0_r. f_equal. lia.
  - assert (W <= len u) by nia. change (erase_commands (S (S n))) with ([EraseRight; DownRow] ++ erase_commands (S n)).
    rewrite run_all_app, legal_all_app.
    set (d1 := run_all [EraseRight; DownRow] d).
    assert (Hd1 : d1 = d <| shown := (A ++ spaces W) ++ drop (Z.to_nat W) u |> <| row := y + 1 |>).
    { unfold d1, run_all. cbn [foldl run]. rewrite Hs, Hr, Hc, filled_row by lia. destruct d; unfold set_field; simpl in *. by subst. }
    assert (Hsp : len (spaces W) = W) by (unfold spaces; rewrite length_replicate; lia).
    destruct (IH (A ++ spaces W) (drop (Z.to_nat W) u) d1 (y + 1)) as [Hrun Hl].
    + by rewrite Hd1.
    + rewrite length_app. lia.
    + rewrite length_app, length_drop. lia.
    + by rewrite Hd1.
    + by rewrite Hd1.
    + by rewrite Hd1.
    + lia.
    + lia.
    + split.
      * rewrite Hrun, Hd1. rewrite drop_drop, <- (app_assoc A), spaces_app by nia.
        replace (Z.to_nat W + S n * Z.to_nat W)%nat with (S (S n) * Z.to_nat W)%nat by lia.
        replace (W + Z.of_nat (S n) * W) with (Z.of_nat (S (S n)) * W) by lia.
        replace (y + 1 + Z.of_nat n) with (y + Z.of_nat (S n)) by lia. done.
      * split; [|done]. cbn [legal_all legal]. split; [done|]. split; [|done]. simpl. lia.
Qed.

(** [clear_text]: carriage return, up to the first row, erase the rows, back up. *)
Definition clear_commands (up rows : nat) : list command :=
  [Return] ++ times up [UpRow] ++ erase_commands rows ++ times (rows - 1) [UpRow] ++ [Return].

Lemma run_clear_rows up n A u d y :
  shown d = A ++ u → len A = y * W → len A + len u = R * W → 0 <= row d → Z.max 0 (row d - Z.of_nat up) = y →
  y + Z.of_nat (S n) <= R → drop (S n * Z.to_nat W) u = spaces (len u - Z.of_nat (S n) * W) →
  run_all (clear_commands up (S n)) d = Display (A ++ spaces (len u)) y 0 false ∧ legal_all (clear_commands up (S n)) d.
Proof.
  pose proof cols_pos as HW. intros Hs HA Hlen Hr Hup Hle Hu. unfold clear_commands. rewrite !run_all_app, !legal_all_app.
  set (d1 := run_all [Return] d). assert (Hd1 : d1 = d <| col := 0 |> <| wrapping := false |>) by done.
  destruct (run_up_eq up d1) as [Hrun2 Hl2]; [by rewrite Hd1|by rewrite Hd1|]. rewrite Hrun2.
  set (d2 := d1 <| row := _ |>).
  assert (Hd2 : shown d2 = A ++ u ∧ row d2 = y ∧ col d2 = 0 ∧ wrapping d2 = false) by (unfold d2; rewrite Hd1; simpl; split_and!; done).
  destruct Hd2 as (Hd2s & Hd2r & Hd2c & Hd2w).
  destruct (run_erase n A u d2 y) as [Hrun3 Hl3]; [done|done|done|done|done|done|lia|done|]. rewrite Hrun3.
  set (d3 := d2 <| shown := _ |> <| row := _ |>).
  replace (S n - 1)%nat with n by lia.
  destruct (run_up_eq n d3) as [Hrun4 Hl4]; [done|simpl; lia|]. rewrite Hrun4. split.
  - unfold d3, run_all. simpl foldl. destruct d2; unfold set_field; simpl in *. subst.
    f_equal; [|lia]. rewrite Hu, <- app_assoc. f_equal. rewrite spaces_app by nia. f_equal. lia.
  - split_and!; done.
Qed.

(** * The prompt *)

(** A prompt consists of printable characters and colours. *)
Definition prompt_command (c : command) : Prop :=
  match c with
  | Print c => isprint c = true
  | Colour p => sgr_params p ∧ (length p < ESCAPE_BUF_SIZE - 1)%nat
  | _ => False
  end.
Definition printed (c : command) : option ascii := match c with Print c => Some c | _ => None end.
Definition visible_of (cs : list command) : text := omap printed cs.

Lemma visible_print c cs : visible_of (Print c :: cs) = c :: visible_of cs.
Proof. done. Qed.
Lemma visible_colour p cs : visible_of (Colour p :: cs) = visible_of cs.
Proof. done. Qed.

Lemma width_params p q :
  Forall (λ c, sgr_byte c = true) p → width_from true (p ++ "m"%char :: q) = width_from false q.
Proof.
  induction 1 as [|c p Hc Hp IH]; [done|]. cbn [app width_from].
  assert (csi_final c = false) as ->; [|done].
  revert Hc. unfold sgr_byte, isdigit, csi_final, between.
  assert (Hcodes : code "0" = 48 ∧ code "9" = 57 ∧ code "@" = 64 ∧ code "~" = 126) by done. destruct Hcodes as (-> & -> & -> & ->).
  intros [Hd|Hd]%orb_true_iff; [lia|]. apply bool_decide_eq_true in Hd as ->. done.
Qed.

(** [printableWidth] counts what the prompt shows. *)
Lemma prompt_width cs :
  Forall prompt_command cs → printableWidth (bytes_of_all cs) = Some (len (visible_of cs)).
Proof.
  unfold printableWidth. induction 1 as [|c cs Hc Hcs IH]; [done|].
  change (bytes_of_all (c :: cs)) with (bytes_of c ++ bytes_of_all cs).
  destruct c as [c| | | | |n|p| |]; cbn [prompt_command] in Hc; try done; cbn [bytes_of]; rewrite ?visible_print, ?visible_colour.
  - cbn [app width_from]. rewrite bool_decide_eq_false_2 by by intros ->. rewrite IH. simpl. f_equal. unfold visible_of. lia.
  - destruct Hc as [[_ Hp] _]. unfold sequence. cbn [app width_from]. rewrite bool_decide_eq_true_2 by done.
    rewrite bool_decide_eq_true_2 by done. rewrite <- app_assoc. cbn [app]. by rewrite width_params.
Qed.

Lemma run_prompt cs A d y i :
  Forall prompt_command cs → filled_with A d → d = Display (shown d) y i false → len A = y * W + i → 0 <= y < R → 0 <= i →
  i + len (visible_of cs) < W →
  run_all cs d = Display ((A ++ visible_of cs) ++ spaces (R * W - len (A ++ visible_of cs))) y (i + len (visible_of cs)) false ∧
  legal_all cs d ∧ len (A ++ visible_of cs) <= R * W.
Proof.
  intros Hcs. revert A d i. induction Hcs as [|c cs Hc Hcs IH]; intros A d i [Hs Hl] Hd HA Hy Hi Hfit.
  { change (visible_of []) with (@nil ascii). rewrite app_nil_r, Z.add_0_r, <- Hs. by split. }
  change (run_all (c :: cs) d) with (run_all cs (run c d)). cbn [legal_all].
  destruct c as [c| | | | |n|p| |]; cbn [prompt_command] in Hc; try done; rewrite ?visible_print, ?visible_colour in *.
  - assert (Hroom : len A < R * W) by (cbn [length] in Hfit; nia).
    set (d1 := run (Print c) d).
    assert (Hd1 : d1 = Display ((A ++ [c]) ++ spaces (R * W - len (A ++ [c]))) y (i + 1) false).
    { unfold d1. rewrite Hd. cbn [run]. unfold print_char, next_row. simpl. replace (W <=? i + 1) with false by (cbn [length] in Hfit; lia).
      unfold set_field. simpl. f_equal. rewrite Hs, <- HA, Nat2Z.id, insert_blank by lia. do 2 f_equal. rewrite length_app. simpl. lia. }
    assert (Hl1 : len (A ++ [c]) = len A + 1) by (rewrite length_app; simpl; lia).
    destruct (IH (A ++ [c]) d1 (i + 1)) as (Hrun & Hleg & Hlen).
    + rewrite Hd1. split; [done|]. lia.
    + by rewrite Hd1.
    + lia.
    + done.
    + lia.
    + cbn [length] in Hfit. lia.
    + assert (Happ : (A ++ [c]) ++ visible_of cs = A ++ c :: visible_of cs) by by rewrite <- app_assoc.
      rewrite Happ in Hrun, Hlen. split; [|done]. rewrite Hrun. f_equal. cbn [length]. lia.
  - set (d1 := run (Colour p) d). assert (Hd1 : d1 = d) by (unfold d1; rewrite Hd; done). rewrite Hd1.
    destruct (IH A d i) as (Hrun & Hleg & Hlen); done.
Qed.

(** * The cursor in the line *)

Lemma run_up_any n d :
  0 <= row d → shown (run_all (times n [UpRow]) d) = shown d ∧ row (run_all (times n [UpRow]) d) = Z.max 0 (row d - Z.of_nat n) ∧
    legal_all (times n [UpRow]) d.
Proof.
  revert d. induction n as [|n IH]; intros d Hr; [split_and!; simpl; done || lia|].
  change (times (S n) [UpRow]) with (UpRow :: times n [UpRow]). change (run_all (UpRow :: times n [UpRow]) d) with (run_all (times n [UpRow]) (run UpRow d)).
  destruct (IH (run UpRow d)) as (Hs & Hrow & Hl); [simpl; lia|]. split_and!; [by rewrite Hs|rewrite Hrow; simpl; lia|by split].
Qed.

(** The text [t] after the rows of [A], from row [y] on, with the cursor before its
    character number [k]. *)
Record lays (y : Z) (A t : text) (k : Z) (d : display) : Prop := {
  la_filled : filled_with (A ++ t) d;
  la_above : len A = y * W;
  la_top : 0 <= y < R;
  la_cursor : 0 <= k <= len t;
  la_inside : k < len t → row d = y + k / W ∧ col d = k mod W ∧ wrapping d = false;
  la_end : k = len t → at_pos d (len (A ++ t)) ∧ (if decide (t = []) then wrapping d = false else after_print d);
}.

Lemma end_row y (A t : text) d :
  len A = y * W → at_pos d (len (A ++ t)) → t ≠ [] → after_print d → row d = y + (len t - 1) / W.
Proof.
  intros HA [Hsum Hwrap Hr Hc] Hne Hafter. rewrite length_app in Hsum. pose proof cols_pos.
  assert (Ht : len t - 1 = (row d - y) * W + (col d + (if wrapping d then 1 else 0) - 1)) by lia.
  assert (Hb : 0 <= col d + (if wrapping d then 1 else 0) - 1 < W).
  { destruct Hafter as [Hw|Hcol]; [specialize (Hwrap Hw); rewrite Hw; lia|]. destruct (wrapping d); lia. }
  rewrite Ht. destruct (position_div (row d - y) _ Hb) as [-> _]. lia.
Qed.

(** [place_text] *)
Definition place_commands (total target : Z) : list command :=
  times (Z.to_nat (last_row W total - target / W)) [UpRow] ++ [Return] ++
  (if target mod W =? 0 then [] else [MoveRight (target mod W)]).

Lemma run_place y (A t : text) k d :
  lays y A t (len t) d → 0 <= k < len t →
  lays y A t k (run_all (place_commands (len t) k) d) ∧ legal_all (place_commands (len t) k) d.
Proof.
  intros [Hf HA Hy _ _ Hend] Hk. destruct (Hend eq_refl) as [Hp Hafter]. pose proof cols_pos.
  rewrite decide_False in Hafter by (intros ->; simpl in Hk; lia).
  pose proof (end_row y A t d HA Hp ltac:(intros ->; simpl in Hk; lia) Hafter) as Hrow. destruct Hp as [_ _ Hr _].
  assert (Hq : 0 <= k / W <= (len t - 1) / W) by (split; [apply Z.div_pos; lia|apply Z.div_le_mono; lia]).
  pose proof (Z.mod_pos_bound k W cols_pos) as Hm.
  unfold place_commands, last_row. replace (len t =? 0) with false by lia. rewrite !run_all_app, !legal_all_app.
  destruct (run_up_any (Z.to_nat ((len t - 1) / W - k / W)) d) as (Hs1 & Hr1 & Hl1); [lia|].
  set (d1 := run_all (times _ [UpRow]) d) in *. set (d2 := run_all [Return] d1).
  assert (Hd2 : d2 = Display (shown d) (y + k / W) 0 false).
  { unfold d2, run_all. cbn [foldl run]. destruct d1; unfold set_field; simpl in *. subst. f_equal. lia. }
  destruct (k mod W =? 0) eqn:Hm0.
  - split; [|done]. change (run_all [] d2) with d2. rewrite Hd2. constructor; try done; simpl; first [lia|intros; split_and!; done || lia].
  - split; [|split; [done|split; [done|cbn [legal_all legal]; rewrite Hd2; simpl; lia]]].
    unfold run_all. cbn [foldl run]. rewrite Hd2. unfold set_field. simpl.
    constructor; try done; simpl; first [lia|intros; split_and!; done || lia].
Qed.
End layout.

(** * The editor and its screen *)

Section line.
Context `{HC : Config} {Hconfig : ConfigOk} `{HD : Drawable} {Hdrawable : DrawableOk}.
Notation R := effective_rows.
Notation W := effective_cols.
Notation len l := (Z.of_nat (length l)).

Context (shell_complete : text → option (text * bool * text)).
(** The prompt, as commands: it fits on a row, and with the longest line on the screen. *)
Context (PROMPT : list command) (Hprompt : Forall prompt_command PROMPT).
Notation label := (visible_of PROMPT).
Context (Hlabel : len label < W) (Hroom : len label + Z.of_nat LINE_ROOM <= R * W).

(** * Drawing the line *)

(** What the screen is to show, and the cursor's place in it. *)
Definition line_text (v : view) : text := label ++ whole v.
Definition caret (v : view) : Z := len label + len (before v).

Lemma length_line v : len (line_text v) = caret v + len (after v).
Proof. unfold line_text, caret, whole. rewrite !length_app. lia. Qed.
Lemma line_room v : (length (whole v) ≤ LINE_ROOM)%nat → len (line_text v) <= R * W.
Proof. intros Hv. unfold line_text. rewrite length_app. lia. Qed.

Lemma rows_pos_of (t : text) : 1 <= rows_of W (len t) ∧ len t <= rows_of W (len t) * W.
Proof.
  pose proof cols_pos as HW. unfold rows_of. destruct (len t =? 0) eqn:H0; [lia|].
  assert (0 <= (len t - 1) / W) by (apply Z.div_pos; lia).
  destruct (position_split (len t - 1)) as [Hs Hm]; [lia|]. nia.
Qed.
Lemma rows_on_screen (t : text) y : y < R → y * W + len t <= R * W → y + rows_of W (len t) <= R.
Proof.
  pose proof cols_pos as HW. intros Hy Ht. unfold rows_of. destruct (len t =? 0) eqn:H0; [lia|].
  assert ((len t - 1) / W < R - y); [|lia]. apply Z.div_lt_upper_bound; nia.
Qed.

Lemma drop_text_spaces (t : text) n m : len t <= Z.of_nat n → Z.of_nat n <= len t + m → 0 <= m →
  drop n (t ++ spaces m) = spaces (len (t ++ spaces m) - Z.of_nat n).
Proof.
  intros Ht Hm H0. unfold spaces. rewrite drop_app_ge by lia. rewrite drop_replicate. f_equal. rewrite length_app, length_replicate. lia.
Qed.

(** Clearing what [lays]. *)
Lemma clear_laid y (A t : text) k d up :
  lays y A t k d → Z.max 0 (row d - Z.of_nat up) = y →
  let cs := clear_commands up (Z.to_nat (rows_of W (len t))) in
  run_all cs d = Display (A ++ spaces (R * W - len A)) y 0 false ∧ legal_all cs d.
Proof.
  intros [[Hs Hl] HA Hy Hk Hin Hend] Hup. pose proof cols_pos as HW. rewrite length_app in Hl.
  destruct (rows_pos_of t) as [Hr1 Hr2]. assert (Hr3 : y + rows_of W (len t) <= R) by (apply rows_on_screen; lia).
  assert (Hrow : 0 <= row d).
  { destruct (decide (k = len t)) as [He|He]; [by destruct (Hend He) as [[_ _ ? _] _]; lia|].
    destruct (Hin ltac:(lia)) as [-> _]. assert (0 <= k / W) by (apply Z.div_pos; lia). lia. }
  cbv zeta. destruct (Z.to_nat (rows_of W (len t))) as [|n] eqn:Hn; [lia|].
  rewrite <- app_assoc in Hs.
  set (u := t ++ spaces (R * W - len (A ++ t))) in *.
  assert (Hu : len u = R * W - len A).
  { unfold u, spaces. rewrite length_app, length_replicate, length_app. lia. }
  rewrite <- Hu. apply (run_clear_rows up n A u d y); [done..|lia|lia|lia|lia|lia|].
  assert (Hmul : Z.of_nat (S n * Z.to_nat W) = rows_of W (len t) * W) by lia.
  replace (len u - Z.of_nat (S n) * W) with (len u - Z.of_nat (S n * Z.to_nat W)) by lia.
  apply drop_text_spaces; rewrite ?length_app; nia.
Qed.

(** The rows that scrolled off are rows above the line. *)
Lemma scrolled_above (A t : text) y k :
  len A = y * W → len t <= R * W → (k = 0%nat ∨ (R - 1) * W < len (drop (k * Z.to_nat W) (A ++ t))) → (k * Z.to_nat W ≤ length (A ++ t))%nat →
  0 <= y → drop (k * Z.to_nat W) (A ++ t) = drop (k * Z.to_nat W) A ++ t ∧ Z.of_nat k <= y.
Proof.
  pose proof cols_pos as HW. intros HA Ht Hk Hle Hy. rewrite length_drop, length_app in Hk. rewrite length_app in Hle.
  assert (Hky : Z.of_nat k <= y) by (destruct Hk as [->|Hk]; [lia|nia]). split; [|done]. rewrite drop_app_le; [done|]. nia.
Qed.

(** More text after a text that ends at the cursor. *)
Lemma lays_print y (A t u : text) d :
  lays y A t (len t) d → Forall (λ c, isprint c = true) u → len (t ++ u) <= R * W →
  ∃ k : nat, Z.of_nat k <= y ∧
    lays (y - Z.of_nat k) (drop (k * Z.to_nat W) A) (t ++ u) (len (t ++ u)) (run_all (Print <$> u) d) ∧ legal_all (Print <$> u) d.
Proof.
  intros [Hf HA Hy Hk Hin Hend] Hu Hfit. pose proof cols_pos as HW. destruct (Hend eq_refl) as [Hp Hafter].
  destruct (print_text_at_end u (A ++ t) d Hf Hp Hu) as (k & Hf1 & Hp1 & Ha1 & Hl & Hk1 & Hle). cbv zeta in *.
  rewrite <- app_assoc in Hf1, Hp1, Hk1, Hle.
  destruct (scrolled_above A (t ++ u) y k HA Hfit Hk1 Hle ltac:(lia)) as [Hdrop Hky]. rewrite Hdrop in Hf1, Hp1.
  exists k. split; [done|]. split; [|done]. constructor; try done.
  - rewrite length_drop. nia.
  - lia.
  - lia.
  - lia.
  - intros _. split; [done|]. destruct (decide (t ++ u = [])) as [Hnil|Hnil].
    + apply app_eq_nil in Hnil as [-> ->]. done.
    + destruct u as [|c u]; [|by apply Ha1]. change (run_all (Print <$> []) d) with d. rewrite decide_False in Hafter; [done|].
      intros ->. done.
Qed.

Definition line_commands (v : view) : list command :=
  PROMPT ++ (Print <$> whole v) ++ (if decide (after v = []) then [] else place_commands (len (line_text v)) (caret v)).

(** Every character of the line is printable. *)
Definition printable (t : text) : Prop := Forall (λ c, isprint c = true) t.

Lemma label_laid A y d :
  d = Display (A ++ spaces (R * W - len A)) y 0 false → len A = y * W → 0 <= y < R →
  lays y A label (len label) (run_all PROMPT d) ∧ legal_all PROMPT d.
Proof.
  intros Hd HA Hy. pose proof cols_pos as HW.
  assert (HAl : len A <= R * W) by nia.
  destruct (run_prompt PROMPT A d y 0 Hprompt) as (Hrun & Hleg & Hle); [|by rewrite Hd|lia..|].
  { rewrite Hd. by split. }
  split; [|done]. rewrite Hrun. constructor; try done; [lia|lia|]. intros _. split.
  - split; simpl; try done; [|lia]. rewrite length_app. lia.
  - case_decide as Hnil; [done|]. right. simpl. destruct label; [done|simpl; lia].
Qed.

(** The line drawn on rows that are clear. *)
Lemma draw_line v A y d :
  d = Display (A ++ spaces (R * W - len A)) y 0 false → len A = y * W → 0 <= y < R →
  printable (whole v) → (length (whole v) ≤ LINE_ROOM)%nat →
  ∃ k : nat, Z.of_nat k <= y ∧
    lays (y - Z.of_nat k) (drop (k * Z.to_nat W) A) (line_text v) (caret v) (run_all (line_commands v) d) ∧
    legal_all (line_commands v) d.
Proof.
  intros Hd HA Hy Hv Hlen. destruct (label_laid A y d Hd HA Hy) as [Hlabel1 Hl1].
  destruct (lays_print y A label (whole v) _ Hlabel1 Hv) as (k & Hky & Hlaid & Hl2); [by apply (line_room v)|].
  exists k. split; [done|]. unfold line_commands. rewrite !run_all_app, !legal_all_app. fold (line_text v) in Hlaid.
  pose proof (length_line v) as Hll. case_decide as Hafter.
  - change (run_all [] ?x) with x. rewrite Hafter in Hll. simpl in Hll. replace (caret v) with (len (line_text v)) by lia. done.
  - destruct (run_place _ _ (line_text v) (caret v) _ Hlaid) as [Hplace Hl3]; [|done].
    unfold caret in *. destruct (after v); [done|]. simpl length in Hll. lia.
Qed.

(** * What the editor writes, as commands *)

Lemma bytes_of_times n c : bytes_of_all (times n [c]) = repeat_text n (bytes_of c).
Proof.
  induction n as [|n IH]; [done|]. change (times (S n) [c]) with ([c] ++ times n [c]). rewrite bytes_of_all_app, IH.
  unfold bytes_of_all. simpl. by rewrite app_nil_r.
Qed.
Lemma bytes_of_text t : bytes_of_all (Print <$> t) = t.
Proof. induction t as [|c t IH]; [done|]. change (bytes_of_all (Print <$> c :: t)) with (c :: bytes_of_all (Print <$> t)). by rewrite IH. Qed.
Lemma bytes_of_erase n : bytes_of_all (erase_commands n) = erase_text n.
Proof.
  induction n as [|n IH]; [done|]. cbn [erase_commands erase_text].
  change (EraseRight :: ?l) with ([EraseRight] ++ l). rewrite !bytes_of_all_app, IH. by destruct n.
Qed.
Lemma bytes_of_clear e :
  bytes_of_all (clear_commands (Z.to_nat (row_before e)) (Z.to_nat (rows_before e))) = clear_text e.
Proof.
  unfold clear_commands, clear_text. rewrite !bytes_of_all_app, !bytes_of_times, bytes_of_erase.
  replace (Z.to_nat (rows_before e) - 1)%nat with (Z.to_nat (rows_before e - 1)) by lia. done.
Qed.
Lemma bytes_of_place total target : bytes_of_all (place_commands total target) = place_text W total target.
Proof.
  unfold place_commands, place_text. rewrite !bytes_of_all_app, !bytes_of_times. f_equal.
  destruct (_ =? 0); [done|]. unfold bytes_of_all, cursor_right, ESC. simpl. unfold sequence, esc_byte. by rewrite app_nil_r.
Qed.

Definition refresh_commands (v : view) (e : editor) : list command :=
  clear_commands (Z.to_nat (row_before e)) (Z.to_nat (rows_before e)) ++ line_commands v.

(** The editor's prompt is the prompt here. *)
Definition prompted (e : editor) : Prop := prompt e = bytes_of_all PROMPT ∧ promptWidth e = len label.

Lemma at_end_iff v : (caret v <? len (line_text v)) = negb (bool_decide (after v = [])).
Proof.
  rewrite length_line. destruct (after v) as [|c t]; [rewrite bool_decide_eq_true_2 by done|rewrite bool_decide_eq_false_2 by done];
    cbn [length negb]; [apply Z.ltb_ge|apply Z.ltb_lt]; lia.
Qed.

Lemma editor_sizes e v : edits e v → prompted e →
  promptWidth e + line_length e = len (line_text v) ∧ promptWidth e + cursor e = caret v ∧
  (cursor e <? line_length e) = negb (bool_decide (after v = [])).
Proof.
  intros He [_ Hw]. pose proof (ed_length _ _ He). pose proof (ed_cursor _ _ He).
  rewrite <- at_end_iff. unfold line_text, caret. rewrite length_app. split_and!; [lia|lia|].
  apply eq_true_iff_eq. rewrite !Z.ltb_lt. lia.
Qed.

Lemma refresh_bytes e v : edits e v → prompted e → refresh_text W e = bytes_of_all (refresh_commands v e).
Proof.
  intros He Hp. destruct (editor_sizes e v He Hp) as (Htotal & Hcaret & Hcmp). destruct Hp as [Hp _].
  unfold refresh_text, refresh_commands, line_commands. rewrite !bytes_of_all_app, bytes_of_clear, bytes_of_text, Hp, Htotal, Hcaret, Hcmp.
  destruct (ed_buffer _ _ He) as [rest ->]. rewrite (ed_length _ _ He), Nat2Z.id, take_app_length.
  case_decide as Ha; [by rewrite bool_decide_eq_true_2|]. rewrite bool_decide_eq_false_2 by done. by rewrite bytes_of_place.
Qed.

(** * The editor and its screen *)

(** The rows that the editor believes the line takes, and the row of the cursor. *)
Definition believes (e : editor) (v : view) : Prop :=
  drawnRows e = rows_of W (len (line_text v)) ∧
  drawnCursorRow e = if decide (after v = []) then rows_of W (len (line_text v)) - 1 else caret v / W.

Lemma refreshed_believes e v : edits e v → prompted e → believes (refreshed W e) v ∧ prompted (refreshed W e).
Proof.
  intros He Hp. destruct (editor_sizes e v He Hp) as (Htotal & Hcaret & Hcmp). split; [|done].
  unfold believes, refreshed. simpl. rewrite Htotal, Hcaret, Hcmp. split; [done|].
  case_decide as Ha; [by rewrite bool_decide_eq_true_2|by rewrite bool_decide_eq_false_2].
Qed.

(** The row that the cursor is on is the one the editor believes. *)
Lemma cursor_row e v y A d :
  lays y A (line_text v) (caret v) d → believes e v →
  rows_before e = rows_of W (len (line_text v)) ∧ row d = y + row_before e ∧ 0 <= row_before e.
Proof.
  intros Hl [Hrows Hrow]. pose proof cols_pos as HW. destruct (rows_pos_of (line_text v)) as [Hr1 _].
  assert (Hrb : rows_before e = rows_of W (len (line_text v))) by (unfold rows_before; rewrite Hrows; by replace (0 <? _) with true by lia).
  split; [done|]. unfold row_before. rewrite Hrb, Hrow. pose proof (length_line v) as Hll.
  destruct Hl as [Hf HA Hy Hk Hin Hend]. case_decide as Ha.
  - replace (_ - 1 <? _) with true by lia. split; [|lia]. rewrite Ha in Hll. simpl in Hll.
    destruct (Hend ltac:(lia)) as [Hp Hafter]. unfold rows_of. case_decide as Hnil.
    + rewrite Hnil. simpl. rewrite Hnil, app_nil_r in Hp. destruct Hp. rewrite Hafter in *. nia.
    + replace (_ =? 0) with false by (destruct (line_text v); simpl; done || lia).
      rewrite (end_row y A (line_text v) d HA Hp Hnil Hafter). lia.
  - assert (Hlt : caret v < len (line_text v)) by (destruct (after v); [done|simpl length in Hll; lia]).
    destruct (Hin Hlt) as [Hrd _]. assert (0 <= caret v / W) by (apply Z.div_pos; lia).
    assert (caret v / W < rows_of W (len (line_text v))).
    { unfold rows_of. replace (_ =? 0) with false by lia. assert (caret v / W <= (len (line_text v) - 1) / W); [|lia].
      apply Z.div_le_mono; lia. }
    replace (caret v / W <? _) with true by lia. lia.
Qed.

(** A line and a past without control characters. *)
Definition clean (v : view) : Prop := printable (whole v) ∧ Forall printable (past v).

(** The screen shows the line below what is left of the text above it. *)
Record on_screen (above : text) (e : editor) (v : view) (s : screen) : Prop := {
  os_edits : edits e v;
  os_prompted : prompted e;
  os_believes : believes e v;
  os_clean : clean v;
  os_shown : ∃ y n d, displays s d ∧ lays y (drop n above) (line_text v) (caret v) d;
}.

(** An operation writes what keeps the line on the screen. *)
Definition keeps_line (above : text) (m : M editor unit) (e : editor) (v' : view) (s : screen) : Prop :=
  ∃ e' s' t, m e = Done (tt, e') ∧ out e' = out e ++ t ∧ screen_write t s = Done (tt, s') ∧ on_screen above e' v' s'.

(** Drawing after clearing. *)
Lemma refresh_shows above e1 v' s d n y :
  edits e1 v' → prompted e1 → clean v' → displays s d → len (drop n above) = y * W → 0 <= y < R →
  (let cs := clear_commands (Z.to_nat (row_before e1)) (Z.to_nat (rows_before e1)) in
   run_all cs d = Display (drop n above ++ spaces (R * W - len (drop n above))) y 0 false ∧ legal_all cs d) →
  ∃ s', screen_write (refresh_text W e1) s = Done (tt, s') ∧ on_screen above (refreshed W e1) v' s'.
Proof.
  intros He Hp Hv Hd HA Hy [Hrun Hleg]. pose proof (edits_room e1 v' He) as Hlen.
  destruct (draw_line v' (drop n above) y _ Hrun HA Hy (proj1 Hv) Hlen) as (k & Hky & Hlaid & Hleg2).
  rewrite <- run_all_app in Hlaid. assert (Hleg' : legal_all (refresh_commands v' e1) d) by (by apply legal_all_app).
  destruct (vterm_carries_out_commands (refresh_commands v' e1) s d Hd Hleg') as (s' & Hwrite & Hd').
  rewrite (refresh_bytes e1 v' He Hp). exists s'. split; [done|]. destruct (refreshed_believes e1 v' He Hp) as [Hb Hp'].
  constructor; [by apply edits_refreshed|done..|]. rewrite drop_drop in Hlaid. by eexists _, _, _.
Qed.

(** An operation that edits quietly or draws again. *)
Lemma acts_keep above m e v v' s : acts W m e v v' → clean v' → on_screen above e v s → keeps_line above m e v' s.
Proof.
  intros (e1 & He1 & (Hp1 & Hw1 & Hr1 & Hc1 & Ho1 & _) & Hm) Hv' [He [Hp Hw] Hb Hv (y & n & d & Hd & Hlaid)].
  assert (Hpr : prompted e1) by (split; congruence).
  destruct Hm as [(Hm & Hbef & Haft)|Hm].
  - exists e1, s, []. assert (Hlt : line_text v' = line_text v) by (unfold line_text, whole; by rewrite Hbef, Haft).
    assert (Hct : caret v' = caret v) by (unfold caret; by rewrite Hbef).
    split_and!; [done|by rewrite app_nil_r|by rewrite screen_write_chars|]. constructor; [done..| |done|].
    + destruct Hb as [Hrows Hrow]. unfold believes. rewrite Hlt, Hct, Haft. split; congruence.
    + rewrite Hlt, Hct. by exists y, n, d.
  - destruct (cursor_row e v y _ d Hlaid Hb) as (Hrows & Hrow & Hge).
    assert (Hrows1 : rows_before e1 = rows_before e) by (unfold rows_before; by rewrite Hr1).
    assert (Hrow1 : row_before e1 = row_before e) by (unfold row_before; by rewrite Hc1, Hrows1).
    pose proof (la_top _ _ _ _ _ Hlaid) as Hy.
    destruct (refresh_shows above e1 v' s d n y He1 Hpr Hv' Hd (la_above _ _ _ _ _ Hlaid) Hy) as (s' & Hwrite & Hs').
    { rewrite Hrows1, Hrow1, Hrows. apply (clear_laid y _ (line_text v) (caret v)); [done|lia]. }
    exists (refreshed W e1), s', (refresh_text W e1). split_and!; [done| |done|done]. simpl. by rewrite Ho1.
Qed.

(** A character at the end of the line. *)
Lemma typed_keeps above c e e1 v s :
  on_screen above e v s → after v = [] → isprint c = true → edits e1 (v <| before := before v ++ [c] |>) → same_screen e e1 →
  ∃ s', screen_write [c] s = Done (tt, s') ∧ on_screen above (typed W c e1) (v <| before := before v ++ [c] |>) s'.
Proof.
  intros [He Hp Hb [Hv Hpast] (y & n & d & Hd & Hlaid)] Ha Hc He1 (Hp1 & Hw1 & _). set (v1 := v <| before := before v ++ [c] |>) in *.
  assert (Hpr : prompted e1) by (destruct Hp; split; congruence).
  assert (Hline : line_text v1 = line_text v ++ [c]) by (unfold line_text, whole, v1; simpl; by rewrite Ha, !app_nil_r, app_assoc).
  assert (Hcaret : caret v1 = len (line_text v1)) by (rewrite length_line; simpl after; rewrite Ha; simpl; lia).
  assert (Hcaret0 : caret v = len (line_text v)) by (rewrite length_line, Ha; simpl; lia).
  destruct (lays_print y (drop n above) (line_text v) [c] d) as (k & Hky & Hl1 & Hleg).
  - by rewrite <- Hcaret0.
  - by constructor.
  - rewrite <- Hline. apply line_room, (edits_room e1 v1 He1).
  - rewrite <- Hline, <- Hcaret, drop_drop in Hl1.
    destruct (vterm_carries_out_commands (Print <$> [c]) s d Hd Hleg) as (s' & Hwrite & Hd'). exists s'. split; [exact Hwrite|].
    destruct (editor_sizes e1 v1 He1 Hpr) as (Htotal & _).
    constructor; [by apply edits_drawn, edits_wrote|done| | |by eexists _, _, _].
    + unfold believes, typed. simpl. rewrite Htotal, decide_True by done. done.
    + split; [|done]. revert Hv. unfold printable, whole, v1. simpl. rewrite Ha, !app_nil_r. intros Hv. apply Forall_app. split; [done|by constructor].
Qed.

(** * Keys *)

Lemma printable_app t u : printable (t ++ u) ↔ printable t ∧ printable u.
Proof. apply Forall_app. Qed.
Lemma clean_parts v a b : clean v → printable a → printable b → clean (v <| before := a |> <| after := b |>).
Proof. intros [_ Hp] Ha Hb. split; [|done]. apply printable_app. by split. Qed.
Lemma clean_split v a b : clean v → whole v = a ++ b → clean (v <| before := a |> <| after := b |>).
Proof. intros Hc Hw. pose proof (proj1 Hc) as Hv. rewrite Hw in Hv. apply printable_app in Hv as [Ha Hb]. by apply clean_parts. Qed.
Lemma clean_replace v t n : clean v → printable t → clean (v_replace t (v <| recall := n |>)).
Proof. intros [_ Hp] Ht. split; [|done]. unfold whole. simpl. by rewrite app_nil_r. Qed.
Lemma clean_before v : clean v → printable (before v).
Proof. intros [Hv _]. by apply printable_app in Hv as [? _]. Qed.
Lemma clean_after v : clean v → printable (after v).
Proof. intros [Hv _]. by apply printable_app in Hv as [_ ?]. Qed.
Lemma clean_past v i t : clean v → past v !! i = Some t → printable t.
Proof. intros [_ Hp]. by apply Forall_lookup_1. Qed.

Lemma clean_arrow c v : clean v → clean (v_arrow c v).
Proof.
  intros Hc. unfold v_arrow. rewrite switch_arrow. repeat case_decide; [| | | |done].
  - unfold v_up. destruct (past v !! recall v) eqn:Hk; [|done]. apply (clean_replace v); [done|by eapply clean_past].
  - unfold v_down. destruct (recall v) as [|[|i]]; [done|by apply (clean_replace v), Forall_nil_2|]. apply (clean_replace v); [done|].
    destruct (past v !! i) eqn:Hk; simpl; [by eapply clean_past|by apply Forall_nil_2].
  - apply clean_split; [done|]. unfold whole. rewrite <- app_assoc. by rewrite take_drop.
  - apply clean_split; [done|]. unfold whole. rewrite app_assoc. by rewrite take_drop.
Qed.

(** The keys that edit: not Enter, Tab and Ctrl-C. *)
Definition editing (c : ascii) : bool := match key_of c with KEnter | KTab | KAbandon => false | _ => true end.

Lemma clean_key k v :
  clean v → (∀ c, k = KChar c → isprint c = true) → k ≠ KTab → clean (key_view shell_complete k v).
Proof.
  intros Hc Hk Ht. pose proof (clean_before v Hc) as Hb. pose proof (clean_after v Hc) as Ha.
  assert (Hw : printable (whole v)) by exact (proj1 Hc). destruct k as [| | | | | | | | | |c|]; try done; cbn [key_view].
  - apply (clean_parts v _ (after v)); [done| |done]. by apply Forall_take.
  - apply (clean_parts v (whole v) []); [done|done|by apply Forall_nil_2].
  - apply (clean_parts v (before v) []); [done|done|by apply Forall_nil_2].
  - by apply (clean_parts v [] []); [|apply Forall_nil_2..].
  - by apply (clean_parts v [] []); [|apply Forall_nil_2..].
  - unfold v_insert. destruct (_ <=? _)%nat; [done|]. apply (clean_parts v (before v ++ [c]) (after v)); [done| |done].
    apply printable_app. split; [done|]. constructor; [by apply Hk|done].
Qed.

Lemma keep_seq {T} above (m : M editor unit) (r : T) e v' s :
  keeps_line above m e v' s → ∃ e' s' t, (m;; mret r) e = Done (r, e') ∧ out e' = out e ++ t ∧
    screen_write t s = Done (tt, s') ∧ on_screen above e' v' s'.
Proof. intros (e' & s' & t & Hm & Hrest). exists e', s', t. by rewrite (bind_eq _ _ _ _ _ Hm). Qed.

Lemma clear_screen_keeps above e v s : on_screen above e v s → keeps_line above (key_run W shell_complete KClearScreen) e v s.
Proof.
  intros [He Hp Hb Hv (y & n & d & Hd & Hlaid)]. pose proof rows_pos. pose proof cols_pos as HW. pose proof area_pos.
  destruct (cursor_row e v y _ d Hlaid Hb) as (Hrows & _ & _). set (text := ESC :: $"[2J" ++ ESC :: $"[H").
  destruct (vterm_carries_out_commands [ClearScreen; Home] s d Hd) as (s1 & Hw1 & Hd1); [done|].
  change (bytes_of_all [ClearScreen; Home]) with text in Hw1.
  change (run_all [ClearScreen; Home] d) with (Display (spaces (R * W)) 0 0 false) in Hd1.
  assert (Hnil : drop (length above) above = []) by (by rewrite drop_ge).
  destruct (rows_pos_of (line_text v)) as [Hr1 Hr2]. pose proof (line_room v (edits_room e v He)) as Hfits.
  assert (Hr3 : 0 + rows_of W (len (line_text v)) <= R) by (apply rows_on_screen; lia).
  destruct (refresh_shows above (wrote text e) v s1 (Display (spaces (R * W)) 0 0 false) (length above) 0) as (s' & Hw2 & Hs').
  - by apply edits_wrote.
  - done.
  - done.
  - done.
  - by rewrite Hnil.
  - lia.
  - cbv zeta. change (rows_before (wrote text e)) with (rows_before e). change (row_before (wrote text e)) with (row_before e).
    rewrite Hnil, Hrows. destruct (Z.to_nat (rows_of W (len (line_text v)))) as [|m] eqn:Hm; [lia|].
    assert (Hsp : len (spaces (R * W)) = R * W) by (unfold spaces; rewrite length_replicate; lia).
    assert (Hrun : R * W - len (@nil ascii) = len (spaces (R * W))) by (simpl; lia). rewrite Hrun.
    apply (run_clear_rows _ m [] (spaces (R * W)) _ 0); simpl; [done|lia|lia|lia|lia|lia|].
    assert (HSm : Z.of_nat (S m) <= R) by lia.
    change (Z.to_nat W + m * Z.to_nat W)%nat with (S m * Z.to_nat W)%nat.
    change (spaces (R * W)) with ([] ++ spaces (R * W)) at 1. rewrite drop_text_spaces by (simpl length; nia).
    rewrite Hsp. simpl app. rewrite Hsp. f_equal. nia.
  - exists (refreshed W (wrote text e)), s', (text ++ refresh_text W (wrote text e)). split; [|split; [|split; [|done]]].
    + cbn [key_run]. rewrite (bind_eq _ _ _ _ _ (write_eq _ _)). apply refresh_eq.
    + transitivity ((out e ++ text) ++ refresh_text W (wrote text e)); [done|by rewrite <- app_assoc].
    + rewrite screen_write_app, (bind_eq _ _ _ _ _ Hw1). exact Hw2.
Qed.

Lemma key_keeps above c e v s :
  on_screen above e v s → editing c = true → key_of c ≠ KEscape → keeps_line above (key_run W shell_complete (key_of c)) e (key_view shell_complete (key_of c) v) s.
Proof.
  intros Hs Hed Hesc. pose proof (os_edits _ _ _ _ Hs) as He. pose proof (os_clean _ _ _ _ Hs) as Hv.
  assert (Hclean : clean (key_view shell_complete (key_of c) v)).
  { apply clean_key; [done|by intros d [-> ?]%key_of_char|]. unfold editing in Hed. by destruct (key_of c). }
  unfold editing in Hed. destruct (key_of c) as [| | | | | | | | | |d|] eqn:Hk; try done; cbn [key_view] in *.
  - by apply (acts_keep _ _ e v), Hs; [apply backspace_acts|].
  - by apply (acts_keep _ _ e v), Hs; [apply home_acts|].
  - by apply (acts_keep _ _ e v), Hs; [apply end_acts|].
  - by apply (acts_keep _ _ e v), Hs; [apply kill_acts|].
  - by apply (acts_keep _ _ e v), Hs; [apply clear_line_acts|].
  - by apply clear_screen_keeps.
  - destruct (key_of_char _ _ Hk) as [-> Hc]. cbn [key_run].
    destruct (insert_acts W c e v He Hc) as (e1 & He1 & Hsame & Hrun). unfold v_insert in *.
    destruct (LINE_ROOM <=? length (whole v))%nat.
    { apply (acts_keep _ _ e v); [|done..]. exists e1. split; [done|]. split; [done|]. by left. }
    destruct (bool_decide (after v = [])) eqn:Ha.
    + apply bool_decide_eq_true in Ha. destruct (typed_keeps above c e e1 v s Hs Ha Hc He1 Hsame) as (s' & Hwrite & Hs').
      exists (typed W c e1), s', [c]. split_and!; [done| |done|done].
      destruct Hsame as (_ & _ & _ & _ & Ho & _). transitivity (out e1 ++ [c]); [done|by rewrite Ho].
    + apply (acts_keep _ _ e v); [|done..]. exists e1. split; [done|]. split; [done|]. by right.
  - apply (acts_keep _ _ e v); [by apply acts_nothing|done..].
Qed.

Lemma feed_keeps above c e v s :
  on_screen above e v s → editing c = true →
  ∃ e' s' t, feed W shell_complete c e = Done (None, e') ∧ out e' = out e ++ t ∧ screen_write t s = Done (tt, s') ∧
    on_screen above e' (fst (v_feed shell_complete c v)) s'.
Proof.
  intros Hs Hed. pose proof (os_edits _ _ _ _ Hs) as He. pose proof (os_clean _ _ _ _ Hs) as Hv.
  assert (Hquiet : ∀ st, keeps_line above (modify (λ e, e <| escapeState := st |>)) e (v <| pending := st |>) s).
  { intros st. apply (acts_keep _ _ e v); [|done..]. exists (e <| escapeState := st |>). split; [by apply edits_pending|]. split; [done|]. by left. }
  unfold feed. rewrite (bind_eq (gets _) _ _ _ _ eq_refl). unfold v_feed. rewrite (ed_pending _ _ He).
  destruct (pending v); cbn [fst].
  - rewrite feed_key_eq, v_key_eq. destruct (decide (key_of c = KEscape)) as [Hk|Hk].
    { rewrite Hk. cbn [fst]. destruct (Hquiet EscapeEscape) as (e' & s' & t & [= <-] & Hrest). eexists _, s', t. split; [done|exact Hrest]. }
    pose proof (keep_seq above _ (@None text) _ _ _ (key_keeps above c e v s Hs Hed Hk)) as Hkeep. unfold editing in Hed.
    destruct (key_of c); done.
  - by apply (keep_seq above _ (@None text)), Hquiet.
  - rewrite (bind_eq (modify _) _ _ _ _ eq_refl). set (v1 := v <| pending := EscapeNone |>). set (e1 := e <| escapeState := EscapeNone |>).
    assert (Hs1 : on_screen above e1 v1 s) by (destruct Hs; constructor; [by apply edits_pending|done..]).
    assert (Hk : keeps_line above (feed_arrow W c) e1 (v_arrow c v1) s).
    { apply (acts_keep _ _ e1 v1); [|by apply clean_arrow|done]. apply arrow_acts, Hs1. }
    exact (keep_seq above _ (@None text) _ _ _ Hk).
Qed.

(** * A prompt and what is typed at it *)

(** On blank rows from row [y] on, below the text [above]. *)
Definition fresh_row (above : text) (y : Z) (d : display) : Prop :=
  d = Display (above ++ spaces (R * W - len above)) y 0 false ∧ len above = y * W ∧ 0 <= y < R.

Lemma label_rows : rows_of W (len label) = 1.
Proof.
  unfold rows_of. destruct (_ =? 0) eqn:H0; [done|]. rewrite Z.div_small by lia. done.
Qed.

Lemma begin_shows above y d e v s :
  edits e v → Forall printable (past v) → fresh_row above y d → displays s d →
  ∃ e' s', begin (bytes_of_all PROMPT) e = Done (tt, e') ∧ out e' = out e ++ bytes_of_all PROMPT ∧
    screen_write (bytes_of_all PROMPT) s = Done (tt, s') ∧ on_screen above e' (v_begin v) s'.
Proof.
  intros He Hpast (Hd & HA & Hy) Hs. destruct (label_laid above y d Hd HA Hy) as [Hlaid Hleg].
  destruct (vterm_carries_out_commands PROMPT s d Hs Hleg) as (s' & Hwrite & Hs').
  unfold begin. rewrite (bind_eq _ _ _ (len label) e) by (unfold deref; by rewrite prompt_width).
  rewrite (bind_eq (modify _) _ _ _ _ eq_refl). erewrite bind_eq; [|apply store_byte_eq; unfold MAX_LINE; lia].
  rewrite (bind_eq (modify _) _ _ _ _ eq_refl). eexists _, s'. split; [reflexivity|]. split; [done|]. split; [done|].
  assert (Htext : line_text (v_begin v) = label) by (unfold line_text, whole; simpl; by rewrite app_nil_r).
  assert (Hcaret : caret (v_begin v) = len label) by (unfold caret; simpl; lia).
  constructor.
  - pose proof (cut_edits e v [] (whole v) He eq_refl) as []. constructor; simpl in *; auto. lia.
  - done.
  - unfold believes. rewrite Htext, label_rows. done.
  - split; [by apply Forall_nil_2|done].
  - rewrite Htext, Hcaret. by exists y, 0%nat, (run_all PROMPT d).
Qed.

Lemma session_keeps above shouldExit bytes e v s :
  on_screen above e v s → Forall (λ c, editing c = true) bytes →
  ∃ e' s' t, session W shell_complete (bytes_of_all PROMPT) shouldExit [] bytes e = Done ([], e') ∧ out e' = out e ++ t ∧
    screen_write t s = Done (tt, s') ∧ on_screen above e' (foldl (λ v c, fst (v_feed shell_complete c v)) v bytes) s'.
Proof.
  intros Hs Hb. revert e v s Hs. induction Hb as [|c bytes Hc Hb IH]; intros e v s Hs.
  { exists e, s, []. split_and!; [done|by rewrite app_nil_r|by rewrite screen_write_chars|done]. }
  destruct (feed_keeps above c e v s Hs Hc) as (e1 & s1 & t1 & Hrun & Ho1 & Hw1 & Hs1).
  destruct (IH e1 _ s1 Hs1) as (e2 & s2 & t2 & Hrun2 & Ho2 & Hw2 & Hs2). exists e2, s2, (t1 ++ t2). split_and!.
  - cbn [session]. by rewrite (bind_eq _ _ _ _ _ Hrun).
  - by rewrite Ho2, Ho1, app_assoc.
  - by rewrite screen_write_app, (bind_eq _ _ _ _ _ Hw1).
  - done.
Qed.

(** C5: What is typed at the prompt is what the terminal shows.  From a fresh row, with any
    text above it, and any sequence of characters, editing keys, arrows through the history
    and other escape sequences (not Enter, Tab or Ctrl-C), the editor completes no line, and
    its output, in whatever parts it reaches the terminal, leaves on the screen the rows
    above that have not scrolled off, then the prompt and exactly the line of the abstract
    editor, wrapped over as many rows as it takes, then blanks, with the cursor at the place
    where the next character goes in.  It holds for every prompt of characters and colours
    that fits on a row and, with the longest line, on the screen. *)
Theorem edited_line_is_on_screen above y d e v s shouldExit bytes :
  edits e v → Forall printable (past v) → fresh_row above y d → displays s d → Forall (λ c, editing c = true) bytes →
  let v' := foldl (λ v c, fst (v_feed shell_complete c v)) (v_begin v) bytes in
  ∃ e' s' t y' n d',
    (begin (bytes_of_all PROMPT);; session W shell_complete (bytes_of_all PROMPT) shouldExit [] bytes) e = Done ([], e') ∧
    edits e' v' ∧ out e' = out e ++ t ∧
    (∀ chunks, concat chunks = t → for_list screen_write chunks s = Done (tt, s')) ∧
    displays s' d' ∧ lays y' (drop n above) (label ++ whole v') (len label + len (before v')) d'.
Proof.
  intros He Hpast Hd Hs Hb. cbv zeta.
  destruct (begin_shows above y d e v s He Hpast Hd Hs) as (e1 & s1 & Hrun1 & Ho1 & Hw1 & Hs1).
  destruct (session_keeps above shouldExit bytes e1 (v_begin v) s1 Hs1 Hb) as (e2 & s2 & t & Hrun2 & Ho2 & Hw2 & Hs2).
  destruct (os_shown _ _ _ _ Hs2) as (y' & n & d' & Hd' & Hlaid).
  exists e2, s2, (bytes_of_all PROMPT ++ t), y', n, d'. split_and!; [|by apply os_edits in Hs2| | |done|done].
  - by rewrite (bind_eq _ _ _ _ _ Hrun1).
  - by rewrite Ho2, Ho1, app_assoc.
  - intros chunks Hc. rewrite write_in_parts, Hc, screen_write_app, (bind_eq _ _ _ _ _ Hw1). exact Hw2.
Qed.
End line.

Section demo.
#[local] Existing Instance spiram_config.
#[local] Existing Instance panel.

(** The prompt of main.cpp, on the first row of an empty display, and [lz], the arrow left,
    Ctrl-K, [s]. *)
Definition prompt_commands : list command := [Colour $"96"; Print "$"; Colour $"0"; Print " "].
Definition typed_keys : text := $"lz" ++ ESC :: $"[D" ++ ["011"%char; "s"%char].

Lemma edited_line_is_on_screen_witness :
  bytes_of_all prompt_commands = PROMPT ∧
  let v' := foldl (λ v c, fst (v_feed no_completion c v)) (v_begin new_view) typed_keys in
  whole v' = $"ls" ∧
  ∃ e' s' t y' n d',
    (begin (bytes_of_all prompt_commands);;
     session effective_cols no_completion (bytes_of_all prompt_commands) (λ _, false) [] typed_keys) new_editor = Done ([], e') ∧
    edits e' v' ∧ out e' = [] ++ t ∧
    (∀ chunks, concat chunks = t → for_list screen_write chunks blank_start = Done (tt, s')) ∧
    displays s' d' ∧
    lays y' (drop n []) (visible_of prompt_commands ++ whole v')
      (Z.of_nat (length (visible_of prompt_commands)) + Z.of_nat (length (before v'))) d'.
Proof.
  split; [reflexivity|]. cbv zeta. split; [reflexivity|].
  apply (edited_line_is_on_screen no_completion prompt_commands) with (y := 0) (d := blank_display).
  - repeat constructor; simpl; unfold ESCAPE_BUF_SIZE; lia.
  - simpl. lia.
  - unfold LINE_ROOM. simpl. lia.
  - exact new_edits.
  - by apply Forall_nil_2.
  - split; [reflexivity|]. simpl. lia.
  - exact blank_start_displays.
  - by repeat constructor.
Defined.
End demo.
