(* ===== verification/Scrollback.v ===== *)
(** The scrollback of the terminal (app/terminal/Scrollback.cpp): a ring of the lines that
    scrolled off, and how far back the view is. *)

From S2P Require Import Prelude Text Vterm.

(** [sb_buffer] is the block of cells, when it is allocated: one line after another. *)
Record scrollback := SB {
  sb_buffer : option (list cell);
  bufferColumns : Z;
  bufferLines : Z;
  head : Z;
  count : Z;
  viewOffset : Z;
}.
#[export] Instance scrollback_settable : Settable scrollback :=
  constr SB <*> sb_buffer <*> bufferColumns <*> bufferLines <*> head <*> count <*> viewOffset.
Definition no_scrollback : scrollback := SB None 0 0 0 0 0.

(** [calloc]ed cells. *)
Definition null_cell : cell := Cell NUL 0.

Section scrollback.
Context `{HC : Config}.

(** [while (index < 0) index += bufferLines]. *)
Fixpoint wrap_index (fuel : nat) (lines index : Z) : M scrollback Z :=
  if 0 <=? index then mret index
  else match fuel with O => undef | S fuel => wrap_index fuel lines (index + lines) end.

(** The cells [start], ..., [start + n - 1] of the buffer. *)
Definition cells_from (start n : Z) : M scrollback (list cell) :=
  block ← deref sb_buffer;
  if ((0 <=? start) && (0 <=? n) && (start + n <=? Z.of_nat (length block)))%bool
  then mret (take (Z.to_nat n) (drop (Z.to_nat start) block)) else undef.

(** The index in the buffer of a stored line. *)
Definition storedLine (age : Z) : M scrollback (option Z) :=
  s ← get;
  if ((age <? 0) || (count s <=? age))%bool then mret None
  else index ← wrap_index (S (Z.to_nat (count s))) (bufferLines s) (head s - 1 - age);
       mret (Some (index * bufferColumns s)).

(** [scrollback_end] is [Scrollback::end]. *)
Definition scrollback_end : M scrollback unit := put no_scrollback.

(** [memory] says whether the allocation succeeds. *)
Definition scrollback_begin (memory : bool) (columns lineCount : Z) : M scrollback bool :=
  scrollback_end;;
  if ((columns <=? 0) || (lineCount <=? 0))%bool then mret false
  else if negb memory then mret false
  else put (SB (Some (replicate (Z.to_nat (columns * lineCount)) null_cell)) columns lineCount 0 0 0);; mret true.

(** [top]: the cells that [vterm_get_direct_buffer] points to. *)
Definition captureTopLine (top : option (list cell)) : M scrollback unit :=
  s ← get;
  match sb_buffer s, top with
  | Some block, Some cells =>
      let columns := if bufferColumns s <? VTERM_COLS then bufferColumns s else VTERM_COLS in
      let start := head s * bufferColumns s in
      (if ((0 <=? start) && (start + columns <=? Z.of_nat (length block)) && (columns <=? Z.of_nat (length cells)))%bool then
         put (s <| sb_buffer := Some (take (Z.to_nat start) block ++ take (Z.to_nat columns) cells
                                      ++ drop (Z.to_nat (start + columns)) block) |>)
       else undef);;
      modify (λ s, s <| head := (head s + 1) mod bufferLines s |>);;
      modify (λ s, if count s <? bufferLines s then s <| count := count s + 1 |> else s);;
      modify (λ s, if ((0 <? viewOffset s) && (viewOffset s <? count s))%bool then s <| viewOffset := viewOffset s + 1 |> else s)
  | _, _ => mret tt
  end.

Definition scroll (lines : Z) : M scrollback bool :=
  s ← get;
  let previous := viewOffset s in
  n ← int (viewOffset s + lines);
  modify (λ s, s <| viewOffset := n |>);;
  modify (λ s, if viewOffset s <? 0 then s <| viewOffset := 0 |> else s);;
  modify (λ s, if count s <? viewOffset s then s <| viewOffset := count s |> else s);;
  s ← get;
  mret (negb (viewOffset s =? previous)).

(** [reset_view] is [Scrollback::reset]. *)
Definition reset_view : M scrollback bool :=
  s ← get;
  if viewOffset s =? 0 then mret false else put (s <| viewOffset := 0 |>);; mret true.

(** The cells that it copies out, if any. *)
Definition rowForDisplay (screenRow : Z) : M scrollback (option (list cell)) :=
  s ← get;
  if (negb (is_some (sb_buffer s)) || (viewOffset s <=? 0))%bool then mret None
  else
    let age := viewOffset s - screenRow in
    if age <=? 0 then mret None
    else
      line ← storedLine (age - 1);
      match line with
      | None => mret None
      | Some start => row ← cells_from start (bufferColumns s); mret (Some row)
      end.
End scrollback.

(** * The history as a list of lines *)

(** The newest line first. *)
Record lines_back := History { lines : list (list cell); offset : Z }.

Section history.
Context (columns : Z) (room : nat).

Definition h_capture (row : list cell) (h : lines_back) : lines_back :=
  let ls := take room (take (Z.to_nat columns) row :: lines h) in
  History ls (if ((0 <? offset h) && (offset h <? Z.of_nat (length ls)))%bool then offset h + 1 else offset h).
Definition h_scroll (n : Z) (h : lines_back) : lines_back :=
  History (lines h) (Z.min (Z.max 0 (offset h + n)) (Z.of_nat (length (lines h)))).
Definition h_reset (h : lines_back) : lines_back := History (lines h) 0.
(** What the view shows on a row of the screen: a line of the history, or the live row. *)
Definition h_row (r : Z) (h : lines_back) : option (list cell) :=
  if offset h - r <=? 0 then None else lines h !! Z.to_nat (offset h - r - 1).
End history.

(** * The ring holds the newest lines *)

Section specs.
Context `{HC : Config}.
Context (columns : Z) (room : nat) (Hcolumns : 0 < columns <= VTERM_COLS) (Hroom : (0 < room)%nat).
Notation N := (Z.of_nat room).
Notation len l := (Z.of_nat (length l)).

(** One line of the block. *)
Definition ring_line (j : Z) (block : list cell) : list cell := take (Z.to_nat columns) (drop (Z.to_nat (j * columns)) block).
(** Where the line of an age is. *)
Definition slot_of (head k : Z) : Z := (head - 1 - k) mod N.

Record holds (s : scrollback) (h : lines_back) : Prop := {
  ho_block : ∃ block, sb_buffer s = Some block ∧ len block = N * columns ∧
    ∀ k l, lines h !! k = Some l → ring_line (slot_of (head s) (Z.of_nat k)) block = l;
  ho_columns : bufferColumns s = columns;
  ho_lines : bufferLines s = N;
  ho_head : 0 <= head s < N;
  ho_count : count s = len (lines h);
  ho_room : (length (lines h) ≤ room)%nat;
  ho_offset : viewOffset s = offset h;
  ho_view : 0 <= offset h <= len (lines h);
}.

Lemma slot_range hd k : 0 <= slot_of hd k < N.
Proof. apply Z.mod_pos_bound. lia. Qed.

(** Replacing one line leaves the others. *)
Definition ring_set (j : Z) (row block : list cell) : list cell :=
  take (Z.to_nat (j * columns)) block ++ row ++ drop (Z.to_nat (j * columns + columns)) block.

Lemma line_range j : 0 <= j < N → 0 <= j * columns ∧ j * columns + columns <= N * columns.
Proof. nia. Qed.

Lemma slice_set j i row block :
  len block = N * columns → len row = columns → 0 <= j < N → 0 <= i < N →
  len (ring_set j row block) = N * columns ∧ ring_line i (ring_set j row block) = if decide (i = j) then row else ring_line i block.
Proof.
  intros Hb Hr Hj Hi. destruct (line_range j Hj) as [Hj1 Hj2]. destruct (line_range i Hi) as [Hi1 Hi2].
  unfold ring_set, ring_line. split; [rewrite !length_app, length_take, length_drop; lia|].
  case_decide as Heq.
  - subst i. rewrite drop_app_ge by (rewrite length_take; lia).
    replace (_ - _)%nat with 0%nat by (rewrite length_take; lia). rewrite drop_0. rewrite take_app_le by lia. by rewrite take_ge by lia.
  - destruct (decide (i < j)) as [Hlt|Hge].
    + assert (i * columns + columns <= j * columns) by nia.
      rewrite drop_app_le by (rewrite length_take; lia). rewrite take_app_le by (rewrite length_drop, length_take; lia).
      rewrite !take_drop_commute, take_take. do 2 f_equal. lia.
    + assert (j * columns + columns <= i * columns) by nia.
      rewrite drop_app_ge by (rewrite length_take; lia). rewrite drop_app_ge by (rewrite length_take; lia).
      rewrite drop_drop. do 2 f_equal. rewrite length_take. lia.
Qed.

Lemma slot_next hd k : 0 <= hd < N → slot_of ((hd + 1) mod N) k = if decide (k = 0) then hd else slot_of hd (k - 1).
Proof.
  intros Hh. unfold slot_of.
  assert (Hnext : ((hd + 1) mod N - 1 - k) mod N = (hd - k) mod N).
  { destruct (decide (hd + 1 = N)) as [He|He].
    - rewrite He, Z.mod_same by lia. rewrite <- (Z.mod_add _ 1) by lia. f_equal. lia.
    - rewrite (Z.mod_small (hd + 1)) by lia. f_equal. lia. }
  rewrite Hnext. case_decide; [subst; rewrite Z.sub_0_r; by apply Z.mod_small|]. f_equal. lia.
Qed.
Lemma slot_free hd k : 0 <= hd < N → 0 <= k < N - 1 → slot_of hd k ≠ hd.
Proof.
  intros Hh Hk. unfold slot_of. intros Heq. destruct (decide (0 <= hd - 1 - k)) as [Hp|Hp].
  - rewrite Z.mod_small in Heq by lia. lia.
  - rewrite <- (Z.mod_add _ 1) in Heq by lia. rewrite Z.mod_small in Heq by lia. lia.
Qed.

Lemma capture_holds row s h :
  holds s h → VTERM_COLS <= len row → ∃ s', captureTopLine (Some row) s = Done (tt, s') ∧ holds s' (h_capture columns room row h).
Proof.
  destruct s as [sb bc bl hd ct vo]. intros [(block & Hblock & Hlen & Hlines) Hc Hl Hh Hcount Hr Ho Hv] Hrow. simpl in *. subst sb bc bl ct vo.
  unfold captureTopLine. rewrite (bind_eq get _ _ _ _ eq_refl). cbv zeta. cbn [sb_buffer bufferColumns bufferLines head count viewOffset].
  assert (Hmin : (if columns <? VTERM_COLS then columns else VTERM_COLS) = columns) by (destruct (columns <? VTERM_COLS) eqn:?; lia).
  rewrite Hmin. destruct (line_range _ Hh) as [Hh1 Hh2].
  replace (_ && _)%bool with true by lia. rewrite (bind_eq (put _) _ _ _ _ eq_refl), !(bind_eq (modify _) _ _ _ _ eq_refl).
  fold (ring_set hd (take (Z.to_nat columns) row) block). unfold h_capture. set (top := take (Z.to_nat columns) row).
  assert (Htop : len top = columns) by (unfold top; rewrite length_take; lia).
  cbv zeta. set (ls := take room (top :: lines h)).
  assert (Hls : len ls = Z.min N (len (lines h) + 1)) by (unfold ls; rewrite length_take; cbn [length]; lia).
  eexists. split; [reflexivity|]. unfold set_field. cbn [count bufferLines].
  assert (Hcnt : (if len (lines h) <? N then len (lines h) + 1 else len (lines h)) = len ls) by (rewrite Hls; destruct (len (lines h) <? N) eqn:?; lia).
  assert (Hview : ∀ o, 0 <= o <= len ls →
    holds (SB (Some (ring_set hd top block)) columns N ((hd + 1) mod N) (len ls) o) (History ls o)).
  { intros o Hview. constructor; simpl; try done; [|apply Z.mod_pos_bound; lia|lia].
    exists (ring_set hd top block). split; [done|].
    destruct (slice_set hd hd top block Hlen Htop Hh Hh) as [Hl1 _]. split; [done|].
    intros k l Hk. rewrite slot_next by done.
    destruct (slice_set hd (if decide (Z.of_nat k = 0) then hd else slot_of hd (Z.of_nat k - 1)) top block Hlen Htop Hh) as [_ ->].
    { case_decide; [done|apply slot_range]. }
    apply lookup_take_Some in Hk as [Hk Hkr]. destruct k as [|k].
    - rewrite !decide_True by done. by injection Hk.
    - rewrite (decide_False (P := Z.of_nat (S k) = 0)) by lia. replace (Z.of_nat (S k) - 1) with (Z.of_nat k) by lia.
      rewrite decide_False by (apply slot_free; lia). by apply Hlines. }
  destruct (len (lines h) <? N) eqn:Hlt; cbn [viewOffset count]; rewrite Hcnt; (destruct (_ && _)%bool eqn:Hb); cbn; apply Hview; lia.
Qed.

Lemma scroll_holds n s h :
  holds s h → - 2^30 <= n <= 2^30 → N < 2^30 →
  ∃ s', scroll n s = Done (negb (offset (h_scroll n h) =? offset h), s') ∧ holds s' (h_scroll n h).
Proof.
  intros [Hblock Hc Hl Hh Hcount Hr Ho Hv] Hn HN. unfold scroll. rewrite (bind_eq get _ _ _ _ eq_refl). cbv zeta.
  rewrite (bind_eq _ _ _ (viewOffset s + n) s) by (unfold int; by replace (_ && _)%bool with true by lia).
  rewrite !(bind_eq (modify _) _ _ _ _ eq_refl), (bind_eq get _ _ _ _ eq_refl).
  set (s1 := s <| viewOffset := viewOffset s + n |>). set (s2 := if viewOffset s1 <? 0 then s1 <| viewOffset := 0 |> else s1).
  set (s3 := if count s2 <? viewOffset s2 then s2 <| viewOffset := count s2 |> else s2).
  assert (Hs3 : s3 = s <| viewOffset := offset (h_scroll n h) |>).
  { assert (Hs2 : s2 = s <| viewOffset := Z.max 0 (offset h + n) |>).
    { unfold s2. simpl. rewrite Ho. destruct (offset h + n <? 0) eqn:?; unfold s1, set_field; simpl; f_equal; lia. }
    unfold s3. rewrite Hs2. simpl. rewrite Hcount.
    destruct (len (lines h) <? _) eqn:?; unfold set_field; simpl; f_equal; lia. }
  rewrite Hs3. eexists. split; [by rewrite Ho|]. constructor; simpl; try done. lia.
Qed.

Lemma reset_holds s h :
  holds s h → ∃ s', reset_view s = Done (negb (offset h =? 0), s') ∧ holds s' (h_reset h).
Proof.
  intros [Hblock Hc Hl Hh Hcount Hr Ho Hv]. unfold reset_view. rewrite (bind_eq get _ _ _ _ eq_refl), Ho.
  destruct (offset h =? 0) eqn:H0; (eexists; split; [reflexivity|]); constructor; simpl; try done; lia.
Qed.

Lemma row_holds r s h : holds s h → 0 <= r → rowForDisplay r s = Done (h_row r h, s).
Proof.
  intros [(block & Hblock & Hlen & Hlines) Hc Hl Hh Hcount Hr Ho Hv] Hrow. unfold rowForDisplay. rewrite (bind_eq get _ _ _ _ eq_refl), Hblock, Ho.
  unfold h_row. simpl (is_some _). destruct (offset h <=? 0) eqn:H0.
  { replace (offset h - r <=? 0) with true by lia. done. }
  cbn [negb orb]. cbv zeta. destruct (offset h - r <=? 0) eqn:Hage; [done|].
  unfold storedLine. rewrite bind_bind, (bind_eq get _ _ _ _ eq_refl). rewrite Hcount. replace (_ || _)%bool with false by lia.
  set (k := offset h - r - 1) in *. destruct (lookup_lt_is_Some_2 (lines h) (Z.to_nat k) ltac:(lia)) as [l Hk]. rewrite Hk.
  assert (Hwrap : wrap_index (S (Z.to_nat (len (lines h)))) (bufferLines s) (head s - 1 - k) s = Done (slot_of (head s) k, s)).
  { rewrite Hl. unfold slot_of. cbn [wrap_index]. destruct (0 <=? head s - 1 - k) eqn:Hpos; [by rewrite Z.mod_small by lia|].
    assert (Hone : (head s - 1 - k) mod N = head s - 1 - k + N) by (rewrite <- (Z.mod_add _ 1), Z.mod_small by lia; lia).
    rewrite Hone. destruct (Z.to_nat (len (lines h))); cbn [wrap_index]; by replace (0 <=? _) with true by lia. }
  rewrite bind_bind, (bind_eq _ _ _ _ _ Hwrap), (bind_eq (mret _) _ _ _ _ eq_refl). cbv iota.
  pose proof (slot_range (head s) k) as Hslot. destruct (line_range _ Hslot) as [Hs1 Hs2].
  rewrite Hc. erewrite bind_eq; [|].
  2:{ unfold cells_from, deref. rewrite bind_eq with (a := block) (s' := s) by by rewrite Hblock.
      replace (_ && _)%bool with true by lia. reflexivity. }
  specialize (Hlines _ _ Hk). rewrite Z2Nat.id in Hlines by lia. unfold ring_line in Hlines. by rewrite Hlines.
Qed.

(** * Sequences of operations *)

Inductive view_op :=
  | Capture (row : list cell)
  | Scroll (n : Z)
  | Reset
  | Row (r : Z).
Inductive answer := Nothing | Moved (moved : bool) | Shows (row : option (list cell)).

Definition view_run (o : view_op) : M scrollback answer :=
  match o with
  | Capture row => captureTopLine (Some row);; mret Nothing
  | Scroll n => moved ← scroll n; mret (Moved moved)
  | Reset => moved ← reset_view; mret (Moved moved)
  | Row r => row ← rowForDisplay r; mret (Shows row)
  end.
Definition history_run (o : view_op) (h : lines_back) : answer * lines_back :=
  match o with
  | Capture row => (Nothing, h_capture columns room row h)
  | Scroll n => (Moved (negb (offset (h_scroll n h) =? offset h)), h_scroll n h)
  | Reset => (Moved (negb (offset h =? 0)), h_reset h)
  | Row r => (Shows (h_row r h), h)
  end.
(** What the terminal asks for: whole grids, small steps, rows of the screen. *)
Definition proper (o : view_op) : Prop :=
  match o with
  | Capture row => VTERM_COLS <= len row
  | Scroll n => - 2^30 <= n <= 2^30
  | Reset => True
  | Row r => 0 <= r
  end.

Fixpoint view_runs (os : list view_op) : M scrollback (list answer) :=
  match os with [] => mret [] | o :: os => a ← view_run o; rest ← view_runs os; mret (a :: rest) end.
Fixpoint history_runs (os : list view_op) (h : lines_back) : list answer :=
  match os with [] => [] | o :: os => let '(a, h) := history_run o h in a :: history_runs os h end.

Lemma view_run_holds o s h :
  holds s h → proper o → N < 2^30 →
  ∃ s', view_run o s = Done (fst (history_run o h), s') ∧ holds s' (snd (history_run o h)).
Proof.
  intros Hs Ho HN. destruct o as [row|n| |r]; simpl in Ho; unfold view_run, history_run, fst, snd.
  - destruct (capture_holds row s h Hs Ho) as (s' & Hrun & Hs'). exists s'. by rewrite (bind_eq _ _ _ _ _ Hrun).
  - destruct (scroll_holds n s h Hs Ho HN) as (s' & Hrun & Hs'). exists s'. by rewrite (bind_eq _ _ _ _ _ Hrun).
  - destruct (reset_holds s h Hs) as (s' & Hrun & Hs'). exists s'. by rewrite (bind_eq _ _ _ _ _ Hrun).
  - exists s. by rewrite (bind_eq _ _ _ _ _ (row_holds r s h Hs Ho)).
Qed.

Lemma view_runs_holds os s h : holds s h → Forall proper os → N < 2^30 → ∃ s', view_runs os s = Done (history_runs os h, s').
Proof.
  intros Hs Hos HN. revert s h Hs. induction Hos as [|o os Ho Hos IH]; intros s h Hs; [by exists s|].
  destruct (view_run_holds o s h Hs Ho HN) as (s1 & Hrun & Hs1). cbn [view_runs history_runs]. rewrite (bind_eq _ _ _ _ _ Hrun).
  destruct (history_run o h) as [a h1]. destruct (IH s1 h1 Hs1) as (s2 & Hrun2). exists s2. by rewrite (bind_eq _ _ _ _ _ Hrun2).
Qed.

Lemma begin_holds s0 : ∃ s, scrollback_begin true columns N s0 = Done (true, s) ∧ holds s (History [] 0).
Proof.
  unfold scrollback_begin, scrollback_end. rewrite (bind_eq (put _) _ _ _ _ eq_refl). replace (_ || _)%bool with false by lia. cbn [negb].
  rewrite (bind_eq (put _) _ _ _ _ eq_refl). eexists. split; [reflexivity|]. constructor; simpl; try done; try lia.
  eexists. split; [done|]. split; [rewrite length_replicate; lia|]. intros k l. by rewrite lookup_nil.
Qed.

(** C20: The scrollback is a history of lines.  However the terminal scrolls lines off,
    however often the ring has wrapped, and however the view is moved, the ring answers as
    a plain list of the newest lines does: what is shown on a row of the screen is the line
    that many lines back, cut to the width of the screen, or the live row; the view never
    leaves the history; and no access leaves the block of cells. *)
Theorem scrollback_refines_history s0 os :
  Forall proper os → N < 2^30 →
  ∃ s s', scrollback_begin true columns N s0 = Done (true, s) ∧ view_runs os s = Done (history_runs os (History [] 0), s').
Proof.
  intros Hos HN. destruct (begin_holds s0) as (s & Hbegin & Hs). destruct (view_runs_holds os s _ Hs Hos HN) as (s' & Hrun).
  by exists s, s'.
Qed.

(** C28: The view stays on the same text while new lines arrive: a line of the history that
    a row of the screen shows is still on that row after one more line has scrolled off,
    unless the view is at the oldest line of a full history. *)
Theorem view_stays_anchored s h r l row :
  holds s h → 0 <= r → VTERM_COLS <= len row → viewOffset s < bufferLines s →
  rowForDisplay r s = Done (Some l, s) →
  ∃ s', captureTopLine (Some row) s = Done (tt, s') ∧ rowForDisplay r s' = Done (Some l, s').
Proof.
  intros Hs Hr Hrow Hfull Hshow. rewrite (row_holds r s h Hs Hr) in Hshow.
  destruct (capture_holds row s h Hs Hrow) as (s' & Hrun & Hs'). exists s'. split; [done|]. rewrite (row_holds r s' _ Hs' Hr). do 2 f_equal.
  rewrite (ho_offset _ _ Hs), (ho_lines _ _ Hs) in Hfull. pose proof (ho_view _ _ Hs) as Hv. pose proof (ho_room _ _ Hs) as Hl.
  unfold h_row in *. destruct (offset h - r <=? 0) eqn:Hage; [done|]. injection Hshow as Hk. apply lookup_lt_Some in Hk as Hlt.
  unfold h_capture. cbn [offset lines].
  assert (Hmoved : ((0 <? offset h) && (offset h <? len (take room (take (Z.to_nat columns) row :: lines h))))%bool = true).
  { rewrite length_take. rewrite length_cons. apply andb_true_intro. split; [lia|]. apply Z.ltb_lt. lia. }
  rewrite Hmoved. replace (offset h + 1 - r <=? 0) with false by lia.
  replace (Z.to_nat (offset h + 1 - r - 1)) with (S (Z.to_nat (offset h - r - 1))) by lia.
  rewrite lookup_take_lt by lia. exact Hk.
Qed.
End specs.

Section demo.
#[local] Existing Instance spiram_config.

(** Lines of 53 columns, three of which are kept. *)
Definition demo_line (c : ascii) : list cell := replicate 128 (Cell c VTERM_DEFAULT_ATTR).
Definition demo_ops : list view_op :=
  [Capture (demo_line "a"); Capture (demo_line "b"); Scroll 5; Row 0; Capture (demo_line "c"); Row 0; Capture (demo_line "d"); Row 1; Reset; Row 0].

Lemma scrollback_refines_history_witness :
  Forall proper demo_ops ∧
  ∃ s s', scrollback_begin true 53 3 no_scrollback = Done (true, s) ∧ view_runs demo_ops s = Done (history_runs 53 3 demo_ops (History [] 0), s').
Proof.
  assert (Hops : Forall proper demo_ops).
  { repeat constructor; vm_compute; congruence. }
  assert (Hwide : 0 < 53 <= VTERM_COLS) by done.
  split; [exact Hops|].
  apply (scrollback_refines_history 53 3 Hwide ltac:(lia) no_scrollback demo_ops Hops). vm_compute. reflexivity.
Defined.

(** One line back, with the view on it. *)
Definition demo_row : list cell := replicate 53 (Cell "a" VTERM_DEFAULT_ATTR).
Definition demo_scrollback : scrollback := SB (Some (demo_row ++ replicate 106 null_cell)) 53 3 1 1 1.
Lemma demo_holds : holds 53 3 demo_scrollback (History [demo_row] 1).
Proof.
  constructor; simpl; try done; [|lia].
  exists (demo_row ++ replicate 106 null_cell). split; [done|]. split; [done|]. intros [|k] l; [|done]. intros [= <-]. reflexivity.
Qed.

Lemma view_stays_anchored_witness :
  rowForDisplay 0 demo_scrollback = Done (Some demo_row, demo_scrollback) ∧
  ∃ s', captureTopLine (Some (demo_line "b")) demo_scrollback = Done (tt, s') ∧ rowForDisplay 0 s' = Done (Some demo_row, s').
Proof.
  assert (Hwide : 0 < 53 <= VTERM_COLS) by done.
  split; [reflexivity|].
  apply (view_stays_anchored 53 3 Hwide ltac:(lia) demo_scrollback (History [demo_row] 1) 0 demo_row (demo_line "b") demo_holds);
    [lia|vm_compute; congruence|reflexivity|reflexivity].
Defined.
End demo.
